(* ===== verification/_CoqProject ===== *)
-Q . S2P
Prelude.v
Crypto.v
Utf8.v
WireCommon.v
WireCodec.v
WireTx.v
WireBlock.v
WireMsgs.v
WireMsgCodecs.v
NetAddrV2.v
WireMessage.v
Digits.v
Hash.v
Base58.v
ScriptError.v
ScriptNum.v
ScriptStack.v
Opcodes.v
Tokenizer.v
Script.v
ScriptBuilder.v
Standard.v
Sighash.v
SigParse.v
SigCache.v
Engine.v
EngineInv.v
EngineSafety.v
EnginePay.v
EngineCache.v
EngineMulti.v
EngineP2sh.v
EngineCond.v
Address.v
PkScript.v
Sign.v
Coins.v
Float64.v
Amount.v
Rosetta.v
Client.v
ClientFacts.v
UtilTx.v
Config.v
Construction.v
ConstructionLaws.v
ConstructionFacts.v
ConstructionTrip.v
Threads.v
Indexer.v
IndexerFacts.v
IndexerSteps.v
IndexerThms.v
IndexerQuery.v
Services.v
TxLocs.v
TxHeap.v
HashCache.v
AtomicSwap.v
TxPool.v
TxPoolFacts.v
Disasm.v
WireNames.v
WireNew.v
Process.v
Logging.v
