(* ===== verification/Prelude.v ===== *)
(** * A verification development of rosetta-thought

    rosetta-thought serves the Rosetta API for the Thought network.  It starts a
    node, indexes the blocks of the node, answers queries from the index, and
    constructs transactions.  Its core is the library under src/thoughtd: the wire
    encoding of transactions, blocks and messages, the script language that
    decides whether an output may be spent, addresses, and signing.

    ** How the parts interact

    The client (src/thought) fetches blocks from the node by JSON-RPC, lists the
    coins a block spends, and, given these coins, translates the block into
    operations.  The indexer (src/indexer) runs the client in several goroutines,
    finds the coins in its storage or in a cache of blocks that were seen, and
    waits in a table for those that are not there yet.  The services
    (src/services) answer from the index and build transactions: payloads makes
    the unsigned transaction and the hashes to sign, combine puts signatures into
    the unlocking scripts, parse reads back what a transaction does.

    For that they use src/thoughtd.  An address is base58 text of a hash or a key
    and stands for a locking script.  [NewEngine] takes the locking script of an
    output and the transaction that spends it, checks both scripts, and returns an
    engine; [Execute] runs [Step] until the scripts are used up.  A step asks the
    tokenizer for an opcode, looks its handler up in the opcode table and runs it
    on two stacks of byte strings, which read and write script numbers.  A
    signature check cuts the script, removes the signature from it, computes the
    signature hash (a serialization of a trimmed copy of the transaction), parses
    signature and key, consults the signature cache, and asks the elliptic curve
    package for the verdict.

    ** Files

    Foundations.
    - Prelude: Go slices, machine integers and the state-and-error monad, with
      the tactics and the hint databases [go] and [zlen].
    - Crypto: chaincfg/chainhash/hashfuncs.go over the external hash functions
      and curve, which are the fields of the class [Crypto].
    - Utf8, Digits, Float64: from the standard library, the runes of a string,
      numbers in positional notation with strconv, and binary64 arithmetic.

    thoughtd/wire.
    - WireCommon, WireCodec: common.go.  The class [Codec] is the interface between
      a reader, its writer and the encoding they agree on: what a client (a record
      made of fields) proves, it proves from the codecs of its fields.
    - WireTx: msgtx.go, with the shared script buffer of the decoder.
    - TxLocs: the locations of output scripts, [PkScriptLocs] of msgtx.go.
    - TxHeap: [Copy] of msgtx.go and [shallowCopyTx] of txscript/sighash.go in a
      memory of structs and arrays that slices share.
    - TxPool, TxPoolFacts: [scriptFreeList] of msgtx.go and the decoder with the
      buffers it borrows and returns.
    - WireBlock: blockheader.go, msgblock.go, msgmerkleblock.go.
    - WireMsgs, WireMsgCodecs: the peer messages and their encodings.
    - NetAddrV2: netaddressv2.go.
    - WireMessage: message.go, the envelope of all messages.
    - WireNew: the constructors of the peer messages.
    - WireNames: the texts of service flags, inventory types, reject codes, outpoints
      and onion addresses (protocol.go, invvect.go, msgreject.go, netaddressv2.go).

    thoughtd/txscript.
    - ScriptError, ScriptNum, ScriptStack, Tokenizer, Script, ScriptBuilder,
      Standard, Sighash, SigCache: the files of these names (error.go,
      scriptnum.go, ...); [parse_op] is the grammar the tokenizer implements.
    - Opcodes: the constants and the table [opcodeArray] of opcode.go.
    - SigParse: thtec/ecdsa/signature.go and the encoding checks of engine.go.
    - Engine: engine.go, the handlers of opcode.go, sigvalidate.go.
    - EngineInv: the invariant of the engine and the lemma of every handler.
    - EngineSafety, EnginePay, EngineCache, EngineMulti, EngineP2sh, EngineCond: the
      theorems on the engine.
    - PkScript, Sign: pkscript.go and sign.go.
    - HashCache: hashcache.go; the class [PrevOutputFetcher] is its interface.
    - AtomicSwap: [ExtractAtomicSwapDataPushes] of standard.go.
    - Disasm: the disassembler of opcode.go, script.go and engine.go, and the
      names of opcodes.

    thoughtd: the rest.
    - Hash: chaincfg/chainhash/hash.go.
    - Base58: base58/.
    - Address: util/address.go, chaincfg/params.go, and the functions of
      standard.go on addresses.
    - Amount, UtilTx: util/amount.go and util/tx.go.

    The service.
    - Rosetta: the types of the Rosetta SDK that are exchanged.
    - Coins: thought/utils.go and the identifiers of coins.
    - Client, ClientFacts: thought/client.go and thought/types.go.
    - Config: configuration/configuration.go.
    - Construction: services/construction_service.go; ConstructionLaws,
      ConstructionFacts, ConstructionTrip: its parameters and its theorems.
    - Threads: programs that share a state, schedules, and the proof rule for
      invariants of their interleavings.
    - Indexer: indexer/indexer.go and indexer/wait_table.go; IndexerFacts,
      IndexerSteps, IndexerThms: the invariant of its goroutines, its preservation,
      the theorems; IndexerQuery: the queries.
    - Services: the other endpoints and services/errors.go.
    - Process: main.go and the start of the node in thought/node.go, as a trace of
      events; Logging: the log of the node's output and services/logger.go.

    Definitions keep the names of the source.  A struct is a record; the methods
    of a pointer receiver are calls of the monad [M] on that record, so that the
    state is also given where a method returns an error.  An [outcome] is a
    result ([Ret]), an error of the program ([Fail]), a run-time panic ([Crash]:
    an index or slice out of range, a nil dereference, a channel closed twice) or
    the end of the fuel ([NoFuel]).  Integers are [Z], with [i32], [i64],
    [u8] .. [u64] written where the source converts or may wrap; floating point
    numbers are those of SpecFloat at the format of float64, and every operation
    rounds.  A goroutine is a tree of atomic actions on the shared state; a
    section that holds a lock and touches only what the lock protects is one
    action.

    ** What is shown

    - Engine, safety: [NewEngine] establishes the invariant and [Step] keeps it;
      a step panics exactly at a signature check of an empty signature;
      [Execute] ends on every input and its success is characterized.
    - Engine, meaning: the verdict on a pay-to-pubkey-hash input is the equality
      of hashes and the verification of the signature; CHECKMULTISIG decides the
      existence of an order-preserving assignment of signatures to keys, although
      it never backtracks; behind a script hash, the verdict is the equality of
      hashes and that assignment; in the steps of the engine IF, ELSE and ENDIF are the
      structured statement; a signature cache cannot change a verdict.
    - Construction: what payloads builds and combine completes with signatures that do
      not begin with a zero byte is accepted by the engine on every input; parse
      undoes both; a signature with a leading zero byte makes combine panic, or is
      read shifted when its slice has spare capacity.
    - Indexer: in every interleaving no channel is closed twice, no listener loses
      its entry, the wait table is emptied, no wakeup is lost, and it is determined
      which events end a wait, among them the addition of the block before the
      earliest one registered.  Two runs at the end of IndexerThms show a wait that was
      registered after that and stays asleep, and a panic.
    - Client and queries: parsed blocks mirror the blocks of the node, the coins
      that were asked for suffice, the blocks are of the form the indexer relies
      on, and the scripts found for coins are those of the blocks.
    - Other endpoints: blocks are listed completely; offline, no request is sent;
      the configuration is classified.
    - Signing and addresses: what is signed is accepted; addresses, their texts
      and their scripts determine each other; locking scripts are recovered from
      unlocking scripts.
    - Signature hashes: they exist for every existing input, do not depend on
      unlocking scripts or witnesses, and those of type ALL determine everything
      they are meant to commit to.
    - Scripts: the tokenizer implements the grammar; removal of opcodes, push-only
      tests and signature counts are functions of the parse; what the builder
      adds parses back; recognizers accept exactly what constructors build.
    - Numbers, stacks, signatures: script numbers are encoded and decoded exactly,
      stack methods have the effects of their diagrams; the signature parsers never
      panic, and the engine's encoding check implies the strict form.
    - Wire: transactions, blocks and messages round-trip, decoding never panics,
      a refused message is skipped unless its header is over the limit, sizes and
      limits are right, the transaction hash is a hash of an injective
      encoding.
    - Memory: a deep copy shares nothing with its original; the decoder that
      borrows buffers from the pool agrees with the one on values, returns each
      buffer once and leaves the memory of others alone, unless its receiver still
      holds outputs of an earlier decoding, for which a run at the end of
      TxPoolFacts shows an overwritten script.
    - Caches: after any calls the cache of digests holds those of the last
      transaction added under each hash and not purged; they are those of BIP 143.
    - Contracts: exactly the atomic swaps of the documented format are recognized.
    - Disassembly: the compact form lists the opcodes, the long form determines
      the script.
    - Text: base58, hashes, coin identifiers and amounts are read back as printed;
      the texts of service flags, outpoints and onion addresses determine them.
    - Constructors: a message that was built by its constructor and its Add methods
      is well-formed, so that it is read back as it was written.
    - Process: whatever the environment does, the tasks of the mode are started in
      order, all of them before the wait and none after it, and a database that was opened is closed right after it, unless the process
      ended while it was starting; the output of the node is logged line by line.

    ** Fuel and bounds

    [exec_fuel], the number of rounds of [Execute], is the number of script bytes
    plus 520 plus one: a step reads at least one byte, and the only script that
    is added during execution is a redeem script, an element of the stack, which
    has at most 520 bytes.  [multisigLoop] has the number of keys plus two rounds,
    as every round but the last consumes a key; [for_next], the loops over a
    tokenizer, has [tok_fuel], the length of the script plus one; the loops of
    base58 have one round more than there are bytes or symbols: for these the
    theorems show that [NoFuel] is not reached.  The loop of [Bytes] has eight
    rounds, the bytes of an int64, and its theorem shows that no digit is lost.
    [mergeScripts] and [SignTxOutput] have fuel because the source recurses without
    a bound: a nested script hash makes it run forever.  [findCoin], [findCoins]
    and [waitForNode] retry as long as the program runs; their theorems are about
    all states of all schedules and hold for every fuel, so that the fuel only
    bounds how long a run is.  Lengths of Go slices fit an int and offsets of the
    tokenizer are int32: the theorems about scripts ask for a script shorter than
    2^31 bytes, of which [NewEngine] itself accepts at most 10000.

    ** Parameters

    Code that is not under src/ is a class with the calls the program makes, and a
    class of the documented laws a theorem relies on; each has an instance with
    which the model is run.  [Crypto], [CryptoLaws], [KeyLaws], [SignLaws]: hash
    functions and the curve ([toy]).  [MapOrder]: the order in which Go ranges over
    a map.  [FloatConv]: the conversion of floating point numbers out of range.
    [SDK], [SDKLaws], [Node]: JSON maps and the connection to the node ([toy_sdk],
    [toy_node]).  [Parser], [ParserLaws], [Json], [JsonLaws]: the SDK's matching of
    operations and the JSON of the exchanged structures ([toy_parser],
    [toy_json]).  [Storage], [QueryLaws]: the storage of the SDK ([toy_storage]).
    [Env]: environment variables and directories.  [Sha3], [Sha3Laws]: the hash in
    an onion address ([toy_sha3]).  [Host]: what the operating system, the database
    and the asserters of the SDK answer to [main].

    ** What is not modelled

    Locks that order calls and do not change what a call does; the free list of
    integer buffers in wire/common.go, which holds no data between calls; the
    fields of the engine its methods never read; the printing of IP addresses and
    of amounts, which is that of the standard library; the aliases of the curve
    package, with [Sign], [SignCompact] and [RecoverCompact], which only call it;
    the callbacks that the storage of the SDK makes (indexer/*_storage_*.go), which
    return constants or forward one call; the options of the database; the HTTP
    router, which is built by the SDK; the statistics of memory usage, and the
    generated mocks. *)

From stdpp Require Export base tactics list numbers strings gmap.
From Stdlib Require Export ZArith Lia.
From Stdlib Require Import Strings.Byte.

#[global] Set Default Proof Using "Type".

Declare Scope go_scope.
Delimit Scope go_scope with go.
Open Scope Z_scope.

(** ** Bytes *)

Notation byte := Byte.byte.
Notation bytes := (list byte).

(** A string constant: Go strings are byte sequences. *)
Notation str s := (String.list_byte_of_string s%string) (only parsing).

(** The value of a byte, and the truncating conversion [byte(z)]. *)
Definition b2z (b : byte) : Z := Z.of_N (Byte.to_N b).
Definition z2b (z : Z) : byte :=
  match Byte.of_N (Z.to_N (z mod 256)) with Some b => b | None => Byte.x00 end.

Lemma b2z_range b : 0 <= b2z b < 256.
Proof. pose proof (Byte.to_N_bounded b). unfold b2z. lia. Qed.

Lemma b2z_z2b z : b2z (z2b z) = z mod 256.
Proof.
  unfold b2z, z2b.
  pose proof (Z.mod_pos_bound z 256 ltac:(lia)) as Hz.
  destruct (Byte.of_N (Z.to_N (z mod 256))) as [b|] eqn:E.
  - apply Byte.to_of_N in E. rewrite E. lia.
  - apply Byte.of_N_None_iff in E. lia.
Qed.

Lemma z2b_b2z b : z2b (b2z b) = b.
Proof.
  unfold z2b. rewrite Z.mod_small by apply b2z_range.
  unfold b2z. by rewrite N2Z.id, Byte.of_to_N.
Qed.

#[export] Instance b2z_inj : Inj (=) (=) b2z.
Proof. intros x y H. by rewrite <- (z2b_b2z x), H, z2b_b2z. Qed.

#[export] Instance byte_eq_dec : EqDecision byte := Byte.byte_eq_dec.
#[export] Instance byte_countable : Countable byte :=
  inj_countable' b2z z2b z2b_b2z.

(** ** Slices

    [len], indexing and reslicing of a Go slice.  An access out of range is
    [None]; the callers turn it into a run-time panic. *)

Definition zlen {A} (l : list A) : Z := Z.of_nat (length l).

Definition znth {A} (l : list A) (i : Z) : option A :=
  if decide (0 <= i) then l !! Z.to_nat i else None.

(** [l[a:b]] *)
Definition zslice {A} (l : list A) (a b : Z) : option (list A) :=
  if decide (0 <= a /\ a <= b /\ b <= zlen l)
  then Some (take (Z.to_nat (b - a)) (drop (Z.to_nat a) l)) else None.

Definition zsum {A} (f : A -> Z) (l : list A) : Z := foldr (fun x n => f x + n) 0 l.

(** ** Machine integers *)

Definition u8 (z : Z) : Z := z mod 2 ^ 8.
Definition u16 (z : Z) : Z := z mod 2 ^ 16.
Definition u32 (z : Z) : Z := z mod 2 ^ 32.
Definition u64 (z : Z) : Z := z mod 2 ^ 64.
Definition i32 (z : Z) : Z := (z + 2 ^ 31) mod 2 ^ 32 - 2 ^ 31.
Definition i64 (z : Z) : Z := (z + 2 ^ 63) mod 2 ^ 64 - 2 ^ 63.

Notation maxInt32 := (2 ^ 31 - 1) (only parsing).
Notation minInt32 := (- 2 ^ 31) (only parsing).

(** ** Little-endian integers ([encoding/binary]) *)

Fixpoint le_bytes (n : nat) (v : Z) : bytes :=
  match n with
  | O => []
  | S n => z2b v :: le_bytes n (v / 256)
  end.

Fixpoint le_val (bs : bytes) : Z :=
  match bs with
  | [] => 0
  | b :: bs => b2z b + 256 * le_val bs
  end.

(** Big-endian value of a byte string ([big.Int.SetBytes]). *)
Definition be_val (bs : bytes) : Z :=
  fold_left (fun acc b => 256 * acc + b2z b) bs 0.

(** ** Outcomes

    What a Go call can do: return a value, return an error, panic, or (only in
    the model) use up the fuel of a loop. *)

Inductive outcome (E A : Type) : Type :=
  | Ret (a : A)
  | Fail (e : E)
  | Crash
  | NoFuel.
Arguments Ret {E A} a.
Arguments Fail {E A} e.
Arguments Crash {E A}.
Arguments NoFuel {E A}.

#[export] Instance outcome_eq_dec {E A} `{EqDecision E, EqDecision A} : EqDecision (outcome E A).
Proof. solve_decision. Defined.

Definition bindO {E A B} (m : outcome E A) (k : A -> outcome E B) : outcome E B :=
  match m with
  | Ret a => k a
  | Fail e => Fail e
  | Crash => Crash
  | NoFuel => NoFuel
  end.

(** An index or slice expression: out of range is a panic. *)
Definition orCrash {E A} (o : option A) : outcome E A :=
  match o with Some a => Ret a | None => Crash end.

(** ** Stateful calls

    A method with a mutable receiver of type [S]; the state is kept when the
    call returns an error. *)

Definition M (S E A : Type) : Type := S -> outcome E A * S.

Definition retM {S E A} (a : A) : M S E A := fun s => (Ret a, s).
Definition failM {S E A} (e : E) : M S E A := fun s => (Fail e, s).
Definition crashM {S E A} : M S E A := fun s => (Crash, s).
Definition bindM {S E A B} (m : M S E A) (k : A -> M S E B) : M S E B :=
  fun s => match m s with
           | (Ret a, s') => k a s'
           | (Fail e, s') => (Fail e, s')
           | (Crash, s') => (Crash, s')
           | (NoFuel, s') => (NoFuel, s')
           end.
Definition getM {S E} : M S E S := fun s => (Ret s, s).
Definition putM {S E} (s : S) : M S E unit := fun _ => (Ret tt, s).
Definition modifyM {S E} (f : S -> S) : M S E unit := fun s => (Ret tt, f s).
Definition liftO {S E A} (o : outcome E A) : M S E A := fun s => (o, s).

Notation "'let!' x := m 'in' k" := (bindO m (fun x => k))
  (at level 200, x pattern, m at level 100, k at level 200, right associativity) : go_scope.
Notation "x <- m ;; k" := (bindM m (fun x => k))
  (at level 100, m at next level, k at level 200, right associativity) : go_scope.
Notation "' p <- m ;; k" := (bindM m (fun p => k))
  (at level 100, p pattern, m at next level, k at level 200, right associativity, only parsing) : go_scope.
Notation "m ;; k" := (bindM m (fun _ => k))
  (at level 100, k at level 200, right associativity) : go_scope.
Open Scope go_scope.

(** [onM get set m] runs a method of a field on the enclosing struct. *)
Definition onM {S T E A} (get : S -> T) (set : T -> S -> S) (m : M T E A) : M S E A :=
  fun s => let '(r, t) := m (get s) in (r, set t s).

(** ** Automation *)

Create HintDb go.
Create HintDb zlen.

(** Case analysis on the scrutinee of the first [match] of the goal or of a
    hypothesis that is applied to a call. *)
Ltac case_goal :=
  match goal with
  | |- context [match ?x with _ => _ end] => destruct x eqn:?
  | |- context [if ?x then _ else _] => destruct x eqn:?
  end.
Ltac case_hyp H :=
  match type of H with
  | context [match ?x with _ => _ end] => destruct x eqn:?
  | context [if ?x then _ else _] => destruct x eqn:?
  end.

(** Turn the boolean comparisons of the code into propositions. *)
Ltac zbool :=
  repeat match goal with
  | H : _ && _ = true |- _ => apply andb_prop in H; destruct H
  | H : _ || _ = false |- _ => apply orb_false_elim in H; destruct H
  | H : negb _ = true |- _ => apply negb_true_iff in H
  | H : negb _ = false |- _ => apply negb_false_iff in H
  | H : (_ =? _) = true |- _ => apply Z.eqb_eq in H
  | H : (_ =? _) = false |- _ => apply Z.eqb_neq in H
  | H : (_ <? _) = true |- _ => apply Z.ltb_lt in H
  | H : (_ <? _) = false |- _ => apply Z.ltb_ge in H
  | H : (_ <=? _) = true |- _ => apply Z.leb_le in H
  | H : (_ <=? _) = false |- _ => apply Z.leb_gt in H
  | H : (_ >? _) = true |- _ => rewrite Z.gtb_ltb in H
  | H : (_ >? _) = false |- _ => rewrite Z.gtb_ltb in H
  | H : (_ >=? _) = true |- _ => rewrite Z.geb_leb in H
  | H : (_ >=? _) = false |- _ => rewrite Z.geb_leb in H
  end.

(** Split the boolean tests of the goal with their specifications. *)
Ltac zcase :=
  match goal with
  | |- context [?a =? ?b] => destruct (Z.eqb_spec a b)
  | |- context [?a <? ?b] => destruct (Z.ltb_spec a b)
  | |- context [?a <=? ?b] => destruct (Z.leb_spec a b)
  | |- context [?a >? ?b] => rewrite (Z.gtb_ltb a b)
  | |- context [?a >=? ?b] => rewrite (Z.geb_leb a b)
  end.

(** Evaluate the boolean tests of the goal that arithmetic decides. *)
Ltac ztest :=
  repeat match goal with
  | |- context [?a >? ?b] => rewrite (Z.gtb_ltb a b)
  | |- context [?a >=? ?b] => rewrite (Z.geb_leb a b)
  | |- context [?a <? ?b] =>
      first [rewrite (proj2 (Z.ltb_lt a b)) by lia | rewrite (proj2 (Z.ltb_ge a b)) by lia]
  | |- context [?a <=? ?b] =>
      first [rewrite (proj2 (Z.leb_le a b)) by lia | rewrite (proj2 (Z.leb_gt a b)) by lia]
  | |- context [?a =? ?b] =>
      first [rewrite (proj2 (Z.eqb_eq a b)) by lia | rewrite (proj2 (Z.eqb_neq a b)) by lia]
  end.

(** Reduce the monadic plumbing. *)
Ltac runM :=
  cbv beta iota delta [bindM retM failM crashM getM putM modifyM liftO onM bindO orCrash].

(** ** Lengths, indices, slices *)

Section slices.
Context {A : Type}.
Implicit Types l k : list A.

Lemma zlen_nil : zlen ([] : list A) = 0.
Proof. done. Qed.
Lemma zlen_cons x l : zlen (x :: l) = 1 + zlen l.
Proof. unfold zlen. simpl. lia. Qed.
Lemma zlen_app l k : zlen (l ++ k) = zlen l + zlen k.
Proof. unfold zlen. rewrite length_app. lia. Qed.
Lemma zlen_nonneg l : 0 <= zlen l.
Proof. unfold zlen. lia. Qed.
Lemma zlen_take n l : zlen (take n l) = Z.min (Z.of_nat n) (zlen l).
Proof. unfold zlen. rewrite length_take. lia. Qed.
Lemma zlen_drop n l : zlen (drop n l) = Z.max 0 (zlen l - Z.of_nat n).
Proof. unfold zlen. rewrite length_drop. lia. Qed.
Lemma zlen_rev l : zlen (rev l) = zlen l.
Proof. unfold zlen. by rewrite length_rev. Qed.
Lemma zlen_replicate n (x : A) : zlen (replicate n x) = Z.of_nat n.
Proof. unfold zlen. by rewrite length_replicate. Qed.
Lemma zlen_0_inv l : zlen l = 0 -> l = [].
Proof. destruct l; [done|]. rewrite zlen_cons. pose proof (zlen_nonneg l). lia. Qed.
Lemma zlen_to_nat l : Z.to_nat (zlen l) = length l.
Proof. unfold zlen. lia. Qed.

Lemma znth_nat l (i : nat) : znth l (Z.of_nat i) = l !! i.
Proof. unfold znth. rewrite decide_True by lia. by rewrite Nat2Z.id. Qed.
Lemma znth_lookup l i : 0 <= i -> znth l i = l !! Z.to_nat i.
Proof. intros. unfold znth. by rewrite decide_True. Qed.
Lemma znth_is_Some l i : 0 <= i < zlen l -> is_Some (znth l i).
Proof.
  intros [H1 H2]. rewrite znth_lookup by done. apply lookup_lt_is_Some.
  unfold zlen in H2. lia.
Qed.
Lemma znth_Some l i x : znth l i = Some x -> 0 <= i < zlen l.
Proof.
  unfold znth. case_decide; [|done]. intros Hl%lookup_lt_Some. unfold zlen. lia.
Qed.
Lemma znth_app_r l k i : i >= zlen l -> znth (l ++ k) i = znth k (i - zlen l).
Proof.
  intros Hi. pose proof (zlen_nonneg l). rewrite !znth_lookup by lia.
  unfold zlen in *. rewrite lookup_app_r by lia. f_equal. lia.
Qed.
Lemma znth_app_l l k i : i < zlen l -> znth (l ++ k) i = znth l i.
Proof.
  intros Hi. unfold znth. case_decide; [|done].
  unfold zlen in *. rewrite lookup_app_l by lia. done.
Qed.
Lemma znth_last l x : znth (l ++ [x]) (zlen l) = Some x.
Proof. rewrite znth_app_r by lia. by rewrite Z.sub_diag. Qed.

Lemma zslice_Some l a b :
  0 <= a -> a <= b -> b <= zlen l ->
  zslice l a b = Some (take (Z.to_nat (b - a)) (drop (Z.to_nat a) l)).
Proof. intros. unfold zslice. by rewrite decide_True. Qed.
Lemma zslice_inv l a b k :
  zslice l a b = Some k ->
  0 <= a <= b /\ b <= zlen l /\ zlen k = b - a
  /\ k = take (Z.to_nat (b - a)) (drop (Z.to_nat a) l).
Proof.
  unfold zslice. case_decide as H; [|done]. intros [= <-].
  rewrite zlen_take, zlen_drop. split_and!; try done; lia.
Qed.
Lemma zslice_full l : zslice l 0 (zlen l) = Some l.
Proof.
  pose proof (zlen_nonneg l). rewrite zslice_Some by lia.
  rewrite Z.sub_0_r, zlen_to_nat. simpl. by rewrite take_ge.
Qed.
End slices.

#[export] Hint Rewrite @zlen_nil @zlen_cons @zlen_app @zlen_take @zlen_drop
  @zlen_rev @zlen_replicate : zlen.

(** Arithmetic on lengths. *)
Ltac zlia :=
  autorewrite with zlen in *;
  repeat match goal with
  | |- context [zlen ?l] => is_var l; learn_nonneg l
  | H : context [zlen ?l] |- _ => is_var l; learn_nonneg l
  end; lia
with learn_nonneg l :=
  match goal with
  | H : 0 <= zlen l |- _ => fail 1
  | _ => pose proof (zlen_nonneg l)
  end.

Lemma rev_replicate {A} n (x : A) : rev (replicate n x) = replicate n x.
Proof. induction n as [|n IH]; [done|]. rewrite replicate_S at 1. cbn [rev]. by rewrite IH, <- replicate_S_end. Qed.

Lemma zsum_app {A} (f : A -> Z) l k : zsum f (l ++ k) = zsum f l + zsum f k.
Proof. induction l as [|x l IH]; simpl; [done|]. rewrite IH. lia. Qed.

Lemma zsum_bound {A} (f : A -> Z) (c : Z) l :
  Forall (fun x => 0 <= f x <= c) l -> 0 <= zsum f l <= c * zlen l.
Proof.
  induction 1 as [|x l Hx Hl IH]; simpl; [|rewrite zlen_cons; lia].
  rewrite (@zlen_nil A). lia.
Qed.

Lemma zsum_fold_left {A} (f : A -> Z) l n :
  fold_left (fun n x => n + f x) l n = n + zsum f l.
Proof.
  revert n. induction l as [|x l IH]; intros n; simpl; [lia|]. rewrite IH. lia.
Qed.

(** ** Machine integers *)

Lemma i32_id z : - 2 ^ 31 <= z < 2 ^ 31 -> i32 z = z.
Proof. intros. unfold i32. rewrite Z.mod_small by lia. lia. Qed.
Lemma i64_id z : - 2 ^ 63 <= z < 2 ^ 63 -> i64 z = z.
Proof. intros. unfold i64. rewrite Z.mod_small by lia. lia. Qed.
Lemma u8_id z : 0 <= z < 2 ^ 8 -> u8 z = z.
Proof. apply Z.mod_small. Qed.
Lemma u16_id z : 0 <= z < 2 ^ 16 -> u16 z = z.
Proof. apply Z.mod_small. Qed.
Lemma u32_id z : 0 <= z < 2 ^ 32 -> u32 z = z.
Proof. apply Z.mod_small. Qed.
Lemma u64_id z : 0 <= z < 2 ^ 64 -> u64 z = z.
Proof. apply Z.mod_small. Qed.
Lemma i32_range z : - 2 ^ 31 <= i32 z < 2 ^ 31.
Proof. unfold i32. pose proof (Z.mod_pos_bound (z + 2 ^ 31) (2 ^ 32)). lia. Qed.
Lemma i64_range z : - 2 ^ 63 <= i64 z < 2 ^ 63.
Proof. unfold i64. pose proof (Z.mod_pos_bound (z + 2 ^ 63) (2 ^ 64)). lia. Qed.
Lemma u32_range z : 0 <= u32 z < 2 ^ 32.
Proof. apply Z.mod_pos_bound. lia. Qed.
Lemma u64_range z : 0 <= u64 z < 2 ^ 64.
Proof. apply Z.mod_pos_bound. lia. Qed.

(** A signed value survives the trip through its unsigned representation. *)
Lemma i32_u32 z : i32 (u32 z) = i32 z.
Proof. unfold i32, u32. by rewrite Zplus_mod_idemp_l. Qed.
Lemma i64_u64 z : i64 (u64 z) = i64 z.
Proof. unfold i64, u64. by rewrite Zplus_mod_idemp_l. Qed.
Lemma u32_i32 z : u32 (i32 z) = u32 z.
Proof.
  unfold i32, u32. rewrite Zminus_mod_idemp_l. f_equal. lia.
Qed.
Lemma u64_i64 z : u64 (i64 z) = u64 z.
Proof.
  unfold i64, u64. rewrite Zminus_mod_idemp_l. f_equal. lia.
Qed.

(** ** Little-endian integers *)

Lemma length_le_bytes n v : length (le_bytes n v) = n.
Proof. revert v. induction n as [|n IH]; intros v; simpl; [done|]. by rewrite IH. Qed.

Lemma zlen_le_bytes n v : zlen (le_bytes n v) = Z.of_nat n.
Proof. unfold zlen. by rewrite length_le_bytes. Qed.

Lemma le_val_le_bytes n v : le_val (le_bytes n v) = v mod 256 ^ Z.of_nat n.
Proof.
  revert v. induction n as [|n IH]; intros v; simpl le_bytes; simpl le_val.
  - change (256 ^ Z.of_nat 0) with 1. by rewrite Z.mod_1_r.
  - rewrite IH, b2z_z2b, Nat2Z.inj_succ, Z.pow_succ_r by lia.
    rewrite Z.rem_mul_r by lia. done.
Qed.

Lemma le_val_bound bs : 0 <= le_val bs < 256 ^ zlen bs.
Proof.
  induction bs as [|b bs IH]; [done|].
  rewrite zlen_cons, Z.pow_add_r by (pose proof (zlen_nonneg bs); lia).
  simpl. pose proof (b2z_range b). lia.
Qed.

Lemma le_bytes_le_val bs : le_bytes (length bs) (le_val bs) = bs.
Proof.
  induction bs as [|b bs IH]; [done|]. simpl. pose proof (b2z_range b).
  f_equal.
  - apply (inj b2z). rewrite b2z_z2b, (Z.mul_comm 256), Z_mod_plus_full.
    by apply Z.mod_small.
  - rewrite (Z.mul_comm 256), Z.div_add by lia.
    by rewrite (Z.div_small (b2z b)) by lia.
Qed.

Lemma le_bytes_mod n v : le_bytes n (v mod 256 ^ Z.of_nat n) = le_bytes n v.
Proof.
  rewrite <- le_val_le_bytes.
  rewrite <- (length_le_bytes n v) at 1. by rewrite le_bytes_le_val.
Qed.

Lemma le_val_app bs cs : le_val (bs ++ cs) = le_val bs + 256 ^ zlen bs * le_val cs.
Proof.
  induction bs as [|b bs IH]; [|simpl].
  { rewrite (@zlen_nil byte), Z.pow_0_r. simpl. lia. }
  rewrite IH, zlen_cons, Z.pow_add_r by (pose proof (zlen_nonneg bs); lia). ring.
Qed.

#[export] Hint Rewrite zlen_le_bytes : zlen.
#[global] Arguments le_bytes : simpl never.

Lemma lor_disjoint a x s : 0 <= s -> 0 <= a < 2 ^ s -> Z.lor a (Z.shiftl x s) = a + 2 ^ s * x.
Proof.
  intros Hs Ha. rewrite <- Z.lxor_lor, <- Z.add_nocarry_lxor.
  - rewrite Z.shiftl_mul_pow2 by done. lia.
  - apply Z.bits_inj'. intros n Hn. rewrite Z.land_spec, Z.bits_0.
    destruct (Z.ltb_spec n s).
    + rewrite (Z.shiftl_spec_low x) by done. apply andb_false_r.
    + rewrite <- (Z.mod_small a (2 ^ s)), Z.mod_pow2_bits_high by lia. done.
  - apply Z.bits_inj'. intros n Hn. rewrite Z.land_spec, Z.bits_0.
    destruct (Z.ltb_spec n s).
    + rewrite (Z.shiftl_spec_low x) by done. apply andb_false_r.
    + rewrite <- (Z.mod_small a (2 ^ s)), Z.mod_pow2_bits_high by lia. done.
Qed.

(** ** Big-endian integers *)

Lemma be_val_snoc bs b : be_val (bs ++ [b]) = 256 * be_val bs + b2z b.
Proof. unfold be_val. by rewrite fold_left_app. Qed.

Lemma be_val_rev bs : be_val (rev bs) = le_val bs.
Proof.
  induction bs as [|b bs IH]; [done|]. cbn [rev le_val]. rewrite be_val_snoc, IH. lia.
Qed.

Lemma be_val_le bs : be_val bs = le_val (rev bs).
Proof. by rewrite <- be_val_rev, rev_involutive. Qed.

(** ** Outcomes and stateful calls *)

Section monad.
Context {S E : Type}.

Lemma bindM_assoc {A B C} (m : M S E A) (f : A -> M S E B) (g : B -> M S E C) s :
  bindM (bindM m f) g s = bindM m (fun a => bindM (f a) g) s.
Proof. unfold bindM. destruct (m s) as [[]]; done. Qed.

Lemma bindM_Ret {A B} (m : M S E A) (k : A -> M S E B) s b s' :
  bindM m k s = (Ret b, s') -> exists a t, m s = (Ret a, t) /\ k a t = (Ret b, s').
Proof. unfold bindM. destruct (m s) as [[] t]; naive_solver. Qed.

Lemma bindM_step {A B} (m : M S E A) (k : A -> M S E B) s a t :
  m s = (Ret a, t) -> bindM m k s = k a t.
Proof. unfold bindM. by intros ->. Qed.

Lemma bindM_ext {A B} (m : M S E A) (k k' : A -> M S E B) s :
  (forall a t, m s = (Ret a, t) -> k a t = k' a t) -> bindM m k s = bindM m k' s.
Proof. unfold bindM. intros H. destruct (m s) as [[] t]; try done. by apply H. Qed.

Lemma bindO_Ret {A B} (m : outcome E A) (k : A -> outcome E B) b :
  bindO m k = Ret b -> exists a, m = Ret a /\ k a = Ret b.
Proof. destruct m; naive_solver. Qed.

(** [triple P m Q X]: from a state in [P] the call neither panics nor runs
    out of fuel; it ends in [Q] when it returns and in [X] when it returns an
    error. *)
Definition triple {A} (P : S -> Prop) (m : M S E A)
    (Q : A -> S -> Prop) (X : E -> S -> Prop) : Prop :=
  forall s, P s ->
    match m s with
    | (Ret a, s') => Q a s'
    | (Fail e, s') => X e s'
    | (Crash, _) | (NoFuel, _) => False
    end.

Lemma triple_ret {A} (a : A) (Q : A -> S -> Prop) X : triple (Q a) (retM a) Q X.
Proof. by intros s H. Qed.

Lemma triple_fail {A} e (P : S -> Prop) (Q : A -> S -> Prop) (X : E -> S -> Prop) :
  (forall s, P s -> X e s) -> triple P (failM e) Q X.
Proof. intros H s Hs. by apply H. Qed.

Lemma triple_bind {A B} P (m : M S E A) (k : A -> M S E B) Q R X :
  triple P m R X -> (forall a, triple (R a) (k a) Q X) -> triple P (bindM m k) Q X.
Proof.
  intros Hm Hk s Hs. specialize (Hm s Hs). unfold bindM.
  destruct (m s) as [[a|e| |] t]; try done. by apply Hk.
Qed.

Lemma triple_conseq {A} (P P' : S -> Prop) (m : M S E A) (Q Q' : A -> S -> Prop) X X' :
  triple P' m Q' X' -> (forall s, P s -> P' s) -> (forall a s, Q' a s -> Q a s) ->
  (forall e s, X' e s -> X e s) -> triple P m Q X.
Proof.
  intros H HP HQ HX s Hs. specialize (H s (HP s Hs)).
  destruct (m s) as [[a|e| |] t]; eauto.
Qed.

Lemma triple_pure {A} (F : Prop) (P : S -> Prop) (m : M S E A) Q X :
  (F -> triple P m Q X) -> triple (fun s => F /\ P s) m Q X.
Proof. intros H s [HF Hs]. exact (H HF s Hs). Qed.
End monad.

(** A call that ends in a value or an error from every state. *)
Class NoPanic {S E A} (m : M S E A) : Prop :=
  no_panic s : match (m s).1 with Crash | NoFuel => False | _ => True end.

Section no_panic.
Context {S E : Type}.

#[export] Instance no_panic_ret {A} (a : A) : NoPanic (retM a : M S E A).
Proof. done. Qed.
#[export] Instance no_panic_fail {A} (e : E) : NoPanic (failM e : M S E A).
Proof. done. Qed.
#[export] Instance no_panic_get : NoPanic (getM : M S E S).
Proof. done. Qed.
#[export] Instance no_panic_put (s : S) : NoPanic (putM s : M S E unit).
Proof. done. Qed.
#[export] Instance no_panic_modify (f : S -> S) : NoPanic (modifyM f : M S E unit).
Proof. done. Qed.
#[export] Instance no_panic_bind {A B} (m : M S E A) (k : A -> M S E B) :
  NoPanic m -> (forall a, NoPanic (k a)) -> NoPanic (bindM m k).
Proof.
  intros Hm Hk s. specialize (Hm s). unfold bindM.
  destruct (m s) as [[a|e| |] t]; try done. apply Hk.
Qed.
#[export] Instance no_panic_if {A} (b : bool) (m1 m2 : M S E A) :
  NoPanic m1 -> NoPanic m2 -> NoPanic (if b then m1 else m2).
Proof. by destruct b. Qed.
#[export] Instance no_panic_let_pair {A B C} (p : A * B) (k : A -> B -> M S E C) :
  (forall a b, NoPanic (k a b)) -> NoPanic (let '(a, b) := p in k a b).
Proof. by destruct p. Qed.
End no_panic.

(** Invert a chain of successful binds. *)
Ltac inv_bind H :=
  lazymatch type of H with
  | bindM _ _ _ = (Ret _, _) =>
      let a := fresh "a" in let t := fresh "t" in let H1 := fresh "Hm" in
      apply bindM_Ret in H; destruct H as (a & t & H1 & H)
  | bindO _ _ = Ret _ =>
      let a := fresh "a" in let H1 := fresh "Hm" in
      apply bindO_Ret in H; destruct H as (a & H1 & H)
  end.
