(* ===== verification/Crypto.v ===== *)
(** The cryptographic code the program calls but does not contain.

    [crypto/sha256], [crypto/sha1], [golang.org/x/crypto/ripemd160] and
    [github.com/decred/dcrd/dcrec/secp256k1/v4] are outside the repository: the
    operations the code calls are the fields of a class, so that every
    definition that reaches one of them takes it as an argument.  What the code
    relies on is the class [CryptoLaws]; [toy] is an instance of both that
    evaluates, used to run the model on concrete inputs. *)

From S2P Require Import Prelude.

Class Crypto := {
  sha256 : bytes -> bytes;
  sha1 : bytes -> bytes;
  ripemd160 : bytes -> bytes;

  (** The order of the group of the curve ([S256().N]). *)
  curveN : Z;

  (** [secp256k1.ParsePubKey], with its error as [None]. *)
  PublicKey : Type;
  ParsePubKey : bytes -> option PublicKey;
  SerializeCompressed : PublicKey -> bytes;
  SerializeUncompressed : PublicKey -> bytes;

  (** [ModNScalar.SetByteSlice] returns the scalar and whether it overflowed. *)
  ModNScalar : Type;
  SetByteSlice : bytes -> ModNScalar * bool;
  IsZero : ModNScalar -> bool;

  (** [ecdsa.NewSignature] and the method [Verify]. *)
  Signature : Type;
  NewSignature : ModNScalar -> ModNScalar -> Signature;
  SigVerify : Signature -> bytes -> PublicKey -> bool;

  (** [PrivateKey.PubKey], [ecdsa.Sign] and the method [Serialize] of a signature. *)
  PrivateKey : Type;
  PubKey : PrivateKey -> PublicKey;
  SignHash : PrivateKey -> bytes -> Signature;
  SigSerialize : Signature -> bytes }.

(** Digests have the documented sizes. *)
Class CryptoLaws (C : Crypto) : Prop := {
  sha256_len b : zlen (sha256 b) = 32;
  sha1_len b : zlen (sha1 b) = 20;
  ripemd160_len b : zlen (ripemd160 b) = 20 }.

(** The forms of a public key (ANSI X9.62): 33 bytes after 02 or 03, 65 bytes
    after 04.  A key that was parsed is parsed back from both, and two keys with
    the same form are equal. *)
Class KeyLaws (C : Crypto) : Prop := {
  compressed_form b k : ParsePubKey b = Some k ->
    zlen (SerializeCompressed k) = 33
    /\ (head (SerializeCompressed k) = Some (z2b 2) \/ head (SerializeCompressed k) = Some (z2b 3))
    /\ ParsePubKey (SerializeCompressed k) = Some k;
  uncompressed_form b k : ParsePubKey b = Some k ->
    zlen (SerializeUncompressed k) = 65 /\ head (SerializeUncompressed k) = Some (z2b 4)
    /\ ParsePubKey (SerializeUncompressed k) = Some k;
  parsed_form b k : ParsePubKey b = Some k ->
    zlen b = 65 \/ zlen b = 33 /\ b = SerializeCompressed k }.

(** A positive integer as DER writes it: not empty, the sign bit clear, and no
    zero in front that is not needed for the sign. *)
Definition der_int (v : bytes) : Prop :=
  match v with
  | [] => False
  | [b] => b2z b < 128
  | b :: c :: _ => b2z b < 128 /\ (b2z b = 0 -> 128 <= b2z c)
  end.

(** The DER sequence of two integers. *)
Definition der_sig (r s : bytes) : bytes :=
  [z2b 0x30; z2b (4 + zlen r + zlen s)] ++ ([z2b 0x02; z2b (zlen r)] ++ r) ++ ([z2b 0x02; z2b (zlen s)] ++ s).

(** Signing: the key of a signer is valid, a signature verifies, and it is
    serialized in DER with a low S (BIP 62), from integers that are scalars of the
    group ([drop_zeros] is the number without its sign byte). *)
Fixpoint drop_zeros (b : bytes) : bytes :=
  match b with
  | x :: b' => if b2z x =? 0 then drop_zeros b' else b
  | [] => []
  end.

Class SignLaws (C : Crypto) : Prop := {
  signer_key key : exists b, ParsePubKey b = Some (PubKey key);
  sign_verifies key hash : SigVerify (SignHash key hash) hash (PubKey key) = true;
  sign_serialized key hash : exists r s sr ss,
    SigSerialize (SignHash key hash) = der_sig r s
    /\ der_int r /\ der_int s /\ zlen r <= 33 /\ zlen s <= 33 /\ be_val s <= Z.shiftr curveN 1
    /\ SetByteSlice (drop_zeros r) = (sr, false) /\ IsZero sr = false /\ zlen (drop_zeros r) <= 32
    /\ SetByteSlice (drop_zeros s) = (ss, false) /\ IsZero ss = false /\ zlen (drop_zeros s) <= 32
    /\ NewSignature sr ss = SignHash key hash }.

#[export] Hint Rewrite @sha256_len @sha1_len @ripemd160_len using typeclasses eauto : zlen.

(** ** chainhash (src/thoughtd/chaincfg/chainhash/hashfuncs.go) *)

Section chainhash.
Context `{Crypto}.

Definition HashB (b : bytes) : bytes := sha256 b.

Definition DoubleHashB (b : bytes) : bytes :=
  let first := sha256 b in
  let second := sha256 first in
  second.

(** [DoubleHashH] returns the same digest as an array. *)
Definition DoubleHashH (b : bytes) : bytes :=
  let first := sha256 b in
  sha256 first.
End chainhash.

(** ** An instance that evaluates *)

(** A 32-bit mixing function, so that distinct small inputs have distinct
    digests; nothing is claimed about it beyond the sizes. *)
Definition toy_mix (seed : Z) (b : bytes) : Z :=
  fold_left (fun acc x => ((acc * 33 + b2z x + 1) mod 2 ^ 32)) b seed.

(** A scalar of 32 bytes, the first of which is one. *)
Definition toy_scalar (seed : Z) (b : bytes) : Z := 2 ^ 248 + toy_mix seed b.
Definition toy_bytes (v : Z) : bytes := rev (le_bytes 32 v).

Definition toy_header (b : option byte) : bool :=
  bool_decide (b = Some (z2b 2)) || bool_decide (b = Some (z2b 3)).

Definition toy : Crypto := {|
  sha256 b := le_bytes 4 (toy_mix 5381 b) ++ replicate 28 Byte.x01;
  sha1 b := le_bytes 4 (toy_mix 11 b) ++ replicate 16 Byte.x02;
  ripemd160 b := le_bytes 4 (toy_mix 7 b) ++ replicate 16 Byte.x03;
  curveN := 0xFFFFFFFFFFFFFFFFFFFFFFFFFFFFFFFEBAAEDCE6AF48A03BBFD25E8CD0364141;
  PublicKey := bytes;
  ParsePubKey b :=
    if (zlen b =? 33) && toy_header (head b) then Some b
    else
      let k := take 33 (drop 1 b) in
      if bool_decide (b = z2b 4 :: k ++ replicate 31 Byte.x00) && (zlen k =? 33) && toy_header (head k)
      then Some k else None;
  SerializeCompressed k := k;
  SerializeUncompressed k := z2b 4 :: k ++ replicate 31 Byte.x00;
  ModNScalar := Z;
  SetByteSlice b :=
    let v := be_val (take 32 b) in
    let n := 0xFFFFFFFFFFFFFFFFFFFFFFFFFFFFFFFEBAAEDCE6AF48A03BBFD25E8CD0364141 in
    (v mod n, n <=? v);
  IsZero v := v =? 0;
  Signature := Z * Z;
  NewSignature r s := (r, s);
  (** A "signature" is accepted when [r] names the key and [s] the digest. *)
  SigVerify sg hash pk := (sg.1 =? toy_scalar 1 pk) && (sg.2 =? toy_scalar 2 hash);
  PrivateKey := Z;
  PubKey key := z2b 2 :: replicate 32 (z2b key);
  SignHash key hash := (toy_scalar 1 (z2b 2 :: replicate 32 (z2b key)), toy_scalar 2 hash);
  SigSerialize sg := der_sig (toy_bytes sg.1) (toy_bytes sg.2) |}.

#[export] Instance toy_laws : CryptoLaws toy.
Proof. split; intros b; cbn [toy sha256 sha1 ripemd160]; zlia. Qed.

Lemma toy_header_iff b : toy_header b = true <-> b = Some (z2b 2) \/ b = Some (z2b 3).
Proof. unfold toy_header. rewrite orb_true_iff, !bool_decide_eq_true. done. Qed.

Lemma toy_parsed b k : ParsePubKey (Crypto := toy) b = Some k ->
  zlen k = 33 /\ toy_header (head k) = true /\ (zlen b = 65 \/ b = k).
Proof.
  cbn [ParsePubKey toy]. case_match eqn:H1; [zbool; intros [= <-]; auto|]. cbv zeta. case_match eqn:H2; [|done].
  apply andb_prop in H2 as [[H2 H3]%andb_prop H4]. apply bool_decide_eq_true in H2. zbool. intros [= <-].
  split_and!; [done..|]. left. rewrite H2, zlen_cons, zlen_app, zlen_replicate. lia.
Qed.

#[export] Instance toy_keys : KeyLaws toy.
Proof.
  split; intros b k (Hl & Hh & Hb)%toy_parsed.
  - split_and!; [done|by apply toy_header_iff|]. cbn [ParsePubKey SerializeCompressed toy]. by rewrite Hl, Hh.
  - cbn [SerializeUncompressed toy].
    assert (Hz : zlen (z2b 4 :: k ++ replicate 31 Byte.x00) = 65) by (rewrite zlen_cons, zlen_app, zlen_replicate; lia).
    split_and!; [done|done|]. cbn [ParsePubKey toy]. rewrite Hz. change (65 =? 33) with false. cbn [andb]. cbv zeta.
    assert (take 33 (drop 1 (z2b 4 :: k ++ replicate 31 Byte.x00)) = k) as ->.
    { rewrite skipn_cons, drop_0. assert (length k = 33%nat) as Hk by (unfold zlen in Hl; lia).
      rewrite <- Hk. apply take_app_length. }
    by rewrite bool_decide_eq_true_2, Hl, Hh by done.
  - destruct Hb as [Hb|Hb]; [by left|right; by rewrite Hb].
Qed.

Lemma toy_mix_range seed b : 0 <= seed < 2 ^ 32 -> 0 <= toy_mix seed b < 2 ^ 32.
Proof.
  unfold toy_mix. revert seed. induction b as [|x b IH]; intros seed Hs; [done|]. cbn [fold_left].
  apply IH. apply Z.mod_pos_bound. lia.
Qed.

Lemma toy_bytes_form v : 2 ^ 248 <= v < 2 * 2 ^ 248 ->
  exists l, toy_bytes v = z2b 1 :: l /\ zlen l = 31 /\ be_val (toy_bytes v) = v.
Proof.
  intros Hv. assert (Hval : be_val (toy_bytes v) = v).
  { unfold toy_bytes. rewrite be_val_rev, le_val_le_bytes. apply Z.mod_small. lia. }
  assert (Hlen : zlen (toy_bytes v) = 32) by (unfold toy_bytes; by rewrite zlen_rev, zlen_le_bytes).
  destruct (toy_bytes v) as [|b l] eqn:E; [done|]. exists l. rewrite zlen_cons in Hlen.
  split_and!; [|lia|done]. f_equal. apply (inj b2z). change (b2z (z2b 1)) with 1.
  pose proof (le_val_bound (rev l)) as Hb. rewrite be_val_le in Hval. cbn [rev] in Hval.
  rewrite le_val_app in Hval. cbn [le_val] in Hval. rewrite zlen_rev in *. replace (zlen l) with 31 in * by lia.
  change (256 ^ 31) with (2 ^ 248) in *. pose proof (b2z_range b). lia.
Qed.

#[export] Instance toy_signs : SignLaws toy.
Proof.
  split.
  - intros key. exists (z2b 2 :: replicate 32 (z2b key)). done.
  - intros key hash. cbn [SigVerify SignHash PubKey toy fst snd]. by rewrite !Z.eqb_refl.
  - intros key hash. set (r := toy_scalar 1 (z2b 2 :: replicate 32 (z2b key))). set (s := toy_scalar 2 hash).
    assert (Hr : 2 ^ 248 <= r < 2 * 2 ^ 248).
    { unfold r, toy_scalar. pose proof (toy_mix_range 1 (z2b 2 :: replicate 32 (z2b key)) ltac:(lia)). lia. }
    assert (Hs : 2 ^ 248 <= s < 2 * 2 ^ 248).
    { unfold s, toy_scalar. pose proof (toy_mix_range 2 hash ltac:(lia)). lia. }
    destruct (toy_bytes_form r Hr) as (lr & Er & Hlr & Vr). destruct (toy_bytes_form s Hs) as (ls & Es & Hls & Vs).
    exists (toy_bytes r), (toy_bytes s), r, s. split; [done|]. rewrite Vs.
    assert (Hd : forall l, zlen l = 31 -> der_int (z2b 1 :: l)) by (intros [|c l]; [done|]; by cbn).
    cbn [SetByteSlice IsZero NewSignature toy curveN].
    assert (forall v l, toy_bytes v = z2b 1 :: l -> zlen l = 31 ->
      take 32 (drop_zeros (toy_bytes v)) = toy_bytes v /\ zlen (drop_zeros (toy_bytes v)) <= 32) as Ht.
    { intros v l Ev Hl. rewrite Ev. change (drop_zeros (z2b 1 :: l)) with (z2b 1 :: l). split.
      - apply take_ge. unfold zlen in Hl. cbn [length]. lia.
      - rewrite zlen_cons. lia. }
    destruct (Ht r lr Er Hlr) as [-> Hr32]. destruct (Ht s ls Es Hls) as [-> Hs32]. rewrite Vr, Vs.
    split_and!; try done.
    + rewrite Er. by apply Hd.
    + rewrite Es. by apply Hd.
    + change (Z.shiftr _ _) with 0x7FFFFFFFFFFFFFFFFFFFFFFFFFFFFFFF5D576E7357A4501DDFE92F46681B20A0. lia.
    + f_equal; [apply Z.mod_small; lia|]. apply Z.leb_gt. lia.
    + apply Z.eqb_neq. lia.
    + f_equal; [apply Z.mod_small; lia|]. apply Z.leb_gt. lia.
    + apply Z.eqb_neq. lia.
Qed.
