(* ===== verification/Utf8.v ===== *)
(** UTF-8, as Go decodes it.

    [range] over a string and [unicode/utf8] of the standard library: an invalid
    byte decodes to U+FFFD with width one. *)

From S2P Require Import Prelude.

Notation RuneError := 0xFFFD (only parsing).

Definition byte_in (b : byte) (lo hi : Z) : bool := (lo <=? b2z b) && (b2z b <=? hi).

(** The six low bits of a continuation byte. *)
Definition cont (b : byte) : Z := Z.land (b2z b) 0x3F.

(** [utf8.DecodeRuneInString]: a code point and its width. *)
Definition DecodeRune (s : bytes) : Z * nat :=
  match s with
  | [] => (RuneError, 0%nat)
  | b0 :: t =>
      let c := b2z b0 in
      if c <? 0x80 then (c, 1%nat)
      else if c <? 0xC2 then (RuneError, 1%nat)
      else if c <? 0xE0 then
        match t with
        | b1 :: _ =>
            if byte_in b1 0x80 0xBF then (Z.lor (Z.shiftl (Z.land c 0x1F) 6) (cont b1), 2%nat)
            else (RuneError, 1%nat)
        | _ => (RuneError, 1%nat)
        end
      else if c <? 0xF0 then
        match t with
        | b1 :: b2 :: _ =>
            if byte_in b1 (if c =? 0xE0 then 0xA0 else 0x80) (if c =? 0xED then 0x9F else 0xBF)
               && byte_in b2 0x80 0xBF
            then (Z.lor (Z.lor (Z.shiftl (Z.land c 0x0F) 12) (Z.shiftl (cont b1) 6)) (cont b2), 3%nat)
            else (RuneError, 1%nat)
        | _ => (RuneError, 1%nat)
        end
      else if c <? 0xF5 then
        match t with
        | b1 :: b2 :: b3 :: _ =>
            if byte_in b1 (if c =? 0xF0 then 0x90 else 0x80) (if c =? 0xF4 then 0x8F else 0xBF)
               && byte_in b2 0x80 0xBF && byte_in b3 0x80 0xBF
            then (Z.lor (Z.lor (Z.lor (Z.shiftl (Z.land c 0x07) 18) (Z.shiftl (cont b1) 12))
                          (Z.shiftl (cont b2) 6)) (cont b3), 4%nat)
            else (RuneError, 1%nat)
        | _ => (RuneError, 1%nat)
        end
      else (RuneError, 1%nat)
  end.

(** The code points a [range] loop yields, with their widths. *)
Fixpoint runes_from (fuel : nat) (s : bytes) : list (Z * nat) :=
  match fuel with
  | O => []
  | S fuel =>
      match s with
      | [] => []
      | _ => let d := DecodeRune s in d :: runes_from fuel (drop d.2 s)
      end
  end.

(** Every code point takes at least a byte. *)
Definition runes (s : bytes) : list (Z * nat) := runes_from (length s) s.

(** [utf8.ValidString]: no decoding error, which is U+FFFD of width one. *)
Definition ValidString (s : bytes) : bool :=
  forallb (fun d : Z * nat => negb ((d.1 =? RuneError) && (d.2 =? 1)%nat)) (runes s).

Definition ascii (s : bytes) : Prop := Forall (fun b => b2z b < 0x80) s.

Lemma DecodeRune_ascii b s : b2z b < 0x80 -> DecodeRune (b :: s) = (b2z b, 1%nat).
Proof. intros Hb. unfold DecodeRune. cbv zeta. by ztest. Qed.

Lemma runes_ascii s : ascii s -> runes s = map (fun b => (b2z b, 1%nat)) s.
Proof.
  unfold runes. induction 1 as [|b s Hb Hs IH]; [done|].
  cbn [length runes_from map]. rewrite DecodeRune_ascii by done. cbn [snd drop]. rewrite drop_0. by rewrite IH.
Qed.

(** The code point of a longer sequence is past the ASCII characters. *)
Lemma lor_ge_128 a b : 0 <= a -> 0 <= b -> 128 <= a \/ 128 <= b -> 128 <= Z.lor a b.
Proof.
  intros Ha Hb Hab. destruct (Z.lt_ge_cases (Z.lor a b) 128) as [Hlt|]; [|done].
  pose proof (Z.log2_lor a b Ha Hb) as Hl. assert (0 <= Z.lor a b) by (by apply Z.lor_nonneg).
  assert (7 <= Z.max (Z.log2 a) (Z.log2 b)) as H7.
  { destruct Hab as [H7|H7]; apply Z.log2_le_mono in H7; change (Z.log2 128) with 7 in H7; lia. }
  assert (Z.log2 (Z.lor a b) <= Z.log2 127) as Hle by (apply Z.log2_le_mono; lia).
  change (Z.log2 127) with 6 in Hle. lia.
Qed.

Lemma lor_ge_128_l a b : 128 <= a -> 0 <= b -> 128 <= Z.lor a b.
Proof. intros Ha Hb. apply lor_ge_128; lia. Qed.

Lemma cont_range b : 0 <= cont b < 64.
Proof. unfold cont. change 0x3F with (Z.ones 6). rewrite Z.land_ones by lia. apply Z.mod_pos_bound. lia. Qed.

Lemma cont_high b lo : lo <= b2z b <= 0xBF -> 0x80 <= lo -> lo - 0x80 <= cont b.
Proof.
  intros Hb Hl. unfold cont. change 0x3F with (Z.ones 6). rewrite Z.land_ones by lia.
  change (2 ^ 6) with 64. replace (b2z b) with (b2z b - 128 + 2 * 64) by lia.
  rewrite Z_mod_plus_full, Z.mod_small by lia. lia.
Qed.

Lemma land_low c n k : 0 <= n -> k * 2 ^ n <= c < (k + 1) * 2 ^ n -> Z.land c (Z.ones n) = c - k * 2 ^ n.
Proof.
  intros Hn Hc. rewrite Z.land_ones by done. replace c with (c - k * 2 ^ n + k * 2 ^ n) at 1 by lia.
  rewrite Z_mod_plus_full. apply Z.mod_small. lia.
Qed.

Lemma DecodeRune_low s : s <> [] -> (DecodeRune s).1 < 128 ->
  exists b t, s = b :: t /\ b2z b < 128 /\ DecodeRune s = (b2z b, 1%nat).
Proof.
  destruct s as [|b0 t]; [done|]. intros _. pose proof (b2z_range b0) as H0. cbn [DecodeRune].
  destruct (Z.ltb_spec (b2z b0) 0x80); [eauto|].
  destruct (Z.ltb_spec (b2z b0) 0xC2); [cbn [fst]; lia|].
  assert (forall x, 0 <= cont x) as Hc by (intros x; apply cont_range).
  assert (forall x n, 0 <= x -> 0 <= n -> x * 2 ^ n = Z.shiftl x n) as Hs by (intros; by rewrite Z.shiftl_mul_pow2).
  destruct (Z.ltb_spec (b2z b0) 0xE0).
  { destruct t as [|b1 t]; [cbn [fst]; lia|]. case_match; cbn [fst]; [|lia].
    change 0x1F with (Z.ones 5). rewrite (land_low _ 5 6), <- Hs by lia.
    pose proof (lor_ge_128 ((b2z b0 - 6 * 2 ^ 5) * 2 ^ 6) (cont b1) ltac:(lia) (Hc b1) ltac:(lia)). lia. }
  destruct (Z.ltb_spec (b2z b0) 0xF0).
  { destruct t as [|b1 [|b2 t]]; try (cbn [fst]; lia). case_match eqn:Hb; cbn [fst]; [|lia].
    unfold byte_in in Hb. zbool. change 0x0F with (Z.ones 4). rewrite (land_low _ 4 14), <- !Hs by lia || apply Hc.
    assert (128 <= Z.lor ((b2z b0 - 14 * 2 ^ 4) * 2 ^ 12) (cont b1 * 2 ^ 6)) as H12.
    { pose proof (Hc b1). apply lor_ge_128; [lia|lia|]. destruct (Z.eqb_spec (b2z b0) 0xE0) as [He|].
      - right. pose proof (cont_high b1 0xA0 ltac:(destruct (b2z b0 =? 0xED); lia) ltac:(lia)). lia.
      - left. lia. }
    pose proof (lor_ge_128_l _ (cont b2) H12 (Hc b2)). lia. }
  destruct (Z.ltb_spec (b2z b0) 0xF5); [|cbn [fst]; lia].
  destruct t as [|b1 [|b2 [|b3 t]]]; try (cbn [fst]; lia). case_match eqn:Hb; cbn [fst]; [|lia].
  unfold byte_in in Hb. zbool. change 0x07 with (Z.ones 3). rewrite (land_low _ 3 30), <- !Hs by lia || apply Hc.
  assert (128 <= Z.lor ((b2z b0 - 30 * 2 ^ 3) * 2 ^ 18) (cont b1 * 2 ^ 12)) as H12.
  { pose proof (Hc b1). apply lor_ge_128; [lia|lia|]. destruct (Z.eqb_spec (b2z b0) 0xF0) as [He|].
    - right. pose proof (cont_high b1 0x90 ltac:(destruct (b2z b0 =? 0xF4); lia) ltac:(lia)). lia.
    - left. lia. }
  pose proof (Hc b2).
  pose proof (lor_ge_128_l _ (cont b2 * 2 ^ 6) H12 ltac:(lia)) as H123.
  pose proof (lor_ge_128_l _ (cont b3) H123 (Hc b3)). lia.
Qed.

(** A string whose runes are all ASCII is ASCII. *)
Lemma runes_low s : Forall (fun d : Z * nat => d.1 < 128) (runes s) -> ascii s.
Proof.
  unfold runes. induction s as [|b s IH]; [constructor|]. cbn [length runes_from].
  intros [H1 H2]%Forall_cons.
  destruct (DecodeRune_low (b :: s)) as (b' & t & [= <- <-] & Hb & HD); [done|done|].
  constructor; [done|]. rewrite HD in H2. cbn [snd] in H2. exact (IH H2).
Qed.

Lemma ValidString_ascii s : ascii s -> ValidString s = true.
Proof.
  intros Hs. unfold ValidString. rewrite runes_ascii by done. apply forallb_forall.
  intros d Hd. apply in_map_iff in Hd as (b & <- & Hb). cbn [fst snd].
  pose proof (b2z_range b). unfold ascii in Hs. rewrite List.Forall_forall in Hs. specialize (Hs b Hb).
  by replace (b2z b =? RuneError) with false by (symmetry; apply Z.eqb_neq; lia).
Qed.

(** The sequence of an accented letter, of an ideogram, and of a stray byte. *)
Example runes_example :
  runes [z2b 0xC3; z2b 0xA9; z2b 0xE4; z2b 0xB8; z2b 0xAD; z2b 0xFF]
  = [(0xE9, 2%nat); (0x4E2D, 3%nat); (RuneError, 1%nat)].
Proof. reflexivity. Qed.
