(* ===== verification/WireCommon.v ===== *)
(** Primitive encodings of the wire protocol (src/thoughtd/wire/common.go).

    A reader is the list of the bytes left to read and a writer the list of the
    bytes written so far, which is what the [bytes.Reader] and [bytes.Buffer]
    the program passes to these functions are; both are threaded through the
    state monad of the prelude.  The free list of scratch buffers only avoids
    allocations and has no counterpart here. *)

From S2P Require Import Prelude.

(** ** Errors *)

(** The errors of the readers: the two of [io.ReadFull], a [MessageError] of
    the package (identified by the function that reports it), the refusal of
    [binary.Write] to encode a type without a fixed size, and the error values
    the message files declare. *)
Inductive WireErr :=
  | EOF
  | ErrUnexpectedEOF
  | MessageError (func : string)
  | ErrNotFixedSize
  | ErrUnknownMessage
  | ErrInsaneCFHeaderCount
  | ErrInvalidAddressSize
  | ErrSkippedNetworkID
  | ErrUnexpectedAddressType.

Notation RM := (M bytes WireErr).

(** ** Readers and writers *)

(** [io.ReadFull] into a buffer of [n] bytes. *)
Definition ReadFull (n : Z) : RM bytes := fun r =>
  if n <=? zlen r then (Ret (take (Z.to_nat n) r), drop (Z.to_nat n) r)
  else match r with
       | [] => (Fail EOF, [])
       | _ => (Fail ErrUnexpectedEOF, [])
       end.

(** [w.Write] on a [bytes.Buffer]. *)
Definition Write (bs : bytes) : RM unit := fun w => (Ret tt, w ++ bs).

(** The body of a counted [for] loop that fills a slice. *)
Fixpoint repeatM {S E A} (n : nat) (m : M S E A) : M S E (list A) :=
  match n with
  | O => retM []
  | S n => x <- m ;; xs <- repeatM n m ;; retM (x :: xs)
  end.

(** A [for ... range] loop whose body only writes. *)
Fixpoint forM {S E A} (l : list A) (f : A -> M S E unit) : M S E unit :=
  match l with
  | [] => retM tt
  | x :: l => f x ;; forM l f
  end.

(** ** binaryFreeList *)

Definition Uint8 : RM Z := buf <- ReadFull 1 ;; retM (le_val buf).
Definition Uint16 : RM Z := buf <- ReadFull 2 ;; retM (le_val buf).
Definition Uint32 : RM Z := buf <- ReadFull 4 ;; retM (le_val buf).
Definition Uint64 : RM Z := buf <- ReadFull 8 ;; retM (le_val buf).

Definition PutUint8 (val : Z) : RM unit := Write (le_bytes 1 val).
Definition PutUint16 (val : Z) : RM unit := Write (le_bytes 2 val).
Definition PutUint32 (val : Z) : RM unit := Write (le_bytes 4 val).
Definition PutUint64 (val : Z) : RM unit := Write (le_bytes 8 val).

(** ** Variable length integers *)

Definition ReadVarInt : RM Z :=
  discriminant <- Uint8 ;;
  if discriminant =? 0xff then
    rv <- Uint64 ;;
    if rv <? 0x100000000 then failM (MessageError "ReadVarInt") else retM rv
  else if discriminant =? 0xfe then
    rv <- Uint32 ;;
    if rv <? 0x10000 then failM (MessageError "ReadVarInt") else retM rv
  else if discriminant =? 0xfd then
    rv <- Uint16 ;;
    if rv <? 0xfd then failM (MessageError "ReadVarInt") else retM rv
  else retM discriminant.

Definition WriteVarInt (val : Z) : RM unit :=
  if val <? 0xfd then PutUint8 (u8 val)
  else if val <=? 2 ^ 16 - 1 then PutUint8 0xfd ;; PutUint16 (u16 val)
  else if val <=? 2 ^ 32 - 1 then PutUint8 0xfe ;; PutUint32 (u32 val)
  else PutUint8 0xff ;; PutUint64 val.

Definition VarIntSerializeSize (val : Z) : Z :=
  if val <? 0xfd then 1
  else if val <=? 2 ^ 16 - 1 then 3
  else if val <=? 2 ^ 32 - 1 then 5
  else 9.

(** ** Variable length byte strings *)

Notation MaxMessagePayload := (1024 * 1024 * 32) (only parsing).

Definition ReadVarString : RM bytes :=
  count <- ReadVarInt ;;
  if count >? MaxMessagePayload then failM (MessageError "ReadVarString")
  else ReadFull count.

Definition WriteVarString (str : bytes) : RM unit :=
  WriteVarInt (u64 (zlen str)) ;; Write str.

Definition ReadVarBytes (maxAllowed : Z) : RM bytes :=
  count <- ReadVarInt ;;
  if count >? u64 maxAllowed then failM (MessageError "ReadVarBytes")
  else ReadFull count.

Definition WriteVarBytes (bs : bytes) : RM unit :=
  let slen := u64 (zlen bs) in
  WriteVarInt slen ;; Write bs.

(** ** Elements *)

(** The types the type switches of [readElement] and [writeElement] name, and
    the types of fixed size that reach [binary.Read] and [binary.Write]: bytes
    ([uint8], [FilterType], [networkID]) and arrays of [n] bytes.  [CommandSize]
    is 12 and [chainhash.HashSize] is 32. *)
Inductive elem_type :=
  | TInt32 | TUint32 | TInt64 | TUint64 | TBool | TUint32Time | TInt64Time
  | TChecksum | TCommand | TIP | THash | TServiceFlag | TInvType | TNetMagic
  | TBloomUpdateType | TRejectCode | TUint8 | TArray (n : Z).

Inductive elem :=
  | EInt (t : elem_type) (v : Z)
  | EBool (b : bool)
  | EBytes (t : elem_type) (bs : bytes).

Definition readElement (t : elem_type) : RM elem :=
  match t with
  | TInt32 => rv <- Uint32 ;; retM (EInt t (i32 rv))
  | TUint32 => rv <- Uint32 ;; retM (EInt t rv)
  | TInt64 => rv <- Uint64 ;; retM (EInt t (i64 rv))
  | TUint64 => rv <- Uint64 ;; retM (EInt t rv)
  | TBool => rv <- Uint8 ;; retM (EBool (if rv =? 0 then false else true))
  | TUint32Time => rv <- Uint32 ;; retM (EInt t (i64 rv))
  | TInt64Time => rv <- Uint64 ;; retM (EInt t (i64 rv))
  | TChecksum => bs <- ReadFull 4 ;; retM (EBytes t bs)
  | TCommand => bs <- ReadFull 12 ;; retM (EBytes t bs)
  | TIP => bs <- ReadFull 16 ;; retM (EBytes t bs)
  | THash => bs <- ReadFull 32 ;; retM (EBytes t bs)
  | TServiceFlag => rv <- Uint64 ;; retM (EInt t rv)
  | TInvType | TNetMagic => rv <- Uint32 ;; retM (EInt t rv)
  | TBloomUpdateType | TRejectCode => rv <- Uint8 ;; retM (EInt t rv)
  | TUint8 => rv <- Uint8 ;; retM (EInt t rv)
  | TArray n => bs <- ReadFull n ;; retM (EBytes t bs)
  end.

Fixpoint readElements (ts : list elem_type) : RM (list elem) :=
  match ts with
  | [] => retM []
  | t :: ts => e <- readElement t ;; es <- readElements ts ;; retM (e :: es)
  end.

(** The two time types have no case of their own: they reach [binary.Write],
    which refuses them. *)
Definition writeElement (e : elem) : RM unit :=
  match e with
  | EBool b => if b then PutUint8 0x01 else PutUint8 0x00
  | EBytes _ bs => Write bs
  | EInt t v =>
      match t with
      | TInt32 => PutUint32 (u32 v)
      | TUint32 | TInvType | TNetMagic => PutUint32 (u32 v)
      | TInt64 => PutUint64 (u64 v)
      | TUint64 | TServiceFlag => PutUint64 (u64 v)
      | TBloomUpdateType | TRejectCode | TUint8 => PutUint8 (u8 v)
      | _ => failM ErrNotFixedSize
      end
  end.

Definition writeElements (es : list elem) : RM unit := forM es writeElement.

(** ** Codecs

    What a pair of a reader and a writer promises to its clients: the writer
    appends [enc a], the reader takes exactly [enc a] off its input and returns
    [a], and nothing else is accepted: an input the reader accepts starts with
    the encoding of the value it returns. *)

Class Codec {A} (read : RM A) (write : A -> RM unit)
    (wf : A -> Prop) (enc : A -> bytes) : Prop := {
  codec_write a w : wf a -> write a w = (Ret tt, w ++ enc a);
  codec_read a r : wf a -> read (enc a ++ r) = (Ret a, r);
  codec_canon r a r' : read r = (Ret a, r') -> wf a /\ r = enc a ++ r' }.

(** Reading [n] bytes is total: it succeeds exactly when they are there. *)
Lemma ReadFull_spec n r a r' :
  0 <= n -> ReadFull n r = (Ret a, r') <-> r = a ++ r' /\ zlen a = n.
Proof.
  intros Hn. unfold ReadFull. destruct (Z.leb_spec n (zlen r)) as [Hle|Hlt].
  - split.
    + intros [= <- <-]. rewrite take_drop. split; [done|]. zlia.
    + intros [-> Ha]. assert (Z.to_nat n = length a) as -> by (rewrite <- Ha; apply zlen_to_nat).
      by rewrite take_app_length, drop_app_length.
  - split.
    + by destruct r.
    + intros [-> Ha]. zlia.
Qed.

Lemma ReadFull_app n a r : zlen a = n -> ReadFull n (a ++ r) = (Ret a, r).
Proof. intros <-. by apply ReadFull_spec; [apply zlen_nonneg|]. Qed.

#[export] Instance ReadFull_no_panic n : NoPanic (ReadFull n).
Proof. intros r. unfold ReadFull. by destruct (n <=? zlen r), r. Qed.

#[export] Instance repeatM_no_panic {S E A} n (m : M S E A) : NoPanic m -> NoPanic (repeatM n m).
Proof. intros Hm. induction n as [|n IH]; simpl; apply _. Qed.

Section uint.
Variable n : nat.
Variables (rd : RM Z) (wr : Z -> RM unit).
Hypothesis Hrd : rd = (buf <- ReadFull (Z.of_nat n) ;; retM (le_val buf)).
Hypothesis Hwr : wr = fun v => Write (le_bytes n v).

Lemma uint_codec : Codec rd wr (fun v => 0 <= v < 256 ^ Z.of_nat n) (le_bytes n).
Proof using Hrd Hwr.
  rewrite Hrd, Hwr. split.
  - done.
  - intros a r Ha. unfold bindM. rewrite ReadFull_app by apply zlen_le_bytes.
    unfold retM. by rewrite le_val_le_bytes, Z.mod_small.
  - intros r a r' H. inv_bind H. injection H as <- <-.
    apply ReadFull_spec in Hm as [-> Hl]; [|lia]. rewrite <- Hl.
    split; [apply le_val_bound|]. f_equal.
    rewrite <- (le_bytes_le_val a0) at 1. f_equal. unfold zlen in Hl. lia.
Qed.
End uint.

#[export] Instance Uint8_codec : Codec Uint8 PutUint8 (fun v => 0 <= v < 256) (le_bytes 1).
Proof. by apply (uint_codec 1). Qed.
#[export] Instance Uint16_codec :
  Codec Uint16 PutUint16 (fun v => 0 <= v < 2 ^ 16) (le_bytes 2).
Proof. by apply (uint_codec 2). Qed.
#[export] Instance Uint32_codec :
  Codec Uint32 PutUint32 (fun v => 0 <= v < 2 ^ 32) (le_bytes 4).
Proof. by apply (uint_codec 4). Qed.
#[export] Instance Uint64_codec :
  Codec Uint64 PutUint64 (fun v => 0 <= v < 2 ^ 64) (le_bytes 8).
Proof. by apply (uint_codec 8). Qed.

(** ** Variable length integers *)

Definition varint_bytes (val : Z) : bytes :=
  if val <? 0xfd then le_bytes 1 val
  else if val <=? 2 ^ 16 - 1 then le_bytes 1 0xfd ++ le_bytes 2 val
  else if val <=? 2 ^ 32 - 1 then le_bytes 1 0xfe ++ le_bytes 4 val
  else le_bytes 1 0xff ++ le_bytes 8 val.

(** Run a reader on the encoding it was written for. *)
Ltac step_read :=
  rewrite <- ?app_assoc;
  erewrite bindM_step by (apply codec_read; cbv beta; lia).

Lemma WriteVarInt_writes v w :
  0 <= v < 2 ^ 64 -> WriteVarInt v w = (Ret tt, w ++ varint_bytes v).
Proof.
  intros Hv. unfold WriteVarInt, varint_bytes, PutUint8, PutUint16, PutUint32, PutUint64.
  repeat case_match; zbool; runM; unfold Write; rewrite <- ?app_assoc;
    rewrite ?u8_id, ?u16_id, ?u32_id by lia; done.
Qed.

Lemma ReadVarInt_reads v r : 0 <= v < 2 ^ 64 -> ReadVarInt (varint_bytes v ++ r) = (Ret v, r).
Proof.
  intros Hv. unfold ReadVarInt, varint_bytes.
  destruct (Z.ltb_spec v 0xfd); [|destruct (Z.leb_spec v (2 ^ 16 - 1));
    [|destruct (Z.leb_spec v (2 ^ 32 - 1))]]; step_read.
  - by ztest.
  - cbn [Z.eqb Pos.eqb]. step_read. by ztest.
  - cbn [Z.eqb Pos.eqb]. step_read. by ztest.
  - cbn [Z.eqb Pos.eqb]. step_read. by ztest.
Qed.

Lemma ReadVarInt_canon r v r' :
  ReadVarInt r = (Ret v, r') -> 0 <= v < 2 ^ 64 /\ r = varint_bytes v ++ r'.
Proof.
  unfold ReadVarInt, varint_bytes. intros H.
  apply bindM_Ret in H as (d & t & Hd & H). apply codec_canon in Hd as [Hd ->].
  destruct (Z.eqb_spec d 0xff) as [->|]; [|destruct (Z.eqb_spec d 0xfe) as [->|];
    [|destruct (Z.eqb_spec d 0xfd) as [->|]]].
  1-3: apply bindM_Ret in H as (v' & t' & Hv & H); apply codec_canon in Hv as [Hv ->];
    case_match; [done|]; injection H as <- <-; zbool; (split; [lia|]);
    ztest; by rewrite <- app_assoc.
  injection H as <- <-. split; [lia|]. by ztest.
Qed.

#[export] Instance VarInt_codec :
  Codec ReadVarInt WriteVarInt (fun v => 0 <= v < 2 ^ 64) varint_bytes.
Proof.
  split; [intros; by apply WriteVarInt_writes | intros; by apply ReadVarInt_reads
    | apply ReadVarInt_canon].
Qed.

#[export] Instance ReadVarInt_no_panic : NoPanic ReadVarInt.
Proof. unfold ReadVarInt, Uint8, Uint16, Uint32, Uint64. apply _. Qed.

Lemma zlen_varint_bytes v : zlen (varint_bytes v) = VarIntSerializeSize v.
Proof. unfold varint_bytes, VarIntSerializeSize. repeat case_match; zlia. Qed.
#[export] Hint Rewrite zlen_varint_bytes : zlen.

(** ** Variable length byte strings *)

Definition varbytes (bs : bytes) : bytes := varint_bytes (zlen bs) ++ bs.

Lemma zlen_varbytes bs : zlen (varbytes bs) = VarIntSerializeSize (zlen bs) + zlen bs.
Proof. unfold varbytes. zlia. Qed.
#[export] Hint Rewrite zlen_varbytes : zlen.

Lemma WriteVarBytes_writes bs w :
  zlen bs < 2 ^ 64 -> WriteVarBytes bs w = (Ret tt, w ++ varbytes bs).
Proof.
  intros Hbs. pose proof (zlen_nonneg bs). unfold WriteVarBytes, varbytes.
  rewrite u64_id by lia. erewrite bindM_step by (apply codec_write; lia).
  unfold Write. by rewrite <- app_assoc.
Qed.

(** A length-prefixed reader: every reader of a byte string has this shape. *)
Section counted.
Variables (max : Z) (err : WireErr).
Hypothesis Hmax : 0 <= max < 2 ^ 32.

Definition counted_bytes : RM bytes :=
  count <- ReadVarInt ;;
  if count >? max then failM err else ReadFull count.

Lemma counted_codec :
  Codec counted_bytes WriteVarBytes (fun bs => zlen bs <= max) varbytes.
Proof using Hmax.
  split.
  - intros bs w Hbs. apply WriteVarBytes_writes. lia.
  - intros bs r Hbs. pose proof (zlen_nonneg bs). unfold counted_bytes, varbytes.
    step_read. ztest. by apply ReadFull_app.
  - intros r bs r' H. unfold counted_bytes in H.
    apply bindM_Ret in H as (c & t & Hc & H). apply codec_canon in Hc as [Hc ->].
    case_match; [done|]. zbool. apply ReadFull_spec in H as [-> Hl]; [|lia].
    split; [lia|]. unfold varbytes. by rewrite Hl, <- app_assoc.
Qed.
End counted.

Lemma ReadVarBytes_codec max : 0 <= max < 2 ^ 32 ->
  Codec (ReadVarBytes max) WriteVarBytes (fun bs => zlen bs <= max) varbytes.
Proof.
  intros Hmax. unfold ReadVarBytes. rewrite u64_id by lia.
  by apply (counted_codec max (MessageError "ReadVarBytes")).
Qed.

#[export] Instance ReadVarString_codec :
  Codec ReadVarString WriteVarString (fun bs => zlen bs <= MaxMessagePayload) varbytes.
Proof. by apply (counted_codec _ (MessageError "ReadVarString")). Qed.

(** ** Sequences of encoded values *)

Section sequence.
Context {A} (read : RM A) (write : A -> RM unit) (wf : A -> Prop) (enc : A -> bytes)
  `{!Codec read write wf enc}.

Lemma forM_writes l w :
  Forall wf l -> forM l write w = (Ret tt, w ++ concat (map enc l)).
Proof using Type*.
  intros Hl. revert w. induction Hl as [|x l Hx Hl IH]; intros w; simpl.
  - by rewrite app_nil_r.
  - rewrite (bindM_step _ _ _ _ _ (codec_write x w Hx)), IH. by rewrite <- app_assoc.
Qed.

Lemma repeatM_reads l r :
  Forall wf l -> repeatM (length l) read (concat (map enc l) ++ r) = (Ret l, r).
Proof using Type*.
  intros Hl. induction Hl as [|x l Hx Hl IH]; simpl; [done|].
  rewrite <- app_assoc, (bindM_step _ _ _ _ _ (codec_read x _ Hx)).
  by rewrite (bindM_step _ _ _ _ _ IH).
Qed.

Lemma repeatM_canon n r l r' :
  repeatM n read r = (Ret l, r') ->
  length l = n /\ Forall wf l /\ r = concat (map enc l) ++ r'.
Proof using Type*.
  revert r l. induction n as [|n IH]; intros r l H; simpl in H.
  - injection H as <- <-. by split_and!; [|constructor|].
  - inv_bind H. inv_bind H. injection H as <- <-.
    apply codec_canon in Hm as [Ha ->]. apply IH in Hm0 as (<- & Hl & ->).
    split_and!; [done|by constructor|]. simpl. by rewrite <- app_assoc.
Qed.
End sequence.

(** ** Elements *)

Definition elem_of_type (e : elem) (t : elem_type) : Prop :=
  match e with
  | EBool _ => t = TBool
  | EInt t' v => t' = t /\
      match t with
      | TInt32 => - 2 ^ 31 <= v < 2 ^ 31
      | TUint32 | TInvType | TNetMagic => 0 <= v < 2 ^ 32
      | TInt64 => - 2 ^ 63 <= v < 2 ^ 63
      | TUint64 | TServiceFlag => 0 <= v < 2 ^ 64
      | TBloomUpdateType | TRejectCode | TUint8 => 0 <= v < 256
      | _ => False
      end
  | EBytes t' bs => t' = t /\
      match t with
      | TChecksum => zlen bs = 4
      | TCommand => zlen bs = 12
      | TIP => zlen bs = 16
      | THash => zlen bs = 32
      | TArray n => zlen bs = n
      | _ => False
      end
  end.

Lemma element_roundtrip e t w r :
  elem_of_type e t ->
  exists out, writeElement e w = (Ret tt, w ++ out) /\ readElement t (out ++ r) = (Ret e, r).
Proof.
  intros He. destruct e as [t' v|b|t' bs]; simpl in He.
  - destruct He as [-> He]. destruct t; try done; simpl;
      (eexists; split; [reflexivity|]);
      rewrite ?u8_id, ?(u32_id v), ?(u64_id v) by lia;
      (erewrite bindM_step by (apply codec_read; cbv beta;
        first [lia | apply u32_range | apply u64_range]));
      rewrite ?i32_u32, ?i64_u64, ?i32_id, ?i64_id by lia; done.
  - subst t. destruct b; simpl; (eexists; split; [reflexivity|]);
      erewrite bindM_step by (apply codec_read; cbv beta; lia); done.
  - destruct He as [-> He]. destruct t; try done; simpl;
      (eexists; split; [reflexivity|]);
      by erewrite bindM_step by (by apply ReadFull_app).
Qed.

(** ** Property *)

(** Reading and writing variable length integers are inverse to each other,
    and every value has one encoding: a read returns [v] and leaves [r'] if and
    only if [v] is a 64-bit value and the input starts with exactly the bytes
    that writing [v] produces, as many as [VarIntSerializeSize] says; encodings
    that are longer than necessary are refused, and no input makes the reader
    panic. *)
Theorem VarInt_exact (r : bytes) :
  (forall v r', ReadVarInt r = (Ret v, r') <->
     0 <= v < 2 ^ 64 /\ exists w, WriteVarInt v [] = (Ret tt, w) /\ r = w ++ r'
       /\ zlen w = VarIntSerializeSize v)
  /\ match (ReadVarInt r).1 with Crash | NoFuel => False | _ => True end.
Proof.
  split; [|apply no_panic]. intros v r'. split.
  - intros Hr. apply codec_canon in Hr as [Hv ->]. split; [done|]. exists (varint_bytes v).
    split_and!; [by apply (WriteVarInt_writes v [])|done|apply zlen_varint_bytes].
  - intros (Hv & w & Hw & -> & _). rewrite WriteVarInt_writes in Hw by done. injection Hw as <-.
    by apply codec_read.
Qed.
