(* ===== verification/WireCodec.v ===== *)
(** Interfaces between the parts of a message.

    A writer, a reader and the encoding they agree on.  The clients of a part (a
    struct made of fields, a message made of structs) are proved from these
    classes only.  [Writes] and [Reads] say that a value in [wf] survives the
    trip, [Canon] that a reader accepts nothing but encodings of such values;
    some readers of the package are more liberal than their writers and have no
    instance of [Canon]. *)

From S2P Require Import Prelude WireCommon.

Class Writes {A} (write : A -> RM unit) (wf : A -> Prop) (enc : A -> bytes) : Prop :=
  writes a w : wf a -> write a w = (Ret tt, w ++ enc a).

Class Reads {A} (read : RM A) (wf : A -> Prop) (enc : A -> bytes) : Prop :=
  reads a r : wf a -> read (enc a ++ r) = (Ret a, r).

Class Canon {A} (read : RM A) (wf : A -> Prop) (enc : A -> bytes) : Prop :=
  canon r a r' : read r = (Ret a, r') -> wf a /\ r = enc a ++ r'.

(** What is left of [Reads] for a reader that looks at the end of its buffer. *)
Class ReadsAll {A} (read : RM A) (wf : A -> Prop) (enc : A -> bytes) : Prop :=
  reads_all a : wf a -> read (enc a) = (Ret a, []).

#[export] Instance Reads_ReadsAll {A} (read : RM A) wf enc : Reads read wf enc -> ReadsAll read wf enc.
Proof. intros Hr a Ha. rewrite <- (app_nil_r (enc a)). by apply Hr. Qed.

Lemma retM_inv {S E A} (a b : A) (s s' : S) : retM (E := E) a s = (Ret b, s') -> b = a /\ s = s'.
Proof. unfold retM. intros H. split; congruence. Qed.

(** ** Automation *)

(** Side conditions: what is left of the well-formedness of a field. *)
Ltac field_side := cbv beta in *; first [done | lia | assumption | eauto 3].

Ltac step_writes := rewrite ?bindM_assoc; erewrite bindM_step by (apply writes; field_side).
Ltac step_reads := rewrite ?bindM_assoc; erewrite bindM_step by (apply reads; field_side).

(** A writer that is a sequence of writers. *)
Ltac run_writes :=
  ztest; repeat (step_writes; ztest);
  try (etransitivity; [apply writes; field_side|]); rewrite <- ?app_assoc; try done.
Ltac run_reads :=
  rewrite <- ?app_assoc; ztest; repeat (step_reads; ztest);
  try (etransitivity; [apply reads; field_side|]); try done.

(** Invert a reader that returned. *)
Ltac inv_reads H :=
  repeat (inv_bind H || (case_match; [done|]));
  repeat match goal with
  | Hm : _ = (Ret _, _) |- _ => apply canon in Hm; destruct Hm as [? ->]
  end.

(** ** Typed elements *)

Definition readInt (t : elem_type) : RM Z :=
  e <- readElement t ;; match e with EInt _ v => retM v | _ => crashM end.
Definition readBytes (t : elem_type) : RM bytes :=
  e <- readElement t ;; match e with EBytes _ bs => retM bs | _ => crashM end.
Definition readBool : RM bool :=
  e <- readElement TBool ;; match e with EBool b => retM b | _ => crashM end.

Definition writeInt (t : elem_type) (v : Z) : RM unit := writeElement (EInt t v).
Definition writeBytes (t : elem_type) (bs : bytes) : RM unit := writeElement (EBytes t bs).
Definition writeBool (b : bool) : RM unit := writeElement (EBool b).

Definition int_range (t : elem_type) (v : Z) : Prop :=
  match t with
  | TInt32 => - 2 ^ 31 <= v < 2 ^ 31
  | TUint32 | TInvType | TNetMagic | TUint32Time => 0 <= v < 2 ^ 32
  | TInt64 | TInt64Time => - 2 ^ 63 <= v < 2 ^ 63
  | TUint64 | TServiceFlag => 0 <= v < 2 ^ 64
  | TBloomUpdateType | TRejectCode | TUint8 => 0 <= v < 256
  | _ => False
  end.

Definition int_bytes (t : elem_type) (v : Z) : bytes :=
  match t with
  | TInt32 | TUint32 | TInvType | TNetMagic | TUint32Time => le_bytes 4 (u32 v)
  | TInt64 | TInt64Time | TUint64 | TServiceFlag => le_bytes 8 (u64 v)
  | _ => le_bytes 1 (u8 v)
  end.

Definition int_size (t : elem_type) : Z :=
  match t with
  | TInt32 | TUint32 | TInvType | TNetMagic | TUint32Time => 4
  | TInt64 | TInt64Time | TUint64 | TServiceFlag => 8
  | _ => 1
  end.

Lemma zlen_int_bytes t v : zlen (int_bytes t v) = int_size t.
Proof. by destruct t; cbn [int_bytes int_size]; rewrite zlen_le_bytes. Qed.
#[export] Hint Rewrite zlen_int_bytes : zlen.

Definition bytes_size (t : elem_type) : Z :=
  match t with
  | TChecksum => 4 | TCommand => 12 | TIP => 16 | THash => 32 | TArray n => n | _ => -1
  end.

Definition bytes_wf (t : elem_type) (bs : bytes) : Prop := zlen bs = bytes_size t.

(** Bytes that are written as they are. *)
Definition raw (bs : bytes) : bytes := bs.
Lemma zlen_raw bs : zlen (raw bs) = zlen bs.
Proof. done. Qed.
#[export] Hint Rewrite zlen_raw : zlen.

Definition bool_bytes (b : bool) : bytes := le_bytes 1 (if b then 1 else 0).

(** The time types are read and never written. *)
Definition writable (t : elem_type) : bool :=
  match t with TUint32Time | TInt64Time => false | _ => true end.

#[export] Instance writeInt_writes t :
  Writes (writeInt t) (fun v => int_range t v /\ writable t = true) (int_bytes t).
Proof. by intros v w [Hv Hw]; destruct t. Qed.

#[export] Instance readInt_reads t : Reads (readInt t) (int_range t) (int_bytes t).
Proof.
  intros v r Hv. unfold readInt.
  destruct t; try done; cbn [readElement int_bytes int_range] in *; rewrite bindM_assoc;
    rewrite ?(u8_id v), ?(u32_id v), ?(u64_id v) by lia;
    (erewrite bindM_step by (apply codec_read; cbv beta;
      first [lia | apply u32_range | apply u64_range])); runM;
    rewrite ?i32_u32, ?i64_u64, ?i32_id, ?i64_id by lia; done.
Qed.

#[export] Instance readInt_canon t : Canon (readInt t) (int_range t) (int_bytes t).
Proof.
  intros r v r' H. unfold readInt in H. inv_bind H.
  destruct t; cbn [readElement] in Hm; inv_bind Hm; injection Hm as <- <-; try done;
    injection H as <- <-; apply codec_canon in Hm0 as [Ha ->]; cbn [int_bytes int_range];
    rewrite ?u32_i32, ?u64_i64, ?i64_id, ?(u8_id a0), ?(u32_id a0), ?(u64_id a0) by lia;
    (split; [first [lia | apply i32_range | apply i64_range]|]); done.
Qed.

#[export] Instance writeBytes_writes t : Writes (writeBytes t) (bytes_wf t) raw.
Proof. done. Qed.

#[export] Instance readBytes_reads t : Reads (readBytes t) (bytes_wf t) raw.
Proof.
  intros bs r Hb. unfold bytes_wf in Hb. pose proof (zlen_nonneg bs). unfold readBytes, raw.
  destruct t; cbn [bytes_size] in Hb; try lia; cbn [readElement]; rewrite bindM_assoc;
    by erewrite bindM_step by (by apply ReadFull_app).
Qed.

(** Arrays have a non-negative length. *)
#[export] Instance readBytes_canon t `{!TCEq (0 <=? bytes_size t) true} :
  Canon (readBytes t) (bytes_wf t) raw.
Proof.
  intros r v r' H. unfold readBytes in H. inv_bind H.
  match goal with C : TCEq _ _ |- _ => destruct t; inversion C as [C'] end; zbool;
    cbn [readElement bytes_size] in *; inv_bind Hm; injection Hm as <- <-; injection H as <- <-;
    by apply ReadFull_spec in Hm0 as [-> ?].
Qed.

#[export] Instance writeBool_writes : Writes writeBool (fun _ => True) bool_bytes.
Proof. by intros [] w _. Qed.
#[export] Instance readBool_reads : Reads readBool (fun _ => True) bool_bytes.
Proof.
  intros b r _. unfold readBool, bool_bytes. cbn [readElement]. rewrite bindM_assoc.
  erewrite bindM_step by (apply codec_read; destruct b; lia). by destruct b.
Qed.

#[export] Instance readElement_no_panic t : NoPanic (readElement t).
Proof. destruct t; cbn [readElement]; unfold Uint8, Uint32, Uint64; apply _. Qed.
Lemma readInt_no_panic t : (exists v, int_range t v) -> NoPanic (readInt t).
Proof.
  intros [v Hv] r. unfold readInt, bindM. pose proof (readElement_no_panic t r) as Hr.
  destruct (readElement t r) as [[e|e| |] s] eqn:E; try done.
  destruct t; try done; cbn [readElement] in E; inv_bind E; by injection E as <- <-.
Qed.
Lemma readBytes_no_panic t : 0 <= bytes_size t -> NoPanic (readBytes t).
Proof.
  intros Hv r. unfold readBytes, bindM. pose proof (readElement_no_panic t r) as Hr.
  destruct (readElement t r) as [[e|e| |] s] eqn:E; try done.
  destruct t; try (cbn in Hv; lia); cbn [readElement] in E; inv_bind E; by injection E as <- <-.
Qed.
#[export] Instance readBool_no_panic : NoPanic readBool.
Proof.
  intros r. unfold readBool, bindM. pose proof (readElement_no_panic TBool r) as Hr.
  destruct (readElement TBool r) as [[e|e| |] s] eqn:E; try done.
  cbn [readElement] in E. inv_bind E. by injection E as <- <-.
Qed.
#[export] Hint Extern 1 (NoPanic (readInt _)) =>
  apply readInt_no_panic; exists 0; cbn; lia : typeclass_instances.
#[export] Hint Extern 1 (NoPanic (readBytes _)) =>
  apply readBytes_no_panic; cbn; lia : typeclass_instances.

(** ** Lengths and byte strings *)

#[export] Instance WriteVarInt_codec : Writes WriteVarInt (fun v => 0 <= v < 2 ^ 64) varint_bytes.
Proof. intros v w Hv. by apply codec_write. Qed.
#[export] Instance ReadVarInt_codec : Reads ReadVarInt (fun v => 0 <= v < 2 ^ 64) varint_bytes.
Proof. intros v r Hv. by apply codec_read. Qed.
#[export] Instance ReadVarInt_canonical : Canon ReadVarInt (fun v => 0 <= v < 2 ^ 64) varint_bytes.
Proof. intros r v r' H. by apply codec_canon in H. Qed.

#[export] Instance WriteVarBytes_codec : Writes WriteVarBytes (fun bs => zlen bs < 2 ^ 64) varbytes.
Proof. intros bs w Hb. by apply WriteVarBytes_writes. Qed.
#[export] Instance WriteVarString_codec : Writes WriteVarString (fun bs => zlen bs < 2 ^ 64) varbytes.
Proof. intros bs w Hb. by apply WriteVarBytes_writes. Qed.
#[export] Instance ReadVarString_codec' :
  Reads ReadVarString (fun bs => zlen bs <= MaxMessagePayload) varbytes.
Proof. intros bs r Hb. by apply codec_read. Qed.
#[export] Instance ReadVarString_canonical :
  Canon ReadVarString (fun bs => zlen bs <= MaxMessagePayload) varbytes.
Proof. intros r v r' H. by apply codec_canon in H. Qed.

#[export] Instance ReadVarBytes_codec' max :
  Reads (ReadVarBytes max) (fun bs => zlen bs <= max < 2 ^ 32) varbytes.
Proof.
  intros bs r Hb. pose proof (zlen_nonneg bs). apply (codec_read (Codec := ReadVarBytes_codec max ltac:(lia))). lia.
Qed.
#[export] Instance ReadVarBytes_canonical max `{!TCEq ((0 <=? max) && (max <? 2 ^ 32)) true} :
  Canon (ReadVarBytes max) (fun bs => zlen bs <= max < 2 ^ 32) varbytes.
Proof.
  intros r v r' H. match goal with C : TCEq _ _ |- _ => inversion C as [C'] end. zbool.
  apply (codec_canon (Codec := ReadVarBytes_codec max ltac:(lia))) in H as [? ->]. split; [lia|done].
Qed.

#[export] Instance ReadVarString_no_panic : NoPanic ReadVarString.
Proof. unfold ReadVarString. apply _. Qed.
#[export] Instance ReadVarBytes_no_panic max : NoPanic (ReadVarBytes max).
Proof. unfold ReadVarBytes. apply _. Qed.

(** ** Loops over slices *)

(** [for _, x := range l { err := f(w, x); ... }] *)
Definition writeAll {A} (f : A -> RM unit) (l : list A) : RM unit := forM l f.

Definition list_bytes {A} (enc : A -> bytes) (l : list A) : bytes := concat (map enc l).

(** [for i := 0; i < count; i++ { err := f(r, &x); ...; msg.Add(x) }], where the
    error of [Add] is dropped. *)
Fixpoint readInto {A B} (n : nat) (f : RM A) (add : A -> B -> outcome WireErr B) (msg : B) : RM B :=
  match n with
  | O => retM msg
  | S n =>
      x <- f ;;
      readInto n f add (match add x msg with Ret msg' => msg' | _ => msg end)
  end.

(** The methods that append to a slice with a maximum length. *)
Definition addLimited {A} (max : Z) (func : string) (x : A) (l : list A) : outcome WireErr (list A) :=
  if zlen l + 1 >? max then Fail (MessageError func) else Ret (l ++ [x]).

Lemma readInto_repeatM {A B} (mk : list A -> B) add max n (f : RM A) l r :
  (forall x l, zlen l + 1 <= max -> add x (mk l) = Ret (mk (l ++ [x]))) ->
  zlen l + Z.of_nat n <= max ->
  readInto n f add (mk l) r = (l' <- repeatM n f ;; retM (mk (l ++ l'))) r.
Proof.
  intros Hadd. revert l r. induction n as [|n IH]; intros l r Hl; cbn [readInto repeatM].
  - unfold bindM, retM. by rewrite app_nil_r.
  - rewrite bindM_assoc. apply bindM_ext. intros x t _. rewrite bindM_assoc, Hadd by lia.
    rewrite IH by (rewrite zlen_app; change (zlen [x]) with 1; lia).
    apply bindM_ext. intros l' t' _. cbn. by rewrite <- app_assoc.
Qed.

#[export] Instance readInto_no_panic {A B} n (f : RM A) (add : A -> B -> outcome WireErr B) msg :
  NoPanic f -> NoPanic (readInto n f add msg).
Proof. intros Hf. revert msg. induction n as [|n IH]; intros msg; simpl; apply _. Qed.

Section lists.
Context {A} (read : RM A) (write : A -> RM unit) (wf : A -> Prop) (enc : A -> bytes).

#[export] Instance writeAll_writes `{!Writes write wf enc} :
  Writes (writeAll write) (Forall wf) (list_bytes enc).
Proof.
  intros l w Hl. revert w. induction Hl as [|x l Hx Hl IH]; intros w; unfold writeAll, list_bytes; simpl.
  - by rewrite app_nil_r.
  - erewrite bindM_step by (by apply writes). fold (writeAll write l). rewrite IH.
    by rewrite <- app_assoc.
Qed.

Lemma repeatM_reads' `{!Reads read wf enc} l r :
  Forall wf l -> repeatM (length l) read (list_bytes enc l ++ r) = (Ret l, r).
Proof.
  intros Hl. induction Hl as [|x l Hx Hl IH]; unfold list_bytes; simpl; [done|].
  rewrite <- app_assoc. erewrite bindM_step by (by apply reads). by rewrite (bindM_step _ _ _ _ _ IH).
Qed.

Lemma repeatM_canon' `{!Canon read wf enc} n r l r' :
  repeatM n read r = (Ret l, r') ->
  length l = n /\ Forall wf l /\ r = list_bytes enc l ++ r'.
Proof.
  revert r l. induction n as [|n IH]; intros r l H; simpl in H.
  - injection H as <- <-. by split_and!; [|constructor|].
  - inv_bind H. inv_bind H. injection H as <- <-.
    apply canon in Hm as [Ha ->]. apply IH in Hm0 as (<- & Hl & ->).
    split_and!; [done|by constructor|]. unfold list_bytes. simpl. by rewrite <- app_assoc.
Qed.
End lists.

(** A count, and as many elements. *)
Definition counted {A} (enc : A -> bytes) (l : list A) : bytes :=
  varint_bytes (zlen l) ++ list_bytes enc l.

Definition writeCounted {A} (f : A -> RM unit) (l : list A) : RM unit :=
  WriteVarInt (u64 (zlen l)) ;; writeAll f l.

#[export] Instance writeCounted_writes {A} (write : A -> RM unit) wf enc `{!Writes write wf enc} :
  Writes (writeCounted write) (fun l => zlen l < 2 ^ 64 /\ Forall wf l) (counted enc).
Proof.
  intros l w [Hn Hl]. pose proof (zlen_nonneg l). unfold writeCounted, counted.
  rewrite u64_id by lia. step_writes. rewrite writes by done. by rewrite <- app_assoc.
Qed.

(** The loop of a reader of counted elements, whichever way it collects them. *)
Section counted.
Context {A B} (read : RM A) (wf : A -> Prop) (enc : A -> bytes) (mk : list A -> B)
  (add : A -> B -> outcome WireErr B) (max : Z) (err : WireErr).
Hypothesis Hadd : forall x l, zlen l + 1 <= max -> add x (mk l) = Ret (mk (l ++ [x])).
Hypothesis Hmax : 0 <= max < 2 ^ 64.

Definition readCounted : RM B :=
  count <- ReadVarInt ;;
  if count >? max then failM err else readInto (Z.to_nat count) read add (mk []).

Lemma readCounted_eq r :
  readCounted r = (count <- ReadVarInt ;;
    if count >? max then failM err else
    l <- repeatM (Z.to_nat count) read ;; retM (mk l)) r.
Proof using Hadd Hmax.
  apply bindM_ext. intros c t Hc. apply canon in Hc as [Hc ->].
  destruct (Z.gtb_spec c max); [done|].
  rewrite (readInto_repeatM mk add max) by (done || rewrite (@zlen_nil A); lia).
  done.
Qed.

Lemma readCounted_reads `{!Reads read wf enc} l r :
  zlen l <= max -> Forall wf l -> readCounted (counted enc l ++ r) = (Ret (mk l), r).
Proof using Hadd Hmax.
  intros Hn Hl. pose proof (zlen_nonneg l). rewrite readCounted_eq. unfold counted.
  rewrite <- app_assoc. step_reads. ztest. rewrite zlen_to_nat.
  by erewrite bindM_step by (by apply (repeatM_reads' read wf enc)).
Qed.

Lemma readCounted_canon `{!Canon read wf enc} r b r' :
  readCounted r = (Ret b, r') ->
  exists l, b = mk l /\ zlen l <= max /\ Forall wf l /\ r = counted enc l ++ r'.
Proof using Hadd Hmax.
  rewrite readCounted_eq. intros H. inv_bind H. destruct (Z.gtb_spec a max); [done|].
  inv_bind H. injection H as <- <-. apply canon in Hm as [Ha ->].
  apply (repeatM_canon' read wf enc) in Hm0 as (Hl & Hwf & ->). exists a0.
  assert (zlen a0 = a) by (unfold zlen; lia). split_and!; [done|lia|done|].
  unfold counted. rewrite <- app_assoc. congruence.
Qed.

#[export] Instance readCounted_no_panic : NoPanic read -> NoPanic readCounted.
Proof. unfold readCounted. apply _. Qed.
End counted.

Lemma addLimited_below {A} max func (x : A) l :
  zlen l + 1 <= max -> addLimited max func x l = Ret (l ++ [x]).
Proof. intros Hl. unfold addLimited. by ztest. Qed.

(** Run the loop of a decoder that collects into the message [mk]; [add] unfolds
    the method that appends. *)
Ltac read_counted read wf enc mk add :=
  eapply (readCounted_reads read wf enc mk);
  [ intros ? ? ?; add; rewrite ?addLimited_below by done; done | done | apply _ | try done; try lia .. ].
Ltac canon_counted H read wf enc mk add :=
  eapply (readCounted_canon read wf enc mk) in H;
  [ | intros ? ? ?; add; rewrite ?addLimited_below by done; done | done | apply _ ].
