(* ===== verification/WireTx.v ===== *)
(** Transactions on the wire (src/thoughtd/wire/msgtx.go).

    [ThtDecode] and [ThtEncode] for both encodings, the size functions and the
    transaction hash.  The decoder ends by moving every script into one buffer
    and making the fields slices of it: the buffer, the offsets and the slices
    are modelled, and the slices are read after the last copy. *)

From S2P Require Import Prelude Crypto WireCommon.

(** ** Data *)

Record OutPoint := mkOutPoint { Hash : bytes; Index : Z }.

Record TxIn := mkTxIn {
  PreviousOutPoint : OutPoint;
  SignatureScript : bytes;
  Witness : list bytes;
  Sequence : Z }.

Record TxOut := mkTxOut { Value : Z; PkScript : bytes }.

(** The fields [TxIn] and [TxOut] of the struct are [TxIns] and [TxOuts]. *)
Record MsgTx := mkMsgTx {
  Version : Z;
  TxIns : list TxIn;
  TxOuts : list TxOut;
  LockTime : Z }.

(** src/thoughtd/wire/message.go *)
Inductive MessageEncoding := BaseEncoding | WitnessEncoding.

Definition is_witness_encoding (enc : MessageEncoding) : bool :=
  match enc with BaseEncoding => false | WitnessEncoding => true end.

Notation MainnetTxVersion := 3 (only parsing).
Notation TestnetTxVersion := 2 (only parsing).
Notation MaxTxInSequenceNum := 0xffffffff (only parsing).
Notation SequenceLockTimeDisabled := (2 ^ 31) (only parsing).
Notation SequenceLockTimeIsSeconds := (2 ^ 22) (only parsing).
Notation SequenceLockTimeMask := 0x0000ffff (only parsing).
Notation minTxInPayload := (9 + 32) (only parsing).
(** [MaxMessagePayload / minTxInPayload + 1] *)
Notation maxTxInPerMessage := 818401 (only parsing).
Notation MinTxOutPayload := 9 (only parsing).
(** [MaxMessagePayload / MinTxOutPayload + 1] *)
Notation maxTxOutPerMessage := 3728271 (only parsing).
Notation maxWitnessItemsPerInput := 500000 (only parsing).
Notation maxWitnessItemSize := 11000 (only parsing).
Notation TxFlagMarker := 0x00 (only parsing).
Notation WitnessFlag := 0x01 (only parsing).

(** ** Construction *)

Definition NewMsgTx (version : Z) : MsgTx := mkMsgTx version [] [] 0.

Definition AddTxIn (ti : TxIn) (msg : MsgTx) : MsgTx :=
  mkMsgTx (Version msg) (TxIns msg ++ [ti]) (TxOuts msg) (LockTime msg).

Definition AddTxOut (to : TxOut) (msg : MsgTx) : MsgTx :=
  mkMsgTx (Version msg) (TxIns msg) (TxOuts msg ++ [to]) (LockTime msg).

Definition NewTxIn (prevOut : OutPoint) (signatureScript : bytes) (witness : list bytes) : TxIn :=
  mkTxIn prevOut signatureScript witness MaxTxInSequenceNum.

(** ** Encoding *)

Definition WriteOutPoint (op : OutPoint) : RM unit :=
  Write (Hash op) ;; PutUint32 (Index op).

Definition writeTxIn (ti : TxIn) : RM unit :=
  WriteOutPoint (PreviousOutPoint ti) ;;
  WriteVarBytes (SignatureScript ti) ;;
  PutUint32 (Sequence ti).

Definition WriteTxOut (to : TxOut) : RM unit :=
  PutUint64 (u64 (Value to)) ;; WriteVarBytes (PkScript to).

Definition writeTxWitness (wit : list bytes) : RM unit :=
  WriteVarInt (u64 (zlen wit)) ;; forM wit WriteVarBytes.

Definition HasWitness (msg : MsgTx) : bool :=
  existsb (fun txIn => negb (zlen (Witness txIn) =? 0)) (TxIns msg).

Definition ThtEncode (enc : MessageEncoding) (msg : MsgTx) : RM unit :=
  PutUint32 (u32 (Version msg)) ;;
  let doWitness := is_witness_encoding enc && HasWitness msg in
  (if doWitness then Write [z2b TxFlagMarker; z2b WitnessFlag] else retM tt) ;;
  WriteVarInt (u64 (zlen (TxIns msg))) ;;
  forM (TxIns msg) writeTxIn ;;
  WriteVarInt (u64 (zlen (TxOuts msg))) ;;
  forM (TxOuts msg) WriteTxOut ;;
  (if doWitness then forM (TxIns msg) (fun ti => writeTxWitness (Witness ti)) else retM tt) ;;
  PutUint32 (LockTime msg).

Definition Serialize (msg : MsgTx) : RM unit := ThtEncode WitnessEncoding msg.
Definition SerializeNoWitness (msg : MsgTx) : RM unit := ThtEncode BaseEncoding msg.

(** ** Sizes *)

Definition TxIn_SerializeSize (t : TxIn) : Z :=
  40 + VarIntSerializeSize (u64 (zlen (SignatureScript t))) + zlen (SignatureScript t).

Definition TxOut_SerializeSize (t : TxOut) : Z :=
  8 + VarIntSerializeSize (u64 (zlen (PkScript t))) + zlen (PkScript t).

Definition TxWitness_SerializeSize (t : list bytes) : Z :=
  fold_left (fun n witItem => n + VarIntSerializeSize (u64 (zlen witItem)) + zlen witItem)
    t (VarIntSerializeSize (u64 (zlen t))).

Definition baseSize (msg : MsgTx) : Z :=
  let n := 8 + VarIntSerializeSize (u64 (zlen (TxIns msg)))
             + VarIntSerializeSize (u64 (zlen (TxOuts msg))) in
  let n := fold_left (fun n txIn => n + TxIn_SerializeSize txIn) (TxIns msg) n in
  fold_left (fun n txOut => n + TxOut_SerializeSize txOut) (TxOuts msg) n.

Definition SerializeSize (msg : MsgTx) : Z :=
  let n := baseSize msg in
  if HasWitness msg then
    fold_left (fun n txin => n + TxWitness_SerializeSize (Witness txin)) (TxIns msg) (n + 2)
  else n.

Definition SerializeSizeStripped (msg : MsgTx) : Z := baseSize msg.

(** ** Decoding *)

Definition readOutPoint : RM OutPoint :=
  h <- ReadFull 32 ;; i <- Uint32 ;; retM (mkOutPoint h i).

Definition readScript (maxAllowed : Z) : RM bytes :=
  count <- ReadVarInt ;;
  if count >? u64 maxAllowed then failM (MessageError "readScript")
  else ReadFull count.

Definition readTxIn : RM TxIn :=
  op <- readOutPoint ;;
  script <- readScript MaxMessagePayload ;;
  seq <- Uint32 ;;
  retM (mkTxIn op script [] seq).

Definition ReadTxOut : RM TxOut :=
  value <- Uint64 ;;
  script <- readScript MaxMessagePayload ;;
  retM (mkTxOut (i64 value) script).

(** The witness loop of [ThtDecode]: one stack per input. *)
Fixpoint readWitnesses (ins : list TxIn) : RM (list TxIn) :=
  match ins with
  | [] => retM []
  | ti :: ins =>
      witCount <- ReadVarInt ;;
      if witCount >? maxWitnessItemsPerInput then failM (MessageError "MsgTx.ThtDecode") else
      wit <- repeatM (Z.to_nat witCount) (readScript maxWitnessItemSize) ;;
      rest <- readWitnesses ins ;;
      retM (mkTxIn (PreviousOutPoint ti) (SignatureScript ti) wit (Sequence ti) :: rest)
  end.

(** *** The contiguous script buffer *)

(** [copy(buf[off:], src)] *)
Definition copy_at (buf : bytes) (off : Z) (src : bytes) : bytes :=
  let n := Z.min (zlen buf - off) (zlen src) in
  take (Z.to_nat off) buf ++ take (Z.to_nat n) src ++ drop (Z.to_nat (off + n)) buf.

(** A slice of the buffer: its two bounds. *)
Definition sref : Type := Z * Z.

Fixpoint mapM {S E A B} (f : A -> M S E B) (l : list A) : M S E (list B) :=
  match l with
  | [] => retM []
  | x :: l => y <- f x ;; ys <- mapM f l ;; retM (y :: ys)
  end.

(** Copy one script to the current offset and take the slice
    [scripts[offset:end:end]]; the state is the buffer and the offset. *)
Definition place (script : bytes) : M (bytes * Z) WireErr sref := fun '(buf, off) =>
  if (off >? zlen buf) then (Crash, (buf, off)) else
  let buf := copy_at buf off script in
  let fin := u64 (off + zlen script) in
  if (fin >? zlen buf) || (off >? fin) then (Crash, (buf, off)) else
  (Ret (off, fin), (buf, fin)).

Definition placeTxIn (ti : TxIn) : M (bytes * Z) WireErr (sref * list sref) :=
  s <- place (SignatureScript ti) ;;
  ws <- mapM place (Witness ti) ;;
  retM (s, ws).

Definition deref (buf : bytes) (s : sref) : bytes :=
  match zslice buf s.1 s.2 with Some b => b | None => [] end.

Definition totalScriptSize (ins : list TxIn) (outs : list TxOut) : Z :=
  u64 (zsum (fun ti => zlen (SignatureScript ti) + zsum zlen (Witness ti)) ins
       + zsum (fun to => zlen (PkScript to)) outs).

Definition relocate (ins : list TxIn) (outs : list TxOut) :
    outcome WireErr (list TxIn * list TxOut) :=
  let buf0 := replicate (Z.to_nat (totalScriptSize ins outs)) (z2b 0) in
  let '(r, (buf, _)) :=
    (irefs <- mapM placeTxIn ins ;;
     orefs <- mapM (fun to => place (PkScript to)) outs ;;
     retM (irefs, orefs)) (buf0, 0) in
  let! (irefs, orefs) := r in
  Ret (zip_with (fun ti ref => mkTxIn (PreviousOutPoint ti) (deref buf ref.1)
                   (map (deref buf) ref.2) (Sequence ti)) ins irefs,
       zip_with (fun to ref => mkTxOut (Value to) (deref buf ref)) outs orefs).

Definition ThtDecode (enc : MessageEncoding) : RM MsgTx :=
  version <- Uint32 ;;
  count <- ReadVarInt ;;
  '(flag, count) <-
    (if (count =? TxFlagMarker) && is_witness_encoding enc then
       flag <- Uint8 ;;
       if negb (flag =? WitnessFlag) then failM (MessageError "MsgTx.ThtDecode") else
       count <- ReadVarInt ;;
       retM (flag, count)
     else retM (0, count)) ;;
  if count >? maxTxInPerMessage then failM (MessageError "MsgTx.ThtDecode") else
  ins <- repeatM (Z.to_nat count) readTxIn ;;
  count <- ReadVarInt ;;
  if count >? maxTxOutPerMessage then failM (MessageError "MsgTx.ThtDecode") else
  outs <- repeatM (Z.to_nat count) ReadTxOut ;;
  ins <- (if negb (flag =? 0) && is_witness_encoding enc then readWitnesses ins else retM ins) ;;
  lockTime <- Uint32 ;;
  '(ins, outs) <- liftO (relocate ins outs) ;;
  retM (mkMsgTx (i32 version) ins outs lockTime).

Definition Deserialize : RM MsgTx := ThtDecode WitnessEncoding.
Definition DeserializeNoWitness : RM MsgTx := ThtDecode BaseEncoding.

(** ** Hashes *)

Section hash.
Context `{Crypto}.

Definition TxHash (msg : MsgTx) : bytes := DoubleHashH (SerializeNoWitness msg []).2.

Definition WitnessHash (msg : MsgTx) : bytes :=
  if HasWitness msg then DoubleHashH (Serialize msg []).2 else TxHash msg.
End hash.

#[local] Opaque le_bytes.

(** ** The script buffer *)

Lemma zlen_copy_at buf off src :
  0 <= off -> off + zlen src <= zlen buf -> zlen (copy_at buf off src) = zlen buf.
Proof. intros. unfold copy_at. rewrite Z.min_r by lia. zlia. Qed.

Lemma take_copy_at buf off src :
  0 <= off <= zlen buf -> take (Z.to_nat off) (copy_at buf off src) = take (Z.to_nat off) buf.
Proof.
  intros H. unfold copy_at. rewrite take_app_le by (unfold zlen in *; rewrite length_take; lia).
  by rewrite take_take, Nat.min_id.
Qed.

Lemma drop_copy_at buf off src :
  0 <= off -> off + zlen src <= zlen buf ->
  drop (Z.to_nat off) (take (Z.to_nat (off + zlen src)) (copy_at buf off src)) = src.
Proof.
  intros Ho Hl. unfold copy_at. rewrite Z.min_r by lia. rewrite zlen_to_nat.
  rewrite (take_ge src) by done.
  assert (length (take (Z.to_nat off) buf) = Z.to_nat off) as Hlen
    by (rewrite length_take; unfold zlen in *; lia).
  rewrite Z2Nat.inj_add, zlen_to_nat by (pose proof (zlen_nonneg src); lia).
  rewrite <- Hlen at 2. rewrite take_app_add, take_app_length.
  rewrite drop_app_le by lia. rewrite (drop_ge (take _ _)) by lia. done.
Qed.

(** Copying to a new array of the same size. *)
Lemma copy_at_whole b : copy_at (replicate (Z.to_nat (zlen b)) (z2b 0)) 0 b = b.
Proof.
  unfold copy_at. rewrite zlen_replicate, Z.min_r by zlia.
  rewrite take_0, drop_ge by (rewrite length_replicate; lia).
  rewrite take_ge by (unfold zlen; lia). by rewrite app_nil_r.
Qed.

(** [m] uses [n] bytes of the buffer from the current offset, and what it
    returns shows [x] in every later state of the buffer. *)
Definition placed {R X} (m : M (bytes * Z) WireErr R) (n : Z)
    (view : bytes -> R -> X) (x : X) : Prop :=
  0 <= n /\ forall buf off, 0 <= off -> off + n <= zlen buf < 2 ^ 64 ->
  exists r buf', m (buf, off) = (Ret r, (buf', off + n)) /\ zlen buf' = zlen buf
    /\ take (Z.to_nat off) buf' = take (Z.to_nat off) buf
    /\ forall later, take (Z.to_nat (off + n)) later = take (Z.to_nat (off + n)) buf' ->
       view later r = x.

Lemma placed_place script : placed (place script) (zlen script) deref script.
Proof.
  split; [apply zlen_nonneg|].
  intros buf off Ho Hl. pose proof (zlen_nonneg script). unfold place.
  rewrite (u64_id (off + _)) by lia. rewrite zlen_copy_at by lia. ztest. simpl.
  eexists _, _. split_and!; [reflexivity|by apply zlen_copy_at; lia|by apply take_copy_at; lia|].
  intros later Hlater.
  assert (off + zlen script <= zlen later) as Hlen.
  { apply (f_equal length) in Hlater. rewrite !length_take in Hlater.
    pose proof (zlen_copy_at buf off script). unfold zlen in *. lia. }
  unfold deref. simpl. rewrite zslice_Some by lia.
  etransitivity; [|apply (drop_copy_at buf off); lia]. rewrite <- Hlater.
  rewrite take_drop_commute. repeat f_equal. lia.
Qed.

Lemma take_le_eq {A} (l k : list A) (i j : nat) :
  (i <= j)%nat -> take j l = take j k -> take i l = take i k.
Proof.
  intros Hij H. apply (f_equal (take i)) in H.
  by rewrite !take_take, !Nat.min_l in H by lia.
Qed.

Lemma placed_bind {R1 R2 X1 X2} (m1 : M _ WireErr R1) (m2 : M _ WireErr R2)
    n1 n2 v1 v2 (x1 : X1) (x2 : X2) :
  placed m1 n1 v1 x1 -> placed m2 n2 v2 x2 ->
  placed (r1 <- m1 ;; r2 <- m2 ;; retM (r1, r2)) (n1 + n2)
    (fun buf r => (v1 buf r.1, v2 buf r.2)) (x1, x2).
Proof.
  intros [Hn1 H1] [Hn2 H2]. split; [lia|]. intros buf off Ho Hl.
  destruct (H1 buf off) as (r1 & b1 & E1 & L1 & T1 & V1); [lia..|].
  destruct (H2 b1 (off + n1)) as (r2 & b2 & E2 & L2 & T2 & V2); [lia..|].
  rewrite (bindM_step _ _ _ _ _ E1), (bindM_step _ _ _ _ _ E2).
  eexists _, b2. split_and!.
  - unfold retM. by rewrite Z.add_assoc.
  - lia.
  - rewrite <- T1. eapply take_le_eq, T2. lia.
  - intros later Hlater. rewrite Z.add_assoc in Hlater. simpl. f_equal.
    + apply V1. rewrite <- T2. eapply take_le_eq, Hlater. lia.
    + by apply V2.
Qed.

Lemma placed_map {R1 R2 X1 X2} (m1 : M _ WireErr R1) (m2 : M _ WireErr R2) (f : R1 -> R2)
    n v1 (x1 : X1) (v2 : bytes -> R2 -> X2) x2 :
  placed m1 n v1 x1 -> (forall s, m2 s = (r <- m1 ;; retM (f r)) s) ->
  (forall buf r, v1 buf r = x1 -> v2 buf (f r) = x2) -> placed m2 n v2 x2.
Proof.
  intros [Hn H] Hm Hv. split; [done|]. intros buf off Ho Hl.
  destruct (H buf off Ho Hl) as (r & b & E & L & T & V).
  exists (f r), b. rewrite Hm, (bindM_step _ _ _ _ _ E). split_and!; eauto.
Qed.

Lemma placed_mapM {A R X} (f : A -> M _ WireErr R) (n : A -> Z) (view : bytes -> R -> X)
    (g : A -> X) l :
  (forall a, placed (f a) (n a) view (g a)) ->
  placed (mapM f l) (zsum n l) (fun buf rs => map (view buf) rs) (map g l).
Proof.
  intros Hf. induction l as [|a l IH]; simpl.
  - split; [done|]. intros buf off ??. exists [], buf. by rewrite Z.add_0_r.
  - eapply (placed_map _ _ (fun p => p.1 :: p.2)); [exact (placed_bind _ _ _ _ _ _ _ _ (Hf a) IH)| |].
    + intros s. unfold bindM, retM. destruct (f a s) as [[] t]; try done.
      by destruct (mapM f l t) as [[] ?].
    + intros buf [r rs] Hv. simpl in *. injection Hv as -> ->. done.
Qed.

Lemma placed_txin ti :
  placed (placeTxIn ti) (zlen (SignatureScript ti) + zsum zlen (Witness ti))
    (fun buf r => (deref buf r.1, map (deref buf) r.2)) (SignatureScript ti, Witness ti).
Proof.
  rewrite <- (map_id (Witness ti)) at 2.
  apply placed_bind; [apply placed_place|]. apply placed_mapM, placed_place.
Qed.

Lemma rebuild_ins buf ins refs :
  map (fun r => (deref buf r.1, map (deref buf) r.2)) refs
    = map (fun ti => (SignatureScript ti, Witness ti)) ins ->
  zip_with (fun ti ref => mkTxIn (PreviousOutPoint ti) (deref buf ref.1)
              (map (deref buf) ref.2) (Sequence ti)) ins refs = ins.
Proof.
  revert refs. induction ins as [|ti ins IH]; intros [|r refs] H; try done.
  simpl in *. injection H as H1 H2 H3. rewrite IH, H1, H2 by done. by destruct ti.
Qed.

Lemma rebuild_outs buf outs refs :
  map (deref buf) refs = map PkScript outs ->
  zip_with (fun to ref => mkTxOut (Value to) (deref buf ref)) outs refs = outs.
Proof.
  revert refs. induction outs as [|to outs IH]; intros [|r refs] H; try done.
  simpl in *. injection H as H1 H2. rewrite IH, H1 by done. by destruct to.
Qed.

(** Moving the scripts to one buffer neither panics nor changes them. *)
Lemma relocate_id ins outs :
  zsum (fun ti => zlen (SignatureScript ti) + zsum zlen (Witness ti)) ins
    + zsum (fun to => zlen (PkScript to)) outs < 2 ^ 64 ->
  relocate ins outs = Ret (ins, outs).
Proof.
  intros Hlt.
  destruct (placed_bind _ _ _ _ _ _ _ _ (placed_mapM _ _ _ _ ins placed_txin)
    (placed_mapM _ _ _ _ outs (fun to => placed_place (PkScript to)))) as [Hn H].
  unfold relocate, totalScriptSize. rewrite u64_id by lia.
  set (buf0 := replicate _ _).
  destruct (H buf0 0) as (r & buf' & E & _ & _ & V); [done| |rewrite E].
  { subst buf0. rewrite zlen_replicate. lia. }
  destruct r as [irefs orefs]. specialize (V buf' eq_refl). simpl in V.
  injection V as V1 V2. simpl. by rewrite rebuild_ins, rebuild_outs.
Qed.

(** ** Codecs of the parts of a transaction *)

#[export] Instance hash_codec :
  Codec (ReadFull 32) Write (fun bs => zlen bs = 32) (fun bs => bs).
Proof.
  split; [done|intros; by apply ReadFull_app|].
  intros r a r' H. apply ReadFull_spec in H as [-> Hl]; done.
Qed.

Definition outpoint_wf (op : OutPoint) : Prop := zlen (Hash op) = 32 /\ 0 <= Index op < 2 ^ 32.
Definition outpoint_bytes (op : OutPoint) : bytes := Hash op ++ le_bytes 4 (Index op).

Ltac step_write := erewrite bindM_step by (apply codec_write; cbv beta; first [done | lia]).

#[export] Instance OutPoint_codec : Codec readOutPoint WriteOutPoint outpoint_wf outpoint_bytes.
Proof.
  split.
  - intros [h i] w [Hh Hi]. unfold WriteOutPoint, outpoint_bytes. simpl in *.
    step_write. rewrite codec_write by done. by rewrite <- app_assoc.
  - intros [h i] r [Hh Hi]. unfold readOutPoint, outpoint_bytes. simpl in *.
    rewrite <- app_assoc. erewrite bindM_step by (by apply ReadFull_app).
    by erewrite bindM_step by (by apply codec_read).
  - intros r op r' H. unfold readOutPoint in H. inv_bind H. inv_bind H.
    injection H as <- <-. apply codec_canon in Hm as [? ->], Hm0 as [? ->].
    split; [done|]. unfold outpoint_bytes. by rewrite <- app_assoc.
Qed.

Lemma readScript_codec max : 0 <= max < 2 ^ 32 ->
  Codec (readScript max) WriteVarBytes (fun bs => zlen bs <= max) varbytes.
Proof.
  intros Hmax. unfold readScript. rewrite u64_id by lia.
  by apply (counted_codec max (MessageError "readScript")).
Qed.
#[export] Instance readScript_codec_payload :
  Codec (readScript MaxMessagePayload) WriteVarBytes
    (fun bs => zlen bs <= MaxMessagePayload) varbytes.
Proof. by apply readScript_codec. Qed.
#[export] Instance readScript_codec_witness :
  Codec (readScript maxWitnessItemSize) WriteVarBytes
    (fun bs => zlen bs <= maxWitnessItemSize) varbytes.
Proof. by apply readScript_codec. Qed.

(** An input without its witness, which is encoded elsewhere. *)
Definition txin_wf (ti : TxIn) : Prop :=
  outpoint_wf (PreviousOutPoint ti) /\ zlen (SignatureScript ti) <= MaxMessagePayload
  /\ 0 <= Sequence ti < 2 ^ 32.
Definition txin_bytes (ti : TxIn) : bytes :=
  outpoint_bytes (PreviousOutPoint ti) ++ varbytes (SignatureScript ti) ++ le_bytes 4 (Sequence ti).
Definition strip (ti : TxIn) : TxIn :=
  mkTxIn (PreviousOutPoint ti) (SignatureScript ti) [] (Sequence ti).

#[export] Instance TxIn_codec :
  Codec readTxIn writeTxIn (fun ti => txin_wf ti /\ Witness ti = []) txin_bytes.
Proof.
  split.
  - intros [op s wit sq] w [(H1 & H2 & H3) _]. unfold writeTxIn, txin_bytes. simpl in *.
    step_write. erewrite bindM_step by (apply WriteVarBytes_writes; lia).
    rewrite codec_write by done. by rewrite <- !app_assoc.
  - intros [op s wit sq] r [(H1 & H2 & H3) Hw]. unfold readTxIn, txin_bytes. simpl in *.
    rewrite <- !app_assoc. subst wit.
    do 2 erewrite bindM_step by (by apply codec_read).
    by erewrite bindM_step by (by apply codec_read).
  - intros r ti r' H. unfold readTxIn in H. do 3 inv_bind H. injection H as <- <-.
    apply codec_canon in Hm as [? ->], Hm0 as [? ->], Hm1 as [? ->].
    split; [done|]. unfold txin_bytes. by rewrite <- !app_assoc.
Qed.

Definition txout_wf (to : TxOut) : Prop :=
  - 2 ^ 63 <= Value to < 2 ^ 63 /\ zlen (PkScript to) <= MaxMessagePayload.
Definition txout_bytes (to : TxOut) : bytes :=
  le_bytes 8 (u64 (Value to)) ++ varbytes (PkScript to).

#[export] Instance TxOut_codec : Codec ReadTxOut WriteTxOut txout_wf txout_bytes.
Proof.
  split.
  - intros [v s] w [H1 H2]. unfold WriteTxOut, txout_bytes. simpl in *.
    erewrite bindM_step by (apply codec_write, u64_range).
    rewrite WriteVarBytes_writes by lia. by rewrite <- app_assoc.
  - intros [v s] r [H1 H2]. unfold ReadTxOut, txout_bytes. cbn [Value PkScript] in *.
    rewrite <- app_assoc. erewrite bindM_step by (apply codec_read, u64_range).
    erewrite bindM_step by (by apply codec_read).
    unfold retM. by rewrite i64_u64, i64_id.
  - intros r to r' H. unfold ReadTxOut in H. do 2 inv_bind H. injection H as <- <-.
    apply codec_canon in Hm as [Ha ->], Hm0 as [? ->].
    split; [split; [apply i64_range|done]|].
    unfold txout_bytes. cbn [Value PkScript]. by rewrite <- app_assoc, u64_i64, u64_id.
Qed.

(** A witness stack. *)
Definition witness_wf (wit : list bytes) : Prop :=
  zlen wit <= maxWitnessItemsPerInput /\ Forall (fun w => zlen w <= maxWitnessItemSize) wit.
Definition witness_bytes (wit : list bytes) : bytes :=
  varint_bytes (zlen wit) ++ concat (map varbytes wit).

Lemma writeTxWitness_writes wit w :
  witness_wf wit -> writeTxWitness wit w = (Ret tt, w ++ witness_bytes wit).
Proof.
  intros [Hl Hw]. pose proof (zlen_nonneg wit). unfold writeTxWitness, witness_bytes.
  rewrite u64_id by lia. step_write.
  rewrite (forM_writes _ _ _ _ (Codec0 := readScript_codec_witness)) by done.
  by rewrite <- app_assoc.
Qed.

Lemma readWitnesses_reads ins r :
  Forall (fun ti => witness_wf (Witness ti)) ins ->
  readWitnesses (map strip ins) (concat (map (fun ti => witness_bytes (Witness ti)) ins) ++ r)
  = (Ret ins, r).
Proof.
  induction 1 as [|ti ins [Hl Hw] Hins IH]; [done|]. simpl.
  pose proof (zlen_nonneg (Witness ti)). unfold witness_bytes at 1. rewrite <- !app_assoc.
  erewrite bindM_step by (apply codec_read; lia). ztest. rewrite zlen_to_nat.
  erewrite bindM_step by (by apply (repeatM_reads _ _ _ _ (Codec0 := readScript_codec_witness))).
  erewrite bindM_step by apply IH. by destruct ti.
Qed.

(** The witness loop keeps the inputs and gives them bounded witnesses. *)
Lemma readWitnesses_canon ins r ins' r' :
  readWitnesses ins r = (Ret ins', r') ->
  map strip ins' = map strip ins /\ Forall (fun ti => witness_wf (Witness ti)) ins'
  /\ r = concat (map (fun ti => witness_bytes (Witness ti)) ins') ++ r'.
Proof.
  revert r ins'. induction ins as [|ti ins IH]; intros r ins' H; simpl in H.
  { injection H as <- <-. by split_and!; [|constructor|]. }
  inv_bind H. apply codec_canon in Hm as [Ha ->]. case_match; [done|]. zbool.
  inv_bind H. apply (repeatM_canon _ _ _ _ (Codec0 := readScript_codec_witness)) in Hm
    as (Hl & Hw & ->).
  inv_bind H. injection H as <- <-. apply IH in Hm as (Hs & Hws & ->).
  assert (zlen a0 = a) as Ha0 by (unfold zlen; lia).
  split_and!.
  - simpl. f_equal; done.
  - constructor; [split; simpl; [lia|done]|done].
  - simpl. unfold witness_bytes at 2. simpl. by rewrite Ha0, <- !app_assoc.
Qed.

#[export] Instance readScript_no_panic max : NoPanic (readScript max).
Proof. unfold readScript. apply _. Qed.
#[export] Instance readTxIn_no_panic : NoPanic readTxIn.
Proof. unfold readTxIn, readOutPoint, Uint32. apply _. Qed.
#[export] Instance ReadTxOut_no_panic : NoPanic ReadTxOut.
Proof. unfold ReadTxOut, Uint64. apply _. Qed.
#[export] Instance readWitnesses_no_panic ins : NoPanic (readWitnesses ins).
Proof. induction ins; simpl; apply _. Qed.

(** ** Transactions *)

(** The values a [MsgTx] of the protocol holds: machine integers in range and
    the limits of a message. *)
Definition tx_wf (msg : MsgTx) : Prop :=
  - 2 ^ 31 <= Version msg < 2 ^ 31
  /\ (zlen (TxIns msg) <= maxTxInPerMessage /\ Forall txin_wf (TxIns msg))
  /\ (zlen (TxOuts msg) <= maxTxOutPerMessage /\ Forall txout_wf (TxOuts msg))
  /\ Forall (fun ti => witness_wf (Witness ti)) (TxIns msg)
  /\ 0 <= LockTime msg < 2 ^ 32.

(** The transaction without its witnesses. *)
Definition tx_strip (msg : MsgTx) : MsgTx :=
  mkMsgTx (Version msg) (map strip (TxIns msg)) (TxOuts msg) (LockTime msg).

(** The inputs and outputs, which both encodings share. *)
Definition tx_body (ins : list TxIn) (outs : list TxOut) : bytes :=
  varint_bytes (zlen ins) ++ concat (map txin_bytes ins)
  ++ varint_bytes (zlen outs) ++ concat (map txout_bytes outs).

(** The two layouts of BIP 144. *)
Definition tx_bytes (doWitness : bool) (msg : MsgTx) : bytes :=
  le_bytes 4 (u32 (Version msg))
  ++ (if doWitness then [z2b 0; z2b 1] else [])
  ++ tx_body (TxIns msg) (TxOuts msg)
  ++ (if doWitness then concat (map (fun ti => witness_bytes (Witness ti)) (TxIns msg)) else [])
  ++ le_bytes 4 (LockTime msg).

Lemma map_txin_bytes_strip ins : map txin_bytes (map strip ins) = map txin_bytes ins.
Proof. rewrite map_map. by apply map_ext. Qed.

Lemma Forall_strip ins : Forall txin_wf ins ->
  Forall (fun ti => txin_wf ti /\ Witness ti = []) (map strip ins).
Proof. intros H. apply Forall_map. eapply Forall_impl; [exact H|]. done. Qed.

Lemma writeTxIns_writes ins w :
  Forall txin_wf ins -> forM ins writeTxIn w = (Ret tt, w ++ concat (map txin_bytes ins)).
Proof.
  intros H. rewrite <- map_txin_bytes_strip.
  assert (forall l w, forM l writeTxIn w = forM (map strip l) writeTxIn w) as ->.
  { intros l. induction l as [|ti l IH]; intros w'; simpl; [done|]. unfold bindM.
    change (writeTxIn (strip ti)) with (writeTxIn ti).
    destruct (writeTxIn ti w') as [[] t]; try done. }
  by apply (forM_writes readTxIn _ (fun ti => txin_wf ti /\ Witness ti = []) txin_bytes), Forall_strip.
Qed.

Lemma writeWitnesses_writes ins w :
  Forall (fun ti => witness_wf (Witness ti)) ins ->
  forM ins (fun ti => writeTxWitness (Witness ti)) w
  = (Ret tt, w ++ concat (map (fun ti => witness_bytes (Witness ti)) ins)).
Proof.
  intros H. revert w. induction H as [|ti ins Hti H IH]; intros w; simpl.
  { by rewrite app_nil_r. }
  erewrite bindM_step by (by apply writeTxWitness_writes).
  by rewrite IH, <- app_assoc.
Qed.

(** The encoder writes the layout, whatever it has written before. *)
Lemma ThtEncode_writes enc msg w :
  tx_wf msg ->
  ThtEncode enc msg w = (Ret tt, w ++ tx_bytes (is_witness_encoding enc && HasWitness msg) msg).
Proof.
  intros (Hv & [Hi Hins] & [Ho Houts] & Hw & Hl). unfold ThtEncode, tx_bytes, tx_body.
  pose proof (zlen_nonneg (TxIns msg)). pose proof (zlen_nonneg (TxOuts msg)).
  rewrite !(u64_id (zlen _)) by lia.
  erewrite bindM_step by (apply codec_write, u32_range). cbv zeta.
  destruct (is_witness_encoding enc && HasWitness msg).
  all: erewrite bindM_step by reflexivity; step_write.
  all: erewrite bindM_step by (by apply writeTxIns_writes); step_write.
  all: erewrite bindM_step by (by apply (forM_writes ReadTxOut WriteTxOut txout_wf txout_bytes)).
  - erewrite bindM_step by (by apply writeWitnesses_writes).
    rewrite codec_write by done. by rewrite <- !app_assoc.
  - erewrite bindM_step by reflexivity. rewrite codec_write by done. by rewrite <- !app_assoc.
Qed.

(** A transaction within the limits fits the script buffer. *)
Lemma script_total_bound ins outs :
  zlen ins <= maxTxInPerMessage -> Forall txin_wf ins ->
  zlen outs <= maxTxOutPerMessage -> Forall txout_wf outs ->
  Forall (fun ti => witness_wf (Witness ti)) ins ->
  zsum (fun ti => zlen (SignatureScript ti) + zsum zlen (Witness ti)) ins
    + zsum (fun to => zlen (PkScript to)) outs < 2 ^ 64.
Proof.
  intros Hi Hins Ho Houts Hw.
  assert (0 <= zsum (fun ti => zlen (SignatureScript ti) + zsum zlen (Witness ti)) ins
    <= 5533554432 * zlen ins).
  { apply zsum_bound, Forall_forall. intros ti Hti.
    eapply Forall_forall in Hins as (_ & Hs & _); [|exact Hti].
    eapply Forall_forall in Hw as [Hl Hw]; [|exact Hti].
    assert (0 <= zsum zlen (Witness ti) <= 11000 * zlen (Witness ti)) by
      (apply zsum_bound; eapply Forall_impl; [exact Hw|]; intros b Hb; cbv beta in Hb; zlia).
    pose proof (zlen_nonneg (SignatureScript ti)). lia. }
  assert (0 <= zsum (fun to => zlen (PkScript to)) outs <= 33554432 * zlen outs).
  { apply zsum_bound. eapply Forall_impl; [exact Houts|]. intros to [_ Hto].
    pose proof (zlen_nonneg (PkScript to)). lia. }
  lia.
Qed.

(** ** Decoding *)

(** What is left of the decoder once the number of inputs has been read. *)
Definition decodeBody (withWitness : bool) (count : Z) : RM (list TxIn * list TxOut * Z) :=
  if count >? maxTxInPerMessage then failM (MessageError "MsgTx.ThtDecode") else
  ins <- repeatM (Z.to_nat count) readTxIn ;;
  count <- ReadVarInt ;;
  if count >? maxTxOutPerMessage then failM (MessageError "MsgTx.ThtDecode") else
  outs <- repeatM (Z.to_nat count) ReadTxOut ;;
  ins <- (if withWitness then readWitnesses ins else retM ins) ;;
  lockTime <- Uint32 ;;
  retM (ins, outs, lockTime).

Definition body_wf (withWitness : bool) (b : list TxIn * list TxOut * Z) : Prop :=
  let '(ins, outs, lockTime) := b in
  zlen ins <= maxTxInPerMessage /\ Forall txin_wf ins
  /\ zlen outs <= maxTxOutPerMessage /\ Forall txout_wf outs
  /\ Forall (fun ti => if withWitness then witness_wf (Witness ti) else Witness ti = []) ins
  /\ 0 <= lockTime < 2 ^ 32.

Definition body_tail (withWitness : bool) (b : list TxIn * list TxOut * Z) : bytes :=
  let '(ins, outs, lockTime) := b in
  concat (map txin_bytes ins) ++ varint_bytes (zlen outs) ++ concat (map txout_bytes outs)
  ++ (if withWitness then concat (map (fun ti => witness_bytes (Witness ti)) ins) else [])
  ++ le_bytes 4 lockTime.

Lemma decodeBody_reads ww b r :
  body_wf ww b -> decodeBody ww (zlen b.1.1) (body_tail ww b ++ r) = (Ret b, r).
Proof.
  destruct b as [[ins outs] lt]. simpl. intros (Hi & Hins & Ho & Houts & Hw & Hl).
  pose proof (zlen_nonneg outs). unfold decodeBody. ztest.
  rewrite <- !app_assoc, <- map_txin_bytes_strip, zlen_to_nat, <- (length_map strip ins).
  erewrite bindM_step by (apply (repeatM_reads readTxIn writeTxIn _ txin_bytes), Forall_strip, Hins).
  erewrite bindM_step by (apply codec_read; lia). ztest. rewrite zlen_to_nat.
  erewrite bindM_step by (by apply (repeatM_reads ReadTxOut WriteTxOut _ txout_bytes)).
  destruct ww.
  - erewrite bindM_step by (by apply readWitnesses_reads).
    by erewrite bindM_step by (by apply codec_read).
  - assert (map strip ins = ins) as ->.
    { clear -Hw. induction Hw as [|[] ins Hw H IH]; simpl in *; [done|]. by rewrite IH, Hw. }
    erewrite bindM_step by reflexivity. rewrite app_nil_l. by erewrite bindM_step by (by apply codec_read).
Qed.

Lemma decodeBody_canon ww count r b r' :
  decodeBody ww count r = (Ret b, r') -> 0 <= count ->
  count = zlen b.1.1 /\ body_wf ww b /\ r = body_tail ww b ++ r'.
Proof.
  intros H Hc. unfold decodeBody in H. case_match; [done|]. zbool.
  inv_bind H. apply (repeatM_canon _ _ _ _ (Codec0 := TxIn_codec)) in Hm as (Hi & Hins & ->).
  inv_bind H. apply codec_canon in Hm as [Hc2 ->]. case_match; [done|]. zbool.
  inv_bind H. apply (repeatM_canon _ _ _ _ (Codec0 := TxOut_codec)) in Hm as (Ho & Houts & ->).
  inv_bind H. inv_bind H. injection H as <- ->. apply codec_canon in Hm0 as [Hl ->].
  assert (count = zlen a) as -> by (unfold zlen; lia).
  assert (a0 = zlen a1) as -> by (unfold zlen; lia).
  assert (exists tail, t = tail ++ le_bytes 4 a3 ++ r' /\ map strip a2 = map strip a
    /\ Forall (fun ti => if ww then witness_wf (Witness ti) else Witness ti = []) a2
    /\ tail = (if ww then concat (map (fun ti => witness_bytes (Witness ti)) a2) else []))
    as (tail & -> & Hs & Hw & ->).
  { destruct ww.
    - apply readWitnesses_canon in Hm as (Hs & Hw & ->). by eexists.
    - injection Hm as <- <-. exists []. split_and!; try done.
      eapply Forall_impl; [exact Hins|]. by intros ti [_ ?]. }
  assert (zlen a2 = zlen a) as Hlen by (apply (f_equal zlen) in Hs; unfold zlen in *;
    rewrite !length_map in Hs; lia).
  assert (Forall txin_wf a2) as Hins2.
  { assert (Forall txin_wf (map strip a2)) as HH.
    { rewrite Hs. apply Forall_map. eapply Forall_impl; [exact Hins|]. by intros ti [??]. }
    rewrite Forall_map in HH. eapply Forall_impl; [exact HH|]. done. }
  split; [by simpl; rewrite Hlen|]. split; [simpl; split_and!; try done; lia|]. simpl.
  rewrite <- (map_txin_bytes_strip a2), Hs, map_txin_bytes_strip. by rewrite <- !app_assoc.
Qed.

#[export] Instance decodeBody_no_panic ww count : NoPanic (decodeBody ww count).
Proof. unfold decodeBody, Uint32. destruct ww; apply _. Qed.

Lemma body_wf_relocate ww ins outs lt :
  body_wf ww (ins, outs, lt) -> relocate ins outs = Ret (ins, outs).
Proof.
  intros (Hi & Hins & Ho & Houts & Hw & _). apply relocate_id, script_total_bound; try done.
  eapply Forall_impl; [exact Hw|]. intros ti. destruct ww; [done|]. intros ->.
  split; [done|constructor].
Qed.

(** The decoder up to the number of inputs: the version, whether witnesses
    follow, and the count. *)
Definition decodeHead (enc : MessageEncoding) : RM (Z * bool * Z) :=
  version <- Uint32 ;;
  count <- ReadVarInt ;;
  if (count =? TxFlagMarker) && is_witness_encoding enc then
    flag <- Uint8 ;;
    if negb (flag =? WitnessFlag) then failM (MessageError "MsgTx.ThtDecode") else
    count <- ReadVarInt ;;
    retM (version, true, count)
  else retM (version, false, count).

Definition decodeTail (v : Z) (ww : bool) (count : Z) : RM MsgTx :=
  '(ins, outs, lt) <- decodeBody ww count ;; retM (mkMsgTx (i32 v) ins outs lt).

(** Since every decoded body fits the buffer, the last step of the decoder
    changes nothing. *)
Lemma ThtDecode_tail flag enc count v r ww :
  0 <= count -> negb (flag =? 0) && is_witness_encoding enc = ww ->
  (if count >? maxTxInPerMessage then failM (MessageError "MsgTx.ThtDecode") else
   ins <- repeatM (Z.to_nat count) readTxIn ;;
   count <- ReadVarInt ;;
   if count >? maxTxOutPerMessage then failM (MessageError "MsgTx.ThtDecode") else
   outs <- repeatM (Z.to_nat count) ReadTxOut ;;
   ins <- (if negb (flag =? 0) && is_witness_encoding enc then readWitnesses ins else retM ins) ;;
   lockTime <- Uint32 ;;
   '(ins, outs) <- liftO (relocate ins outs) ;;
   retM (mkMsgTx (i32 v) ins outs lockTime)) r = decodeTail v ww count r.
Proof.
  intros Hc ->.
  transitivity (('(ins, outs, lt) <- decodeBody ww count ;;
   '(ins, outs) <- liftO (relocate ins outs) ;; retM (mkMsgTx (i32 v) ins outs lt)) r).
  - unfold decodeBody. case_match; [done|]. do 2 (rewrite bindM_assoc; apply bindM_ext; intros).
    case_match; [done|]. by do 3 (rewrite bindM_assoc; apply bindM_ext; intros).
  - apply bindM_ext. intros [[ins outs] lt] t E.
    apply decodeBody_canon in E as (_ & Hwf & _); [|done].
    erewrite bindM_step by (unfold liftO; by erewrite body_wf_relocate). done.
Qed.

Lemma ThtDecode_eq enc r :
  ThtDecode enc r
  = ('(version, ww, count) <- decodeHead enc ;; decodeTail version ww count) r.
Proof.
  unfold ThtDecode, decodeHead.
  rewrite bindM_assoc. apply bindM_ext. intros version r1 _.
  rewrite bindM_assoc. apply bindM_ext. intros count r2 [Hc _]%codec_canon.
  destruct ((count =? 0) && is_witness_encoding enc) eqn:E.
  - rewrite !bindM_assoc. apply bindM_ext. intros flag r3 _.
    destruct (negb (flag =? 1)) eqn:Ef; [done|]. zbool. subst flag.
    rewrite !bindM_assoc. apply bindM_ext. intros n r4 [Hn _]%codec_canon.
    apply ThtDecode_tail; [lia|]. zbool. done.
  - apply ThtDecode_tail; [lia|]. done.
Qed.

(** ** What the pair of encoder and decoder promises *)

Lemma tx_wf_body msg :
  tx_wf msg <-> - 2 ^ 31 <= Version msg < 2 ^ 31 /\ body_wf true (TxIns msg, TxOuts msg, LockTime msg).
Proof. unfold tx_wf. simpl. naive_solver. Qed.

Lemma body_wf_false msg :
  tx_wf msg -> body_wf false (map strip (TxIns msg), TxOuts msg, LockTime msg).
Proof.
  intros (Hv & [Hi Hins] & [Ho Houts] & Hw & Hl). simpl. split_and!; try done; try lia.
  - unfold zlen in *. by rewrite length_map.
  - rewrite Forall_map. eapply Forall_impl; [exact Hins|]. done.
  - rewrite Forall_map. by apply Forall_forall.
Qed.

Lemma body_wf_weaken b : body_wf false b -> body_wf true b.
Proof.
  destruct b as [[ins outs] lt]. intros (? & ? & ? & ? & Hw & ?). simpl. split_and!; try done; try lia.
  eapply Forall_impl; [exact Hw|]. simpl. intros ti ->. split; [done|constructor].
Qed.

(** The layout with witnesses. *)
Lemma ThtDecode_reads_witness msg r :
  tx_wf msg -> ThtDecode WitnessEncoding (tx_bytes true msg ++ r) = (Ret msg, r).
Proof.
  intros Hwf. apply tx_wf_body in Hwf as [Hv Hb]. rewrite ThtDecode_eq.
  assert (zlen (TxIns msg) < 2 ^ 64) by (destruct Hb as [? _]; lia).
  pose proof (zlen_nonneg (TxIns msg)).
  unfold tx_bytes, tx_body, decodeHead. rewrite <- !app_assoc, bindM_assoc.
  erewrite bindM_step by (apply codec_read, u32_range).
  change [z2b 0; z2b 1] with (varint_bytes 0 ++ le_bytes 1 1). rewrite <- !app_assoc, bindM_assoc.
  step_read. cbn [Z.eqb is_witness_encoding andb]. rewrite bindM_assoc. step_read.
  cbn [negb Z.eqb Pos.eqb]. rewrite bindM_assoc. step_read. unfold retM at 1.
  rewrite (bindM_step _ _ _ _ _ eq_refl). unfold decodeTail.
  pose proof (decodeBody_reads true _ r Hb) as Hr. simpl in Hr. rewrite <- !app_assoc in Hr.
  rewrite (bindM_step _ _ _ _ _ Hr). unfold retM. rewrite i32_u32, i32_id by done.
  by destruct msg.
Qed.

(** The layout without them: the decoder that looks for witnesses still reads
    it unless the number of inputs is zero, the value of the marker. *)
Lemma ThtDecode_reads_base enc msg r :
  tx_wf msg -> enc = BaseEncoding \/ TxIns msg <> [] ->
  ThtDecode enc (tx_bytes false msg ++ r) = (Ret (tx_strip msg), r).
Proof.
  intros Hwf Henc. pose proof (body_wf_false msg Hwf) as Hb.
  destruct Hwf as (Hv & [Hi _] & _). rewrite ThtDecode_eq.
  pose proof (zlen_nonneg (TxIns msg)).
  unfold tx_bytes, tx_body, decodeHead. rewrite <- !app_assoc, bindM_assoc.
  erewrite bindM_step by (apply codec_read, u32_range).
  rewrite app_nil_l, bindM_assoc. step_read.
  assert ((zlen (TxIns msg) =? 0) && is_witness_encoding enc = false) as ->.
  { destruct Henc as [->|Hne]; [apply andb_false_r|].
    apply andb_false_intro1, Z.eqb_neq. intros ?%zlen_0_inv. done. }
  unfold retM at 1. rewrite (bindM_step _ _ _ _ _ eq_refl). unfold decodeTail.
  pose proof (decodeBody_reads false _ r Hb) as Hr. cbn [body_tail fst] in Hr.
  rewrite map_txin_bytes_strip, <- !app_assoc in Hr.
  assert (zlen (map strip (TxIns msg)) = zlen (TxIns msg)) as Hz by (unfold zlen; by rewrite length_map).
  rewrite Hz in Hr. rewrite (bindM_step _ _ _ _ _ Hr). unfold retM, tx_strip.
  by rewrite i32_u32, i32_id.
Qed.

Lemma strip_no_witness ins :
  existsb (fun ti => negb (zlen (Witness ti) =? 0)) ins = false -> map strip ins = ins.
Proof.
  induction ins as [|[op s wit sq] ins IH]; simpl; [done|]. intros H. zbool.
  rewrite IH by done. apply zlen_0_inv in H. by subst wit.
Qed.

Lemma tx_strip_no_witness msg : HasWitness msg = false -> tx_strip msg = msg.
Proof. intros H. unfold tx_strip. rewrite strip_no_witness by done. by destruct msg. Qed.

(** Decoding never panics, and what it returns is within the limits. *)
Lemma ThtDecode_triple enc :
  triple (fun _ => True) (ThtDecode enc) (fun msg _ => tx_wf msg) (fun _ _ => True).
Proof.
  intros r _. rewrite ThtDecode_eq.
  assert (NoPanic ('(v, ww, n) <- decodeHead enc ;; decodeTail v ww n)) as Hnp.
  { unfold decodeHead, decodeTail, Uint32, Uint8. apply _. }
  specialize (Hnp r). destruct (bindM _ _ r) as [[msg|e| |] r'] eqn:E; try done.
  clear Hnp. inv_bind E. destruct a as [[v ww] n].
  assert (0 <= n) as Hn.
  { unfold decodeHead in Hm. do 2 inv_bind Hm. apply codec_canon in Hm1 as [? _].
    case_match; [|injection Hm as <- <- <- <-; lia].
    inv_bind Hm. case_match; [done|]. inv_bind Hm. apply codec_canon in Hm2 as [? _].
    injection Hm as <- <- <- <-. lia. }
  unfold decodeTail in E. inv_bind E. destruct a as [[ins outs] lt]. injection E as <- <-.
  apply decodeBody_canon in Hm0 as (_ & Hwf & _); [|done].
  apply tx_wf_body. split; [apply i32_range|]. destruct ww; [done|]. by apply body_wf_weaken.
Qed.

Lemma decodeHead_base_canon r v ww n r' :
  decodeHead BaseEncoding r = (Ret (v, ww, n), r') ->
  0 <= v < 2 ^ 32 /\ 0 <= n < 2 ^ 64 /\ ww = false /\ r = le_bytes 4 v ++ varint_bytes n ++ r'.
Proof.
  unfold decodeHead. intros H. do 2 inv_bind H. rewrite andb_false_r in H.
  injection H as -> <- -> ->. by apply codec_canon in Hm as [? ->], Hm0 as [? ->].
Qed.

Lemma DeserializeNoWitness_canon r msg r' :
  DeserializeNoWitness r = (Ret msg, r') ->
  tx_wf msg /\ tx_strip msg = msg /\ r = tx_bytes false msg ++ r'.
Proof.
  unfold DeserializeNoWitness. intros H.
  pose proof (ThtDecode_triple BaseEncoding r I) as Hwf. rewrite H in Hwf.
  rewrite ThtDecode_eq in H. inv_bind H. destruct a as [[v ww] n].
  apply decodeHead_base_canon in Hm as (Hv & Hn & -> & ->).
  unfold decodeTail in H. inv_bind H.
  destruct a as [[ins outs] lt]. injection H as <- <-.
  apply decodeBody_canon in Hm as (-> & Hb & ->); [|lia].
  split_and!; [done| |].
  - unfold tx_strip. simpl. f_equal. destruct Hb as (_ & _ & _ & _ & Hw & _).
    clear -Hw. induction Hw as [|[] ins Hw H IH]; simpl in *; [done|]. by rewrite IH, Hw.
  - unfold tx_bytes, tx_body. simpl. rewrite u32_i32, u32_id by lia. by rewrite <- !app_assoc.
Qed.

(** ** Sizes *)

Lemma fold_left_sizes {A} (g : Z -> A -> Z) (f : A -> Z) (enc : A -> bytes) l n :
  (forall n x, g n x = n + f x) -> Forall (fun x => f x = zlen (enc x)) l ->
  fold_left g l n = n + zlen (concat (map enc l)).
Proof.
  intros Hg H. revert n. induction H as [|x l Hx H IH]; intros n; simpl.
  - rewrite (@zlen_nil byte). lia.
  - rewrite IH, Hg, zlen_app. lia.
Qed.

Lemma size_txin ti : txin_wf ti -> TxIn_SerializeSize ti = zlen (txin_bytes ti).
Proof.
  intros ([Hh _] & Hs & _). pose proof (zlen_nonneg (SignatureScript ti)).
  unfold TxIn_SerializeSize, txin_bytes, outpoint_bytes. rewrite u64_id by lia.
  autorewrite with zlen. lia.
Qed.

Lemma size_txout to : txout_wf to -> TxOut_SerializeSize to = zlen (txout_bytes to).
Proof.
  intros [_ Hs]. pose proof (zlen_nonneg (PkScript to)).
  unfold TxOut_SerializeSize, txout_bytes. rewrite u64_id by lia. autorewrite with zlen. lia.
Qed.

Lemma size_witness wit : witness_wf wit -> TxWitness_SerializeSize wit = zlen (witness_bytes wit).
Proof.
  intros [Hl Hw]. pose proof (zlen_nonneg wit). unfold TxWitness_SerializeSize, witness_bytes.
  rewrite zlen_app, zlen_varint_bytes, u64_id by lia.
  apply (fold_left_sizes _ (fun w => VarIntSerializeSize (u64 (zlen w)) + zlen w)); [lia|].
  eapply Forall_impl; [exact Hw|]. intros w Hb. cbv beta in Hb.
  pose proof (zlen_nonneg w). rewrite u64_id by lia. by autorewrite with zlen.
Qed.

Lemma baseSize_bytes msg : tx_wf msg -> baseSize msg = zlen (tx_bytes false msg).
Proof.
  intros (_ & [Hi Hins] & [Ho Houts] & _). unfold baseSize, tx_bytes, tx_body.
  pose proof (zlen_nonneg (TxIns msg)). pose proof (zlen_nonneg (TxOuts msg)).
  rewrite !u64_id by lia.
  rewrite (fold_left_sizes _ TxOut_SerializeSize txout_bytes (TxOuts msg)), (fold_left_sizes _ TxIn_SerializeSize txin_bytes);
    try done.
  - autorewrite with zlen. lia.
  - eapply Forall_impl; [exact Hins|]. apply size_txin.
  - eapply Forall_impl; [exact Houts|]. apply size_txout.
Qed.

Lemma SerializeSize_bytes msg :
  tx_wf msg -> SerializeSize msg = zlen (tx_bytes (HasWitness msg) msg).
Proof.
  intros Hwf. unfold SerializeSize. rewrite baseSize_bytes by done.
  destruct (HasWitness msg); [|done]. destruct Hwf as (_ & _ & _ & Hw & _).
  rewrite (fold_left_sizes _ (fun ti => TxWitness_SerializeSize (Witness ti))
    (fun ti => witness_bytes (Witness ti))); [|done|].
  - unfold tx_bytes. autorewrite with zlen. lia.
  - eapply Forall_impl; [exact Hw|]. intros ti. apply size_witness.
Qed.

Lemma Serialize_Deserialize (msg : MsgTx) (r : bytes) :
  tx_wf msg -> TxIns msg <> [] ->
  exists out, Serialize msg [] = (Ret tt, out) /\ zlen out = SerializeSize msg
    /\ Deserialize (out ++ r) = (Ret msg, r).
Proof.
  intros Hwf Hne. exists (tx_bytes (HasWitness msg) msg).
  unfold Serialize. rewrite ThtEncode_writes by done. split_and!; [done|..].
  - by rewrite SerializeSize_bytes.
  - unfold Deserialize. destruct (HasWitness msg) eqn:E.
    + by apply ThtDecode_reads_witness.
    + rewrite ThtDecode_reads_base by auto. by rewrite tx_strip_no_witness.
Qed.

(** ** Properties *)

(** C9: [Serialize] and [Deserialize] are inverse on every transaction within
    the protocol's limits that has an input: the encoder succeeds, it appends
    exactly [SerializeSize] bytes, and the decoder returns the transaction,
    witnesses included, and leaves the rest of the stream. *)
Theorem Serialize_Deserialize_roundtrip (msg : MsgTx) (r : bytes) :
  tx_wf msg -> TxIns msg <> [] ->
  exists out, Serialize msg [] = (Ret tt, out) /\ zlen out = SerializeSize msg
    /\ Deserialize (out ++ r) = (Ret msg, r).
Proof. apply Serialize_Deserialize. Qed.

(** [DeserializeNoWitness] accepts exactly the encodings that
    [SerializeNoWitness] produces: it returns a transaction if and only if the
    input starts with the encoding of that transaction, which is within the
    limits and has no witness. *)
Theorem DeserializeNoWitness_exact (r : bytes) (msg : MsgTx) (r' : bytes) :
  DeserializeNoWitness r = (Ret msg, r')
  <-> tx_wf msg /\ HasWitness msg = false
      /\ exists out, SerializeNoWitness msg [] = (Ret tt, out) /\ r = out ++ r'.
Proof.
  unfold SerializeNoWitness. split.
  - intros H. apply DeserializeNoWitness_canon in H as (Hwf & Hs & ->).
    split_and!; [done| |].
    + unfold HasWitness. rewrite <- Hs. simpl. by induction (TxIns msg).
    + rewrite ThtEncode_writes by done. eauto.
  - intros (Hwf & Hn & out & Ho & ->). rewrite ThtEncode_writes in Ho by done.
    injection Ho as <-. unfold DeserializeNoWitness. simpl.
    rewrite ThtDecode_reads_base by auto. by rewrite tx_strip_no_witness.
Qed.

(** Decoding a transaction from arbitrary bytes never panics, in either
    encoding: none of the slice expressions on the script buffer is out of
    range, and a decoded transaction is within the limits of a message. *)
Theorem ThtDecode_total (enc : MessageEncoding) (r : bytes) :
  match ThtDecode enc r with
  | (Ret msg, _) => tx_wf msg
  | (Fail _, _) => True
  | (Crash, _) | (NoFuel, _) => False
  end.
Proof. exact (ThtDecode_triple enc r I). Qed.

(** The identifier of a transaction does not depend on its witnesses, and
    the bytes that are hashed determine everything else: two transactions with
    the same serialization without witnesses are equal up to witnesses. *)
Theorem TxHash_commits `{Crypto} (m1 m2 : MsgTx) :
  tx_wf m1 -> tx_wf m2 ->
  TxHash m1 = TxHash (tx_strip m1)
  /\ ((SerializeNoWitness m1 []).2 = (SerializeNoWitness m2 []).2 -> tx_strip m1 = tx_strip m2).
Proof.
  assert (forall m, tx_wf m -> (SerializeNoWitness m []).2 = tx_bytes false m) as Hs.
  { intros m Hm. unfold SerializeNoWitness. by rewrite ThtEncode_writes. }
  assert (forall m, tx_wf m -> tx_wf (tx_strip m)) as Hst.
  { intros m Hm. apply tx_wf_body. split; [apply Hm|]. apply body_wf_weaken. by apply body_wf_false. }
  intros H1 H2. split.
  - unfold TxHash. rewrite !Hs by auto. f_equal. unfold tx_bytes, tx_body, tx_strip. simpl.
    rewrite map_txin_bytes_strip. unfold zlen. by rewrite length_map.
  - rewrite !Hs by done. intros E.
    pose proof (ThtDecode_reads_base BaseEncoding m1 [] H1 (or_introl eq_refl)) as E1.
    pose proof (ThtDecode_reads_base BaseEncoding m2 [] H2 (or_introl eq_refl)) as E2.
    rewrite E, E2 in E1. congruence.
Qed.

(** A transaction without inputs does not survive the trip: the count of
    inputs is taken for the witness marker, and unless it has exactly one
    output [Deserialize] refuses what [Serialize] wrote. *)
Theorem Deserialize_no_inputs (msg : MsgTx) :
  tx_wf msg -> TxIns msg = [] -> zlen (TxOuts msg) <> 1 ->
  (Deserialize (Serialize msg []).2).1 = Fail (MessageError "MsgTx.ThtDecode").
Proof.
  intros Hwf Hi Ho. unfold Serialize. rewrite ThtEncode_writes by done.
  unfold HasWitness, Deserialize. rewrite Hi, ThtDecode_eq. simpl.
  unfold tx_bytes, tx_body, decodeHead. rewrite Hi, <- !app_assoc, bindM_assoc.
  erewrite bindM_step by (apply codec_read, u32_range). rewrite app_nil_l, bindM_assoc.
  change (zlen []) with 0. step_read. cbn [Z.eqb is_witness_encoding andb map concat]. rewrite app_nil_l.
  destruct Hwf as (_ & _ & [Hlo _] & _). pose proof (zlen_nonneg (TxOuts msg)).
  assert (exists f rest, f <> 1 /\ 0 <= f < 256 /\ varint_bytes (zlen (TxOuts msg)) = le_bytes 1 f ++ rest)
    as (f & rest & Hf & Hf2 & ->).
  { unfold varint_bytes. repeat case_match; zbool; eexists _, _;
      (split_and!; [..|done || by rewrite app_nil_r]; lia). }
  rewrite bindM_assoc. step_read. by rewrite (proj2 (Z.eqb_neq f 1)).
Qed.

(** ** Witnesses *)

Definition sample_tx : MsgTx :=
  mkMsgTx 2
    [mkTxIn (mkOutPoint (replicate 32 (z2b 7)) 1) [z2b 1; z2b 2] [[z2b 9]; []] 0xffffffff]
    [mkTxOut 5000 [z2b 0x76; z2b 0xa9]; mkTxOut (-1) []] 17.

Lemma sample_tx_wf : tx_wf sample_tx.
Proof. repeat first [split | constructor]; vm_compute; congruence. Qed.

Lemma Serialize_Deserialize_roundtrip_witness :
  exists out, Serialize sample_tx [] = (Ret tt, out) /\ zlen out = SerializeSize sample_tx
    /\ Deserialize (out ++ [z2b 3]) = (Ret sample_tx, [z2b 3]).
Proof.
  apply (Serialize_Deserialize_roundtrip sample_tx [z2b 3]); [exact sample_tx_wf|discriminate].
Defined.

Lemma TxHash_commits_witness :
  TxHash (H := toy) sample_tx = TxHash (H := toy) (tx_strip sample_tx).
Proof. apply (TxHash_commits (H := toy) sample_tx sample_tx); exact sample_tx_wf. Defined.

Lemma Deserialize_no_inputs_witness :
  (Deserialize (Serialize (NewMsgTx 2) []).2).1 = Fail (MessageError "MsgTx.ThtDecode").
Proof.
  apply (Deserialize_no_inputs (NewMsgTx 2)); [|reflexivity|discriminate].
  repeat first [split | constructor]; vm_compute; congruence.
Defined.
