(* ===== verification/WireBlock.v ===== *)
(** Blocks and headers (src/thoughtd/wire/blockheader.go, msgblock.go,
    msgheaders.go and msgmerkleblock.go).

    A [time.Time] is its Unix time in seconds, which is all the package reads of
    it.  The fields of the structs carry a prefix, as several structs have a
    field of the same name. *)

From S2P Require Import Prelude Crypto WireCommon WireCodec WireTx.

(** ** Headers *)

Record BlockHeader := mkBlockHeader {
  bh_Version : Z;
  bh_PrevBlock : bytes;
  bh_MerkleRoot : bytes;
  bh_Timestamp : Z;
  bh_Bits : Z;
  bh_Nonce : Z }.

Notation MaxBlockHeaderPayload := (16 + 32 * 2) (only parsing).
Notation blockHeaderLen := 80 (only parsing).

Definition readBlockHeader : RM BlockHeader :=
  version <- readInt TInt32 ;;
  prevBlock <- readBytes THash ;;
  merkleRoot <- readBytes THash ;;
  timestamp <- readInt TUint32Time ;;
  bits <- readInt TUint32 ;;
  nonce <- readInt TUint32 ;;
  retM (mkBlockHeader version prevBlock merkleRoot timestamp bits nonce).

Definition writeBlockHeader (bh : BlockHeader) : RM unit :=
  let sec := u32 (bh_Timestamp bh) in
  writeInt TInt32 (bh_Version bh) ;;
  writeBytes THash (bh_PrevBlock bh) ;;
  writeBytes THash (bh_MerkleRoot bh) ;;
  writeInt TUint32 sec ;;
  writeInt TUint32 (bh_Bits bh) ;;
  writeInt TUint32 (bh_Nonce bh).

(** The clock is an argument. *)
Definition NewBlockHeader (now version : Z) (prevHash merkleRootHash : bytes) (bits nonce : Z) :
    BlockHeader :=
  mkBlockHeader version prevHash merkleRootHash now bits nonce.

(** ** Blocks *)

Notation MaxBlockPayload := 4000000 (only parsing).
Notation MaxBlocksPerMsg := 500 (only parsing).
Notation minTxPayload := 10 (only parsing).
(** [MaxBlockPayload / minTxPayload + 1] *)
Notation maxTxPerBlock := 400001 (only parsing).

Record TxLoc := mkTxLoc { TxStart : Z; TxLen : Z }.

Record MsgBlock := mkMsgBlock { mb_Header : BlockHeader; mb_Transactions : list MsgTx }.

Definition NewMsgBlock (blockHeader : BlockHeader) : MsgBlock := mkMsgBlock blockHeader [].

Definition AddTransaction (tx : MsgTx) (msg : MsgBlock) : outcome WireErr MsgBlock :=
  Ret (mkMsgBlock (mb_Header msg) (mb_Transactions msg ++ [tx])).

Definition ClearTransactions (msg : MsgBlock) : MsgBlock := mkMsgBlock (mb_Header msg) [].

Definition MsgBlock_ThtDecode (enc : MessageEncoding) : RM MsgBlock :=
  header <- readBlockHeader ;;
  txCount <- ReadVarInt ;;
  if txCount >? maxTxPerBlock then failM (MessageError "MsgBlock.ThtDecode") else
  readInto (Z.to_nat txCount) (ThtDecode enc)
    (fun tx msg => Ret (mkMsgBlock (mb_Header msg) (mb_Transactions msg ++ [tx])))
    (mkMsgBlock header []).

Definition MsgBlock_Deserialize : RM MsgBlock := MsgBlock_ThtDecode WitnessEncoding.
Definition MsgBlock_DeserializeNoWitness : RM MsgBlock := MsgBlock_ThtDecode BaseEncoding.

(** The loop of [DeserializeTxLoc]; [r.Len()] is the length of what is left. *)
Fixpoint readTxLocs (n : nat) (fullLen : Z) : RM (list MsgTx * list TxLoc) :=
  match n with
  | O => retM ([], [])
  | S n =>
      r <- getM ;;
      let start := fullLen - zlen r in
      tx <- Deserialize ;;
      r <- getM ;;
      let len := (fullLen - zlen r) - start in
      '(txs, locs) <- readTxLocs n fullLen ;;
      retM (tx :: txs, mkTxLoc start len :: locs)
  end.

Definition DeserializeTxLoc : RM (MsgBlock * list TxLoc) :=
  r <- getM ;;
  let fullLen := zlen r in
  header <- readBlockHeader ;;
  txCount <- ReadVarInt ;;
  if txCount >? maxTxPerBlock then failM (MessageError "MsgBlock.DeserializeTxLoc") else
  '(txs, locs) <- readTxLocs (Z.to_nat txCount) fullLen ;;
  retM (mkMsgBlock header txs, locs).

Definition MsgBlock_ThtEncode (enc : MessageEncoding) (msg : MsgBlock) : RM unit :=
  writeBlockHeader (mb_Header msg) ;;
  WriteVarInt (u64 (zlen (mb_Transactions msg))) ;;
  writeAll (ThtEncode enc) (mb_Transactions msg).

Definition MsgBlock_Serialize : MsgBlock -> RM unit := MsgBlock_ThtEncode WitnessEncoding.
Definition MsgBlock_SerializeNoWitness : MsgBlock -> RM unit := MsgBlock_ThtEncode BaseEncoding.

Definition MsgBlock_SerializeSize (msg : MsgBlock) : Z :=
  let n := blockHeaderLen + VarIntSerializeSize (u64 (zlen (mb_Transactions msg))) in
  fold_left (fun n tx => n + SerializeSize tx) (mb_Transactions msg) n.

Definition MsgBlock_SerializeSizeStripped (msg : MsgBlock) : Z :=
  let n := blockHeaderLen + VarIntSerializeSize (u64 (zlen (mb_Transactions msg))) in
  fold_left (fun n tx => n + SerializeSizeStripped tx) (mb_Transactions msg) n.

Section hash.
Context `{Crypto}.

(** The error of the writer is dropped. *)
Definition BlockHeader_BlockHash (h : BlockHeader) : bytes :=
  DoubleHashH (writeBlockHeader h []).2.

Definition MsgBlock_BlockHash (msg : MsgBlock) : bytes := BlockHeader_BlockHash (mb_Header msg).

Definition TxHashes (msg : MsgBlock) : list bytes := map TxHash (mb_Transactions msg).
End hash.

(** ** Headers messages *)

Notation MaxBlockHeadersPerMsg := 2000 (only parsing).

Record MsgHeaders := mkMsgHeaders { mh_Headers : list BlockHeader }.

Definition AddBlockHeader (bh : BlockHeader) (msg : MsgHeaders) : outcome WireErr MsgHeaders :=
  let! l := addLimited MaxBlockHeadersPerMsg "MsgHeaders.AddBlockHeader" bh (mh_Headers msg) in
  Ret (mkMsgHeaders l).

(** The body of the loop of the decoder. *)
Definition readHeaderEntry : RM BlockHeader :=
  bh <- readBlockHeader ;;
  txCount <- ReadVarInt ;;
  if txCount >? 0 then failM (MessageError "MsgHeaders.ThtDecode") else retM bh.

Definition MsgHeaders_ThtDecode : RM MsgHeaders :=
  count <- ReadVarInt ;;
  if count >? MaxBlockHeadersPerMsg then failM (MessageError "MsgHeaders.ThtDecode") else
  readInto (Z.to_nat count) readHeaderEntry AddBlockHeader (mkMsgHeaders []).

Definition writeHeaderEntry (bh : BlockHeader) : RM unit :=
  writeBlockHeader bh ;; WriteVarInt 0.

Definition MsgHeaders_ThtEncode (msg : MsgHeaders) : RM unit :=
  let count := zlen (mh_Headers msg) in
  if count >? MaxBlockHeadersPerMsg then failM (MessageError "MsgHeaders.ThtEncode") else
  WriteVarInt (u64 count) ;;
  writeAll writeHeaderEntry (mh_Headers msg).

(** ** Merkle blocks *)

Notation BIP0037Version := 70001 (only parsing).
(** [maxTxPerBlock / 8] *)
Notation maxFlagsPerMerkleBlock := 50000 (only parsing).

Record MsgMerkleBlock := mkMsgMerkleBlock {
  mm_Header : BlockHeader;
  mm_Transactions : Z;
  mm_Hashes : list bytes;
  mm_Flags : bytes }.

Definition AddTxHash (hash : bytes) (msg : MsgMerkleBlock) : outcome WireErr MsgMerkleBlock :=
  let! l := addLimited maxTxPerBlock "MsgMerkleBlock.AddTxHash" hash (mm_Hashes msg) in
  Ret (mkMsgMerkleBlock (mm_Header msg) (mm_Transactions msg) l (mm_Flags msg)).

Definition MsgMerkleBlock_ThtDecode (pver : Z) : RM MsgMerkleBlock :=
  if pver <? BIP0037Version then failM (MessageError "MsgMerkleBlock.ThtDecode") else
  header <- readBlockHeader ;;
  transactions <- readInt TUint32 ;;
  count <- ReadVarInt ;;
  if count >? maxTxPerBlock then failM (MessageError "MsgMerkleBlock.ThtDecode") else
  msg <- readInto (Z.to_nat count) (readBytes THash) AddTxHash
    (mkMsgMerkleBlock header transactions [] []) ;;
  flags <- ReadVarBytes maxFlagsPerMerkleBlock ;;
  retM (mkMsgMerkleBlock (mm_Header msg) (mm_Transactions msg) (mm_Hashes msg) flags).

Definition MsgMerkleBlock_ThtEncode (pver : Z) (msg : MsgMerkleBlock) : RM unit :=
  if pver <? BIP0037Version then failM (MessageError "MsgMerkleBlock.ThtEncode") else
  let numHashes := zlen (mm_Hashes msg) in
  if numHashes >? maxTxPerBlock then failM (MessageError "MsgMerkleBlock.ThtDecode") else
  let numFlagBytes := zlen (mm_Flags msg) in
  if numFlagBytes >? maxFlagsPerMerkleBlock then failM (MessageError "MsgMerkleBlock.ThtDecode") else
  writeBlockHeader (mm_Header msg) ;;
  writeInt TUint32 (mm_Transactions msg) ;;
  WriteVarInt (u64 numHashes) ;;
  writeAll (writeBytes THash) (mm_Hashes msg) ;;
  WriteVarBytes (mm_Flags msg).

(** ** Encodings *)

Definition header_wf (bh : BlockHeader) : Prop :=
  int_range TInt32 (bh_Version bh) /\ zlen (bh_PrevBlock bh) = 32 /\ zlen (bh_MerkleRoot bh) = 32
  /\ int_range TUint32 (bh_Timestamp bh) /\ int_range TUint32 (bh_Bits bh)
  /\ int_range TUint32 (bh_Nonce bh).

Definition header_bytes (bh : BlockHeader) : bytes :=
  int_bytes TInt32 (bh_Version bh) ++ raw (bh_PrevBlock bh) ++ raw (bh_MerkleRoot bh)
  ++ int_bytes TUint32Time (bh_Timestamp bh) ++ int_bytes TUint32 (bh_Bits bh)
  ++ int_bytes TUint32 (bh_Nonce bh).

Lemma zlen_header_bytes bh : header_wf bh -> zlen (header_bytes bh) = 80.
Proof. intros (_ & H1 & H2 & _). unfold header_bytes. autorewrite with zlen. rewrite H1, H2. done. Qed.

#[export] Instance writeBlockHeader_writes : Writes writeBlockHeader header_wf header_bytes.
Proof.
  intros [v p m t b n] w (H1 & H2 & H3 & H4 & H5 & H6). unfold writeBlockHeader, header_bytes.
  cbn [bh_Version bh_PrevBlock bh_MerkleRoot bh_Timestamp bh_Bits bh_Nonce] in *.
  cbv zeta. rewrite (u32_id t) by exact H4.
  change (int_bytes TUint32Time t) with (int_bytes TUint32 t). run_writes.
Qed.

#[export] Instance readBlockHeader_reads : Reads readBlockHeader header_wf header_bytes.
Proof.
  intros [v p m t b n] r (H1 & H2 & H3 & H4 & H5 & H6). unfold readBlockHeader, header_bytes.
  cbn [bh_Version bh_PrevBlock bh_MerkleRoot bh_Timestamp bh_Bits bh_Nonce] in *. run_reads.
Qed.

#[export] Instance readBlockHeader_canon : Canon readBlockHeader header_wf header_bytes.
Proof.
  intros r h r' H. unfold readBlockHeader in H. inv_reads H. injection H as <- <-.
  split; [done|]. unfold header_bytes. cbn. by rewrite <- !app_assoc.
Qed.

#[export] Instance readBlockHeader_no_panic : NoPanic readBlockHeader.
Proof. unfold readBlockHeader. apply _. Qed.

(** A transaction that the decoder of the same encoding returns unchanged. *)
Definition tx_enc (enc : MessageEncoding) (tx : MsgTx) : bytes :=
  tx_bytes (is_witness_encoding enc && HasWitness tx) tx.

Definition tx_enc_wf (enc : MessageEncoding) (tx : MsgTx) : Prop :=
  tx_wf tx /\ match enc with WitnessEncoding => TxIns tx <> [] | BaseEncoding => HasWitness tx = false end.

#[export] Instance ThtEncode_Writes enc : Writes (ThtEncode enc) tx_wf (tx_enc enc).
Proof. intros tx w Hwf. by apply ThtEncode_writes. Qed.

#[export] Instance ThtDecode_Reads enc : Reads (ThtDecode enc) (tx_enc_wf enc) (tx_enc enc).
Proof.
  intros tx r [Hwf He]. unfold tx_enc. destruct (HasWitness tx) eqn:Hw.
  - destruct enc; [done|]. by apply ThtDecode_reads_witness.
  - rewrite andb_false_r, ThtDecode_reads_base by (destruct enc; auto).
    by rewrite tx_strip_no_witness.
Qed.

#[export] Instance ThtDecode_no_panic enc : NoPanic (ThtDecode enc).
Proof.
  intros r. pose proof (ThtDecode_triple enc r I) as H. by destruct (ThtDecode enc r) as [[] ?].
Qed.

Definition block_wf (enc : MessageEncoding) (msg : MsgBlock) : Prop :=
  header_wf (mb_Header msg) /\ zlen (mb_Transactions msg) <= maxTxPerBlock
  /\ Forall (tx_enc_wf enc) (mb_Transactions msg).

Definition block_bytes (enc : MessageEncoding) (msg : MsgBlock) : bytes :=
  header_bytes (mb_Header msg) ++ counted (tx_enc enc) (mb_Transactions msg).

Lemma tx_enc_wf_wf enc l : Forall (tx_enc_wf enc) l -> Forall tx_wf l.
Proof. intros H. eapply Forall_impl; [exact H|]. by intros x [? _]. Qed.
#[export] Hint Resolve tx_enc_wf_wf : core.

#[export] Instance MsgBlock_writes enc :
  Writes (MsgBlock_ThtEncode enc) (block_wf enc) (block_bytes enc).
Proof.
  intros [h txs] w (H1 & H2 & H3). unfold MsgBlock_ThtEncode, block_bytes, counted.
  cbn [mb_Header mb_Transactions] in *.
  pose proof (zlen_nonneg txs). rewrite u64_id by lia. run_writes.
Qed.

#[export] Instance MsgBlock_reads enc :
  Reads (MsgBlock_ThtDecode enc) (block_wf enc) (block_bytes enc).
Proof.
  intros [h txs] r (H1 & H2 & H3). unfold MsgBlock_ThtDecode, block_bytes.
  cbn [mb_Header mb_Transactions] in *.
  rewrite <- app_assoc. step_reads.
  read_counted (ThtDecode enc) (tx_enc_wf enc) (tx_enc enc) (mkMsgBlock h) idtac.
Qed.

#[export] Instance MsgBlock_no_panic enc : NoPanic (MsgBlock_ThtDecode enc).
Proof. unfold MsgBlock_ThtDecode. apply _. Qed.

(** The locations of consecutive transactions. *)
Fixpoint tx_locs (start : Z) (txs : list MsgTx) : list TxLoc :=
  match txs with
  | [] => []
  | tx :: txs => mkTxLoc start (SerializeSize tx) :: tx_locs (start + SerializeSize tx) txs
  end.

Lemma tx_enc_size tx : tx_wf tx -> zlen (tx_enc WitnessEncoding tx) = SerializeSize tx.
Proof. intros Hwf. unfold tx_enc. cbn. by rewrite SerializeSize_bytes. Qed.

Lemma readTxLocs_reads fullLen txs r :
  Forall (tx_enc_wf WitnessEncoding) txs ->
  readTxLocs (length txs) fullLen (list_bytes (tx_enc WitnessEncoding) txs ++ r)
  = (Ret (txs, tx_locs (fullLen - zlen (list_bytes (tx_enc WitnessEncoding) txs) - zlen r) txs), r).
Proof.
  intros Hl. revert r. induction Hl as [|tx txs Htx Hl IH]; intros r; [done|].
  cbn [length readTxLocs tx_locs]. unfold list_bytes. cbn [map concat].
  fold (list_bytes (tx_enc WitnessEncoding) txs). rewrite <- app_assoc.
  erewrite bindM_step by reflexivity. cbv zeta. unfold Deserialize. step_reads.
  erewrite bindM_step by reflexivity. erewrite bindM_step by apply IH.
  unfold retM. rewrite !zlen_app, (tx_enc_size tx) by apply Htx.
  do 4 f_equal; [f_equal; lia|f_equal; lia].
Qed.

Lemma DeserializeTxLoc_reads msg r :
  block_wf WitnessEncoding msg ->
  DeserializeTxLoc (block_bytes WitnessEncoding msg ++ r)
  = (Ret (msg, tx_locs (80 + VarIntSerializeSize (zlen (mb_Transactions msg))) (mb_Transactions msg)), r).
Proof.
  destruct msg as [h txs]. intros (H1 & H2 & H3). unfold DeserializeTxLoc, block_bytes, counted.
  cbn [mb_Header mb_Transactions] in *. pose proof (zlen_nonneg txs). erewrite bindM_step by reflexivity. cbv zeta.
  rewrite <- !app_assoc. step_reads. step_reads. ztest. rewrite zlen_to_nat.
  erewrite bindM_step by (by apply readTxLocs_reads).
  unfold retM. rewrite !zlen_app, zlen_varint_bytes, (zlen_header_bytes h H1).
  match goal with |- (Ret (_, tx_locs ?c _), _) = (Ret (_, tx_locs ?c' _), _) => by replace c with c' by lia end.
Qed.

Lemma list_bytes_snoc {A} (enc : A -> bytes) l x : list_bytes enc (l ++ [x]) = list_bytes enc l ++ enc x.
Proof. unfold list_bytes. rewrite map_app, concat_app. cbn. by rewrite app_nil_r. Qed.

(** Where the [i]-th transaction starts and what is found there. *)
Lemma tx_locs_lookup start txs i loc :
  Forall tx_wf txs -> tx_locs start txs !! i = Some loc ->
  exists tx, txs !! i = Some tx /\ TxLen loc = SerializeSize tx
    /\ TxStart loc = start + zlen (list_bytes (tx_enc WitnessEncoding) (take i txs)).
Proof.
  intros Hwf. revert start i. induction Hwf as [|tx txs Htx Hwf IH]; intros start i Hi; [done|].
  destruct i as [|i]; cbn in Hi.
  - injection Hi as <-. exists tx. split_and!; [done|done|]. cbn. change (zlen []) with 0. lia.
  - apply IH in Hi as (tx' & H1 & H2 & H3). exists tx'. split_and!; [done|done|].
    rewrite H3. unfold list_bytes. cbn. rewrite zlen_app, tx_enc_size by done. lia.
Qed.

Lemma length_tx_locs start txs : length (tx_locs start txs) = length txs.
Proof. revert start. induction txs; intros start; cbn; auto. Qed.

Lemma block_slice pre tx post off :
  off = zlen pre ->
  zslice (pre ++ tx_enc WitnessEncoding tx ++ post) off (off + zlen (tx_enc WitnessEncoding tx))
  = Some (tx_enc WitnessEncoding tx).
Proof.
  intros ->. pose proof (zlen_nonneg (tx_enc WitnessEncoding tx)).
  rewrite zslice_Some by zlia.
  rewrite Z.add_simpl_l, !zlen_to_nat, drop_app_length, take_app_length. done.
Qed.

(** ** Headers messages *)

Definition headers_wf (msg : MsgHeaders) : Prop :=
  zlen (mh_Headers msg) <= MaxBlockHeadersPerMsg /\ Forall header_wf (mh_Headers msg).
Definition entry_bytes (bh : BlockHeader) : bytes := header_bytes bh ++ varint_bytes 0.
Definition headers_bytes (msg : MsgHeaders) : bytes := counted entry_bytes (mh_Headers msg).

#[export] Instance writeHeaderEntry_writes : Writes writeHeaderEntry header_wf entry_bytes.
Proof. intros bh w Hb. unfold writeHeaderEntry, entry_bytes. run_writes. Qed.
#[export] Instance readHeaderEntry_reads : Reads readHeaderEntry header_wf entry_bytes.
Proof. intros bh r Hb. unfold readHeaderEntry, entry_bytes. run_reads. Qed.
#[export] Instance readHeaderEntry_canon : Canon readHeaderEntry header_wf entry_bytes.
Proof.
  intros r bh r' H. unfold readHeaderEntry in H. inv_bind H. inv_bind H.
  apply canon in Hm as [? ->], Hm0 as [? ->]. case_match; [done|]. injection H as <- <-. zbool.
  split; [done|]. unfold entry_bytes. rewrite <- app_assoc. by replace a0 with 0 by lia.
Qed.

#[export] Instance MsgHeaders_writes : Writes MsgHeaders_ThtEncode headers_wf headers_bytes.
Proof.
  intros [l] w [Hn Hl]. unfold MsgHeaders_ThtEncode, headers_bytes, counted. cbn [mh_Headers] in *.
  pose proof (zlen_nonneg l). cbv zeta. rewrite u64_id by lia. run_writes.
Qed.
#[export] Instance MsgHeaders_reads : Reads MsgHeaders_ThtDecode headers_wf headers_bytes.
Proof.
  intros [l] r [Hn Hl]. unfold headers_bytes. cbn [mh_Headers] in *.
  read_counted readHeaderEntry header_wf entry_bytes mkMsgHeaders ltac:(unfold AddBlockHeader; cbn [mh_Headers]).
Qed.
#[export] Instance MsgHeaders_canon : Canon MsgHeaders_ThtDecode headers_wf headers_bytes.
Proof.
  intros r msg r' H.
  canon_counted H readHeaderEntry header_wf entry_bytes mkMsgHeaders ltac:(unfold AddBlockHeader; cbn [mh_Headers]).
  by destruct H as (l & -> & Hn & Hl & ->).
Qed.
#[export] Instance MsgHeaders_no_panic : NoPanic MsgHeaders_ThtDecode.
Proof. unfold MsgHeaders_ThtDecode, readHeaderEntry. apply _. Qed.

(** ** Merkle blocks *)

Definition merkle_wf (pver : Z) (msg : MsgMerkleBlock) : Prop :=
  BIP0037Version <= pver /\ header_wf (mm_Header msg) /\ int_range TUint32 (mm_Transactions msg)
  /\ zlen (mm_Hashes msg) <= maxTxPerBlock /\ Forall (bytes_wf THash) (mm_Hashes msg)
  /\ zlen (mm_Flags msg) <= maxFlagsPerMerkleBlock.
Definition merkle_bytes (msg : MsgMerkleBlock) : bytes :=
  header_bytes (mm_Header msg) ++ int_bytes TUint32 (mm_Transactions msg)
  ++ counted raw (mm_Hashes msg) ++ varbytes (mm_Flags msg).

#[export] Instance MsgMerkleBlock_writes pver :
  Writes (MsgMerkleBlock_ThtEncode pver) (merkle_wf pver) merkle_bytes.
Proof.
  intros [h t l f] w (Hp & Hh & Ht & Hn & Hl & Hf). unfold MsgMerkleBlock_ThtEncode, merkle_bytes, counted.
  cbn [mm_Header mm_Transactions mm_Hashes mm_Flags] in *.
  pose proof (zlen_nonneg l). pose proof (zlen_nonneg f). cbv zeta. rewrite u64_id by lia. run_writes.
Qed.

Lemma merkle_hashes_reads h t l r :
  zlen l <= maxTxPerBlock -> Forall (bytes_wf THash) l ->
  readCounted (readBytes THash) (fun l => mkMsgMerkleBlock h t l []) AddTxHash maxTxPerBlock
    (MessageError "MsgMerkleBlock.ThtDecode") (counted raw l ++ r)
  = (Ret (mkMsgMerkleBlock h t l []), r).
Proof.
  intros Hn Hl. read_counted (readBytes THash) (bytes_wf THash) raw
    (fun l => mkMsgMerkleBlock h t l []) ltac:(unfold AddTxHash; cbn).
Qed.

Lemma MsgMerkleBlock_eq pver r :
  MsgMerkleBlock_ThtDecode pver r =
  (if pver <? BIP0037Version then failM (MessageError "MsgMerkleBlock.ThtDecode") else
   header <- readBlockHeader ;;
   transactions <- readInt TUint32 ;;
   msg <- readCounted (readBytes THash) (fun l => mkMsgMerkleBlock header transactions l []) AddTxHash
     maxTxPerBlock (MessageError "MsgMerkleBlock.ThtDecode") ;;
   flags <- ReadVarBytes maxFlagsPerMerkleBlock ;;
   retM (mkMsgMerkleBlock (mm_Header msg) (mm_Transactions msg) (mm_Hashes msg) flags)) r.
Proof.
  unfold MsgMerkleBlock_ThtDecode, readCounted. case_match; [done|].
  do 2 (apply bindM_ext; intros ? ? _). rewrite bindM_assoc.
  apply bindM_ext; intros ? ? _. by case_match.
Qed.

#[export] Instance MsgMerkleBlock_reads pver :
  Reads (MsgMerkleBlock_ThtDecode pver) (merkle_wf pver) merkle_bytes.
Proof.
  intros [h t l f] r (Hp & Hh & Ht & Hn & Hl & Hf). rewrite MsgMerkleBlock_eq. unfold merkle_bytes.
  cbn [mm_Header mm_Transactions mm_Hashes mm_Flags] in *. rewrite <- !app_assoc. ztest.
  do 2 step_reads. erewrite bindM_step by (by apply merkle_hashes_reads). run_reads.
Qed.
#[export] Instance MsgMerkleBlock_canon pver :
  Canon (MsgMerkleBlock_ThtDecode pver) (merkle_wf pver) merkle_bytes.
Proof.
  intros r msg r' H. rewrite MsgMerkleBlock_eq in H. case_match; [done|]. zbool.
  do 4 inv_bind H. injection H as <- <-. apply canon in Hm as [? ->], Hm0 as [? ->], Hm2 as [? ->].
  canon_counted Hm1 (readBytes THash) (bytes_wf THash) raw
    (fun l => mkMsgMerkleBlock a a0 l []) ltac:(unfold AddTxHash; cbn).
  destruct Hm1 as (l & -> & Hn & Hl & ->). cbn [mm_Header mm_Transactions mm_Hashes mm_Flags].
  split; [|unfold merkle_bytes; cbn; by rewrite <- !app_assoc].
  unfold merkle_wf. cbn [mm_Header mm_Transactions mm_Hashes mm_Flags]. split_and!; try done; lia.
Qed.
#[export] Instance MsgMerkleBlock_no_panic pver : NoPanic (MsgMerkleBlock_ThtDecode pver).
Proof. unfold MsgMerkleBlock_ThtDecode. apply _. Qed.

(** ** Properties *)

Lemma MsgBlock_size msg :
  block_wf WitnessEncoding msg -> MsgBlock_SerializeSize msg = zlen (block_bytes WitnessEncoding msg).
Proof.
  intros (Hh & Hn & Hl). pose proof (zlen_nonneg (mb_Transactions msg)).
  unfold MsgBlock_SerializeSize, block_bytes, counted. rewrite u64_id by lia.
  rewrite (fold_left_sizes _ SerializeSize (tx_enc WitnessEncoding)); [|done|].
  - rewrite !zlen_app, (zlen_header_bytes _ Hh), zlen_varint_bytes. unfold list_bytes. lia.
  - eapply Forall_impl; [exact Hl|]. intros tx [Htx _]. by rewrite tx_enc_size.
Qed.

(** The bytes of the [i]-th transaction of an encoded block. *)
Lemma block_tx_slice msg r i tx loc :
  block_wf WitnessEncoding msg -> mb_Transactions msg !! i = Some tx ->
  tx_locs (80 + VarIntSerializeSize (zlen (mb_Transactions msg))) (mb_Transactions msg) !! i = Some loc ->
  zslice (block_bytes WitnessEncoding msg ++ r) (TxStart loc) (TxStart loc + TxLen loc)
  = Some (tx_enc WitnessEncoding tx).
Proof.
  intros (Hh & Hn & Hl) Htx Hloc. pose proof (tx_enc_wf_wf _ _ Hl) as Hwf.
  apply tx_locs_lookup in Hloc as (tx' & Htx' & -> & Hs); [|done].
  assert (tx' = tx) as -> by congruence. rewrite <- tx_enc_size by (by eapply Forall_lookup in Hwf).
  rewrite Hs. set (pre := take i (mb_Transactions msg)).
  set (post := drop (S i) (mb_Transactions msg)).
  assert (block_bytes WitnessEncoding msg ++ r
    = (header_bytes (mb_Header msg) ++ varint_bytes (zlen (mb_Transactions msg))
       ++ list_bytes (tx_enc WitnessEncoding) pre)
      ++ tx_enc WitnessEncoding tx ++ list_bytes (tx_enc WitnessEncoding) post ++ r) as ->.
  { unfold block_bytes, counted. rewrite <- (take_drop_middle (mb_Transactions msg) i tx Htx) at 2.
    fold pre post. unfold list_bytes. rewrite map_app, concat_app. cbn [map concat].
    by rewrite <- !app_assoc. }
  apply block_slice. rewrite !zlen_app, (zlen_header_bytes _ Hh), zlen_varint_bytes. lia.
Qed.

(** C38: a block within the limits whose transactions have inputs is read back
    unchanged from what [Serialize] wrote, which has [SerializeSize] bytes; and
    [DeserializeTxLoc] returns the same block with one location per transaction,
    and at that location of the raw block are the bytes of the transaction. *)
Theorem Block_roundtrip_locations (msg : MsgBlock) (r : bytes) :
  block_wf WitnessEncoding msg ->
  exists out locs,
    MsgBlock_Serialize msg [] = (Ret tt, out) /\ zlen out = MsgBlock_SerializeSize msg
    /\ MsgBlock_Deserialize (out ++ r) = (Ret msg, r)
    /\ DeserializeTxLoc (out ++ r) = (Ret (msg, locs), r)
    /\ length locs = length (mb_Transactions msg)
    /\ forall i tx loc, mb_Transactions msg !! i = Some tx -> locs !! i = Some loc ->
         zslice (out ++ r) (TxStart loc) (TxStart loc + TxLen loc) = Some (Serialize tx []).2.
Proof.
  intros Hwf. exists (block_bytes WitnessEncoding msg). eexists.
  split_and!; [exact (writes msg [] Hwf)|by rewrite MsgBlock_size|exact (reads msg r Hwf)
    |exact (DeserializeTxLoc_reads msg r Hwf)|apply length_tx_locs|].
  intros i tx loc Htx Hloc. rewrite (block_tx_slice msg r i tx loc) by done.
  unfold Serialize. destruct Hwf as (_ & _ & Hl). apply tx_enc_wf_wf in Hl.
  by rewrite writes by (by eapply Forall_lookup in Hl).
Qed.

(** The hash of a header is the hash of 80 bytes that determine the header:
    headers with the same bytes are equal, and reading accepts nothing else. *)
Theorem BlockHash_commits `{Crypto} (h1 h2 : BlockHeader) (r r' : bytes) :
  header_wf h1 -> header_wf h2 ->
  let out h := (writeBlockHeader h []).2 in
  BlockHeader_BlockHash h1 = DoubleHashH (out h1) /\ zlen (out h1) = blockHeaderLen
  /\ (out h1 = out h2 -> h1 = h2)
  /\ (readBlockHeader r = (Ret h1, r') <-> r = out h1 ++ r').
Proof.
  intros H1 H2 out. assert (forall h, header_wf h -> out h = header_bytes h) as Ho.
  { intros h Hh. unfold out. by rewrite writes. }
  rewrite !Ho by done. split_and!; [unfold BlockHeader_BlockHash; by rewrite writes|
    by apply zlen_header_bytes| |split].
  - intros E. pose proof (readBlockHeader_reads h1 [] H1) as E1.
    pose proof (readBlockHeader_reads h2 [] H2) as E2.
    rewrite E, E2 in E1. congruence.
  - intros Hr. by apply canon in Hr as [_ ->].
  - intros ->. by apply reads.
Qed.

(** ** Witnesses *)

Definition sample_header : BlockHeader :=
  mkBlockHeader 3 (replicate 32 (z2b 1)) (replicate 32 (z2b 2)) 1620000000 0x1d00ffff 42.
Definition sample_block : MsgBlock := mkMsgBlock sample_header [sample_tx; sample_tx].

Lemma sample_header_wf : header_wf sample_header.
Proof. repeat split; vm_compute; congruence. Qed.
Lemma sample_block_wf : block_wf WitnessEncoding sample_block.
Proof.
  split; [exact sample_header_wf|]. split; [vm_compute; congruence|].
  repeat constructor; try exact sample_tx_wf; discriminate.
Qed.

Lemma Block_roundtrip_locations_witness :
  exists out locs, MsgBlock_Serialize sample_block [] = (Ret tt, out)
    /\ DeserializeTxLoc (out ++ [z2b 9]) = (Ret (sample_block, locs), [z2b 9]).
Proof.
  destruct (Block_roundtrip_locations sample_block [z2b 9] sample_block_wf)
    as (out & locs & H1 & _ & _ & H2 & _).
  by exists out, locs.
Defined.

Lemma BlockHash_commits_witness :
  zlen (writeBlockHeader sample_header []).2 = 80.
Proof.
  apply (BlockHash_commits (H := toy) sample_header sample_header [] [] sample_header_wf sample_header_wf).
Defined.
