(* ===== verification/WireMsgs.v ===== *)
(** The peer-to-peer messages (src/thoughtd/wire/msg*.go, netaddress.go,
    invvect.go, protocol.go).

    One record per message and its two methods [ThtDecode] and [ThtEncode]; the
    protocol version is an argument where the source looks at it.  Strings are
    byte strings, and a [time.Time] is its Unix time.  A decoder that may leave a
    field of its receiver alone takes the receiver as an argument; the others
    write every field. *)

From Stdlib Require Import Strings.String.
From S2P Require Import Prelude WireCommon WireCodec WireTx WireBlock.

(** ** protocol.go *)

Notation ProtocolVersion := 70018 (only parsing).
Notation MultipleAddressVersion := 209 (only parsing).
Notation NetAddressTimeVersion := 31402 (only parsing).
Notation BIP0031Version := 60000 (only parsing).
Notation BIP0035Version := 60002 (only parsing).
Notation RejectVersion := 70002 (only parsing).
Notation SendHeadersVersion := 70012 (only parsing).
Notation FeeFilterVersion := 70013 (only parsing).

(** ** invvect.go *)

Notation MaxInvPerMsg := 50000 (only parsing).

Record InvVect := mkInvVect { iv_Type : Z; iv_Hash : bytes }.

Definition NewInvVect (typ : Z) (hash : bytes) : InvVect := mkInvVect typ hash.

Definition readInvVect : RM InvVect :=
  typ <- readInt TInvType ;; hash <- readBytes THash ;; retM (mkInvVect typ hash).

Definition writeInvVect (iv : InvVect) : RM unit :=
  writeInt TInvType (iv_Type iv) ;; writeBytes THash (iv_Hash iv).

(** ** netaddress.go *)

Record NetAddress := mkNetAddress {
  na_Timestamp : Z;
  na_Services : Z;
  na_IP : bytes;
  na_Port : Z }.

(** The zero [time.Time] is January 1 of year 1. *)
Notation zeroTime := (-62135596800) (only parsing).

Definition maxNetAddressPayload (pver : Z) : Z :=
  let plen := 26 in
  if pver >=? NetAddressTimeVersion then plen + 4 else plen.

Definition HasService (service : Z) (na : NetAddress) : bool :=
  Z.land (na_Services na) service =? service.

Definition AddService (service : Z) (na : NetAddress) : NetAddress :=
  mkNetAddress (na_Timestamp na) (Z.lor (na_Services na) service) (na_IP na) (na_Port na).

Definition NewNetAddressTimestamp (timestamp services : Z) (ip : bytes) (port : Z) : NetAddress :=
  mkNetAddress timestamp services ip port.

(** [net.IP.To16]: [nil] for an address that has neither 4 nor 16 bytes. *)
Definition To16 (ip : bytes) : bytes :=
  if zlen ip =? 4 then replicate 10 (z2b 0) ++ [z2b 0xff; z2b 0xff] ++ ip
  else if zlen ip =? 16 then ip else [].

(** [copy(ip[:], na.IP.To16())] into an array of zeros. *)
Definition ip_array (ip : bytes) : bytes :=
  let b := To16 ip in take 16 b ++ replicate (16 - length b) (z2b 0).

(** Ports are big-endian. *)
Definition Uint16BE : RM Z := buf <- ReadFull 2 ;; retM (be_val buf).
Definition PutUint16BE (v : Z) : RM unit := Write (rev (le_bytes 2 v)).

Definition readNetAddress (pver : Z) (na : NetAddress) (ts : bool) : RM NetAddress :=
  timestamp <- (if ts && (pver >=? NetAddressTimeVersion) then readInt TUint32Time
                else retM (na_Timestamp na)) ;;
  services <- readInt TServiceFlag ;;
  ip <- readBytes TIP ;;
  port <- Uint16BE ;;
  retM (mkNetAddress timestamp services ip port).

Definition writeNetAddress (pver : Z) (ts : bool) (na : NetAddress) : RM unit :=
  (if ts && (pver >=? NetAddressTimeVersion) then writeInt TUint32 (u32 (na_Timestamp na))
   else retM tt) ;;
  let ip := ip_array (na_IP na) in
  writeInt TServiceFlag (na_Services na) ;;
  writeBytes TIP ip ;;
  PutUint16BE (na_Port na).

(** ** Inventories: inv, getdata and notfound *)

Record MsgInv := mkMsgInv { inv_InvList : list InvVect }.
Record MsgGetData := mkMsgGetData { gd_InvList : list InvVect }.
Record MsgNotFound := mkMsgNotFound { nf_InvList : list InvVect }.

Definition MsgInv_AddInvVect (iv : InvVect) (msg : MsgInv) : outcome WireErr MsgInv :=
  let! l := addLimited MaxInvPerMsg "MsgInv.AddInvVect" iv (inv_InvList msg) in Ret (mkMsgInv l).
Definition MsgGetData_AddInvVect (iv : InvVect) (msg : MsgGetData) : outcome WireErr MsgGetData :=
  let! l := addLimited MaxInvPerMsg "MsgGetData.AddInvVect" iv (gd_InvList msg) in Ret (mkMsgGetData l).
Definition MsgNotFound_AddInvVect (iv : InvVect) (msg : MsgNotFound) : outcome WireErr MsgNotFound :=
  let! l := addLimited MaxInvPerMsg "MsgNotFound.AddInvVect" iv (nf_InvList msg) in Ret (mkMsgNotFound l).

Definition MsgInv_ThtDecode : RM MsgInv :=
  count <- ReadVarInt ;;
  if count >? MaxInvPerMsg then failM (MessageError "MsgInv.ThtDecode") else
  readInto (Z.to_nat count) readInvVect MsgInv_AddInvVect (mkMsgInv []).

Definition MsgInv_ThtEncode (msg : MsgInv) : RM unit :=
  let count := zlen (inv_InvList msg) in
  if count >? MaxInvPerMsg then failM (MessageError "MsgInv.ThtEncode") else
  WriteVarInt (u64 count) ;; writeAll writeInvVect (inv_InvList msg).

Definition MsgGetData_ThtDecode : RM MsgGetData :=
  count <- ReadVarInt ;;
  if count >? MaxInvPerMsg then failM (MessageError "MsgGetData.ThtDecode") else
  readInto (Z.to_nat count) readInvVect MsgGetData_AddInvVect (mkMsgGetData []).

Definition MsgGetData_ThtEncode (msg : MsgGetData) : RM unit :=
  let count := zlen (gd_InvList msg) in
  if count >? MaxInvPerMsg then failM (MessageError "MsgGetData.ThtEncode") else
  WriteVarInt (u64 count) ;; writeAll writeInvVect (gd_InvList msg).

Definition MsgNotFound_ThtDecode : RM MsgNotFound :=
  count <- ReadVarInt ;;
  if count >? MaxInvPerMsg then failM (MessageError "MsgNotFound.ThtDecode") else
  readInto (Z.to_nat count) readInvVect MsgNotFound_AddInvVect (mkMsgNotFound []).

Definition MsgNotFound_ThtEncode (msg : MsgNotFound) : RM unit :=
  let count := zlen (nf_InvList msg) in
  if count >? MaxInvPerMsg then failM (MessageError "MsgNotFound.ThtEncode") else
  WriteVarInt (u64 count) ;; writeAll writeInvVect (nf_InvList msg).

(** ** addr *)

Notation MaxAddrPerMsg := 1000 (only parsing).

Record MsgAddr := mkMsgAddr { ma_AddrList : list NetAddress }.

Definition AddAddress (na : NetAddress) (msg : MsgAddr) : outcome WireErr MsgAddr :=
  let! l := addLimited MaxAddrPerMsg "MsgAddr.AddAddress" na (ma_AddrList msg) in Ret (mkMsgAddr l).

(** The addresses before the first one that does not fit stay in the message. *)
Fixpoint AddAddresses (netAddrs : list NetAddress) : M MsgAddr WireErr unit :=
  match netAddrs with
  | [] => retM tt
  | na :: netAddrs => fun msg =>
      match AddAddress na msg with
      | Ret msg' => AddAddresses netAddrs msg'
      | Fail e => (Fail e, msg)
      | Crash => (Crash, msg)
      | NoFuel => (NoFuel, msg)
      end
  end.

Definition ClearAddresses (msg : MsgAddr) : MsgAddr := mkMsgAddr [].

(** The addresses are read into a slice of zero values. *)
Definition zeroNetAddress : NetAddress := mkNetAddress zeroTime 0 [] 0.

Definition MsgAddr_ThtDecode (pver : Z) : RM MsgAddr :=
  count <- ReadVarInt ;;
  if count >? MaxAddrPerMsg then failM (MessageError "MsgAddr.ThtDecode") else
  readInto (Z.to_nat count) (readNetAddress pver zeroNetAddress true) AddAddress (mkMsgAddr []).

Definition MsgAddr_ThtEncode (pver : Z) (msg : MsgAddr) : RM unit :=
  let count := zlen (ma_AddrList msg) in
  if (pver <? MultipleAddressVersion) && (count >? 1) then failM (MessageError "MsgAddr.ThtEncode") else
  if count >? MaxAddrPerMsg then failM (MessageError "MsgAddr.ThtEncode") else
  WriteVarInt (u64 count) ;; writeAll (writeNetAddress pver true) (ma_AddrList msg).

(** ** getblocks and getheaders *)

Notation MaxBlockLocatorsPerMsg := 500 (only parsing).

Record MsgGetBlocks := mkMsgGetBlocks {
  gb_ProtocolVersion : Z; gb_BlockLocatorHashes : list bytes; gb_HashStop : bytes }.
Record MsgGetHeaders := mkMsgGetHeaders {
  gh_ProtocolVersion : Z; gh_BlockLocatorHashes : list bytes; gh_HashStop : bytes }.

Definition MsgGetBlocks_AddBlockLocatorHash (hash : bytes) (msg : MsgGetBlocks) :
    outcome WireErr MsgGetBlocks :=
  let! l := addLimited MaxBlockLocatorsPerMsg "MsgGetBlocks.AddBlockLocatorHash" hash
    (gb_BlockLocatorHashes msg) in
  Ret (mkMsgGetBlocks (gb_ProtocolVersion msg) l (gb_HashStop msg)).

Definition MsgGetHeaders_AddBlockLocatorHash (hash : bytes) (msg : MsgGetHeaders) :
    outcome WireErr MsgGetHeaders :=
  let! l := addLimited MaxBlockLocatorsPerMsg "MsgGetHeaders.AddBlockLocatorHash" hash
    (gh_BlockLocatorHashes msg) in
  Ret (mkMsgGetHeaders (gh_ProtocolVersion msg) l (gh_HashStop msg)).

Definition MsgGetBlocks_ThtDecode : RM MsgGetBlocks :=
  version <- readInt TUint32 ;;
  count <- ReadVarInt ;;
  if count >? MaxBlockLocatorsPerMsg then failM (MessageError "MsgGetBlocks.ThtDecode") else
  msg <- readInto (Z.to_nat count) (readBytes THash) MsgGetBlocks_AddBlockLocatorHash
    (mkMsgGetBlocks version [] []) ;;
  hashStop <- readBytes THash ;;
  retM (mkMsgGetBlocks (gb_ProtocolVersion msg) (gb_BlockLocatorHashes msg) hashStop).

Definition MsgGetBlocks_ThtEncode (msg : MsgGetBlocks) : RM unit :=
  let count := zlen (gb_BlockLocatorHashes msg) in
  if count >? MaxBlockLocatorsPerMsg then failM (MessageError "MsgGetBlocks.ThtEncode") else
  writeInt TUint32 (gb_ProtocolVersion msg) ;;
  WriteVarInt (u64 count) ;;
  writeAll (writeBytes THash) (gb_BlockLocatorHashes msg) ;;
  writeBytes THash (gb_HashStop msg).

Definition MsgGetHeaders_ThtDecode : RM MsgGetHeaders :=
  version <- readInt TUint32 ;;
  count <- ReadVarInt ;;
  if count >? MaxBlockLocatorsPerMsg then failM (MessageError "MsgGetHeaders.ThtDecode") else
  msg <- readInto (Z.to_nat count) (readBytes THash) MsgGetHeaders_AddBlockLocatorHash
    (mkMsgGetHeaders version [] []) ;;
  hashStop <- readBytes THash ;;
  retM (mkMsgGetHeaders (gh_ProtocolVersion msg) (gh_BlockLocatorHashes msg) hashStop).

Definition MsgGetHeaders_ThtEncode (msg : MsgGetHeaders) : RM unit :=
  let count := zlen (gh_BlockLocatorHashes msg) in
  if count >? MaxBlockLocatorsPerMsg then failM (MessageError "MsgGetHeaders.ThtEncode") else
  writeInt TUint32 (gh_ProtocolVersion msg) ;;
  WriteVarInt (u64 count) ;;
  writeAll (writeBytes THash) (gh_BlockLocatorHashes msg) ;;
  writeBytes THash (gh_HashStop msg).

(** ** ping, pong and feefilter *)

Record MsgPing := mkMsgPing { ping_Nonce : Z }.
Record MsgPong := mkMsgPong { pong_Nonce : Z }.
Record MsgFeeFilter := mkMsgFeeFilter { ff_MinFee : Z }.

Definition MsgPing_ThtDecode (pver : Z) (msg : MsgPing) : RM MsgPing :=
  if pver >? BIP0031Version then nonce <- readInt TUint64 ;; retM (mkMsgPing nonce) else retM msg.
Definition MsgPing_ThtEncode (pver : Z) (msg : MsgPing) : RM unit :=
  if pver >? BIP0031Version then writeInt TUint64 (ping_Nonce msg) else retM tt.

Definition MsgPong_ThtDecode (pver : Z) : RM MsgPong :=
  if pver <=? BIP0031Version then failM (MessageError "MsgPong.ThtDecode") else
  nonce <- readInt TUint64 ;; retM (mkMsgPong nonce).
Definition MsgPong_ThtEncode (pver : Z) (msg : MsgPong) : RM unit :=
  if pver <=? BIP0031Version then failM (MessageError "MsgPong.ThtEncode") else
  writeInt TUint64 (pong_Nonce msg).

Definition MsgFeeFilter_ThtDecode (pver : Z) : RM MsgFeeFilter :=
  if pver <? FeeFilterVersion then failM (MessageError "MsgFeeFilter.ThtDecode") else
  minFee <- readInt TInt64 ;; retM (mkMsgFeeFilter minFee).
Definition MsgFeeFilter_ThtEncode (pver : Z) (msg : MsgFeeFilter) : RM unit :=
  if pver <? FeeFilterVersion then failM (MessageError "MsgFeeFilter.ThtEncode") else
  writeInt TInt64 (ff_MinFee msg).

(** ** Messages without payload; the name is the one in the error. *)

Definition MsgMemPool_ThtDecode (pver : Z) : RM unit :=
  if pver <? BIP0035Version then failM (MessageError "MsgMemPool.ThtDecode") else retM tt.
Definition MsgMemPool_ThtEncode (pver : Z) : RM unit :=
  if pver <? BIP0035Version then failM (MessageError "MsgMemPool.ThtEncode") else retM tt.
Definition MsgSendHeaders_ThtDecode (pver : Z) : RM unit :=
  if pver <? SendHeadersVersion then failM (MessageError "MsgSendHeaders.ThtDecode") else retM tt.
Definition MsgSendHeaders_ThtEncode (pver : Z) : RM unit :=
  if pver <? SendHeadersVersion then failM (MessageError "MsgSendHeaders.ThtEncode") else retM tt.
Definition MsgFilterClear_ThtDecode (pver : Z) : RM unit :=
  if pver <? BIP0037Version then failM (MessageError "MsgFilterClear.ThtDecode") else retM tt.
Definition MsgFilterClear_ThtEncode (pver : Z) : RM unit :=
  if pver <? BIP0037Version then failM (MessageError "MsgFilterClear.ThtEncode") else retM tt.

(** ** filteradd and filterload *)

Notation MaxFilterAddDataSize := 520 (only parsing).
Notation MaxFilterLoadHashFuncs := 50 (only parsing).
Notation MaxFilterLoadFilterSize := 36000 (only parsing).

Record MsgFilterAdd := mkMsgFilterAdd { fa_Data : bytes }.
Record MsgFilterLoad := mkMsgFilterLoad {
  fl_Filter : bytes; fl_HashFuncs : Z; fl_Tweak : Z; fl_Flags : Z }.

Definition MsgFilterAdd_ThtDecode (pver : Z) : RM MsgFilterAdd :=
  if pver <? BIP0037Version then failM (MessageError "MsgFilterAdd.ThtDecode") else
  data <- ReadVarBytes MaxFilterAddDataSize ;; retM (mkMsgFilterAdd data).
Definition MsgFilterAdd_ThtEncode (pver : Z) (msg : MsgFilterAdd) : RM unit :=
  if pver <? BIP0037Version then failM (MessageError "MsgFilterAdd.ThtEncode") else
  let size := zlen (fa_Data msg) in
  if size >? MaxFilterAddDataSize then failM (MessageError "MsgFilterAdd.ThtEncode") else
  WriteVarBytes (fa_Data msg).

Definition MsgFilterLoad_ThtDecode (pver : Z) : RM MsgFilterLoad :=
  if pver <? BIP0037Version then failM (MessageError "MsgFilterLoad.ThtDecode") else
  filter <- ReadVarBytes MaxFilterLoadFilterSize ;;
  hashFuncs <- readInt TUint32 ;;
  tweak <- readInt TUint32 ;;
  flags <- readInt TBloomUpdateType ;;
  if hashFuncs >? MaxFilterLoadHashFuncs then failM (MessageError "MsgFilterLoad.ThtDecode") else
  retM (mkMsgFilterLoad filter hashFuncs tweak flags).
Definition MsgFilterLoad_ThtEncode (pver : Z) (msg : MsgFilterLoad) : RM unit :=
  if pver <? BIP0037Version then failM (MessageError "MsgFilterLoad.ThtEncode") else
  let size := zlen (fl_Filter msg) in
  if size >? MaxFilterLoadFilterSize then failM (MessageError "MsgFilterLoad.ThtEncode") else
  if fl_HashFuncs msg >? MaxFilterLoadHashFuncs then failM (MessageError "MsgFilterLoad.ThtEncode") else
  WriteVarBytes (fl_Filter msg) ;;
  writeInt TUint32 (fl_HashFuncs msg) ;;
  writeInt TUint32 (fl_Tweak msg) ;;
  writeInt TBloomUpdateType (fl_Flags msg).

(** ** reject *)

Record MsgReject := mkMsgReject {
  rj_Cmd : bytes; rj_Code : Z; rj_Reason : bytes; rj_Hash : bytes }.

(** [msg.Cmd == CmdBlock || msg.Cmd == CmdTx] *)
Definition reject_has_hash (cmd : bytes) : bool :=
  bool_decide (cmd = str "block") || bool_decide (cmd = str "tx").

Definition MsgReject_ThtDecode (pver : Z) (msg : MsgReject) : RM MsgReject :=
  if pver <? RejectVersion then failM (MessageError "MsgReject.ThtDecode") else
  cmd <- ReadVarString ;;
  code <- readInt TRejectCode ;;
  reason <- ReadVarString ;;
  hash <- (if reject_has_hash cmd then readBytes THash else retM (rj_Hash msg)) ;;
  retM (mkMsgReject cmd code reason hash).

Definition MsgReject_ThtEncode (pver : Z) (msg : MsgReject) : RM unit :=
  if pver <? RejectVersion then failM (MessageError "MsgReject.ThtEncode") else
  WriteVarString (rj_Cmd msg) ;;
  writeInt TRejectCode (rj_Code msg) ;;
  WriteVarString (rj_Reason msg) ;;
  if reject_has_hash (rj_Cmd msg) then writeBytes THash (rj_Hash msg) else retM tt.

(** ** version *)

Notation MaxUserAgentLen := 256 (only parsing).

Record MsgVersion := mkMsgVersion {
  mv_ProtocolVersion : Z;
  mv_Services : Z;
  mv_Timestamp : Z;
  mv_AddrYou : NetAddress;
  mv_AddrMe : NetAddress;
  mv_Nonce : Z;
  mv_UserAgent : bytes;
  mv_LastBlock : Z;
  mv_DisableRelayTx : bool }.

Definition validateUserAgent (userAgent : bytes) : outcome WireErr unit :=
  if zlen userAgent >? MaxUserAgentLen then Fail (MessageError "MsgVersion") else Ret tt.

(** [strings.Join(comments, "; ")] *)
Fixpoint joinComments (comments : list bytes) : bytes :=
  match comments with
  | [] => []
  | [c] => c
  | c :: comments => c ++ str "; " ++ joinComments comments
  end.

Definition AddUserAgent (name version : bytes) (comments : list bytes) : M MsgVersion WireErr unit :=
  msg <- getM ;;
  let newUserAgent := name ++ str ":" ++ version in
  let newUserAgent :=
    if negb (zlen comments =? 0) then newUserAgent ++ str "(" ++ joinComments comments ++ str ")"
    else newUserAgent in
  let newUserAgent := mv_UserAgent msg ++ newUserAgent ++ str "/" in
  liftO (validateUserAgent newUserAgent) ;;
  putM (mkMsgVersion (mv_ProtocolVersion msg) (mv_Services msg) (mv_Timestamp msg) (mv_AddrYou msg)
    (mv_AddrMe msg) (mv_Nonce msg) newUserAgent (mv_LastBlock msg) (mv_DisableRelayTx msg)).

(** [if buf.Len() > 0 { ... }]: the field keeps its value at the end of the buffer. *)
Definition ifMore {A} (m : RM A) (keep : A) : RM A :=
  buf <- getM ;; if zlen buf >? 0 then m else retM keep.

(** A call whose error is dropped. *)
Definition orElse {A} (m : RM A) (d : A) : RM A := fun r =>
  match m r with (Fail _, r') => (Ret d, r') | p => p end.

Definition MsgVersion_ThtDecode (pver : Z) (msg : MsgVersion) : RM MsgVersion :=
  version <- readInt TInt32 ;;
  services <- readInt TServiceFlag ;;
  timestamp <- readInt TInt64Time ;;
  addrYou <- readNetAddress pver (mv_AddrYou msg) false ;;
  addrMe <- ifMore (readNetAddress pver (mv_AddrMe msg) false) (mv_AddrMe msg) ;;
  nonce <- ifMore (readInt TUint64) (mv_Nonce msg) ;;
  userAgent <- ifMore (userAgent <- ReadVarString ;;
                       liftO (validateUserAgent userAgent) ;; retM userAgent) (mv_UserAgent msg) ;;
  lastBlock <- ifMore (readInt TInt32) (mv_LastBlock msg) ;;
  disableRelayTx <- ifMore (relayTx <- orElse readBool false ;; retM (negb relayTx))
    (mv_DisableRelayTx msg) ;;
  retM (mkMsgVersion version services timestamp addrYou addrMe nonce userAgent lastBlock disableRelayTx).

Definition MsgVersion_ThtEncode (pver : Z) (msg : MsgVersion) : RM unit :=
  liftO (validateUserAgent (mv_UserAgent msg)) ;;
  writeInt TInt32 (mv_ProtocolVersion msg) ;;
  writeInt TServiceFlag (mv_Services msg) ;;
  writeInt TInt64 (mv_Timestamp msg) ;;
  writeNetAddress pver false (mv_AddrYou msg) ;;
  writeNetAddress pver false (mv_AddrMe msg) ;;
  writeInt TUint64 (mv_Nonce msg) ;;
  WriteVarString (mv_UserAgent msg) ;;
  writeInt TInt32 (mv_LastBlock msg) ;;
  if pver >=? BIP0037Version then writeBool (negb (mv_DisableRelayTx msg)) else retM tt.

(** ** Committed filters *)

Notation MaxCFilterDataSize := (256 * 1024) (only parsing).
Notation MaxCFHeadersPerMsg := 2000 (only parsing).
Notation maxCFHeadersLen := 100000 (only parsing).

Record MsgGetCFilters := mkMsgGetCFilters {
  gcf_FilterType : Z; gcf_StartHeight : Z; gcf_StopHash : bytes }.
Record MsgGetCFHeaders := mkMsgGetCFHeaders {
  gch_FilterType : Z; gch_StartHeight : Z; gch_StopHash : bytes }.
Record MsgGetCFCheckpt := mkMsgGetCFCheckpt { gcc_FilterType : Z; gcc_StopHash : bytes }.
Record MsgCFilter := mkMsgCFilter { cf_FilterType : Z; cf_BlockHash : bytes; cf_Data : bytes }.
Record MsgCFHeaders := mkMsgCFHeaders {
  cfh_FilterType : Z; cfh_StopHash : bytes; cfh_PrevFilterHeader : bytes; cfh_FilterHashes : list bytes }.
Record MsgCFCheckpt := mkMsgCFCheckpt {
  cfc_FilterType : Z; cfc_StopHash : bytes; cfc_FilterHeaders : list bytes }.

Definition MsgGetCFilters_ThtDecode : RM MsgGetCFilters :=
  filterType <- readInt TUint8 ;; startHeight <- readInt TUint32 ;; stopHash <- readBytes THash ;;
  retM (mkMsgGetCFilters filterType startHeight stopHash).
Definition MsgGetCFilters_ThtEncode (msg : MsgGetCFilters) : RM unit :=
  writeInt TUint8 (gcf_FilterType msg) ;; writeInt TUint32 (gcf_StartHeight msg) ;;
  writeBytes THash (gcf_StopHash msg).

Definition MsgGetCFHeaders_ThtDecode : RM MsgGetCFHeaders :=
  filterType <- readInt TUint8 ;; startHeight <- readInt TUint32 ;; stopHash <- readBytes THash ;;
  retM (mkMsgGetCFHeaders filterType startHeight stopHash).
Definition MsgGetCFHeaders_ThtEncode (msg : MsgGetCFHeaders) : RM unit :=
  writeInt TUint8 (gch_FilterType msg) ;; writeInt TUint32 (gch_StartHeight msg) ;;
  writeBytes THash (gch_StopHash msg).

Definition MsgGetCFCheckpt_ThtDecode : RM MsgGetCFCheckpt :=
  filterType <- readInt TUint8 ;; stopHash <- readBytes THash ;;
  retM (mkMsgGetCFCheckpt filterType stopHash).
Definition MsgGetCFCheckpt_ThtEncode (msg : MsgGetCFCheckpt) : RM unit :=
  writeInt TUint8 (gcc_FilterType msg) ;; writeBytes THash (gcc_StopHash msg).

Definition MsgCFilter_ThtDecode : RM MsgCFilter :=
  filterType <- readInt TUint8 ;; blockHash <- readBytes THash ;;
  data <- ReadVarBytes MaxCFilterDataSize ;;
  retM (mkMsgCFilter filterType blockHash data).
Definition MsgCFilter_ThtEncode (msg : MsgCFilter) : RM unit :=
  let size := zlen (cf_Data msg) in
  if size >? MaxCFilterDataSize then failM (MessageError "MsgCFilter.ThtEncode") else
  writeInt TUint8 (cf_FilterType msg) ;; writeBytes THash (cf_BlockHash msg) ;;
  WriteVarBytes (cf_Data msg).

Definition AddCFHash (hash : bytes) (msg : MsgCFHeaders) : outcome WireErr MsgCFHeaders :=
  let! l := addLimited MaxCFHeadersPerMsg "MsgCFHeaders.AddCFHash" hash (cfh_FilterHashes msg) in
  Ret (mkMsgCFHeaders (cfh_FilterType msg) (cfh_StopHash msg) (cfh_PrevFilterHeader msg) l).

Definition MsgCFHeaders_ThtDecode : RM MsgCFHeaders :=
  filterType <- readInt TUint8 ;; stopHash <- readBytes THash ;; prev <- readBytes THash ;;
  count <- ReadVarInt ;;
  if count >? MaxCFHeadersPerMsg then failM (MessageError "MsgCFHeaders.ThtDecode") else
  readInto (Z.to_nat count) (readBytes THash) AddCFHash (mkMsgCFHeaders filterType stopHash prev []).
(** The count is checked after three fields were written. *)
Definition MsgCFHeaders_ThtEncode (msg : MsgCFHeaders) : RM unit :=
  writeInt TUint8 (cfh_FilterType msg) ;; writeBytes THash (cfh_StopHash msg) ;;
  writeBytes THash (cfh_PrevFilterHeader msg) ;;
  let count := zlen (cfh_FilterHashes msg) in
  if count >? MaxCFHeadersPerMsg then failM (MessageError "MsgCFHeaders.ThtEncode") else
  WriteVarInt (u64 count) ;; writeAll (writeBytes THash) (cfh_FilterHashes msg).

(** The slice is filled by index. *)
Definition MsgCFCheckpt_ThtDecode : RM MsgCFCheckpt :=
  filterType <- readInt TUint8 ;; stopHash <- readBytes THash ;;
  count <- ReadVarInt ;;
  if count >? maxCFHeadersLen then failM ErrInsaneCFHeaderCount else
  filterHeaders <- repeatM (Z.to_nat count) (readBytes THash) ;;
  retM (mkMsgCFCheckpt filterType stopHash filterHeaders).
Definition MsgCFCheckpt_ThtEncode (msg : MsgCFCheckpt) : RM unit :=
  writeInt TUint8 (cfc_FilterType msg) ;; writeBytes THash (cfc_StopHash msg) ;;
  let count := zlen (cfc_FilterHeaders msg) in
  WriteVarInt (u64 count) ;; writeAll (writeBytes THash) (cfc_FilterHeaders msg).

(** ** alert *)

(** [MaxMessagePayload - maxSignatureSize - MaxVarIntPayload - 1] less the fixed
    part and a count, in units of 4 and of 256 bytes. *)
Notation maxCountSetCancel := 8388574 (only parsing).
Notation maxCountSetSubVer := 131071 (only parsing).

Record Alert := mkAlert {
  al_Version : Z;
  al_RelayUntil : Z;
  al_Expiration : Z;
  al_ID : Z;
  al_Cancel : Z;
  al_SetCancel : list Z;
  al_MinVer : Z;
  al_MaxVer : Z;
  al_SetSubVer : list bytes;
  al_Priority : Z;
  al_Comment : bytes;
  al_StatusBar : bytes;
  al_Reserved : bytes }.

Definition Alert_Serialize (alert : Alert) : RM unit :=
  writeInt TInt32 (al_Version alert) ;;
  writeInt TInt64 (al_RelayUntil alert) ;;
  writeInt TInt64 (al_Expiration alert) ;;
  writeInt TInt32 (al_ID alert) ;;
  writeInt TInt32 (al_Cancel alert) ;;
  let count := zlen (al_SetCancel alert) in
  if count >? maxCountSetCancel then failM (MessageError "Alert.Serialize") else
  WriteVarInt (u64 count) ;;
  writeAll (writeInt TInt32) (al_SetCancel alert) ;;
  writeInt TInt32 (al_MinVer alert) ;;
  writeInt TInt32 (al_MaxVer alert) ;;
  let count := zlen (al_SetSubVer alert) in
  if count >? maxCountSetSubVer then failM (MessageError "Alert.Serialize") else
  WriteVarInt (u64 count) ;;
  writeAll WriteVarString (al_SetSubVer alert) ;;
  writeInt TInt32 (al_Priority alert) ;;
  WriteVarString (al_Comment alert) ;;
  WriteVarString (al_StatusBar alert) ;;
  WriteVarString (al_Reserved alert).

Definition Alert_Deserialize : RM Alert :=
  version <- readInt TInt32 ;;
  relayUntil <- readInt TInt64 ;;
  expiration <- readInt TInt64 ;;
  id <- readInt TInt32 ;;
  cancel <- readInt TInt32 ;;
  count <- ReadVarInt ;;
  if count >? maxCountSetCancel then failM (MessageError "Alert.Deserialize") else
  setCancel <- repeatM (Z.to_nat count) (readInt TInt32) ;;
  minVer <- readInt TInt32 ;;
  maxVer <- readInt TInt32 ;;
  count <- ReadVarInt ;;
  if count >? maxCountSetSubVer then failM (MessageError "Alert.Deserialize") else
  setSubVer <- repeatM (Z.to_nat count) ReadVarString ;;
  priority <- readInt TInt32 ;;
  comment <- ReadVarString ;;
  statusBar <- ReadVarString ;;
  reserved <- ReadVarString ;;
  retM (mkAlert version relayUntil expiration id cancel setCancel minVer maxVer setSubVer priority
          comment statusBar reserved).

Definition NewAlertFromPayload (serializedPayload : bytes) : outcome WireErr Alert :=
  (Alert_Deserialize serializedPayload).1.

(** [Payload] is a pointer. *)
Record MsgAlert := mkMsgAlert {
  mal_SerializedPayload : bytes; mal_Signature : bytes; mal_Payload : option Alert }.

Definition MsgAlert_ThtDecode : RM MsgAlert :=
  serializedPayload <- ReadVarBytes MaxMessagePayload ;;
  payload <- liftO (match NewAlertFromPayload serializedPayload with
                    | Ret alert => Ret (Some alert)
                    | Fail _ => Ret None
                    | Crash => Crash
                    | NoFuel => NoFuel
                    end) ;;
  signature <- ReadVarBytes MaxMessagePayload ;;
  retM (mkMsgAlert serializedPayload signature payload).

Definition MsgAlert_ThtEncode (msg : MsgAlert) : RM unit :=
  serializedpayload <-
    liftO (match mal_Payload msg with
           | Some payload =>
               match Alert_Serialize payload [] with
               | (Ret _, r) => Ret r
               | (Fail _, _) => Ret (mal_SerializedPayload msg)
               | (Crash, _) => Crash
               | (NoFuel, _) => NoFuel
               end
           | None => Ret (mal_SerializedPayload msg)
           end) ;;
  let slen := u64 (zlen serializedpayload) in
  if slen =? 0 then failM (MessageError "MsgAlert.ThtEncode") else
  WriteVarBytes serializedpayload ;;
  WriteVarBytes (mal_Signature msg).
