(* ===== verification/WireMsgCodecs.v ===== *)
(** Encodings of the peer-to-peer messages.

    For every message the bytes its encoder writes, and the instances of the
    classes of [WireCodec]: the encoder writes them, the decoder reads them back,
    and, for the messages of which the decoder accepts nothing else, that too. *)

From Stdlib Require Import Strings.String.
From S2P Require Import Prelude WireCommon WireCodec WireTx WireBlock WireMsgs.

(** ** Inventory vectors and addresses *)

Definition iv_wf (iv : InvVect) : Prop := int_range TInvType (iv_Type iv) /\ bytes_wf THash (iv_Hash iv).
Definition iv_bytes (iv : InvVect) : bytes := int_bytes TInvType (iv_Type iv) ++ raw (iv_Hash iv).

#[export] Instance writeInvVect_writes : Writes writeInvVect iv_wf iv_bytes.
Proof. intros [t h] w [Ht Hh]. unfold writeInvVect, iv_bytes. cbn [iv_Type iv_Hash] in *. run_writes. Qed.
#[export] Instance readInvVect_reads : Reads readInvVect iv_wf iv_bytes.
Proof. intros [t h] r [Ht Hh]. unfold readInvVect, iv_bytes. cbn [iv_Type iv_Hash] in *. run_reads. Qed.
#[export] Instance readInvVect_canon : Canon readInvVect iv_wf iv_bytes.
Proof.
  intros r iv r' H. unfold readInvVect in H. inv_reads H. injection H as <- <-.
  split; [done|]. unfold iv_bytes. cbn [iv_Type iv_Hash]. by rewrite <- !app_assoc.
Qed.
#[export] Instance readInvVect_no_panic : NoPanic readInvVect.
Proof. unfold readInvVect. apply _. Qed.

Definition port_bytes (v : Z) : bytes := rev (le_bytes 2 v).
Lemma zlen_port_bytes v : zlen (port_bytes v) = 2.
Proof. unfold port_bytes. by autorewrite with zlen. Qed.
#[export] Hint Rewrite zlen_port_bytes : zlen.

#[export] Instance PutUint16BE_writes : Writes PutUint16BE (fun v => 0 <= v < 2 ^ 16) port_bytes.
Proof. done. Qed.
#[export] Instance Uint16BE_reads : Reads Uint16BE (fun v => 0 <= v < 2 ^ 16) port_bytes.
Proof.
  intros v r Hv. unfold Uint16BE. erewrite bindM_step by (apply ReadFull_app, zlen_port_bytes).
  unfold retM, port_bytes. by rewrite be_val_rev, le_val_le_bytes, Z.mod_small.
Qed.
#[export] Instance Uint16BE_canon : Canon Uint16BE (fun v => 0 <= v < 2 ^ 16) port_bytes.
Proof.
  intros r v r' H. unfold Uint16BE in H. inv_bind H. injection H as <- <-.
  apply ReadFull_spec in Hm as [-> Hl]; [|lia]. rewrite be_val_le.
  pose proof (le_val_bound (rev a)) as Hb. rewrite zlen_rev, Hl in Hb. split; [lia|]. f_equal.
  unfold port_bytes. replace 2%nat with (length (rev a)) by (rewrite length_rev; unfold zlen in Hl; lia).
  by rewrite le_bytes_le_val, rev_involutive.
Qed.
#[export] Instance Uint16BE_no_panic : NoPanic Uint16BE.
Proof. unfold Uint16BE. apply _. Qed.

(** [t0] is the timestamp of the receiver, which is kept where none is sent. *)
Definition na_timed (pver : Z) (ts : bool) : bool := ts && (pver >=? NetAddressTimeVersion).
Definition na_wf (pver : Z) (ts : bool) (t0 : Z) (na : NetAddress) : Prop :=
  (if na_timed pver ts then int_range TUint32 (na_Timestamp na) else na_Timestamp na = t0)
  /\ int_range TServiceFlag (na_Services na) /\ bytes_wf TIP (na_IP na) /\ 0 <= na_Port na < 2 ^ 16.
Definition na_bytes (pver : Z) (ts : bool) (na : NetAddress) : bytes :=
  (if na_timed pver ts then int_bytes TUint32Time (na_Timestamp na) else [])
  ++ int_bytes TServiceFlag (na_Services na) ++ raw (na_IP na) ++ port_bytes (na_Port na).

Lemma ip_array_16 ip : zlen ip = 16 -> ip_array ip = ip.
Proof.
  intros Hl. unfold ip_array, To16. rewrite Hl. cbn [Z.eqb Pos.eqb].
  assert (length ip = 16%nat) as E by (unfold zlen in Hl; lia).
  by rewrite E, take_ge, app_nil_r by lia.
Qed.
#[export] Instance writeNetAddress_writes pver ts t0 :
  Writes (writeNetAddress pver ts) (na_wf pver ts t0) (na_bytes pver ts).
Proof.
  intros [t s ip p] w (Ht & Hs & Hi & Hp). unfold writeNetAddress, na_bytes, na_timed in *.
  cbn [na_Timestamp na_Services na_IP na_Port] in *. cbv zeta. rewrite ip_array_16 by exact Hi.
  destruct (ts && (pver >=? NetAddressTimeVersion)).
  - change (int_bytes TUint32Time t) with (int_bytes TUint32 t). rewrite (u32_id t) by exact Ht. run_writes.
  - erewrite bindM_step by reflexivity. change ([] ++ ?x) with x. run_writes.
Qed.
#[export] Instance readNetAddress_reads pver ts na0 :
  Reads (readNetAddress pver na0 ts) (na_wf pver ts (na_Timestamp na0)) (na_bytes pver ts).
Proof.
  intros [t s ip p] r (Ht & Hs & Hi & Hp). unfold readNetAddress, na_bytes, na_timed in *.
  cbn [na_Timestamp na_Services na_IP na_Port] in *.
  destruct (ts && (pver >=? NetAddressTimeVersion)); [run_reads|].
  subst t. erewrite bindM_step by reflexivity. change ([] ++ ?x) with x. run_reads.
Qed.
#[export] Instance readNetAddress_canon pver ts na0 :
  Canon (readNetAddress pver na0 ts) (na_wf pver ts (na_Timestamp na0)) (na_bytes pver ts).
Proof.
  intros r na r' H. unfold readNetAddress in H. do 4 inv_bind H. injection H as <- <-.
  apply canon in Hm0 as [? ->], Hm1 as [? ->], Hm2 as [? ->]. unfold na_wf, na_bytes, na_timed.
  destruct (ts && (pver >=? NetAddressTimeVersion)).
  - apply canon in Hm as [? ->]. split; [done|]. cbn [na_Timestamp na_Services na_IP na_Port].
    by rewrite <- !app_assoc.
  - apply retM_inv in Hm as [-> ->]. split; [done|]. cbn [na_Timestamp na_Services na_IP na_Port].
    by rewrite <- !app_assoc.
Qed.
#[export] Instance readNetAddress_no_panic pver ts na0 : NoPanic (readNetAddress pver na0 ts).
Proof. unfold readNetAddress. apply _. Qed.

(** ** Inventories *)

Definition inv_bytes (l : list InvVect) : bytes := counted iv_bytes l.
Definition inv_wf (l : list InvVect) : Prop := zlen l <= MaxInvPerMsg /\ Forall iv_wf l.

(** The three messages differ in the names of their types and errors only. *)
Ltac inv_write := intros [l] w [Hn Hl]; unfold inv_bytes, counted; cbn [inv_InvList gd_InvList nf_InvList] in *;
  pose proof (zlen_nonneg l); rewrite ?u64_id by lia; run_writes.

#[export] Instance MsgInv_writes :
  Writes MsgInv_ThtEncode (fun m => inv_wf (inv_InvList m)) (fun m => inv_bytes (inv_InvList m)).
Proof. unfold MsgInv_ThtEncode. cbv zeta. inv_write. Qed.
#[export] Instance MsgGetData_writes :
  Writes MsgGetData_ThtEncode (fun m => inv_wf (gd_InvList m)) (fun m => inv_bytes (gd_InvList m)).
Proof. unfold MsgGetData_ThtEncode. cbv zeta. inv_write. Qed.
#[export] Instance MsgNotFound_writes :
  Writes MsgNotFound_ThtEncode (fun m => inv_wf (nf_InvList m)) (fun m => inv_bytes (nf_InvList m)).
Proof. unfold MsgNotFound_ThtEncode. cbv zeta. inv_write. Qed.

#[export] Instance MsgInv_reads :
  Reads MsgInv_ThtDecode (fun m => inv_wf (inv_InvList m)) (fun m => inv_bytes (inv_InvList m)).
Proof.
  intros [l] r [Hn Hl]. unfold inv_bytes. cbn [inv_InvList] in *.
  read_counted readInvVect iv_wf iv_bytes mkMsgInv ltac:(unfold MsgInv_AddInvVect; cbn [inv_InvList]).
Qed.
#[export] Instance MsgGetData_reads :
  Reads MsgGetData_ThtDecode (fun m => inv_wf (gd_InvList m)) (fun m => inv_bytes (gd_InvList m)).
Proof.
  intros [l] r [Hn Hl]. unfold inv_bytes. cbn [gd_InvList] in *.
  read_counted readInvVect iv_wf iv_bytes mkMsgGetData ltac:(unfold MsgGetData_AddInvVect; cbn [gd_InvList]).
Qed.
#[export] Instance MsgNotFound_reads :
  Reads MsgNotFound_ThtDecode (fun m => inv_wf (nf_InvList m)) (fun m => inv_bytes (nf_InvList m)).
Proof.
  intros [l] r [Hn Hl]. unfold inv_bytes. cbn [nf_InvList] in *.
  read_counted readInvVect iv_wf iv_bytes mkMsgNotFound ltac:(unfold MsgNotFound_AddInvVect; cbn [nf_InvList]).
Qed.

#[export] Instance MsgInv_canon :
  Canon MsgInv_ThtDecode (fun m => inv_wf (inv_InvList m)) (fun m => inv_bytes (inv_InvList m)).
Proof.
  intros r msg r' H.
  canon_counted H readInvVect iv_wf iv_bytes mkMsgInv ltac:(unfold MsgInv_AddInvVect; cbn [inv_InvList]).
  by destruct H as (l & -> & Hn & Hl & ->).
Qed.
#[export] Instance MsgGetData_canon :
  Canon MsgGetData_ThtDecode (fun m => inv_wf (gd_InvList m)) (fun m => inv_bytes (gd_InvList m)).
Proof.
  intros r msg r' H.
  canon_counted H readInvVect iv_wf iv_bytes mkMsgGetData ltac:(unfold MsgGetData_AddInvVect; cbn [gd_InvList]).
  by destruct H as (l & -> & Hn & Hl & ->).
Qed.
#[export] Instance MsgNotFound_canon :
  Canon MsgNotFound_ThtDecode (fun m => inv_wf (nf_InvList m)) (fun m => inv_bytes (nf_InvList m)).
Proof.
  intros r msg r' H.
  canon_counted H readInvVect iv_wf iv_bytes mkMsgNotFound ltac:(unfold MsgNotFound_AddInvVect; cbn [nf_InvList]).
  by destruct H as (l & -> & Hn & Hl & ->).
Qed.

#[export] Instance MsgInv_no_panic : NoPanic MsgInv_ThtDecode.
Proof. unfold MsgInv_ThtDecode. apply _. Qed.
#[export] Instance MsgGetData_no_panic : NoPanic MsgGetData_ThtDecode.
Proof. unfold MsgGetData_ThtDecode. apply _. Qed.
#[export] Instance MsgNotFound_no_panic : NoPanic MsgNotFound_ThtDecode.
Proof. unfold MsgNotFound_ThtDecode. apply _. Qed.

(** ** addr *)

Definition addr_wf (pver : Z) (msg : MsgAddr) : Prop :=
  zlen (ma_AddrList msg) <= MaxAddrPerMsg
  /\ (pver < MultipleAddressVersion -> zlen (ma_AddrList msg) <= 1)
  /\ Forall (na_wf pver true zeroTime) (ma_AddrList msg).
Definition addr_bytes (pver : Z) (msg : MsgAddr) : bytes := counted (na_bytes pver true) (ma_AddrList msg).

#[export] Instance MsgAddr_writes pver : Writes (MsgAddr_ThtEncode pver) (addr_wf pver) (addr_bytes pver).
Proof.
  intros [l] w (Hn & H1 & Hl). unfold MsgAddr_ThtEncode, addr_bytes, counted. cbn [ma_AddrList] in *.
  pose proof (zlen_nonneg l). cbv zeta. rewrite u64_id by lia.
  replace ((pver <? MultipleAddressVersion) && (zlen l >? 1)) with false.
  - run_writes.
  - symmetry. destruct (Z.ltb_spec pver MultipleAddressVersion); [|done]. cbn. specialize (H1 ltac:(lia)). by ztest.
Qed.
#[export] Instance MsgAddr_reads pver : Reads (MsgAddr_ThtDecode pver) (addr_wf pver) (addr_bytes pver).
Proof.
  intros [l] r (Hn & H1 & Hl). unfold addr_bytes. cbn [ma_AddrList] in *.
  read_counted (readNetAddress pver zeroNetAddress true) (na_wf pver true zeroTime) (na_bytes pver true)
    mkMsgAddr ltac:(unfold AddAddress; cbn [ma_AddrList]).
Qed.
#[export] Instance MsgAddr_no_panic pver : NoPanic (MsgAddr_ThtDecode pver).
Proof. unfold MsgAddr_ThtDecode. apply _. Qed.

(** ** getblocks and getheaders *)

Definition locator_wf (version : Z) (hashes : list bytes) (stop : bytes) : Prop :=
  int_range TUint32 version /\ zlen hashes <= MaxBlockLocatorsPerMsg
  /\ Forall (bytes_wf THash) hashes /\ bytes_wf THash stop.
Definition locator_bytes (version : Z) (hashes : list bytes) (stop : bytes) : bytes :=
  int_bytes TUint32 version ++ counted raw hashes ++ raw stop.
Definition getblocks_wf (m : MsgGetBlocks) : Prop :=
  locator_wf (gb_ProtocolVersion m) (gb_BlockLocatorHashes m) (gb_HashStop m).
Definition getblocks_bytes (m : MsgGetBlocks) : bytes :=
  locator_bytes (gb_ProtocolVersion m) (gb_BlockLocatorHashes m) (gb_HashStop m).
Definition getheaders_wf (m : MsgGetHeaders) : Prop :=
  locator_wf (gh_ProtocolVersion m) (gh_BlockLocatorHashes m) (gh_HashStop m).
Definition getheaders_bytes (m : MsgGetHeaders) : bytes :=
  locator_bytes (gh_ProtocolVersion m) (gh_BlockLocatorHashes m) (gh_HashStop m).

Ltac locator_write := intros [v l s] w (Hv & Hn & Hl & Hs);
  unfold getblocks_bytes, getheaders_bytes, locator_bytes, counted;
  cbn [gb_ProtocolVersion gb_BlockLocatorHashes gb_HashStop
       gh_ProtocolVersion gh_BlockLocatorHashes gh_HashStop] in *;
  pose proof (zlen_nonneg l); rewrite ?u64_id by lia; run_writes.

#[export] Instance MsgGetBlocks_writes : Writes MsgGetBlocks_ThtEncode getblocks_wf getblocks_bytes.
Proof. unfold MsgGetBlocks_ThtEncode. cbv zeta. locator_write. Qed.
#[export] Instance MsgGetHeaders_writes : Writes MsgGetHeaders_ThtEncode getheaders_wf getheaders_bytes.
Proof. unfold MsgGetHeaders_ThtEncode. cbv zeta. locator_write. Qed.

(** A counted loop in the middle of a decoder. *)
Lemma counted_bind {A B C} (f : RM A) (add : A -> B -> outcome WireErr B) (mk : list A -> B) max err
    (k : B -> RM C) r :
  (count <- ReadVarInt ;; if count >? max then failM err else
   msg <- readInto (Z.to_nat count) f add (mk []) ;; k msg) r
  = (msg <- readCounted f mk add max err ;; k msg) r.
Proof.
  unfold readCounted. rewrite bindM_assoc. apply bindM_ext. intros c t _. by case_match.
Qed.

#[export] Instance MsgGetBlocks_reads : Reads MsgGetBlocks_ThtDecode getblocks_wf getblocks_bytes.
Proof.
  intros [v l s] r (Hv & Hn & Hl & Hs). unfold MsgGetBlocks_ThtDecode, getblocks_bytes, locator_bytes.
  cbn [gb_ProtocolVersion gb_BlockLocatorHashes gb_HashStop] in *. rewrite <- !app_assoc. step_reads.
  rewrite (counted_bind _ _ (fun l => mkMsgGetBlocks v l [])). erewrite bindM_step.
  2:{ read_counted (readBytes THash) (bytes_wf THash) raw (fun l => mkMsgGetBlocks v l [])
        ltac:(unfold MsgGetBlocks_AddBlockLocatorHash; cbn). }
  run_reads.
Qed.
#[export] Instance MsgGetHeaders_reads : Reads MsgGetHeaders_ThtDecode getheaders_wf getheaders_bytes.
Proof.
  intros [v l s] r (Hv & Hn & Hl & Hs). unfold MsgGetHeaders_ThtDecode, getheaders_bytes, locator_bytes.
  cbn [gh_ProtocolVersion gh_BlockLocatorHashes gh_HashStop] in *. rewrite <- !app_assoc. step_reads.
  rewrite (counted_bind _ _ (fun l => mkMsgGetHeaders v l [])). erewrite bindM_step.
  2:{ read_counted (readBytes THash) (bytes_wf THash) raw (fun l => mkMsgGetHeaders v l [])
        ltac:(unfold MsgGetHeaders_AddBlockLocatorHash; cbn). }
  run_reads.
Qed.
#[export] Instance MsgGetBlocks_no_panic : NoPanic MsgGetBlocks_ThtDecode.
Proof. unfold MsgGetBlocks_ThtDecode. apply _. Qed.
#[export] Instance MsgGetHeaders_no_panic : NoPanic MsgGetHeaders_ThtDecode.
Proof. unfold MsgGetHeaders_ThtDecode. apply _. Qed.

(** ** ping, pong and feefilter *)

Definition ping_wf (pver : Z) (m0 m : MsgPing) : Prop :=
  if pver >? BIP0031Version then int_range TUint64 (ping_Nonce m) else m = m0.
Definition ping_bytes (pver : Z) (m : MsgPing) : bytes :=
  if pver >? BIP0031Version then int_bytes TUint64 (ping_Nonce m) else [].
#[export] Instance MsgPing_writes pver m0 : Writes (MsgPing_ThtEncode pver) (ping_wf pver m0) (ping_bytes pver).
Proof.
  intros [n] w Hn. unfold MsgPing_ThtEncode, ping_wf, ping_bytes in *. destruct (pver >? BIP0031Version).
  - cbn [ping_Nonce] in *. run_writes.
  - unfold retM. by rewrite app_nil_r.
Qed.
#[export] Instance MsgPing_reads pver m0 : Reads (MsgPing_ThtDecode pver m0) (ping_wf pver m0) (ping_bytes pver).
Proof.
  intros [n] r Hn. unfold MsgPing_ThtDecode, ping_wf, ping_bytes in *. destruct (pver >? BIP0031Version).
  - cbn [ping_Nonce] in *. run_reads.
  - by subst m0.
Qed.
#[export] Instance MsgPing_no_panic pver m : NoPanic (MsgPing_ThtDecode pver m).
Proof. unfold MsgPing_ThtDecode. apply _. Qed.

Definition pong_wf (pver : Z) (m : MsgPong) : Prop := BIP0031Version < pver /\ int_range TUint64 (pong_Nonce m).
Definition pong_bytes (m : MsgPong) : bytes := int_bytes TUint64 (pong_Nonce m).
#[export] Instance MsgPong_writes pver : Writes (MsgPong_ThtEncode pver) (pong_wf pver) pong_bytes.
Proof. intros [n] w [Hp Hn]. unfold MsgPong_ThtEncode, pong_bytes. cbn [pong_Nonce] in *. run_writes. Qed.
#[export] Instance MsgPong_reads pver : Reads (MsgPong_ThtDecode pver) (pong_wf pver) pong_bytes.
Proof. intros [n] r [Hp Hn]. unfold MsgPong_ThtDecode, pong_bytes. cbn [pong_Nonce] in *. run_reads. Qed.
#[export] Instance MsgPong_no_panic pver : NoPanic (MsgPong_ThtDecode pver).
Proof. unfold MsgPong_ThtDecode. apply _. Qed.

Definition feefilter_wf (pver : Z) (m : MsgFeeFilter) : Prop :=
  FeeFilterVersion <= pver /\ int_range TInt64 (ff_MinFee m).
Definition feefilter_bytes (m : MsgFeeFilter) : bytes := int_bytes TInt64 (ff_MinFee m).
#[export] Instance MsgFeeFilter_writes pver :
  Writes (MsgFeeFilter_ThtEncode pver) (feefilter_wf pver) feefilter_bytes.
Proof. intros [n] w [Hp Hn]. unfold MsgFeeFilter_ThtEncode, feefilter_bytes. cbn [ff_MinFee] in *. run_writes. Qed.
#[export] Instance MsgFeeFilter_reads pver :
  Reads (MsgFeeFilter_ThtDecode pver) (feefilter_wf pver) feefilter_bytes.
Proof. intros [n] r [Hp Hn]. unfold MsgFeeFilter_ThtDecode, feefilter_bytes. cbn [ff_MinFee] in *. run_reads. Qed.
#[export] Instance MsgFeeFilter_no_panic pver : NoPanic (MsgFeeFilter_ThtDecode pver).
Proof. unfold MsgFeeFilter_ThtDecode. apply _. Qed.

(** ** filteradd and filterload *)

Definition filteradd_wf (pver : Z) (m : MsgFilterAdd) : Prop :=
  BIP0037Version <= pver /\ zlen (fa_Data m) <= MaxFilterAddDataSize.
Definition filteradd_bytes (m : MsgFilterAdd) : bytes := varbytes (fa_Data m).
#[export] Instance MsgFilterAdd_writes pver :
  Writes (MsgFilterAdd_ThtEncode pver) (filteradd_wf pver) filteradd_bytes.
Proof. intros [d] w [Hp Hn]. unfold MsgFilterAdd_ThtEncode, filteradd_bytes. cbn [fa_Data] in *. cbv zeta. run_writes. Qed.
#[export] Instance MsgFilterAdd_reads pver :
  Reads (MsgFilterAdd_ThtDecode pver) (filteradd_wf pver) filteradd_bytes.
Proof. intros [d] r [Hp Hn]. unfold MsgFilterAdd_ThtDecode, filteradd_bytes. cbn [fa_Data] in *. run_reads. Qed.
#[export] Instance MsgFilterAdd_no_panic pver : NoPanic (MsgFilterAdd_ThtDecode pver).
Proof. unfold MsgFilterAdd_ThtDecode. apply _. Qed.

Definition filterload_wf (pver : Z) (m : MsgFilterLoad) : Prop :=
  BIP0037Version <= pver /\ zlen (fl_Filter m) <= MaxFilterLoadFilterSize
  /\ 0 <= fl_HashFuncs m <= MaxFilterLoadHashFuncs /\ int_range TUint32 (fl_Tweak m)
  /\ int_range TBloomUpdateType (fl_Flags m).
Definition filterload_bytes (m : MsgFilterLoad) : bytes :=
  varbytes (fl_Filter m) ++ int_bytes TUint32 (fl_HashFuncs m) ++ int_bytes TUint32 (fl_Tweak m)
  ++ int_bytes TBloomUpdateType (fl_Flags m).
Lemma hashFuncs_range n : 0 <= n <= MaxFilterLoadHashFuncs -> int_range TUint32 n.
Proof. cbn. lia. Qed.
#[export] Instance MsgFilterLoad_writes pver :
  Writes (MsgFilterLoad_ThtEncode pver) (filterload_wf pver) filterload_bytes.
Proof.
  intros [f h t g] w (Hp & Hn & Hh & Ht & Hg). unfold MsgFilterLoad_ThtEncode, filterload_bytes.
  cbn [fl_Filter fl_HashFuncs fl_Tweak fl_Flags] in *. cbv zeta.
  pose proof (hashFuncs_range h Hh). run_writes.
Qed.
#[export] Instance MsgFilterLoad_reads pver :
  Reads (MsgFilterLoad_ThtDecode pver) (filterload_wf pver) filterload_bytes.
Proof.
  intros [f h t g] r (Hp & Hn & Hh & Ht & Hg). unfold MsgFilterLoad_ThtDecode, filterload_bytes.
  cbn [fl_Filter fl_HashFuncs fl_Tweak fl_Flags] in *.
  pose proof (hashFuncs_range h Hh). run_reads.
Qed.
#[export] Instance MsgFilterLoad_no_panic pver : NoPanic (MsgFilterLoad_ThtDecode pver).
Proof. unfold MsgFilterLoad_ThtDecode. apply _. Qed.

(** ** reject *)

Definition reject_wf (pver : Z) (m0 m : MsgReject) : Prop :=
  RejectVersion <= pver /\ zlen (rj_Cmd m) <= MaxMessagePayload /\ int_range TRejectCode (rj_Code m)
  /\ zlen (rj_Reason m) <= MaxMessagePayload
  /\ (if reject_has_hash (rj_Cmd m) then bytes_wf THash (rj_Hash m) else rj_Hash m = rj_Hash m0).
Definition reject_bytes (m : MsgReject) : bytes :=
  varbytes (rj_Cmd m) ++ int_bytes TRejectCode (rj_Code m) ++ varbytes (rj_Reason m)
  ++ (if reject_has_hash (rj_Cmd m) then raw (rj_Hash m) else []).
#[export] Instance MsgReject_writes pver m0 : Writes (MsgReject_ThtEncode pver) (reject_wf pver m0) reject_bytes.
Proof.
  intros [c k s h] w (Hp & Hc & Hk & Hs & Hh). unfold MsgReject_ThtEncode, reject_bytes.
  cbn [rj_Cmd rj_Code rj_Reason rj_Hash] in *. destruct (reject_has_hash c); run_writes.
  unfold retM. by rewrite app_nil_r.
Qed.
#[export] Instance MsgReject_reads pver m0 : Reads (MsgReject_ThtDecode pver m0) (reject_wf pver m0) reject_bytes.
Proof.
  intros [c k s h] r (Hp & Hc & Hk & Hs & Hh). unfold MsgReject_ThtDecode, reject_bytes.
  cbn [rj_Cmd rj_Code rj_Reason rj_Hash] in *. rewrite <- !app_assoc. ztest. do 3 step_reads.
  destruct (reject_has_hash c); [run_reads|]. subst h. done.
Qed.
#[export] Instance MsgReject_no_panic pver m : NoPanic (MsgReject_ThtDecode pver m).
Proof. unfold MsgReject_ThtDecode. apply _. Qed.

(** ** version *)

Definition version_wf (pver : Z) (m0 m : MsgVersion) : Prop :=
  int_range TInt32 (mv_ProtocolVersion m) /\ int_range TServiceFlag (mv_Services m)
  /\ int_range TInt64 (mv_Timestamp m)
  /\ na_wf pver false (na_Timestamp (mv_AddrYou m0)) (mv_AddrYou m)
  /\ na_wf pver false (na_Timestamp (mv_AddrMe m0)) (mv_AddrMe m)
  /\ int_range TUint64 (mv_Nonce m) /\ zlen (mv_UserAgent m) <= MaxUserAgentLen
  /\ int_range TInt32 (mv_LastBlock m)
  /\ (pver < BIP0037Version -> mv_DisableRelayTx m = mv_DisableRelayTx m0).
Definition version_tail (pver : Z) (m : MsgVersion) : bytes :=
  if pver >=? BIP0037Version then bool_bytes (negb (mv_DisableRelayTx m)) else [].
Definition version_bytes (pver : Z) (m : MsgVersion) : bytes :=
  int_bytes TInt32 (mv_ProtocolVersion m) ++ int_bytes TServiceFlag (mv_Services m)
  ++ int_bytes TInt64Time (mv_Timestamp m) ++ na_bytes pver false (mv_AddrYou m)
  ++ na_bytes pver false (mv_AddrMe m) ++ int_bytes TUint64 (mv_Nonce m)
  ++ varbytes (mv_UserAgent m) ++ int_bytes TInt32 (mv_LastBlock m) ++ version_tail pver m.

Lemma validateUserAgent_ok ua : zlen ua <= MaxUserAgentLen -> validateUserAgent ua = Ret tt.
Proof. intros H. unfold validateUserAgent. by ztest. Qed.

#[export] Instance MsgVersion_writes pver m0 :
  Writes (MsgVersion_ThtEncode pver) (version_wf pver m0) (version_bytes pver).
Proof.
  intros [v s t ay am n ua lb d] w (Hv & Hs & Ht & Hy & Hm & Hn & Hu & Hl & Hd).
  unfold MsgVersion_ThtEncode, version_bytes, version_tail.
  cbn [mv_ProtocolVersion mv_Services mv_Timestamp mv_AddrYou mv_AddrMe mv_Nonce mv_UserAgent
    mv_LastBlock mv_DisableRelayTx] in *. rewrite validateUserAgent_ok by done.
  change (int_bytes TInt64Time t) with (int_bytes TInt64 t).
  erewrite bindM_step by reflexivity. do 8 step_writes.
  destruct (pver >=? BIP0037Version); [run_writes|]. unfold retM. by rewrite app_nil_r, <- !app_assoc.
Qed.

(** A field that is there is read. *)
Lemma ifMore_reads {A} (m : RM A) wf enc `{!Reads m wf enc} keep a r :
  wf a -> 0 < zlen (enc a) -> ifMore m keep (enc a ++ r) = (Ret a, r).
Proof.
  intros Ha He. unfold ifMore. erewrite bindM_step by reflexivity.
  rewrite zlen_app. pose proof (zlen_nonneg r). ztest. by apply reads.
Qed.

Lemma zlen_na_bytes pver ts t0 na :
  na_wf pver ts t0 na -> zlen (na_bytes pver ts na) = 26 + (if na_timed pver ts then 4 else 0).
Proof.
  intros (_ & _ & Hi & _). unfold na_bytes, bytes_wf in *. destruct (na_timed pver ts);
    autorewrite with zlen; rewrite Hi; done.
Qed.

Definition userAgentReader : RM bytes :=
  userAgent <- ReadVarString ;; liftO (validateUserAgent userAgent) ;; retM userAgent.
#[export] Instance userAgent_reads :
  Reads userAgentReader (fun ua => zlen ua <= MaxUserAgentLen) varbytes.
Proof.
  intros ua r Hu. unfold userAgentReader. step_reads. rewrite validateUserAgent_ok by done. done.
Qed.

Definition relayReader : RM bool := relayTx <- orElse readBool false ;; retM (negb relayTx).
#[export] Instance relay_reads : Reads relayReader (fun _ => True) (fun d => bool_bytes (negb d)).
Proof.
  intros d r _. unfold relayReader, orElse, bindM. rewrite reads by done. unfold retM.
  by rewrite negb_involutive.
Qed.

Lemma VarIntSerializeSize_range v : 1 <= VarIntSerializeSize v <= 9.
Proof. unfold VarIntSerializeSize. repeat case_match; lia. Qed.
Lemma varbytes_pos bs : 0 < zlen (varbytes bs).
Proof.
  rewrite zlen_varbytes. pose proof (VarIntSerializeSize_range (zlen bs)). pose proof (zlen_nonneg bs). lia.
Qed.

(** The decoder looks for more fields until the buffer is used up. *)
#[export] Instance MsgVersion_reads pver m0 :
  ReadsAll (MsgVersion_ThtDecode pver m0) (version_wf pver m0) (version_bytes pver).
Proof.
  intros [v s t ay am n ua lb d] (Hv & Hs & Ht & Hy & Hm & Hn & Hu & Hl & Hd).
  unfold MsgVersion_ThtDecode, version_bytes, version_tail. fold userAgentReader relayReader.
  cbn [mv_ProtocolVersion mv_Services mv_Timestamp mv_AddrYou mv_AddrMe mv_Nonce mv_UserAgent
    mv_LastBlock mv_DisableRelayTx] in *. do 4 step_reads.
  erewrite bindM_step by (eapply ifMore_reads; [apply _|done|by rewrite (zlen_na_bytes _ _ _ _ Hm)]).
  erewrite bindM_step by (eapply ifMore_reads; [apply _|done|by rewrite zlen_int_bytes]).
  erewrite bindM_step by (eapply ifMore_reads; [apply _|done|apply varbytes_pos]).
  erewrite bindM_step by (eapply ifMore_reads; [apply _|done|by rewrite zlen_int_bytes]).
  destruct (Z.geb_spec pver BIP0037Version) as [Hp|Hp].
  - rewrite <- (app_nil_r (bool_bytes _)).
    by erewrite bindM_step by (eapply (ifMore_reads _ _ (fun d => bool_bytes (negb d)) _ d); done).
  - rewrite Hd by lia. done.
Qed.

#[export] Instance ifMore_no_panic {A} (m : RM A) keep : NoPanic m -> NoPanic (ifMore m keep).
Proof. intros Hm. unfold ifMore. apply _. Qed.
#[export] Instance orElse_no_panic {A} (m : RM A) d : NoPanic m -> NoPanic (orElse m d).
Proof. intros Hm r. specialize (Hm r). unfold orElse. by destruct (m r) as [[] ?]. Qed.
#[export] Instance validate_no_panic {S} ua : NoPanic (liftO (validateUserAgent ua) : M S WireErr unit).
Proof. intros s. unfold liftO, validateUserAgent. cbn. by destruct (zlen ua >? MaxUserAgentLen). Qed.
#[export] Instance MsgVersion_no_panic pver m : NoPanic (MsgVersion_ThtDecode pver m).
Proof. unfold MsgVersion_ThtDecode. apply _. Qed.

(** ** Committed filters *)

Definition getcfilters_wf (m : MsgGetCFilters) : Prop :=
  int_range TUint8 (gcf_FilterType m) /\ int_range TUint32 (gcf_StartHeight m) /\ bytes_wf THash (gcf_StopHash m).
Definition getcfilters_bytes (m : MsgGetCFilters) : bytes :=
  int_bytes TUint8 (gcf_FilterType m) ++ int_bytes TUint32 (gcf_StartHeight m) ++ raw (gcf_StopHash m).
Definition getcfheaders_wf (m : MsgGetCFHeaders) : Prop :=
  int_range TUint8 (gch_FilterType m) /\ int_range TUint32 (gch_StartHeight m) /\ bytes_wf THash (gch_StopHash m).
Definition getcfheaders_bytes (m : MsgGetCFHeaders) : bytes :=
  int_bytes TUint8 (gch_FilterType m) ++ int_bytes TUint32 (gch_StartHeight m) ++ raw (gch_StopHash m).
Definition getcfcheckpt_wf (m : MsgGetCFCheckpt) : Prop :=
  int_range TUint8 (gcc_FilterType m) /\ bytes_wf THash (gcc_StopHash m).
Definition getcfcheckpt_bytes (m : MsgGetCFCheckpt) : bytes :=
  int_bytes TUint8 (gcc_FilterType m) ++ raw (gcc_StopHash m).
Definition cfilter_wf (m : MsgCFilter) : Prop :=
  int_range TUint8 (cf_FilterType m) /\ bytes_wf THash (cf_BlockHash m) /\ zlen (cf_Data m) <= MaxCFilterDataSize.
Definition cfilter_bytes (m : MsgCFilter) : bytes :=
  int_bytes TUint8 (cf_FilterType m) ++ raw (cf_BlockHash m) ++ varbytes (cf_Data m).
Definition cfheaders_wf (m : MsgCFHeaders) : Prop :=
  int_range TUint8 (cfh_FilterType m) /\ bytes_wf THash (cfh_StopHash m)
  /\ bytes_wf THash (cfh_PrevFilterHeader m) /\ zlen (cfh_FilterHashes m) <= MaxCFHeadersPerMsg
  /\ Forall (bytes_wf THash) (cfh_FilterHashes m).
Definition cfheaders_bytes (m : MsgCFHeaders) : bytes :=
  int_bytes TUint8 (cfh_FilterType m) ++ raw (cfh_StopHash m) ++ raw (cfh_PrevFilterHeader m)
  ++ counted raw (cfh_FilterHashes m).
Definition cfcheckpt_wf (m : MsgCFCheckpt) : Prop :=
  int_range TUint8 (cfc_FilterType m) /\ bytes_wf THash (cfc_StopHash m)
  /\ zlen (cfc_FilterHeaders m) <= maxCFHeadersLen /\ Forall (bytes_wf THash) (cfc_FilterHeaders m).
Definition cfcheckpt_bytes (m : MsgCFCheckpt) : bytes :=
  int_bytes TUint8 (cfc_FilterType m) ++ raw (cfc_StopHash m) ++ counted raw (cfc_FilterHeaders m).

#[export] Instance MsgGetCFilters_writes : Writes MsgGetCFilters_ThtEncode getcfilters_wf getcfilters_bytes.
Proof. intros m w (H1 & H2 & H3). unfold MsgGetCFilters_ThtEncode, getcfilters_bytes. run_writes. Qed.
#[export] Instance MsgGetCFilters_reads : Reads MsgGetCFilters_ThtDecode getcfilters_wf getcfilters_bytes.
Proof. intros [] r (H1 & H2 & H3). unfold MsgGetCFilters_ThtDecode, getcfilters_bytes. run_reads. Qed.
#[export] Instance MsgGetCFHeaders_writes : Writes MsgGetCFHeaders_ThtEncode getcfheaders_wf getcfheaders_bytes.
Proof. intros m w (H1 & H2 & H3). unfold MsgGetCFHeaders_ThtEncode, getcfheaders_bytes. run_writes. Qed.
#[export] Instance MsgGetCFHeaders_reads : Reads MsgGetCFHeaders_ThtDecode getcfheaders_wf getcfheaders_bytes.
Proof. intros [] r (H1 & H2 & H3). unfold MsgGetCFHeaders_ThtDecode, getcfheaders_bytes. run_reads. Qed.
#[export] Instance MsgGetCFCheckpt_writes : Writes MsgGetCFCheckpt_ThtEncode getcfcheckpt_wf getcfcheckpt_bytes.
Proof. intros m w (H1 & H2). unfold MsgGetCFCheckpt_ThtEncode, getcfcheckpt_bytes. run_writes. Qed.
#[export] Instance MsgGetCFCheckpt_reads : Reads MsgGetCFCheckpt_ThtDecode getcfcheckpt_wf getcfcheckpt_bytes.
Proof. intros [] r (H1 & H2). unfold MsgGetCFCheckpt_ThtDecode, getcfcheckpt_bytes. run_reads. Qed.
#[export] Instance MsgCFilter_writes : Writes MsgCFilter_ThtEncode cfilter_wf cfilter_bytes.
Proof. intros m w (H1 & H2 & H3). unfold MsgCFilter_ThtEncode, cfilter_bytes. cbv zeta. run_writes. Qed.
#[export] Instance MsgCFilter_reads : Reads MsgCFilter_ThtDecode cfilter_wf cfilter_bytes.
Proof. intros [] r (H1 & H2 & H3). unfold MsgCFilter_ThtDecode, cfilter_bytes. run_reads. Qed.

#[export] Instance MsgCFHeaders_writes : Writes MsgCFHeaders_ThtEncode cfheaders_wf cfheaders_bytes.
Proof.
  intros m w (H1 & H2 & H3 & H4 & H5). unfold MsgCFHeaders_ThtEncode, cfheaders_bytes, counted. cbv zeta.
  pose proof (zlen_nonneg (cfh_FilterHashes m)). rewrite u64_id by lia. run_writes.
Qed.
#[export] Instance MsgCFHeaders_reads : Reads MsgCFHeaders_ThtDecode cfheaders_wf cfheaders_bytes.
Proof.
  intros [t s p l] r (H1 & H2 & H3 & H4 & H5). unfold MsgCFHeaders_ThtDecode, cfheaders_bytes.
  cbn [cfh_FilterType cfh_StopHash cfh_PrevFilterHeader cfh_FilterHashes] in *.
  rewrite <- !app_assoc. do 3 step_reads.
  read_counted (readBytes THash) (bytes_wf THash) raw (mkMsgCFHeaders t s p) ltac:(unfold AddCFHash; cbn).
Qed.

#[export] Instance MsgCFCheckpt_writes : Writes MsgCFCheckpt_ThtEncode cfcheckpt_wf cfcheckpt_bytes.
Proof.
  intros m w (H1 & H2 & H3 & H4). unfold MsgCFCheckpt_ThtEncode, cfcheckpt_bytes, counted. cbv zeta.
  pose proof (zlen_nonneg (cfc_FilterHeaders m)). rewrite u64_id by lia. run_writes.
Qed.

(** Elements that are read into a slice of the announced length. *)
Lemma repeatM_counted {A B} (read : RM A) wf enc `{!Reads read wf enc} max err (k : list A -> RM B) l r :
  zlen l <= max < 2 ^ 64 -> Forall wf l ->
  (count <- ReadVarInt ;; if count >? max then failM err else
   x <- repeatM (Z.to_nat count) read ;; k x) (counted enc l ++ r) = k l r.
Proof.
  intros Hn Hl. pose proof (zlen_nonneg l). unfold counted. rewrite <- app_assoc. step_reads. ztest.
  rewrite zlen_to_nat. by erewrite bindM_step by (by apply (repeatM_reads' read wf enc)).
Qed.

#[export] Instance MsgCFCheckpt_reads : Reads MsgCFCheckpt_ThtDecode cfcheckpt_wf cfcheckpt_bytes.
Proof.
  intros [t s l] r (H1 & H2 & H3 & H4). unfold MsgCFCheckpt_ThtDecode, cfcheckpt_bytes.
  cbn [cfc_FilterType cfc_StopHash cfc_FilterHeaders] in *. rewrite <- !app_assoc. do 2 step_reads.
  by rewrite (repeatM_counted (readBytes THash) (bytes_wf THash) raw) by (done || lia).
Qed.

#[export] Instance MsgGetCFilters_no_panic : NoPanic MsgGetCFilters_ThtDecode.
Proof. unfold MsgGetCFilters_ThtDecode. apply _. Qed.
#[export] Instance MsgGetCFHeaders_no_panic : NoPanic MsgGetCFHeaders_ThtDecode.
Proof. unfold MsgGetCFHeaders_ThtDecode. apply _. Qed.
#[export] Instance MsgGetCFCheckpt_no_panic : NoPanic MsgGetCFCheckpt_ThtDecode.
Proof. unfold MsgGetCFCheckpt_ThtDecode. apply _. Qed.
#[export] Instance MsgCFilter_no_panic : NoPanic MsgCFilter_ThtDecode.
Proof. unfold MsgCFilter_ThtDecode. apply _. Qed.
#[export] Instance MsgCFHeaders_no_panic : NoPanic MsgCFHeaders_ThtDecode.
Proof. unfold MsgCFHeaders_ThtDecode. apply _. Qed.
#[export] Instance MsgCFCheckpt_no_panic : NoPanic MsgCFCheckpt_ThtDecode.
Proof. unfold MsgCFCheckpt_ThtDecode. apply _. Qed.

(** ** alert *)

Definition alert_wf (a : Alert) : Prop :=
  int_range TInt32 (al_Version a) /\ int_range TInt64 (al_RelayUntil a) /\ int_range TInt64 (al_Expiration a)
  /\ int_range TInt32 (al_ID a) /\ int_range TInt32 (al_Cancel a)
  /\ zlen (al_SetCancel a) <= maxCountSetCancel /\ Forall (int_range TInt32) (al_SetCancel a)
  /\ int_range TInt32 (al_MinVer a) /\ int_range TInt32 (al_MaxVer a)
  /\ zlen (al_SetSubVer a) <= maxCountSetSubVer
  /\ Forall (fun s => zlen s <= MaxMessagePayload) (al_SetSubVer a)
  /\ int_range TInt32 (al_Priority a) /\ zlen (al_Comment a) <= MaxMessagePayload
  /\ zlen (al_StatusBar a) <= MaxMessagePayload /\ zlen (al_Reserved a) <= MaxMessagePayload.
Definition alert_bytes (a : Alert) : bytes :=
  int_bytes TInt32 (al_Version a) ++ int_bytes TInt64 (al_RelayUntil a) ++ int_bytes TInt64 (al_Expiration a)
  ++ int_bytes TInt32 (al_ID a) ++ int_bytes TInt32 (al_Cancel a)
  ++ counted (int_bytes TInt32) (al_SetCancel a)
  ++ int_bytes TInt32 (al_MinVer a) ++ int_bytes TInt32 (al_MaxVer a)
  ++ counted varbytes (al_SetSubVer a)
  ++ int_bytes TInt32 (al_Priority a) ++ varbytes (al_Comment a) ++ varbytes (al_StatusBar a)
  ++ varbytes (al_Reserved a).

#[export] Instance Alert_writes : Writes Alert_Serialize alert_wf alert_bytes.
Proof.
  intros a w (H1 & H2 & H3 & H4 & H5 & H6 & H7 & H8 & H9 & H10 & H11 & H12 & H13 & H14 & H15).
  pose proof (zlen_nonneg (al_SetCancel a)). pose proof (zlen_nonneg (al_SetSubVer a)).
  unfold Alert_Serialize, alert_bytes, counted. cbv zeta. rewrite !(u64_id (zlen _)) by lia.
  assert (Forall (fun v => int_range TInt32 v /\ writable TInt32 = true) (al_SetCancel a))
    by (eapply Forall_impl; [exact H7|done]).
  assert (Forall (fun s : bytes => zlen s < 2 ^ 64) (al_SetSubVer a))
    by (eapply Forall_impl; [exact H11|]; cbv beta; lia).
  run_writes.
Qed.
#[export] Instance Alert_reads : Reads Alert_Deserialize alert_wf alert_bytes.
Proof.
  intros [v ru ex id ca sc mi ma ss pr co sb re] r
    (H1 & H2 & H3 & H4 & H5 & H6 & H7 & H8 & H9 & H10 & H11 & H12 & H13 & H14 & H15).
  unfold Alert_Deserialize, alert_bytes.
  cbn [al_Version al_RelayUntil al_Expiration al_ID al_Cancel al_SetCancel al_MinVer al_MaxVer al_SetSubVer
    al_Priority al_Comment al_StatusBar al_Reserved] in *. rewrite <- !app_assoc. do 5 step_reads.
  rewrite (repeatM_counted (readInt TInt32) (int_range TInt32) (int_bytes TInt32)) by (done || lia).
  do 2 step_reads.
  rewrite (repeatM_counted ReadVarString (fun s => zlen s <= MaxMessagePayload) varbytes) by (done || lia).
  run_reads.
Qed.
#[export] Instance Alert_no_panic : NoPanic Alert_Deserialize.
Proof. unfold Alert_Deserialize. apply _. Qed.

(** An alert the decoder understands, or bytes that it does not. *)
Definition msgalert_wf (m : MsgAlert) : Prop :=
  0 < zlen (mal_SerializedPayload m) <= MaxMessagePayload /\ zlen (mal_Signature m) <= MaxMessagePayload
  /\ match mal_Payload m with
     | Some a => alert_wf a /\ mal_SerializedPayload m = alert_bytes a
     | None => exists e, NewAlertFromPayload (mal_SerializedPayload m) = Fail e
     end.
Definition msgalert_bytes (m : MsgAlert) : bytes :=
  varbytes (mal_SerializedPayload m) ++ varbytes (mal_Signature m).

#[export] Instance MsgAlert_writes : Writes MsgAlert_ThtEncode msgalert_wf msgalert_bytes.
Proof.
  intros [p s a] w (Hp & Hs & Ha). unfold MsgAlert_ThtEncode, msgalert_bytes.
  cbn [mal_SerializedPayload mal_Signature mal_Payload] in *.
  match goal with |- context [liftO ?o] => assert (o = Ret p) as -> end.
  { destruct a as [a|]; [|done]. destruct Ha as [Ha ->]. by rewrite writes. }
  erewrite bindM_step by reflexivity. cbv zeta. rewrite u64_id by lia. run_writes.
Qed.
#[export] Instance MsgAlert_reads : Reads MsgAlert_ThtDecode msgalert_wf msgalert_bytes.
Proof.
  intros [p s a] r (Hp & Hs & Ha). unfold MsgAlert_ThtDecode, msgalert_bytes.
  cbn [mal_SerializedPayload mal_Signature mal_Payload] in *. rewrite <- app_assoc. step_reads.
  match goal with |- context [liftO ?o] => assert (o = Ret a) as -> end.
  { destruct a as [a|].
    - destruct Ha as [Ha ->]. unfold NewAlertFromPayload. by rewrite reads_all.
    - by destruct Ha as [e ->]. }
  erewrite bindM_step by reflexivity. run_reads.
Qed.
#[export] Instance MsgAlert_no_panic : NoPanic MsgAlert_ThtDecode.
Proof.
  assert (forall p, NoPanic (liftO (match NewAlertFromPayload p with
    | Ret alert => Ret (Some alert) | Fail _ => Ret None | Crash => Crash | NoFuel => NoFuel end) : RM _)).
  { intros p r. unfold liftO, NewAlertFromPayload. cbn. pose proof (Alert_no_panic p).
    by destruct (Alert_Deserialize p).1. }
  unfold MsgAlert_ThtDecode. apply _.
Qed.
