(* ===== verification/NetAddrV2.v ===== *)
(** Addresses of the addrv2 message (src/thoughtd/wire/netaddressv2.go).

    The field [Addr] is an interface that holds a pointer to one of four address
    structs, or nil; each struct keeps its network identifier.  The texts of
    onion addresses are in WireNames. *)

From S2P Require Import Prelude WireCommon WireCodec WireTx WireBlock WireMsgs WireMsgCodecs.

Notation maxAddrV2Size := 512 (only parsing).

(** ** Networks *)

Notation ipv4 := 1 (only parsing).
Notation ipv6 := 2 (only parsing).
Notation torv2 := 3 (only parsing).
Notation torv3 := 4 (only parsing).
Notation i2p := 5 (only parsing).
Notation cjdns := 6 (only parsing).

Notation ipv4Size := 4 (only parsing).
Notation ipv6Size := 16 (only parsing).
Notation torv2Size := 10 (only parsing).
Notation TorV3Size := 32 (only parsing).
Notation i2pSize := 32 (only parsing).
Notation cjdnsSize := 16 (only parsing).

Definition isKnownNetworkID (netID : Z) : bool := (ipv4 <=? netID) && (netID <=? cjdns).

Inductive netAddr :=
  | ipv4Addr (addr : bytes) (netID : Z)
  | ipv6Addr (addr : bytes) (netID : Z)
  | torv2Addr (addr : bytes) (netID : Z)
  | torv3Addr (addr : bytes) (netID : Z).

Record NetAddressV2 := mkNetAddressV2 {
  nv_Timestamp : Z;
  nv_Services : Z;
  nv_Addr : option netAddr;
  nv_Port : Z }.

Definition maxNetAddressV2Payload : Z := 4 + 9 + 1 + 515 + 2.

Definition onionCatPrefix : bytes := map z2b [0xfd; 0x87; 0xd8; 0x7e; 0xeb; 0x43].

(** [onionCatNet.Contains(ip)] for the network fd87:d87e:eb43::/48. *)
Definition isOnionCatTor (ip : bytes) : bool :=
  (zlen ip =? 16) && bool_decide (take 6 ip = onionCatPrefix).

Definition onionCatEncoding (addr : bytes) : bytes := onionCatPrefix ++ addr.

Definition NetAddressV2_HasService (service : Z) (na : NetAddressV2) : bool :=
  Z.land (nv_Services na) service =? service.
Definition NetAddressV2_AddService (service : Z) (na : NetAddressV2) : NetAddressV2 :=
  mkNetAddressV2 (nv_Timestamp na) (Z.lor (nv_Services na) service) (nv_Addr na) (nv_Port na).

(** A nil result is [None]; other values of the interface leave the IP empty. *)
Definition ToLegacy (na : NetAddressV2) : option NetAddress :=
  let legacy ip := Some (mkNetAddress (nv_Timestamp na) (nv_Services na) ip (nv_Port na)) in
  match nv_Addr na with
  | Some (ipv4Addr a _) => legacy a
  | Some (ipv6Addr a _) => legacy a
  | Some (torv2Addr a _) => legacy (onionCatEncoding a)
  | Some (torv3Addr _ _) => None
  | None => legacy []
  end.

Definition IsTorV3 (na : NetAddressV2) : bool :=
  match nv_Addr na with Some (torv3Addr _ _) => true | _ => false end.

Definition TorV3Key (na : NetAddressV2) : outcome WireErr Z :=
  match nv_Addr na with
  | Some (torv3Addr a _) => let! b := orCrash (znth a 0) in Ret (b2z b)
  | _ => Crash
  end.

Definition NetAddressV2FromBytes (timestamp services : Z) (addrBytes : bytes) (port : Z) : NetAddressV2 :=
  let netAddr :=
    if zlen addrBytes =? ipv4Size then Some (ipv4Addr addrBytes ipv4)
    else if zlen addrBytes =? ipv6Size then
      if isOnionCatTor addrBytes then Some (torv2Addr (drop 6 addrBytes) torv2)
      else Some (ipv6Addr addrBytes ipv6)
    else if zlen addrBytes =? torv2Size then Some (torv2Addr addrBytes torv2)
    else if zlen addrBytes =? TorV3Size then Some (torv3Addr addrBytes torv3)
    else None in
  mkNetAddressV2 timestamp services netAddr port.

(** ** Encoding *)

Definition writeNetAddressV2 (na : NetAddressV2) : RM unit :=
  writeInt TUint32 (u32 (nv_Timestamp na)) ;;
  WriteVarInt (u64 (nv_Services na)) ;;
  '(netID, address) <-
    match nv_Addr na with
    | Some (ipv4Addr a id) | Some (ipv6Addr a id) | Some (torv2Addr a id) | Some (torv3Addr a id) =>
        retM (id, a)
    | None => failM ErrUnexpectedAddressType
    end ;;
  writeInt TUint8 netID ;;
  WriteVarInt (u64 (zlen address)) ;;
  writeBytes (TArray (zlen address)) address ;;
  PutUint16BE (nv_Port na).

(** One [case] of the decoder: the size is checked, address and port are read. *)
Definition readSizedAddr (decodedSize size : Z) : RM (bytes * Z) :=
  if negb (decodedSize =? size) then failM ErrInvalidAddressSize else
  addr <- readBytes (TArray size) ;;
  port <- Uint16BE ;;
  retM (addr, port).

Definition readNetAddressV2 : RM NetAddressV2 :=
  timestamp <- readInt TUint32Time ;;
  services <- ReadVarInt ;;
  netID <- readInt TUint8 ;;
  decodedSize <- ReadVarInt ;;
  if negb (isKnownNetworkID netID) then
    if decodedSize >? maxAddrV2Size then failM ErrInvalidAddressSize else
    readBytes (TArray (decodedSize + 2)) ;; failM ErrSkippedNetworkID
  else
  let found addr port := mkNetAddressV2 timestamp services (Some addr) port in
  if netID =? ipv4 then
    '(addr, port) <- readSizedAddr decodedSize ipv4Size ;; retM (found (ipv4Addr addr ipv4) port)
  else if netID =? ipv6 then
    '(addr, port) <- readSizedAddr decodedSize ipv6Size ;;
    if isOnionCatTor addr then failM ErrSkippedNetworkID else retM (found (ipv6Addr addr ipv6) port)
  else if netID =? torv2 then
    '(addr, port) <- readSizedAddr decodedSize torv2Size ;; retM (found (torv2Addr addr torv2) port)
  else if netID =? torv3 then
    '(addr, port) <- readSizedAddr decodedSize TorV3Size ;; retM (found (torv3Addr addr torv3) port)
  else if netID =? i2p then readSizedAddr decodedSize i2pSize ;; failM ErrSkippedNetworkID
  else readSizedAddr decodedSize cjdnsSize ;; failM ErrSkippedNetworkID.

(** ** Encodings *)

Definition addr_parts (a : netAddr) : Z * bytes :=
  match a with
  | ipv4Addr a id | ipv6Addr a id | torv2Addr a id | torv3Addr a id => (id, a)
  end.

(** A struct as the package builds it: identifier and size of its network. *)
Definition netAddr_wf (a : netAddr) : Prop :=
  match a with
  | ipv4Addr a id => id = ipv4 /\ zlen a = ipv4Size
  | ipv6Addr a id => id = ipv6 /\ zlen a = ipv6Size
  | torv2Addr a id => id = torv2 /\ zlen a = torv2Size
  | torv3Addr a id => id = torv3 /\ zlen a = TorV3Size
  end.

Definition nv_wf (na : NetAddressV2) (a : netAddr) : Prop :=
  int_range TUint32 (nv_Timestamp na) /\ int_range TUint64 (nv_Services na)
  /\ nv_Addr na = Some a /\ netAddr_wf a /\ 0 <= nv_Port na < 2 ^ 16.

(** The fields in wire format, for any network identifier. *)
Definition v2_record (timestamp services id : Z) (address : bytes) (port : Z) : bytes :=
  int_bytes TUint32Time timestamp ++ varint_bytes services ++ int_bytes TUint8 id
  ++ varint_bytes (zlen address) ++ raw address ++ port_bytes port.

Lemma zlen_maps a : netAddr_wf a -> 1 <= (addr_parts a).1 <= 4 /\ 4 <= zlen (addr_parts a).2 <= 32.
Proof. destruct a; cbn; lia. Qed.

Lemma writeNetAddressV2_writes na a w :
  nv_wf na a ->
  writeNetAddressV2 na w
  = (Ret tt, w ++ v2_record (nv_Timestamp na) (nv_Services na) (addr_parts a).1 (addr_parts a).2 (nv_Port na)).
Proof.
  intros (Ht & Hs & Ha & Hwf & Hp). unfold writeNetAddressV2, v2_record. rewrite Ha.
  destruct (zlen_maps a Hwf) as [Hid Hl]. rewrite (u32_id (nv_Timestamp na)) by exact Ht.
  rewrite (u64_id (nv_Services na)) by exact Hs.
  change (int_bytes TUint32Time ?t) with (int_bytes TUint32 t).
  assert (int_range TUint8 (addr_parts a).1) by (cbn; lia).
  assert (bytes_wf (TArray (zlen (addr_parts a).2)) (addr_parts a).2) by done.
  do 2 step_writes. unfold int_range in Hs.
  assert (forall w, match Some a with
    | Some (ipv4Addr a id) | Some (ipv6Addr a id) | Some (torv2Addr a id) | Some (torv3Addr a id) =>
        retM (id, a)
    | None => failM ErrUnexpectedAddressType
    end w = (Ret (addr_parts a), w : bytes)) as Hsel by (by destruct a).
  rewrite (bindM_step _ _ _ _ _ (Hsel _)). destruct (addr_parts a) as [id ad]. cbn [fst snd] in *.
  rewrite u64_id by lia. run_writes.
Qed.

Lemma readSizedAddr_reads size addr port r :
  0 <= size -> zlen addr = size -> 0 <= port < 2 ^ 16 ->
  readSizedAddr size size (raw addr ++ port_bytes port ++ r) = (Ret (addr, port), r).
Proof.
  intros Hs Ha Hp. unfold readSizedAddr. rewrite Z.eqb_refl. cbn [negb].
  assert (bytes_wf (TArray size) addr) by done. run_reads.
Qed.

(** The fields before the address. *)
Lemma readV2_head (k : Z -> Z -> Z -> Z -> RM NetAddressV2) t s id ad p r :
  int_range TUint32 t -> int_range TUint64 s -> int_range TUint8 id -> zlen ad < 2 ^ 64 ->
  (timestamp <- readInt TUint32Time ;; services <- ReadVarInt ;; netID <- readInt TUint8 ;;
   decodedSize <- ReadVarInt ;; k timestamp services netID decodedSize) (v2_record t s id ad p ++ r)
  = k t s id (zlen ad) (raw ad ++ port_bytes p ++ r).
Proof.
  intros Ht Hs Hid Hl. pose proof (zlen_nonneg ad). unfold v2_record. rewrite <- !app_assoc.
  do 4 step_reads. done.
Qed.

Ltac v2_tests := unfold isKnownNetworkID;
  cbn [Z.leb Z.compare Pos.compare Pos.compare_cont andb negb Z.eqb Pos.eqb].

Lemma readNetAddressV2_supported na a r :
  nv_wf na a ->
  readNetAddressV2 (v2_record (nv_Timestamp na) (nv_Services na) (addr_parts a).1 (addr_parts a).2 (nv_Port na) ++ r)
  = (match a with
     | ipv6Addr ad _ => if isOnionCatTor ad then Fail ErrSkippedNetworkID else Ret na
     | _ => Ret na
     end, r).
Proof.
  intros (Ht & Hs & Ha & Haw & Hp). destruct (zlen_maps a Haw) as [Hid Hl].
  unfold readNetAddressV2. cbv zeta. rewrite readV2_head by (try done; cbn; lia).
  destruct na as [t s na p]. cbn in Ha. subst na. cbn [nv_Timestamp nv_Services nv_Port] in *.
  destruct a as [ad id|ad id|ad id|ad id]; cbn [addr_parts fst snd netAddr_wf] in *;
    destruct Haw as [-> Hz]; rewrite Hz; v2_tests;
    (erewrite bindM_step by (apply readSizedAddr_reads; done)); try done.
  cbv beta iota. by destruct (isOnionCatTor ad).
Qed.

Lemma readNetAddressV2_skipped t s p id ad r :
  int_range TUint32 t -> int_range TUint64 s -> 0 <= p < 2 ^ 16 ->
  5 <= id < 256 -> zlen ad <= maxAddrV2Size ->
  (id = i2p -> zlen ad = i2pSize) -> (id = cjdns -> zlen ad = cjdnsSize) ->
  readNetAddressV2 (v2_record t s id ad p ++ r) = (Fail ErrSkippedNetworkID, r).
Proof.
  intros Ht Hs Hp Hid Hl Hi Hc. pose proof (zlen_nonneg ad). unfold readNetAddressV2. cbv zeta.
  rewrite readV2_head by (try done; cbn; lia).
  destruct (Z.eqb_spec id i2p) as [->|]; [|destruct (Z.eqb_spec id cjdns) as [->|]].
  - rewrite Hi by done. v2_tests.
    by erewrite bindM_step by (apply readSizedAddr_reads; [done|by apply Hi|done]).
  - rewrite Hc by done. v2_tests.
    by erewrite bindM_step by (apply readSizedAddr_reads; [done|by apply Hc|done]).
  - unfold isKnownNetworkID. ztest. cbn [andb negb]. rewrite app_assoc.
    assert (bytes_wf (TArray (zlen ad + 2)) (raw ad ++ port_bytes p)) as Hb.
    { unfold bytes_wf. cbn. by rewrite zlen_app, zlen_port_bytes. }
    by erewrite bindM_step by (exact (reads (raw ad ++ port_bytes p) r Hb)).
Qed.

Lemma ToLegacy_back na a :
  nv_wf na a ->
  match ToLegacy na with
  | Some l => IsTorV3 na = false
      /\ (match a with ipv6Addr ad _ => isOnionCatTor ad = false | _ => True end ->
          NetAddressV2FromBytes (na_Timestamp l) (na_Services l) (na_IP l) (na_Port l) = na)
  | None => IsTorV3 na = true
  end.
Proof.
  intros (_ & _ & Ha & Haw & _). destruct na as [t s na p]. cbn in Ha. subst na.
  unfold ToLegacy, IsTorV3, NetAddressV2FromBytes. cbn [nv_Timestamp nv_Services nv_Addr nv_Port].
  destruct a as [ad id|ad id|ad id|ad id]; cbn [netAddr_wf] in Haw; destruct Haw as [-> Hz]; [| | |done];
    (split; [done|]); cbn [na_IP na_Timestamp na_Services na_Port].
  - intros _. by rewrite Hz.
  - intros E. by rewrite Hz, E.
  - intros _. unfold onionCatEncoding, isOnionCatTor. rewrite zlen_app, Hz.
    change (zlen onionCatPrefix + torv2Size) with 16. cbn [Z.eqb Pos.eqb andb].
    rewrite bool_decide_eq_true_2 by (by rewrite take_app_length').
    by rewrite drop_app_length'.
Qed.

(** ** Property *)

(** Addresses of the networks the package supports survive the trip through
    the addrv2 encoding.  Addresses that are skipped, which are IPv6 addresses
    that encode a Tor address, those of the two networks without support and
    those of unknown networks of at most 512 bytes, are reported as skipped and
    consumed to their last byte, so that the next address of the message is read
    from its start; and converting to a legacy address and back changes nothing
    but for Tor version 3, which has none. *)
Theorem NetAddressV2_roundtrip (na : NetAddressV2) (a : netAddr) (r : bytes) :
  nv_wf na a ->
  (exists out, writeNetAddressV2 na [] = (Ret tt, out)
     /\ readNetAddressV2 (out ++ r)
        = (match a with
           | ipv6Addr ad _ => if isOnionCatTor ad then Fail ErrSkippedNetworkID else Ret na
           | _ => Ret na
           end, r))
  /\ (forall id ad, 5 <= id < 256 -> zlen ad <= maxAddrV2Size ->
      (id = i2p -> zlen ad = i2pSize) -> (id = cjdns -> zlen ad = cjdnsSize) ->
      readNetAddressV2 (v2_record (nv_Timestamp na) (nv_Services na) id ad (nv_Port na) ++ r)
      = (Fail ErrSkippedNetworkID, r))
  /\ match ToLegacy na with
     | Some l => IsTorV3 na = false
         /\ (match a with ipv6Addr ad _ => isOnionCatTor ad = false | _ => True end ->
             NetAddressV2FromBytes (na_Timestamp l) (na_Services l) (na_IP l) (na_Port l) = na)
     | None => IsTorV3 na = true
     end.
Proof.
  intros Hwf. pose proof Hwf as (Ht & Hs & _ & _ & Hp). split_and!.
  - eexists. split; [exact (writeNetAddressV2_writes na a [] Hwf)|]. by apply readNetAddressV2_supported.
  - intros id ad. by apply readNetAddressV2_skipped.
  - by apply ToLegacy_back.
Qed.

Lemma NetAddressV2_roundtrip_witness :
  exists out, writeNetAddressV2 (NetAddressV2FromBytes 7 1 (replicate 10 (z2b 9)) 80) [] = (Ret tt, out)
    /\ readNetAddressV2 (out ++ [z2b 3])
       = (Ret (NetAddressV2FromBytes 7 1 (replicate 10 (z2b 9)) 80), [z2b 3]).
Proof.
  apply (NetAddressV2_roundtrip (NetAddressV2FromBytes 7 1 (replicate 10 (z2b 9)) 80)
    (torv2Addr (replicate 10 (z2b 9)) torv2) [z2b 3]).
  split; [cbn; lia|]. split; [cbn; lia|]. split; [reflexivity|]. split; [done|]. cbn. lia.
Defined.
