(* ===== verification/WireMessage.v ===== *)
(** The message envelope (src/thoughtd/wire/message.go).

    The interface [Message] is the sum of the message types; a call of one of its
    methods selects the type.  A message on the wire is a header of 24 bytes
    (network, command, length, checksum) and a payload. *)

From Stdlib Require Import Strings.String.
From S2P Require Import Prelude Crypto Utf8 WireCommon WireCodec WireTx WireBlock WireMsgs WireMsgCodecs.

(** ** Messages *)

Inductive Message :=
  | VersionMsg (m : MsgVersion)
  | VerAckMsg
  | GetAddrMsg
  | AddrMsg (m : MsgAddr)
  | GetBlocksMsg (m : MsgGetBlocks)
  | BlockMsg (m : MsgBlock)
  | InvMsg (m : MsgInv)
  | GetDataMsg (m : MsgGetData)
  | NotFoundMsg (m : MsgNotFound)
  | TxMsg (m : MsgTx)
  | PingMsg (m : MsgPing)
  | PongMsg (m : MsgPong)
  | GetHeadersMsg (m : MsgGetHeaders)
  | HeadersMsg (m : MsgHeaders)
  | AlertMsg (m : MsgAlert)
  | MemPoolMsg
  | FilterAddMsg (m : MsgFilterAdd)
  | FilterClearMsg
  | FilterLoadMsg (m : MsgFilterLoad)
  | MerkleBlockMsg (m : MsgMerkleBlock)
  | RejectMsg (m : MsgReject)
  | SendHeadersMsg
  | FeeFilterMsg (m : MsgFeeFilter)
  | GetCFiltersMsg (m : MsgGetCFilters)
  | GetCFHeadersMsg (m : MsgGetCFHeaders)
  | GetCFCheckptMsg (m : MsgGetCFCheckpt)
  | CFilterMsg (m : MsgCFilter)
  | CFHeadersMsg (m : MsgCFHeaders)
  | CFCheckptMsg (m : MsgCFCheckpt).

Definition Command (msg : Message) : bytes :=
  match msg with
  | VersionMsg _ => str "version"
  | VerAckMsg => str "verack"
  | GetAddrMsg => str "getaddr"
  | AddrMsg _ => str "addr"
  | GetBlocksMsg _ => str "getblocks"
  | BlockMsg _ => str "block"
  | InvMsg _ => str "inv"
  | GetDataMsg _ => str "getdata"
  | NotFoundMsg _ => str "notfound"
  | TxMsg _ => str "tx"
  | PingMsg _ => str "ping"
  | PongMsg _ => str "pong"
  | GetHeadersMsg _ => str "getheaders"
  | HeadersMsg _ => str "headers"
  | AlertMsg _ => str "alert"
  | MemPoolMsg => str "mempool"
  | FilterAddMsg _ => str "filteradd"
  | FilterClearMsg => str "filterclear"
  | FilterLoadMsg _ => str "filterload"
  | MerkleBlockMsg _ => str "merkleblock"
  | RejectMsg _ => str "reject"
  | SendHeadersMsg => str "sendheaders"
  | FeeFilterMsg _ => str "feefilter"
  | GetCFiltersMsg _ => str "getcfilters"
  | GetCFHeadersMsg _ => str "getcfheaders"
  | GetCFCheckptMsg _ => str "getcfcheckpt"
  | CFilterMsg _ => str "cfilter"
  | CFHeadersMsg _ => str "cfheaders"
  | CFCheckptMsg _ => str "cfcheckpt"
  end.

Notation MaxVarIntPayload := 9 (only parsing).
Notation maxInvVectPayload := (4 + 32) (only parsing).

Definition MsgVersion_MaxPayloadLength (pver : Z) : Z :=
  33 + maxNetAddressPayload pver * 2 + MaxVarIntPayload + MaxUserAgentLen.
Definition MsgAddr_MaxPayloadLength (pver : Z) : Z :=
  if pver <? MultipleAddressVersion then MaxVarIntPayload + maxNetAddressPayload pver
  else MaxVarIntPayload + MaxAddrPerMsg * maxNetAddressPayload pver.
Definition MsgGetBlocks_MaxPayloadLength : Z := 4 + MaxVarIntPayload + MaxBlockLocatorsPerMsg * 32 + 32.
Definition MsgGetHeaders_MaxPayloadLength : Z := 4 + MaxVarIntPayload + MaxBlockLocatorsPerMsg * 32 + 32.
Definition MsgInv_MaxPayloadLength : Z := MaxVarIntPayload + MaxInvPerMsg * maxInvVectPayload.
Definition MsgGetData_MaxPayloadLength : Z := MaxVarIntPayload + MaxInvPerMsg * maxInvVectPayload.
Definition MsgNotFound_MaxPayloadLength : Z := MaxVarIntPayload + MaxInvPerMsg * maxInvVectPayload.
Definition MsgPing_MaxPayloadLength (pver : Z) : Z := if pver >? BIP0031Version then 8 else 0.
Definition MsgPong_MaxPayloadLength (pver : Z) : Z := if pver >? BIP0031Version then 8 else 0.
Definition MsgHeaders_MaxPayloadLength : Z :=
  MaxVarIntPayload + (MaxBlockHeaderPayload + 1) * MaxBlockHeadersPerMsg.
Definition MsgFilterAdd_MaxPayloadLength : Z :=
  VarIntSerializeSize MaxFilterAddDataSize + MaxFilterAddDataSize.
Definition MsgFilterLoad_MaxPayloadLength : Z :=
  VarIntSerializeSize MaxFilterLoadFilterSize + MaxFilterLoadFilterSize + 9.
Definition MsgReject_MaxPayloadLength (pver : Z) : Z :=
  if pver >=? RejectVersion then MaxMessagePayload else 0.
Definition MsgGetCFilters_MaxPayloadLength : Z := 1 + 4 + 32.
Definition MsgGetCFHeaders_MaxPayloadLength : Z := 1 + 4 + 32.
Definition MsgGetCFCheckpt_MaxPayloadLength : Z := 1 + 32.
Definition MsgCFilter_MaxPayloadLength : Z :=
  VarIntSerializeSize MaxCFilterDataSize + MaxCFilterDataSize + 32 + 1.
Definition MsgCFHeaders_MaxPayloadLength : Z := 1 + 32 + 32 + MaxVarIntPayload + 32 * MaxCFHeadersPerMsg.

(** The dispatch of the interface method; the other types return the constant
    written here. *)
Definition MaxPayloadLength (pver : Z) (msg : Message) : Z :=
  match msg with
  | VersionMsg _ => MsgVersion_MaxPayloadLength pver
  | VerAckMsg | GetAddrMsg | MemPoolMsg | FilterClearMsg | SendHeadersMsg => 0
  | AddrMsg _ => MsgAddr_MaxPayloadLength pver
  | GetBlocksMsg _ => MsgGetBlocks_MaxPayloadLength
  | GetHeadersMsg _ => MsgGetHeaders_MaxPayloadLength
  | BlockMsg _ | TxMsg _ | MerkleBlockMsg _ => MaxBlockPayload
  | InvMsg _ => MsgInv_MaxPayloadLength
  | GetDataMsg _ => MsgGetData_MaxPayloadLength
  | NotFoundMsg _ => MsgNotFound_MaxPayloadLength
  | PingMsg _ => MsgPing_MaxPayloadLength pver
  | PongMsg _ => MsgPong_MaxPayloadLength pver
  | HeadersMsg _ => MsgHeaders_MaxPayloadLength
  | AlertMsg _ | CFCheckptMsg _ => MaxMessagePayload
  | FilterAddMsg _ => MsgFilterAdd_MaxPayloadLength
  | FilterLoadMsg _ => MsgFilterLoad_MaxPayloadLength
  | RejectMsg _ => MsgReject_MaxPayloadLength pver
  | FeeFilterMsg _ => 8
  | GetCFiltersMsg _ => MsgGetCFilters_MaxPayloadLength
  | GetCFHeadersMsg _ => MsgGetCFHeaders_MaxPayloadLength
  | GetCFCheckptMsg _ => MsgGetCFCheckpt_MaxPayloadLength
  | CFilterMsg _ => MsgCFilter_MaxPayloadLength
  | CFHeadersMsg _ => MsgCFHeaders_MaxPayloadLength
  end.

Definition Message_ThtEncode (pver : Z) (enc : MessageEncoding) (msg : Message) : RM unit :=
  match msg with
  | VersionMsg m => MsgVersion_ThtEncode pver m
  | VerAckMsg | GetAddrMsg => retM tt
  | AddrMsg m => MsgAddr_ThtEncode pver m
  | GetBlocksMsg m => MsgGetBlocks_ThtEncode m
  | BlockMsg m => MsgBlock_ThtEncode enc m
  | InvMsg m => MsgInv_ThtEncode m
  | GetDataMsg m => MsgGetData_ThtEncode m
  | NotFoundMsg m => MsgNotFound_ThtEncode m
  | TxMsg m => ThtEncode enc m
  | PingMsg m => MsgPing_ThtEncode pver m
  | PongMsg m => MsgPong_ThtEncode pver m
  | GetHeadersMsg m => MsgGetHeaders_ThtEncode m
  | HeadersMsg m => MsgHeaders_ThtEncode m
  | AlertMsg m => MsgAlert_ThtEncode m
  | MemPoolMsg => MsgMemPool_ThtEncode pver
  | FilterAddMsg m => MsgFilterAdd_ThtEncode pver m
  | FilterClearMsg => MsgFilterClear_ThtEncode pver
  | FilterLoadMsg m => MsgFilterLoad_ThtEncode pver m
  | MerkleBlockMsg m => MsgMerkleBlock_ThtEncode pver m
  | RejectMsg m => MsgReject_ThtEncode pver m
  | SendHeadersMsg => MsgSendHeaders_ThtEncode pver
  | FeeFilterMsg m => MsgFeeFilter_ThtEncode pver m
  | GetCFiltersMsg m => MsgGetCFilters_ThtEncode m
  | GetCFHeadersMsg m => MsgGetCFHeaders_ThtEncode m
  | GetCFCheckptMsg m => MsgGetCFCheckpt_ThtEncode m
  | CFilterMsg m => MsgCFilter_ThtEncode m
  | CFHeadersMsg m => MsgCFHeaders_ThtEncode m
  | CFCheckptMsg m => MsgCFCheckpt_ThtEncode m
  end.

(** The receiver selects the type and gives the values of fields that are not sent. *)
Definition Message_ThtDecode (pver : Z) (enc : MessageEncoding) (msg : Message) : RM Message :=
  match msg with
  | VersionMsg m => m <- MsgVersion_ThtDecode pver m ;; retM (VersionMsg m)
  | VerAckMsg => retM VerAckMsg
  | GetAddrMsg => retM GetAddrMsg
  | AddrMsg _ => m <- MsgAddr_ThtDecode pver ;; retM (AddrMsg m)
  | GetBlocksMsg _ => m <- MsgGetBlocks_ThtDecode ;; retM (GetBlocksMsg m)
  | BlockMsg _ => m <- MsgBlock_ThtDecode enc ;; retM (BlockMsg m)
  | InvMsg _ => m <- MsgInv_ThtDecode ;; retM (InvMsg m)
  | GetDataMsg _ => m <- MsgGetData_ThtDecode ;; retM (GetDataMsg m)
  | NotFoundMsg _ => m <- MsgNotFound_ThtDecode ;; retM (NotFoundMsg m)
  | TxMsg _ => m <- ThtDecode enc ;; retM (TxMsg m)
  | PingMsg m => m <- MsgPing_ThtDecode pver m ;; retM (PingMsg m)
  | PongMsg _ => m <- MsgPong_ThtDecode pver ;; retM (PongMsg m)
  | GetHeadersMsg _ => m <- MsgGetHeaders_ThtDecode ;; retM (GetHeadersMsg m)
  | HeadersMsg _ => m <- MsgHeaders_ThtDecode ;; retM (HeadersMsg m)
  | AlertMsg _ => m <- MsgAlert_ThtDecode ;; retM (AlertMsg m)
  | MemPoolMsg => MsgMemPool_ThtDecode pver ;; retM MemPoolMsg
  | FilterAddMsg _ => m <- MsgFilterAdd_ThtDecode pver ;; retM (FilterAddMsg m)
  | FilterClearMsg => MsgFilterClear_ThtDecode pver ;; retM FilterClearMsg
  | FilterLoadMsg _ => m <- MsgFilterLoad_ThtDecode pver ;; retM (FilterLoadMsg m)
  | MerkleBlockMsg _ => m <- MsgMerkleBlock_ThtDecode pver ;; retM (MerkleBlockMsg m)
  | RejectMsg m => m <- MsgReject_ThtDecode pver m ;; retM (RejectMsg m)
  | SendHeadersMsg => MsgSendHeaders_ThtDecode pver ;; retM SendHeadersMsg
  | FeeFilterMsg _ => m <- MsgFeeFilter_ThtDecode pver ;; retM (FeeFilterMsg m)
  | GetCFiltersMsg _ => m <- MsgGetCFilters_ThtDecode ;; retM (GetCFiltersMsg m)
  | GetCFHeadersMsg _ => m <- MsgGetCFHeaders_ThtDecode ;; retM (GetCFHeadersMsg m)
  | GetCFCheckptMsg _ => m <- MsgGetCFCheckpt_ThtDecode ;; retM (GetCFCheckptMsg m)
  | CFilterMsg _ => m <- MsgCFilter_ThtDecode ;; retM (CFilterMsg m)
  | CFHeadersMsg _ => m <- MsgCFHeaders_ThtDecode ;; retM (CFHeadersMsg m)
  | CFCheckptMsg _ => m <- MsgCFCheckpt_ThtDecode ;; retM (CFCheckptMsg m)
  end.

(** ** Zero values *)

Definition zeroHash : bytes := replicate 32 (z2b 0).
Definition zeroHeader : BlockHeader := mkBlockHeader 0 zeroHash zeroHash zeroTime 0 0.
Definition zeroVersion : MsgVersion :=
  mkMsgVersion 0 0 zeroTime zeroNetAddress zeroNetAddress 0 [] 0 false.
Definition zeroReject : MsgReject := mkMsgReject [] 0 [] zeroHash.
Definition zeroPing : MsgPing := mkMsgPing 0.

Definition emptyMessages : list Message :=
  [VersionMsg zeroVersion; VerAckMsg; GetAddrMsg; AddrMsg (mkMsgAddr []);
   GetBlocksMsg (mkMsgGetBlocks 0 [] zeroHash); BlockMsg (mkMsgBlock zeroHeader []);
   InvMsg (mkMsgInv []); GetDataMsg (mkMsgGetData []); NotFoundMsg (mkMsgNotFound []);
   TxMsg (mkMsgTx 0 [] [] 0); PingMsg zeroPing; PongMsg (mkMsgPong 0);
   GetHeadersMsg (mkMsgGetHeaders 0 [] zeroHash); HeadersMsg (mkMsgHeaders []);
   AlertMsg (mkMsgAlert [] [] None); MemPoolMsg; FilterAddMsg (mkMsgFilterAdd []); FilterClearMsg;
   FilterLoadMsg (mkMsgFilterLoad [] 0 0 0); MerkleBlockMsg (mkMsgMerkleBlock zeroHeader 0 [] []);
   RejectMsg zeroReject; SendHeadersMsg; FeeFilterMsg (mkMsgFeeFilter 0);
   GetCFiltersMsg (mkMsgGetCFilters 0 0 zeroHash); GetCFHeadersMsg (mkMsgGetCFHeaders 0 0 zeroHash);
   GetCFCheckptMsg (mkMsgGetCFCheckpt 0 zeroHash); CFilterMsg (mkMsgCFilter 0 zeroHash []);
   CFHeadersMsg (mkMsgCFHeaders 0 zeroHash zeroHash []); CFCheckptMsg (mkMsgCFCheckpt 0 zeroHash [])].

(** The [switch] over the commands. *)
Definition makeEmptyMessage (command : bytes) : outcome WireErr Message :=
  match find (fun m => bool_decide (command = Command m)) emptyMessages with
  | Some m => Ret m
  | None => Fail ErrUnknownMessage
  end.

(** ** The envelope *)

Notation CommandSize := 12 (only parsing).
Notation MessageHeaderSize := 24 (only parsing).

Record messageHeader := mkMessageHeader {
  hdr_magic : Z; hdr_command : bytes; hdr_length : Z; hdr_checksum : bytes }.

(** [bytes.TrimRight(b, "\x00")] *)
Fixpoint dropZeros (l : bytes) : bytes :=
  match l with
  | [] => []
  | b :: l' => if b2z b =? 0 then dropZeros l' else l
  end.
Definition trimRightZeros (b : bytes) : bytes := rev (dropZeros (rev b)).

(** The fields are read from the 24 bytes that were read first, which are enough. *)
Definition parseMessageHeader (headerBytes : bytes) : outcome WireErr messageHeader :=
  ((magic <- readInt TNetMagic ;;
   command <- readBytes TCommand ;;
   length <- readInt TUint32 ;;
   checksum <- readBytes TChecksum ;;
   retM (mkMessageHeader magic (trimRightZeros command) length checksum)) headerBytes).1.

Definition readMessageHeader : RM messageHeader :=
  headerBytes <- ReadFull MessageHeaderSize ;;
  liftO (parseMessageHeader headerBytes).

(** Chunks are read and dropped, as are the errors at the end of the input. *)
Definition discardInput (n : Z) : RM unit :=
  let maxSize := 10 * 1024 in
  let numReads := n / maxSize in
  let bytesRemaining := n mod maxSize in
  (if n >? 0 then repeatM (Z.to_nat numReads) (orElse (ReadFull maxSize) []) ;; retM tt else retM tt) ;;
  if bytesRemaining >? 0 then orElse (ReadFull bytesRemaining) [] ;; retM tt else retM tt.

Section envelope.
Context `{Crypto}.

(** [copy(hdr.checksum[:], chainhash.DoubleHashB(payload)[0:4])] *)
Definition payloadChecksum (payload : bytes) : outcome WireErr bytes :=
  orCrash (zslice (DoubleHashB payload) 0 4).

(** The number of bytes written is returned; every error comes before the first
    write.  The payload goes to a buffer of its own. *)
Definition WriteMessageWithEncodingN (msg : Message) (pver btcnet : Z) (encoding : MessageEncoding) :
    RM Z :=
  let cmd := Command msg in
  if zlen cmd >? CommandSize then failM (MessageError "WriteMessage") else
  let command := cmd ++ replicate (Z.to_nat (CommandSize - zlen cmd)) (z2b 0) in
  payload <- liftO (let '(r, bw) := Message_ThtEncode pver encoding msg [] in let! _ := r in Ret bw) ;;
  let lenp := zlen payload in
  if lenp >? MaxMessagePayload then failM (MessageError "WriteMessage") else
  let mpl := MaxPayloadLength pver msg in
  if u32 lenp >? mpl then failM (MessageError "WriteMessage") else
  checksum <- liftO (payloadChecksum payload) ;;
  hw <- liftO (let '(r, hw) :=
      (writeInt TNetMagic btcnet ;; writeBytes TCommand command ;;
       writeInt TUint32 (u32 lenp) ;; writeBytes TChecksum checksum) [] in
    let! _ := r in Ret hw) ;;
  Write hw ;;
  (if zlen payload >? 0 then Write payload else retM tt) ;;
  retM (zlen hw + (if zlen payload >? 0 then zlen payload else 0)).

Definition WriteMessageN (msg : Message) (pver btcnet : Z) : RM Z :=
  WriteMessageWithEncodingN msg pver btcnet BaseEncoding.
Definition WriteMessage (msg : Message) (pver btcnet : Z) : RM unit :=
  WriteMessageN msg pver btcnet ;; retM tt.

Definition ReadMessageWithEncodingN (pver btcnet : Z) (enc : MessageEncoding) : RM (Z * Message * bytes) :=
  hdr <- readMessageHeader ;;
  let totalBytes := MessageHeaderSize in
  if hdr_length hdr >? MaxMessagePayload then failM (MessageError "ReadMessage") else
  if negb (hdr_magic hdr =? btcnet) then
    discardInput (hdr_length hdr) ;; failM (MessageError "ReadMessage") else
  let command := hdr_command hdr in
  if negb (ValidString command) then
    discardInput (hdr_length hdr) ;; failM (MessageError "ReadMessage") else
  match makeEmptyMessage command with
  | Fail e => discardInput (hdr_length hdr) ;; failM e
  | Crash => crashM
  | NoFuel => fun r => (NoFuel, r)
  | Ret msg =>
      let mpl := MaxPayloadLength pver msg in
      if hdr_length hdr >? mpl then
        discardInput (hdr_length hdr) ;; failM (MessageError "ReadMessage") else
      payload <- ReadFull (hdr_length hdr) ;;
      let totalBytes := totalBytes + hdr_length hdr in
      checksum <- liftO (payloadChecksum payload) ;;
      if negb (bool_decide (checksum = hdr_checksum hdr)) then failM (MessageError "ReadMessage") else
      msg <- liftO (Message_ThtDecode pver enc msg payload).1 ;;
      retM (totalBytes, msg, payload)
  end.

Definition ReadMessageN (pver btcnet : Z) : RM (Z * Message * bytes) :=
  ReadMessageWithEncodingN pver btcnet BaseEncoding.
Definition ReadMessage (pver btcnet : Z) : RM (Message * bytes) :=
  '(_, msg, buf) <- ReadMessageN pver btcnet ;; retM (msg, buf).
End envelope.

(** ** Well-formed messages and their encodings *)

Definition message_wf (pver : Z) (enc : MessageEncoding) (msg : Message) : Prop :=
  match msg with
  | VersionMsg m => version_wf pver zeroVersion m
  | VerAckMsg | GetAddrMsg => True
  | AddrMsg m => addr_wf pver m
  | GetBlocksMsg m => getblocks_wf m
  | BlockMsg m => block_wf enc m
  | InvMsg m => inv_wf (inv_InvList m)
  | GetDataMsg m => inv_wf (gd_InvList m)
  | NotFoundMsg m => inv_wf (nf_InvList m)
  | TxMsg m => tx_enc_wf enc m
  | PingMsg m => ping_wf pver zeroPing m
  | PongMsg m => pong_wf pver m
  | GetHeadersMsg m => getheaders_wf m
  | HeadersMsg m => headers_wf m
  | AlertMsg m => msgalert_wf m
  | MemPoolMsg => BIP0035Version <= pver
  | FilterAddMsg m => filteradd_wf pver m
  | FilterClearMsg => BIP0037Version <= pver
  | FilterLoadMsg m => filterload_wf pver m
  | MerkleBlockMsg m => merkle_wf pver m
  | RejectMsg m => reject_wf pver zeroReject m
  | SendHeadersMsg => SendHeadersVersion <= pver
  | FeeFilterMsg m => feefilter_wf pver m
  | GetCFiltersMsg m => getcfilters_wf m
  | GetCFHeadersMsg m => getcfheaders_wf m
  | GetCFCheckptMsg m => getcfcheckpt_wf m
  | CFilterMsg m => cfilter_wf m
  | CFHeadersMsg m => cfheaders_wf m
  | CFCheckptMsg m => cfcheckpt_wf m
  end.

Definition message_bytes (pver : Z) (enc : MessageEncoding) (msg : Message) : bytes :=
  match msg with
  | VersionMsg m => version_bytes pver m
  | VerAckMsg | GetAddrMsg | MemPoolMsg | FilterClearMsg | SendHeadersMsg => []
  | AddrMsg m => addr_bytes pver m
  | GetBlocksMsg m => getblocks_bytes m
  | BlockMsg m => block_bytes enc m
  | InvMsg m => inv_bytes (inv_InvList m)
  | GetDataMsg m => inv_bytes (gd_InvList m)
  | NotFoundMsg m => inv_bytes (nf_InvList m)
  | TxMsg m => tx_enc enc m
  | PingMsg m => ping_bytes pver m
  | PongMsg m => pong_bytes m
  | GetHeadersMsg m => getheaders_bytes m
  | HeadersMsg m => headers_bytes m
  | AlertMsg m => msgalert_bytes m
  | FilterAddMsg m => filteradd_bytes m
  | FilterLoadMsg m => filterload_bytes m
  | MerkleBlockMsg m => merkle_bytes m
  | RejectMsg m => reject_bytes m
  | FeeFilterMsg m => feefilter_bytes m
  | GetCFiltersMsg m => getcfilters_bytes m
  | GetCFHeadersMsg m => getcfheaders_bytes m
  | GetCFCheckptMsg m => getcfcheckpt_bytes m
  | CFilterMsg m => cfilter_bytes m
  | CFHeadersMsg m => cfheaders_bytes m
  | CFCheckptMsg m => cfcheckpt_bytes m
  end.

#[export] Instance Message_writes pver enc :
  Writes (Message_ThtEncode pver enc) (message_wf pver enc) (message_bytes pver enc).
Proof.
  intros msg w Hwf.
  destruct msg; cbn [Message_ThtEncode message_wf message_bytes] in *;
    try (first [exact (MsgInv_writes m w Hwf) | exact (MsgGetData_writes m w Hwf)
      | exact (MsgNotFound_writes m w Hwf) | exact (ThtEncode_Writes enc m w (proj1 Hwf))]);
    try (apply writes; exact Hwf);
    try (unfold retM; by rewrite app_nil_r);
    unfold MsgMemPool_ThtEncode, MsgFilterClear_ThtEncode, MsgSendHeaders_ThtEncode; ztest;
    unfold retM; by rewrite app_nil_r.
Qed.

(** The empty message of the same type, into which a message is decoded. *)
Lemma Message_reads pver enc msg :
  message_wf pver enc msg ->
  exists m0, makeEmptyMessage (Command msg) = Ret m0
    /\ MaxPayloadLength pver m0 = MaxPayloadLength pver msg
    /\ Message_ThtDecode pver enc m0 (message_bytes pver enc msg) = (Ret msg, []).
Proof.
  intros Hwf.
  destruct msg; cbn [message_wf message_bytes] in *; (eexists; split; [reflexivity|split; [reflexivity|]]);
    cbn [Message_ThtDecode]; try done;
    try (erewrite bindM_step by (first [exact (Reads_ReadsAll _ _ _ MsgInv_reads m Hwf)
      | exact (Reads_ReadsAll _ _ _ MsgGetData_reads m Hwf)
      | exact (Reads_ReadsAll _ _ _ MsgNotFound_reads m Hwf) | apply reads_all; exact Hwf]); done);
    unfold MsgMemPool_ThtDecode, MsgFilterClear_ThtDecode, MsgSendHeaders_ThtDecode; by ztest.
Qed.

#[export] Instance Message_no_panic pver enc msg : NoPanic (Message_ThtDecode pver enc msg).
Proof.
  destruct msg; cbn [Message_ThtDecode];
    unfold MsgMemPool_ThtDecode, MsgFilterClear_ThtDecode, MsgSendHeaders_ThtDecode; apply _.
Qed.

(** ** The header *)

Definition header24 (net : Z) (cmd : bytes) (len : Z) (checksum : bytes) : bytes :=
  int_bytes TNetMagic net ++ raw (cmd ++ replicate (Z.to_nat (CommandSize - zlen cmd)) (z2b 0))
  ++ int_bytes TUint32 len ++ raw checksum.

(** Commands fit their field, do not end in zero and are plain text. *)
Lemma Command_ok msg :
  zlen (Command msg) <= CommandSize /\ ascii (Command msg)
  /\ trimRightZeros (Command msg ++ replicate (Z.to_nat (CommandSize - zlen (Command msg))) (z2b 0))
     = Command msg.
Proof.
  destruct msg; (split_and!; [vm_compute; congruence| |reflexivity]);
    repeat (constructor; [reflexivity|]); constructor.
Qed.

Lemma padded_command cmd :
  zlen cmd <= CommandSize ->
  bytes_wf TCommand (cmd ++ replicate (Z.to_nat (CommandSize - zlen cmd)) (z2b 0)).
Proof. intros Hc. pose proof (zlen_nonneg cmd). unfold bytes_wf. cbn. autorewrite with zlen. lia. Qed.

Lemma zlen_header24 net cmd len ck :
  zlen cmd <= CommandSize -> zlen ck = 4 -> zlen (header24 net cmd len ck) = MessageHeaderSize.
Proof.
  intros Hc Hk. unfold header24. rewrite !zlen_app, !zlen_int_bytes, !zlen_raw, (padded_command cmd Hc), Hk. done.
Qed.

Lemma readMessageHeader_reads net msg len ck r :
  int_range TNetMagic net -> int_range TUint32 len -> zlen ck = 4 ->
  readMessageHeader (header24 net (Command msg) len ck ++ r)
  = (Ret (mkMessageHeader net (Command msg) len ck), r).
Proof.
  intros Hn Hl Hk. destruct (Command_ok msg) as (Hc & _ & Ht). unfold readMessageHeader.
  erewrite bindM_step by (by apply ReadFull_app, zlen_header24). unfold liftO, parseMessageHeader.
  pose proof (padded_command (Command msg) Hc). f_equal.
  unfold header24. rewrite <- (app_nil_r (raw ck)). do 4 step_reads. cbn. by rewrite Ht.
Qed.

(** ** Dropped input *)

Lemma discard_read n r : 0 <= n -> exists x, orElse (ReadFull n) [] r = (Ret x, drop (Z.to_nat n) r).
Proof.
  intros Hn. unfold orElse, ReadFull. destruct (Z.leb_spec n (zlen r)) as [Hle|Hlt]; [by eexists|].
  destruct r as [|b r]; [by exists []; rewrite drop_nil|]. exists []. rewrite drop_ge; [done|].
  unfold zlen in *. lia.
Qed.

Lemma discard_repeat k n r :
  0 <= n -> exists x, repeatM k (orElse (ReadFull n) []) r = (Ret x, drop (k * Z.to_nat n) r).
Proof.
  intros Hn. revert r. induction k as [|k IH]; intros r; cbn [repeatM].
  - exists []. by rewrite drop_0.
  - destruct (discard_read n r Hn) as [x Hx]. destruct (IH (drop (Z.to_nat n) r)) as [xs Hxs].
    exists (x :: xs). rewrite (bindM_step _ _ _ _ _ Hx), (bindM_step _ _ _ _ _ Hxs). unfold retM.
    by rewrite drop_drop.
Qed.

Lemma discardInput_spec n r : 0 <= n -> discardInput n r = (Ret tt, drop (Z.to_nat n) r).
Proof.
  intros Hn. unfold discardInput. cbv zeta.
  set (q := n / (10 * 1024)). set (m := n mod (10 * 1024)).
  assert (n = 10240 * q + m /\ 0 <= q /\ 0 <= m < 10240) as (Hq & Hq0 & Hm).
  { subst q m. split_and!; [apply Z.div_mod; lia|apply Z.div_pos; lia|apply Z.mod_pos_bound; lia..]. }
  assert ((if n >? 0 then repeatM (Z.to_nat q) (orElse (ReadFull (10 * 1024)) []) ;; retM tt else retM tt) r
    = (Ret tt, drop (Z.to_nat q * Z.to_nat 10240) r)) as H1.
  { destruct (Z.gtb_spec n 0).
    - destruct (discard_repeat (Z.to_nat q) 10240 r) as [x Hx]; [lia|]. by rewrite (bindM_step _ _ _ _ _ Hx).
    - assert (q = 0) as -> by lia. cbn. by rewrite drop_0. }
  rewrite (bindM_step _ _ _ _ _ H1). destruct (Z.gtb_spec m 0).
  - destruct (discard_read m (drop (Z.to_nat q * Z.to_nat 10240) r)) as [x Hx]; [lia|].
    rewrite (bindM_step _ _ _ _ _ Hx). unfold retM. rewrite drop_drop. do 2 f_equal. lia.
  - unfold retM. do 2 f_equal. lia.
Qed.

#[export] Instance discardInput_no_panic n : NoPanic (discardInput n).
Proof. unfold discardInput. apply _. Qed.

(** ** Sizes *)

Lemma zlen_list_bytes {A} (enc : A -> bytes) wf c l :
  (forall x, wf x -> zlen (enc x) = c) -> Forall wf l -> zlen (list_bytes enc l) = c * zlen l.
Proof.
  intros Hc Hl. unfold list_bytes. induction Hl as [|x l Hx Hl IH]; cbn [map concat].
  - rewrite (@zlen_nil A), (@zlen_nil byte). lia.
  - rewrite zlen_app, zlen_cons, IH, Hc by done. lia.
Qed.

Lemma zlen_counted {A} (enc : A -> bytes) wf c l :
  (forall x, wf x -> zlen (enc x) = c) -> Forall wf l ->
  zlen (counted enc l) <= 9 + c * zlen l.
Proof.
  intros Hc Hl. unfold counted. rewrite zlen_app, zlen_varint_bytes, (zlen_list_bytes enc wf c) by done.
  pose proof (VarIntSerializeSize_range (zlen l)). lia.
Qed.

Lemma zlen_iv_bytes iv : iv_wf iv -> zlen (iv_bytes iv) = maxInvVectPayload.
Proof. intros [_ Hh]. unfold iv_bytes, bytes_wf in *. autorewrite with zlen. by rewrite Hh. Qed.

Lemma zlen_hash h : bytes_wf THash h -> zlen (raw h) = 32.
Proof. done. Qed.

Lemma zlen_entry_bytes bh : header_wf bh -> zlen (entry_bytes bh) = 81.
Proof. intros Hb. unfold entry_bytes. by rewrite zlen_app, zlen_header_bytes. Qed.

Lemma VarIntSerializeSize_mono a b : 0 <= a <= b -> VarIntSerializeSize a <= VarIntSerializeSize b.
Proof. intros Hab. unfold VarIntSerializeSize. repeat case_match; zbool; lia. Qed.

Lemma zlen_varbytes_le bs n : zlen bs <= n -> zlen (varbytes bs) <= VarIntSerializeSize n + n.
Proof.
  intros Hn. pose proof (zlen_nonneg bs). rewrite zlen_varbytes.
  pose proof (VarIntSerializeSize_mono (zlen bs) n). lia.
Qed.

(** The messages whose encoders limit what they write. *)
Definition limited (msg : Message) : bool :=
  match msg with
  | BlockMsg _ | TxMsg _ | MerkleBlockMsg _ | RejectMsg _ | AlertMsg _ => false
  | _ => true
  end.

Lemma inv_fits l : inv_wf l -> zlen (inv_bytes l) <= MaxVarIntPayload + MaxInvPerMsg * maxInvVectPayload.
Proof.
  intros [Hn Hl]. pose proof (zlen_counted iv_bytes iv_wf _ l zlen_iv_bytes Hl). unfold inv_bytes. lia.
Qed.

Lemma locator_fits v l s :
  locator_wf v l s -> zlen (locator_bytes v l s) <= 4 + MaxVarIntPayload + MaxBlockLocatorsPerMsg * 32 + 32.
Proof.
  intros (_ & Hn & Hl & Hs). unfold locator_bytes, bytes_wf in *.
  pose proof (zlen_counted raw _ _ l zlen_hash Hl). rewrite !zlen_app, zlen_int_bytes, zlen_raw, Hs. cbn. lia.
Qed.

Ltac payload_limit :=
  cbn [MaxPayloadLength]; unfold MsgVersion_MaxPayloadLength, MsgAddr_MaxPayloadLength, MsgPing_MaxPayloadLength, MsgPong_MaxPayloadLength, MsgReject_MaxPayloadLength, MsgGetBlocks_MaxPayloadLength, MsgGetHeaders_MaxPayloadLength, MsgInv_MaxPayloadLength, MsgGetData_MaxPayloadLength, MsgNotFound_MaxPayloadLength, MsgHeaders_MaxPayloadLength, MsgFilterAdd_MaxPayloadLength, MsgFilterLoad_MaxPayloadLength, MsgGetCFilters_MaxPayloadLength, MsgGetCFHeaders_MaxPayloadLength, MsgGetCFCheckpt_MaxPayloadLength, MsgCFilter_MaxPayloadLength, MsgCFHeaders_MaxPayloadLength.

Lemma addr_fits pver m :
  addr_wf pver m -> zlen (addr_bytes pver m) <= MaxPayloadLength pver (AddrMsg m).
Proof.
  intros (Hn & H1 & Hl). unfold addr_bytes. payload_limit. unfold maxNetAddressPayload.
  pose proof (zlen_counted _ _ _ _ (zlen_na_bytes pver true zeroTime) Hl) as Hz.
  unfold na_timed in Hz. cbn [andb] in Hz. pose proof (zlen_nonneg (ma_AddrList m)).
  destruct (Z.ltb_spec pver MultipleAddressVersion); [specialize (H1 ltac:(lia))|]; case_match; lia.
Qed.

Lemma version_fits pver m :
  version_wf pver zeroVersion m -> zlen (version_bytes pver m) <= MaxPayloadLength pver (VersionMsg m).
Proof.
  intros (_ & _ & _ & Hy & Hm & _ & Hu & _). unfold version_bytes, version_tail. payload_limit.
  rewrite !zlen_app, !zlen_int_bytes, (zlen_na_bytes _ _ _ _ Hy), (zlen_na_bytes _ _ _ _ Hm).
  pose proof (zlen_varbytes_le (mv_UserAgent m) _ Hu) as Hz. cbn in Hz. cbn [int_size na_timed andb].
  unfold maxNetAddressPayload. repeat case_match; rewrite ?(@zlen_nil byte);
    try (unfold bool_bytes; rewrite zlen_le_bytes); lia.
Qed.

Lemma payload_fits pver enc msg :
  message_wf pver enc msg -> limited msg = true ->
  zlen (message_bytes pver enc msg) <= MaxPayloadLength pver msg <= MaxMessagePayload.
Proof.
  assert (26 <= maxNetAddressPayload pver <= 30)
    by (unfold maxNetAddressPayload; destruct (pver >=? NetAddressTimeVersion); lia).
  intros Hwf Hl. split.
  2:{ destruct msg; try done; payload_limit; repeat case_match; try done; lia. }
  destruct msg; try discriminate Hl; cbn [message_wf message_bytes] in Hwf |- *.
  - by apply version_fits.
  - done.
  - done.
  - by apply addr_fits.
  - by apply locator_fits.
  - by apply inv_fits.
  - by apply inv_fits.
  - by apply inv_fits.
  - payload_limit. unfold ping_bytes. case_match; [by rewrite zlen_int_bytes|done].
  - payload_limit. destruct Hwf as [Hp _]. unfold pong_bytes. ztest. by rewrite zlen_int_bytes.
  - by apply locator_fits.
  - destruct Hwf as [Hn Hh]. pose proof (zlen_counted _ _ _ _ zlen_entry_bytes Hh).
    unfold headers_bytes. payload_limit. lia.
  - done.
  - by apply zlen_varbytes_le, Hwf.
  - done.
  - payload_limit. destruct Hwf as (_ & Hf & _). pose proof (zlen_varbytes_le _ _ Hf). unfold filterload_bytes.
    rewrite !zlen_app, !zlen_int_bytes. cbn [int_size]. lia.
  - done.
  - unfold feefilter_bytes. by rewrite zlen_int_bytes.
  - destruct Hwf as (_ & _ & Hh). unfold getcfilters_bytes, bytes_wf in *.
    rewrite !zlen_app, !zlen_int_bytes, zlen_raw, Hh. done.
  - destruct Hwf as (_ & _ & Hh). unfold getcfheaders_bytes, bytes_wf in *.
    rewrite !zlen_app, !zlen_int_bytes, zlen_raw, Hh. done.
  - destruct Hwf as (_ & Hh). unfold getcfcheckpt_bytes, bytes_wf in *.
    rewrite !zlen_app, !zlen_int_bytes, zlen_raw, Hh. done.
  - destruct Hwf as (_ & Hh & Hd). unfold cfilter_bytes, bytes_wf in *.
    pose proof (zlen_varbytes_le _ _ Hd). rewrite !zlen_app, !zlen_int_bytes, zlen_raw, Hh. payload_limit; cbn [int_size bytes_size]. lia.
  - destruct Hwf as (_ & Hh & Hp & Hn & Hd). unfold cfheaders_bytes, bytes_wf in *.
    pose proof (zlen_counted raw _ _ _ zlen_hash Hd).
    rewrite !zlen_app, !zlen_int_bytes, !zlen_raw, Hh, Hp. payload_limit; cbn [int_size bytes_size]. lia.
  - destruct Hwf as (_ & Hh & Hn & Hd). unfold cfcheckpt_bytes, bytes_wf in *.
    pose proof (zlen_counted raw _ _ _ zlen_hash Hd).
    rewrite !zlen_app, !zlen_int_bytes, !zlen_raw, Hh. payload_limit; cbn [int_size bytes_size]. lia.
Qed.

(** ** Writing and reading *)

Section correctness.
Context `{Crypto} `{!CryptoLaws _}.

Lemma payloadChecksum_ok p : exists ck, payloadChecksum p = Ret ck /\ zlen ck = 4.
Proof using CryptoLaws0.
  unfold payloadChecksum, DoubleHashB. pose proof (sha256_len (sha256 p)) as Hl.
  rewrite zslice_Some by lia. eexists. split; [done|]. rewrite zlen_take. autorewrite with zlen. lia.
Qed.

Lemma WriteMessage_writes msg pver net enc w ck :
  message_wf pver enc msg -> int_range TNetMagic net ->
  zlen (message_bytes pver enc msg) <= MaxPayloadLength pver msg ->
  zlen (message_bytes pver enc msg) <= MaxMessagePayload ->
  payloadChecksum (message_bytes pver enc msg) = Ret ck -> zlen ck = 4 ->
  let p := message_bytes pver enc msg in
  WriteMessageWithEncodingN msg pver net enc w
  = (Ret (24 + zlen p), w ++ header24 net (Command msg) (zlen p) ck ++ p).
Proof.
  intros Hwf Hn Hm1 Hm2 Hck Hk p. fold p in Hm1, Hm2, Hck.
  destruct (Command_ok msg) as (Hc & _ & _). pose proof (padded_command _ Hc) as Hpad.
  pose proof (zlen_nonneg p). assert (int_range TUint32 (zlen p)) as Hr by (cbn; lia).
  unfold WriteMessageWithEncodingN. cbv zeta. ztest.
  rewrite (writes msg [] Hwf). fold p. rewrite app_nil_l. cbn [bindO].
  erewrite bindM_step by reflexivity. rewrite u32_id by lia. ztest.
  rewrite Hck. erewrite bindM_step by reflexivity.
  match goal with |- context [(?m : RM unit) []] =>
    assert (m [] = (Ret tt, header24 net (Command msg) (zlen p) ck)) as -> end.
  { unfold header24. rewrite <- (app_nil_l (int_bytes TNetMagic net ++ _)). run_writes. }
  cbn [bindO]. erewrite bindM_step by reflexivity. erewrite bindM_step by reflexivity.
  pose proof (zlen_header24 net (Command msg) (zlen p) ck Hc Hk) as Hz.
  destruct (Z.ltb_spec 0 (zlen p)) as [Hp|Hp]; erewrite bindM_step by reflexivity; unfold retM;
    rewrite Hz; [by rewrite <- app_assoc|].
  assert (p = []) as -> by (apply zlen_0_inv; lia). by rewrite app_nil_r.
Qed.

Lemma ReadMessage_reads msg pver net enc r ck :
  message_wf pver enc msg -> int_range TNetMagic net ->
  zlen (message_bytes pver enc msg) <= MaxPayloadLength pver msg ->
  zlen (message_bytes pver enc msg) <= MaxMessagePayload ->
  payloadChecksum (message_bytes pver enc msg) = Ret ck -> zlen ck = 4 ->
  let p := message_bytes pver enc msg in
  ReadMessageWithEncodingN pver net enc (header24 net (Command msg) (zlen p) ck ++ p ++ r)
  = (Ret (24 + zlen p, msg, p), r).
Proof.
  intros Hwf Hn Hm1 Hm2 Hck Hk p. fold p in Hm1, Hm2, Hck. pose proof (zlen_nonneg p).
  assert (int_range TUint32 (zlen p)) as Hr by (cbn; lia). unfold ReadMessageWithEncodingN.
  erewrite bindM_step by (by apply readMessageHeader_reads). cbv zeta.
  cbn [hdr_length hdr_magic hdr_command hdr_checksum]. ztest. cbn [negb].
  rewrite ValidString_ascii by apply Command_ok. cbn [negb].
  destruct (Message_reads pver enc msg Hwf) as (m0 & -> & Hmax & Hdec). rewrite Hmax. ztest.
  erewrite bindM_step by (by apply ReadFull_app). rewrite Hck. erewrite bindM_step by reflexivity.
  rewrite bool_decide_eq_true_2 by done. cbn [negb]. fold p in Hdec. rewrite Hdec.
  by erewrite bindM_step by reflexivity.
Qed.

Lemma ReadMessage_other msg pver net net' len ck p r enc :
  int_range TNetMagic net -> net <> net' -> zlen ck = 4 -> zlen p = len -> len <= MaxMessagePayload ->
  ReadMessageWithEncodingN pver net' enc (header24 net (Command msg) len ck ++ p ++ r)
  = (Fail (MessageError "ReadMessage"), r).
Proof.
  intros Hn Hne Hk Hp Hl. pose proof (zlen_nonneg p). unfold ReadMessageWithEncodingN.
  erewrite bindM_step by (apply readMessageHeader_reads; [done|cbn; lia|done]). cbv zeta.
  cbn [hdr_length hdr_magic]. ztest. cbn [negb].
  unfold bindM at 1. rewrite discardInput_spec by lia.
  rewrite <- Hp, zlen_to_nat, drop_app_length. done.
Qed.
End correctness.

(** ** What a reader accepts *)

Lemma makeEmptyMessage_Command command m : makeEmptyMessage command = Ret m -> Command m = command.
Proof.
  unfold makeEmptyMessage. destruct (find _ emptyMessages) as [m'|] eqn:E; [|done]. intros [= <-].
  apply find_some in E as [_ E]. symmetry. by apply bool_decide_eq_true in E.
Qed.

(** Decoding does not change the type of a message. *)
Lemma Message_ThtDecode_type pver enc m0 p m r :
  Message_ThtDecode pver enc m0 p = (Ret m, r) ->
  Command m = Command m0 /\ MaxPayloadLength pver m = MaxPayloadLength pver m0.
Proof.
  destruct m0; cbn [Message_ThtDecode]; intros Hd; try inv_bind Hd; by injection Hd as <- <-.
Qed.

Definition accepted `{Crypto} (pver net : Z) (enc : MessageEncoding) (n : Z) (msg : Message)
    (payload hdr : bytes) : Prop :=
  exists h ck m0,
    parseMessageHeader hdr = Ret h /\ zlen hdr = MessageHeaderSize /\ hdr_magic h = net
    /\ hdr_command h = Command msg /\ hdr_length h = zlen payload
    /\ payloadChecksum payload = Ret ck /\ hdr_checksum h = ck
    /\ zlen payload <= MaxPayloadLength pver msg /\ zlen payload <= MaxMessagePayload
    /\ makeEmptyMessage (Command msg) = Ret m0 /\ (Message_ThtDecode pver enc m0 payload).1 = Ret msg
    /\ n = MessageHeaderSize + zlen payload.

Lemma header_length hdr h : parseMessageHeader hdr = Ret h -> 0 <= hdr_length h.
Proof.
  intros Hh. unfold parseMessageHeader, bindM in Hh. destruct (readInt TNetMagic hdr) as [[]]; try done.
  destruct (readBytes TCommand _) as [[]]; try done.
  destruct (readInt TUint32 _) as [[]] eqn:El; try done. apply canon in El as [[? _] _].
  destruct (readBytes TChecksum _) as [[]]; try done. by injection Hh as <-.
Qed.

(** Any 24 bytes are a header. *)
Lemma header_parses hdr : zlen hdr = MessageHeaderSize -> exists h, parseMessageHeader hdr = Ret h.
Proof.
  intros Hl.
  assert (exists a b c d, hdr = a ++ b ++ c ++ d /\ zlen a = 4 /\ zlen b = 12 /\ zlen c = 4 /\ zlen d = 4)
    as (a & b & c & d & -> & Ha & Hb & Hc & Hd).
  { exists (take 4 hdr), (take 12 (drop 4 hdr)), (take 4 (drop 12 (drop 4 hdr))), (drop 4 (drop 12 (drop 4 hdr))).
    rewrite !take_drop. split; [done|]. unfold zlen in *. rewrite !length_take, !length_drop. lia. }
  assert (forall x, zlen x = 4 -> int_range TUint32 (le_val x) /\ x = le_bytes 4 (u32 (le_val x))) as Hint.
  { intros x Hx. pose proof (le_val_bound x) as Hv. rewrite Hx in Hv. change (256 ^ 4) with (2 ^ 32) in Hv.
    split; [exact Hv|]. rewrite u32_id by lia. rewrite <- (le_bytes_le_val x) at 1. f_equal. unfold zlen in Hx. lia. }
  destruct (Hint a Ha) as [Ra Ea], (Hint c Hc) as [Rc Ec]. clear Hint.
  remember (le_val a) as va eqn:Hva. remember (le_val c) as vc eqn:Hvc. clear Hva Hvc. subst a c.
  unfold parseMessageHeader. change (le_bytes 4 (u32 va)) with (int_bytes TNetMagic va).
  change (le_bytes 4 (u32 vc)) with (int_bytes TUint32 vc). change b with (raw b). change d with (raw d).
  rewrite <- (app_nil_r (raw d)). eexists. do 4 step_reads. reflexivity.
Qed.

Lemma ReadMessage_accepts `{Crypto} pver net enc r n msg payload r' :
  ReadMessageWithEncodingN pver net enc r = (Ret (n, msg, payload), r') ->
  exists hdr, accepted pver net enc n msg payload hdr /\ r = hdr ++ payload ++ r'.
Proof.
  unfold ReadMessageWithEncodingN. intros Hr. inv_bind Hr. rename a into h.
  unfold readMessageHeader in Hm. inv_bind Hm. rename a into hdr.
  apply ReadFull_spec in Hm0 as [-> Hlen]; [|lia]. unfold liftO in Hm. injection Hm as Hh <-.
  case_match; [done|]. destruct (hdr_magic h =? net) eqn:Em; cbn [negb] in Hr; [|inv_bind Hr; done].
  destruct (ValidString (hdr_command h)); cbn [negb] in Hr; [|inv_bind Hr; done].
  destruct (makeEmptyMessage (hdr_command h)) as [m0|e| |] eqn:Ee; try done; [|inv_bind Hr; done].
  case_match; [inv_bind Hr; done|]. inv_bind Hr. zbool.
  pose proof (header_length hdr h Hh) as Hl0.
  apply ReadFull_spec in Hm as [-> Hpl]; [|done]. inv_bind Hr. unfold liftO in Hm. injection Hm as Hck <-.
  case_bool_decide as Hcks; cbn [negb] in Hr; [|done]. inv_bind Hr. injection Hm as Hdec <-.
  injection Hr as <- <- <- <-. exists hdr. split; [|done].
  destruct (Message_ThtDecode pver enc m0 a) as [o rest] eqn:Ed. cbn in Hdec. subst o.
  destruct (Message_ThtDecode_type _ _ _ _ _ _ Ed) as [Hcmd Hmx].
  pose proof (makeEmptyMessage_Command _ _ Ee) as Hc. exists h, a0, m0. rewrite Hcmd, Hc, Ed, Hmx.
  split_and!; try done; lia.
Qed.

#[export] Instance parseHeader_no_panic b : NoPanic (liftO (parseMessageHeader b) : RM messageHeader).
Proof.
  intros s. unfold liftO, parseMessageHeader. cbn [fst].
  apply (no_panic (m := bindM _ _) b).
Qed.

Lemma ReadMessage_no_panic `{Crypto} `{!CryptoLaws _} pver net enc :
  NoPanic (ReadMessageWithEncodingN pver net enc).
Proof.
  assert (forall p, NoPanic (liftO (payloadChecksum p) : RM bytes)).
  { intros p s. destruct (payloadChecksum_ok p) as (ck & E & _). unfold liftO. by rewrite E. }
  assert (forall m p, NoPanic (liftO (Message_ThtDecode pver enc m p).1 : RM Message)).
  { intros m p s. unfold liftO. exact (Message_no_panic pver enc m p). }
  unfold ReadMessageWithEncodingN, readMessageHeader. cbv zeta. apply no_panic_bind; [apply _|]. intros h.
  do 3 (apply no_panic_if; [apply _|]). unfold makeEmptyMessage. destruct (find _ emptyMessages); apply _.
Qed.

(** ** Properties *)

(** C35: a message survives the wire: writing a well-formed message whose payload
    is within the limits returns the number of bytes written, reading them with
    the same network, protocol version and encoding returns the message and its
    payload and leaves the rest of the stream; and a reader of another network
    refuses it and skips exactly the bytes of the message, so that the stream
    stays in step. *)
Theorem Message_roundtrip `{Crypto} `{!CryptoLaws _} (msg : Message) (pver net net' : Z)
    (enc : MessageEncoding) (r : bytes) :
  message_wf pver enc msg -> 0 <= net < 2 ^ 32 -> net <> net' ->
  zlen (message_bytes pver enc msg) <= MaxPayloadLength pver msg ->
  zlen (message_bytes pver enc msg) <= MaxMessagePayload ->
  exists n out payload,
    WriteMessageWithEncodingN msg pver net enc [] = (Ret n, out) /\ zlen out = n
    /\ ReadMessageWithEncodingN pver net enc (out ++ r) = (Ret (n, msg, payload), r)
    /\ ReadMessageWithEncodingN pver net' enc (out ++ r) = (Fail (MessageError "ReadMessage"), r).
Proof.
  intros Hwf Hn Hne H1 H2. set (p := message_bytes pver enc msg).
  destruct (payloadChecksum_ok p) as (ck & Hck & Hk). destruct (Command_ok msg) as (Hc & _ & _).
  exists (24 + zlen p), (header24 net (Command msg) (zlen p) ck ++ p), p. split_and!.
  - by rewrite (WriteMessage_writes msg pver net enc [] ck).
  - by rewrite zlen_app, zlen_header24.
  - rewrite <- app_assoc. by apply ReadMessage_reads.
  - rewrite <- app_assoc. by apply ReadMessage_other.
Qed.

(** What a reader has consumed when it refuses a message: all of an input that is
    too short for a header; the header alone if the length it gives is over the
    limit of all messages; and otherwise the header and the payload, or what there
    is of it. *)
Definition refused_rest (r r' : bytes) : Prop :=
  zlen r < MessageHeaderSize /\ r' = []
  \/ exists hdr h rest, r = hdr ++ rest /\ zlen hdr = MessageHeaderSize /\ parseMessageHeader hdr = Ret h
       /\ r' = if hdr_length h >? MaxMessagePayload then rest else drop (Z.to_nat (hdr_length h)) rest.

Lemma ReadMessage_refuses `{Crypto} `{!CryptoLaws _} pver net enc r e r' :
  ReadMessageWithEncodingN pver net enc r = (Fail e, r') -> refused_rest r r'.
Proof.
  intros Hr. destruct (Z.lt_ge_cases (zlen r) MessageHeaderSize) as [Hs|Hs].
  { left. split; [done|]. revert Hr. unfold ReadMessageWithEncodingN, readMessageHeader, bindM, ReadFull. ztest.
    by destruct r; intros [= _ <-]. }
  right. rewrite <- (take_drop 24 r) in Hr |- *.
  assert (zlen (take 24 r) = MessageHeaderSize) as Hl by (unfold zlen in *; rewrite length_take; lia).
  destruct (header_parses _ Hl) as [h Hh]. pose proof (header_length _ _ Hh) as H0.
  set (hdr := take 24 r) in *. set (rest := drop 24 r) in *. exists hdr, h, rest. split_and!; [done|done|done|].
  revert Hr. unfold ReadMessageWithEncodingN. rewrite (bindM_step _ _ (hdr ++ rest) h rest)
    by (unfold readMessageHeader; erewrite bindM_step by (by apply ReadFull_app); by rewrite Hh).
  cbv zeta. destruct (hdr_length h >? MaxMessagePayload); [by intros [= _ <-]|].
  assert (forall A e', (discardInput (hdr_length h) ;; failM e' : RM A) rest
    = (Fail e', drop (Z.to_nat (hdr_length h)) rest)) as Hdis
    by (intros A e'; unfold bindM; by rewrite discardInput_spec).
  repeat (case_match; [rewrite Hdis; by intros [= _ <-]|]).
  destruct (makeEmptyMessage (hdr_command h)) as [m| | |]; [|rewrite Hdis; by intros [= _ <-]|done|done].
  case_match; [rewrite Hdis; by intros [= _ <-]|]. unfold bindM at 1, ReadFull.
  destruct (Z.leb_spec (hdr_length h) (zlen rest)) as [Hle|Hlt].
  - destruct (payloadChecksum_ok (take (Z.to_nat (hdr_length h)) rest)) as (ck & -> & _).
    erewrite bindM_step by reflexivity. case_match; [by intros [= _ <-]|]. unfold bindM, liftO.
    by destruct (Message_ThtDecode _ _ _ _).1; intros [= _ <-].
  - rewrite drop_ge by (unfold zlen in *; lia). by destruct rest; intros [= _ <-].
Qed.

(** A framed message is accepted. *)
Lemma ReadMessage_complete `{Crypto} pver net enc n msg payload hdr r :
  accepted pver net enc n msg payload hdr ->
  ReadMessageWithEncodingN pver net enc (hdr ++ payload ++ r) = (Ret (n, msg, payload), r).
Proof.
  intros (h & ck & m0 & Hh & Hl & Hn & Hc & Hlen & Hck & Hk & Hmax & Hmp & He & Hd & ->).
  unfold ReadMessageWithEncodingN. rewrite (bindM_step _ _ _ h (payload ++ r))
    by (unfold readMessageHeader; erewrite bindM_step by (by apply ReadFull_app); by rewrite Hh).
  cbv zeta. rewrite Hlen, Hn, Hc. ztest. cbn [negb]. rewrite ValidString_ascii by apply Command_ok. cbn [negb].
  rewrite He. destruct (Message_ThtDecode pver enc m0 payload) as [o rest] eqn:Ed. cbn in Hd. subst o.
  destruct (Message_ThtDecode_type _ _ _ _ _ _ Ed) as [_ Hmx]. rewrite <- Hmx. ztest.
  erewrite bindM_step by (by apply ReadFull_app). rewrite Hck. erewrite bindM_step by reflexivity.
  rewrite bool_decide_eq_true_2 by done. cbn [negb]. rewrite Ed. by erewrite bindM_step by reflexivity.
Qed.

(** C36: reading a message from arbitrary bytes never panics; it accepts exactly
    what was framed correctly: the input starts with a header of 24 bytes
    for this network, with the command of the message, the length of the payload
    and its checksum; the payload is within the limits of its type and decodes to
    the message, and exactly header and payload are consumed.  A message that is
    refused is skipped, header and payload, so that the stream stays in step,
    unless the length in its header is over [MaxMessagePayload]: then only the
    header is consumed. *)
Theorem ReadMessage_sound `{Crypto} `{!CryptoLaws _} (pver net : Z) (enc : MessageEncoding) (r : bytes) :
  match ReadMessageWithEncodingN pver net enc r with
  | (Ret (n, msg, payload), r') =>
      exists hdr, accepted pver net enc n msg payload hdr /\ r = hdr ++ payload ++ r'
  | (Fail _, r') =>
      refused_rest r r' /\ forall n msg payload hdr r0, accepted pver net enc n msg payload hdr -> r <> hdr ++ payload ++ r0
  | (Crash, _) | (NoFuel, _) => False
  end.
Proof.
  pose proof (ReadMessage_no_panic pver net enc r) as Hp.
  destruct (ReadMessageWithEncodingN pver net enc r) as [[[[n msg] payload]|e| |] r'] eqn:E; try done.
  - by apply ReadMessage_accepts.
  - split; [by eapply ReadMessage_refuses|]. intros n msg payload hdr r0 Ha ->.
    by rewrite (ReadMessage_complete _ _ _ _ _ _ _ _ Ha) in E.
Qed.

(** C37: [MaxPayloadLength] is large enough: for every message type whose encoder
    limits what it writes, the payload of a message the encoder accepts has at
    most [MaxPayloadLength] bytes, and that is at most [MaxMessagePayload]; so
    that writing such a message to the network never fails on its size. *)
Theorem MaxPayloadLength_adequate `{Crypto} `{!CryptoLaws _} (msg : Message) (pver net : Z)
    (enc : MessageEncoding) :
  message_wf pver enc msg -> limited msg = true -> 0 <= net < 2 ^ 32 ->
  exists out payload,
    Message_ThtEncode pver enc msg [] = (Ret tt, payload)
    /\ zlen payload <= MaxPayloadLength pver msg <= MaxMessagePayload
    /\ WriteMessageWithEncodingN msg pver net enc [] = (Ret (MessageHeaderSize + zlen payload), out).
Proof.
  intros Hwf Hl Hn. destruct (payload_fits pver enc msg Hwf Hl) as [H1 H2].
  destruct (payloadChecksum_ok (message_bytes pver enc msg)) as (ck & Hck & Hk).
  eexists _, (message_bytes pver enc msg). split_and!; [exact (writes msg [] Hwf)|done|done|].
  apply (WriteMessage_writes msg pver net enc [] ck); try done. lia.
Qed.

(** ** Witnesses *)

Definition sample_version : Message :=
  VersionMsg (mkMsgVersion ProtocolVersion 1 1620000000
    (mkNetAddress zeroTime 1 (replicate 16 (z2b 7)) 10618)
    (mkNetAddress zeroTime 0 (replicate 16 (z2b 0)) 0) 99 (str "/rosetta_thought:0.18.2/") 1000 true).

Lemma sample_version_wf : message_wf ProtocolVersion BaseEncoding sample_version.
Proof. repeat split; vm_compute; congruence. Qed.

Lemma Message_roundtrip_witness :
  exists n out payload,
    WriteMessageWithEncodingN (H := toy) sample_version ProtocolVersion 5 BaseEncoding [] = (Ret n, out)
    /\ ReadMessageWithEncodingN (H := toy) ProtocolVersion 5 BaseEncoding (out ++ [z2b 1])
       = (Ret (n, sample_version, payload), [z2b 1]).
Proof.
  destruct (Message_roundtrip (H := toy) sample_version ProtocolVersion 5 6 BaseEncoding [z2b 1] sample_version_wf)
    as (n & out & payload & H1 & _ & H2 & _); [lia|lia|vm_compute; congruence|vm_compute; congruence|].
  by exists n, out, payload.
Defined.

Definition sample_wire : bytes :=
  Eval vm_compute in
    (WriteMessageWithEncodingN (H := toy) sample_version ProtocolVersion 5 BaseEncoding []).2 ++ [z2b 1].

Definition is_ret {A S E} (p : outcome E A * S) : bool :=
  match p with (Ret _, _) => true | _ => false end.

Lemma ReadMessage_sound_witness :
  exists n msg payload hdr r',
    ReadMessageWithEncodingN (H := toy) ProtocolVersion 5 BaseEncoding sample_wire = (Ret (n, msg, payload), r')
    /\ accepted (H := toy) ProtocolVersion 5 BaseEncoding n msg payload hdr
    /\ sample_wire = hdr ++ payload ++ r'.
Proof.
  assert (Hok : is_ret (ReadMessageWithEncodingN (H := toy) ProtocolVersion 5 BaseEncoding sample_wire) = true)
    by (vm_compute; reflexivity).
  pose proof (ReadMessage_sound (H := toy) ProtocolVersion 5 BaseEncoding sample_wire) as Hs.
  revert Hok Hs.
  generalize (ReadMessageWithEncodingN (H := toy) ProtocolVersion 5 BaseEncoding sample_wire).
  intros [[[[n msg] payload]|e| |] r'] Hok Hs; try done.
  destruct Hs as (hdr & Ha & Hr). by exists n, msg, payload, hdr, r'.
Defined.

Lemma MaxPayloadLength_adequate_witness :
  exists out (payload : bytes),
    WriteMessageWithEncodingN (H := toy) sample_version ProtocolVersion 5 BaseEncoding []
    = (Ret (24 + zlen payload), out).
Proof.
  destruct (MaxPayloadLength_adequate (H := toy) sample_version ProtocolVersion 5 BaseEncoding sample_version_wf)
    as (out & payload & _ & _ & H2); [reflexivity|lia|].
  by exists out, payload.
Defined.

(** A message of a type whose encoder has no limit of its own can be refused by
    its size only. *)
Example merkle_block_too_large :
  exists m, message_wf ProtocolVersion BaseEncoding (MerkleBlockMsg m)
    /\ MaxPayloadLength ProtocolVersion (MerkleBlockMsg m)
       < zlen (message_bytes ProtocolVersion BaseEncoding (MerkleBlockMsg m)).
Proof.
  exists (mkMsgMerkleBlock sample_header 0 (replicate (Z.to_nat 130000) (replicate 32 (z2b 0))) []). split.
  - split; [lia|]. split; [exact sample_header_wf|]. cbn [mm_Transactions mm_Hashes mm_Flags].
    rewrite zlen_replicate, Z2Nat.id by lia. split; [cbn; lia|]. split; [lia|].
    split; [by apply Forall_replicate|]. vm_compute. congruence.
  - cbn [message_bytes MaxPayloadLength]. unfold merkle_bytes, counted.
    cbn [mm_Header mm_Transactions mm_Hashes mm_Flags].
    rewrite !zlen_app, (zlen_list_bytes raw (bytes_wf THash) 32), zlen_replicate, Z2Nat.id
      by (done || lia || by apply Forall_replicate).
    pose proof (zlen_nonneg (header_bytes sample_header)). pose proof (varbytes_pos []).
    pose proof (zlen_nonneg (int_bytes TUint32 0)). pose proof (zlen_nonneg (varint_bytes 130000)). lia.
Qed.
