(* ===== verification/Digits.v ===== *)
(** Digit strings in any base, and decimal numbers as package strconv writes and
    reads them ([strconv.FormatInt], the verb [%d], [strconv.ParseUint]).  Both are
    standard library; base58/ and the identifiers of coins are built on them. *)

From S2P Require Import Prelude.

(** ** Digits in any base, least significant first *)

Fixpoint lval (B : Z) (ds : list Z) : Z :=
  match ds with [] => 0 | d :: ds => d + B * lval B ds end.

(** The shortest digit string of a number. *)
Fixpoint min_digits (B : Z) (fuel : nat) (x : Z) : list Z :=
  match fuel with
  | O => []
  | S fuel => if x =? 0 then [] else x mod B :: min_digits B fuel (x / B)
  end.

(** Exactly [n] digits. *)
Fixpoint fix_digits (B : Z) (n : nat) (x : Z) : list Z :=
  match n with O => [] | S n => x mod B :: fix_digits B n (x / B) end.

(** Without the zeros at the most significant end, and their number. *)
Fixpoint trim (ds : list Z) : list Z :=
  match ds with
  | [] => []
  | d :: ds => match trim ds with [] => if d =? 0 then [] else [d] | l => d :: l end
  end.

(** ** Theory of digits *)

Section digits.
#[local] Set Default Proof Using "Type*".
Context (B : Z) (HB : 2 <= B).

Definition digit (d : Z) : Prop := 0 <= d < B.

Lemma lval_bound ds : Forall digit ds -> 0 <= lval B ds < B ^ zlen ds.
Proof.
  unfold digit. induction 1 as [|d ds Hd Hds IH]; [done|].
  rewrite zlen_cons, Z.pow_add_r by (pose proof (zlen_nonneg ds); lia).
  rewrite Z.pow_1_r. cbn [lval]. nia.
Qed.

Lemma lval_app ds es : lval B (ds ++ es) = lval B ds + B ^ zlen ds * lval B es.
Proof.
  induction ds as [|d ds IH].
  { rewrite (@zlen_nil Z), Z.pow_0_r. simpl. lia. }
  rewrite zlen_cons, Z.pow_add_r, Z.pow_1_r by (pose proof (zlen_nonneg ds); lia).
  cbn [app lval]. rewrite IH. ring.
Qed.

Lemma min_digits_0 fuel : min_digits B fuel 0 = [].
Proof. by destruct fuel. Qed.

Lemma digit_step d v : digit d -> (d + B * v) mod B = d /\ (d + B * v) / B = v.
Proof.
  unfold digit. intros Hd. rewrite (Z.mul_comm B v). split.
  - rewrite Z_mod_plus_full. by apply Z.mod_small.
  - rewrite Z.div_add by lia. rewrite Z.div_small by lia. lia.
Qed.

Lemma trim_nil_lval ds : trim ds = [] -> lval B ds = 0.
Proof.
  induction ds as [|d ds IH]; [done|]. cbn [trim lval].
  destruct (trim ds); [|done]. case_match; [|done]. zbool. rewrite IH by done. lia.
Qed.

(** The shortest digits of the value of a digit string are the string without
    its leading zeros. *)
Lemma min_digits_lval ds : forall fuel,
  Forall digit ds -> (length ds <= fuel)%nat -> min_digits B fuel (lval B ds) = trim ds.
Proof.
  induction ds as [|d ds IH]; intros fuel Hds Hf; [by apply min_digits_0|].
  inversion_clear Hds as [|? ? Hd Hds']. destruct fuel as [|fuel]; cbn [length] in Hf; [lia|].
  specialize (IH fuel Hds' ltac:(lia)). destruct (digit_step d (lval B ds) Hd) as [Hm Hq].
  pose proof (lval_bound ds Hds') as Hb. cbn [lval min_digits trim]. rewrite Hm, Hq, IH.
  destruct (trim ds) as [|e es] eqn:Et.
  - pose proof (trim_nil_lval ds Et) as ->. rewrite Z.mul_0_r, Z.add_0_r. done.
  - destruct (Z.eqb_spec (d + B * lval B ds) 0) as [H0|]; [|done].
    unfold digit in Hd. assert (lval B ds = 0) as Hz by nia. rewrite Hz, min_digits_0 in IH. done.
Qed.

Lemma lval_min_digits fuel : forall x, 0 <= x < B ^ Z.of_nat fuel -> lval B (min_digits B fuel x) = x.
Proof.
  induction fuel as [|fuel IH]; intros x Hx.
  { change (B ^ Z.of_nat 0) with 1 in Hx. simpl. lia. }
  rewrite Nat2Z.inj_succ, Z.pow_succ_r in Hx by lia. cbn [min_digits].
  destruct (Z.eqb_spec x 0) as [->|]; [done|]. cbn [lval].
  rewrite IH; [|split; [apply Z.div_pos; lia|apply Z.div_lt_upper_bound; lia]].
  pose proof (Z.div_mod x B ltac:(lia)). lia.
Qed.

Lemma min_digits_digit fuel : forall x, Forall digit (min_digits B fuel x).
Proof.
  induction fuel as [|fuel IH]; intros x; cbn [min_digits]; [done|].
  case_match; [done|]. constructor; [|apply IH]. apply Z.mod_pos_bound. lia.
Qed.

Lemma length_min_digits fuel : forall x, (length (min_digits B fuel x) <= fuel)%nat.
Proof.
  induction fuel as [|fuel IH]; intros x; cbn [min_digits]; [done|].
  case_match; cbn [length]; [lia|]. specialize (IH (x / B)). lia.
Qed.

Lemma min_digits_fuel f : forall g x,
  0 <= x < B ^ Z.of_nat f -> x < B ^ Z.of_nat g -> min_digits B f x = min_digits B g x.
Proof.
  induction f as [|f IH]; intros g x Hf Hg.
  { change (B ^ Z.of_nat 0) with 1 in Hf. assert (x = 0) as -> by lia. by rewrite !min_digits_0. }
  destruct g as [|g].
  { change (B ^ Z.of_nat 0) with 1 in Hg. assert (x = 0) as -> by lia. by rewrite !min_digits_0. }
  rewrite Nat2Z.inj_succ, Z.pow_succ_r in Hf, Hg by lia. cbn [min_digits].
  case_match; [done|]. f_equal.
  apply IH; [split; [apply Z.div_pos; lia|]|]; apply Z.div_lt_upper_bound; lia.
Qed.

(** Fixed-width low digits in front of the digits of the rest. *)
Lemma min_digits_chunk n : forall f m q,
  0 <= m < B ^ Z.of_nat n -> 0 < q ->
  min_digits B (n + f) (m + B ^ Z.of_nat n * q) = fix_digits B n m ++ min_digits B f q.
Proof.
  induction n as [|n IH]; intros f m q Hm Hq.
  { change (B ^ Z.of_nat 0) with 1 in *. cbn [fix_digits app]. rewrite Nat.add_0_l. f_equal. lia. }
  rewrite Nat2Z.inj_succ, Z.pow_succ_r in * by lia. set (P := B ^ Z.of_nat n) in *.
  assert (0 < P) by (apply Z.pow_pos_nonneg; lia).
  cbn [fix_digits Nat.add min_digits app]. rewrite (proj2 (Z.eqb_neq _ _)) by nia.
  rewrite <- Z.mul_assoc, (Z.mul_comm B (P * q)), Z_mod_plus_full, Z.div_add by lia. f_equal.
  apply IH; [|done]. split; [apply Z.div_pos; lia|apply Z.div_lt_upper_bound; lia].
Qed.
End digits.

Lemma trim_snoc_0 ds : trim (ds ++ [0]) = trim ds.
Proof. induction ds as [|d ds IH]; [done|]. cbn [app trim]. by rewrite IH. Qed.

Lemma trim_snoc ds d : d <> 0 -> trim (ds ++ [d]) = ds ++ [d].
Proof.
  intros Hd. induction ds as [|e ds IH]; cbn [app trim].
  - by rewrite (proj2 (Z.eqb_neq _ _)).
  - rewrite IH. by destruct ds.
Qed.

Lemma trim_min_digits B fuel x : 2 <= B -> 0 <= x < B ^ Z.of_nat fuel ->
  trim (min_digits B fuel x) = min_digits B fuel x.
Proof.
  intros HB Hx. rewrite <- (min_digits_lval B HB _ fuel);
    [by rewrite lval_min_digits|by apply min_digits_digit|by apply length_min_digits].
Qed.

(** A trimmed string ends in a digit that is not zero. *)
Lemma trim_head ds d es : trim ds = ds -> rev ds = d :: es -> d <> 0.
Proof.
  intros Ht Hr ->. apply (f_equal (@rev Z)) in Hr. rewrite rev_involutive in Hr. cbn [rev] in Hr.
  rewrite Hr, trim_snoc_0 in Ht. assert (forall l, (length (trim l) <= length l)%nat) as Hl.
  { induction l as [|e l IH]; cbn [trim]; [done|]. destruct (trim l); [case_match|]; cbn [length] in *; lia. }
  specialize (Hl (rev es)). rewrite Ht, length_app in Hl. cbn [length] in Hl. lia.
Qed.

(** ** strconv *)

Definition dec_sym (d : Z) : byte := z2b (48 + d).

Definition FormatUint (x : Z) : bytes :=
  if x =? 0 then [dec_sym 0] else rev (map dec_sym (min_digits 10 (S (Z.to_nat (Z.log2 x))) x)).

Definition FormatInt (x : Z) : bytes :=
  if x <? 0 then str "-" ++ FormatUint (- x) else FormatUint x.

Inductive NumError :=
  | ErrSyntax
  | ErrRange.
#[export] Instance NumError_eq_dec : EqDecision NumError.
Proof. solve_decision. Defined.

(** The loop of [ParseUint] in base ten. *)
Fixpoint parseDigits (maxVal : Z) (s : bytes) (n : Z) : outcome NumError Z :=
  match s with
  | [] => Ret n
  | c :: s =>
      if (48 <=? b2z c) && (b2z c <=? 57) then
        let d := b2z c - 48 in
        if n >=? (2 ^ 64 - 1) / 10 + 1 then Fail ErrRange
        else
          let n := n * 10 in
          let n1 := u64 (n + d) in
          if (n1 <? n) || (n1 >? maxVal) then Fail ErrRange else parseDigits maxVal s n1
      else Fail ErrSyntax
  end.

Definition ParseUint (s : bytes) (bitSize : Z) : outcome NumError Z :=
  if zlen s =? 0 then Fail ErrSyntax else parseDigits (2 ^ bitSize - 1) s 0.

Example Format_examples :
  FormatInt 0 = str "0" /\ FormatInt (-1005) = str "-1005" /\ ParseUint (str "4294967295") 32 = Ret 4294967295
  /\ ParseUint (str "4294967296") 32 = Fail ErrRange /\ ParseUint (str "-1") 32 = Fail ErrSyntax.
Proof. split_and!; vm_compute; reflexivity. Qed.

Lemma b2z_dec_sym d : digit 10 d -> b2z (dec_sym d) = 48 + d.
Proof. unfold digit, dec_sym. intros Hd. rewrite b2z_z2b. apply Z.mod_small. lia. Qed.

Lemma log2_fuel B x : 2 <= B -> 0 <= x -> 0 <= x < B ^ Z.of_nat (S (Z.to_nat (Z.log2 x))).
Proof.
  intros HB Hx. split; [done|]. destruct (Z.eq_dec x 0) as [->|].
  { change (Z.of_nat _) with 1. lia. }
  destruct (Z.log2_spec x ltac:(lia)) as [_ Hl]. eapply Z.lt_le_trans; [exact Hl|].
  rewrite Nat2Z.inj_succ, Z2Nat.id by apply Z.log2_nonneg. apply Z.pow_le_mono_l. lia.
Qed.

(** The decimal digits of a number, most significant first. *)
Definition dec_digits (x : Z) : list Z :=
  if x =? 0 then [0] else rev (min_digits 10 (S (Z.to_nat (Z.log2 x))) x).

Lemma FormatUint_digits x : FormatUint x = map dec_sym (dec_digits x).
Proof. unfold FormatUint, dec_digits. case_match; [done|]. by rewrite map_rev. Qed.

Lemma dec_digits_digit x : Forall (digit 10) (dec_digits x).
Proof.
  unfold dec_digits. case_match; [by repeat constructor|]. by apply Forall_rev, min_digits_digit.
Qed.

Lemma dec_digits_nonempty x : dec_digits x <> [].
Proof.
  unfold dec_digits. case_match; [done|]. cbn [min_digits]. rewrite H. cbn [rev].
  intros Hn. by apply app_eq_nil in Hn as [_ ?].
Qed.

Lemma dec_digits_val x : 0 <= x -> lval 10 (rev (dec_digits x)) = x.
Proof.
  intros Hx. unfold dec_digits. destruct (Z.eqb_spec x 0) as [->|]; [done|].
  rewrite rev_involutive. apply lval_min_digits; [lia|by apply log2_fuel].
Qed.

Lemma parseDigits_digits maxVal ds : forall n,
  Forall (digit 10) ds -> 0 <= n -> maxVal < 2 ^ 64 -> n * 10 ^ zlen ds + lval 10 (rev ds) <= maxVal ->
  parseDigits maxVal (map dec_sym ds) n = Ret (n * 10 ^ zlen ds + lval 10 (rev ds)).
Proof.
  induction ds as [|d ds IH]; intros n Hds Hn Hm Hle; cbn [map parseDigits].
  { change (zlen []) with 0. rewrite Z.pow_0_r. cbn [rev lval]. f_equal. lia. }
  inversion_clear Hds as [|? ? Hd Hds']. rewrite b2z_dec_sym by done. unfold digit in Hd.
  cbn [rev] in Hle |- *. rewrite lval_app in Hle |- * by lia. rewrite zlen_rev in *.
  rewrite zlen_cons, Z.pow_add_r, Z.pow_1_r in * by (pose proof (zlen_nonneg ds); lia). cbn [lval] in *.
  assert (0 < 10 ^ zlen ds) by (apply Z.pow_pos_nonneg; [lia|apply zlen_nonneg]).
  assert (0 <= lval 10 (rev ds)) by (apply lval_bound; [lia|by apply Forall_rev]).
  assert (n * 10 + d <= maxVal) by nia. change ((2 ^ 64 - 1) / 10) with 1844674407370955161.
  ztest. cbn [andb]. replace (48 + d - 48) with d by lia. rewrite u64_id by lia. ztest. cbn [orb].
  rewrite IH by (done || nia). f_equal. ring.
Qed.

(** Formatting and parsing of unsigned numbers. *)
Lemma ParseUint_FormatInt x bitSize :
  0 <= x < 2 ^ bitSize -> 0 <= bitSize <= 64 -> ParseUint (FormatInt x) bitSize = Ret x.
Proof.
  intros Hx Hb. unfold FormatInt, ParseUint. ztest. rewrite FormatUint_digits.
  pose proof (dec_digits_nonempty x) as Hne. pose proof (dec_digits_val x ltac:(lia)) as Hv.
  assert (2 ^ bitSize <= 2 ^ 64) by (apply Z.pow_le_mono_r; lia).
  replace (zlen (map dec_sym (dec_digits x)) =? 0) with false.
  - rewrite parseDigits_digits by (apply dec_digits_digit || lia). rewrite Hv. done.
  - symmetry. apply Z.eqb_neq. intros H0%zlen_0_inv. by apply map_eq_nil in H0.
Qed.

(** What is parsed is in range, and its text consists of decimal digits. *)
Lemma parseDigits_range maxVal s : forall n x,
  0 <= n <= maxVal -> parseDigits maxVal s n = Ret x ->
  0 <= x <= maxVal /\ Forall (fun c => 48 <= b2z c <= 57) s.
Proof.
  induction s as [|c s IH]; intros n x Hn; cbn [parseDigits]; [intros [= <-]; by split|].
  case_match eqn:Hc; [|done]. case_match; [done|]. case_match eqn:Hr; [done|]. zbool. intros Hp.
  apply IH in Hp; [|pose proof (u64_range (n * 10 + (b2z c - 48))); lia].
  split; [tauto|]. constructor; [lia|tauto].
Qed.

Lemma FormatInt_chars x : 0 <= x -> Forall (fun c => 48 <= b2z c <= 57) (FormatInt x).
Proof.
  intros Hx. unfold FormatInt. ztest. rewrite FormatUint_digits. apply List.Forall_map.
  eapply Forall_impl; [apply dec_digits_digit|]. intros d Hd. rewrite b2z_dec_sym by done.
  unfold digit in Hd. lia.
Qed.

Lemma FormatUint_inj x y : 0 <= x -> 0 <= y -> FormatUint x = FormatUint y -> x = y.
Proof.
  intros Hx Hy. rewrite !FormatUint_digits. intros He. rewrite <- (dec_digits_val x Hx), <- (dec_digits_val y Hy).
  do 2 f_equal. pose proof (dec_digits_digit x) as Dx. pose proof (dec_digits_digit y) as Dy.
  revert He Dx Dy. generalize (dec_digits x) as a, (dec_digits y) as b. clear. intros a.
  induction a as [|d a IH]; intros [|e b]; try done. cbn [map]. intros [= He1 He2] Da Db.
  inversion_clear Da. inversion_clear Db. f_equal; [|by apply IH].
  apply (f_equal b2z) in He1. rewrite !b2z_dec_sym in He1 by done. lia.
Qed.

Lemma FormatUint_nonempty x : 0 <= x -> FormatUint x <> [].
Proof. intros Hx E. rewrite FormatUint_digits in E. apply map_eq_nil in E. by apply (dec_digits_nonempty x). Qed.

Lemma FormatInt_head_minus x : 0 <= x -> head (FormatUint x) <> Some (z2b 45).
Proof.
  intros Hx Hh. pose proof (FormatInt_chars x Hx) as Hc. unfold FormatInt in Hc.
  rewrite (proj2 (Z.ltb_ge _ _)) in Hc by lia. destruct (FormatUint x) as [|c l]; [done|].
  injection Hh as ->. inversion_clear Hc as [|? ? Hb]. change (b2z (z2b 45)) with 45 in Hb. lia.
Qed.

(** No two integers are written the same. *)
Lemma FormatInt_inj x y : FormatInt x = FormatInt y -> x = y.
Proof.
  unfold FormatInt. destruct (Z.ltb_spec x 0), (Z.ltb_spec y 0); intros He.
  - injection He as He. apply FormatUint_inj in He; lia.
  - exfalso. apply (FormatInt_head_minus y); [lia|]. by rewrite <- He.
  - exfalso. apply (FormatInt_head_minus x); [lia|]. by rewrite He.
  - by apply FormatUint_inj.
Qed.

(** Parsing returns a number or an error. *)
Lemma parseDigits_total maxVal s : forall n,
  match parseDigits maxVal s n with Crash | NoFuel => False | _ => True end.
Proof.
  induction s as [|c s IH]; intros n; cbn [parseDigits]; [done|].
  destruct (_ && _); [|done]. destruct (n >=? _); [done|]. cbv zeta.
  destruct (_ || _); [done|]. apply IH.
Qed.
