(* ===== verification/Hash.v ===== *)
(** Hash values as text: chaincfg/chainhash/hash.go, and the hexadecimal encoding
    of package encoding/hex it uses.

    A hash is stored least significant byte first and written in hexadecimal most
    significant byte first. *)

From S2P Require Import Prelude Digits.

(** ** encoding/hex *)

Inductive HexErr :=
  | InvalidByteError (b : byte)
  | ErrLength.
#[export] Instance HexErr_eq_dec : EqDecision HexErr.
Proof. solve_decision. Defined.

(** [reverseHexTable], [None] for the entries that are no digit. *)
Definition fromHexChar (c : byte) : option Z :=
  let v := b2z c in
  if (48 <=? v) && (v <=? 57) then Some (v - 48)
  else if (97 <=? v) && (v <=? 102) then Some (v - 97 + 10)
  else if (65 <=? v) && (v <=? 70) then Some (v - 65 + 10)
  else None.

Definition hexChar (d : Z) : byte := z2b (if d <? 10 then 48 + d else 97 + (d - 10)).

Definition hexByte (b : byte) : bytes := [hexChar (b2z b / 16); hexChar (b2z b mod 16)].

Fixpoint EncodeToString (b : bytes) : bytes :=
  match b with [] => [] | x :: b => hexByte x ++ EncodeToString b end.

Fixpoint hex_Decode (src : bytes) : outcome HexErr bytes :=
  match src with
  | p :: q :: src =>
      match fromHexChar p with
      | None => Fail (InvalidByteError p)
      | Some a =>
          match fromHexChar q with
          | None => Fail (InvalidByteError q)
          | Some b => let! rest := hex_Decode src in Ret (z2b (Z.lor (Z.shiftl a 4) b) :: rest)
          end
      end
  | [p] => match fromHexChar p with None => Fail (InvalidByteError p) | Some _ => Fail ErrLength end
  | [] => Ret []
  end.

Definition DecodeString (s : bytes) : outcome HexErr bytes := hex_Decode s.

(** [strconv.FormatUint(x, 16)] *)
Definition hexDigits (x : Z) : bytes :=
  if x =? 0 then str "0"
  else map hexChar (rev (min_digits 16 (S (Z.to_nat (Z.log2 x))) x)).

(** [hex.DecodedLen] *)
Definition DecodedLen (n : Z) : Z := n / 2.

(** ** chainhash/hash.go *)

Notation HashSize := 32 (only parsing).
Notation MaxHashStringSize := 64 (only parsing).

Inductive HashErr :=
  | ErrHashStrSize
  | ErrHashHex (e : HexErr)
  | ErrHashLength.
#[export] Instance HashErr_eq_dec : EqDecision HashErr.
Proof. solve_decision. Defined.

(** Swapping the ends of an array reverses it. *)
Definition Hash_String (hash : bytes) : bytes := EncodeToString (rev hash).

Definition CloneBytes (hash : bytes) : bytes := hash.

Definition SetBytes (newHash : bytes) : outcome HashErr bytes :=
  let nhlen := zlen newHash in
  if negb (nhlen =? HashSize) then Fail ErrHashLength else Ret newHash.

Definition Hash_IsEqual (hash target : option bytes) : bool :=
  match hash, target with
  | None, None => true
  | None, _ | _, None => false
  | Some hash, Some target => bool_decide (hash = target)
  end.

Definition NewHash (newHash : bytes) : outcome HashErr bytes := SetBytes newHash.

Definition Hash_Decode (src : bytes) : outcome HashErr bytes :=
  if zlen src >? MaxHashStringSize then Fail ErrHashStrSize
  else
    let srcBytes := if zlen src mod 2 =? 0 then src else z2b 48 :: src in
    match hex_Decode srcBytes with
    | Ret decoded =>
        let reversedHash := replicate (Z.to_nat (HashSize - DecodedLen (zlen srcBytes))) Byte.x00 ++ decoded in
        Ret (rev reversedHash)
    | Fail e => Fail (ErrHashHex e)
    | Crash => Crash
    | NoFuel => NoFuel
    end.

Definition NewHashFromStr (hash : bytes) : outcome HashErr bytes := Hash_Decode hash.

Example hash_string_example :
  NewHashFromStr (str "abc") = Ret ([z2b 0xBC; z2b 0x0A] ++ replicate 30 Byte.x00)
  /\ NewHashFromStr (str "0g") = Fail (ErrHashHex (InvalidByteError (z2b 103)))
  /\ DecodeString (str "0aF") = Fail ErrLength.
Proof. split_and!; vm_compute; reflexivity. Qed.

(** ** Hexadecimal *)

Lemma hexChar_range d : 0 <= d < 16 -> fromHexChar (hexChar d) = Some d.
Proof.
  intros Hd. assert (Forall (fun n => fromHexChar (hexChar (Z.of_nat n)) = Some (Z.of_nat n)) (seq 0 16)) as Hall
    by (repeat constructor; reflexivity).
  rewrite List.Forall_forall in Hall. specialize (Hall (Z.to_nat d)). rewrite Z2Nat.id in Hall by lia.
  apply Hall, in_seq. lia.
Qed.

Lemma b2z_nibbles b : 0 <= b2z b / 16 < 16 /\ 0 <= b2z b mod 16 < 16.
Proof. pose proof (b2z_range b). Z.to_euclidean_division_equations; lia. Qed.

(** Decoding what was encoded. *)
Lemma hex_Decode_EncodeToString b : hex_Decode (EncodeToString b) = Ret b.
Proof.
  induction b as [|x b IH]; [done|]. destruct (b2z_nibbles x) as [Hh Hl].
  cbn [EncodeToString hexByte app hex_Decode]. rewrite !hexChar_range, IH by done. cbn [bindO].
  do 2 f_equal. apply (inj b2z). rewrite b2z_z2b, Z.lor_comm, lor_disjoint by (done || lia).
  pose proof (b2z_range x). change (2 ^ 4) with 16. Z.to_euclidean_division_equations; lia.
Qed.

Lemma zlen_EncodeToString b : zlen (EncodeToString b) = 2 * zlen b.
Proof. induction b as [|x b IH]; [done|]. cbn [EncodeToString]. rewrite zlen_app, zlen_cons, IH. change (zlen (hexByte x)) with 2. lia. Qed.

(** The digits [EncodeToString] writes. *)
Definition hex_lower (c : byte) : Prop := exists d, 0 <= d < 16 /\ c = hexChar d.

Lemma hex_lower_byte a b : 0 <= a < 16 -> 0 <= b < 16 ->
  hexByte (z2b (Z.lor (Z.shiftl a 4) b)) = [hexChar a; hexChar b].
Proof.
  intros Ha Hb. rewrite Z.lor_comm, lor_disjoint by (done || lia). change (2 ^ 4) with 16.
  unfold hexByte. rewrite b2z_z2b, Z.mod_small by lia.
  rewrite (Z.mul_comm 16 a), Z.div_add, Z_mod_plus_full by lia.
  by rewrite Z.div_small, Z.mod_small, Z.add_0_l by lia.
Qed.

(** Encoding what was decoded. *)
Lemma EncodeToString_hex_Decode n : forall s, (length s <= n)%nat ->
  Forall hex_lower s -> zlen s mod 2 = 0 ->
  exists b, hex_Decode s = Ret b /\ EncodeToString b = s /\ zlen s = 2 * zlen b.
Proof.
  induction n as [|n IH]; intros s Hn Hs He.
  { destruct s; [|cbn [length] in Hn; lia]. by exists []. }
  destruct s as [|p [|q s]]; [by exists []|done|].
  rewrite !Forall_cons in Hs. destruct Hs as ((a & Ha & ->) & (b & Hb & ->) & Hs).
  destruct (IH s) as (r & Hr & Hr' & Hz); [cbn [length] in Hn; lia|done| |].
  { rewrite !zlen_cons in He. replace (1 + (1 + zlen s)) with (zlen s + 1 * 2) in He by lia.
    by rewrite Z_mod_plus_full in He. }
  exists (z2b (Z.lor (Z.shiftl a 4) b) :: r). cbn [hex_Decode]. rewrite !hexChar_range, Hr by done.
  split_and!; [done| |rewrite !zlen_cons; lia].
  cbn [EncodeToString]. by rewrite hex_lower_byte, Hr'.
Qed.

Lemma hex_Decode_len s b : hex_Decode s = Ret b -> zlen s = 2 * zlen b.
Proof.
  revert b. induction s as [s IH] using (induction_ltof1 _ (@length byte)). unfold ltof in IH. intros b.
  destruct s as [|p [|q s]]; cbn [hex_Decode]; [by intros [= <-]|by case_match|].
  do 2 (case_match; [|done]). intros Hb. inv_bind Hb. injection Hb as <-.
  apply IH in Hm; [|cbn [length]; lia]. rewrite !zlen_cons. lia.
Qed.

(** Decoding returns bytes or an error. *)
Lemma hex_Decode_total s : match hex_Decode s with Crash | NoFuel => False | _ => True end.
Proof.
  induction s as [s IH] using (induction_ltof1 _ (@length byte)). unfold ltof in IH.
  destruct s as [|p [|q s]]; cbn [hex_Decode]; [done|by destruct (fromHexChar p)|].
  destruct (fromHexChar p); [|done]. destruct (fromHexChar q); [|done]. specialize (IH s ltac:(cbn [length]; lia)). by destruct (hex_Decode s).
Qed.

(** ** Hashes *)

Lemma NewHashFromStr_String h : zlen h = 32 -> NewHashFromStr (Hash_String h) = Ret h.
Proof.
  intros Hh. unfold NewHashFromStr, Hash_Decode, Hash_String.
  rewrite zlen_EncodeToString, zlen_rev, Hh. change (2 * 32 >? 64) with false. change (2 * 32 mod 2 =? 0) with true.
  cbv iota. rewrite zlen_EncodeToString, zlen_rev, Hh, hex_Decode_EncodeToString.
  change (Z.to_nat (32 - DecodedLen (2 * 32))) with 0%nat. cbn [replicate app]. by rewrite rev_involutive.
Qed.

Lemma NewHashFromStr_len s h : NewHashFromStr s = Ret h -> zlen h = 32.
Proof.
  unfold NewHashFromStr, Hash_Decode. case_match eqn:Hl; [done|]. zbool.
  set (src := if zlen s mod 2 =? 0 then s else z2b 48 :: s).
  destruct (hex_Decode src) as [d|e| |] eqn:Hd; try done. intros [= <-].
  apply hex_Decode_len in Hd. rewrite zlen_rev, zlen_app, zlen_replicate.
  assert (zlen src <= 64).
  { unfold src. destruct (Z.eqb_spec (zlen s mod 2) 0); [lia|]. rewrite zlen_cons.
    destruct (Z.eq_dec (zlen s) 64) as [E|]; [by rewrite E in n|lia]. }
  unfold DecodedLen. pose proof (zlen_nonneg d). Z.to_euclidean_division_equations; lia.
Qed.

Lemma Hash_String_NewHashFromStr s : zlen s = 64 -> Forall hex_lower s ->
  exists h, NewHashFromStr s = Ret h /\ Hash_String h = s.
Proof.
  intros Hl Hs. destruct (EncodeToString_hex_Decode (length s) s) as (b & Hb & He & Hz); [done|done|by rewrite Hl|].
  unfold NewHashFromStr, Hash_Decode. rewrite Hl. change (64 >? 64) with false. change (64 mod 2 =? 0) with true.
  cbv iota. rewrite Hl, Hb. change (Z.to_nat (32 - DecodedLen 64)) with 0%nat. cbn [replicate app].
  eexists. split; [done|]. unfold Hash_String. by rewrite rev_involutive.
Qed.

(** A string of fewer digits is the number it writes. *)
Lemma NewHashFromStr_short b : zlen b <= 32 ->
  NewHashFromStr (EncodeToString b) = Ret (rev b ++ replicate (Z.to_nat (32 - zlen b)) Byte.x00).
Proof.
  intros Hb. unfold NewHashFromStr, Hash_Decode. rewrite zlen_EncodeToString. ztest.
  replace (2 * zlen b mod 2) with 0 by (rewrite Z.mul_comm; symmetry; apply Z_mod_mult).
  cbn [Z.eqb]. rewrite zlen_EncodeToString, hex_Decode_EncodeToString.
  unfold DecodedLen. rewrite (Z.mul_comm 2), Z.div_mul by lia.
  by rewrite rev_app_distr, rev_replicate.
Qed.

Lemma NewHashFromStr_total s :
  match NewHashFromStr s with Ret h => zlen h = 32 | Fail _ => True | Crash | NoFuel => False end.
Proof.
  destruct (NewHashFromStr s) as [h|e| |] eqn:Hn; [by apply NewHashFromStr_len in Hn|done| |];
    unfold NewHashFromStr, Hash_Decode in Hn; case_match; try done;
    pose proof (hex_Decode_total (if zlen s mod 2 =? 0 then s else z2b 48 :: s)); by case_match.
Qed.

(** The text form of a hash is faithful: a hash is read back from its text,
    a text of 64 digits [0-9a-f] is the text of the hash read from it, a shorter
    text is a number with zeros in front, every hash read has 32 bytes, and
    reading any text ends with a hash or an error. *)
Theorem Hash_String_exact (s h b : bytes) :
  (zlen h = 32 -> NewHashFromStr (Hash_String h) = Ret h)
  /\ (zlen s = 64 -> Forall hex_lower s -> exists h', NewHashFromStr s = Ret h' /\ Hash_String h' = s)
  /\ (zlen b <= 32 -> NewHashFromStr (EncodeToString b) = Ret (rev b ++ replicate (Z.to_nat (32 - zlen b)) Byte.x00))
  /\ match NewHashFromStr s with Ret h' => zlen h' = 32 | Fail _ => True | Crash | NoFuel => False end.
Proof.
  split_and!; [apply NewHashFromStr_String|apply Hash_String_NewHashFromStr|apply NewHashFromStr_short|].
  apply NewHashFromStr_total.
Qed.
