(* ===== verification/Base58.v ===== *)
(** Base conversion: base58/base58.go, base58/alphabet.go and
    base58/base58check.go.

    [math/big] is part of the standard library: a [*big.Int] is an integer, and
    [SetBytes] and [Bytes] are the big-endian conversions.  The code converts ten
    digits at a time with 64-bit arithmetic; it is compared with the minimal digit
    strings of Digits. *)

From S2P Require Import Prelude Digits Crypto Utf8.

(** ** math/big *)

Definition big_SetBytes (b : bytes) : Z := be_val b.
Definition big_Bytes (x : Z) : bytes :=
  rev (map z2b (min_digits 256 (S (Z.to_nat (Z.log2 x))) x)).

(** ** base58/alphabet.go *)

Definition alphabet : bytes := str "123456789ABCDEFGHJKLMNPQRSTUVWXYZabcdefghijkmnopqrstuvwxyz".
Definition alphabetIdx0 : byte := z2b 49.

Definition b58 : list Z := [
  255; 255; 255; 255; 255; 255; 255; 255;
  255; 255; 255; 255; 255; 255; 255; 255;
  255; 255; 255; 255; 255; 255; 255; 255;
  255; 255; 255; 255; 255; 255; 255; 255;
  255; 255; 255; 255; 255; 255; 255; 255;
  255; 255; 255; 255; 255; 255; 255; 255;
  255; 0; 1; 2; 3; 4; 5; 6;
  7; 8; 255; 255; 255; 255; 255; 255;
  255; 9; 10; 11; 12; 13; 14; 15;
  16; 255; 17; 18; 19; 20; 21; 255;
  22; 23; 24; 25; 26; 27; 28; 29;
  30; 31; 32; 255; 255; 255; 255; 255;
  255; 33; 34; 35; 36; 37; 38; 39;
  40; 41; 42; 43; 255; 44; 45; 46;
  47; 48; 49; 50; 51; 52; 53; 54;
  55; 56; 57; 255; 255; 255; 255; 255;
  255; 255; 255; 255; 255; 255; 255; 255;
  255; 255; 255; 255; 255; 255; 255; 255;
  255; 255; 255; 255; 255; 255; 255; 255;
  255; 255; 255; 255; 255; 255; 255; 255;
  255; 255; 255; 255; 255; 255; 255; 255;
  255; 255; 255; 255; 255; 255; 255; 255;
  255; 255; 255; 255; 255; 255; 255; 255;
  255; 255; 255; 255; 255; 255; 255; 255;
  255; 255; 255; 255; 255; 255; 255; 255;
  255; 255; 255; 255; 255; 255; 255; 255;
  255; 255; 255; 255; 255; 255; 255; 255;
  255; 255; 255; 255; 255; 255; 255; 255;
  255; 255; 255; 255; 255; 255; 255; 255;
  255; 255; 255; 255; 255; 255; 255; 255;
  255; 255; 255; 255; 255; 255; 255; 255;
  255; 255; 255; 255; 255; 255; 255; 255].

(** ** base58/base58.go *)

Definition bigRadix10 : Z := 58 * 58 * 58 * 58 * 58 * 58 * 58 * 58 * 58 * 58.

Definition bigRadix : list Z := [
  0;
  58;
  58 * 58;
  58 * 58 * 58;
  58 * 58 * 58 * 58;
  58 * 58 * 58 * 58 * 58;
  58 * 58 * 58 * 58 * 58 * 58;
  58 * 58 * 58 * 58 * 58 * 58 * 58;
  58 * 58 * 58 * 58 * 58 * 58 * 58 * 58;
  58 * 58 * 58 * 58 * 58 * 58 * 58 * 58 * 58;
  bigRadix10].

(** [for _, v := range t[:n]]: the runes of a chunk; [None] is the early return
    of the empty slice. *)
Fixpoint decodeChunk {E} (vs : list Z) (total : Z) : outcome E (option Z) :=
  match vs with
  | [] => Ret (Some total)
  | v :: vs =>
      let! tmp := orCrash (znth b58 v) in
      if tmp =? 255 then Ret None
      else decodeChunk vs (u64 (u64 (total * 58) + tmp))
  end.

Fixpoint decodeLoop {E} (fuel : nat) (t : bytes) (answer : Z) : outcome E (option Z) :=
  match fuel with
  | O => NoFuel
  | S fuel =>
      if zlen t >? 0 then
        let n := zlen t in
        let n := if n >? 10 then 10 else n in
        let! chunk := orCrash (zslice t 0 n) in
        let! total := decodeChunk (map fst (runes chunk)) 0 in
        match total with
        | None => Ret None
        | Some total =>
            let! radix := orCrash (znth bigRadix n) in
            let! t := orCrash (zslice t n (zlen t)) in
            decodeLoop fuel t (answer * radix + total)
        end
      else Ret (Some answer)
  end.

(** The number of bytes at the front equal to [c]. *)
Fixpoint countPrefix (c : byte) (b : bytes) : nat :=
  match b with
  | [] => 0
  | x :: b => if decide (x = c) then S (countPrefix c b) else 0
  end.

Definition Decode {E} (b : bytes) : outcome E bytes :=
  let! answer := decodeLoop (S (length b)) b 0 in
  match answer with
  | None => Ret []
  | Some answer =>
      let tmpval := big_Bytes answer in
      let numZeros := countPrefix alphabetIdx0 b in
      Ret (replicate numZeros Byte.x00 ++ tmpval)
  end.

(** [for m > 0 { ... }] *)
Fixpoint encodeLast {E} (fuel : nat) (m : Z) (answer : bytes) : outcome E bytes :=
  match fuel with
  | O => NoFuel
  | S fuel =>
      if m >? 0 then
        let! c := orCrash (znth alphabet (Z.rem m 58)) in
        encodeLast fuel (Z.quot m 58) (answer ++ [c])
      else Ret answer
  end.

(** [for i := 0; i < 10; i++ { ... }] *)
Fixpoint encodeTen {E} (i : nat) (m : Z) (answer : bytes) : outcome E bytes :=
  match i with
  | O => Ret answer
  | S i =>
      let! c := orCrash (znth alphabet (Z.rem m 58)) in
      encodeTen i (Z.quot m 58) (answer ++ [c])
  end.

Fixpoint encodeLoop {E} (fuel : nat) (x : Z) (answer : bytes) : outcome E bytes :=
  match fuel with
  | O => NoFuel
  | S fuel =>
      if x >? 0 then
        let mod_ := x mod bigRadix10 in
        let x := x / bigRadix10 in
        let m := i64 mod_ in
        let! answer := if x =? 0 then encodeLast 11 m answer else encodeTen 10 m answer in
        encodeLoop fuel x answer
      else Ret answer
  end.

Definition Encode {E} (b : bytes) : outcome E bytes :=
  let x := big_SetBytes b in
  let! answer := encodeLoop (S (length b)) x [] in
  let answer := answer ++ replicate (countPrefix Byte.x00 b) alphabetIdx0 in
  Ret (rev answer).

(** ** base58/base58check.go *)

Inductive Base58Err :=
  | ErrChecksum
  | ErrInvalidFormat.
#[export] Instance Base58Err_eq_dec : EqDecision Base58Err.
Proof. solve_decision. Defined.

Section base58check.
Context `{Crypto}.

Definition checksum (input : bytes) : bytes :=
  let h := sha256 input in
  let h2 := sha256 h in
  take 4 h2.

Definition CheckEncode {E} (input : bytes) (version : byte) : outcome E bytes :=
  let b := [version] ++ input in
  let cksum := checksum b in
  let b := b ++ cksum in
  Encode b.

Definition CheckDecode (input : bytes) : outcome Base58Err (bytes * byte) :=
  let! decoded := Decode input in
  if zlen decoded <? 5 then Fail ErrInvalidFormat
  else
    let! version := orCrash (znth decoded 0) in
    let! cksum := orCrash (zslice decoded (zlen decoded - 4) (zlen decoded)) in
    let! front := orCrash (zslice decoded 0 (zlen decoded - 4)) in
    if negb (bool_decide (checksum front = cksum)) then Fail ErrChecksum
    else
      let! payload := orCrash (zslice decoded 1 (zlen decoded - 4)) in
      Ret (payload, version).
End base58check.

(** Strings of the documentation of the package. *)
Example Encode_example : Encode (E := unit) (str "Test data") = Ret (str "25JnwSn7XKfNQ").
Proof. vm_compute. reflexivity. Qed.
Example Decode_example : Decode (E := unit) (str "25JnwSn7XKfNQ") = Ret (str "Test data").
Proof. vm_compute. reflexivity. Qed.
Example zeros_example :
  Encode (E := unit) [z2b 0; z2b 0; z2b 1] = Ret (str "112") /\ Decode (E := unit) (str "112") = Ret [z2b 0; z2b 0; z2b 1].
Proof. split; vm_compute; reflexivity. Qed.

(** Leading symbols for zero, and the digits after them. *)
Lemma trim_rev (z : byte) (g : byte -> Z) (b : bytes) :
  g z = 0 -> (forall x, g x = 0 -> x = z) ->
  trim (map g (rev b)) = map g (rev (drop (countPrefix z b) b)).
Proof.
  intros Hz Hinj. induction b as [|x b IH]; [done|]. cbn [rev countPrefix].
  rewrite map_app. cbn [map]. case_decide as Hx.
  - subst x. rewrite Hz, trim_snoc_0. exact IH.
  - rewrite trim_snoc by naive_solver. cbn [drop]. change (x :: b) with ([x] ++ b).
    by rewrite rev_app_distr, map_app.
Qed.

Lemma countPrefix_split z b : b = replicate (countPrefix z b) z ++ drop (countPrefix z b) b.
Proof.
  induction b as [|x b IH]; [done|]. cbn [countPrefix]. case_decide as Hx; [|done].
  subst x. cbn [replicate drop app]. by f_equal.
Qed.

Lemma countPrefix_app z n b : (forall x b', b = x :: b' -> x <> z) ->
  countPrefix z (replicate n z ++ b) = n.
Proof.
  intros Hb. induction n as [|n IH]; cbn [replicate app countPrefix].
  - destruct b as [|x b]; [done|]. cbn [countPrefix]. case_decide; [|done]. by edestruct Hb.
  - rewrite decide_True by done. by f_equal.
Qed.

(** ** The alphabet *)

Definition sym (d : Z) : byte := nth (Z.to_nat d) alphabet Byte.x00.
Definition dig (c : byte) : Z := nth (Z.to_nat (b2z c)) b58 255.

Lemma znth_nth {A} (l : list A) (i : Z) (x : A) :
  0 <= i < zlen l -> znth l i = Some (nth (Z.to_nat i) l x).
Proof.
  intros Hi. destruct (znth_is_Some l i Hi) as [y Hy]. rewrite Hy. f_equal.
  rewrite znth_lookup in Hy by lia. symmetry. rewrite nth_lookup. by rewrite Hy.
Qed.

Lemma znth_alphabet d : digit 58 d -> znth alphabet d = Some (sym d).
Proof. intros Hd. by apply znth_nth. Qed.

Lemma znth_b58 c : znth b58 (b2z c) = Some (dig c).
Proof. apply znth_nth. change (zlen b58) with 256. apply b2z_range. Qed.

Lemma dig_sym d : digit 58 d -> dig (sym d) = d.
Proof.
  intros Hd.
  assert (Forall (fun n => dig (sym (Z.of_nat n)) = Z.of_nat n) (seq 0 58)) as Hall
    by (repeat constructor; reflexivity).
  rewrite List.Forall_forall in Hall. unfold digit in Hd.
  specialize (Hall (Z.to_nat d)). rewrite Z2Nat.id in Hall by lia. apply Hall, in_seq. lia.
Qed.

(** The two tables are inverse to each other. *)
Lemma sym_dig c : dig c <> 255 -> sym (dig c) = c /\ digit 58 (dig c) /\ b2z c < 128.
Proof.
  assert (forall c, (dig c =? 255) || (bool_decide (sym (dig c) = c) && (0 <=? dig c) && (dig c <? 58) && (b2z c <? 128)) = true)
    as Hall by (intros []; vm_compute; reflexivity).
  intros Hc. specialize (Hall c). apply orb_prop in Hall as [H|H]; [zbool; lia|].
  zbool. split; [by apply bool_decide_eq_true in H|unfold digit; lia].
Qed.

Lemma sym_zero x : dig x = 0 -> x = alphabetIdx0.
Proof. intros Hx. destruct (sym_dig x) as [<- _]; [lia|]. by rewrite Hx. Qed.

(** ** Encode *)

Lemma quot_rem_58 m : 0 <= m -> Z.rem m 58 = m mod 58 /\ Z.quot m 58 = m / 58.
Proof. intros. split; [apply Z.rem_mod_nonneg|apply Z.quot_div_nonneg]; lia. Qed.

Lemma encodeTen_eq {E} i : forall m ans, 0 <= m ->
  encodeTen (E := E) i m ans = Ret (ans ++ map sym (fix_digits 58 i m)).
Proof.
  induction i as [|i IH]; intros m ans Hm; cbn [encodeTen fix_digits map].
  - by rewrite app_nil_r.
  - destruct (quot_rem_58 m Hm) as [-> ->].
    rewrite znth_alphabet by (apply Z.mod_pos_bound; lia). cbn [orCrash bindO].
    rewrite IH by (apply Z.div_pos; lia). by rewrite <- app_assoc.
Qed.

Lemma encodeLast_S {E} n m ans :
  encodeLast (E := E) (S n) m ans
  = if m >? 0 then
      let! c := orCrash (znth alphabet (Z.rem m 58)) in encodeLast n (Z.quot m 58) (ans ++ [c])
    else Ret ans.
Proof. reflexivity. Qed.

Lemma encodeLast_eq {E} n : forall m ans, 0 <= m < 58 ^ Z.of_nat n ->
  encodeLast (E := E) (S n) m ans = Ret (ans ++ map sym (min_digits 58 n m)).
Proof.
  induction n as [|n IH]; intros m ans Hm; rewrite encodeLast_S; cbn [min_digits].
  - change (58 ^ Z.of_nat 0) with 1 in Hm. ztest. by rewrite app_nil_r.
  - destruct (Z.eqb_spec m 0) as [->|]; [by rewrite app_nil_r|]. ztest.
    destruct (quot_rem_58 m) as [-> ->]; [lia|].
    rewrite znth_alphabet by (apply Z.mod_pos_bound; lia). cbn [orCrash bindO map].
    rewrite Nat2Z.inj_succ, Z.pow_succ_r in Hm by lia.
    rewrite IH by (split; [apply Z.div_pos; lia|apply Z.div_lt_upper_bound; lia]).
    by rewrite <- app_assoc.
Qed.

Lemma bigRadix10_eq : bigRadix10 = 58 ^ Z.of_nat 10.
Proof. reflexivity. Qed.

(** Ten digits at a time give the digits of the number. *)
Lemma encodeLoop_eq {E} n : forall x ans, 0 <= x < 58 ^ Z.of_nat (10 * n) ->
  encodeLoop (E := E) (S n) x ans = Ret (ans ++ map sym (min_digits 58 (10 * n) x)).
Proof.
  induction n as [|n IH]; intros x ans Hx.
  { change (58 ^ Z.of_nat (10 * 0)) with 1 in Hx. assert (x = 0) as -> by lia. by rewrite app_nil_r. }
  destruct (Z.eq_dec x 0) as [->|Hx0].
  { rewrite (min_digits_0 58) by lia. by rewrite app_nil_r. }
  assert (HR : 0 < bigRadix10) by done.
  pose proof (Z.mod_pos_bound x bigRadix10 HR) as Hm.
  pose proof (Z.div_mod x bigRadix10 ltac:(lia)) as Hdm.
  assert (Hq : 0 <= x / bigRadix10) by (apply Z.div_pos; lia).
  remember (x / bigRadix10) as q. remember (x mod bigRadix10) as m.
  change (encodeLoop (S (S n)) x ans) with
    (if x >? 0 then
       let! answer := (if x / bigRadix10 =? 0 then encodeLast 11 (i64 (x mod bigRadix10)) ans
                       else encodeTen 10 (i64 (x mod bigRadix10)) ans) in
       encodeLoop (E := E) (S n) (x / bigRadix10) answer
     else Ret ans).
  rewrite <- Heqq, <- Heqm. rewrite i64_id by (unfold bigRadix10 in Hm; lia).
  rewrite (proj2 (Z.gtb_lt x 0)) by lia.
  destruct (Z.eqb_spec q 0) as [Hq0|Hq0].
  - rewrite encodeLast_eq by (rewrite <- bigRadix10_eq; lia). cbn [bindO]. rewrite Hq0.
    cbn [encodeLoop]. change (0 >? 0) with false. cbv iota. do 3 f_equal.
    assert (x = m) as -> by lia. apply min_digits_fuel; [lia|rewrite <- bigRadix10_eq; lia|lia].
  - rewrite encodeTen_eq by lia. cbn [bindO]. rewrite IH; cycle 1.
    { split; [lia|]. rewrite Heqq. apply Z.div_lt_upper_bound; [lia|].
      rewrite bigRadix10_eq, <- Z.pow_add_r by lia. eapply Z.lt_le_trans; [apply Hx|].
      apply Z.pow_le_mono_r; lia. }
    rewrite <- app_assoc, <- map_app. do 3 f_equal.
    replace (10 * S n)%nat with (10 + 10 * n)%nat by lia. rewrite Hdm, bigRadix10_eq, Z.add_comm.
    rewrite min_digits_chunk; [done|lia|rewrite <- bigRadix10_eq; lia|lia].
Qed.

Lemma lval_bytes b : lval 256 (map b2z b) = le_val b.
Proof. induction b as [|x b IH]; [done|]. cbn [map lval le_val]. by rewrite IH. Qed.

Lemma be_val_bound b : 0 <= be_val b < 256 ^ zlen b.
Proof. rewrite be_val_le, <- zlen_rev. apply le_val_bound. Qed.

Lemma be_val_fits b : 0 <= be_val b < 58 ^ Z.of_nat (10 * length b).
Proof.
  pose proof (be_val_bound b) as Hb. split; [apply Hb|]. eapply Z.lt_le_trans; [apply Hb|].
  transitivity (58 ^ (2 * zlen b)); [|apply Z.pow_le_mono_r; [lia|unfold zlen; lia]].
  rewrite Z.pow_mul_r by (pose proof (zlen_nonneg b); lia). apply Z.pow_le_mono_l. lia.
Qed.

Lemma Encode_eq {E} b :
  Encode (E := E) b
  = Ret (replicate (countPrefix Byte.x00 b) alphabetIdx0
         ++ map sym (rev (min_digits 58 (10 * length b) (be_val b)))).
Proof.
  unfold Encode, big_SetBytes. rewrite encodeLoop_eq by apply be_val_fits. cbn [bindO app].
  rewrite rev_app_distr, map_rev. f_equal. by rewrite rev_replicate.
Qed.

(** [Bytes] strips the leading zeros of what [SetBytes] read. *)
Lemma big_Bytes_eq x : 0 <= x -> forall n, x < 256 ^ Z.of_nat n ->
  big_Bytes x = rev (map z2b (min_digits 256 n x)).
Proof.
  intros Hx n Hn. unfold big_Bytes. do 2 f_equal. apply min_digits_fuel; [lia| |done].
  by apply log2_fuel.
Qed.

Lemma map_z2b_b2z b : map z2b (map b2z b) = b.
Proof. rewrite map_map. erewrite map_ext; [apply map_id|]. intros x. apply z2b_b2z. Qed.

Lemma digit_bytes b : Forall (digit 256) (map b2z b).
Proof. apply List.Forall_map, List.Forall_forall. intros x _. apply b2z_range. Qed.

Lemma big_Bytes_be_val b : big_Bytes (be_val b) = drop (countPrefix Byte.x00 b) b.
Proof.
  rewrite (big_Bytes_eq _ (proj1 (be_val_bound b)) (length b)) by apply be_val_bound.
  rewrite be_val_le, <- lval_bytes.
  rewrite min_digits_lval by (lia || apply digit_bytes || by rewrite length_map, length_rev).
  rewrite (trim_rev Byte.x00); [by rewrite map_z2b_b2z, rev_involutive|done|].
  intros x Hx. by apply (inj b2z).
Qed.

Lemma be_val_big_Bytes x : 0 <= x -> be_val (big_Bytes x) = x.
Proof.
  intros Hx. unfold big_Bytes. rewrite be_val_rev, <- lval_bytes, map_map.
  set (n := S (Z.to_nat (Z.log2 x))).
  assert (Hn : 0 <= x < 256 ^ Z.of_nat n) by (by apply log2_fuel).
  transitivity (lval 256 (min_digits 256 n x)); [|by apply lval_min_digits].
  f_equal. pose proof (min_digits_digit 256 ltac:(lia) n x) as Hd.
  induction Hd as [|d ds Hd Hds IH]; [done|]. cbn [map]. rewrite IH, b2z_z2b.
  unfold digit in Hd. by rewrite Z.mod_small.
Qed.

(** ** Decode *)

Lemma decodeChunk_digits {E} cs : forall total,
  Forall (fun c => dig c <> 255) cs -> 0 <= total -> (total + 1) * 58 ^ zlen cs <= 2 ^ 64 ->
  decodeChunk (E := E) (map b2z cs) total = Ret (Some (total * 58 ^ zlen cs + lval 58 (rev (map dig cs)))).
Proof.
  induction cs as [|c cs IH]; intros total Hcs Ht Hb; cbn [map decodeChunk].
  { change (zlen []) with 0. rewrite Z.pow_0_r. cbn [rev lval]. do 2 f_equal. lia. }
  inversion_clear Hcs as [|? ? Hc Hcs']. rewrite znth_b58. cbn [orCrash bindO].
  rewrite (proj2 (Z.eqb_neq _ _)) by done. destruct (sym_dig c Hc) as (_ & Hd & _). unfold digit in Hd.
  rewrite zlen_cons, Z.pow_add_r, Z.pow_1_r in * by (pose proof (zlen_nonneg cs); lia).
  assert (0 < 58 ^ zlen cs) by (apply Z.pow_pos_nonneg; [lia|apply zlen_nonneg]).
  rewrite (u64_id (total * 58)), u64_id by nia.
  rewrite IH by (done || nia). cbn [rev]. rewrite lval_app by lia. cbn [lval].
  replace (zlen (rev (map dig cs))) with (zlen cs) by (rewrite zlen_rev; unfold zlen; by rewrite length_map).
  do 2 f_equal. ring.
Qed.

Lemma bigRadix_lookup n : 0 < n <= 10 -> znth bigRadix n = Some (58 ^ n).
Proof.
  intros Hn. assert (Forall (fun n => znth bigRadix (Z.of_nat n) = Some (58 ^ Z.of_nat n)) (seq 1 10)) as Hall
    by (repeat constructor; reflexivity).
  rewrite List.Forall_forall in Hall. specialize (Hall (Z.to_nat n)).
  rewrite Z2Nat.id in Hall by lia. apply Hall, in_seq. lia.
Qed.

(** Ten digits fit a [uint64]. *)
Lemma chunk_fits (t : bytes) : (0 + 1) * 58 ^ zlen (take 10 t) <= 2 ^ 64.
Proof.
  rewrite Z.add_0_l, Z.mul_1_l. eapply Z.le_trans with (58 ^ 10); [|vm_compute; discriminate].
  apply Z.pow_le_mono_r; [lia|rewrite zlen_take; lia].
Qed.

Lemma digits_ascii cs : Forall (fun c => dig c <> 255) cs -> ascii cs.
Proof. intros H. eapply Forall_impl; [exact H|]. intros c Hc. by apply sym_dig. Qed.

(** One round of the loop on a non-empty string. *)
Lemma decodeLoop_step {E} fuel t ans : t <> [] ->
  decodeLoop (E := E) (S fuel) t ans
  = let! total := decodeChunk (map fst (runes (take 10 t))) 0 in
    match total with
    | None => Ret None
    | Some total => decodeLoop fuel (drop 10 t) (ans * 58 ^ zlen (take 10 t) + total)
    end.
Proof.
  intros Ht. assert (Hl : 0 < zlen t) by (destruct t; [done|zlia]).
  cbn [decodeLoop]. rewrite (proj2 (Z.gtb_lt _ _)) by lia.
  assert ((if zlen t >? 10 then 10 else zlen t) = zlen (take 10 t)) as ->.
  { rewrite zlen_take. destruct (Z.gtb_spec (zlen t) 10); lia. }
  pose proof (zlen_take 10 t) as Hn. set (n := zlen (take 10 t)) in *. cbv zeta.
  rewrite !zslice_Some by lia. cbn [orCrash bindO]. rewrite bigRadix_lookup by lia. cbn [orCrash bindO].
  rewrite Z.sub_0_r. change (Z.to_nat 0) with 0%nat. rewrite drop_0.
  assert (take (Z.to_nat n) t = take 10 t) as ->.
  { destruct (decide (length t <= 10)%nat); [rewrite !take_ge; unfold zlen in *; try done; lia|].
    f_equal. unfold zlen in *. lia. }
  assert (take (Z.to_nat (zlen t - n)) (drop (Z.to_nat n) t) = drop 10 t) as ->.
  { rewrite take_ge by (rewrite length_drop; unfold zlen in *; lia).
    destruct (decide (length t <= 10)%nat); [rewrite !drop_ge; unfold zlen in *; try done; lia|].
    f_equal. unfold zlen in *. lia. }
  done.
Qed.

Lemma decodeLoop_digits {E} fuel : forall t ans,
  Forall (fun c => dig c <> 255) t -> (length t < fuel)%nat ->
  decodeLoop (E := E) fuel t ans = Ret (Some (ans * 58 ^ zlen t + lval 58 (rev (map dig t)))).
Proof.
  induction fuel as [|fuel IH]; intros t ans Ht Hf; [lia|].
  destruct (decide (t = [])) as [->|Hne].
  { cbn [decodeLoop]. change (zlen [] >? 0) with false. cbv iota. change (zlen []) with 0.
    rewrite Z.pow_0_r. cbn [map rev lval]. do 2 f_equal. lia. }
  rewrite decodeLoop_step by done.
  pose proof (take_drop 10 t) as Hsplit. rewrite <- Hsplit in Ht. apply Forall_app in Ht as [Hc Hr].
  rewrite runes_ascii by (by apply digits_ascii). rewrite map_map. cbn [fst].
  rewrite decodeChunk_digits; [|done|lia|].
  2:{ apply chunk_fits. }
  cbn [bindO]. rewrite IH; [|done|destruct t; [done|rewrite length_drop; cbn [length] in *; lia]].
  do 2 f_equal. revert Hsplit. generalize (take 10 t) as c, (drop 10 t) as r. intros c r <-.
  rewrite map_app, rev_app_distr, lval_app by lia. rewrite zlen_app, Z.pow_add_r by apply zlen_nonneg.
  replace (zlen (rev (map dig r))) with (zlen r) by (rewrite zlen_rev; unfold zlen; by rewrite length_map).
  ring.
Qed.

(** The runes the loops look at: the string is cut into chunks of ten bytes, and
    every chunk is decoded on its own. *)
Fixpoint chunk_runes (fuel : nat) (t : bytes) : list Z :=
  match fuel with
  | O => []
  | S fuel => match t with [] => [] | _ => map fst (runes (take 10 t)) ++ chunk_runes fuel (drop 10 t) end
  end.

Definition rune_digit (v : Z) : bool :=
  match znth b58 v with Some d => negb (d =? 255) | None => false end.

(** The first rune that is not a symbol of the alphabet. *)
Definition first_bad (vs : list Z) : option Z := List.find (fun v => negb (rune_digit v)) vs.

Definition bad_outcome {E A} (v : Z) : outcome E (option A) :=
  if (0 <=? v) && (v <? 256) then Ret None else Crash.

Lemma bad_lookup {E A} v (k : Z -> outcome E (option A)) : rune_digit v = false ->
  (let! tmp := orCrash (znth b58 v) in if tmp =? 255 then Ret None else k tmp) = bad_outcome v.
Proof.
  unfold rune_digit, bad_outcome. intros Hv. destruct (znth b58 v) as [d|] eqn:Hz.
  - apply znth_Some in Hz. change (zlen b58) with 256 in Hz. ztest. cbn [orCrash bindO andb].
    apply negb_false_iff in Hv. by rewrite Hv.
  - cbn [orCrash bindO]. destruct (Z.leb_spec 0 v), (Z.ltb_spec v 256); try done.
    destruct (znth_is_Some b58 v) as [? ?]; [change (zlen b58) with 256; lia|congruence].
Qed.

Lemma decodeChunk_bad {E} vs v : forall total,
  first_bad vs = Some v -> decodeChunk (E := E) vs total = bad_outcome v.
Proof.
  induction vs as [|w vs IH]; intros total; [done|]. cbn [first_bad List.find decodeChunk].
  destruct (rune_digit w) eqn:Hw; cbn [negb].
  - intros Hf. unfold rune_digit in Hw. destruct (znth b58 w) as [d|]; [|done]. cbn [orCrash bindO].
    apply negb_true_iff in Hw. rewrite Hw. by apply IH.
  - intros [= <-]. by apply bad_lookup.
Qed.

(** A rune of the alphabet is an ASCII character. *)
Lemma rune_digit_ascii v : rune_digit v = true -> 0 <= v < 128.
Proof.
  unfold rune_digit. destruct (znth b58 v) as [d|] eqn:Hz; [|done]. intros Hd%negb_true_iff.
  pose proof (znth_Some _ _ _ Hz) as Hr. change (zlen b58) with 256 in Hr.
  rewrite <- (Z.mod_small v 256), <- b2z_z2b in Hz by lia. rewrite znth_b58 in Hz. injection Hz as Hz.
  zbool. destruct (sym_dig (z2b v)) as (_ & _ & Hlt); [lia|].
  rewrite b2z_z2b, Z.mod_small in Hlt by lia. lia.
Qed.

Lemma first_bad_None vs : first_bad vs = None <-> Forall (fun v => rune_digit v = true) vs.
Proof.
  unfold first_bad. induction vs as [|v vs IH]; cbn [List.find].
  { split; [by constructor|done]. }
  rewrite Forall_cons. destruct (rune_digit v); cbn [negb]; naive_solver.
Qed.

Lemma first_bad_app vs ws :
  first_bad (vs ++ ws) = match first_bad vs with Some v => Some v | None => first_bad ws end.
Proof. unfold first_bad. induction vs as [|v vs IH]; [done|]. cbn [app List.find]. destruct (negb (rune_digit v)); [done|exact IH]. Qed.

Lemma rune_digit_dig c : rune_digit (b2z c) = true <-> dig c <> 255.
Proof. unfold rune_digit. rewrite znth_b58, negb_true_iff. apply Z.eqb_neq. Qed.

(** No bad rune in a chunk: its bytes are symbols. *)
Lemma chunk_digits c : first_bad (map fst (runes c)) = None -> Forall (fun x => dig x <> 255) c.
Proof.
  rewrite first_bad_None. intros Hr.
  assert (Ha : ascii c).
  { apply runes_low. rewrite List.Forall_forall in *. intros d Hd.
    specialize (Hr d.1 (in_map fst _ _ Hd)). apply rune_digit_ascii in Hr. lia. }
  rewrite runes_ascii, map_map in Hr by done. cbn [fst] in Hr. rewrite List.Forall_forall in *.
  intros x Hx. apply rune_digit_dig, Hr. by apply (in_map b2z).
Qed.

Lemma chunk_runes_S fuel t : t <> [] ->
  chunk_runes (S fuel) t = map fst (runes (take 10 t)) ++ chunk_runes fuel (drop 10 t).
Proof. by destruct t. Qed.

Lemma decodeLoop_bad {E} fuel v : forall t ans, (length t < fuel)%nat ->
  first_bad (chunk_runes fuel t) = Some v -> decodeLoop (E := E) fuel t ans = bad_outcome v.
Proof.
  induction fuel as [|fuel IH]; intros t ans Hf Hv; [lia|].
  destruct (decide (t = [])) as [->|Hne]; [done|]. rewrite decodeLoop_step by done.
  rewrite chunk_runes_S, first_bad_app in Hv by done.
  destruct (first_bad (map fst (runes (take 10 t)))) as [w|] eqn:Hw.
  - injection Hv as ->. rewrite (decodeChunk_bad _ v) by done. unfold bad_outcome. by case_match.
  - apply chunk_digits in Hw. rewrite runes_ascii, map_map by (by apply digits_ascii). cbn [fst].
    rewrite decodeChunk_digits; [|done|lia|].
    + cbn [bindO]. apply IH; [|done]. destruct t; [done|]. rewrite length_drop. cbn [length] in *. lia.
    + apply chunk_fits.
Qed.

Lemma chunk_runes_digits fuel : forall t, (length t < fuel)%nat ->
  first_bad (chunk_runes fuel t) = None <-> Forall (fun c => dig c <> 255) t.
Proof.
  induction fuel as [|fuel IH]; intros t Hf; [lia|].
  destruct (decide (t = [])) as [->|Hne]; [by split; [constructor|]|].
  rewrite chunk_runes_S, first_bad_app by done.
  assert (Forall (fun c => dig c <> 255) t
          <-> Forall (fun c => dig c <> 255) (take 10 t) /\ Forall (fun c => dig c <> 255) (drop 10 t)) as ->
    by (by rewrite <- Forall_app, take_drop).
  assert (0 < length t)%nat by (destruct t; [done|cbn [length]; lia]).
  rewrite <- (IH (drop 10 t)) by (rewrite length_drop; lia).
  split.
  - destruct (first_bad (map fst (runes (take 10 t)))) eqn:Hw; [done|]. intros Hr.
    split; [by apply chunk_digits|done].
  - intros [Hc Hr]. assert (first_bad (map fst (runes (take 10 t))) = None) as ->; [|done].
    apply first_bad_None. rewrite runes_ascii, map_map by (by apply digits_ascii). cbn [fst].
    apply List.Forall_map. eapply Forall_impl; [exact Hc|]. intros c. apply rune_digit_dig.
Qed.

Definition symbols (s : bytes) : Prop := Forall (fun c => dig c <> 255) s.

Lemma Decode_eq {E} s : symbols s ->
  Decode (E := E) s
  = Ret (replicate (countPrefix alphabetIdx0 s) Byte.x00 ++ big_Bytes (lval 58 (rev (map dig s)))).
Proof. intros Hs. unfold Decode. rewrite decodeLoop_digits by (done || lia). by rewrite Z.mul_0_l, Z.add_0_l. Qed.

Lemma map_sym_dig s : symbols s -> map sym (map dig s) = s.
Proof. induction 1 as [|c s Hc Hs IH]; [done|]. cbn [map]. rewrite IH. f_equal. by apply sym_dig. Qed.

Lemma map_dig_sym ds : Forall (digit 58) ds -> map dig (map sym ds) = ds.
Proof. induction 1 as [|d ds Hd Hds IH]; [done|]. cbn [map]. by rewrite IH, dig_sym. Qed.

Lemma digit_dig s : symbols s -> Forall (digit 58) (map dig s).
Proof. intros Hs. apply List.Forall_map. eapply Forall_impl; [exact Hs|]. intros c Hc. by apply sym_dig. Qed.

(** What [Encode] returns, as symbols. *)
Lemma Encode_symbols {E} b : exists s, Encode (E := E) b = Ret s /\ symbols s /\ Decode (E := E) s = Ret b.
Proof.
  rewrite Encode_eq. set (z := countPrefix Byte.x00 b). set (D := min_digits 58 (10 * length b) (be_val b)).
  assert (HD : Forall (digit 58) D) by (by apply min_digits_digit).
  assert (Hs : symbols (replicate z alphabetIdx0 ++ map sym (rev D))).
  { apply Forall_app. split; [by apply Forall_replicate|]. rewrite map_rev.
    apply Forall_rev, List.Forall_map. eapply Forall_impl; [exact HD|].
    intros d Hd. rewrite dig_sym by done. unfold digit in Hd. lia. }
  eexists. split_and!; [done|done|]. rewrite Decode_eq by done. f_equal.
  rewrite countPrefix_app; cycle 1.
  { intros x l Hx. destruct (rev D) as [|d es] eqn:Hr; [done|]. injection Hx as <- _. intros Hz.
    apply (trim_head D d es) in Hr as Hd0; [|by apply trim_min_digits, be_val_fits].
    apply Hd0. apply (f_equal dig) in Hz. rewrite dig_sym in Hz; [by rewrite Hz|].
    apply Forall_rev in HD. rewrite Hr in HD. by inversion HD. }
  rewrite map_app, rev_app_distr, map_dig_sym by (by apply Forall_rev).
  rewrite rev_involutive, lval_app by lia.
  assert (lval 58 (rev (map dig (replicate z alphabetIdx0))) = 0) as ->.
  { clearbody z. clear. induction z as [|z IH]; [done|]. rewrite replicate_S. cbn [map rev].
    rewrite lval_app by lia. rewrite IH. change (dig alphabetIdx0) with 0. cbn [lval]. lia. }
  rewrite Z.mul_0_r, Z.add_0_r. unfold D. rewrite lval_min_digits by (lia || apply be_val_fits).
  rewrite big_Bytes_be_val. symmetry. apply countPrefix_split.
Qed.

Lemma be_val_zeros n b : be_val (replicate n Byte.x00 ++ b) = be_val b.
Proof. induction n as [|n IH]; [done|exact IH]. Qed.

Lemma big_Bytes_head x y l : 0 <= x -> big_Bytes x = y :: l -> y <> Byte.x00.
Proof.
  intros Hx Hb ->. pose proof (big_Bytes_be_val (big_Bytes x)) as H.
  rewrite be_val_big_Bytes in H by done. rewrite Hb in H. cbn [countPrefix drop] in H.
  rewrite decide_True in H by done. cbn [drop] in H.
  apply (f_equal length) in H. rewrite length_drop in H. cbn [length] in H. lia.
Qed.

(** A string of symbols is the encoding of what it decodes to. *)
Lemma Encode_Decode {E} s : symbols s ->
  exists v, Decode (E := E) s = Ret v /\ Encode (E := E) v = Ret s.
Proof.
  intros Hs. rewrite Decode_eq by done. eexists. split; [done|].
  set (k := countPrefix alphabetIdx0 s). set (y := lval 58 (rev (map dig s))).
  assert (Hd : Forall (digit 58) (rev (map dig s))) by (by apply Forall_rev, digit_dig).
  assert (Hy : 0 <= y) by (apply lval_bound; [lia|done]).
  rewrite Encode_eq, be_val_zeros, be_val_big_Bytes by done.
  rewrite countPrefix_app by (intros x l Hx; by apply (big_Bytes_head y x l)).
  set (n := (10 * length (replicate k Byte.x00 ++ big_Bytes y))%nat).
  assert (Hn : y < 58 ^ Z.of_nat n).
  { pose proof (be_val_fits (replicate k Byte.x00 ++ big_Bytes y)) as Hf.
    rewrite be_val_zeros, be_val_big_Bytes in Hf by done. apply Hf. }
  rewrite (min_digits_fuel 58 ltac:(lia) n (length s) y); [|done|].
  2:{ pose proof (lval_bound 58 ltac:(lia) _ Hd) as Hb. unfold y. unfold zlen in Hb.
      rewrite length_rev, length_map in Hb. apply Hb. }
  unfold y. rewrite min_digits_lval by (lia || done || by rewrite length_rev, length_map).
  rewrite <- map_rev, (trim_rev alphabetIdx0) by (done || apply sym_zero).
  rewrite <- map_rev, rev_involutive. fold k. rewrite map_sym_dig.
  - f_equal. symmetry. apply countPrefix_split.
  - unfold symbols in *. rewrite <- (take_drop k s) in Hs. by apply Forall_app in Hs as [_ ?].
Qed.

(** ** Base58 *)

(** Every byte string is encoded, to symbols of the alphabet only, and
    decoding gives it back, leading zeros included. *)
Theorem Base58_roundtrip (b : bytes) :
  exists s, Encode (E := unit) b = Ret s /\ symbols s /\ Decode (E := unit) s = Ret b.
Proof. apply Encode_symbols. Qed.

(** Decoding ends on every string, and is decided by the first rune that is
    not a symbol, the string being cut into chunks of ten bytes before it is read
    as UTF-8: without such a rune the result encodes to the string again; a rune
    below 256 gives the empty string; any other one is an index out of range of
    the table, and panics. *)
Theorem Decode_classifies (s : bytes) :
  match first_bad (chunk_runes (S (length s)) s) with
  | None => exists v, Decode (E := unit) s = Ret v /\ Encode (E := unit) v = Ret s
  | Some v => Decode (E := unit) s = if (0 <=? v) && (v <? 256) then Ret [] else Crash
  end.
Proof.
  destruct (first_bad _) as [v|] eqn:Hv.
  - unfold Decode. rewrite (decodeLoop_bad _ v) by (done || lia). unfold bad_outcome. by case_match.
  - apply chunk_runes_digits in Hv; [by apply Encode_Decode|lia].
Qed.

Lemma Decode_crash {E} s : Decode (E := E) s = Crash
  <-> exists v, first_bad (chunk_runes (S (length s)) s) = Some v /\ ~ 0 <= v < 256.
Proof.
  destruct (first_bad _) as [v|] eqn:Hv.
  - unfold Decode. rewrite (decodeLoop_bad _ v) by (done || lia). unfold bad_outcome.
    destruct (Z.leb_spec 0 v), (Z.ltb_spec v 256); cbn [andb bindO]; split; try done.
    1: intros (w & [= <-] & Hw); lia.
    all: intros _; exists v; split; [done|lia].
  - apply chunk_runes_digits in Hv; [|lia]. rewrite Decode_eq by done. split; [done|]. by intros (v & ? & _).
Qed.

Lemma Decode_fuel {E} s : Decode (E := E) s <> NoFuel.
Proof.
  destruct (first_bad (chunk_runes (S (length s)) s)) as [v|] eqn:Hv.
  - unfold Decode. rewrite (decodeLoop_bad _ v) by (done || lia). unfold bad_outcome. by case_match.
  - apply chunk_runes_digits in Hv; [|lia]. by rewrite Decode_eq.
Qed.

(** A euro sign, and the first byte of a two-byte sequence that a chunk boundary
    cuts: both leave the table. *)
Example Decode_panics :
  Decode (E := unit) [z2b 0xE2; z2b 0x82; z2b 0xAC] = Crash
  /\ Decode (E := unit) (str "111111111" ++ [z2b 0xC3; z2b 0xA9]) = Crash
  /\ Decode (E := unit) (str "1" ++ [z2b 0xC3; z2b 0xA9]) = Ret [].
Proof. split_and!; vm_compute; reflexivity. Qed.

(** ** Checksums *)

Section base58check_proofs.
#[local] Set Default Proof Using "Type*".
Context `{C : Crypto} `{!CryptoLaws C}.

Lemma zlen_checksum b : zlen (checksum b) = 4.
Proof. unfold checksum. rewrite zlen_take, sha256_len. done. Qed.

Lemma CheckDecode_eq s p v : Decode (E := Base58Err) s = Ret ((v :: p) ++ checksum (v :: p)) ->
  CheckDecode s = Ret (p, v).
Proof.
  intros Hd. unfold CheckDecode. rewrite Hd. cbn [bindO]. pose proof (zlen_checksum (v :: p)) as Hc.
  pose proof (zlen_nonneg p). set (d := (v :: p) ++ checksum (v :: p)).
  assert (Hl : zlen d = 5 + zlen p) by (unfold d; rewrite zlen_app, zlen_cons; lia).
  rewrite Hl. ztest. change (znth d 0) with (Some v). cbn [orCrash bindO].
  rewrite !zslice_Some by lia. cbn [orCrash bindO].
  assert (H1 : take (Z.to_nat (5 + zlen p - (5 + zlen p - 4))) (drop (Z.to_nat (5 + zlen p - 4)) d) = checksum (v :: p)).
  { replace (Z.to_nat (5 + zlen p - 4)) with (length (v :: p)) by (unfold zlen; cbn [length]; lia).
    unfold d. rewrite drop_app_length. apply take_ge. unfold zlen in Hc. lia. }
  assert (H2 : take (Z.to_nat (5 + zlen p - 4 - 0)) (drop (Z.to_nat 0) d) = v :: p).
  { replace (Z.to_nat (5 + zlen p - 4 - 0)) with (length (v :: p)) by (unfold zlen; cbn [length]; lia).
    unfold d. cbn [Z.to_nat]. rewrite drop_0. apply take_app_length. }
  rewrite H1, H2, bool_decide_eq_true_2 by done. cbn [negb]. do 2 f_equal.
  replace (Z.to_nat (5 + zlen p - 4 - 1)) with (length p) by (unfold zlen; lia).
  change (drop (Z.to_nat 1) d) with (p ++ checksum (v :: p)). apply take_app_length.
Qed.

Lemma CheckDecode_inv s p v : CheckDecode s = Ret (p, v) ->
  Decode (E := Base58Err) s = Ret ((v :: p) ++ checksum (v :: p)).
Proof.
  unfold CheckDecode. destruct (Decode s) as [d|e| |] eqn:Hd; try done. cbn [bindO].
  destruct (Z.ltb_spec (zlen d) 5) as [|Hl]; [done|]. destruct d as [|x d]; [done|].
  change (znth (x :: d) 0) with (Some x). cbn [orCrash bindO].
  rewrite !zslice_Some by lia. cbn [orCrash bindO]. case_bool_decide as Hk; [|done]. cbn [negb].
  rewrite zlen_cons in *. pose proof (zlen_nonneg d). intros [= Hp ->]. f_equal.
  rewrite Z.sub_0_r in Hk. change (Z.to_nat 0) with 0%nat in Hk. rewrite drop_0 in Hk.
  rewrite drop_0 in Hp.
  replace (Z.to_nat (1 + zlen d - 4)) with (S (Z.to_nat (zlen d - 4))) in Hk by lia. cbn [take] in Hk.
  replace (Z.to_nat (1 + zlen d - 4 - 1)) with (Z.to_nat (zlen d - 4)) in Hp by lia. rewrite Hp in Hk.
  rewrite Hk. cbn [app]. f_equal. rewrite <- Hp. rewrite skipn_cons.
  rewrite (take_ge (drop _ d)) by (rewrite length_drop; unfold zlen in *; lia). symmetry. apply take_drop.
Qed.

Lemma Decode_symbols {E} s d : Decode (E := E) s = Ret d -> d <> [] -> symbols s.
Proof.
  intros Hd Hne. apply (chunk_runes_digits (S (length s))); [lia|].
  destruct (first_bad _) as [v|] eqn:Hv; [|done]. unfold Decode in Hd.
  rewrite (decodeLoop_bad _ v) in Hd by (done || lia). unfold bad_outcome in Hd. case_match; naive_solver.
Qed.

Lemma CheckEncode_iff {E} s p v : CheckDecode s = Ret (p, v) <-> CheckEncode (E := E) p v = Ret s.
Proof.
  split.
  - intros Hd%CheckDecode_inv. pose proof (Decode_symbols _ _ Hd ltac:(done)) as Hs.
    destruct (Encode_Decode (E := E) s Hs) as (d & Hd' & He).
    rewrite Decode_eq in Hd by done. rewrite Decode_eq in Hd' by done.
    injection Hd' as <-. injection Hd as Hd. by rewrite Hd in He.
  - intros He. apply CheckDecode_eq. unfold CheckEncode in He.
    destruct (Encode_symbols (E := E) (([v] ++ p) ++ checksum ([v] ++ p))) as (s' & He' & Hs & Hd).
    rewrite He in He'. injection He' as <-. rewrite Decode_eq in Hd by done. rewrite Decode_eq by done.
    by injection Hd as ->.
Qed.

Lemma CheckEncode_total {E} p v : exists s, CheckEncode (E := E) p v = Ret s.
Proof. unfold CheckEncode. rewrite Encode_eq. eauto. Qed.
End base58check_proofs.

(** At most two symbols per byte. *)
Lemma Encode_length {E} b s : Encode (E := E) b = Ret s -> zlen s <= 2 * zlen b.
Proof.
  rewrite Encode_eq. intros [= <-]. set (z := countPrefix Byte.x00 b).
  assert (Hx : be_val b = be_val (drop z b)) by (rewrite (countPrefix_split Byte.x00 b) at 1; apply be_val_zeros).
  assert (Hz : zlen b = Z.of_nat z + zlen (drop z b)).
  { rewrite (countPrefix_split Byte.x00 b) at 1. by rewrite zlen_app, zlen_replicate. }
  pose proof (be_val_bound (drop z b)) as Hb. rewrite Hx.
  rewrite (min_digits_fuel 58 ltac:(lia) _ (2 * length (drop z b))).
  - pose proof (length_min_digits 58 ltac:(lia) (2 * length (drop z b)) (be_val (drop z b))).
    rewrite zlen_app, zlen_replicate. unfold zlen in *. rewrite length_map, length_rev. lia.
  - rewrite <- Hx. apply be_val_fits.
  - eapply Z.lt_le_trans; [apply Hb|]. rewrite Nat2Z.inj_mul, Z.pow_mul_r by lia.
    apply Z.pow_le_mono_l. lia.
Qed.

(** The decoder with checksums accepts exactly the strings the encoder
    produces, with the payload and the version they were produced from; the
    encoder is defined on every payload, and no two payloads have the same
    string. *)
Theorem CheckDecode_exact `{C : Crypto} `{!CryptoLaws C} (s p : bytes) (v : byte) :
  (CheckDecode s = Ret (p, v) <-> CheckEncode (E := unit) p v = Ret s)
  /\ exists s', CheckEncode (E := unit) p v = Ret s' /\ CheckDecode s' = Ret (p, v).
Proof.
  split; [apply CheckEncode_iff|]. destruct (CheckEncode_total (E := unit) p v) as [s' Hs].
  exists s'. split; [done|]. by apply (CheckEncode_iff (E := unit)).
Qed.

Lemma CheckDecode_exact_witness :
  exists s', CheckEncode (H := toy) (E := unit) (str "payload") (z2b 7) = Ret s'
             /\ CheckDecode (H := toy) s' = Ret (str "payload", z2b 7).
Proof. exact (proj2 (CheckDecode_exact (C := toy) [] (str "payload") (z2b 7))). Defined.
