(* ===== verification/ScriptError.v ===== *)
(** Error codes of the script package (src/thoughtd/txscript/error.go).

    An [Error] of the package is a code and a description; callers only look at
    the code ([IsErrorCode]), so the code is what the model's fallible functions
    return. *)

From S2P Require Import Prelude.

Inductive ErrorCode :=
  | ErrInternal | ErrInvalidFlags | ErrInvalidIndex | ErrUnsupportedAddress
  | ErrNotMultisigScript | ErrTooManyRequiredSigs | ErrTooMuchNullData
  | ErrUnsupportedScriptVersion | ErrEarlyReturn | ErrEmptyStack | ErrEvalFalse
  | ErrScriptUnfinished | ErrInvalidProgramCounter | ErrScriptTooBig | ErrElementTooBig
  | ErrTooManyOperations | ErrStackOverflow | ErrInvalidPubKeyCount | ErrInvalidSignatureCount
  | ErrNumberTooBig | ErrVerify | ErrEqualVerify | ErrNumEqualVerify | ErrCheckSigVerify
  | ErrCheckMultiSigVerify | ErrDisabledOpcode | ErrReservedOpcode | ErrMalformedPush
  | ErrInvalidStackOperation | ErrUnbalancedConditional | ErrMinimalData
  | ErrInvalidSigHashType | ErrSigTooShort | ErrSigTooLong | ErrSigInvalidSeqID
  | ErrSigInvalidDataLen | ErrSigMissingSTypeID | ErrSigMissingSLen | ErrSigInvalidSLen
  | ErrSigInvalidRIntID | ErrSigZeroRLen | ErrSigNegativeR | ErrSigTooMuchRPadding
  | ErrSigInvalidSIntID | ErrSigZeroSLen | ErrSigNegativeS | ErrSigTooMuchSPadding
  | ErrSigHighS | ErrNotPushOnly | ErrSigNullDummy | ErrPubKeyType | ErrCleanStack
  | ErrNullFail | ErrWitnessMalleated | ErrWitnessMalleatedP2SH | ErrDiscourageUpgradableNOPs
  | ErrNegativeLockTime | ErrUnsatisfiedLockTime | ErrMinimalIf
  | ErrDiscourageUpgradableWitnessProgram | ErrWitnessProgramEmpty | ErrWitnessProgramMismatch
  | ErrWitnessProgramWrongLength | ErrWitnessUnexpected | ErrWitnessPubKeyType
  | ErrDiscourageOpSuccess | ErrDiscourageUpgradeableTaprootVersion | ErrTapscriptCheckMultisig
  | ErrDiscourageUpgradeablePubKeyType | ErrTaprootSigInvalid | ErrTaprootMerkleProofInvalid
  | ErrTaprootOutputKeyParityMismatch | ErrControlBlockTooSmall | ErrControlBlockTooLarge
  | ErrControlBlockInvalidLength | ErrWitnessHasNoAnnex | ErrInvalidTaprootSigLen
  | ErrTaprootPubkeyIsEmpty | ErrTaprootMaxSigOps.

#[export] Instance ErrorCode_eq_dec : EqDecision ErrorCode.
Proof. solve_decision. Defined.

Definition ErrorCode_String (e : ErrorCode) : string :=
  match e with
  | ErrInternal => "ErrInternal"
  | ErrInvalidFlags => "ErrInvalidFlags"
  | ErrInvalidIndex => "ErrInvalidIndex"
  | ErrUnsupportedAddress => "ErrUnsupportedAddress"
  | ErrNotMultisigScript => "ErrNotMultisigScript"
  | ErrTooManyRequiredSigs => "ErrTooManyRequiredSigs"
  | ErrTooMuchNullData => "ErrTooMuchNullData"
  | ErrUnsupportedScriptVersion => "ErrUnsupportedScriptVersion"
  | ErrEarlyReturn => "ErrEarlyReturn"
  | ErrEmptyStack => "ErrEmptyStack"
  | ErrEvalFalse => "ErrEvalFalse"
  | ErrScriptUnfinished => "ErrScriptUnfinished"
  | ErrInvalidProgramCounter => "ErrInvalidProgramCounter"
  | ErrScriptTooBig => "ErrScriptTooBig"
  | ErrElementTooBig => "ErrElementTooBig"
  | ErrTooManyOperations => "ErrTooManyOperations"
  | ErrStackOverflow => "ErrStackOverflow"
  | ErrInvalidPubKeyCount => "ErrInvalidPubKeyCount"
  | ErrInvalidSignatureCount => "ErrInvalidSignatureCount"
  | ErrNumberTooBig => "ErrNumberTooBig"
  | ErrVerify => "ErrVerify"
  | ErrEqualVerify => "ErrEqualVerify"
  | ErrNumEqualVerify => "ErrNumEqualVerify"
  | ErrCheckSigVerify => "ErrCheckSigVerify"
  | ErrCheckMultiSigVerify => "ErrCheckMultiSigVerify"
  | ErrDisabledOpcode => "ErrDisabledOpcode"
  | ErrReservedOpcode => "ErrReservedOpcode"
  | ErrMalformedPush => "ErrMalformedPush"
  | ErrInvalidStackOperation => "ErrInvalidStackOperation"
  | ErrUnbalancedConditional => "ErrUnbalancedConditional"
  | ErrMinimalData => "ErrMinimalData"
  | ErrInvalidSigHashType => "ErrInvalidSigHashType"
  | ErrSigTooShort => "ErrSigTooShort"
  | ErrSigTooLong => "ErrSigTooLong"
  | ErrSigInvalidSeqID => "ErrSigInvalidSeqID"
  | ErrSigInvalidDataLen => "ErrSigInvalidDataLen"
  | ErrSigMissingSTypeID => "ErrSigMissingSTypeID"
  | ErrSigMissingSLen => "ErrSigMissingSLen"
  | ErrSigInvalidSLen => "ErrSigInvalidSLen"
  | ErrSigInvalidRIntID => "ErrSigInvalidRIntID"
  | ErrSigZeroRLen => "ErrSigZeroRLen"
  | ErrSigNegativeR => "ErrSigNegativeR"
  | ErrSigTooMuchRPadding => "ErrSigTooMuchRPadding"
  | ErrSigInvalidSIntID => "ErrSigInvalidSIntID"
  | ErrSigZeroSLen => "ErrSigZeroSLen"
  | ErrSigNegativeS => "ErrSigNegativeS"
  | ErrSigTooMuchSPadding => "ErrSigTooMuchSPadding"
  | ErrSigHighS => "ErrSigHighS"
  | ErrNotPushOnly => "ErrNotPushOnly"
  | ErrSigNullDummy => "ErrSigNullDummy"
  | ErrPubKeyType => "ErrPubKeyType"
  | ErrCleanStack => "ErrCleanStack"
  | ErrNullFail => "ErrNullFail"
  | ErrWitnessMalleated => "ErrWitnessMalleated"
  | ErrWitnessMalleatedP2SH => "ErrWitnessMalleatedP2SH"
  | ErrDiscourageUpgradableNOPs => "ErrDiscourageUpgradableNOPs"
  | ErrNegativeLockTime => "ErrNegativeLockTime"
  | ErrUnsatisfiedLockTime => "ErrUnsatisfiedLockTime"
  | ErrMinimalIf => "ErrMinimalIf"
  | ErrDiscourageUpgradableWitnessProgram => "ErrDiscourageUpgradableWitnessProgram"
  | ErrWitnessProgramEmpty => "ErrWitnessProgramEmpty"
  | ErrWitnessProgramMismatch => "ErrWitnessProgramMismatch"
  | ErrWitnessProgramWrongLength => "ErrWitnessProgramWrongLength"
  | ErrWitnessUnexpected => "ErrWitnessUnexpected"
  | ErrWitnessPubKeyType => "ErrWitnessPubKeyType"
  | ErrDiscourageOpSuccess => "ErrDiscourageOpSuccess"
  | ErrDiscourageUpgradeableTaprootVersion => "ErrDiscourageUpgradeableTaprootVersion"
  | ErrTapscriptCheckMultisig => "ErrTapscriptCheckMultisig"
  | ErrDiscourageUpgradeablePubKeyType => "ErrDiscourageUpgradeablePubKeyType"
  | ErrTaprootSigInvalid => "ErrTaprootSigInvalid"
  | ErrTaprootMerkleProofInvalid => "ErrTaprootMerkleProofInvalid"
  | ErrTaprootOutputKeyParityMismatch => "ErrTaprootOutputKeyParityMismatch"
  | ErrControlBlockTooSmall => "ErrControlBlockTooSmall"
  | ErrControlBlockTooLarge => "ErrControlBlockTooLarge"
  | ErrControlBlockInvalidLength => "ErrControlBlockInvalidLength"
  | ErrWitnessHasNoAnnex => "ErrWitnessHasNoAnnex"
  | ErrInvalidTaprootSigLen => "ErrInvalidTaprootSigLen"
  | ErrTaprootPubkeyIsEmpty => "ErrTaprootPubkeyIsEmpty"
  | ErrTaprootMaxSigOps => "ErrTaprootMaxSigOps"
  end.

(** [IsErrorCode] on the error of a call. *)
Definition IsErrorCode {A} (r : outcome ErrorCode A) (c : ErrorCode) : bool :=
  match r with Fail e => bool_decide (e = c) | _ => false end.
