(* ===== verification/ScriptNum.v ===== *)
(** Script numbers (src/thoughtd/txscript/scriptnum.go).

    The variable-length, sign-magnitude, little-endian integers of the script
    language.  [Bytes] and [makeScriptNum] are written with the shifts and masks
    of the source on [int64]; [num_val] is the mathematical meaning of an
    encoding, to which both are related. *)

From S2P Require Import Prelude ScriptError.

Notation maxScriptNumLen := 4 (only parsing).
Notation cltvMaxScriptNumLen := 5 (only parsing).

Definition checkMinimalDataEncoding (v : bytes) : outcome ErrorCode unit :=
  if zlen v =? 0 then Ret tt else
  let! top := orCrash (znth v (zlen v - 1)) in
  if Z.land (b2z top) 0x7f =? 0 then
    if zlen v =? 1 then Fail ErrMinimalData else
    let! second := orCrash (znth v (zlen v - 2)) in
    if Z.land (b2z second) 0x80 =? 0 then Fail ErrMinimalData else Ret tt
  else Ret tt.

(** The loop [for n > 0]: at most eight rounds on an [int64]. *)
Fixpoint digits (fuel : nat) (n : Z) : bytes :=
  match fuel with
  | O => []
  | S fuel => if n >? 0 then z2b (Z.land n 0xff) :: digits fuel (Z.shiftr n 8) else []
  end.

(** [result[len(result)-1] |= 0x80] *)
Definition or_last (result : bytes) : bytes :=
  match rev result with
  | [] => []
  | top :: rest => rev rest ++ [z2b (Z.lor (b2z top) 0x80)]
  end.

(** The negation of the least [int64] is itself, the loop then produces no
    byte, and the index of the last one panics. *)
Definition Bytes (n : Z) : outcome ErrorCode bytes :=
  if n =? 0 then Ret [] else
  let isNegative := n <? 0 in
  let n := if isNegative then i64 (- n) else n in
  let result := digits 8 n in
  let! top := orCrash (znth result (zlen result - 1)) in
  if negb (Z.land (b2z top) 0x80 =? 0) then
    let extraByte := if isNegative then 0x80 else 0x00 in
    Ret (result ++ [z2b extraByte])
  else if isNegative then Ret (or_last result)
  else Ret result.

Definition Int32 (n : Z) : Z :=
  if n >? maxInt32 then maxInt32
  else if n <? minInt32 then minInt32
  else i32 n.

(** The loop [for i, val := range v]. *)
Fixpoint orBytes (i : Z) (v : bytes) (result : Z) : Z :=
  match v with
  | [] => result
  | val :: v => orBytes (i + 1) v (Z.lor result (i64 (Z.shiftl (b2z val) (u8 (8 * i)))))
  end.

Definition makeScriptNum (v : bytes) (requireMinimal : bool) (scriptNumLen : Z) :
    outcome ErrorCode Z :=
  if zlen v >? scriptNumLen then Fail ErrNumberTooBig else
  let! _ := (if requireMinimal then checkMinimalDataEncoding v else Ret tt) in
  if zlen v =? 0 then Ret 0 else
  let result := orBytes 0 v 0 in
  let! top := orCrash (znth v (zlen v - 1)) in
  if negb (Z.land (b2z top) 0x80 =? 0) then
    let result := Z.land result (Z.lnot (i64 (Z.shiftl 0x80 (u8 (8 * (zlen v - 1)))))) in
    Ret (i64 (- result))
  else Ret result.

(** ** The meaning of an encoding *)

(** The magnitude is the little-endian value without the top bit, which is the
    sign. *)
Definition num_val (v : bytes) : Z :=
  match rev v with
  | [] => 0
  | top :: rest =>
      let m := le_val (rev rest) + 256 ^ zlen rest * (b2z top mod 128) in
      if b2z top <? 128 then m else - m
  end.

(** No shorter encoding of the same number. *)
Definition minimal (v : bytes) : Prop :=
  match rev v with
  | [] => True
  | top :: rest =>
      b2z top mod 128 <> 0 \/ match rest with [] => False | second :: _ => 128 <= b2z second end
  end.

(** ** Bit facts *)

Lemma byte_land_7f b : Z.land (b2z b) 0x7f = b2z b mod 128.
Proof. change 0x7f with (Z.ones 7). by rewrite Z.land_ones. Qed.

Lemma byte_land_80 b : Z.land (b2z b) 0x80 =? 0 = (b2z b <? 128).
Proof. by destruct b. Qed.

Lemma byte_lor_80 b : b2z b < 128 -> b2z (z2b (Z.lor (b2z b) 0x80)) = b2z b + 128.
Proof. destruct b; vm_compute; congruence. Qed.

Lemma byte_split b : b2z b = (if b2z b <? 128 then 0 else 128) + b2z b mod 128.
Proof. by destruct b. Qed.

(** Clearing a bit that is set. *)
Lemma land_lnot_pow2 a x k :
  0 <= k -> 0 <= a < 2 ^ k -> 2 ^ k <= x < 2 ^ (k + 1) -> x = a + 2 ^ k ->
  Z.land x (Z.lnot (2 ^ k)) = a.
Proof.
  intros Hk Ha Hx ->. fold (Z.ldiff (a + 2 ^ k) (2 ^ k)).
  apply Z.bits_inj'. intros n Hn. rewrite Z.land_spec, Z.lnot_spec, Z.pow2_bits_eqb by done.
  assert (a + 2 ^ k = Z.lor a (Z.shiftl 1 k)) as -> by (rewrite lor_disjoint by done; lia).
  rewrite Z.lor_spec, Z.shiftl_1_l, Z.pow2_bits_eqb by done.
  destruct (Z.eqb_spec k n) as [<-|]; simpl.
  - rewrite andb_false_r. rewrite <- (Z.mod_small a (2 ^ k)), Z.mod_pow2_bits_high by lia. done.
  - by rewrite orb_false_r, andb_true_r.
Qed.

(** ** Decoding *)

Lemma num_val_snoc bs m :
  num_val (bs ++ [m])
  = (let v := le_val bs + 256 ^ zlen bs * (b2z m mod 128) in if b2z m <? 128 then v else - v).
Proof. unfold num_val. rewrite rev_app_distr. simpl. by rewrite rev_involutive, zlen_rev. Qed.

Lemma minimal_snoc bs m :
  minimal (bs ++ [m]) <->
  b2z m mod 128 <> 0 \/ match rev bs with [] => False | second :: _ => 128 <= b2z second end.
Proof. unfold minimal. by rewrite rev_app_distr. Qed.

(** The last byte of a non-empty string. *)
Lemma snoc_cases {A} (v : list A) : v = [] \/ exists bs m, v = bs ++ [m].
Proof. destruct v as [|x v] using rev_ind; eauto. Qed.

Lemma znth_top {A} (bs : list A) m : znth (bs ++ [m]) (zlen (bs ++ [m]) - 1) = Some m.
Proof. rewrite zlen_app. change (zlen [m]) with 1. rewrite Z.add_simpl_r. apply znth_last. Qed.

Lemma orBytes_val v i acc :
  0 <= i -> i + zlen v <= 7 -> 0 <= acc < 256 ^ i -> orBytes i v acc = acc + 256 ^ i * le_val v.
Proof.
  revert i acc. induction v as [|b v IH]; intros i acc Hi Hl Ha; simpl; [lia|].
  rewrite zlen_cons in Hl. pose proof (zlen_nonneg v). pose proof (b2z_range b).
  assert (256 ^ i = 2 ^ (8 * i)) as Hp by (rewrite Z.pow_mul_r by lia; done).
  assert (2 ^ (8 * i) <= 2 ^ 48) by (apply Z.pow_le_mono_r; lia).
  rewrite u8_id by lia. rewrite i64_id.
  2:{ rewrite Z.shiftl_mul_pow2 by lia. nia. }
  rewrite Hp in Ha. rewrite lor_disjoint by lia. rewrite <- Hp, IH.
  - rewrite Z.pow_add_r by lia. ring.
  - lia.
  - lia.
  - rewrite Z.pow_add_r by lia. nia.
Qed.

Lemma num_mag_bound bs m :
  0 <= le_val bs + 256 ^ zlen bs * (b2z m mod 128) < 2 ^ (8 * zlen bs + 7).
Proof.
  pose proof (le_val_bound bs). pose proof (zlen_nonneg bs).
  pose proof (Z.mod_pos_bound (b2z m) 128).
  rewrite Z.pow_add_r, Z.pow_mul_r by lia. change (2 ^ 8) with 256. change (2 ^ 7) with 128. nia.
Qed.

Lemma makeScriptNum_val v len :
  zlen v <= 7 -> zlen v <= len -> makeScriptNum v false len = Ret (num_val v).
Proof.
  intros H7 Hl. unfold makeScriptNum. ztest. simpl.
  destruct (snoc_cases v) as [->|(bs & m & ->)]; [done|].
  rewrite znth_top. rewrite zlen_app in *. change (zlen [m]) with 1 in *.
  pose proof (zlen_nonneg bs). ztest. simpl.
  rewrite byte_land_80, num_val_snoc, orBytes_val by zlia.
  rewrite le_val_app, Z.add_simpl_r, Z.mul_1_l, Z.add_0_l. simpl le_val.
  rewrite Z.mul_0_r, Z.add_0_r. pose proof (num_mag_bound bs m) as Hm. pose proof (b2z_range m).
  destruct (Z.ltb_spec (b2z m) 128); simpl; [by rewrite Z.mod_small by lia|].
  assert (b2z m mod 128 = b2z m - 128) as Hmod
    by (pose proof (byte_split m); rewrite (proj2 (Z.ltb_ge _ _)) in * by done; lia).
  assert (256 ^ zlen bs = 2 ^ (8 * zlen bs)) as Hp by (rewrite Z.pow_mul_r by lia; done).
  assert (2 ^ (8 * zlen bs + 7) <= 2 ^ 55) by (apply Z.pow_le_mono_r; lia).
  rewrite u8_id by lia.
  assert (Z.shiftl 128 (8 * zlen bs) = 2 ^ (8 * zlen bs + 7)) as ->
    by (rewrite Z.shiftl_mul_pow2, Z.pow_add_r by lia; lia).
  rewrite (i64_id (2 ^ (8 * zlen bs + 7))) by lia. rewrite (land_lnot_pow2 (le_val bs + 256 ^ zlen bs * (b2z m mod 128))).
  - rewrite i64_id by lia. done.
  - lia.
  - done.
  - rewrite (Z.pow_add_r 2 _ 1) by lia. rewrite Hmod, Hp in Hm.
    rewrite Z.pow_add_r in * by lia. nia.
  - rewrite Hmod, Hp, Z.pow_add_r by lia. change (2 ^ 7) with 128. lia.
Qed.

Lemma checkMinimal_spec v :
  (minimal v /\ checkMinimalDataEncoding v = Ret tt)
  \/ (~ minimal v /\ checkMinimalDataEncoding v = Fail ErrMinimalData).
Proof.
  unfold checkMinimalDataEncoding.
  destruct (snoc_cases v) as [->|(bs & m & ->)]; [by left|].
  rewrite znth_top, minimal_snoc. rewrite zlen_app. change (zlen [m]) with 1.
  pose proof (zlen_nonneg bs). ztest. simpl. rewrite byte_land_7f.
  destruct (Z.eqb_spec (b2z m mod 128) 0) as [Hm|Hm]; [|by left; auto].
  destruct (snoc_cases bs) as [->|(bs' & s & ->)]; simpl; [right; naive_solver|].
  rewrite zlen_app in *. change (zlen [s]) with 1 in *. pose proof (zlen_nonneg bs').
  ztest. rewrite <- app_assoc, rev_app_distr. simpl.
  rewrite znth_app_r by lia. replace (zlen bs' + 1 + 1 - 2 - zlen bs') with 0 by lia. simpl.
  rewrite byte_land_80. destruct (Z.ltb_spec (b2z s) 128); [right|left]; split; try done; lia.
Qed.

(** ** Minimal encodings are unique *)

(** The magnitude of a minimal encoding fixes its length. *)
Lemma minimal_bound bs m :
  minimal (bs ++ [m]) ->
  2 ^ (8 * zlen bs - 1) <= le_val bs + 256 ^ zlen bs * (b2z m mod 128).
Proof.
  rewrite minimal_snoc. intros Hmin. pose proof (le_val_bound bs). pose proof (zlen_nonneg bs).
  pose proof (Z.mod_pos_bound (b2z m) 128).
  assert (2 ^ (8 * zlen bs - 1) <= 256 ^ zlen bs) as Hle.
  { replace (256 ^ zlen bs) with (2 ^ (8 * zlen bs)) by (rewrite Z.pow_mul_r by lia; done).
    apply Z.pow_le_mono_r; lia. }
  destruct (Z.eq_dec (b2z m mod 128) 0) as [Hz|Hz]; [|nia].
  destruct Hmin as [?|Hs]; [done|].
  destruct (snoc_cases bs) as [->|(bs' & s & ->)]; [done|].
  rewrite rev_app_distr in Hs. simpl in Hs. rewrite le_val_app, zlen_app. change (zlen [s]) with 1.
  simpl. pose proof (le_val_bound bs'). pose proof (zlen_nonneg bs').
  replace (8 * (zlen bs' + 1) - 1) with (8 * zlen bs' + 7) by lia.
  rewrite Z.pow_add_r, Z.pow_mul_r by lia. change (2 ^ 8) with 256. change (2 ^ 7) with 128. nia.
Qed.

Lemma le_val_inj v w : length v = length w -> le_val v = le_val w -> v = w.
Proof. intros Hl H. by rewrite <- (le_bytes_le_val v), <- (le_bytes_le_val w), Hl, H. Qed.

Lemma num_abs bs m : Z.abs (num_val (bs ++ [m])) = le_val bs + 256 ^ zlen bs * (b2z m mod 128).
Proof. rewrite num_val_snoc. pose proof (num_mag_bound bs m). simpl. case_match; lia. Qed.

Lemma num_len_eq bs m bs' m' :
  minimal (bs ++ [m]) -> minimal (bs' ++ [m']) -> num_val (bs ++ [m]) = num_val (bs' ++ [m']) ->
  zlen bs <= zlen bs'.
Proof.
  intros H1 H2 E. apply (f_equal Z.abs) in E. rewrite !num_abs in E.
  apply minimal_bound in H1. pose proof (num_mag_bound bs' m') as Hb.
  pose proof (zlen_nonneg bs). pose proof (zlen_nonneg bs').
  assert (2 ^ (8 * zlen bs - 1) < 2 ^ (8 * zlen bs' + 7)) as Hp%Z.pow_lt_mono_r_iff by lia; lia.
Qed.

Lemma minimal_nonzero bs m : minimal (bs ++ [m]) -> num_val (bs ++ [m]) <> 0.
Proof.
  intros H E. pose proof (num_abs bs m) as Ha. rewrite E in Ha. simpl in Ha.
  pose proof (zlen_nonneg bs). pose proof (minimal_bound bs m H) as Hb.
  destruct (Z.eq_dec (zlen bs) 0) as [Hz|Hz].
  - apply zlen_0_inv in Hz. subst bs. rewrite minimal_snoc in H. simpl in *.
    change (zlen []) with 0 in *. simpl in Ha. naive_solver lia.
  - pose proof (Z.pow_pos_nonneg 2 (8 * zlen bs - 1)). lia.
Qed.

Lemma num_val_inj v w : minimal v -> minimal w -> num_val v = num_val w -> v = w.
Proof.
  intros Hv Hw E.
  destruct (snoc_cases v) as [->|(bs & m & ->)], (snoc_cases w) as [->|(bs' & m' & ->)].
  - done.
  - by apply minimal_nonzero in Hw.
  - by apply minimal_nonzero in Hv.
  - assert (zlen bs = zlen bs') as Hl by (apply Z.le_antisymm; by eapply num_len_eq).
    pose proof (minimal_nonzero _ _ Hv) as Hn.
    pose proof (f_equal Z.abs E) as Ea. rewrite !num_abs, Hl in Ea.
    pose proof (le_val_bound bs). pose proof (le_val_bound bs'). rewrite <- Hl in *.
    assert (b2z m mod 128 = b2z m' mod 128 /\ le_val bs = le_val bs') as [Em El]
      by (apply (Z.div_mod_unique (256 ^ zlen bs)); lia).
    rewrite !num_val_snoc, El, Em, Hl in E. rewrite num_val_snoc, El, Em, Hl in Hn.
    assert (bs = bs') as -> by (apply le_val_inj; [unfold zlen in Hl; lia|done]).
    do 2 f_equal. apply (inj b2z). pose proof (b2z_range m). pose proof (b2z_range m').
    pose proof (byte_split m). pose proof (byte_split m').
    destruct (b2z m <? 128), (b2z m' <? 128); simpl in *; lia.
Qed.

(** ** Encoding *)

Lemma digits_spec fuel n :
  0 < n < 256 ^ Z.of_nat fuel ->
  exists bs m, digits fuel n = bs ++ [m] /\ b2z m <> 0 /\ le_val (bs ++ [m]) = n.
Proof.
  revert n. induction fuel as [|fuel IH]; intros n Hn; simpl; [simpl in Hn; lia|].
  rewrite Nat2Z.inj_succ, Z.pow_succ_r in Hn by lia. ztest.
  change 0xff with (Z.ones 8). rewrite Z.land_ones by done. change (2 ^ 8) with 256.
  rewrite Z.shiftr_div_pow2 by done. change (2 ^ 8) with 256.
  assert (b2z (z2b (n mod 256)) = n mod 256) as Hb by (by rewrite b2z_z2b, Zmod_mod).
  pose proof (Z.div_mod n 256). pose proof (Z.mod_pos_bound n 256).
  destruct (Z.eq_dec (n / 256) 0) as [Hz|Hz].
  - exists [], (z2b (n mod 256)). rewrite Hz. split_and!; [|lia|simpl; lia].
    destruct fuel; done.
  - destruct (IH (n / 256)) as (bs & m & -> & Hm & Hv).
    { split; [lia|]. apply Z.div_lt_upper_bound; lia. }
    exists (z2b (n mod 256) :: bs), m. split_and!; [done|done|]. simpl. rewrite Hv. lia.
Qed.

Lemma or_last_snoc bs m : or_last (bs ++ [m]) = bs ++ [z2b (Z.lor (b2z m) 0x80)].
Proof. unfold or_last. rewrite rev_app_distr. simpl. by rewrite rev_involutive. Qed.

Lemma Bytes_spec n :
  - 2 ^ 63 < n < 2 ^ 63 -> exists v, Bytes n = Ret v /\ minimal v /\ num_val v = n.
Proof.
  intros Hn. unfold Bytes. destruct (Z.eqb_spec n 0) as [->|Hnz]; [by exists []|].
  set (a := if n <? 0 then i64 (- n) else n).
  assert (a = Z.abs n) as Ha
    by (subst a; destruct (Z.ltb_spec n 0); [rewrite i64_id by lia|]; lia).
  destruct (digits_spec 8 a) as (bs & m & -> & Hm & Hv); [change (256 ^ Z.of_nat 8) with (2 ^ 64); lia|].
  rewrite znth_top. simpl. rewrite byte_land_80. pose proof (b2z_range m).
  rewrite le_val_app in Hv. simpl in Hv.
  destruct (Z.ltb_spec (b2z m) 128); simpl.
  - destruct (Z.ltb_spec n 0).
    + eexists; split; [done|]. rewrite or_last_snoc, minimal_snoc, num_val_snoc.
      rewrite byte_lor_80 by done. ztest. simpl.
      replace (b2z m + 128) with (b2z m + 1 * 128) by lia. rewrite Z_mod_plus_full, Z.mod_small by lia.
      lia.
    + eexists; split; [done|]. rewrite minimal_snoc, num_val_snoc. ztest. simpl. rewrite Z.mod_small by lia. lia.
  - eexists; split; [done|]. rewrite minimal_snoc, rev_app_distr, num_val_snoc, le_val_app. simpl.
    destruct (Z.ltb_spec n 0).
    + change (b2z (z2b 128)) with 128. simpl. change (128 mod 128) with 0. lia.
    + change (b2z (z2b 0)) with 0. simpl. change (0 mod 128) with 0. lia.
Qed.

Lemma Bytes_min : Bytes (- 2 ^ 63) = Crash.
Proof. reflexivity. Qed.

(** The encodings of at most [len] bytes are those of the numbers of less than
    [8 len - 1] bits. *)
Lemma num_val_range v len : 1 <= len -> zlen v <= len -> Z.abs (num_val v) < 2 ^ (8 * len - 1).
Proof.
  intros H1 Hl. destruct (snoc_cases v) as [->|(bs & m & ->)].
  - simpl. apply Z.pow_pos_nonneg; lia.
  - rewrite num_abs. rewrite zlen_app in Hl. change (zlen [m]) with 1 in Hl.
    pose proof (num_mag_bound bs m).
    assert (2 ^ (8 * zlen bs + 7) <= 2 ^ (8 * len - 1)) by (apply Z.pow_le_mono_r; lia). lia.
Qed.

Lemma minimal_len v len :
  1 <= len -> minimal v -> Z.abs (num_val v) < 2 ^ (8 * len - 1) -> zlen v <= len.
Proof.
  intros H1 Hm Ha. destruct (snoc_cases v) as [->|(bs & m & ->)]; [change (zlen []) with 0; lia|].
  rewrite num_abs in Ha. apply minimal_bound in Hm. pose proof (zlen_nonneg bs).
  assert (2 ^ (8 * zlen bs - 1) < 2 ^ (8 * len - 1)) as Hp%Z.pow_lt_mono_r_iff by lia; [|lia..].
  rewrite zlen_app. change (zlen [m]) with 1. lia.
Qed.

Lemma makeScriptNum_cases v req len :
  zlen v <= len <= 7 ->
  (makeScriptNum v req len = Ret (num_val v) /\ (req = true -> minimal v))
  \/ (makeScriptNum v req len = Fail ErrMinimalData /\ req = true /\ ~ minimal v).
Proof.
  intros Hl. pose proof (makeScriptNum_val v len ltac:(lia) ltac:(lia)) as Hv.
  unfold makeScriptNum in *. revert Hv. ztest. intros Hv. destruct req; [|by left].
  destruct (checkMinimal_spec v) as [[Hm ->]|[Hm ->]]; [by left|by right].
Qed.

Lemma makeScriptNum_exact v n len :
  1 <= len <= 7 ->
  makeScriptNum v true len = Ret n <-> Z.abs n < 2 ^ (8 * len - 1) /\ Bytes n = Ret v.
Proof.
  intros Hlen.
  assert (2 ^ (8 * len - 1) <= 2 ^ 55) by (apply Z.pow_le_mono_r; lia). split.
  - intros H1. destruct (Z.leb_spec (zlen v) len) as [Hl|Hl].
    2:{ unfold makeScriptNum in H1. rewrite Z.gtb_ltb, (proj2 (Z.ltb_lt _ _)) in H1 by lia. done. }
    destruct (makeScriptNum_cases v true len) as [[E Hm]|[E _]]; [lia| |congruence].
    rewrite E in H1. injection H1 as <-. specialize (Hm eq_refl).
    pose proof (num_val_range v len ltac:(lia) Hl). split; [done|].
    destruct (Bytes_spec (num_val v)) as (w & Hw & Hwm & Hwv); [lia|].
    by rewrite Hw, (num_val_inj w v).
  - intros [Hn Hb]. destruct (Bytes_spec n) as (w & Hw & Hm & <-); [lia|].
    rewrite Hw in Hb. injection Hb as ->.
    pose proof (minimal_len v len ltac:(lia) Hm Hn).
    by destruct (makeScriptNum_cases v true len) as [[? _]|(_ & _ & ?)]; [lia| |].
Qed.

(** ** Properties *)

(** C40: under minimal encoding, decoding and encoding are inverse and nothing
    else is accepted: a byte string is read as [n] with a limit of [len] bytes
    if and only if [n] has less than [8 len - 1] bits and the string is the one
    [Bytes] produces.  The limits the package passes are 4 and 5. *)
Theorem makeScriptNum_minimal_exact (v : bytes) (n len : Z) :
  1 <= len <= 7 ->
  makeScriptNum v true len = Ret n <-> Z.abs n < 2 ^ (8 * len - 1) /\ Bytes n = Ret v.
Proof. apply makeScriptNum_exact. Qed.

Lemma makeScriptNum_minimal_exact_witness :
  makeScriptNum [z2b 0xff; z2b 0x80] true 4 = Ret (-255).
Proof. apply (makeScriptNum_minimal_exact [z2b 0xff; z2b 0x80] (-255) 4); [lia|split; reflexivity]. Defined.

(** Every byte string is classified: too long for the limit, refused as not
    minimal exactly when minimal encoding is required and a shorter encoding
    exists, and otherwise read as the sign-magnitude value of its bytes. *)
Theorem makeScriptNum_classifies (v : bytes) (req : bool) (len : Z) :
  len <= 7 ->
  makeScriptNum v req len
  = if len <? zlen v then Fail ErrNumberTooBig
    else if req && negb (bool_decide (Bytes (num_val v) = Ret v)) then Fail ErrMinimalData
    else Ret (num_val v).
Proof.
  intros H7. destruct (Z.ltb_spec len (zlen v)) as [Hl|Hl].
  { unfold makeScriptNum. by ztest. }
  destruct (makeScriptNum_cases v req len) as [[E Hm]|(E & -> & Hm)]; [lia| |]; rewrite E.
  - destruct req; [|done]. rewrite bool_decide_true; [done|].
    destruct (Z.leb_spec 1 len) as [H1|H1]; [by apply makeScriptNum_exact in E as [_ ?]; [|lia]|].
    assert (v = []) as -> by (apply zlen_0_inv; pose proof (zlen_nonneg v); lia). done.
  - rewrite bool_decide_false; [done|]. intros Hb. apply Hm.
    pose proof (num_val_range v 7 ltac:(lia) ltac:(lia)).
    destruct (Bytes_spec (num_val v)) as (w & Hw & Hwm & _); [lia|]. congruence.
Qed.

Lemma makeScriptNum_classifies_witness :
  makeScriptNum [z2b 1; z2b 0x80] true 4 = Fail ErrMinimalData
  /\ makeScriptNum [z2b 1; z2b 0x80] false 4 = Ret (-1).
Proof.
  split; [rewrite (makeScriptNum_classifies [z2b 1; z2b 0x80] true 4) by lia
    | rewrite (makeScriptNum_classifies [z2b 1; z2b 0x80] false 4) by lia]; reflexivity.
Defined.

(** Encoding an [int64] panics for exactly one value, the least one, whose
    negation overflows; every other value is encoded in at most nine bytes. *)
Theorem Bytes_total (n : Z) :
  - 2 ^ 63 <= n < 2 ^ 63 ->
  match Bytes n with
  | Ret v => n <> - 2 ^ 63 /\ num_val v = n /\ zlen v <= 9
  | Crash => n = - 2 ^ 63
  | _ => False
  end.
Proof.
  intros Hn. destruct (Z.eq_dec n (- 2 ^ 63)) as [->|Hne]; [by rewrite Bytes_min|].
  destruct (Bytes_spec n) as (v & -> & Hm & <-); [lia|]. split_and!; [done..|].
  apply (minimal_len v 9); [lia|done|]. change (2 ^ (8 * 9 - 1)) with (2 ^ 71). lia.
Qed.

Lemma Bytes_total_witness : match Bytes (-129) with Ret v => num_val v = -129 | _ => False end.
Proof. pose proof (Bytes_total (-129) ltac:(lia)) as H. simpl in *. apply H. Defined.
