(* ===== verification/ScriptStack.v ===== *)
(** The stacks of the script engine (src/thoughtd/txscript/stack.go).

    The slice [stk] keeps the top of the stack at its end, and depths are
    [int32]; every method is a stateful call that leaves the stack as the code
    leaves it, also when it returns an error. *)

From S2P Require Import Prelude ScriptError ScriptNum.

(** The loop over the bytes, [i] being the index of the first one. *)
Fixpoint asBool_from (i n : Z) (t : bytes) : bool :=
  match t with
  | [] => false
  | b :: t =>
      if negb (b2z b =? 0) then
        if (i =? n - 1) && (b2z b =? 0x80) then false else true
      else asBool_from (i + 1) n t
  end.

Definition asBool (t : bytes) : bool := asBool_from 0 (zlen t) t.

Definition fromBool (v : bool) : bytes := if v then [z2b 1] else [].

Record stack := mkStack { stk : list bytes; verifyMinimalData : bool }.

Notation SM := (M stack ErrorCode).

Definition set_stk (l : list bytes) (s : stack) : stack := mkStack l (verifyMinimalData s).

(** A counted loop [for i := n; i > 0; i--]. *)
Fixpoint timesM {S E} (n : nat) (m : M S E unit) : M S E unit :=
  match n with
  | O => retM tt
  | S n => m ;; timesM n m
  end.

Definition Depth : SM Z := s <- getM ;; retM (i32 (zlen (stk s))).

Definition PushByteArray (so : bytes) : SM unit :=
  modifyM (fun s => set_stk (stk s ++ [so]) s).

Definition PushInt (val : Z) : SM unit := b <- liftO (Bytes val) ;; PushByteArray b.

Definition PushBool (val : bool) : SM unit := PushByteArray (fromBool val).

Definition nipN (idx : Z) : SM bytes :=
  s <- getM ;;
  let sz := i32 (zlen (stk s)) in
  if (idx <? 0) || (idx >? i32 (sz - 1)) then failM ErrInvalidStackOperation else
  so <- liftO (orCrash (znth (stk s) (sz - idx - 1))) ;;
  (if idx =? 0 then
     l <- liftO (orCrash (zslice (stk s) 0 (sz - 1))) ;;
     putM (set_stk l s)
   else if idx =? sz - 1 then
     l <- liftO (orCrash (zslice (stk s) 1 (zlen (stk s)))) ;;
     putM (set_stk l s)
   else
     s1 <- liftO (orCrash (zslice (stk s) (sz - idx) sz)) ;;
     l <- liftO (orCrash (zslice (stk s) 0 (sz - idx - 1))) ;;
     putM (set_stk (l ++ s1) s)) ;;
  retM so.

Definition PopByteArray : SM bytes := nipN 0.

Definition PopInt : SM Z :=
  so <- PopByteArray ;;
  s <- getM ;;
  liftO (makeScriptNum so (verifyMinimalData s) maxScriptNumLen).

Definition PopBool : SM bool := so <- PopByteArray ;; retM (asBool so).

Definition PeekByteArray (idx : Z) : SM bytes :=
  s <- getM ;;
  let sz := i32 (zlen (stk s)) in
  if (idx <? 0) || (idx >=? sz) then failM ErrInvalidStackOperation else
  liftO (orCrash (znth (stk s) (sz - idx - 1))).

Definition PeekInt (idx : Z) : SM Z :=
  so <- PeekByteArray idx ;;
  s <- getM ;;
  liftO (makeScriptNum so (verifyMinimalData s) maxScriptNumLen).

Definition PeekBool (idx : Z) : SM bool := so <- PeekByteArray idx ;; retM (asBool so).

Definition NipN (idx : Z) : SM unit := _ <- nipN idx ;; retM tt.

Definition Tuck : SM unit :=
  so2 <- PopByteArray ;;
  so1 <- PopByteArray ;;
  PushByteArray so2 ;;
  PushByteArray so1 ;;
  PushByteArray so2.

Definition DropN (n : Z) : SM unit :=
  if n <? 1 then failM ErrInvalidStackOperation else
  timesM (Z.to_nat n) (_ <- PopByteArray ;; retM tt).

Definition DupN (n : Z) : SM unit :=
  if n <? 1 then failM ErrInvalidStackOperation else
  timesM (Z.to_nat n) (so <- PeekByteArray (n - 1) ;; PushByteArray so).

Definition RotN (n : Z) : SM unit :=
  if n <? 1 then failM ErrInvalidStackOperation else
  let entry := i32 (3 * n - 1) in
  timesM (Z.to_nat n) (so <- nipN entry ;; PushByteArray so).

Definition SwapN (n : Z) : SM unit :=
  if n <? 1 then failM ErrInvalidStackOperation else
  let entry := i32 (2 * n - 1) in
  timesM (Z.to_nat n) (so <- nipN entry ;; PushByteArray so).

Definition OverN (n : Z) : SM unit :=
  if n <? 1 then failM ErrInvalidStackOperation else
  let entry := i32 (2 * n - 1) in
  timesM (Z.to_nat n) (so <- PeekByteArray entry ;; PushByteArray so).

Definition PickN (n : Z) : SM unit := so <- PeekByteArray n ;; PushByteArray so.

Definition RollN (n : Z) : SM unit := so <- nipN n ;; PushByteArray so.

(** ** Booleans *)

(** A byte string is true when the number it encodes is not zero. *)
Lemma asBool_from_all n t : forall i,
  i + zlen t = n ->
  asBool_from i n t = negb (forallb (fun b => b2z b =? 0) (removelast t)
    && match last t with None => true | Some b => (b2z b =? 0) || (b2z b =? 0x80) end).
Proof.
  induction t as [|b t IH]; intros i Hi; [done|]. rewrite zlen_cons in Hi.
  destruct t as [|c t].
  - change (zlen []) with 0 in Hi. simpl. rewrite (proj2 (Z.eqb_eq i (n - 1))) by lia.
    destruct (b2z b =? 0), (b2z b =? 128); done.
  - rewrite zlen_cons in Hi. pose proof (zlen_nonneg t). simpl asBool_from at 1. fold (asBool_from).
    rewrite (proj2 (Z.eqb_neq i (n - 1))) by lia.
    specialize (IH (i + 1)). rewrite zlen_cons in IH. specialize (IH ltac:(lia)).
    simpl removelast. simpl last. simpl in IH. simpl forallb.
    destruct (b2z b =? 0); simpl; [exact IH|done].
Qed.

Lemma le_val_zero bs : le_val bs = 0 <-> forallb (fun b => b2z b =? 0) bs = true.
Proof.
  induction bs as [|b bs IH]; [done|]. simpl. pose proof (b2z_range b).
  pose proof (le_val_bound bs). rewrite andb_true_iff, <- IH, Z.eqb_eq. lia.
Qed.

Lemma asBool_num t : asBool t = negb (num_val t =? 0).
Proof.
  unfold asBool. rewrite asBool_from_all by lia. f_equal.
  destruct (snoc_cases t) as [->|(bs & m & ->)]; [done|].
  rewrite removelast_last, last_snoc, num_val_snoc. simpl.
  pose proof (le_val_bound bs) as Hb. pose proof (byte_split m) as Hm. pose proof (b2z_range m).
  pose proof (Z.mod_pos_bound (b2z m) 128).
  assert ((b2z m =? 0) || (b2z m =? 128) = (b2z m mod 128 =? 0)) as ->
    by (destruct (Z.ltb_spec (b2z m) 128), (Z.eqb_spec (b2z m) 0), (Z.eqb_spec (b2z m) 128),
          (Z.eqb_spec (b2z m mod 128) 0); simpl in *; try done; lia).
  assert ((le_val bs + 256 ^ zlen bs * (b2z m mod 128) =? 0)
    = (le_val bs =? 0) && (b2z m mod 128 =? 0)) as Hz.
  { destruct (Z.eqb_spec (le_val bs) 0) as [->|], (Z.eqb_spec (b2z m mod 128) 0) as [->|]; simpl;
      first [apply Z.eqb_eq | apply Z.eqb_neq]; nia. }
  assert (forallb (fun b => b2z b =? 0) bs = (le_val bs =? 0)) as ->.
  { apply eq_bool_prop_intro. rewrite !Is_true_true, Z.eqb_eq. symmetry. apply le_val_zero. }
  rewrite <- Hz. case_match; [done|].
  destruct (Z.eqb_spec (le_val bs + 256 ^ zlen bs * (b2z m mod 128)) 0), 
    (Z.eqb_spec (- (le_val bs + 256 ^ zlen bs * (b2z m mod 128))) 0); lia.
Qed.

(** ** Stack effects *)

(** The depths the code computes as [int32] are the depths. *)
Definition depth_ok (s : stack) : Prop := zlen (stk s) < 2 ^ 31.

Lemma i32_depth s : depth_ok s -> i32 (zlen (stk s)) = zlen (stk s).
Proof. unfold depth_ok. intros. apply i32_id. pose proof (zlen_nonneg (stk s)). lia. Qed.

(** Split a stack at a depth. *)
Lemma stack_split {A} (l : list A) idx :
  0 <= idx < zlen l -> exists below x above, l = below ++ x :: above /\ zlen above = idx.
Proof.
  intros Hi. exists (take (Z.to_nat (zlen l - idx - 1)) l).
  destruct (drop (Z.to_nat (zlen l - idx - 1)) l) as [|x above] eqn:E.
  - apply (f_equal zlen) in E. rewrite zlen_drop in E. change (zlen []) with 0 in E. lia.
  - exists x, above. split; [by rewrite <- E, take_drop|].
    apply (f_equal zlen) in E. rewrite zlen_drop, zlen_cons in E. lia.
Qed.

Lemma zslice_app_l {A} (l k : list A) : zslice (l ++ k) 0 (zlen l) = Some l.
Proof.
  pose proof (zlen_nonneg l). pose proof (zlen_nonneg k).
  rewrite zslice_Some by (rewrite ?zlen_app; lia).
  by rewrite Z.sub_0_r, zlen_to_nat, drop_0, take_app_length.
Qed.

Lemma zslice_app_r {A} (l k : list A) : zslice (l ++ k) (zlen l) (zlen (l ++ k)) = Some k.
Proof.
  pose proof (zlen_nonneg l). pose proof (zlen_nonneg k). rewrite zlen_app.
  rewrite zslice_Some by (rewrite ?zlen_app; lia).
  rewrite zlen_to_nat, drop_app_length, take_ge; [done|]. unfold zlen in *. lia.
Qed.

Lemma nipN_spec s below x above :
  depth_ok s -> stk s = below ++ x :: above ->
  nipN (zlen above) s = (Ret x, set_stk (below ++ above) s).
Proof.
  intros Hd Hs. unfold nipN, getM. rewrite (bindM_step _ _ _ s s) by done.
  rewrite i32_depth by done. unfold depth_ok in Hd. rewrite Hs in *.
  pose proof (zlen_nonneg below). pose proof (zlen_nonneg above).
  rewrite zlen_app, zlen_cons in *. cbv zeta. rewrite i32_id by lia. ztest. simpl.
  replace (zlen below + (1 + zlen above) - zlen above - 1) with (zlen below) by lia.
  rewrite znth_app_r, Z.sub_diag by lia. simpl. unfold bindM at 1, liftO, orCrash.
  destruct (Z.eqb_spec (zlen above) 0) as [E|E].
  { apply zlen_0_inv in E. subst above. change (zlen []) with 0.
    replace (zlen below + (1 + 0) - 1) with (zlen below) by lia.
    rewrite zslice_app_l. simpl. by rewrite app_nil_r. }
  destruct (Z.eqb_spec (zlen above) (zlen below + (1 + zlen above) - 1)) as [E'|E'].
  { assert (below = []) as -> by (apply zlen_0_inv; lia). simpl.
    pose proof (zslice_app_r [x] above) as Hz.
    rewrite zlen_app in Hz. change (zlen [x]) with 1 in Hz. simpl in Hz. change (zlen []) with 0. rewrite Z.add_0_l. by rewrite Hz. }
  replace (zlen below + (1 + zlen above) - zlen above) with (zlen (below ++ [x]))
    by (rewrite zlen_app; change (zlen [x]) with 1; lia).
  replace (zlen below + (1 + zlen above)) with (zlen ((below ++ [x]) ++ above))
    by (rewrite !zlen_app; change (zlen [x]) with 1; lia).
  replace (below ++ x :: above) with ((below ++ [x]) ++ above) by (by rewrite <- app_assoc).
  rewrite zslice_app_r. rewrite <- app_assoc. by rewrite zslice_app_l.
Qed.

Lemma nipN_fail s idx :
  depth_ok s -> ~ 0 <= idx < zlen (stk s) -> nipN idx s = (Fail ErrInvalidStackOperation, s).
Proof.
  intros Hd Hi. unfold nipN. runM. rewrite i32_depth by done.
  pose proof (zlen_nonneg (stk s)). unfold depth_ok in *. rewrite i32_id by lia.
  destruct (Z.ltb_spec idx 0); [done|]. rewrite Z.gtb_ltb. rewrite (proj2 (Z.ltb_lt _ _)) by lia. done.
Qed.

Lemma Peek_spec s below x above :
  depth_ok s -> stk s = below ++ x :: above -> PeekByteArray (zlen above) s = (Ret x, s).
Proof.
  intros Hd Hs. unfold PeekByteArray. runM. rewrite i32_depth by done. rewrite Hs.
  pose proof (zlen_nonneg below). pose proof (zlen_nonneg above). rewrite zlen_app, zlen_cons.
  ztest. simpl. replace (zlen below + (1 + zlen above) - zlen above - 1) with (zlen below) by lia.
  by rewrite znth_app_r, Z.sub_diag by lia.
Qed.

Lemma Peek_fail s idx :
  depth_ok s -> ~ 0 <= idx < zlen (stk s) -> PeekByteArray idx s = (Fail ErrInvalidStackOperation, s).
Proof.
  intros Hd Hi. unfold PeekByteArray. runM. rewrite i32_depth by done.
  destruct (Z.ltb_spec idx 0); [done|]. rewrite Z.geb_leb. rewrite (proj2 (Z.leb_le _ _)) by lia. done.
Qed.

Lemma Pop_spec s below x :
  depth_ok s -> stk s = below ++ [x] -> PopByteArray s = (Ret x, set_stk below s).
Proof.
  intros Hd Hs. unfold PopByteArray. change 0 with (zlen ([] : list bytes)).
  rewrite (nipN_spec s below x []) by done. by rewrite app_nil_r.
Qed.

Lemma Pop_empty s : stk s = [] -> PopByteArray s = (Fail ErrInvalidStackOperation, s).
Proof.
  intros Hs. apply nipN_fail; [|rewrite Hs; change (zlen []) with 0; lia].
  unfold depth_ok. by rewrite Hs.
Qed.

Lemma stack_eta s l : stk s = l -> set_stk l s = s.
Proof. intros <-. by destruct s. Qed.

Lemma roll_loop a : forall b below s entry,
  depth_ok s -> stk s = below ++ a ++ b -> entry = zlen a + zlen b - 1 ->
  timesM (length a) (so <- nipN entry ;; PushByteArray so) s
  = (Ret tt, set_stk (below ++ b ++ a) s).
Proof.
  induction a as [|x a IH]; intros b below s entry Hd Hs He; simpl.
  { rewrite app_nil_r. unfold retM. by rewrite stack_eta. }
  rewrite zlen_cons in He.
  assert (entry = zlen (a ++ b)) as -> by (rewrite zlen_app; lia).
  rewrite bindM_assoc. erewrite bindM_step by (apply nipN_spec; [done|exact Hs]).
  erewrite bindM_step by reflexivity. rewrite (IH (b ++ [x]) below).
  - simpl. by rewrite <- !app_assoc.
  - unfold depth_ok in *. rewrite Hs in Hd. simpl. clear -Hd. zlia.
  - simpl. by rewrite <- !app_assoc.
  - rewrite !zlen_app. change (zlen [x]) with 1. lia.
Qed.

Lemma copy_loop a : forall b below s entry,
  zlen (stk s) + zlen a < 2 ^ 31 -> stk s = below ++ a ++ b -> entry = zlen a + zlen b - 1 ->
  timesM (length a) (so <- PeekByteArray entry ;; PushByteArray so) s
  = (Ret tt, set_stk (below ++ a ++ b ++ a) s).
Proof.
  induction a as [|x a IH]; intros b below s entry Hd Hs He; simpl.
  { rewrite app_nil_r. unfold retM. by rewrite stack_eta. }
  rewrite zlen_cons in *. pose proof (zlen_nonneg a).
  assert (entry = zlen (a ++ b)) as -> by (rewrite zlen_app; lia).
  rewrite bindM_assoc. erewrite bindM_step by (apply (Peek_spec s below x (a ++ b)); [unfold depth_ok; lia|exact Hs]).
  erewrite bindM_step by reflexivity. rewrite (IH (b ++ [x]) (below ++ [x])).
  - simpl. by rewrite <- !app_assoc.
  - simpl. rewrite zlen_app. change (zlen [x]) with 1. lia.
  - simpl. rewrite Hs. by rewrite <- !app_assoc.
  - rewrite !zlen_app. change (zlen [x]) with 1. lia.
Qed.

Lemma drop_loop a : forall below s,
  depth_ok s -> stk s = below ++ a ->
  timesM (length a) (_ <- PopByteArray ;; retM tt) s = (Ret tt, set_stk below s).
Proof.
  induction a as [|x a IH] using rev_ind; intros below s Hd Hs.
  { simpl. rewrite app_nil_r in Hs. unfold retM. by rewrite stack_eta. }
  rewrite length_app, Nat.add_comm. simpl. rewrite bindM_assoc.
  rewrite app_assoc in Hs. erewrite bindM_step by (apply Pop_spec; [done|exact Hs]).
  erewrite bindM_step by reflexivity. rewrite (IH below); [done| |done].
  unfold depth_ok in *. rewrite Hs, zlen_app in Hd. simpl. pose proof (zlen_nonneg [x]). lia.
Qed.

(** A loop whose first round fails. *)
Lemma timesM_fail {S E} n (m : M S E unit) s e :
  (0 < n)%nat -> m s = (Fail e, s) -> timesM n m s = (Fail e, s).
Proof. intros Hn Hm. destruct n; [lia|]. simpl. unfold bindM. by rewrite Hm. Qed.

(** The methods that move or copy items, in the notation of the comments of
    the code: the stack is written bottom first and [n] is the length of the
    groups that move. *)
Section effects.
Variables (s : stack) (n : Z) (below a b c : list bytes).
Hypothesis Hn : 1 <= n.
Hypothesis Ha : zlen a = n.
Hypothesis Hb : zlen b = n.
Hypothesis Hc : zlen c = n.
Hypothesis Hd : zlen (stk s) + n < 2 ^ 31.

Lemma len_a : Z.to_nat n = length a.
Proof using Ha. by rewrite <- Ha, zlen_to_nat. Qed.

Lemma DropN_effect : stk s = below ++ a -> DropN n s = (Ret tt, set_stk below s).
Proof using Hn Ha Hd.
  intros Hs. unfold DropN. ztest. rewrite len_a. apply drop_loop; [unfold depth_ok; lia|done].
Qed.

Lemma DupN_effect : stk s = below ++ a -> DupN n s = (Ret tt, set_stk (below ++ a ++ a) s).
Proof using Hn Ha Hd.
  intros Hs. unfold DupN. ztest. rewrite len_a.
  rewrite (copy_loop a [] below); [done|lia|by rewrite app_nil_r|change (zlen []) with 0; lia].
Qed.

Lemma SwapN_effect :
  stk s = below ++ a ++ b -> SwapN n s = (Ret tt, set_stk (below ++ b ++ a) s).
Proof using Hn Ha Hb Hd.
  intros Hs. unfold SwapN. ztest. rewrite len_a.
  assert (2 * n < 2 ^ 31) by (rewrite Hs in Hd; autorewrite with zlen in Hd;
    pose proof (zlen_nonneg below); lia).
  rewrite i32_id by lia. apply roll_loop; [unfold depth_ok; lia|done|lia].
Qed.

Lemma OverN_effect :
  stk s = below ++ a ++ b -> OverN n s = (Ret tt, set_stk (below ++ a ++ b ++ a) s).
Proof using Hn Ha Hb Hd.
  intros Hs. unfold OverN. ztest. rewrite len_a.
  assert (2 * n < 2 ^ 31) by (rewrite Hs in Hd; autorewrite with zlen in Hd;
    pose proof (zlen_nonneg below); lia).
  rewrite i32_id by lia. apply copy_loop; [lia|done|lia].
Qed.

Lemma RotN_effect :
  stk s = below ++ a ++ b ++ c -> RotN n s = (Ret tt, set_stk (below ++ b ++ c ++ a) s).
Proof using Hn Ha Hb Hc Hd.
  intros Hs. unfold RotN. ztest. rewrite len_a.
  assert (3 * n < 2 ^ 31) by (rewrite Hs in Hd; autorewrite with zlen in Hd;
    pose proof (zlen_nonneg below); lia).
  rewrite i32_id by lia. rewrite (roll_loop a (b ++ c) below);
    [by rewrite <- app_assoc|unfold depth_ok; lia|done|rewrite zlen_app; lia].
Qed.
End effects.

Lemma PickN_effect s below x above :
  depth_ok s -> stk s = below ++ x :: above ->
  PickN (zlen above) s = (Ret tt, set_stk (stk s ++ [x]) s).
Proof.
  intros Hd Hs. unfold PickN. by erewrite bindM_step by (by apply (Peek_spec s below x above)).
Qed.

Lemma RollN_effect s below x above :
  depth_ok s -> stk s = below ++ x :: above ->
  RollN (zlen above) s = (Ret tt, set_stk (below ++ above ++ [x]) s).
Proof.
  intros Hd Hs. unfold RollN. erewrite bindM_step by (by eapply nipN_spec).
  unfold PushByteArray, modifyM. simpl. by rewrite app_assoc.
Qed.

Lemma Tuck_effect s below x1 x2 :
  depth_ok s -> stk s = below ++ [x1; x2] ->
  Tuck s = (Ret tt, set_stk (below ++ [x2; x1; x2]) s).
Proof.
  intros Hd Hs. unfold Tuck.
  erewrite bindM_step by (apply (Pop_spec s (below ++ [x1]) x2); [done|by rewrite <- app_assoc]).
  erewrite bindM_step by (apply (Pop_spec _ below x1); [|done]; unfold depth_ok in *;
    rewrite Hs in Hd; simpl; clear -Hd; zlia).
  do 2 erewrite bindM_step by reflexivity. unfold PushByteArray, modifyM. simpl.
  by rewrite <- !app_assoc.
Qed.

(** ** The invariant of a stack *)

(** At most [k] items, none longer than a script element may be. *)
Notation MaxScriptElementSize := 520 (only parsing).
Definition elem_ok (b : bytes) : Prop := zlen b <= MaxScriptElementSize.
Definition stack_inv (k : Z) (s : stack) : Prop := zlen (stk s) <= k /\ Forall elem_ok (stk s).

Definition any_err {E S} : E -> S -> Prop := fun _ _ => True.

Lemma stack_inv_weaken k k' s : k <= k' -> stack_inv k s -> stack_inv k' s.
Proof. intros ? [??]. split; [lia|done]. Qed.

Lemma stack_inv_push k s x :
  elem_ok x -> stack_inv k s -> stack_inv (k + 1) (set_stk (stk s ++ [x]) s).
Proof.
  intros Hx [Hk He]. split; simpl.
  - rewrite zlen_app. change (zlen [x]) with 1. lia.
  - apply Forall_app. auto.
Qed.

Section triples.
Variable k : Z.
Hypothesis Hk : k < 2 ^ 31 - 1.

Lemma inv_depth s : stack_inv k s -> depth_ok s.
Proof using Hk. intros [H _]. unfold depth_ok. lia. Qed.

Lemma Push_triple so :
  elem_ok so ->
  triple (stack_inv k) (PushByteArray so) (fun _ => stack_inv (k + 1)) any_err.
Proof. intros Hso s Hs. by apply stack_inv_push. Qed.

Lemma nipN_triple idx :
  triple (stack_inv k) (nipN idx) (fun so s => elem_ok so /\ stack_inv (k - 1) s) any_err.
Proof using Hk.
  intros s Hs. pose proof (inv_depth s Hs) as Hd.
  destruct (decide (0 <= idx < zlen (stk s))) as [Hi|Hi].
  - destruct (stack_split (stk s) idx Hi) as (below & x & above & E & <-).
    rewrite (nipN_spec s below x above) by done. destruct Hs as [Hl He]. rewrite E in Hl, He.
    apply Forall_app in He as [H1 H2]. inversion H2; subst.
    split; [done|]. split; simpl; [clear -Hl; zlia|by apply Forall_app].
  - by rewrite nipN_fail.
Qed.

Lemma Peek_triple idx :
  triple (stack_inv k) (PeekByteArray idx) (fun so s => elem_ok so /\ stack_inv k s) any_err.
Proof using Hk.
  intros s Hs. pose proof (inv_depth s Hs) as Hd.
  destruct (decide (0 <= idx < zlen (stk s))) as [Hi|Hi].
  - destruct (stack_split (stk s) idx Hi) as (below & x & above & E & <-).
    rewrite (Peek_spec s below x above) by done. split; [|done]. destruct Hs as [Hl He]. rewrite E in He.
    apply Forall_app in He as [H1 H2]. by inversion H2; subst.
  - by rewrite Peek_fail.
Qed.
End triples.

(** ** Properties *)

(** A stack item is true exactly when the number it encodes is not zero, so
    that zeros of any length and the negative zeros are false, and the two values
    [PushBool] pushes are read back as they were. *)
Theorem asBool_nonzero (t : bytes) (b : bool) :
  (asBool t = true <-> num_val t <> 0) /\ asBool (fromBool b) = b.
Proof.
  split; [|by destruct b]. rewrite asBool_num. rewrite negb_true_iff. apply Z.eqb_neq.
Qed.

(** The methods that copy and move items do what the diagrams in their
    comments show.  For a stack, written bottom first, whose topmost groups [a],
    [b], [c] have [n] items each: [DropN n] removes the top group, [DupN n]
    copies it, [OverN n] copies the one below, [SwapN n] exchanges two groups and
    [RotN n] rotates three; [PickN] and [RollN] copy and move one item from any
    depth, and [Tuck] copies the top item below the second. *)
Theorem stack_effects (s : stack) (n : Z) (below a b c : list bytes) (x y : bytes) :
  1 <= n -> zlen a = n -> zlen b = n -> zlen c = n -> zlen (stk s) + n < 2 ^ 31 ->
  (stk s = below ++ a -> DropN n s = (Ret tt, set_stk below s)
     /\ DupN n s = (Ret tt, set_stk (below ++ a ++ a) s))
  /\ (stk s = below ++ a ++ b -> SwapN n s = (Ret tt, set_stk (below ++ b ++ a) s)
     /\ OverN n s = (Ret tt, set_stk (below ++ a ++ b ++ a) s))
  /\ (stk s = below ++ a ++ b ++ c -> RotN n s = (Ret tt, set_stk (below ++ b ++ c ++ a) s))
  /\ (stk s = below ++ x :: a -> PickN n s = (Ret tt, set_stk (below ++ x :: a ++ [x]) s)
     /\ RollN n s = (Ret tt, set_stk (below ++ a ++ [x]) s))
  /\ (stk s = below ++ [x; y] -> Tuck s = (Ret tt, set_stk (below ++ [y; x; y]) s)).
Proof.
  intros Hn Ha Hb Hc Hl. assert (depth_ok s) as Hd by (unfold depth_ok; lia). split_and!.
  - intros Hs. split; [by apply (DropN_effect s n below a)|by apply (DupN_effect s n below a)].
  - intros Hs. split; [by apply (SwapN_effect s n below a b)|by apply (OverN_effect s n below a b)].
  - by apply (RotN_effect s n below a b c).
  - intros Hs. rewrite <- Ha. split; [|by apply (RollN_effect s below x a)].
    rewrite (PickN_effect s below x a) by done. by rewrite Hs, <- app_assoc.
  - by apply (Tuck_effect s below x y).
Qed.

Lemma stack_effects_witness :
  RotN 2 (mkStack [[]; [z2b 1]; [z2b 2]; [z2b 3]; [z2b 4]; [z2b 5]] false)
  = (Ret tt, mkStack [[z2b 2]; [z2b 3]; [z2b 4]; [z2b 5]; []; [z2b 1]] false).
Proof.
  destruct (stack_effects (mkStack [[]; [z2b 1]; [z2b 2]; [z2b 3]; [z2b 4]; [z2b 5]] false) 2 []
    [[]; [z2b 1]] [[z2b 2]; [z2b 3]] [[z2b 4]; [z2b 5]] [] []) as (_ & _ & H & _);
    [discriminate|reflexivity..|].
  exact (H eq_refl).
Defined.

(** A stack operation that needs an item the stack does not have fails with
    [ErrInvalidStackOperation] and leaves the stack as it was; in particular no
    negative or too large depth is an index out of range. *)
Theorem stack_underflow (s : stack) (i : Z) :
  zlen (stk s) < 2 ^ 31 -> ~ 0 <= i < zlen (stk s) ->
  let fails {A} (m : SM A) := m s = (Fail ErrInvalidStackOperation, s) in
  fails (PeekByteArray i) /\ fails (PeekInt i) /\ fails (PeekBool i)
  /\ fails (nipN i) /\ fails (NipN i) /\ fails (PickN i) /\ fails (RollN i)
  /\ (stk s = [] -> fails PopByteArray /\ fails PopInt /\ fails PopBool /\ fails Tuck
                    /\ forall n, fails (DropN n)).
Proof.
  intros Hd Hi. pose proof (Peek_fail s i Hd Hi) as Hp. pose proof (nipN_fail s i Hd Hi) as Hnp.
  cbv zeta. unfold PeekInt, PeekBool, NipN, PickN, RollN.
  repeat match goal with |- _ /\ _ => split end; try done; try (unfold bindM; by rewrite ?Hp, ?Hnp).
  intros Hs. pose proof (Pop_empty s Hs) as Hpop. unfold PopInt, PopBool, Tuck.
  repeat match goal with |- _ /\ _ => split end; try done; try (unfold bindM; by rewrite Hpop).
  intros n. unfold DropN. destruct (Z.ltb_spec n 1); [done|].
  apply timesM_fail; [lia|]. unfold bindM. by rewrite Hpop.
Qed.

Lemma stack_underflow_witness :
  PickN (-1) (mkStack [[z2b 1]] true) = (Fail ErrInvalidStackOperation, mkStack [[z2b 1]] true).
Proof.
  destruct (stack_underflow (mkStack [[z2b 1]] true) (-1)) as (_ & _ & _ & _ & _ & H & _);
    [reflexivity|intros [Hc _]; exact (Hc eq_refl)|exact H].
Defined.
