(* ===== verification/Opcodes.v ===== *)
(** The opcode table (src/thoughtd/txscript/opcode.go).

    The constants, the struct [opcode] and the 256 entries of [opcodeArray], in
    the order of the source.  The field [opfunc] is a function value; here it is
    the name of the handler, which the engine maps to its definition. *)

From S2P Require Import Prelude.

(** ** Values *)

Notation OP_0 := 0x00 (only parsing).
Notation OP_FALSE := 0x00 (only parsing).
Notation OP_DATA_1 := 0x01 (only parsing).
Notation OP_DATA_2 := 0x02 (only parsing).
Notation OP_DATA_3 := 0x03 (only parsing).
Notation OP_DATA_4 := 0x04 (only parsing).
Notation OP_DATA_5 := 0x05 (only parsing).
Notation OP_DATA_6 := 0x06 (only parsing).
Notation OP_DATA_7 := 0x07 (only parsing).
Notation OP_DATA_8 := 0x08 (only parsing).
Notation OP_DATA_9 := 0x09 (only parsing).
Notation OP_DATA_10 := 0x0a (only parsing).
Notation OP_DATA_11 := 0x0b (only parsing).
Notation OP_DATA_12 := 0x0c (only parsing).
Notation OP_DATA_13 := 0x0d (only parsing).
Notation OP_DATA_14 := 0x0e (only parsing).
Notation OP_DATA_15 := 0x0f (only parsing).
Notation OP_DATA_16 := 0x10 (only parsing).
Notation OP_DATA_17 := 0x11 (only parsing).
Notation OP_DATA_18 := 0x12 (only parsing).
Notation OP_DATA_19 := 0x13 (only parsing).
Notation OP_DATA_20 := 0x14 (only parsing).
Notation OP_DATA_21 := 0x15 (only parsing).
Notation OP_DATA_22 := 0x16 (only parsing).
Notation OP_DATA_23 := 0x17 (only parsing).
Notation OP_DATA_24 := 0x18 (only parsing).
Notation OP_DATA_25 := 0x19 (only parsing).
Notation OP_DATA_26 := 0x1a (only parsing).
Notation OP_DATA_27 := 0x1b (only parsing).
Notation OP_DATA_28 := 0x1c (only parsing).
Notation OP_DATA_29 := 0x1d (only parsing).
Notation OP_DATA_30 := 0x1e (only parsing).
Notation OP_DATA_31 := 0x1f (only parsing).
Notation OP_DATA_32 := 0x20 (only parsing).
Notation OP_DATA_33 := 0x21 (only parsing).
Notation OP_DATA_34 := 0x22 (only parsing).
Notation OP_DATA_35 := 0x23 (only parsing).
Notation OP_DATA_36 := 0x24 (only parsing).
Notation OP_DATA_37 := 0x25 (only parsing).
Notation OP_DATA_38 := 0x26 (only parsing).
Notation OP_DATA_39 := 0x27 (only parsing).
Notation OP_DATA_40 := 0x28 (only parsing).
Notation OP_DATA_41 := 0x29 (only parsing).
Notation OP_DATA_42 := 0x2a (only parsing).
Notation OP_DATA_43 := 0x2b (only parsing).
Notation OP_DATA_44 := 0x2c (only parsing).
Notation OP_DATA_45 := 0x2d (only parsing).
Notation OP_DATA_46 := 0x2e (only parsing).
Notation OP_DATA_47 := 0x2f (only parsing).
Notation OP_DATA_48 := 0x30 (only parsing).
Notation OP_DATA_49 := 0x31 (only parsing).
Notation OP_DATA_50 := 0x32 (only parsing).
Notation OP_DATA_51 := 0x33 (only parsing).
Notation OP_DATA_52 := 0x34 (only parsing).
Notation OP_DATA_53 := 0x35 (only parsing).
Notation OP_DATA_54 := 0x36 (only parsing).
Notation OP_DATA_55 := 0x37 (only parsing).
Notation OP_DATA_56 := 0x38 (only parsing).
Notation OP_DATA_57 := 0x39 (only parsing).
Notation OP_DATA_58 := 0x3a (only parsing).
Notation OP_DATA_59 := 0x3b (only parsing).
Notation OP_DATA_60 := 0x3c (only parsing).
Notation OP_DATA_61 := 0x3d (only parsing).
Notation OP_DATA_62 := 0x3e (only parsing).
Notation OP_DATA_63 := 0x3f (only parsing).
Notation OP_DATA_64 := 0x40 (only parsing).
Notation OP_DATA_65 := 0x41 (only parsing).
Notation OP_DATA_66 := 0x42 (only parsing).
Notation OP_DATA_67 := 0x43 (only parsing).
Notation OP_DATA_68 := 0x44 (only parsing).
Notation OP_DATA_69 := 0x45 (only parsing).
Notation OP_DATA_70 := 0x46 (only parsing).
Notation OP_DATA_71 := 0x47 (only parsing).
Notation OP_DATA_72 := 0x48 (only parsing).
Notation OP_DATA_73 := 0x49 (only parsing).
Notation OP_DATA_74 := 0x4a (only parsing).
Notation OP_DATA_75 := 0x4b (only parsing).
Notation OP_PUSHDATA1 := 0x4c (only parsing).
Notation OP_PUSHDATA2 := 0x4d (only parsing).
Notation OP_PUSHDATA4 := 0x4e (only parsing).
Notation OP_1NEGATE := 0x4f (only parsing).
Notation OP_RESERVED := 0x50 (only parsing).
Notation OP_1 := 0x51 (only parsing).
Notation OP_TRUE := 0x51 (only parsing).
Notation OP_2 := 0x52 (only parsing).
Notation OP_3 := 0x53 (only parsing).
Notation OP_4 := 0x54 (only parsing).
Notation OP_5 := 0x55 (only parsing).
Notation OP_6 := 0x56 (only parsing).
Notation OP_7 := 0x57 (only parsing).
Notation OP_8 := 0x58 (only parsing).
Notation OP_9 := 0x59 (only parsing).
Notation OP_10 := 0x5a (only parsing).
Notation OP_11 := 0x5b (only parsing).
Notation OP_12 := 0x5c (only parsing).
Notation OP_13 := 0x5d (only parsing).
Notation OP_14 := 0x5e (only parsing).
Notation OP_15 := 0x5f (only parsing).
Notation OP_16 := 0x60 (only parsing).
Notation OP_NOP := 0x61 (only parsing).
Notation OP_VER := 0x62 (only parsing).
Notation OP_IF := 0x63 (only parsing).
Notation OP_NOTIF := 0x64 (only parsing).
Notation OP_VERIF := 0x65 (only parsing).
Notation OP_VERNOTIF := 0x66 (only parsing).
Notation OP_ELSE := 0x67 (only parsing).
Notation OP_ENDIF := 0x68 (only parsing).
Notation OP_VERIFY := 0x69 (only parsing).
Notation OP_RETURN := 0x6a (only parsing).
Notation OP_TOALTSTACK := 0x6b (only parsing).
Notation OP_FROMALTSTACK := 0x6c (only parsing).
Notation OP_2DROP := 0x6d (only parsing).
Notation OP_2DUP := 0x6e (only parsing).
Notation OP_3DUP := 0x6f (only parsing).
Notation OP_2OVER := 0x70 (only parsing).
Notation OP_2ROT := 0x71 (only parsing).
Notation OP_2SWAP := 0x72 (only parsing).
Notation OP_IFDUP := 0x73 (only parsing).
Notation OP_DEPTH := 0x74 (only parsing).
Notation OP_DROP := 0x75 (only parsing).
Notation OP_DUP := 0x76 (only parsing).
Notation OP_NIP := 0x77 (only parsing).
Notation OP_OVER := 0x78 (only parsing).
Notation OP_PICK := 0x79 (only parsing).
Notation OP_ROLL := 0x7a (only parsing).
Notation OP_ROT := 0x7b (only parsing).
Notation OP_SWAP := 0x7c (only parsing).
Notation OP_TUCK := 0x7d (only parsing).
Notation OP_CAT := 0x7e (only parsing).
Notation OP_SUBSTR := 0x7f (only parsing).
Notation OP_LEFT := 0x80 (only parsing).
Notation OP_RIGHT := 0x81 (only parsing).
Notation OP_SIZE := 0x82 (only parsing).
Notation OP_INVERT := 0x83 (only parsing).
Notation OP_AND := 0x84 (only parsing).
Notation OP_OR := 0x85 (only parsing).
Notation OP_XOR := 0x86 (only parsing).
Notation OP_EQUAL := 0x87 (only parsing).
Notation OP_EQUALVERIFY := 0x88 (only parsing).
Notation OP_RESERVED1 := 0x89 (only parsing).
Notation OP_RESERVED2 := 0x8a (only parsing).
Notation OP_1ADD := 0x8b (only parsing).
Notation OP_1SUB := 0x8c (only parsing).
Notation OP_2MUL := 0x8d (only parsing).
Notation OP_2DIV := 0x8e (only parsing).
Notation OP_NEGATE := 0x8f (only parsing).
Notation OP_ABS := 0x90 (only parsing).
Notation OP_NOT := 0x91 (only parsing).
Notation OP_0NOTEQUAL := 0x92 (only parsing).
Notation OP_ADD := 0x93 (only parsing).
Notation OP_SUB := 0x94 (only parsing).
Notation OP_MUL := 0x95 (only parsing).
Notation OP_DIV := 0x96 (only parsing).
Notation OP_MOD := 0x97 (only parsing).
Notation OP_LSHIFT := 0x98 (only parsing).
Notation OP_RSHIFT := 0x99 (only parsing).
Notation OP_BOOLAND := 0x9a (only parsing).
Notation OP_BOOLOR := 0x9b (only parsing).
Notation OP_NUMEQUAL := 0x9c (only parsing).
Notation OP_NUMEQUALVERIFY := 0x9d (only parsing).
Notation OP_NUMNOTEQUAL := 0x9e (only parsing).
Notation OP_LESSTHAN := 0x9f (only parsing).
Notation OP_GREATERTHAN := 0xa0 (only parsing).
Notation OP_LESSTHANOREQUAL := 0xa1 (only parsing).
Notation OP_GREATERTHANOREQUAL := 0xa2 (only parsing).
Notation OP_MIN := 0xa3 (only parsing).
Notation OP_MAX := 0xa4 (only parsing).
Notation OP_WITHIN := 0xa5 (only parsing).
Notation OP_RIPEMD160 := 0xa6 (only parsing).
Notation OP_SHA1 := 0xa7 (only parsing).
Notation OP_SHA256 := 0xa8 (only parsing).
Notation OP_HASH160 := 0xa9 (only parsing).
Notation OP_HASH256 := 0xaa (only parsing).
Notation OP_CODESEPARATOR := 0xab (only parsing).
Notation OP_CHECKSIG := 0xac (only parsing).
Notation OP_CHECKSIGVERIFY := 0xad (only parsing).
Notation OP_CHECKMULTISIG := 0xae (only parsing).
Notation OP_CHECKMULTISIGVERIFY := 0xaf (only parsing).
Notation OP_NOP1 := 0xb0 (only parsing).
Notation OP_NOP2 := 0xb1 (only parsing).
Notation OP_CHECKLOCKTIMEVERIFY := 0xb1 (only parsing).
Notation OP_NOP3 := 0xb2 (only parsing).
Notation OP_CHECKSEQUENCEVERIFY := 0xb2 (only parsing).
Notation OP_NOP4 := 0xb3 (only parsing).
Notation OP_NOP5 := 0xb4 (only parsing).
Notation OP_NOP6 := 0xb5 (only parsing).
Notation OP_NOP7 := 0xb6 (only parsing).
Notation OP_NOP8 := 0xb7 (only parsing).
Notation OP_NOP9 := 0xb8 (only parsing).
Notation OP_NOP10 := 0xb9 (only parsing).
Notation OP_CHECKSIGADD := 0xba (only parsing).
Notation OP_UNKNOWN187 := 0xbb (only parsing).
Notation OP_UNKNOWN188 := 0xbc (only parsing).
Notation OP_UNKNOWN189 := 0xbd (only parsing).
Notation OP_UNKNOWN190 := 0xbe (only parsing).
Notation OP_UNKNOWN191 := 0xbf (only parsing).
Notation OP_UNKNOWN192 := 0xc0 (only parsing).
Notation OP_UNKNOWN193 := 0xc1 (only parsing).
Notation OP_UNKNOWN194 := 0xc2 (only parsing).
Notation OP_UNKNOWN195 := 0xc3 (only parsing).
Notation OP_UNKNOWN196 := 0xc4 (only parsing).
Notation OP_UNKNOWN197 := 0xc5 (only parsing).
Notation OP_UNKNOWN198 := 0xc6 (only parsing).
Notation OP_UNKNOWN199 := 0xc7 (only parsing).
Notation OP_UNKNOWN200 := 0xc8 (only parsing).
Notation OP_UNKNOWN201 := 0xc9 (only parsing).
Notation OP_UNKNOWN202 := 0xca (only parsing).
Notation OP_UNKNOWN203 := 0xcb (only parsing).
Notation OP_UNKNOWN204 := 0xcc (only parsing).
Notation OP_UNKNOWN205 := 0xcd (only parsing).
Notation OP_UNKNOWN206 := 0xce (only parsing).
Notation OP_UNKNOWN207 := 0xcf (only parsing).
Notation OP_UNKNOWN208 := 0xd0 (only parsing).
Notation OP_UNKNOWN209 := 0xd1 (only parsing).
Notation OP_UNKNOWN210 := 0xd2 (only parsing).
Notation OP_UNKNOWN211 := 0xd3 (only parsing).
Notation OP_UNKNOWN212 := 0xd4 (only parsing).
Notation OP_UNKNOWN213 := 0xd5 (only parsing).
Notation OP_UNKNOWN214 := 0xd6 (only parsing).
Notation OP_UNKNOWN215 := 0xd7 (only parsing).
Notation OP_UNKNOWN216 := 0xd8 (only parsing).
Notation OP_UNKNOWN217 := 0xd9 (only parsing).
Notation OP_UNKNOWN218 := 0xda (only parsing).
Notation OP_UNKNOWN219 := 0xdb (only parsing).
Notation OP_UNKNOWN220 := 0xdc (only parsing).
Notation OP_UNKNOWN221 := 0xdd (only parsing).
Notation OP_UNKNOWN222 := 0xde (only parsing).
Notation OP_UNKNOWN223 := 0xdf (only parsing).
Notation OP_UNKNOWN224 := 0xe0 (only parsing).
Notation OP_UNKNOWN225 := 0xe1 (only parsing).
Notation OP_UNKNOWN226 := 0xe2 (only parsing).
Notation OP_UNKNOWN227 := 0xe3 (only parsing).
Notation OP_UNKNOWN228 := 0xe4 (only parsing).
Notation OP_UNKNOWN229 := 0xe5 (only parsing).
Notation OP_UNKNOWN230 := 0xe6 (only parsing).
Notation OP_UNKNOWN231 := 0xe7 (only parsing).
Notation OP_UNKNOWN232 := 0xe8 (only parsing).
Notation OP_UNKNOWN233 := 0xe9 (only parsing).
Notation OP_UNKNOWN234 := 0xea (only parsing).
Notation OP_UNKNOWN235 := 0xeb (only parsing).
Notation OP_UNKNOWN236 := 0xec (only parsing).
Notation OP_UNKNOWN237 := 0xed (only parsing).
Notation OP_UNKNOWN238 := 0xee (only parsing).
Notation OP_UNKNOWN239 := 0xef (only parsing).
Notation OP_UNKNOWN240 := 0xf0 (only parsing).
Notation OP_UNKNOWN241 := 0xf1 (only parsing).
Notation OP_UNKNOWN242 := 0xf2 (only parsing).
Notation OP_UNKNOWN243 := 0xf3 (only parsing).
Notation OP_UNKNOWN244 := 0xf4 (only parsing).
Notation OP_UNKNOWN245 := 0xf5 (only parsing).
Notation OP_UNKNOWN246 := 0xf6 (only parsing).
Notation OP_UNKNOWN247 := 0xf7 (only parsing).
Notation OP_UNKNOWN248 := 0xf8 (only parsing).
Notation OP_UNKNOWN249 := 0xf9 (only parsing).
Notation OP_SMALLINTEGER := 0xfa (only parsing).
Notation OP_PUBKEYS := 0xfb (only parsing).
Notation OP_UNKNOWN252 := 0xfc (only parsing).
Notation OP_PUBKEYHASH := 0xfd (only parsing).
Notation OP_PUBKEY := 0xfe (only parsing).
Notation OP_INVALIDOPCODE := 0xff (only parsing).

(** ** Handlers *)

Inductive opfunc :=
  | f_False | f_PushData | f_1Negate | f_Reserved | f_N | f_Nop | f_If | f_NotIf
  | f_Else | f_Endif | f_Verify | f_Return | f_ToAltStack | f_FromAltStack | f_2Drop
  | f_2Dup | f_3Dup | f_2Over | f_2Rot | f_2Swap | f_IfDup | f_Depth | f_Drop | f_Dup
  | f_Nip | f_Over | f_Pick | f_Roll | f_Rot | f_Swap | f_Tuck | f_Disabled | f_Size
  | f_Equal | f_EqualVerify | f_1Add | f_1Sub | f_Negate | f_Abs | f_Not | f_0NotEqual
  | f_Add | f_Sub | f_BoolAnd | f_BoolOr | f_NumEqual | f_NumEqualVerify | f_NumNotEqual
  | f_LessThan | f_GreaterThan | f_LessThanOrEqual | f_GreaterThanOrEqual | f_Min
  | f_Max | f_Within | f_Ripemd160 | f_Sha1 | f_Sha256 | f_Hash160 | f_Hash256
  | f_CodeSeparator | f_CheckSig | f_CheckSigVerify | f_CheckMultiSig
  | f_CheckMultiSigVerify | f_CheckLockTimeVerify | f_CheckSequenceVerify | f_Invalid.

#[export] Instance opfunc_eq_dec : EqDecision opfunc.
Proof. solve_decision. Defined.

Record opcode := mkOpcode { value : Z; name : string; op_length : Z; op_func : opfunc }.

Definition opcodeArray : list opcode := [
  mkOpcode OP_FALSE "OP_0" 1 f_False;
  mkOpcode OP_DATA_1 "OP_DATA_1" 2 f_PushData;
  mkOpcode OP_DATA_2 "OP_DATA_2" 3 f_PushData;
  mkOpcode OP_DATA_3 "OP_DATA_3" 4 f_PushData;
  mkOpcode OP_DATA_4 "OP_DATA_4" 5 f_PushData;
  mkOpcode OP_DATA_5 "OP_DATA_5" 6 f_PushData;
  mkOpcode OP_DATA_6 "OP_DATA_6" 7 f_PushData;
  mkOpcode OP_DATA_7 "OP_DATA_7" 8 f_PushData;
  mkOpcode OP_DATA_8 "OP_DATA_8" 9 f_PushData;
  mkOpcode OP_DATA_9 "OP_DATA_9" 10 f_PushData;
  mkOpcode OP_DATA_10 "OP_DATA_10" 11 f_PushData;
  mkOpcode OP_DATA_11 "OP_DATA_11" 12 f_PushData;
  mkOpcode OP_DATA_12 "OP_DATA_12" 13 f_PushData;
  mkOpcode OP_DATA_13 "OP_DATA_13" 14 f_PushData;
  mkOpcode OP_DATA_14 "OP_DATA_14" 15 f_PushData;
  mkOpcode OP_DATA_15 "OP_DATA_15" 16 f_PushData;
  mkOpcode OP_DATA_16 "OP_DATA_16" 17 f_PushData;
  mkOpcode OP_DATA_17 "OP_DATA_17" 18 f_PushData;
  mkOpcode OP_DATA_18 "OP_DATA_18" 19 f_PushData;
  mkOpcode OP_DATA_19 "OP_DATA_19" 20 f_PushData;
  mkOpcode OP_DATA_20 "OP_DATA_20" 21 f_PushData;
  mkOpcode OP_DATA_21 "OP_DATA_21" 22 f_PushData;
  mkOpcode OP_DATA_22 "OP_DATA_22" 23 f_PushData;
  mkOpcode OP_DATA_23 "OP_DATA_23" 24 f_PushData;
  mkOpcode OP_DATA_24 "OP_DATA_24" 25 f_PushData;
  mkOpcode OP_DATA_25 "OP_DATA_25" 26 f_PushData;
  mkOpcode OP_DATA_26 "OP_DATA_26" 27 f_PushData;
  mkOpcode OP_DATA_27 "OP_DATA_27" 28 f_PushData;
  mkOpcode OP_DATA_28 "OP_DATA_28" 29 f_PushData;
  mkOpcode OP_DATA_29 "OP_DATA_29" 30 f_PushData;
  mkOpcode OP_DATA_30 "OP_DATA_30" 31 f_PushData;
  mkOpcode OP_DATA_31 "OP_DATA_31" 32 f_PushData;
  mkOpcode OP_DATA_32 "OP_DATA_32" 33 f_PushData;
  mkOpcode OP_DATA_33 "OP_DATA_33" 34 f_PushData;
  mkOpcode OP_DATA_34 "OP_DATA_34" 35 f_PushData;
  mkOpcode OP_DATA_35 "OP_DATA_35" 36 f_PushData;
  mkOpcode OP_DATA_36 "OP_DATA_36" 37 f_PushData;
  mkOpcode OP_DATA_37 "OP_DATA_37" 38 f_PushData;
  mkOpcode OP_DATA_38 "OP_DATA_38" 39 f_PushData;
  mkOpcode OP_DATA_39 "OP_DATA_39" 40 f_PushData;
  mkOpcode OP_DATA_40 "OP_DATA_40" 41 f_PushData;
  mkOpcode OP_DATA_41 "OP_DATA_41" 42 f_PushData;
  mkOpcode OP_DATA_42 "OP_DATA_42" 43 f_PushData;
  mkOpcode OP_DATA_43 "OP_DATA_43" 44 f_PushData;
  mkOpcode OP_DATA_44 "OP_DATA_44" 45 f_PushData;
  mkOpcode OP_DATA_45 "OP_DATA_45" 46 f_PushData;
  mkOpcode OP_DATA_46 "OP_DATA_46" 47 f_PushData;
  mkOpcode OP_DATA_47 "OP_DATA_47" 48 f_PushData;
  mkOpcode OP_DATA_48 "OP_DATA_48" 49 f_PushData;
  mkOpcode OP_DATA_49 "OP_DATA_49" 50 f_PushData;
  mkOpcode OP_DATA_50 "OP_DATA_50" 51 f_PushData;
  mkOpcode OP_DATA_51 "OP_DATA_51" 52 f_PushData;
  mkOpcode OP_DATA_52 "OP_DATA_52" 53 f_PushData;
  mkOpcode OP_DATA_53 "OP_DATA_53" 54 f_PushData;
  mkOpcode OP_DATA_54 "OP_DATA_54" 55 f_PushData;
  mkOpcode OP_DATA_55 "OP_DATA_55" 56 f_PushData;
  mkOpcode OP_DATA_56 "OP_DATA_56" 57 f_PushData;
  mkOpcode OP_DATA_57 "OP_DATA_57" 58 f_PushData;
  mkOpcode OP_DATA_58 "OP_DATA_58" 59 f_PushData;
  mkOpcode OP_DATA_59 "OP_DATA_59" 60 f_PushData;
  mkOpcode OP_DATA_60 "OP_DATA_60" 61 f_PushData;
  mkOpcode OP_DATA_61 "OP_DATA_61" 62 f_PushData;
  mkOpcode OP_DATA_62 "OP_DATA_62" 63 f_PushData;
  mkOpcode OP_DATA_63 "OP_DATA_63" 64 f_PushData;
  mkOpcode OP_DATA_64 "OP_DATA_64" 65 f_PushData;
  mkOpcode OP_DATA_65 "OP_DATA_65" 66 f_PushData;
  mkOpcode OP_DATA_66 "OP_DATA_66" 67 f_PushData;
  mkOpcode OP_DATA_67 "OP_DATA_67" 68 f_PushData;
  mkOpcode OP_DATA_68 "OP_DATA_68" 69 f_PushData;
  mkOpcode OP_DATA_69 "OP_DATA_69" 70 f_PushData;
  mkOpcode OP_DATA_70 "OP_DATA_70" 71 f_PushData;
  mkOpcode OP_DATA_71 "OP_DATA_71" 72 f_PushData;
  mkOpcode OP_DATA_72 "OP_DATA_72" 73 f_PushData;
  mkOpcode OP_DATA_73 "OP_DATA_73" 74 f_PushData;
  mkOpcode OP_DATA_74 "OP_DATA_74" 75 f_PushData;
  mkOpcode OP_DATA_75 "OP_DATA_75" 76 f_PushData;
  mkOpcode OP_PUSHDATA1 "OP_PUSHDATA1" (-1) f_PushData;
  mkOpcode OP_PUSHDATA2 "OP_PUSHDATA2" (-2) f_PushData;
  mkOpcode OP_PUSHDATA4 "OP_PUSHDATA4" (-4) f_PushData;
  mkOpcode OP_1NEGATE "OP_1NEGATE" 1 f_1Negate;
  mkOpcode OP_RESERVED "OP_RESERVED" 1 f_Reserved;
  mkOpcode OP_TRUE "OP_1" 1 f_N;
  mkOpcode OP_2 "OP_2" 1 f_N;
  mkOpcode OP_3 "OP_3" 1 f_N;
  mkOpcode OP_4 "OP_4" 1 f_N;
  mkOpcode OP_5 "OP_5" 1 f_N;
  mkOpcode OP_6 "OP_6" 1 f_N;
  mkOpcode OP_7 "OP_7" 1 f_N;
  mkOpcode OP_8 "OP_8" 1 f_N;
  mkOpcode OP_9 "OP_9" 1 f_N;
  mkOpcode OP_10 "OP_10" 1 f_N;
  mkOpcode OP_11 "OP_11" 1 f_N;
  mkOpcode OP_12 "OP_12" 1 f_N;
  mkOpcode OP_13 "OP_13" 1 f_N;
  mkOpcode OP_14 "OP_14" 1 f_N;
  mkOpcode OP_15 "OP_15" 1 f_N;
  mkOpcode OP_16 "OP_16" 1 f_N;
  mkOpcode OP_NOP "OP_NOP" 1 f_Nop;
  mkOpcode OP_VER "OP_VER" 1 f_Reserved;
  mkOpcode OP_IF "OP_IF" 1 f_If;
  mkOpcode OP_NOTIF "OP_NOTIF" 1 f_NotIf;
  mkOpcode OP_VERIF "OP_VERIF" 1 f_Reserved;
  mkOpcode OP_VERNOTIF "OP_VERNOTIF" 1 f_Reserved;
  mkOpcode OP_ELSE "OP_ELSE" 1 f_Else;
  mkOpcode OP_ENDIF "OP_ENDIF" 1 f_Endif;
  mkOpcode OP_VERIFY "OP_VERIFY" 1 f_Verify;
  mkOpcode OP_RETURN "OP_RETURN" 1 f_Return;
  mkOpcode OP_TOALTSTACK "OP_TOALTSTACK" 1 f_ToAltStack;
  mkOpcode OP_FROMALTSTACK "OP_FROMALTSTACK" 1 f_FromAltStack;
  mkOpcode OP_2DROP "OP_2DROP" 1 f_2Drop;
  mkOpcode OP_2DUP "OP_2DUP" 1 f_2Dup;
  mkOpcode OP_3DUP "OP_3DUP" 1 f_3Dup;
  mkOpcode OP_2OVER "OP_2OVER" 1 f_2Over;
  mkOpcode OP_2ROT "OP_2ROT" 1 f_2Rot;
  mkOpcode OP_2SWAP "OP_2SWAP" 1 f_2Swap;
  mkOpcode OP_IFDUP "OP_IFDUP" 1 f_IfDup;
  mkOpcode OP_DEPTH "OP_DEPTH" 1 f_Depth;
  mkOpcode OP_DROP "OP_DROP" 1 f_Drop;
  mkOpcode OP_DUP "OP_DUP" 1 f_Dup;
  mkOpcode OP_NIP "OP_NIP" 1 f_Nip;
  mkOpcode OP_OVER "OP_OVER" 1 f_Over;
  mkOpcode OP_PICK "OP_PICK" 1 f_Pick;
  mkOpcode OP_ROLL "OP_ROLL" 1 f_Roll;
  mkOpcode OP_ROT "OP_ROT" 1 f_Rot;
  mkOpcode OP_SWAP "OP_SWAP" 1 f_Swap;
  mkOpcode OP_TUCK "OP_TUCK" 1 f_Tuck;
  mkOpcode OP_CAT "OP_CAT" 1 f_Disabled;
  mkOpcode OP_SUBSTR "OP_SUBSTR" 1 f_Disabled;
  mkOpcode OP_LEFT "OP_LEFT" 1 f_Disabled;
  mkOpcode OP_RIGHT "OP_RIGHT" 1 f_Disabled;
  mkOpcode OP_SIZE "OP_SIZE" 1 f_Size;
  mkOpcode OP_INVERT "OP_INVERT" 1 f_Disabled;
  mkOpcode OP_AND "OP_AND" 1 f_Disabled;
  mkOpcode OP_OR "OP_OR" 1 f_Disabled;
  mkOpcode OP_XOR "OP_XOR" 1 f_Disabled;
  mkOpcode OP_EQUAL "OP_EQUAL" 1 f_Equal;
  mkOpcode OP_EQUALVERIFY "OP_EQUALVERIFY" 1 f_EqualVerify;
  mkOpcode OP_RESERVED1 "OP_RESERVED1" 1 f_Reserved;
  mkOpcode OP_RESERVED2 "OP_RESERVED2" 1 f_Reserved;
  mkOpcode OP_1ADD "OP_1ADD" 1 f_1Add;
  mkOpcode OP_1SUB "OP_1SUB" 1 f_1Sub;
  mkOpcode OP_2MUL "OP_2MUL" 1 f_Disabled;
  mkOpcode OP_2DIV "OP_2DIV" 1 f_Disabled;
  mkOpcode OP_NEGATE "OP_NEGATE" 1 f_Negate;
  mkOpcode OP_ABS "OP_ABS" 1 f_Abs;
  mkOpcode OP_NOT "OP_NOT" 1 f_Not;
  mkOpcode OP_0NOTEQUAL "OP_0NOTEQUAL" 1 f_0NotEqual;
  mkOpcode OP_ADD "OP_ADD" 1 f_Add;
  mkOpcode OP_SUB "OP_SUB" 1 f_Sub;
  mkOpcode OP_MUL "OP_MUL" 1 f_Disabled;
  mkOpcode OP_DIV "OP_DIV" 1 f_Disabled;
  mkOpcode OP_MOD "OP_MOD" 1 f_Disabled;
  mkOpcode OP_LSHIFT "OP_LSHIFT" 1 f_Disabled;
  mkOpcode OP_RSHIFT "OP_RSHIFT" 1 f_Disabled;
  mkOpcode OP_BOOLAND "OP_BOOLAND" 1 f_BoolAnd;
  mkOpcode OP_BOOLOR "OP_BOOLOR" 1 f_BoolOr;
  mkOpcode OP_NUMEQUAL "OP_NUMEQUAL" 1 f_NumEqual;
  mkOpcode OP_NUMEQUALVERIFY "OP_NUMEQUALVERIFY" 1 f_NumEqualVerify;
  mkOpcode OP_NUMNOTEQUAL "OP_NUMNOTEQUAL" 1 f_NumNotEqual;
  mkOpcode OP_LESSTHAN "OP_LESSTHAN" 1 f_LessThan;
  mkOpcode OP_GREATERTHAN "OP_GREATERTHAN" 1 f_GreaterThan;
  mkOpcode OP_LESSTHANOREQUAL "OP_LESSTHANOREQUAL" 1 f_LessThanOrEqual;
  mkOpcode OP_GREATERTHANOREQUAL "OP_GREATERTHANOREQUAL" 1 f_GreaterThanOrEqual;
  mkOpcode OP_MIN "OP_MIN" 1 f_Min;
  mkOpcode OP_MAX "OP_MAX" 1 f_Max;
  mkOpcode OP_WITHIN "OP_WITHIN" 1 f_Within;
  mkOpcode OP_RIPEMD160 "OP_RIPEMD160" 1 f_Ripemd160;
  mkOpcode OP_SHA1 "OP_SHA1" 1 f_Sha1;
  mkOpcode OP_SHA256 "OP_SHA256" 1 f_Sha256;
  mkOpcode OP_HASH160 "OP_HASH160" 1 f_Hash160;
  mkOpcode OP_HASH256 "OP_HASH256" 1 f_Hash256;
  mkOpcode OP_CODESEPARATOR "OP_CODESEPARATOR" 1 f_CodeSeparator;
  mkOpcode OP_CHECKSIG "OP_CHECKSIG" 1 f_CheckSig;
  mkOpcode OP_CHECKSIGVERIFY "OP_CHECKSIGVERIFY" 1 f_CheckSigVerify;
  mkOpcode OP_CHECKMULTISIG "OP_CHECKMULTISIG" 1 f_CheckMultiSig;
  mkOpcode OP_CHECKMULTISIGVERIFY "OP_CHECKMULTISIGVERIFY" 1 f_CheckMultiSigVerify;
  mkOpcode OP_NOP1 "OP_NOP1" 1 f_Nop;
  mkOpcode OP_CHECKLOCKTIMEVERIFY "OP_CHECKLOCKTIMEVERIFY" 1 f_CheckLockTimeVerify;
  mkOpcode OP_CHECKSEQUENCEVERIFY "OP_CHECKSEQUENCEVERIFY" 1 f_CheckSequenceVerify;
  mkOpcode OP_NOP4 "OP_NOP4" 1 f_Nop;
  mkOpcode OP_NOP5 "OP_NOP5" 1 f_Nop;
  mkOpcode OP_NOP6 "OP_NOP6" 1 f_Nop;
  mkOpcode OP_NOP7 "OP_NOP7" 1 f_Nop;
  mkOpcode OP_NOP8 "OP_NOP8" 1 f_Nop;
  mkOpcode OP_NOP9 "OP_NOP9" 1 f_Nop;
  mkOpcode OP_NOP10 "OP_NOP10" 1 f_Nop;
  mkOpcode OP_CHECKSIGADD "OP_CHECKSIGADD" 1 f_Invalid;
  mkOpcode OP_UNKNOWN187 "OP_UNKNOWN187" 1 f_Invalid;
  mkOpcode OP_UNKNOWN188 "OP_UNKNOWN188" 1 f_Invalid;
  mkOpcode OP_UNKNOWN189 "OP_UNKNOWN189" 1 f_Invalid;
  mkOpcode OP_UNKNOWN190 "OP_UNKNOWN190" 1 f_Invalid;
  mkOpcode OP_UNKNOWN191 "OP_UNKNOWN191" 1 f_Invalid;
  mkOpcode OP_UNKNOWN192 "OP_UNKNOWN192" 1 f_Invalid;
  mkOpcode OP_UNKNOWN193 "OP_UNKNOWN193" 1 f_Invalid;
  mkOpcode OP_UNKNOWN194 "OP_UNKNOWN194" 1 f_Invalid;
  mkOpcode OP_UNKNOWN195 "OP_UNKNOWN195" 1 f_Invalid;
  mkOpcode OP_UNKNOWN196 "OP_UNKNOWN196" 1 f_Invalid;
  mkOpcode OP_UNKNOWN197 "OP_UNKNOWN197" 1 f_Invalid;
  mkOpcode OP_UNKNOWN198 "OP_UNKNOWN198" 1 f_Invalid;
  mkOpcode OP_UNKNOWN199 "OP_UNKNOWN199" 1 f_Invalid;
  mkOpcode OP_UNKNOWN200 "OP_UNKNOWN200" 1 f_Invalid;
  mkOpcode OP_UNKNOWN201 "OP_UNKNOWN201" 1 f_Invalid;
  mkOpcode OP_UNKNOWN202 "OP_UNKNOWN202" 1 f_Invalid;
  mkOpcode OP_UNKNOWN203 "OP_UNKNOWN203" 1 f_Invalid;
  mkOpcode OP_UNKNOWN204 "OP_UNKNOWN204" 1 f_Invalid;
  mkOpcode OP_UNKNOWN205 "OP_UNKNOWN205" 1 f_Invalid;
  mkOpcode OP_UNKNOWN206 "OP_UNKNOWN206" 1 f_Invalid;
  mkOpcode OP_UNKNOWN207 "OP_UNKNOWN207" 1 f_Invalid;
  mkOpcode OP_UNKNOWN208 "OP_UNKNOWN208" 1 f_Invalid;
  mkOpcode OP_UNKNOWN209 "OP_UNKNOWN209" 1 f_Invalid;
  mkOpcode OP_UNKNOWN210 "OP_UNKNOWN210" 1 f_Invalid;
  mkOpcode OP_UNKNOWN211 "OP_UNKNOWN211" 1 f_Invalid;
  mkOpcode OP_UNKNOWN212 "OP_UNKNOWN212" 1 f_Invalid;
  mkOpcode OP_UNKNOWN213 "OP_UNKNOWN213" 1 f_Invalid;
  mkOpcode OP_UNKNOWN214 "OP_UNKNOWN214" 1 f_Invalid;
  mkOpcode OP_UNKNOWN215 "OP_UNKNOWN215" 1 f_Invalid;
  mkOpcode OP_UNKNOWN216 "OP_UNKNOWN216" 1 f_Invalid;
  mkOpcode OP_UNKNOWN217 "OP_UNKNOWN217" 1 f_Invalid;
  mkOpcode OP_UNKNOWN218 "OP_UNKNOWN218" 1 f_Invalid;
  mkOpcode OP_UNKNOWN219 "OP_UNKNOWN219" 1 f_Invalid;
  mkOpcode OP_UNKNOWN220 "OP_UNKNOWN220" 1 f_Invalid;
  mkOpcode OP_UNKNOWN221 "OP_UNKNOWN221" 1 f_Invalid;
  mkOpcode OP_UNKNOWN222 "OP_UNKNOWN222" 1 f_Invalid;
  mkOpcode OP_UNKNOWN223 "OP_UNKNOWN223" 1 f_Invalid;
  mkOpcode OP_UNKNOWN224 "OP_UNKNOWN224" 1 f_Invalid;
  mkOpcode OP_UNKNOWN225 "OP_UNKNOWN225" 1 f_Invalid;
  mkOpcode OP_UNKNOWN226 "OP_UNKNOWN226" 1 f_Invalid;
  mkOpcode OP_UNKNOWN227 "OP_UNKNOWN227" 1 f_Invalid;
  mkOpcode OP_UNKNOWN228 "OP_UNKNOWN228" 1 f_Invalid;
  mkOpcode OP_UNKNOWN229 "OP_UNKNOWN229" 1 f_Invalid;
  mkOpcode OP_UNKNOWN230 "OP_UNKNOWN230" 1 f_Invalid;
  mkOpcode OP_UNKNOWN231 "OP_UNKNOWN231" 1 f_Invalid;
  mkOpcode OP_UNKNOWN232 "OP_UNKNOWN232" 1 f_Invalid;
  mkOpcode OP_UNKNOWN233 "OP_UNKNOWN233" 1 f_Invalid;
  mkOpcode OP_UNKNOWN234 "OP_UNKNOWN234" 1 f_Invalid;
  mkOpcode OP_UNKNOWN235 "OP_UNKNOWN235" 1 f_Invalid;
  mkOpcode OP_UNKNOWN236 "OP_UNKNOWN236" 1 f_Invalid;
  mkOpcode OP_UNKNOWN237 "OP_UNKNOWN237" 1 f_Invalid;
  mkOpcode OP_UNKNOWN238 "OP_UNKNOWN238" 1 f_Invalid;
  mkOpcode OP_UNKNOWN239 "OP_UNKNOWN239" 1 f_Invalid;
  mkOpcode OP_UNKNOWN240 "OP_UNKNOWN240" 1 f_Invalid;
  mkOpcode OP_UNKNOWN241 "OP_UNKNOWN241" 1 f_Invalid;
  mkOpcode OP_UNKNOWN242 "OP_UNKNOWN242" 1 f_Invalid;
  mkOpcode OP_UNKNOWN243 "OP_UNKNOWN243" 1 f_Invalid;
  mkOpcode OP_UNKNOWN244 "OP_UNKNOWN244" 1 f_Invalid;
  mkOpcode OP_UNKNOWN245 "OP_UNKNOWN245" 1 f_Invalid;
  mkOpcode OP_UNKNOWN246 "OP_UNKNOWN246" 1 f_Invalid;
  mkOpcode OP_UNKNOWN247 "OP_UNKNOWN247" 1 f_Invalid;
  mkOpcode OP_UNKNOWN248 "OP_UNKNOWN248" 1 f_Invalid;
  mkOpcode OP_UNKNOWN249 "OP_UNKNOWN249" 1 f_Invalid;
  mkOpcode OP_SMALLINTEGER "OP_SMALLINTEGER" 1 f_Invalid;
  mkOpcode OP_PUBKEYS "OP_PUBKEYS" 1 f_Invalid;
  mkOpcode OP_UNKNOWN252 "OP_UNKNOWN252" 1 f_Invalid;
  mkOpcode OP_PUBKEYHASH "OP_PUBKEYHASH" 1 f_Invalid;
  mkOpcode OP_PUBKEY "OP_PUBKEY" 1 f_Invalid;
  mkOpcode OP_INVALIDOPCODE "OP_INVALIDOPCODE" 1 f_Invalid].

(** [&opcodeArrayRef[b]] for a byte: the array has 256 entries. *)
Definition opcode_at (b : byte) : opcode :=
  nth (Z.to_nat (b2z b)) opcodeArray (mkOpcode OP_INVALIDOPCODE "OP_INVALIDOPCODE" 1 f_Invalid).

(** The keys of [successOpcodes]. *)
Definition successOpcodes : list Z := [
  OP_RESERVED; OP_VER; OP_CAT; OP_SUBSTR; OP_LEFT; OP_RIGHT; OP_INVERT; OP_AND; OP_OR;
  OP_XOR; OP_RESERVED1; OP_RESERVED2; OP_2MUL; OP_2DIV; OP_MUL; OP_DIV; OP_MOD; OP_LSHIFT;
  OP_RSHIFT; OP_UNKNOWN187; OP_UNKNOWN188; OP_UNKNOWN189; OP_UNKNOWN190; OP_UNKNOWN191;
  OP_UNKNOWN192; OP_UNKNOWN193; OP_UNKNOWN194; OP_UNKNOWN195; OP_UNKNOWN196; OP_UNKNOWN197;
  OP_UNKNOWN198; OP_UNKNOWN199; OP_UNKNOWN200; OP_UNKNOWN201; OP_UNKNOWN202; OP_UNKNOWN203;
  OP_UNKNOWN204; OP_UNKNOWN205; OP_UNKNOWN206; OP_UNKNOWN207; OP_UNKNOWN208; OP_UNKNOWN209;
  OP_UNKNOWN210; OP_UNKNOWN211; OP_UNKNOWN212; OP_UNKNOWN213; OP_UNKNOWN214; OP_UNKNOWN215;
  OP_UNKNOWN216; OP_UNKNOWN217; OP_UNKNOWN218; OP_UNKNOWN219; OP_UNKNOWN220; OP_UNKNOWN221;
  OP_UNKNOWN222; OP_UNKNOWN223; OP_UNKNOWN224; OP_UNKNOWN225; OP_UNKNOWN226; OP_UNKNOWN227;
  OP_UNKNOWN228; OP_UNKNOWN229; OP_UNKNOWN230; OP_UNKNOWN231; OP_UNKNOWN232; OP_UNKNOWN233;
  OP_UNKNOWN234; OP_UNKNOWN235; OP_UNKNOWN236; OP_UNKNOWN237; OP_UNKNOWN238; OP_UNKNOWN239;
  OP_UNKNOWN240; OP_UNKNOWN241; OP_UNKNOWN242; OP_UNKNOWN243; OP_UNKNOWN244; OP_UNKNOWN245;
  OP_UNKNOWN246; OP_UNKNOWN247; OP_UNKNOWN248; OP_UNKNOWN249; OP_SMALLINTEGER; OP_PUBKEYS;
  OP_UNKNOWN252; OP_PUBKEYHASH; OP_PUBKEY].

(** ** The table is complete *)

Lemma opcode_at_value b : value (opcode_at b) = b2z b.
Proof. by destruct b. Qed.

Lemma opcode_at_length b :
  op_length (opcode_at b)
  = if (OP_DATA_1 <=? b2z b) && (b2z b <=? OP_DATA_75) then b2z b + 1
    else if b2z b =? OP_PUSHDATA1 then -1
    else if b2z b =? OP_PUSHDATA2 then -2
    else if b2z b =? OP_PUSHDATA4 then -4
    else 1.
Proof. by destruct b. Qed.

(** The opcode table has one entry per byte value, each entry stands at the
    index of its own value, names are distinct, and the encoded lengths are
    those of the script language: one byte for every opcode but the direct
    pushes [OP_DATA_1]..[OP_DATA_75], which carry their value in bytes, and the
    three [OP_PUSHDATA] forms, which carry a length of 1, 2 or 4 bytes. *)
Theorem opcodeArray_complete :
  length opcodeArray = 256%nat /\ NoDup (map name opcodeArray)
  /\ forall b, value (opcode_at b) = b2z b
     /\ opcodeArray !! Z.to_nat (b2z b) = Some (opcode_at b)
     /\ op_length (opcode_at b)
        = if (OP_DATA_1 <=? b2z b) && (b2z b <=? OP_DATA_75) then b2z b + 1
          else if b2z b =? OP_PUSHDATA1 then -1
          else if b2z b =? OP_PUSHDATA2 then -2
          else if b2z b =? OP_PUSHDATA4 then -4
          else 1.
Proof.
  split; [done|]. split.
  - apply (bool_decide_unpack _). vm_compute. exact I.
  - intros b. split; [apply opcode_at_value|]. split; [by destruct b|apply opcode_at_length].
Qed.
