(* ===== verification/Tokenizer.v ===== *)
(** The script tokenizer (src/thoughtd/txscript/tokenizer.go).

    [Next] is the method of the source on the struct of the source: offsets are
    [int32], the data of the last opcode is [nil] ([None]) or a slice, and an
    index out of range would be a panic.  [parse_op] is the grammar of scripts;
    [Next] is shown to implement it. *)

From S2P Require Import Prelude ScriptError Opcodes.

Record ScriptTokenizer := mkTok {
  script : bytes;
  version : Z;
  offset : Z;
  opcodePos : Z;
  op : option opcode;
  data : option bytes;
  err : option ErrorCode }.

Notation TM := (M ScriptTokenizer ErrorCode).

Definition MakeScriptTokenizer (script : bytes) : ScriptTokenizer :=
  mkTok script 0 0 (-1) None None None.

Definition Done (t : ScriptTokenizer) : bool :=
  match err t with Some _ => true | None => offset t >=? i32 (zlen (script t)) end.

Definition bump (t : ScriptTokenizer) : ScriptTokenizer :=
  mkTok (script t) (version t) (offset t) (i32 (opcodePos t + 1)) (op t) (data t) (err t).
Definition set_err (e : ErrorCode) (t : ScriptTokenizer) : ScriptTokenizer :=
  mkTok (script t) (version t) (offset t) (opcodePos t) (op t) (data t) (Some e).
(** [t.offset += n; t.op = op; t.data = data] *)
Definition advance (n : Z) (o : opcode) (d : option bytes) (t : ScriptTokenizer) : ScriptTokenizer :=
  mkTok (script t) (version t) (i32 (offset t + n)) (opcodePos t) (Some o) d (err t).

Definition Next : TM bool :=
  t <- getM ;;
  if Done t then retM false else
  modifyM bump ;;
  t <- getM ;;
  b <- liftO (orCrash (znth (script t) (offset t))) ;;
  let o := opcode_at b in
  if op_length o =? 1 then
    modifyM (advance 1 o None) ;; retM true
  else if op_length o >? 1 then
    script <- liftO (orCrash (zslice (script t) (offset t) (zlen (script t)))) ;;
    if zlen script <? op_length o then modifyM (set_err ErrMalformedPush) ;; retM false else
    d <- liftO (orCrash (zslice script 1 (op_length o))) ;;
    modifyM (advance (i32 (op_length o)) o (Some d)) ;; retM true
  else if op_length o <? 0 then
    script <- liftO (orCrash (zslice (script t) (i32 (offset t + 1)) (zlen (script t)))) ;;
    if zlen script <? - op_length o then modifyM (set_err ErrMalformedPush) ;; retM false else
    if negb ((op_length o =? -1) || (op_length o =? -2) || (op_length o =? -4)) then
      modifyM (set_err ErrMalformedPush) ;; retM false
    else
    lenBytes <- liftO (orCrash (zslice script 0 (- op_length o))) ;;
    let dataLen := i32 (le_val lenBytes) in
    script <- liftO (orCrash (zslice script (- op_length o) (zlen script))) ;;
    if (dataLen >? i32 (zlen script)) || (dataLen <? 0) then
      modifyM (set_err ErrMalformedPush) ;; retM false
    else
    d <- liftO (orCrash (zslice script 0 dataLen)) ;;
    modifyM (advance (1 + i32 (- op_length o) + dataLen) o (Some d)) ;; retM true
  else crashM.

Definition ByteIndex (t : ScriptTokenizer) : Z := offset t.
Definition OpcodePosition (t : ScriptTokenizer) : Z := opcodePos t.
Definition Err (t : ScriptTokenizer) : option ErrorCode := err t.
Definition Data (t : ScriptTokenizer) : option bytes := data t.
(** [t.op.value]: a nil dereference before the first opcode. *)
Definition Opcode (t : ScriptTokenizer) : outcome ErrorCode Z :=
  match op t with Some o => Ret (value o) | None => Crash end.

(** The elements of a slice that may be nil. *)
Definition bytes_of (d : option bytes) : bytes := match d with Some b => b | None => [] end.

(** ** Loops over a script

    [for tokenizer.Next() { body }]: the body updates the variables of the loop
    or returns from the enclosing function.  A script of [n] bytes has at most
    [n] opcodes, so [n + 1] rounds are enough. *)

Fixpoint for_next {A R} (fuel : nat) (body : ScriptTokenizer -> A -> outcome ErrorCode (A + R))
    (t : ScriptTokenizer) (a : A) : outcome ErrorCode ((A * ScriptTokenizer) + R) :=
  match fuel with
  | O => NoFuel
  | S fuel =>
      match Next t with
      | (Ret true, t) =>
          let! r := body t a in
          match r with
          | inl a => for_next fuel body t a
          | inr r => Ret (inr r)
          end
      | (Ret false, t) => Ret (inl (a, t))
      | (Fail e, _) => Fail e
      | (Crash, _) => Crash
      | (NoFuel, _) => NoFuel
      end
  end.

(** ** The grammar of scripts *)

(** The first opcode of a script: the opcode, its data and the rest. *)
Definition parse_op (s : bytes) : option (opcode * option bytes * bytes) :=
  match s with
  | [] => None
  | b :: rest =>
      let o := opcode_at b in
      if op_length o =? 1 then Some (o, None, rest)
      else
        (** the width of the length prefix and the length of the data *)
        let w := if op_length o <? 0 then Z.to_nat (- op_length o) else O in
        if (length rest <? w)%nat then None else
        let n := if op_length o <? 0 then le_val (take w rest) else op_length o - 1 in
        let rest := drop w rest in
        if zlen rest <? n then None
        else Some (o, Some (take (Z.to_nat n) rest), drop (Z.to_nat n) rest)
  end.

(** All opcodes up to the end or to the first that does not parse; the flag
    says whether the end was reached. *)
Fixpoint parse_all (fuel : nat) (s : bytes) : list (opcode * option bytes * bytes) * bool :=
  match fuel, s with
  | O, _ | _, [] => ([], match s with [] => true | _ => false end)
  | S fuel, _ =>
      match parse_op s with
      | None => ([], false)
      | Some (o, d, rest) => let '(l, ok) := parse_all fuel rest in ((o, d, rest) :: l, ok)
      end
  end.

Definition parse_script (s : bytes) := parse_all (length s) s.

(** ** [Next] implements the grammar *)

Definition tok_ok (t : ScriptTokenizer) : Prop :=
  0 <= offset t <= zlen (script t) /\ zlen (script t) < 2 ^ 31.

(** The part of the script that has not been parsed. *)
Definition remaining (t : ScriptTokenizer) : bytes := drop (Z.to_nat (offset t)) (script t).

(** The bytes of the opcode [o] with data [d]. *)
Definition op_bytes (o : opcode) (d : option bytes) : bytes :=
  z2b (value o) ::
  match d with
  | None => []
  | Some b => (if op_length o <? 0 then le_bytes (Z.to_nat (- op_length o)) (zlen b) else []) ++ b
  end.

Lemma parse_op_app s o d rest : parse_op s = Some (o, d, rest) -> s = op_bytes o d ++ rest.
Proof.
  unfold parse_op. destruct s as [|b s]; [done|]. cbv zeta.
  set (o' := opcode_at b). unfold op_bytes.
  assert (z2b (value o') = b) as Hb by (unfold o'; by rewrite opcode_at_value, z2b_b2z).
  destruct (Z.eqb_spec (op_length o') 1) as [H1|H1]; [intros [= <- <- <-]; by rewrite Hb|].
  set (w := if op_length o' <? 0 then Z.to_nat (- op_length o') else 0%nat).
  destruct (Nat.ltb_spec (length s) w) as [Hw|Hw]; [done|].
  set (n := if op_length o' <? 0 then le_val (take w s) else op_length o' - 1).
  destruct (Z.ltb_spec (zlen (drop w s)) n) as [Hn|Hn]; [done|]. intros [= <- <- <-].
  rewrite Hb. simpl. f_equal. rewrite <- app_assoc, take_drop.
  assert (0 <= n) as Hn0.
  { subst n. pose proof (opcode_at_length b) as Hl. fold o' in Hl. pose proof (b2z_range b).
    destruct (Z.ltb_spec (op_length o') 0); [apply le_val_bound|].
    revert Hl. repeat case_match; zbool; lia. }
  assert ((if op_length o' <? 0 then le_bytes (Z.to_nat (- op_length o')) (zlen (take (Z.to_nat n) (drop w s))) else [])
    = take w s) as ->; [|by rewrite take_drop].
  assert (zlen (take (Z.to_nat n) (drop w s)) = n) as -> by (rewrite zlen_take; lia).
  subst n w. destruct (op_length o' <? 0); [|done].
  rewrite <- (le_bytes_le_val (take _ s)) at 2. f_equal. rewrite length_take. lia.
Qed.

Lemma op_bytes_pos o d : 1 <= zlen (op_bytes o d).
Proof. unfold op_bytes. rewrite zlen_cons. set (l := match d with None => _ | _ => _ end). zlia. Qed.

Lemma parse_op_shorter s o d rest : parse_op s = Some (o, d, rest) -> zlen rest < zlen s.
Proof.
  intros ->%parse_op_app. rewrite zlen_app. pose proof (op_bytes_pos o d). lia.
Qed.

Lemma zslice_drop (l : bytes) i : 0 <= i <= zlen l -> zslice l i (zlen l) = Some (drop (Z.to_nat i) l).
Proof.
  intros Hi. rewrite zslice_Some by lia. f_equal. apply take_ge.
  rewrite length_drop. unfold zlen in *. lia.
Qed.

Lemma zslice_take (l : bytes) i : 0 <= i <= zlen l -> zslice l 0 i = Some (take (Z.to_nat i) l).
Proof. intros Hi. rewrite zslice_Some by lia. by rewrite Z.sub_0_r, drop_0. Qed.

Definition next_ref (t : ScriptTokenizer) : outcome ErrorCode bool * ScriptTokenizer :=
  match remaining t with
  | [] => (Ret false, t)
  | s =>
      match parse_op s with
      | None => (Ret false, set_err ErrMalformedPush (bump t))
      | Some (o, d, rest) =>
          (Ret true, mkTok (script t) (version t) (zlen (script t) - zlen rest)
                       (i32 (opcodePos t + 1)) (Some o) d None)
      end
  end.

Lemma opcode_len_cases b :
  op_length (opcode_at b) = 1 \/ 1 < op_length (opcode_at b) <= 76
  \/ op_length (opcode_at b) = -1 \/ op_length (opcode_at b) = -2 \/ op_length (opcode_at b) = -4.
Proof.
  rewrite opcode_at_length. pose proof (b2z_range b). repeat case_match; zbool; lia.
Qed.

Section next.
Variables (t : ScriptTokenizer) (b : byte) (s : bytes).
Hypothesis Hok : tok_ok t.
Hypothesis Herr : err t = None.
Hypothesis Hrem : remaining t = b :: s.

Lemma rem_len : zlen (script t) - offset t = 1 + zlen s.
Proof using Hok Hrem.
  destruct Hok as [Ho _]. apply (f_equal zlen) in Hrem. unfold remaining in Hrem.
  rewrite zlen_drop, zlen_cons in Hrem. pose proof (zlen_nonneg s). lia.
Qed.

Lemma rem_head : znth (script t) (offset t) = Some b.
Proof using Hok Hrem.
  destruct Hok as [Ho _]. rewrite znth_lookup by lia.
  rewrite <- (Nat.add_0_r (Z.to_nat (offset t))), <- lookup_drop.
  unfold remaining in Hrem. by rewrite Hrem.
Qed.

Lemma rem_tail : drop (Z.to_nat (offset t + 1)) (script t) = s.
Proof using Hok Hrem.
  destruct Hok as [Ho _]. rewrite Z2Nat.inj_add, <- drop_drop by lia.
  unfold remaining in Hrem. by rewrite Hrem.
Qed.

Lemma Next_step : Next t = next_ref t.
Proof using Hok Herr Hrem.
  pose proof rem_len as Hlen. pose proof rem_head as Hhd. pose proof rem_tail as Htl.
  destruct Hok as [Ho Hs]. pose proof (zlen_nonneg s).
  unfold Next, next_ref. rewrite Hrem. runM. unfold Done at 1. rewrite Herr, i32_id by lia. ztest.
  cbn [bump script offset]. rewrite Hhd. unfold parse_op.
  set (o := opcode_at b). pose proof (opcode_len_cases b) as Hl. fold o in Hl. cbv zeta.
  destruct (Z.eqb_spec (op_length o) 1) as [H1|H1].
  { unfold advance, bump; cbn [script version offset opcodePos op data err]. rewrite Herr, i32_id by lia. do 2 f_equal. lia. }
  rewrite (Z.gtb_ltb (op_length o) 1). destruct (Z.ltb_spec 1 (op_length o)) as [H2|H2].
  - rewrite zslice_drop by lia. change (drop _ (script t)) with (remaining t). rewrite Hrem, zlen_cons.
    rewrite (proj2 (Z.ltb_ge (op_length o) 0)) by lia. rewrite drop_0. simpl (length s <? 0)%nat.
    destruct (Z.ltb_spec (1 + zlen s) (op_length o)), (Z.ltb_spec (zlen s) (op_length o - 1)); try lia; [done|].
    rewrite zslice_Some by (rewrite ?zlen_cons; lia).
    unfold advance, bump; cbn [script version offset opcodePos op data err]. rewrite Herr, (i32_id (op_length o)), i32_id by lia.
    do 2 f_equal. rewrite zlen_drop. lia.
  - rewrite (proj2 (Z.ltb_lt (op_length o) 0)) by lia.
    rewrite (i32_id (offset t + 1)) by lia. rewrite zslice_drop, Htl by lia.
    set (w := - op_length o). assert (w = 1 \/ w = 2 \/ w = 4) as Hw by (subst w; lia).
    destruct (Z.ltb_spec (zlen s) w) as [Hz|Hz], (Nat.ltb_spec (length s) (Z.to_nat w)) as [Hz'|Hz'];
      unfold zlen in Hz; try lia; [done|]. fold (zlen s) in Hz.
    rewrite (proj2 (negb_false_iff _))
      by (destruct Hw as [?|[?|?]]; subst w;
          [rewrite (proj2 (Z.eqb_eq _ (-1))) by lia|rewrite (proj2 (Z.eqb_eq _ (-2))) by lia
          |rewrite (proj2 (Z.eqb_eq _ (-4))) by lia]; rewrite ?orb_true_r; done).
    rewrite zslice_take, zslice_drop by lia.
    set (n := le_val (take (Z.to_nat w) s)). set (s' := drop (Z.to_nat w) s).
    assert (0 <= n < 2 ^ 32) as Hn.
    { pose proof (le_val_bound (take (Z.to_nat w) s)) as Hb. fold n in Hb. rewrite zlen_take in Hb.
      assert (256 ^ Z.min (Z.of_nat (Z.to_nat w)) (zlen s) <= 2 ^ 32).
      { change (2 ^ 32) with (256 ^ 4). apply Z.pow_le_mono_r; lia. } lia. }
    assert (zlen s' = zlen s - w) as Hs' by (subst s'; rewrite zlen_drop; lia).
    rewrite (i32_id (zlen s')) by lia. rewrite Z.gtb_ltb.
    destruct (Z.ltb_spec (zlen s') n) as [Hd|Hd].
    + destruct (Z.ltb_spec n (2 ^ 31)).
      * rewrite (i32_id n) by lia. ztest. done.
      * assert (i32 n = n - 2 ^ 32) as -> by (rewrite <- (i32_id (n - 2 ^ 32)) by lia;
          unfold i32; f_equal; rewrite <- (Z_mod_plus_full (n - 2 ^ 32 + 2 ^ 31) 1); f_equal; lia).
        ztest. by rewrite orb_true_r.
    + rewrite (i32_id n) by lia. ztest. simpl. rewrite zslice_take by lia.
      unfold advance, bump; cbn [script version offset opcodePos op data err]. rewrite Herr, (i32_id w), i32_id by lia. do 2 f_equal.
      rewrite zlen_drop. lia.
Qed.
End next.

Lemma Next_spec t : tok_ok t -> err t = None -> Next t = next_ref t.
Proof.
  intros Hok Herr. destruct (remaining t) as [|b s] eqn:E.
  - unfold Next, next_ref. rewrite E. runM. unfold Done. rewrite Herr.
    destruct Hok as [Ho Hs]. pose proof (zlen_nonneg (script t)). rewrite i32_id by lia.
    apply (f_equal zlen) in E. unfold remaining in E. rewrite zlen_drop in E.
    change (zlen []) with 0 in E. by ztest.
  - by eapply Next_step.
Qed.

(** ** Iteration *)

(** The state of the tokenizer of [s] after the opcode [p]. *)
Definition tok_after (t : ScriptTokenizer) (p : opcode * option bytes * bytes) : ScriptTokenizer :=
  let '(o, d, rest) := p in
  mkTok (script t) (version t) (zlen (script t) - zlen rest) (i32 (opcodePos t + 1)) (Some o) d None.

(** The loop as a fold over the parsed opcodes. *)
Fixpoint fold_parsed {A R} (body : ScriptTokenizer -> A -> outcome ErrorCode (A + R))
    (t : ScriptTokenizer) (l : list (opcode * option bytes * bytes)) (a : A) :
    outcome ErrorCode (A * ScriptTokenizer + R) :=
  match l with
  | [] => Ret (inl (a, t))
  | p :: l =>
      let t := tok_after t p in
      let! r := body t a in
      match r with inl a => fold_parsed body t l a | inr r => Ret (inr r) end
  end.

Lemma suffix_remaining t o d rest :
  tok_ok t -> parse_op (remaining t) = Some (o, d, rest) ->
  tok_ok (tok_after t (o, d, rest)) /\ remaining (tok_after t (o, d, rest)) = rest
  /\ offset t < offset (tok_after t (o, d, rest)).
Proof.
  intros [Ho Hs] Hp. pose proof (parse_op_shorter _ _ _ _ Hp) as Hlt.
  pose proof (zlen_nonneg rest).
  assert (zlen (remaining t) = zlen (script t) - offset t) as Hr
    by (unfold remaining; rewrite zlen_drop; lia).
  split_and!.
  - unfold tok_ok. simpl. lia.
  - apply parse_op_app in Hp. unfold remaining at 1. simpl.
    assert (script t = take (Z.to_nat (offset t)) (script t) ++ op_bytes o d ++ rest) as E
      by (rewrite <- Hp; unfold remaining; by rewrite take_drop).
    rewrite E at 2. rewrite app_assoc. rewrite drop_app_length'; [done|].
    apply (f_equal zlen) in E. rewrite !zlen_app in E. unfold zlen in *. rewrite length_app. lia.
  - simpl. lia.
Qed.

(** Every loop over a script ends within its fuel, visits the opcodes of the
    grammar in order, and leaves the tokenizer with an error exactly when the
    script does not parse. *)
Lemma for_next_spec {A R} (body : ScriptTokenizer -> A -> outcome ErrorCode (A + R)) fuel : forall n t a,
  tok_ok t -> err t = None -> (length (remaining t) < fuel)%nat -> (length (remaining t) <= n)%nat ->
  for_next fuel body t a =
  let '(l, ok) := parse_all n (remaining t) in
  let! r := fold_parsed body t l a in
  match r with
  | inl (a, t) => Ret (inl (a, if ok then t else set_err ErrMalformedPush (bump t)))
  | inr r => Ret (inr r)
  end.
Proof.
  induction fuel as [|fuel IH]; intros n t a Hok Herr Hf Hn; [lia|].
  simpl for_next. rewrite Next_spec by done. unfold next_ref.
  destruct (remaining t) as [|b s] eqn:E; [by destruct n|].
  destruct n as [|n]; [simpl in Hn; lia|]. cbn [parse_all].
  destruct (parse_op (b :: s)) as [[[o d] rest]|] eqn:Hp; [|done].
  rewrite <- E in Hp. destruct (suffix_remaining t o d rest Hok Hp) as (Hok' & Hrem & _).
  pose proof (parse_op_shorter _ _ _ _ Hp) as Hlt. rewrite E in Hlt. unfold zlen in Hlt. simpl in Hlt, Hf, Hn.
  change (mkTok _ _ _ _ _ _ _) with (tok_after t (o, d, rest)).
  destruct (parse_all n rest) as [l ok] eqn:Hl. cbn [fold_parsed].
  destruct (body (tok_after t (o, d, rest)) a) as [[a'|r]| | |]; try done. cbn [bindO].
  rewrite (IH n) by (rewrite ?Hrem; done || lia). by rewrite Hrem, Hl.
Qed.

Lemma parse_all_fuel n m s :
  (length s <= n)%nat -> (length s <= m)%nat -> parse_all n s = parse_all m s.
Proof.
  revert m s. induction n as [|n IH]; intros m s Hn Hm.
  { destruct s; [|simpl in Hn; lia]. by destruct m. }
  destruct s as [|b s]; [by destruct m|]. destruct m as [|m]; [simpl in Hm; lia|]. cbn [parse_all].
  destruct (parse_op (b :: s)) as [[[o d] rest]|] eqn:Hp; [|done].
  pose proof (parse_op_shorter _ _ _ _ Hp) as Hlt. unfold zlen in Hlt. simpl in Hlt, Hn, Hm.
  by rewrite (IH m rest) by lia.
Qed.

(** The parsed opcodes partition the script. *)
Lemma parse_all_partition n s l ok :
  (length s <= n)%nat -> parse_all n s = (l, ok) ->
  exists rest, s = concat (map (fun p => op_bytes p.1.1 p.1.2) l) ++ rest
    /\ (ok = true <-> rest = []) /\ (ok = false -> parse_op rest = None).
Proof.
  revert s l. induction n as [|n IH]; intros s l Hn H.
  { destruct s; [|simpl in Hn; lia]. injection H as <- <-. by exists []. }
  destruct s as [|b s]; [injection H as <- <-; by exists []|]. cbn [parse_all] in H.
  destruct (parse_op (b :: s)) as [[[o d] rest]|] eqn:Hp.
  - pose proof (parse_op_shorter _ _ _ _ Hp) as Hlt. unfold zlen in Hlt. simpl in Hlt, Hn.
    destruct (parse_all n rest) as [l' ok'] eqn:Hl. injection H as <- <-.
    destruct (IH rest l') as (r & Er & H1 & H2); [lia|done|]. exists r. split_and!; try done.
    rewrite (parse_op_app _ _ _ _ Hp), Er. simpl. by rewrite <- app_assoc.
  - injection H as <- <-. by exists (b :: s).
Qed.

Lemma remaining_make s : remaining (MakeScriptTokenizer s) = s.
Proof. unfold remaining. simpl. by rewrite drop_0. Qed.

Lemma make_ok s : zlen s < 2 ^ 31 -> tok_ok (MakeScriptTokenizer s).
Proof. intros. split; simpl; pose proof (zlen_nonneg s); lia. Qed.

(** The fuel the loops of the package are given. *)
Definition tok_fuel (s : bytes) : nat := S (length s).

Lemma for_next_make {A R} (body : ScriptTokenizer -> A -> outcome ErrorCode (A + R)) s a :
  zlen s < 2 ^ 31 ->
  for_next (tok_fuel s) body (MakeScriptTokenizer s) a =
  let '(l, ok) := parse_script s in
  let! r := fold_parsed body (MakeScriptTokenizer s) l a in
  match r with
  | inl (a, t) => Ret (inl (a, if ok then t else set_err ErrMalformedPush (bump t)))
  | inr r => Ret (inr r)
  end.
Proof.
  intros Hs. rewrite (for_next_spec body _ (length s)); rewrite ?remaining_make; try done.
  - by apply make_ok.
  - unfold tok_fuel. lia.
Qed.

(** A loop whose body only updates its variables ends in the final state of the
    tokenizer; the body sees the opcode and its data. *)
Lemma fold_parsed_pure {A R} (body : ScriptTokenizer -> A -> outcome ErrorCode (A + R))
    (f : A -> opcode -> option bytes -> A) :
  (forall t a o, op t = Some o -> body t a = Ret (inl (f a o (data t)))) ->
  forall l t a, err t = None -> exists t', err t' = None /\
    fold_parsed body t l a = Ret (inl (fold_left (fun a p => f a p.1.1 p.1.2) l a, t')).
Proof.
  intros Hb l. induction l as [|[[o d] rest] l IH]; intros t a Ht; simpl; [by exists t|].
  rewrite (Hb _ _ o) by done. simpl. by apply IH.
Qed.

Lemma for_next_pure {A R} (body : ScriptTokenizer -> A -> outcome ErrorCode (A + R))
    (f : A -> opcode -> option bytes -> A) s a :
  zlen s < 2 ^ 31 ->
  (forall t a o, op t = Some o -> body t a = Ret (inl (f a o (data t)))) ->
  exists t', for_next (tok_fuel s) body (MakeScriptTokenizer s) a
    = Ret (inl (fold_left (fun a p => f a p.1.1 p.1.2) (parse_script s).1 a, t'))
    /\ err t' = if (parse_script s).2 then None else Some ErrMalformedPush.
Proof.
  intros Hs Hb. rewrite for_next_make by done. destruct (parse_script s) as [l ok].
  destruct (fold_parsed_pure body f Hb l (MakeScriptTokenizer s) a eq_refl) as (t' & Ht & ->).
  simpl. eexists. split; [reflexivity|]. by destruct ok.
Qed.

(** ** Properties *)

(** C39: one call of [Next] on a script shorter than 2 GiB does not panic and
    does what the grammar of scripts says: at the end of the script it returns
    false and changes nothing, on a well-formed opcode it moves to the byte
    after it and stores the opcode and its data, and otherwise it records
    [ErrMalformedPush] and keeps the offset at the failing opcode. *)
Theorem Next_refines_grammar (t : ScriptTokenizer) :
  tok_ok t -> err t = None ->
  match remaining t with
  | [] => Next t = (Ret false, t)
  | s =>
      match parse_op s with
      | None => exists t', Next t = (Ret false, t')
          /\ err t' = Some ErrMalformedPush /\ offset t' = offset t
      | Some (o, d, rest) => exists t', Next t = (Ret true, t')
          /\ tok_ok t' /\ err t' = None /\ op t' = Some o /\ data t' = d
          /\ script t' = script t /\ remaining t' = rest /\ offset t < offset t'
          /\ s = op_bytes o d ++ rest
      end
  end.
Proof.
  intros Hok Herr. rewrite Next_spec by done. unfold next_ref.
  destruct (remaining t) as [|b s] eqn:E; [done|].
  destruct (parse_op (b :: s)) as [[[o d] rest]|] eqn:Hp.
  - pose proof (parse_op_app _ _ _ _ Hp). rewrite <- E in Hp.
    destruct (suffix_remaining t o d rest Hok Hp) as (? & ? & ?).
    exists (tok_after t (o, d, rest)). by split_and!.
  - eexists. split_and!; [reflexivity|done..].
Qed.

Lemma Next_refines_grammar_witness :
  exists t', Next (MakeScriptTokenizer [z2b 2; z2b 7; z2b 8; z2b 0x76]) = (Ret true, t')
    /\ data t' = Some [z2b 7; z2b 8] /\ remaining t' = [z2b 0x76].
Proof.
  pose proof (Next_refines_grammar (MakeScriptTokenizer [z2b 2; z2b 7; z2b 8; z2b 0x76])
    ltac:(split; simpl; unfold zlen; simpl; lia) eq_refl) as H.
  rewrite remaining_make in H.
  assert (parse_op [z2b 2; z2b 7; z2b 8; z2b 0x76]
    = Some (opcode_at (z2b 2), Some [z2b 7; z2b 8], [z2b 0x76])) as P by reflexivity.
  cbv beta iota zeta in H. rewrite P in H. destruct H as (t' & H1 & H2 & H3 & H4 & H5 & H6 & H7 & _). exists t'. auto.
Defined.

(** Iterating the tokenizer over any script shorter than 2 GiB terminates
    within one round per byte plus one, and partitions the script: the encoded
    opcodes it yields, in order, followed by an unparsed rest, are the script,
    and it ends without error if and only if the rest is empty. *)
Theorem tokenizer_partitions (s : bytes) :
  zlen s < 2 ^ 31 ->
  exists ops rest t,
    for_next (R := unit) (tok_fuel s)
      (fun t a => Ret (inl (a ++ [(op t, data t)]))) (MakeScriptTokenizer s) []
      = Ret (inl (map (fun p => (Some p.1, p.2)) ops, t))
    /\ s = concat (map (fun p => op_bytes p.1 p.2) ops) ++ rest
    /\ (err t = None <-> rest = []) /\ (rest <> [] -> err t = Some ErrMalformedPush /\ parse_op rest = None).
Proof.
  intros Hs.
  destruct (for_next_pure (R := unit) (fun t a => Ret (inl (a ++ [(op t, data t)])))
    (fun a o d => a ++ [(Some o, d)]) s [] Hs) as (t & -> & Ht).
  { intros t a o ->. done. }
  destruct (parse_script s) as [l ok] eqn:E. unfold parse_script in E.
  apply parse_all_partition in E as (rest & -> & Hok & Hno); [|done].
  exists (map fst l), rest, t. split_and!.
  - do 3 f_equal. rewrite map_map. cbn [fst].
    assert (forall acc, fold_left (fun a p => a ++ [(Some p.1.1, p.1.2)]) l acc
      = acc ++ map (fun p => (Some p.1.1, p.1.2)) l) as H.
    { clear. induction l as [|p l IH]; intros acc; simpl; [by rewrite app_nil_r|].
      rewrite IH. by rewrite <- app_assoc. }
    by rewrite H.
  - by rewrite map_map.
  - simpl in Ht. rewrite Ht. destruct ok; naive_solver.
  - intros Hr. simpl in Ht. rewrite Ht. destruct ok; naive_solver.
Qed.

Lemma tokenizer_partitions_witness :
  exists ops rest t,
    for_next (R := unit) (tok_fuel [z2b 0x76; z2b 2; z2b 5])
      (fun t a => Ret (inl (a ++ [(op t, data t)]))) (MakeScriptTokenizer [z2b 0x76; z2b 2; z2b 5]) []
      = Ret (inl (map (fun p => (Some p.1, p.2)) ops, t))
    /\ [z2b 0x76; z2b 2; z2b 5] = concat (map (fun p => op_bytes p.1 p.2) ops) ++ rest
    /\ (err t = None <-> rest = []) /\ (rest <> [] -> err t = Some ErrMalformedPush /\ parse_op rest = None).
Proof. apply (tokenizer_partitions [z2b 0x76; z2b 2; z2b 5]). unfold zlen. simpl. lia. Defined.
