(* ===== verification/Script.v ===== *)
(** Script analysis (src/thoughtd/txscript/script.go).

    The functions that walk over a script with the tokenizer: each is the loop
    of the source, and each is shown to compute a function of the opcodes the
    grammar finds. *)

From S2P Require Import Prelude ScriptError Opcodes Tokenizer.

Notation MaxOpsPerScript := 201 (only parsing).
Notation MaxPubKeysPerMultiSig := 20 (only parsing).
Notation MaxScriptElementSize := 520 (only parsing).
Notation MaxScriptSize := 10000 (only parsing).

Definition isSmallInt (op : Z) : bool := (op =? OP_0) || ((op >=? OP_1) && (op <=? OP_16)).

Definition asSmallInt (op : Z) : Z := if op =? OP_0 then 0 else u8 (op - (OP_1 - 1)).

Definition no_err (t : ScriptTokenizer) : bool :=
  match Err t with None => true | Some _ => false end.

Definition IsPushOnlyScript (script : bytes) : outcome ErrorCode bool :=
  let! r := for_next (tok_fuel script)
    (fun t (_ : unit) =>
       let! o := Opcode t in
       if o >? OP_16 then Ret (inr false) else Ret (inl tt))
    (MakeScriptTokenizer script) tt in
  match r with
  | inr b => Ret b
  | inl (_, t) => Ret (no_err t)
  end.

(** ** Removing opcodes *)

(** The loop of [removeOpcodeRaw] and [removeOpcodeByData]: [result] is nil
    until the first opcode to remove. *)
Definition removeLoop (script : bytes) (matches : Z -> option bytes -> bool) :
    outcome ErrorCode bytes :=
  let! r := for_next (R := unit) (tok_fuel script)
    (fun t '(result, prevOffset) =>
       let! o := Opcode t in
       let! result :=
         (if matches o (Data t) then
            match result with
            | None => let! s := orCrash (zslice script 0 prevOffset) in Ret (Some s)
            | Some r => Ret (Some r)
            end
          else
            match result with
            | Some r =>
                let! s := orCrash (zslice script prevOffset (ByteIndex t)) in Ret (Some (r ++ s))
            | None => Ret None
            end) in
       Ret (inl (result, ByteIndex t)))
    (MakeScriptTokenizer script) (None, 0) in
  match r with
  | inr _ => Crash
  | inl ((None, _), _) => Ret script
  | inl ((Some r, _), _) => Ret r
  end.

Definition removeOpcodeRaw (script : bytes) (opcode : Z) : outcome ErrorCode bytes :=
  if zlen script =? 0 then Ret script else
  removeLoop script (fun o _ => o =? opcode).

Definition isCanonicalPush (opcode : Z) (data : bytes) : bool :=
  let dataLen := zlen data in
  if opcode >? OP_16 then true
  else if (opcode <? OP_PUSHDATA1) && (opcode >? OP_0)
          && ((dataLen =? 1) && match data with b :: _ => b2z b <=? 16 | [] => false end) then false
  else if (opcode =? OP_PUSHDATA1) && (dataLen <? OP_PUSHDATA1) then false
  else if (opcode =? OP_PUSHDATA2) && (dataLen <=? 0xff) then false
  else if (opcode =? OP_PUSHDATA4) && (dataLen <=? 0xffff) then false
  else true.

(** [bytes.HasPrefix] and [bytes.Contains] *)
Fixpoint HasPrefix (s prefix : bytes) : bool :=
  match prefix, s with
  | [], _ => true
  | p :: prefix, b :: s => (b2z b =? b2z p) && HasPrefix s prefix
  | _, _ => false
  end.

Fixpoint Contains (b subslice : bytes) : bool :=
  HasPrefix b subslice || match b with [] => false | _ :: b => Contains b subslice end.

Definition removeOpcodeByData (script dataToRemove : bytes) : outcome ErrorCode bytes :=
  if (zlen script =? 0) || (zlen dataToRemove =? 0) then Ret script else
  removeLoop script
    (fun o d => isCanonicalPush o (bytes_of d) && Contains (bytes_of d) dataToRemove).

(** ** Counting and parsing *)

Definition countSigOpsV0 (script : bytes) (precise : bool) : outcome ErrorCode Z :=
  let! r := for_next (R := unit) (tok_fuel script)
    (fun t '(numSigOps, prevOp) =>
       let! o := Opcode t in
       let numSigOps :=
         if (o =? OP_CHECKSIG) || (o =? OP_CHECKSIGVERIFY) then numSigOps + 1
         else if (o =? OP_CHECKMULTISIG) || (o =? OP_CHECKMULTISIGVERIFY) then
           if precise && (prevOp >=? OP_1) && (prevOp <=? OP_16)
           then numSigOps + asSmallInt prevOp
           else numSigOps + MaxPubKeysPerMultiSig
         else numSigOps in
       Ret (inl (numSigOps, o)))
    (MakeScriptTokenizer script) (0, OP_INVALIDOPCODE) in
  match r with
  | inr _ => Crash
  | inl ((numSigOps, _), _) => Ret numSigOps
  end.

Definition GetSigOpCount (script : bytes) : outcome ErrorCode Z := countSigOpsV0 script false.

Definition finalOpcodeData (script : bytes) : outcome ErrorCode (option bytes) :=
  if zlen script =? 0 then Ret None else
  let! r := for_next (R := unit) (tok_fuel script)
    (fun t (_ : option bytes) => Ret (inl (Data t)))
    (MakeScriptTokenizer script) None in
  match r with
  | inr _ => Crash
  | inl (data, t) => Ret (if no_err t then data else None)
  end.

Definition checkScriptParses (script : bytes) : outcome ErrorCode unit :=
  let! r := for_next (R := unit) (tok_fuel script) (fun t (_ : unit) => Ret (inl tt))
    (MakeScriptTokenizer script) tt in
  match r with
  | inr _ => Crash
  | inl (_, t) => match Err t with Some e => Fail e | None => Ret tt end
  end.

Definition IsUnspendable (pkScript : bytes) : outcome ErrorCode bool :=
  if (zlen pkScript >? 0) && match pkScript with b :: _ => b2z b =? OP_RETURN | [] => false end
  then Ret true
  else if zlen pkScript >? MaxScriptSize then Ret true
  else match checkScriptParses pkScript with
       | Ret _ => Ret false
       | Fail _ => Ret true
       | Crash => Crash
       | NoFuel => NoFuel
       end.

Definition ScriptHasOpSuccess (witnessScript : bytes) : outcome ErrorCode bool :=
  let! r := for_next (tok_fuel witnessScript)
    (fun t (_ : unit) =>
       let! o := Opcode t in
       if existsb (Z.eqb o) successOpcodes then Ret (inr true) else Ret (inl tt))
    (MakeScriptTokenizer witnessScript) tt in
  match r with
  | inr b => Ret b
  | inl _ => Ret false
  end.

(** ** Against the grammar *)

(** The opcodes of a script, with their data. *)
Definition ops (s : bytes) : list (opcode * option bytes) := map fst (parse_script s).1.
Definition parses (s : bytes) : bool := (parse_script s).2.
Definition unparse (l : list (opcode * option bytes)) : bytes :=
  concat (map (fun p => op_bytes p.1 p.2) l).

Lemma ops_partition s :
  exists rest, s = unparse (ops s) ++ rest /\ (parses s = true <-> rest = []).
Proof.
  unfold ops, parses, unparse. destruct (parse_script s) as [l ok] eqn:E.
  apply parse_all_partition in E as (rest & -> & Hok & _); [|done].
  exists rest. by rewrite map_map.
Qed.

Lemma fold_left_fst {A B C} (f : A -> B -> A) (l : list (B * C)) a :
  fold_left (fun a p => f a p.1) l a = fold_left f (map fst l) a.
Proof. revert a. induction l as [|p l IH]; intros a; simpl; [done|]. apply IH. Qed.

(** A loop that only updates its variables, as a fold over the opcodes. *)
Lemma for_next_ops {A R} (body : ScriptTokenizer -> A -> outcome ErrorCode (A + R))
    (f : A -> opcode * option bytes -> A) s a :
  zlen s < 2 ^ 31 ->
  (forall t a o, op t = Some o -> body t a = Ret (inl (f a (o, data t)))) ->
  exists t', for_next (tok_fuel s) body (MakeScriptTokenizer s) a
    = Ret (inl (fold_left f (ops s) a, t'))
    /\ err t' = if parses s then None else Some ErrMalformedPush.
Proof.
  intros Hs Hb.
  destruct (for_next_pure body (fun a o d => f a (o, d)) s a Hs Hb) as (t' & H & Ht).
  exists t'. split; [|done]. rewrite H. do 3 f_equal. unfold ops.
  rewrite <- fold_left_fst. generalize (parse_script s).1 as l. clear. intros l. revert a.
  induction l as [|[[o d] r] l IH]; intros a; simpl; [done|]. apply IH.
Qed.

(** A loop that may return early on an opcode, and otherwise keeps no state. *)
Lemma for_next_search {R} (body : ScriptTokenizer -> unit -> outcome ErrorCode (unit + R))
    (stop : opcode -> bool) (r : R) s :
  zlen s < 2 ^ 31 ->
  (forall t o, op t = Some o -> body t tt = Ret (if stop o then inr r else inl tt)) ->
  exists t', for_next (tok_fuel s) body (MakeScriptTokenizer s) tt
    = Ret (if existsb (fun p => stop p.1) (ops s) then inr r else inl (tt, t'))
    /\ err t' = if parses s then None else Some ErrMalformedPush.
Proof.
  intros Hs Hb. rewrite for_next_make by done. unfold ops, parses.
  destruct (parse_script s) as [l ok]. simpl.
  assert (forall t, err t = None -> exists t', err t' = None /\ fold_parsed body t l tt
    = Ret (if existsb (fun p => stop p.1) (map fst l) then inr r else inl (tt, t'))) as H.
  { induction l as [|[[o d] rest] l IH]; intros t Ht; simpl; [by exists t|].
    rewrite (Hb _ o) by done. simpl. destruct (stop o); simpl; [by exists t|by apply IH]. }
  destruct (H (MakeScriptTokenizer s) eq_refl) as (t' & Ht & ->). simpl.
  destruct (existsb (fun p => stop p.1) (map fst l)).
  - exists (if ok then t' else set_err ErrMalformedPush t'). by destruct ok.
  - eexists. split; [reflexivity|]. by destruct ok.
Qed.

(** *** Removing opcodes *)

Section remove.
Variables (s : bytes) (m : Z -> option bytes -> bool).
Hypothesis Hs : zlen s < 2 ^ 31.

Definition hit (p : opcode * option bytes) : bool := m (value p.1) p.2.
Definition kept (l : list (opcode * option bytes)) : list (opcode * option bytes) :=
  List.filter (fun p => negb (hit p)) l.
Definition res (l : list (opcode * option bytes)) : option bytes :=
  if existsb hit l then Some (unparse (kept l)) else None.

Lemma unparse_app l k : unparse (l ++ k) = unparse l ++ unparse k.
Proof. unfold unparse. by rewrite map_app, concat_app. Qed.

Lemma unparse_kept l : existsb hit l = false -> unparse (kept l) = unparse l.
Proof.
  unfold kept. induction l as [|p l IH]; simpl; [done|]. intros H.
  apply orb_false_elim in H as [-> H]. simpl. unfold unparse in *. simpl. by rewrite IH.
Qed.

Lemma res_snoc l p :
  res (l ++ [p]) =
  if hit p then Some (match res l with Some r => r | None => unparse l end)
  else match res l with Some r => Some (r ++ op_bytes p.1 p.2) | None => None end.
Proof.
  unfold res, kept. rewrite existsb_app. cbn [existsb]. rewrite orb_false_r.
  rewrite List.filter_app. cbn [List.filter]. destruct (hit p) eqn:Hp; cbn [negb].
  - rewrite orb_true_r, app_nil_r. destruct (existsb hit l) eqn:E; [done|].
    fold (kept l). by rewrite unparse_kept.
  - rewrite orb_false_r. destruct (existsb hit l); [|done]. rewrite unparse_app.
    unfold unparse at 2. simpl. by rewrite app_nil_r.
Qed.

Lemma take_after t o d rest :
  tok_ok t -> script t = s -> parse_op (remaining t) = Some (o, d, rest) ->
  take (Z.to_nat (offset (tok_after t (o, d, rest)))) s
    = take (Z.to_nat (offset t)) s ++ op_bytes o d
  /\ zslice s (offset t) (offset (tok_after t (o, d, rest))) = Some (op_bytes o d).
Proof using Type.
  intros Hok Hsc Hp. destruct (suffix_remaining t o d rest Hok Hp) as ([Ho _] & Hrem & Hlt).
  destruct Hok as [Ht _]. apply parse_op_app in Hp.
  assert (s = take (Z.to_nat (offset t)) s ++ op_bytes o d ++ rest) as E
    by (rewrite <- Hp; unfold remaining; by rewrite Hsc, take_drop).
  set (pre := take (Z.to_nat (offset t)) s) in *.
  assert (zlen pre = offset t) as Hpre by (subst pre; rewrite zlen_take, <- Hsc; lia).
  assert (offset (tok_after t (o, d, rest)) = zlen pre + zlen (op_bytes o d)) as ->.
  { simpl. rewrite Hsc, E at 1. rewrite !zlen_app. lia. }
  rewrite <- Hpre. clear Hp Hlt Ho. split.
  - rewrite E at 1. rewrite app_assoc. unfold zlen.
    rewrite take_app_length' by (rewrite length_app; lia). done.
  - pose proof (zlen_nonneg pre). pose proof (zlen_nonneg (op_bytes o d)). pose proof (zlen_nonneg rest).
    rewrite zslice_Some by (try lia; rewrite E at 1; rewrite !zlen_app; lia).
    f_equal. rewrite E at 1. rewrite zlen_to_nat, drop_app_length. unfold zlen.
    rewrite take_app_length' by lia. done.
Qed.

Definition removeBody (t : ScriptTokenizer) (st : option bytes * Z) :
    outcome ErrorCode (option bytes * Z + unit) :=
  let '(result, prevOffset) := st in
  let! o := Opcode t in
  let! result :=
    (if m o (Data t) then
       match result with
       | None => let! s := orCrash (zslice s 0 prevOffset) in Ret (Some s)
       | Some r => Ret (Some r)
       end
     else
       match result with
       | Some r =>
           let! s := orCrash (zslice s prevOffset (ByteIndex t)) in Ret (Some (r ++ s))
       | None => Ret None
       end) in
  Ret (inl (result, ByteIndex t)).

Lemma remove_fold n : forall t l ok l1,
  parse_all n (remaining t) = (l, ok) -> tok_ok t -> script t = s ->
  take (Z.to_nat (offset t)) s = unparse l1 ->
  exists st, fold_parsed removeBody t l (res l1, offset t)
    = Ret (inl ((res (l1 ++ map fst l), st.1), st.2)).
Proof using Type.
  induction n as [|n IH]; intros t l ok l1 Hp Hok Hsc Ht.
  { destruct (remaining t); injection Hp as <- _; exists (offset t, t); by rewrite app_nil_r. }
  cbn [parse_all] in Hp. destruct (remaining t) as [|b r] eqn:E.
  { injection Hp as <- _; exists (offset t, t); by rewrite app_nil_r. }
  destruct (parse_op (b :: r)) as [[[o d] rest]|] eqn:Ho.
  2:{ injection Hp as <- _; exists (offset t, t); by rewrite app_nil_r. }
  destruct (parse_all n rest) as [l' ok'] eqn:El. injection Hp as <- <-.
  rewrite <- E in Ho. destruct (suffix_remaining t o d rest Hok Ho) as (Hok' & Hrem & _).
  destruct (take_after t o d rest Hok Hsc Ho) as [Htk Hsl].
  set (t1 := tok_after t (o, d, rest)) in *.
  assert (removeBody t1 (res l1, offset t) = Ret (inl (res (l1 ++ [(o, d)]), offset t1))) as Hb.
  { unfold removeBody. change (Opcode t1) with (Ret (E := ErrorCode) (value o)).
    cbn [bindO]. change (Data t1) with d. change (ByteIndex t1) with (offset t1).
    rewrite res_snoc. unfold hit; cbn [fst snd]. destruct (m (value o) d), (res l1) eqn:R; try done.
    - assert (zslice s 0 (offset t) = Some (unparse l1)) as ->; [|done].
      destruct Hok as [Hoff _]. rewrite zslice_take by (rewrite <- Hsc; lia). by rewrite Ht.
    - by rewrite Hsl. }
  cbn [fold_parsed map]. fold t1. rewrite Hb. cbn [bindO].
  destruct (IH t1 l' ok' (l1 ++ [(o, d)])) as [st Hst]; [by rewrite Hrem|done|done| |].
  { rewrite Htk, Ht, unparse_app. unfold unparse at 3. simpl. by rewrite app_nil_r. }
  exists st. rewrite Hst. by rewrite <- app_assoc.
Qed.

Lemma removeLoop_spec :
  removeLoop s m = Ret (if existsb hit (ops s) then unparse (kept (ops s)) else s).
Proof using Hs.
  unfold removeLoop. change (fun t '(result, prevOffset) => _) with removeBody.
  rewrite for_next_make by done.
  destruct (parse_script s) as [l ok] eqn:E.
  destruct (remove_fold (length s) (MakeScriptTokenizer s) l ok []) as [[off t'] Hf].
  - by rewrite remaining_make.
  - by apply make_ok.
  - done.
  - done.
  - change (None, 0) with (res [], offset (MakeScriptTokenizer s)). rewrite Hf.
    unfold res, ops. rewrite E. simpl. by destruct (existsb hit (map fst l)).
Qed.
End remove.

(** *** Parsing what was unparsed *)

#[local] Arguments parse_op : simpl never.
#[local] Arguments op_bytes : simpl never.

(** An opcode with its data, as the grammar produces them. *)
Definition tok_wf (p : opcode * option bytes) : Prop :=
  exists rest, parse_op (op_bytes p.1 p.2 ++ rest) = Some (p.1, p.2, rest).

Lemma parse_op_local o d rest rest' :
  parse_op (op_bytes o d ++ rest) = Some (o, d, rest) ->
  parse_op (op_bytes o d ++ rest') = Some (o, d, rest').
Proof.
  unfold op_bytes, parse_op. rewrite <- !app_comm_cons. set (b := z2b (value o)). cbv zeta.
  intros H.
  assert (o = opcode_at b) as Ho.
  { destruct (op_length (opcode_at b) =? 1); [congruence|].
    destruct (_ <? _)%nat; [done|]. destruct (_ <? _); [done|]. congruence. }
  rewrite <- Ho in *. destruct (op_length o =? 1) eqn:E1; [by injection H as <-|].
  set (w := if op_length o <? 0 then Z.to_nat (- op_length o) else 0%nat) in *.
  destruct d as [dat|].
  2:{ exfalso. clear -H. revert H. repeat case_match; congruence. }
  set (pre := if op_length o <? 0 then _ else [] : bytes) in *.
  assert (length pre = w) as Hpre by (subst pre w; destruct (op_length o <? 0); [apply length_le_bytes|done]).
  rewrite <- app_assoc in *.
  assert (forall r, (length (pre ++ dat ++ r) <? w)%nat = false) as Hw
    by (intros r; apply Nat.ltb_ge; rewrite !length_app; lia).
  rewrite Hw in *. rewrite !(take_app_length' pre), !(drop_app_length' pre) in * by done.
  set (n := if op_length o <? 0 then le_val pre else op_length o - 1) in *.
  destruct (Z.ltb_spec (zlen (dat ++ rest)) n) as [|Hn]; [done|].
  injection H as Hd Hr.
  assert (Z.to_nat n = length dat) as En.
  { apply (f_equal length) in Hr. rewrite length_drop, length_app in Hr.
    unfold zlen in Hn. rewrite length_app in Hn.
    apply (f_equal length) in Hd. rewrite length_take, length_app in Hd. lia. }
  rewrite En, take_app_length, drop_app_length.
  rewrite (proj2 (Z.ltb_ge _ _)); [done|]. rewrite zlen_app. unfold zlen in *. lia.
Qed.

Lemma parse_all_unparse l : forall n rest,
  Forall tok_wf l -> (length (unparse l ++ rest) <= n)%nat ->
  exists l', (parse_all n (unparse l ++ rest)).1 = l' ++ (parse_all n rest).1
    /\ map fst l' = l /\ (parse_all n (unparse l ++ rest)).2 = (parse_all n rest).2.
Proof.
  induction l as [|[o d] l IH]; intros n rest Hl Hn.
  { exists []. done. }
  inversion Hl as [|? ? Hp Hl']; subst. destruct Hp as [r0 Hp]. simpl in Hp.
  apply (parse_op_local _ _ _ (unparse l ++ rest)) in Hp.
  assert (unparse ((o, d) :: l) ++ rest = op_bytes o d ++ unparse l ++ rest) as E
    by (unfold unparse; simpl; by rewrite <- app_assoc).
  rewrite E in *. destruct n as [|n].
  { unfold op_bytes in Hn. simpl in Hn. lia. }
  assert (length (unparse l ++ rest) <= n)%nat as Hn'.
  { pose proof (op_bytes_pos o d). unfold zlen in *. rewrite length_app in Hn. lia. }
  destruct (IH n rest Hl' Hn') as (l' & H1 & H2 & H3).
  assert (parse_all n rest = parse_all (S n) rest) as Hfu
    by (apply parse_all_fuel; rewrite length_app in Hn'; lia).
  assert (parse_all (S n) (op_bytes o d ++ unparse l ++ rest)
    = let '(k, ok) := parse_all n (unparse l ++ rest) in ((o, d, unparse l ++ rest) :: k, ok)) as ->.
  { cbn [parse_all]. rewrite Hp. unfold op_bytes. done. }
  destruct (parse_all n (unparse l ++ rest)) as [k ok]. simpl in *. rewrite <- Hfu.
  exists ((o, d, unparse l ++ rest) :: l'). rewrite H1, H3. simpl. by rewrite H2.
Qed.

Lemma ops_unparse l : Forall tok_wf l -> ops (unparse l) = l /\ parses (unparse l) = true.
Proof.
  intros Hl. destruct (parse_all_unparse l (length (unparse l)) [] Hl) as (l' & H1 & H2 & H3).
  { by rewrite app_nil_r. }
  rewrite app_nil_r in *. unfold ops, parses, parse_script.
  assert (parse_all (length (unparse l)) [] = ([], true)) as E by (by destruct (length (unparse l))).
  rewrite E in *. rewrite H1, H3. by rewrite app_nil_r.
Qed.

Lemma ops_wf s : Forall tok_wf (ops s).
Proof.
  unfold ops, parse_script. generalize (length s) as n. intros n. revert s.
  induction n as [|n IH]; intros s; [by destruct s; constructor|].
  cbn [parse_all]. destruct s as [|b s]; [constructor|].
  destruct (parse_op (b :: s)) as [[[o d] rest]|] eqn:Hp; [|constructor].
  specialize (IH rest). destruct (parse_all n rest) as [l ok]. simpl in *.
  constructor; [|done]. exists rest. cbn [fst snd]. by rewrite <- (parse_op_app _ _ _ _ Hp).
Qed.

(** An opcode of a script, by the value it has. *)
Lemma ops_value s p c :
  p ∈ ops s -> value p.1 = c -> p.1 = opcode_at (z2b c)
    /\ match p.2 with
       | None => op_length p.1 = 1
       | Some d => op_length p.1 <> 1 /\ (1 < op_length p.1 -> zlen d = op_length p.1 - 1)
       end.
Proof.
  intros Hp <-. pose proof (ops_wf s) as Hwf. eapply Forall_forall in Hwf as [rest Hr]; [|exact Hp].
  destruct p as [o d]. cbn [fst snd] in *. revert Hr. generalize (op_bytes o d ++ rest).
  intros [|b bs] Hr; [done|]. unfold parse_op in Hr. cbv zeta in Hr.
  destruct (Z.eqb_spec (op_length (opcode_at b)) 1) as [E|E].
  - injection Hr as <- <- _. by rewrite opcode_at_value, z2b_b2z.
  - destruct (_ <? _)%nat; [done|]. 
    match type of Hr with (if ?c then _ else _) = _ => destruct c eqn:Hl; [done|] end. zbool.
    injection Hr as <- <- _. rewrite opcode_at_value, z2b_b2z. split_and!; [done|done|].
    intros H1. rewrite (proj2 (Z.ltb_ge _ 0)) in * by lia. rewrite zlen_take. lia.
Qed.

Lemma removeLoop_filters s m :
  zlen s < 2 ^ 31 ->
  exists r, removeLoop s m = Ret r
    /\ (parses s = true -> parses r = true /\ ops r = List.filter (fun p => negb (hit m p)) (ops s))
    /\ (existsb (hit m) (ops s) = false -> r = s).
Proof.
  intros Hs. rewrite removeLoop_spec by done. eexists. split; [reflexivity|].
  destruct (existsb (hit m) (ops s)) eqn:Eh; [split; [intros _|done]|split; [|done]].
  - apply and_comm, ops_unparse, List.Forall_forall. intros q [Hq _]%List.filter_In.
    eapply List.Forall_forall in Hq; [exact Hq|apply ops_wf].
  - intros Hp. split; [done|]. symmetry. clear -Eh.
    induction (ops s) as [|q l IH]; simpl in *; [done|].
    apply orb_false_elim in Eh as [-> Eh]. simpl. by rewrite IH.
Qed.

(** *** Counting *)

Definition sigops_of (precise : bool) (st : Z * Z) (p : opcode * option bytes) : Z * Z :=
  let '(n, prev) := st in
  let o := value p.1 in
  (if (o =? OP_CHECKSIG) || (o =? OP_CHECKSIGVERIFY) then n + 1
   else if (o =? OP_CHECKMULTISIG) || (o =? OP_CHECKMULTISIGVERIFY) then
     if precise && (prev >=? OP_1) && (prev <=? OP_16) then n + asSmallInt prev
     else n + MaxPubKeysPerMultiSig
   else n, o).

Lemma countSigOpsV0_spec s precise :
  zlen s < 2 ^ 31 ->
  countSigOpsV0 s precise = Ret (fold_left (sigops_of precise) (ops s) (0, OP_INVALIDOPCODE)).1.
Proof.
  intros Hs. unfold countSigOpsV0.
  match goal with |- context [for_next _ ?body _ ?a] =>
    destruct (for_next_ops body (sigops_of precise) s a Hs) as (t' & -> & _) end.
  - intros t [n prev] o E. unfold Opcode. by rewrite E.
  - cbn [bindO]. by destruct (fold_left _ _ _).
Qed.

Lemma sigops_of_bound l : forall n1 n2 prev,
  let r1 := fold_left (sigops_of true) l (n1, prev) in
  let r2 := fold_left (sigops_of false) l (n2, prev) in
  n1 <= r1.1 /\ r1.1 - n1 <= r2.1 - n2 /\ r2.1 - n2 <= 20 * zlen l.
Proof.
  induction l as [|p l IH]; intros n1 n2 prev; cbn [fold_left].
  { change (zlen []) with 0. simpl. lia. }
  rewrite zlen_cons. unfold sigops_of at 2 4 6 8. cbn [andb].
  set (o := value p.1). destruct ((o =? _) || _); [specialize (IH (n1 + 1) (n2 + 1) o); simpl in *; lia|].
  destruct ((o =? _) || _); [|specialize (IH n1 n2 o); simpl in *; lia].
  destruct (prev >=? OP_1) eqn:H1, (prev <=? OP_16) eqn:H2; cbn [andb];
    try (specialize (IH (n1 + 20) (n2 + 20) o); simpl in *; lia).
  zbool. assert (0 <= asSmallInt prev <= 16) by (unfold asSmallInt; ztest; rewrite u8_id; lia).
  specialize (IH (n1 + asSmallInt prev) (n2 + 20) o). simpl in *. lia.
Qed.

Lemma length_ops s : zlen (ops s) <= zlen s.
Proof.
  destruct (ops_partition s) as (rest & E & _). apply (f_equal zlen) in E. rewrite zlen_app in E.
  pose proof (zlen_nonneg rest). enough (zlen (ops s) <= zlen (unparse (ops s))) by lia.
  clear. induction (ops s) as [|p l IH]; [done|]. unfold unparse in *. cbn [map concat].
  rewrite zlen_cons, zlen_app. pose proof (op_bytes_pos p.1 p.2). lia.
Qed.

Lemma checkScriptParses_spec s :
  zlen s < 2 ^ 31 ->
  checkScriptParses s = if parses s then Ret tt else Fail ErrMalformedPush.
Proof.
  intros Hs. unfold checkScriptParses.
  destruct (for_next_ops (R := unit) (fun _ _ => Ret (inl tt)) (fun _ _ => tt) s tt Hs)
    as (t' & -> & Ht); [done|]. cbn [bindO]. unfold Err. rewrite Ht. by destruct (parses s).
Qed.

Lemma IsPushOnlyScript_spec (s : bytes) :
  zlen s < 2 ^ 31 ->
  IsPushOnlyScript s = Ret (forallb (fun p => value p.1 <=? OP_16) (ops s) && parses s).
Proof.
  intros Hs. unfold IsPushOnlyScript.
  destruct (for_next_search (fun t (_ : unit) => let! o := Opcode t in
      if o >? OP_16 then Ret (inr false) else Ret (inl tt)) (fun o => value o >? OP_16) false s Hs)
    as (t' & -> & Ht).
  { intros t o E. unfold Opcode. rewrite E. simpl. by destruct (value o >? OP_16). }
  assert (existsb (fun p => value p.1 >? OP_16) (ops s)
    = negb (forallb (fun p => value p.1 <=? OP_16) (ops s))) as ->.
  { clear. induction (ops s) as [|p l IH]; simpl; [done|]. rewrite IH, negb_andb.
    by rewrite Z.gtb_ltb, Z.ltb_antisym. }
  destruct (forallb _ (ops s)); simpl; [|done].
  unfold no_err, Err. rewrite Ht. by destruct (parses s).
Qed.

(** The data of the last opcode. *)
Lemma finalOpcodeData_spec s :
  zlen s < 2 ^ 31 ->
  finalOpcodeData s = Ret (if parses s then match last (ops s) with Some p => p.2 | None => None end
                           else None).
Proof.
  intros Hs. unfold finalOpcodeData. destruct (Z.eqb_spec (zlen s) 0) as [E|E].
  { apply zlen_0_inv in E. by subst s. }
  destruct (for_next_ops (R := unit) (fun t _ => Ret (inl (Data t)))
    (fun (_ : option bytes) (p : opcode * option bytes) => p.2) s None Hs) as (t' & -> & Ht); [done|].
  cbn [bindO]. unfold no_err, Err. rewrite Ht. destruct (parses s); [|done]. do 2 f_equal.
  assert (forall l d, fold_left (fun _ p => p.2) l d
    = match last l with Some p => (p : opcode * option bytes).2 | None => d end) as H.
  { clear. induction l as [|p l IH]; intros d; [done|]. simpl. rewrite IH.
    destruct l as [|q l]; [done|]. rewrite (last_cons p), (last_cons q). by destruct (last l). }
  apply H.
Qed.

(** ** Properties *)

(** Removing an opcode from a script that parses leaves a script that
    parses and whose opcodes are the remaining ones in their order; from a
    script without the opcode nothing is removed.  This is what the signature
    hash relies on to drop [OP_CODESEPARATOR]. *)
Theorem removeOpcodeRaw_filters (s : bytes) (c : Z) :
  zlen s < 2 ^ 31 ->
  exists r, removeOpcodeRaw s c = Ret r
    /\ (parses s = true -> parses r = true
        /\ ops r = List.filter (fun p => negb (value p.1 =? c)) (ops s))
    /\ (existsb (fun p => value p.1 =? c) (ops s) = false -> r = s).
Proof.
  intros Hs. unfold removeOpcodeRaw. destruct (Z.eqb_spec (zlen s) 0) as [E|E].
  { apply zlen_0_inv in E. subst s. by exists []. }
  by apply (removeLoop_filters s (fun o _ => o =? c)).
Qed.

Lemma removeOpcodeRaw_filters_witness :
  exists r, removeOpcodeRaw [z2b 0x51; z2b 0xab; z2b 0x01; z2b 0xab] OP_CODESEPARATOR = Ret r
    /\ (parses [z2b 0x51; z2b 0xab; z2b 0x01; z2b 0xab] = true -> parses r = true
        /\ ops r = List.filter (fun p => negb (value p.1 =? OP_CODESEPARATOR))
                     (ops [z2b 0x51; z2b 0xab; z2b 0x01; z2b 0xab]))
    /\ (existsb (fun p => value p.1 =? OP_CODESEPARATOR) (ops [z2b 0x51; z2b 0xab; z2b 0x01; z2b 0xab]) = false
        -> r = [z2b 0x51; z2b 0xab; z2b 0x01; z2b 0xab]).
Proof. apply removeOpcodeRaw_filters. unfold zlen. simpl. lia. Defined.

(** A script is push-only if and only if it parses and no opcode of it is
    above [OP_16]; an opcode above that bound is found also in front of a part
    that does not parse. *)
Theorem IsPushOnlyScript_iff (s : bytes) :
  zlen s < 2 ^ 31 ->
  IsPushOnlyScript s = Ret (forallb (fun p => value p.1 <=? OP_16) (ops s) && parses s).
Proof. apply IsPushOnlyScript_spec. Qed.

Lemma IsPushOnlyScript_iff_witness :
  IsPushOnlyScript [z2b 0x51; z2b 0x02; z2b 0xab] = Ret false.
Proof. rewrite (IsPushOnlyScript_iff [z2b 0x51; z2b 0x02; z2b 0xab]) by (unfold zlen; simpl; lia). reflexivity. Defined.

(** Removing the pushes that contain a signature keeps every other opcode
    of a script that parses, in order, and a script without such a push is
    returned as it is. *)
Theorem removeOpcodeByData_filters (s d : bytes) :
  zlen s < 2 ^ 31 -> d <> [] ->
  exists r, removeOpcodeByData s d = Ret r
    /\ (parses s = true -> parses r = true
        /\ ops r = List.filter (fun p => negb (isCanonicalPush (value p.1) (bytes_of p.2)
                                  && Contains (bytes_of p.2) d)) (ops s))
    /\ (existsb (fun p => isCanonicalPush (value p.1) (bytes_of p.2) && Contains (bytes_of p.2) d)
          (ops s) = false -> r = s).
Proof.
  intros Hs Hd. unfold removeOpcodeByData. rewrite (proj2 (Z.eqb_neq (zlen d) 0))
    by (intros ?%zlen_0_inv; done). rewrite orb_false_r.
  destruct (Z.eqb_spec (zlen s) 0) as [E|E].
  { apply zlen_0_inv in E. subst s. by exists []. }
  by apply (removeLoop_filters s (fun o e => isCanonicalPush o (bytes_of e) && Contains (bytes_of e) d)).
Qed.

Lemma removeOpcodeByData_filters_witness :
  exists r, removeOpcodeByData [z2b 0x02; z2b 5; z2b 6; z2b 0xac] [z2b 6] = Ret r
    /\ r = [z2b 0xac].
Proof.
  destruct (removeOpcodeByData_filters [z2b 0x02; z2b 5; z2b 6; z2b 0xac] [z2b 6])
    as (r & H1 & _); [unfold zlen; simpl; lia|discriminate|].
  exists r. split; [exact H1|]. vm_compute in H1. injection H1 as <-. reflexivity.
Defined.

(** Counting signature operations always succeeds, on scripts that do not
    parse too; the precise count never exceeds the quick one, which is at most
    twenty per byte of the script. *)
Theorem countSigOpsV0_bounds (s : bytes) :
  zlen s < 2 ^ 31 ->
  exists n m, countSigOpsV0 s true = Ret n /\ GetSigOpCount s = Ret m
    /\ 0 <= n <= m /\ m <= MaxPubKeysPerMultiSig * zlen s.
Proof.
  intros Hs. unfold GetSigOpCount. rewrite !countSigOpsV0_spec by done. do 2 eexists.
  split_and!; [reflexivity..| | |];
    pose proof (sigops_of_bound (ops s) 0 0 OP_INVALIDOPCODE) as H; cbv zeta in H;
    pose proof (length_ops s); lia.
Qed.

Lemma countSigOpsV0_bounds_witness :
  exists n m, countSigOpsV0 [z2b 0x52; z2b 0xae; z2b 0xac] true = Ret n
    /\ GetSigOpCount [z2b 0x52; z2b 0xae; z2b 0xac] = Ret m
    /\ 0 <= n <= m /\ m <= MaxPubKeysPerMultiSig * zlen [z2b 0x52; z2b 0xae; z2b 0xac].
Proof. apply countSigOpsV0_bounds. unfold zlen. simpl. lia. Defined.
