(* ===== verification/ScriptBuilder.v ===== *)
(** Building scripts (src/thoughtd/txscript/scriptbuilder.go).

    The builder is a script and a sticky error; every method is a stateful call
    that leaves both as the code leaves them. *)

From S2P Require Import Prelude ScriptError ScriptNum Opcodes Tokenizer Script.

(** The only error a builder records. *)
Inductive BuildErr := ErrScriptNotCanonical.

Record ScriptBuilder := mkBuilder { b_script : bytes; b_err : option BuildErr }.

Notation BM := (M ScriptBuilder ErrorCode).

Definition NewScriptBuilder : ScriptBuilder := mkBuilder [] None.

Definition b_append (bs : bytes) (b : ScriptBuilder) : ScriptBuilder :=
  mkBuilder (b_script b ++ bs) (b_err b).
Definition b_fail (b : ScriptBuilder) : ScriptBuilder :=
  mkBuilder (b_script b) (Some ErrScriptNotCanonical).

(** [if b.err != nil { return b }] *)
Definition unless_err (m : BM unit) : BM unit :=
  b <- getM ;;
  match b_err b with Some _ => retM tt | None => m end.

Definition AddOp (opcode : Z) : BM unit :=
  unless_err (
    b <- getM ;;
    if zlen (b_script b) + 1 >? MaxScriptSize then modifyM b_fail
    else modifyM (b_append [z2b opcode])).

Definition AddOps (opcodes : bytes) : BM unit :=
  unless_err (
    b <- getM ;;
    if zlen (b_script b) + zlen opcodes >? MaxScriptSize then modifyM b_fail
    else modifyM (b_append opcodes)).

(** [data[0]] of data whose length has been compared with 1. *)
Definition first_byte (data : bytes) : Z := match data with b :: _ => b2z b | [] => 0 end.

Definition canonicalDataSize (data : bytes) : Z :=
  let dataLen := zlen data in
  if dataLen =? 0 then 1
  else if (dataLen =? 1) && (first_byte data <=? 16) then 1
  else if (dataLen =? 1) && (first_byte data =? 0x81) then 1
  else if dataLen <? OP_PUSHDATA1 then 1 + dataLen
  else if dataLen <=? 0xff then 2 + dataLen
  else if dataLen <=? 0xffff then 3 + dataLen
  else 5 + dataLen.

Definition addData (data : bytes) : BM unit :=
  let dataLen := zlen data in
  if (dataLen =? 0) || ((dataLen =? 1) && (first_byte data =? 0)) then
    modifyM (b_append [z2b OP_0])
  else if (dataLen =? 1) && (first_byte data <=? 16) then
    modifyM (b_append [z2b (u8 ((OP_1 - 1) + first_byte data))])
  else if (dataLen =? 1) && (first_byte data =? 0x81) then
    modifyM (b_append [z2b OP_1NEGATE])
  else
    (if dataLen <? OP_PUSHDATA1 then
       modifyM (b_append [z2b ((OP_DATA_1 - 1) + dataLen)])
     else if dataLen <=? 0xff then
       modifyM (b_append [z2b OP_PUSHDATA1; z2b dataLen])
     else if dataLen <=? 0xffff then
       let buf := le_bytes 2 (u16 dataLen) in
       modifyM (b_append [z2b OP_PUSHDATA2]) ;; modifyM (b_append buf)
     else
       let buf := le_bytes 4 (u32 dataLen) in
       modifyM (b_append [z2b OP_PUSHDATA4]) ;; modifyM (b_append buf)) ;;
    modifyM (b_append data).

Definition AddFullData (data : bytes) : BM unit := unless_err (addData data).

Definition AddData (data : bytes) : BM unit :=
  unless_err (
    b <- getM ;;
    let dataSize := canonicalDataSize data in
    if zlen (b_script b) + dataSize >? MaxScriptSize then modifyM b_fail
    else if zlen data >? MaxScriptElementSize then modifyM b_fail
    else addData data).

Definition AddInt64 (val : Z) : BM unit :=
  unless_err (
    b <- getM ;;
    if zlen (b_script b) + 1 >? MaxScriptSize then modifyM b_fail
    else if val =? 0 then modifyM (b_append [z2b OP_0])
    else if (val =? -1) || ((val >=? 1) && (val <=? 16)) then
      modifyM (b_append [z2b ((OP_1 - 1) + val)])
    else
      bs <- liftO (Bytes val) ;; AddData bs).

Definition Reset : BM unit := modifyM (fun _ => mkBuilder [] None).

Definition Script_ (b : ScriptBuilder) : bytes * option BuildErr := (b_script b, b_err b).

(** Run a chain of builder calls from [NewScriptBuilder()] and take the result
    of [Script()]; an error of the builder is [Fail]. *)
Definition build (m : BM unit) : outcome BuildErr bytes :=
  match m NewScriptBuilder with
  | (Ret _, b) => match b_err b with None => Ret (b_script b) | Some e => Fail e end
  | (NoFuel, _) => NoFuel
  | (_, _) => Crash
  end.

(** ** What a push puts on the stack *)

(** The bytes the engine pushes for a push opcode. *)
Definition push_value (p : opcode * option bytes) : option bytes :=
  match p.2 with
  | Some d => Some d
  | None =>
      let o := value p.1 in
      if o =? OP_0 then Some []
      else if o =? OP_1NEGATE then Some [z2b 0x81]
      else if (OP_1 <=? o) && (o <=? OP_16) then Some [z2b (o - (OP_1 - 1))]
      else None
  end.

(** The bytes [addData] appends. *)
Definition push_bytes (data : bytes) : bytes :=
  let n := zlen data in
  if (n =? 0) || ((n =? 1) && (first_byte data =? 0)) then [z2b OP_0]
  else if (n =? 1) && (first_byte data <=? 16) then [z2b ((OP_1 - 1) + first_byte data)]
  else if (n =? 1) && (first_byte data =? 0x81) then [z2b OP_1NEGATE]
  else if n <? OP_PUSHDATA1 then z2b n :: data
  else if n <=? 0xff then z2b OP_PUSHDATA1 :: le_bytes 1 n ++ data
  else if n <=? 0xffff then z2b OP_PUSHDATA2 :: le_bytes 2 n ++ data
  else z2b OP_PUSHDATA4 :: le_bytes 4 n ++ data.

#[local] Opaque le_bytes.

Lemma b_append_app b x y : b_append y (b_append x b) = b_append (x ++ y) b.
Proof. unfold b_append. simpl. by rewrite <- app_assoc. Qed.

Lemma addData_appends data b :
  zlen data < 2 ^ 32 -> addData data b = (Ret tt, b_append (push_bytes data) b).
Proof.
  intros Hl. pose proof (zlen_nonneg data). unfold addData, push_bytes. cbv zeta.
  repeat (case_match; zbool); runM; rewrite ?b_append_app; try done.
  - do 3 f_equal. unfold u8. apply (inj b2z). rewrite !b2z_z2b. by rewrite Zmod_mod.
  - by rewrite u16_id by lia.
  - by rewrite u32_id by lia.
Qed.

Lemma zlen_push_bytes data : zlen (push_bytes data) = canonicalDataSize data.
Proof.
  unfold push_bytes, canonicalDataSize. cbv zeta. pose proof (zlen_nonneg data).
  destruct (Z.eqb_spec (zlen data) 0); [done|]. cbn [orb].
  destruct (Z.eqb_spec (zlen data) 1); cbn [andb].
  - assert (0 <= first_byte data) by (unfold first_byte; case_match; [done|apply b2z_range]).
    destruct (Z.eqb_spec (first_byte data) 0); [by ztest|].
    destruct (first_byte data <=? 16); [done|]. destruct (first_byte data =? 129); [done|].
    ztest. rewrite zlen_cons. lia.
  - repeat case_match; zbool; autorewrite with zlen; lia.
Qed.

(** The data that an [AddData] of [data] makes the engine push. *)
Definition pushed (data : bytes) : bytes := if bool_decide (data = [z2b 0]) then [] else data.

Lemma parse_data_op b w n data rest :
  op_length (opcode_at b) <> 1 ->
  (if op_length (opcode_at b) <? 0 then Z.to_nat (- op_length (opcode_at b)) else 0%nat) = length w ->
  (if op_length (opcode_at b) <? 0 then le_val w else op_length (opcode_at b) - 1) = n ->
  n = zlen data ->
  parse_op ((b :: w ++ data) ++ rest) = Some (opcode_at b, Some data, rest).
Proof.
  intros H1 Hw Hn Hd. unfold parse_op. simpl. cbv zeta.
  rewrite (proj2 (Z.eqb_neq _ 1)) by done. rewrite Hw, <- app_assoc.
  rewrite take_app_length, drop_app_length.
  rewrite (proj2 (Nat.ltb_ge _ _)) by (rewrite length_app; lia). rewrite Hn.
  rewrite (proj2 (Z.ltb_ge _ _)) by (rewrite zlen_app; pose proof (zlen_nonneg rest); lia).
  by rewrite Hd, zlen_to_nat, take_app_length, drop_app_length.
Qed.

Lemma z2b_small z b : b2z b = z -> z2b z = b.
Proof. intros <-. apply z2b_b2z. Qed.

Lemma zlen_1_inv {A} (l : list A) : zlen l = 1 -> exists x, l = [x].
Proof.
  destruct l as [|x [|y l]]; [done|by exists x|]. rewrite !zlen_cons.
  pose proof (zlen_nonneg l). lia.
Qed.

Lemma parse_direct_push data rest :
  1 <= zlen data < OP_PUSHDATA1 ->
  parse_op ((z2b (zlen data) :: data) ++ rest)
    = Some (opcode_at (z2b (zlen data)), Some data, rest)
  /\ value (opcode_at (z2b (zlen data))) = zlen data.
Proof.
  intros Hn. assert (b2z (z2b (zlen data)) = zlen data) as Hb by (rewrite b2z_z2b, Z.mod_small; lia).
  assert (op_length (opcode_at (z2b (zlen data))) = zlen data + 1) as Hl
    by (rewrite opcode_at_length, Hb; by ztest).
  split; [|by rewrite opcode_at_value].
  apply (parse_data_op _ [] (zlen data)); rewrite ?Hl; ztest; try done; lia.
Qed.

(** The three forms with an explicit length. *)
Lemma parse_long_push data rest :
  OP_PUSHDATA1 <= zlen data < 2 ^ 32 ->
  exists b, parse_op (push_bytes data ++ rest) = Some (opcode_at b, Some data, rest)
    /\ isCanonicalPush (value (opcode_at b)) data = true.
Proof.
  intros Hn. unfold push_bytes. cbv zeta. ztest. cbn [andb orb].
  destruct (Z.leb_spec (zlen data) 0xff); [|destruct (Z.leb_spec (zlen data) 0xffff)].
  - exists (z2b OP_PUSHDATA1). split.
    + apply (parse_data_op _ _ (zlen data)); [done|by rewrite length_le_bytes| |done].
      change (op_length (opcode_at (z2b 76)) <? 0) with true. cbv iota.
      rewrite le_val_le_bytes. apply Z.mod_small. lia.
    + unfold isCanonicalPush. change (value (opcode_at (z2b 76))) with 76. simpl. by ztest.
  - exists (z2b OP_PUSHDATA2). split.
    + apply (parse_data_op _ _ (zlen data)); [done|by rewrite length_le_bytes| |done].
      change (op_length (opcode_at (z2b 77)) <? 0) with true. cbv iota.
      rewrite le_val_le_bytes. apply Z.mod_small. lia.
    + unfold isCanonicalPush. change (value (opcode_at (z2b 77))) with 77. simpl. by ztest.
  - exists (z2b OP_PUSHDATA4). split.
    + apply (parse_data_op _ _ (zlen data)); [done|by rewrite length_le_bytes| |done].
      change (op_length (opcode_at (z2b 78)) <? 0) with true. cbv iota.
      rewrite le_val_le_bytes. apply Z.mod_small. lia.
    + unfold isCanonicalPush. change (value (opcode_at (z2b 78))) with 78. simpl. by ztest.
Qed.

(** The one-byte strings: the small integers have opcodes of their own. *)
Lemma parse_single_push x rest :
  exists o d, parse_op (push_bytes [x] ++ rest) = Some (o, d, rest)
    /\ push_value (o, d) = Some (pushed [x]) /\ isCanonicalPush (value o) (bytes_of d) = true.
Proof.
  destruct (decide (push_bytes [x] = z2b 1 :: [x])) as [E|E].
  - destruct (parse_direct_push [x] rest) as [P V]; [done|]. change (zlen [x]) with 1 in *.
    exists (opcode_at (z2b 1)), (Some [x]). rewrite E. split; [done|].
    clear -E. destruct x; first [discriminate E | split; reflexivity].
  - destruct x; first [by destruct E | do 2 eexists; (split; [reflexivity|split; reflexivity])].
Qed.

Lemma parse_push data rest :
  zlen data < 2 ^ 32 ->
  exists o d, parse_op (push_bytes data ++ rest) = Some (o, d, rest)
    /\ push_value (o, d) = Some (pushed data) /\ isCanonicalPush (value o) (bytes_of d) = true.
Proof.
  intros Hn. pose proof (zlen_nonneg data).
  destruct (Z.eq_dec (zlen data) 0) as [H0|H0].
  { apply zlen_0_inv in H0. subst data. do 2 eexists. split; [reflexivity|]. by split. }
  destruct (Z.eq_dec (zlen data) 1) as [H1|H1].
  { apply zlen_1_inv in H1 as [x ->]. apply parse_single_push. }
  assert (pushed data = data) as Hp.
  { unfold pushed. rewrite bool_decide_false; [done|]. by intros ->. }
  destruct (Z.ltb_spec (zlen data) OP_PUSHDATA1) as [H2|H2].
  - destruct (parse_direct_push data rest) as [E V]; [lia|].
    exists (opcode_at (z2b (zlen data))), (Some data). split_and!; [|by rewrite Hp|].
    + rewrite <- E. f_equal. unfold push_bytes. cbv zeta. ztest. cbn [andb orb]. done.
    + rewrite V. unfold isCanonicalPush. cbn [bytes_of]. ztest.
      by rewrite ?andb_false_r; cbn [andb].
  - destruct (parse_long_push data rest) as (b & E & C); [lia|].
    exists (opcode_at b), (Some data). by rewrite Hp.
Qed.

(** ** Building and parsing *)

Lemma ops_snoc s data :
  parses s = true -> zlen data < 2 ^ 32 ->
  exists p, ops (s ++ push_bytes data) = ops s ++ [p] /\ parses (s ++ push_bytes data) = true
    /\ push_value p = Some (pushed data) /\ isCanonicalPush (value p.1) (bytes_of p.2) = true.
Proof.
  intros Hs Hd. destruct (parse_push data [] Hd) as (o & d & Hp & Hv & Hc).
  destruct (ops_partition s) as (rest & E & Hr). assert (rest = []) as -> by (by apply Hr).
  rewrite app_nil_r in *.
  pose proof (parse_op_app _ _ _ _ Hp) as Hb. rewrite app_nil_r in Hb.
  assert (s ++ push_bytes data = unparse (ops s ++ [(o, d)])) as ->.
  { rewrite unparse_app, <- E, Hb. unfold unparse. cbn [map concat fst snd]. by rewrite app_nil_r. }
  destruct (ops_unparse (ops s ++ [(o, d)])) as [H1 H2].
  { apply Forall_app. split; [apply ops_wf|]. constructor; [|constructor].
    exists []. cbn [fst snd]. by rewrite app_nil_r, <- Hb. }
  exists (o, d). by rewrite H1.
Qed.

Lemma AddData_appends data b :
  b_err b = None -> zlen (b_script b) + canonicalDataSize data <= MaxScriptSize ->
  zlen data <= MaxScriptElementSize ->
  AddData data b = (Ret tt, b_append (push_bytes data) b).
Proof.
  intros He H1 H2. unfold AddData, unless_err. runM. rewrite He. ztest.
  apply addData_appends. lia.
Qed.

Lemma AddData_refuses data b :
  b_err b = None ->
  zlen (b_script b) + canonicalDataSize data > MaxScriptSize \/ zlen data > MaxScriptElementSize ->
  AddData data b = (Ret tt, b_fail b).
Proof.
  intros He H. unfold AddData, unless_err. runM. rewrite He, !Z.gtb_ltb.
  destruct (Z.ltb_spec MaxScriptSize (zlen (b_script b) + canonicalDataSize data)); [done|].
  rewrite (proj2 (Z.ltb_lt _ _)) by lia. done.
Qed.

Definition builder_ok (b : ScriptBuilder) : Prop :=
  b_err b = None /\ parses (b_script b) = true /\ zlen (b_script b) <= MaxScriptSize.

Lemma AddOp_appends op b :
  b_err b = None -> zlen (b_script b) < MaxScriptSize ->
  AddOp op b = (Ret tt, b_append [z2b op] b).
Proof. intros He Hl. unfold AddOp, unless_err. runM. rewrite He. by ztest. Qed.

(** ** Properties *)

(** [AddData] on a script that parses appends exactly one canonical push,
    which parses back and makes the engine push the data ([pushed]: the data
    itself, except that the single byte 0 becomes the empty string); the script
    stays within [MaxScriptSize]; and when the push would exceed a limit the
    script is unchanged and the error is recorded. *)
Theorem AddData_parses_back (data : bytes) (b : ScriptBuilder) :
  builder_ok b ->
  exists b', AddData data b = (Ret tt, b')
    /\ (if (MaxScriptSize <? zlen (b_script b) + canonicalDataSize data)
           || (MaxScriptElementSize <? zlen data)
        then b' = mkBuilder (b_script b) (Some ErrScriptNotCanonical)
        else builder_ok b' /\ zlen (b_script b') = zlen (b_script b) + canonicalDataSize data
             /\ exists p, ops (b_script b') = ops (b_script b) ++ [p]
                /\ push_value p = Some (pushed data)
                /\ isCanonicalPush (value p.1) (bytes_of p.2) = true).
Proof.
  intros (He & Hp & Hl).
  destruct (Z.ltb_spec MaxScriptSize (zlen (b_script b) + canonicalDataSize data));
    [|destruct (Z.ltb_spec MaxScriptElementSize (zlen data))]; cbn [orb].
  - rewrite AddData_refuses by auto with lia. by eexists.
  - rewrite AddData_refuses by auto with lia. by eexists.
  - rewrite AddData_appends by done. eexists. split; [reflexivity|].
    destruct (ops_snoc (b_script b) data Hp) as (p & H1 & H2 & H3 & H4); [lia|].
    unfold builder_ok. cbn [b_append b_script b_err]. rewrite zlen_app, zlen_push_bytes.
    split_and!; eauto; lia.
Qed.

Lemma AddData_parses_back_witness :
  exists b', AddData [z2b 0x11] (mkBuilder [z2b 0x76] None) = (Ret tt, b')
    /\ b_script b' = [z2b 0x76; z2b 0x01; z2b 0x11].
Proof.
  destruct (AddData_parses_back [z2b 0x11] (mkBuilder [z2b 0x76] None)) as (b' & H & _).
  { split_and!; [reflexivity|reflexivity|unfold zlen; simpl; lia]. }
  exists b'. split; [exact H|]. vm_compute in H. injection H as <-. reflexivity.
Defined.

(** [AddInt64] of any number but the least [int64] appends one opcode that
    makes the engine push the minimal encoding of the number, and of the least
    one it panics. *)
Theorem AddInt64_parses_back (val : Z) (b : ScriptBuilder) :
  builder_ok b -> zlen (b_script b) + 10 <= MaxScriptSize -> - 2 ^ 63 <= val < 2 ^ 63 ->
  match AddInt64 val b with
  | (Ret _, b') => builder_ok b' /\ exists p v, ops (b_script b') = ops (b_script b) ++ [p]
      /\ push_value p = Some v /\ Bytes val = Ret v /\ num_val v = val
  | (Crash, _) => val = - 2 ^ 63
  | _ => False
  end.
Proof.
  intros (He & Hp & Hl) Hroom Hv.
  destruct (Z.eq_dec val (- 2 ^ 63)) as [->|Hne].
  { unfold AddInt64, unless_err. runM. rewrite He. by ztest. }
  destruct (Bytes_spec val) as (v & Hb & Hm & Hval); [lia|].
  assert (pushed v = v) as Hpv.
  { unfold pushed. case_bool_decide as E; [|done]. subst v. by vm_compute in Hm; destruct Hm. }
  assert (zlen v <= 9) as Hv9.
  { apply (minimal_len v 9); [lia|done|]. rewrite Hval. change (2 ^ (8 * 9 - 1)) with (2 ^ 71). lia. }
  assert (canonicalDataSize v <= 10) as Hcs
    by (unfold canonicalDataSize; cbv zeta; repeat case_match; zbool; lia).
  assert (AddInt64 val b = (Ret tt, b_append (push_bytes v) b)) as ->.
  { unfold AddInt64, unless_err. runM. rewrite He. ztest.
    destruct (Z.eqb_spec val 0) as [->|H0]; [by injection Hb as <-|].
    destruct ((val =? -1) || ((1 <=? val) && (val <=? 16))) eqn:Es.
    - assert (val = -1 \/ 1 <= val <= 16) as Hc.
      { apply orb_prop in Es as [?|?]; zbool; lia. }
      assert (In val [-1; 1; 2; 3; 4; 5; 6; 7; 8; 9; 10; 11; 12; 13; 14; 15; 16]) as Hin
        by (simpl; lia).
      clear -Hb Hin. simpl in Hin.
      repeat (destruct Hin as [<-|Hin]; [injection Hb as <-; reflexivity|]). done.
    - rewrite Hb. cbn [fst snd]. apply AddData_appends; [done|lia|lia]. }
  destruct (ops_snoc (b_script b) v Hp) as (p & H1 & H2 & H3 & H4); [lia|].
  unfold builder_ok. cbn [b_append b_script b_err]. rewrite zlen_app, zlen_push_bytes.
  rewrite Hpv in H3. split_and!; try done; [lia|]. by exists p, v.
Qed.

Lemma AddInt64_parses_back_witness :
  match AddInt64 1000 NewScriptBuilder with (Ret _, b') => builder_ok b' | _ => False end.
Proof.
  pose proof (AddInt64_parses_back 1000 NewScriptBuilder
    ltac:(split_and!; [reflexivity|reflexivity|unfold zlen; simpl; lia])
    ltac:(unfold zlen; simpl; lia) ltac:(lia)) as H.
  destruct (AddInt64 1000 NewScriptBuilder) as [[] b'] eqn:E; [apply H|exact H|discriminate E|exact H].
Defined.
