(* ===== verification/Standard.v ===== *)
(** Standard scripts (src/thoughtd/txscript/standard.go, and the functions of
    script.go that use them).

    The recognizers of the standard forms, the constructors of the same forms
    and the classification.  A slice that may be nil is an option where nil is
    tested. *)

From S2P Require Import Prelude ScriptError ScriptNum Opcodes Tokenizer Script ScriptBuilder.

Notation MaxDataCarrierSize := 80 (only parsing).

Inductive ScriptClass :=
  | NonStandardTy | PubKeyTy | PubKeyHashTy | ScriptHashTy | MultiSigTy | NullDataTy.

#[export] Instance ScriptClass_eq_dec : EqDecision ScriptClass.
Proof. solve_decision. Defined.

Definition scriptClassToName : list string :=
  ["nonstandard"; "pubkey"; "pubkeyhash"; "scripthash"; "multisig"; "nulldata"]%string.

(** [ScriptClass] is a byte: [String] takes any value of it. *)
Definition ScriptClass_String (t : Z) : outcome ErrorCode string :=
  if (t >? zlen scriptClassToName) || (t <? 0) then Ret "Invalid"%string
  else orCrash (znth scriptClassToName t).

Definition class_value (c : ScriptClass) : Z :=
  match c with
  | NonStandardTy => 0 | PubKeyTy => 1 | PubKeyHashTy => 2
  | ScriptHashTy => 3 | MultiSigTy => 4 | NullDataTy => 5
  end.

(** The loop of [NewScriptClass]: the index of the name. *)
Fixpoint class_index (i : Z) (names : list string) (name : string) : option Z :=
  match names with
  | [] => None
  | n :: names => if String.eqb n name then Some i else class_index (i + 1) names name
  end.
Definition NewScriptClass (name : string) : option Z := class_index 0 scriptClassToName name.

(** ** Recognizers *)

(** [script[i] == c] for an index that the length test has put in range. *)
Definition byte_is (script : bytes) (i c : Z) : bool :=
  match znth script i with Some b => b2z b =? c | None => false end.

Definition extractCompressedPubKey (script : bytes) : option bytes :=
  if (zlen script =? 35) && byte_is script 34 OP_CHECKSIG && byte_is script 0 OP_DATA_33
     && (byte_is script 1 0x02 || byte_is script 1 0x03)
  then zslice script 1 34 else None.

Definition extractUncompressedPubKey (script : bytes) : option bytes :=
  if (zlen script =? 67) && byte_is script 66 OP_CHECKSIG && byte_is script 0 OP_DATA_65
     && (byte_is script 1 0x04 || byte_is script 1 0x06 || byte_is script 1 0x07)
  then zslice script 1 66 else None.

Definition extractPubKey (script : bytes) : option bytes :=
  match extractCompressedPubKey script with
  | Some pubKey => Some pubKey
  | None => extractUncompressedPubKey script
  end.

Definition non_nil {A} (o : option A) : bool := match o with Some _ => true | None => false end.

Definition isPubKeyScript (script : bytes) : bool := non_nil (extractPubKey script).

Definition extractPubKeyHash (script : bytes) : option bytes :=
  if (zlen script =? 25) && byte_is script 0 OP_DUP && byte_is script 1 OP_HASH160
     && byte_is script 2 OP_DATA_20 && byte_is script 23 OP_EQUALVERIFY
     && byte_is script 24 OP_CHECKSIG
  then zslice script 3 23 else None.

Definition isPubKeyHashScript (script : bytes) : bool := non_nil (extractPubKeyHash script).

Definition extractScriptHash (script : bytes) : option bytes :=
  if (zlen script =? 23) && byte_is script 0 OP_HASH160 && byte_is script 1 OP_DATA_20
     && byte_is script 22 OP_EQUAL
  then zslice script 2 22 else None.

Definition isScriptHashScript (script : bytes) : bool := non_nil (extractScriptHash script).

(** src/thoughtd/txscript/engine.go *)
Definition isStrictPubKeyEncoding (pubKey : bytes) : bool :=
  if (zlen pubKey =? 33) && (byte_is pubKey 0 0x02 || byte_is pubKey 0 0x03) then true
  else if zlen pubKey =? 65 then
    byte_is pubKey 0 0x04 || byte_is pubKey 0 0x06 || byte_is pubKey 0 0x07
  else false.

Record multiSigDetails := mkDetails {
  requiredSigs : Z; numPubKeys : Z; pubKeys : list bytes; valid : bool }.

Definition noDetails : multiSigDetails := mkDetails 0 0 [] false.

(** The loop over the public keys; it breaks at the first small integer. *)
Definition multisigBody (extractPubKeys : bool) (t : ScriptTokenizer) (st : Z * list bytes) :
    outcome ErrorCode (Z * list bytes + (Z * list bytes) * ScriptTokenizer) :=
  let '(numPubKeys, pubKeys) := st in
  let! o := Opcode t in
  if isSmallInt o then Ret (inr (st, t)) else
  let data := bytes_of (Data t) in
  let numPubKeys := numPubKeys + 1 in
  if negb (isStrictPubKeyEncoding data) then Ret (inl (numPubKeys, pubKeys))
  else if extractPubKeys then Ret (inl (numPubKeys, pubKeys ++ [data]))
  else Ret (inl (numPubKeys, pubKeys)).

Definition extractMultisigScriptDetails (script : bytes) (extractPubKeys : bool) :
    outcome ErrorCode multiSigDetails :=
  if (zlen script <? 3) || negb (byte_is script (zlen script - 1) OP_CHECKMULTISIG)
  then Ret noDetails else
  let '(more, t) := Next (MakeScriptTokenizer script) in
  let! more := more in
  if negb more then Ret noDetails else
  let! o := Opcode t in
  if negb (isSmallInt o) then Ret noDetails else
  let requiredSigs := asSmallInt o in
  let! r := for_next (tok_fuel script) (multisigBody extractPubKeys) t (0, []) in
  let '((numPubKeys, pubKeys), t) := match r with inl x => x | inr x => x end in
  if Done t then Ret noDetails else
  let! o := Opcode t in
  if negb (isSmallInt o) || negb (asSmallInt o =? numPubKeys) then Ret noDetails else
  if negb (i32 (zlen (Tokenizer.script t)) - ByteIndex t =? 1) then Ret noDetails else
  Ret (mkDetails requiredSigs numPubKeys pubKeys true).

Definition isMultisigScript (script : bytes) : outcome ErrorCode bool :=
  let! details := extractMultisigScriptDetails script false in
  Ret (valid details).

Definition IsMultisigScript (script : bytes) : outcome ErrorCode bool := isMultisigScript script.

Definition IsMultisigSigScript (script : bytes) : outcome ErrorCode bool :=
  if (zlen script <? 4) || negb (byte_is script (zlen script - 1) OP_CHECKMULTISIG)
  then Ret false else
  let! possibleRedeemScript := finalOpcodeData script in
  match possibleRedeemScript with
  | None => Ret false
  | Some r => isMultisigScript r
  end.

Definition isNullDataScript (script : bytes) : outcome ErrorCode bool :=
  if (zlen script <? 1) || negb (byte_is script 0 OP_RETURN) then Ret false else
  if zlen script =? 1 then Ret true else
  let! rest := orCrash (zslice script 1 (zlen script)) in
  let '(more, t) := Next (MakeScriptTokenizer rest) in
  let! more := more in
  if negb (more && Done t) then Ret false else
  let! o := Opcode t in
  Ret ((isSmallInt o || (o <=? OP_PUSHDATA4))
       && (zlen (bytes_of (Data t)) <=? MaxDataCarrierSize)).

Definition typeOfScript (script : bytes) : outcome ErrorCode ScriptClass :=
  if isPubKeyScript script then Ret PubKeyTy
  else if isPubKeyHashScript script then Ret PubKeyHashTy
  else if isScriptHashScript script then Ret ScriptHashTy
  else
    let! multisig := isMultisigScript script in
    if multisig then Ret MultiSigTy else
    let! nulldata := isNullDataScript script in
    if nulldata then Ret NullDataTy else Ret NonStandardTy.

Definition GetScriptClass (script : bytes) : outcome ErrorCode ScriptClass := typeOfScript script.

Definition expectedInputs (script : bytes) (class : ScriptClass) : outcome ErrorCode Z :=
  match class with
  | PubKeyTy => Ret 1
  | PubKeyHashTy => Ret 2
  | ScriptHashTy => Ret 1
  | MultiSigTy => let! b := orCrash (znth script 0) in Ret (asSmallInt (b2z b) + 1)
  | NullDataTy | NonStandardTy => Ret (-1)
  end.

Record ScriptInfo := mkScriptInfo {
  PkScriptClass : ScriptClass; NumInputs : Z; ExpectedInputs : Z; SigOps : Z }.

Definition CalcScriptInfo (sigScript pkScript : bytes) (bip16 segwit : bool) :
    outcome ErrorCode ScriptInfo :=
  let! r := for_next (R := unit) (tok_fuel sigScript)
    (fun t numInputs => Ret (inl (numInputs + 1))) (MakeScriptTokenizer sigScript) 0 in
  match r with
  | inr _ => Crash
  | inl (numInputs, t) =>
      match Err t with
      | Some e => Fail e
      | None =>
          let! _ := checkScriptParses pkScript in
          let! pushOnly := IsPushOnlyScript sigScript in
          if negb pushOnly then Fail ErrNotPushOnly else
          let! class := typeOfScript pkScript in
          let! expected := expectedInputs pkScript class in
          if bool_decide (class = ScriptHashTy) && bip16 && negb segwit then
            let! redeem := finalOpcodeData sigScript in
            let redeemScript := bytes_of redeem in
            let! redeemClass := typeOfScript redeemScript in
            let! rsInputs := expectedInputs redeemScript redeemClass in
            let expected := if rsInputs =? -1 then -1 else expected + rsInputs in
            let! sigOps := countSigOpsV0 redeemScript true in
            Ret (mkScriptInfo class numInputs expected sigOps)
          else
            let! sigOps := countSigOpsV0 pkScript true in
            Ret (mkScriptInfo class numInputs expected sigOps)
      end
  end.

Definition CalcMultiSigStats (script : bytes) : outcome ErrorCode (Z * Z) :=
  let! details := extractMultisigScriptDetails script false in
  if negb (valid details) then Fail ErrNotMultisigScript
  else Ret (numPubKeys details, requiredSigs details).

(** src/thoughtd/txscript/script.go *)
Definition GetPreciseSigOpCount (scriptSig scriptPubKey : bytes) : outcome ErrorCode Z :=
  if negb (isScriptHashScript scriptPubKey) then countSigOpsV0 scriptPubKey true else
  if zlen scriptSig =? 0 then Ret 0 else
  let! pushOnly := IsPushOnlyScript scriptSig in
  if negb pushOnly then Ret 0 else
  let! redeemScript := finalOpcodeData scriptSig in
  if zlen (bytes_of redeemScript) =? 0 then Ret 0 else
  countSigOpsV0 (bytes_of redeemScript) true.

(** ** Constructors *)

Definition payToPubKeyHashScript (pubKeyHash : bytes) : outcome BuildErr bytes :=
  build (AddOp OP_DUP ;; AddOp OP_HASH160 ;; AddData pubKeyHash ;;
         AddOp OP_EQUALVERIFY ;; AddOp OP_CHECKSIG).

Definition payToScriptHashScript (scriptHash : bytes) : outcome BuildErr bytes :=
  build (AddOp OP_HASH160 ;; AddData scriptHash ;; AddOp OP_EQUAL).

Definition payToPubKeyScript (serializedPubKey : bytes) : outcome BuildErr bytes :=
  build (AddData serializedPubKey ;; AddOp OP_CHECKSIG).

(** The errors of the constructors: of the package, or of the builder. *)
Inductive StdErr := SErr (e : ErrorCode) | BErr (e : BuildErr).

Definition lift_build {A} (o : outcome BuildErr A) : outcome StdErr A :=
  match o with Ret a => Ret a | Fail e => Fail (BErr e) | Crash => Crash | NoFuel => NoFuel end.

Definition NullDataScript (data : bytes) : outcome StdErr bytes :=
  if zlen data >? MaxDataCarrierSize then Fail (SErr ErrTooMuchNullData)
  else lift_build (build (AddOp OP_RETURN ;; AddData data)).

(** The loop [for _, key := range pubkeys]. *)
Fixpoint addKeys (keys : list bytes) : BM unit :=
  match keys with
  | [] => retM tt
  | key :: keys => AddData key ;; addKeys keys
  end.

(** The keys are given by their [ScriptAddress()]. *)
Definition MultiSigScript (pubkeys : list bytes) (nrequired : Z) : outcome StdErr bytes :=
  if zlen pubkeys <? nrequired then Fail (SErr ErrTooManyRequiredSigs)
  else lift_build (build (
    AddInt64 nrequired ;; addKeys pubkeys ;; AddInt64 (zlen pubkeys) ;; AddOp OP_CHECKMULTISIG)).

Definition PushedData (script : bytes) : outcome ErrorCode (list bytes) :=
  let! r := for_next (R := unit) (tok_fuel script)
    (fun t data =>
       match Data t with
       | Some d => Ret (inl (data ++ [d]))
       | None =>
           let! o := Opcode t in
           if o =? OP_0 then Ret (inl (data ++ [[]])) else Ret (inl data)
       end) (MakeScriptTokenizer script) [] in
  match r with
  | inr _ => Crash
  | inl (data, t) => match Err t with Some e => Fail e | None => Ret data end
  end.

(** ** Recognizers and constructors agree *)

Definition p2pkh (h : bytes) : bytes :=
  [z2b OP_DUP; z2b OP_HASH160; z2b OP_DATA_20] ++ h ++ [z2b OP_EQUALVERIFY; z2b OP_CHECKSIG].
Definition p2sh (h : bytes) : bytes :=
  [z2b OP_HASH160; z2b OP_DATA_20] ++ h ++ [z2b OP_EQUAL].
Definition p2pk (k : bytes) : bytes := z2b (zlen k) :: k ++ [z2b OP_CHECKSIG].

(** A script of a fixed form is its prefix, a slice and its suffix. *)
Lemma zslice_middle {A} (s pre post : list A) a b k :
  zslice s a b = Some k -> zslice s 0 a = Some pre -> zslice s b (zlen s) = Some post ->
  s = pre ++ k ++ post.
Proof.
  intros Hk Hpre Hpost.
  apply zslice_inv in Hk as (Ha & Hb & _ & ->), Hpre as (_ & _ & _ & ->), Hpost as (_ & _ & _ & ->).
  rewrite Z.sub_0_r, drop_0.
  rewrite <- (take_drop (Z.to_nat a) s) at 1. f_equal.
  rewrite <- (take_drop (Z.to_nat (b - a)) (drop (Z.to_nat a) s)) at 1. f_equal.
  rewrite drop_drop. rewrite take_ge by (rewrite length_drop; unfold zlen in *; lia).
  f_equal. lia.
Qed.

(** The elements of a short slice. *)
Lemma zslice_2 {A} (s : list A) a x y :
  znth s a = Some x -> znth s (a + 1) = Some y -> zslice s a (a + 2) = Some [x; y].
Proof.
  intros Hx Hy. pose proof (znth_Some _ _ _ Hx). pose proof (znth_Some _ _ _ Hy).
  rewrite znth_lookup in Hx, Hy by lia. rewrite zslice_Some by lia.
  replace (Z.to_nat (a + 2 - a)) with 2%nat by lia. rewrite Z2Nat.inj_add in Hy by lia.
  rewrite (drop_S _ x) by done. simpl. f_equal. f_equal.
  rewrite (drop_S _ y); [done|]. rewrite <- Hy. f_equal. lia.
Qed.

Lemma zslice_1 {A} (s : list A) a x : znth s a = Some x -> zslice s a (a + 1) = Some [x].
Proof.
  intros Hx. pose proof (znth_Some _ _ _ Hx). rewrite znth_lookup in Hx by lia.
  rewrite zslice_Some by lia. replace (Z.to_nat (a + 1 - a)) with 1%nat by lia.
  rewrite (drop_S _ x) by done. done.
Qed.

Lemma zslice_cons {A} (s : list A) a b x k :
  znth s a = Some x -> zslice s (a + 1) b = Some k -> zslice s a b = Some (x :: k).
Proof.
  intros Hx Hk. pose proof (znth_Some _ _ _ Hx). apply zslice_inv in Hk as (H1 & H2 & _ & ->).
  rewrite znth_lookup in Hx by lia. rewrite zslice_Some by lia.
  rewrite (drop_S _ x) by done. replace (Z.to_nat (b - a)) with (S (Z.to_nat (b - (a + 1)))) by lia.
  replace (Z.to_nat (a + 1)) with (S (Z.to_nat a)) by lia. done.
Qed.

Lemma byte_is_znth s i c : byte_is s i c = true -> znth s i = Some (z2b c).
Proof.
  unfold byte_is. destruct (znth s i) as [b|]; [|done]. intros H%Z.eqb_eq. by rewrite <- H, z2b_b2z.
Qed.

(** The bytes a recognizer tests. *)
Ltac bytes_known :=
  repeat match goal with
  | H : byte_is _ _ _ = true |- _ => apply byte_is_znth in H
  | H : _ || _ = true |- _ => apply orb_prop in H; destruct H
  end.

(** A list of known length as its elements. *)
Ltac explode l H :=
  repeat (destruct l as [|? l]; [discriminate H|]);
  destruct l as [|? l];
  [|exfalso; repeat rewrite zlen_cons in H; pose proof (zlen_nonneg l); lia].

Lemma extractPubKeyHash_iff s h : extractPubKeyHash s = Some h <-> s = p2pkh h /\ zlen h = 20.
Proof.
  unfold extractPubKeyHash. split.
  - intros H. case_match eqn:E; [|done]. zbool. bytes_known.
    pose proof (zslice_inv _ _ _ _ H) as (_ & _ & Hl & _). split; [|lia].
    unfold p2pkh. eapply zslice_middle; [exact H| |].
    + apply zslice_cons; [done|]. by apply zslice_2.
    + replace (zlen s) with (23 + 2) by lia. by apply zslice_2.
  - intros [-> Hl]. explode h Hl. reflexivity.
Qed.

Lemma extractScriptHash_iff s h : extractScriptHash s = Some h <-> s = p2sh h /\ zlen h = 20.
Proof.
  unfold extractScriptHash. split.
  - intros H. case_match eqn:E; [|done]. zbool. bytes_known.
    pose proof (zslice_inv _ _ _ _ H) as (_ & _ & Hl & _). split; [|lia].
    unfold p2sh. eapply zslice_middle; [exact H| |].
    + by apply zslice_2.
    + replace (zlen s) with (22 + 1) by lia. by apply zslice_1.
  - intros [-> Hl]. explode h Hl. reflexivity.
Qed.

Lemma znth_slice {A} (s k : list A) a b i :
  zslice s a b = Some k -> 0 <= i < b - a -> znth k i = znth s (a + i).
Proof.
  intros (H1 & H2 & _ & ->)%zslice_inv Hi. rewrite !znth_lookup by lia.
  rewrite lookup_take_lt by lia. by rewrite lookup_drop, Z2Nat.inj_add by lia.
Qed.

(** The keys of a pay-to-pubkey script are those of strict encoding. *)
Lemma extractPubKey_iff s k : extractPubKey s = Some k <-> s = p2pk k /\ isStrictPubKeyEncoding k = true.
Proof.
  unfold extractPubKey, extractCompressedPubKey, extractUncompressedPubKey. split.
  - intros H.
    assert (forall n o c, zlen s = n -> n = 35 \/ n = 67 ->
      znth s (n - 1) = Some (z2b OP_CHECKSIG) -> znth s 0 = Some (z2b (n - 2)) ->
      znth s 1 = Some (z2b c) -> o = zslice s 1 (n - 1) -> o = Some k ->
      c = 2 \/ c = 3 /\ n = 35 \/ n = 67 /\ (c = 4 \/ c = 6 \/ c = 7) -> (c = 2 -> n = 35) ->
      s = p2pk k /\ isStrictPubKeyEncoding k = true) as Hgen.
    { intros n o c Hn Hn' H1 H2 H3 -> Ho Hc Hc2.
      pose proof (zslice_inv _ _ _ _ Ho) as (_ & _ & Hl & _).
      pose proof (znth_slice s k 1 (n - 1) 0 Ho ltac:(lia)) as Hk. change (1 + 0) with 1 in Hk.
      rewrite H3 in Hk. split.
      - unfold p2pk. replace (zlen k) with (n - 2) by lia.
        apply (zslice_middle s [z2b (n - 2)] [z2b OP_CHECKSIG] 1 (n - 1) k Ho).
        + by apply zslice_1.
        + rewrite Hn. replace n with (n - 1 + 1) at 2 by lia. by apply zslice_1.
      - unfold isStrictPubKeyEncoding, byte_is. rewrite Hk.
        replace (zlen k) with (n - 2) by lia.
        destruct Hc as [->|[[-> ->]|[-> [->|[->| ->]]]]]; try reflexivity.
        rewrite (Hc2 eq_refl). reflexivity. }
    destruct ((zlen s =? 35) && _ && _ && _) eqn:E1.
    + zbool. rewrite zslice_Some in H by lia. rewrite <- zslice_Some in H by lia.
      bytes_known; [eapply (Hgen 35 _ 2)|eapply (Hgen 35 _ 3)]; try done; tauto.
    + destruct ((zlen s =? 67) && _ && _ && _) eqn:E2; [|done]. zbool. bytes_known;
        [eapply (Hgen 67 _ 4)|eapply (Hgen 67 _ 6)|eapply (Hgen 67 _ 7)]; try done; tauto.
  - intros [-> Hk]. unfold isStrictPubKeyEncoding in Hk.
    destruct (Z.eqb_spec (zlen k) 33) as [Hl|Hl].
    + destruct (_ && _) eqn:Hb in Hk; [|by rewrite Hl in Hk].
      explode k Hl. simpl in Hb. revert Hb. destruct b; try discriminate; reflexivity.
    + cbn [andb] in Hk. destruct (Z.eqb_spec (zlen k) 65) as [Hl'|]; [|done].
      explode k Hl'. revert Hk. destruct b; try discriminate; reflexivity.
Qed.

(** ** Constructors *)

Lemma push_bytes_direct d : 2 <= zlen d < OP_PUSHDATA1 -> push_bytes d = z2b (zlen d) :: d.
Proof. intros H. unfold push_bytes. cbv zeta. ztest. reflexivity. Qed.

Lemma canonicalDataSize_le d : zlen d <= MaxScriptElementSize -> 1 <= canonicalDataSize d <= zlen d + 3.
Proof.
  intros H. pose proof (zlen_nonneg d). unfold canonicalDataSize. cbv zeta.
  repeat case_match; zbool; lia.
Qed.

(** Builder calls that have room append what they should. *)
Lemma AddOp_step op (m : BM unit) s :
  zlen s < MaxScriptSize ->
  (AddOp op ;; m) (mkBuilder s None) = m (mkBuilder (s ++ [z2b op]) None).
Proof. intros H. by erewrite bindM_step by (by apply AddOp_appends). Qed.

Lemma AddData_step d (m : BM unit) s :
  zlen s + zlen d + 3 <= MaxScriptSize -> zlen d <= MaxScriptElementSize ->
  (AddData d ;; m) (mkBuilder s None) = m (mkBuilder (s ++ push_bytes d) None).
Proof.
  intros H1 H2. pose proof (canonicalDataSize_le d H2).
  by erewrite bindM_step by (apply AddData_appends; simpl; [done|lia|lia]).
Qed.

Lemma AddOp_last op s :
  zlen s < MaxScriptSize ->
  AddOp op (mkBuilder s None) = (Ret tt, mkBuilder (s ++ [z2b op]) None).
Proof. intros H. by rewrite AddOp_appends. Qed.

Lemma payToPubKeyHashScript_eq h : zlen h = 20 -> payToPubKeyHashScript h = Ret (p2pkh h).
Proof.
  intros Hh. unfold payToPubKeyHashScript, build, NewScriptBuilder.
  rewrite !AddOp_step by (unfold zlen; simpl; lia). rewrite AddData_step by (unfold zlen in *; simpl; lia).
  rewrite push_bytes_direct by lia. rewrite Hh.
  rewrite AddOp_step by (rewrite !zlen_app, zlen_cons; unfold zlen in *; simpl; lia).
  rewrite AddOp_last by (rewrite !zlen_app, zlen_cons; unfold zlen in *; simpl; lia).
  simpl. unfold p2pkh. by rewrite <- !app_assoc.
Qed.

Lemma payToScriptHashScript_eq h : zlen h = 20 -> payToScriptHashScript h = Ret (p2sh h).
Proof.
  intros Hh. unfold payToScriptHashScript, build, NewScriptBuilder.
  rewrite !AddOp_step by (unfold zlen; simpl; lia). rewrite AddData_step by (unfold zlen in *; simpl; lia).
  rewrite push_bytes_direct by lia. rewrite Hh.
  rewrite AddOp_last by (rewrite !zlen_app, zlen_cons; unfold zlen in *; simpl; lia).
  simpl. unfold p2sh. done.
Qed.

Lemma strict_len k : isStrictPubKeyEncoding k = true -> zlen k = 33 \/ zlen k = 65.
Proof.
  unfold isStrictPubKeyEncoding.
  destruct (Z.eqb_spec (zlen k) 33), (Z.eqb_spec (zlen k) 65); cbn [andb]; auto; done.
Qed.

Lemma payToPubKeyScript_eq k :
  isStrictPubKeyEncoding k = true -> payToPubKeyScript k = Ret (p2pk k).
Proof.
  intros Hk%strict_len. unfold payToPubKeyScript, build, NewScriptBuilder.
  rewrite AddData_step by (unfold zlen in *; simpl; lia). rewrite push_bytes_direct by lia.
  rewrite AddOp_last by (rewrite !zlen_app, zlen_cons; unfold zlen in *; simpl; lia). done.
Qed.

(** ** The first byte decides the class *)

Lemma non_nil_Some {A} (o : option A) : non_nil o = true <-> exists x, o = Some x.
Proof. destruct o; naive_solver. Qed.

Lemma Next_first b rest :
  zlen (b :: rest) < 2 ^ 31 ->
  match Next (MakeScriptTokenizer (b :: rest)) with
  | (Ret true, t) => op t = Some (opcode_at b) /\ tok_ok t /\ err t = None
      /\ script t = b :: rest
  | (Ret false, _) => parse_op (b :: rest) = None
  | _ => False
  end.
Proof.
  intros Hl. rewrite Next_spec by (by try apply make_ok). unfold next_ref. rewrite remaining_make.
  destruct (parse_op (b :: rest)) as [[[o d] r]|] eqn:E; [|done].
  pose proof E as E'. rewrite <- (remaining_make (b :: rest)) in E'.
  destruct (suffix_remaining _ _ _ _ (make_ok _ Hl) E') as (Hok & _).
  split_and!; try done. simpl. f_equal. unfold parse_op in E. revert E. cbv zeta.
  repeat case_match; congruence.
Qed.

(** Every opcode of the multisig loop is inspected without a nil dereference. *)
Lemma multisig_loop_total extract t a :
  tok_ok t -> err t = None -> op t <> None ->
  exists st t', (for_next (tok_fuel (script t)) (multisigBody extract) t a = Ret (inl (st, t'))
     \/ for_next (tok_fuel (script t)) (multisigBody extract) t a = Ret (inr (st, t')))
    /\ op t' <> None.
Proof.
  intros Hok Herr Hop.
  assert (length (remaining t) <= length (script t))%nat as Hlen
    by (unfold remaining; rewrite length_drop; lia).
  rewrite (for_next_spec _ _ (length (remaining t))) by (done || (unfold tok_fuel; lia)).
  destruct (parse_all (length (remaining t)) (remaining t)) as [l ok]. clear Hok Herr Hlen.
  revert t a Hop. induction l as [|[[o d] rest] l IH]; intros t [n keys] Hop.
  - simpl. exists (n, keys), (if ok then t else set_err ErrMalformedPush (bump t)).
    split; [by left|]. by destruct ok.
  - cbn [fold_parsed]. set (t1 := tok_after t (o, d, rest)).
    assert (op t1 <> None) as Hop1 by done.
    unfold multisigBody at 1 3. change (Opcode t1) with (Ret (E := ErrorCode) (value o)). cbn [bindO].
    destruct (isSmallInt (value o)); cbn [bindO]; [exists (n, keys), t1; auto|].
    destruct (negb _); cbn [bindO]; [by apply IH|]. by destruct extract; cbn [bindO]; apply IH.
Qed.

Lemma multisig_total s extract :
  zlen s < 2 ^ 31 ->
  exists d, extractMultisigScriptDetails s extract = Ret d
    /\ (valid d = true -> exists b rest, s = b :: rest /\ isSmallInt (b2z b) = true).
Proof.
  intros Hl. unfold extractMultisigScriptDetails.
  destruct (_ || _); [by exists noDetails|].
  destruct s as [|b rest]; [by exists noDetails|].
  pose proof (Next_first b rest Hl) as Hn.
  destruct (Next (MakeScriptTokenizer (b :: rest))) as [[[|]| | |] t]; try done;
    cbn [bindO negb]; [|by exists noDetails].
  destruct Hn as (Hop & Hok & Herr & Hsc). unfold Opcode at 1. rewrite Hop. cbn [bindO].
  rewrite opcode_at_value. destruct (isSmallInt (b2z b)) eqn:Hsm; cbn [negb]; [|by exists noDetails].
  destruct (multisig_loop_total extract t (0, []) Hok Herr) as (st & t' & Hst & Hop').
  { by rewrite Hop. }
  rewrite Hsc in Hst.
  destruct Hst as [->| ->]; destruct st as [n keys]; cbn [bindO].
  all: destruct (Done t'); [by exists noDetails|]; unfold Opcode; destruct (op t') as [o|]; [|done];
    cbn [bindO]; repeat (case_match; [by exists noDetails|]); eexists; split; [reflexivity|eauto].
Qed.

Lemma nulldata_total s :
  zlen s < 2 ^ 31 ->
  exists r, isNullDataScript s = Ret r /\ (r = true -> exists rest, s = z2b OP_RETURN :: rest).
Proof.
  intros Hl. unfold isNullDataScript.
  destruct (zlen s <? 1) eqn:E1; cbn [orb]; [by exists false|].
  destruct (byte_is s 0 OP_RETURN) eqn:E2; cbn [negb]; [|by exists false].
  apply byte_is_znth in E2. destruct s as [|b s]; [done|]. injection E2 as ->.
  destruct (_ =? 1) eqn:E3; [exists true; eauto|].
  assert (zslice (z2b OP_RETURN :: s) 1 (zlen (z2b OP_RETURN :: s)) = Some s) as ->.
  { rewrite zslice_drop by (rewrite zlen_cons; pose proof (zlen_nonneg s); lia). done. }
  cbn [orCrash bindO]. rewrite zlen_cons in Hl. destruct s as [|b s]; [done|].
  pose proof (Next_first b s ltac:(lia)) as Hn.
  destruct (Next (MakeScriptTokenizer (b :: s))) as [[[|]| | |] t]; try done;
    cbn [bindO andb negb]; [|by exists false].
  destruct (Done t); cbn [negb]; [|by exists false]. destruct Hn as (Hop & _).
  unfold Opcode. rewrite Hop. cbn [bindO]. eauto.
Qed.

(** ** Multisig scripts *)

Definition smallint_op (n : Z) : byte := if n =? 0 then z2b OP_0 else z2b (OP_1 - 1 + n).

Lemma smallint_op_spec n rest :
  0 <= n <= 16 ->
  parse_op (smallint_op n :: rest) = Some (opcode_at (smallint_op n), None, rest)
  /\ isSmallInt (value (opcode_at (smallint_op n))) = true
  /\ asSmallInt (value (opcode_at (smallint_op n))) = n.
Proof.
  intros Hn.
  assert (In n [0; 1; 2; 3; 4; 5; 6; 7; 8; 9; 10; 11; 12; 13; 14; 15; 16]) as Hin by (simpl; lia).
  clear Hn. simpl in Hin.
  repeat (destruct Hin as [<-|Hin]; [split_and!; reflexivity|]). done.
Qed.

Lemma AddInt64_small n (b : ScriptBuilder) :
  0 <= n <= 16 -> b_err b = None -> zlen (b_script b) < MaxScriptSize ->
  AddInt64 n b = (Ret tt, b_append [smallint_op n] b).
Proof.
  intros Hn He Hl. unfold AddInt64, unless_err, smallint_op. runM. rewrite He. ztest.
  destruct (Z.eqb_spec n 0); [done|]. by ztest.
Qed.

Definition keys_bytes (keys : list bytes) : bytes := concat (map (fun k => z2b (zlen k) :: k) keys).

Lemma zlen_keys_bytes keys :
  Forall (fun k => isStrictPubKeyEncoding k = true) keys -> zlen (keys_bytes keys) <= 66 * zlen keys.
Proof.
  induction 1 as [|k keys Hk%strict_len H IH]; [done|]. unfold keys_bytes in *.
  cbn [map concat]. rewrite zlen_app, !zlen_cons. lia.
Qed.

Lemma zlen_keys_bytes_ge keys : zlen keys <= zlen (keys_bytes keys).
Proof.
  induction keys as [|k keys IH]; [done|]. unfold keys_bytes in *.
  cbn [map concat]. rewrite zlen_app, !zlen_cons. pose proof (zlen_nonneg k). lia.
Qed.

Lemma addKeys_appends keys : forall s,
  Forall (fun k => isStrictPubKeyEncoding k = true) keys -> zlen s + 68 * zlen keys <= MaxScriptSize ->
  addKeys keys (mkBuilder s None) = (Ret tt, mkBuilder (s ++ keys_bytes keys) None).
Proof.
  induction keys as [|k keys IH]; intros s Hk Hl; simpl; [by rewrite app_nil_r|].
  inversion Hk as [|? ? H1%strict_len H2]; subst. rewrite zlen_cons in Hl. pose proof (zlen_nonneg keys).
  rewrite AddData_step by lia. rewrite push_bytes_direct by lia.
  rewrite IH; [|done|rewrite zlen_app, zlen_cons; lia].
  unfold keys_bytes. simpl. by rewrite <- app_assoc.
Qed.

Definition multisig_script (keys : list bytes) (m : Z) : bytes :=
  smallint_op m :: keys_bytes keys ++ [smallint_op (zlen keys); z2b OP_CHECKMULTISIG].

Lemma MultiSigScript_eq keys m :
  Forall (fun k => isStrictPubKeyEncoding k = true) keys -> 0 <= m <= zlen keys -> zlen keys <= 16 ->
  MultiSigScript keys m = Ret (multisig_script keys m).
Proof.
  intros Hk Hm Hn. unfold MultiSigScript, build, NewScriptBuilder. ztest.
  pose proof (zlen_keys_bytes keys Hk).
  erewrite bindM_step by (by apply AddInt64_small; [lia|..]). cbn [b_append b_script b_err].
  erewrite bindM_step by (apply addKeys_appends; [done|simpl; change (zlen [smallint_op m]) with 1; lia]).
  erewrite bindM_step by (apply AddInt64_small; [lia|done|simpl; rewrite zlen_cons; lia]).
  unfold b_append. cbn [b_script b_err]. rewrite AddOp_last.
  2:{ rewrite !zlen_app. change (zlen []) with 0. change (zlen [_]) with 1. lia. }
  simpl. unfold multisig_script. by rewrite <- !app_assoc.
Qed.

Lemma for_next_step {A R} (body : ScriptTokenizer -> A -> outcome ErrorCode (A + R)) fuel t a o d rest :
  tok_ok t -> err t = None -> parse_op (remaining t) = Some (o, d, rest) ->
  for_next (S fuel) body t a =
  let! r := body (tok_after t (o, d, rest)) a in
  match r with inl a => for_next fuel body (tok_after t (o, d, rest)) a | inr r => Ret (inr r) end.
Proof.
  intros Hok Herr Hp. cbn [for_next]. rewrite Next_spec by done. unfold next_ref.
  destruct (remaining t) as [|b s]; [done|]. by rewrite Hp.
Qed.

(** The loop collects the keys and stops at the count. *)
Lemma multisig_loop keys : forall fuel t n acc,
  Forall (fun k => isStrictPubKeyEncoding k = true) keys -> (length keys < fuel)%nat ->
  tok_ok t -> err t = None -> 0 <= n <= 16 ->
  remaining t = keys_bytes keys ++ [smallint_op n; z2b OP_CHECKMULTISIG] ->
  exists t', for_next fuel (multisigBody true) t (zlen acc, acc)
      = Ret (inr ((zlen acc + zlen keys, acc ++ keys), t'))
    /\ op t' = Some (opcode_at (smallint_op n)) /\ tok_ok t' /\ err t' = None
    /\ script t' = script t /\ remaining t' = [z2b OP_CHECKMULTISIG].
Proof.
  induction keys as [|k keys IH]; intros fuel t n acc Hk Hf Hok Herr Hn Hrem.
  - destruct fuel as [|fuel]; [simpl in Hf; lia|].
    destruct (smallint_op_spec n [z2b OP_CHECKMULTISIG] Hn) as (Hp & Hs & _).
    simpl in Hrem. rewrite <- Hrem in Hp.
    destruct (suffix_remaining t _ _ _ Hok Hp) as (Hok' & Hrem' & _).
    rewrite (for_next_step _ _ _ _ _ _ _ Hok Herr Hp). unfold multisigBody at 1.
    unfold Opcode. cbn [tok_after op bindO]. rewrite Hs. cbn [bindO].
    eexists. split; [rewrite app_nil_r; change (zlen []) with 0; by rewrite Z.add_0_r|].
    by split_and!.
  - destruct fuel as [|fuel]; [simpl in Hf; lia|].
    inversion Hk as [|? ? H1 H2]; subst. pose proof (strict_len k H1) as Hlen.
    assert (remaining t = (z2b (zlen k) :: k) ++ keys_bytes keys ++ [smallint_op n; z2b OP_CHECKMULTISIG]) as Hrem1
      by (rewrite Hrem; unfold keys_bytes; cbn [map concat]; by rewrite <- app_assoc).
    destruct (parse_direct_push k (keys_bytes keys ++ [smallint_op n; z2b OP_CHECKMULTISIG])) as [Hp Hv]; [lia|].
    rewrite <- Hrem1 in Hp. destruct (suffix_remaining t _ _ _ Hok Hp) as (Hok' & Hrem' & _).
    rewrite (for_next_step _ _ _ _ _ _ _ Hok Herr Hp). unfold multisigBody at 1.
    unfold Opcode. cbn [tok_after op bindO Data data bytes_of]. rewrite Hv.
    replace (isSmallInt (zlen k)) with false by (unfold isSmallInt; destruct Hlen as [->| ->]; done).
    rewrite H1. cbn [negb bindO].
    destruct (IH fuel (tok_after t (opcode_at (z2b (zlen k)), Some k, keys_bytes keys ++ [smallint_op n; z2b OP_CHECKMULTISIG]))
      n (acc ++ [k])) as (t' & Hfor & Hrest); [done|simpl in Hf; lia|done|done|done|done|].
    exists t'. split; [|exact Hrest].
    rewrite zlen_app in Hfor. change (zlen [k]) with 1 in Hfor.
    unfold tok_after in Hfor |- *. rewrite Hfor. rewrite zlen_cons, <- app_assoc.
    do 4 f_equal. lia.
Qed.

Lemma multisig_extract keys m :
  Forall (fun k => isStrictPubKeyEncoding k = true) keys -> 0 <= m <= zlen keys -> zlen keys <= 16 ->
  extractMultisigScriptDetails (multisig_script keys m) true
  = Ret (mkDetails m (zlen keys) keys true).
Proof.
  intros Hk Hm Hn. pose proof (zlen_keys_bytes keys Hk). pose proof (zlen_nonneg keys).
  set (s := multisig_script keys m).
  assert (zlen s = zlen (keys_bytes keys) + 3) as Hs
    by (subst s; unfold multisig_script; rewrite zlen_cons, zlen_app; change (zlen [_; _]) with 2; lia).
  pose proof (zlen_nonneg (keys_bytes keys)).
  assert (byte_is s (zlen s - 1) OP_CHECKMULTISIG = true) as Hlast.
  { subst s. unfold byte_is, multisig_script.
    replace (smallint_op m :: keys_bytes keys ++ [smallint_op (zlen keys); z2b OP_CHECKMULTISIG])
      with ((smallint_op m :: keys_bytes keys ++ [smallint_op (zlen keys)]) ++ [z2b OP_CHECKMULTISIG])
      by (simpl; by rewrite <- app_assoc).
    by rewrite znth_top. }
  unfold extractMultisigScriptDetails. rewrite Hlast. ztest. cbn [orb negb].
  destruct (smallint_op_spec m (keys_bytes keys ++ [smallint_op (zlen keys); z2b OP_CHECKMULTISIG])
    ltac:(lia)) as (Hp & Hsm & Hm').
  fold (multisig_script keys m) in Hp. fold s in Hp.
  assert (tok_ok (MakeScriptTokenizer s)) as Hok by (apply make_ok; lia).
  rewrite <- (remaining_make s) in Hp. destruct (suffix_remaining _ _ _ _ Hok Hp) as (Hok1 & Hrem1 & _).
  rewrite Next_spec by done. unfold next_ref.
  destruct (remaining (MakeScriptTokenizer s)) as [|b0 s0]; [done|]. rewrite Hp.
  change (mkTok _ _ _ _ _ _ _) with (tok_after (MakeScriptTokenizer s)
    (opcode_at (smallint_op m), None, keys_bytes keys ++ [smallint_op (zlen keys); z2b OP_CHECKMULTISIG])).
  set (t1 := tok_after _ _) in *.
  change (Opcode t1) with (Ret (E := ErrorCode) (value (opcode_at (smallint_op m)))).
  cbn [bindO negb]. rewrite Hsm, Hm'. cbn [negb].
  destruct (multisig_loop keys (tok_fuel s) t1 (zlen keys) []) as (t' & Hfor & Hop & Hok' & Herr & Hsc & Hrem);
    [done| |done|done|lia|done|].
  { pose proof (zlen_keys_bytes_ge keys). unfold tok_fuel. unfold zlen in *. lia. }
  change (zlen []) with 0 in Hfor. rewrite Hfor. cbn [bindO].
  assert (zlen (script t') - offset t' = 1) as Hone.
  { apply (f_equal zlen) in Hrem. unfold remaining in Hrem. rewrite zlen_drop in Hrem.
    change (zlen [z2b OP_CHECKMULTISIG]) with 1 in Hrem. destruct Hok' as [? _]. lia. }
  destruct Hok' as [Ho1 Ho2].
  unfold Done. rewrite Herr, i32_id by lia. ztest. unfold Opcode. rewrite Hop. cbn [bindO].
  destruct (smallint_op_spec (zlen keys) [] ltac:(lia)) as (_ & Hsn & Hn'). rewrite Hsn, Hn'.
  unfold ByteIndex. rewrite Hone, Z.add_0_l, Z.eqb_refl. done.
Qed.

Lemma isPubKeyScript_first s : isPubKeyScript s = true -> exists r, s = z2b 33 :: r \/ s = z2b 65 :: r.
Proof.
  intros [k [-> Hk%strict_len]%extractPubKey_iff]%non_nil_Some. unfold p2pk.
  destruct Hk as [->| ->]; eauto.
Qed.

Lemma isPubKeyHashScript_first s : isPubKeyHashScript s = true -> exists r, s = z2b OP_DUP :: r.
Proof. intros [h [-> _]%extractPubKeyHash_iff]%non_nil_Some. unfold p2pkh. simpl. eauto. Qed.

Lemma isScriptHashScript_first s : isScriptHashScript s = true -> exists r, s = z2b OP_HASH160 :: r.
Proof. intros [h [-> _]%extractScriptHash_iff]%non_nil_Some. unfold p2sh. simpl. eauto. Qed.

Lemma isMultisigScript_first s :
  zlen s < 2 ^ 31 -> exists r, isMultisigScript s = Ret r
    /\ (r = true -> exists b l, s = b :: l /\ isSmallInt (b2z b) = true).
Proof.
  intros Hl. unfold isMultisigScript. destruct (multisig_total s false Hl) as (d & -> & Hd).
  exists (valid d). by split.
Qed.

(** ** Properties *)

(** The three hash and key forms are recognized exactly: [extract...]
    returns a payload if and only if the script is the one the constructor
    builds for it (a 20-byte hash, or a public key of strict encoding). *)
Theorem pay_forms_exact :
  (forall s h, extractPubKeyHash s = Some h
     <-> zlen h = 20 /\ payToPubKeyHashScript h = Ret s)
  /\ (forall s h, extractScriptHash s = Some h
     <-> zlen h = 20 /\ payToScriptHashScript h = Ret s)
  /\ (forall s k, extractPubKey s = Some k
     <-> isStrictPubKeyEncoding k = true /\ payToPubKeyScript k = Ret s).
Proof.
  split_and!; intros s k.
  - rewrite extractPubKeyHash_iff. split.
    + intros [-> H]. by rewrite payToPubKeyHashScript_eq.
    + intros [H E]. rewrite payToPubKeyHashScript_eq in E by done. by injection E as <-.
  - rewrite extractScriptHash_iff. split.
    + intros [-> H]. by rewrite payToScriptHashScript_eq.
    + intros [H E]. rewrite payToScriptHashScript_eq in E by done. by injection E as <-.
  - rewrite extractPubKey_iff. split.
    + intros [-> H]. by rewrite payToPubKeyScript_eq.
    + intros [H E]. rewrite payToPubKeyScript_eq in E by done. by injection E as <-.
Qed.

(** Classification is total and unambiguous: on every script shorter than
    2 GiB no recognizer panics, at most one of the five standard forms is
    recognized, so that the order of the tests does not matter, and
    [typeOfScript] returns the class of the form that is. *)
Theorem typeOfScript_unambiguous (s : bytes) :
  zlen s < 2 ^ 31 ->
  exists ms nd c, isMultisigScript s = Ret ms /\ isNullDataScript s = Ret nd
    /\ typeOfScript s = Ret c
    /\ (isPubKeyScript s = true <-> c = PubKeyTy)
    /\ (isPubKeyHashScript s = true <-> c = PubKeyHashTy)
    /\ (isScriptHashScript s = true <-> c = ScriptHashTy)
    /\ (ms = true <-> c = MultiSigTy) /\ (nd = true <-> c = NullDataTy).
Proof.
  intros Hl. destruct (isMultisigScript_first s Hl) as (ms & Ems & Hms).
  destruct (nulldata_total s Hl) as (nd & End & Hnd).
  pose proof (isPubKeyScript_first s) as H1. pose proof (isPubKeyHashScript_first s) as H2.
  pose proof (isScriptHashScript_first s) as H3.
  set (fb := match s with b :: _ => b2z b | [] => -1 end).
  assert (isPubKeyScript s = true -> fb = 33 \/ fb = 65) as F1.
  { subst fb. intros H. destruct (H1 H) as [r [E|E]]; rewrite E; auto. }
  assert (isPubKeyHashScript s = true -> fb = OP_DUP) as F2
    by (subst fb; intros H; destruct (H2 H) as [r E]; by rewrite E).
  assert (isScriptHashScript s = true -> fb = OP_HASH160) as F3
    by (subst fb; intros H; destruct (H3 H) as [r E]; by rewrite E).
  assert (ms = true -> fb = 0 \/ OP_1 <= fb <= OP_16) as F4.
  { subst fb. intros H. destruct (Hms H) as (b & l & E & Hb). rewrite E. unfold isSmallInt in Hb.
    apply orb_prop in Hb as [Hb|Hb]; zbool; lia. }
  assert (nd = true -> fb = OP_RETURN) as F5
    by (subst fb; intros H; destruct (Hnd H) as [r E]; by rewrite E).
  exists ms, nd. unfold typeOfScript. rewrite Ems, End. clearbody fb. clear -F1 F2 F3 F4 F5.
  destruct (isPubKeyScript s), (isPubKeyHashScript s), (isScriptHashScript s), ms, nd; cbn [bindO];
    first [ exfalso; lia | eexists; split_and!; first [reflexivity | split; done ] ].
Qed.

Lemma typeOfScript_unambiguous_witness :
  exists ms nd c, isMultisigScript (p2sh (replicate 20 (z2b 1))) = Ret ms
    /\ isNullDataScript (p2sh (replicate 20 (z2b 1))) = Ret nd
    /\ typeOfScript (p2sh (replicate 20 (z2b 1))) = Ret c /\ c = ScriptHashTy.
Proof.
  destruct (typeOfScript_unambiguous (p2sh (replicate 20 (z2b 1)))) as (ms & nd & c & H1 & H2 & H3 & _ & _ & H4 & _);
    [unfold zlen; simpl; lia|].
  exists ms, nd, c. split_and!; [exact H1|exact H2|exact H3|]. apply H4. reflexivity.
Defined.

(** A multisig script built for [m] of [n] keys, with [n] at most 16 and
    every key of strict encoding, is recognized, and the details read back are
    the number of required signatures, the number of keys and the keys in their
    order. *)
Theorem MultiSigScript_roundtrip (keys : list bytes) (m : Z) :
  Forall (fun k => isStrictPubKeyEncoding k = true) keys ->
  0 <= m <= zlen keys -> zlen keys <= 16 ->
  exists s, MultiSigScript keys m = Ret s
    /\ extractMultisigScriptDetails s true = Ret (mkDetails m (zlen keys) keys true).
Proof.
  intros Hk Hm Hn. exists (multisig_script keys m).
  split; [by apply MultiSigScript_eq|by apply multisig_extract].
Qed.

Definition sample_key (n : Z) : bytes := z2b 2 :: replicate 32 (z2b n).

Lemma MultiSigScript_roundtrip_witness :
  exists s, MultiSigScript [sample_key 1; sample_key 2] 1 = Ret s
    /\ extractMultisigScriptDetails s true
       = Ret (mkDetails 1 (zlen [sample_key 1; sample_key 2]) [sample_key 1; sample_key 2] true).
Proof.
  apply (MultiSigScript_roundtrip [sample_key 1; sample_key 2] 1);
    [repeat constructor|unfold zlen; simpl; lia|unfold zlen; simpl; lia].
Defined.

(** The name of a class is total only for the values the package defines:
    every class has its name and is found again under it, and the first value
    after the last class makes [String] index out of range, where the comment
    promises the name "Invalid". *)
Theorem ScriptClass_names (c : ScriptClass) :
  (exists n, ScriptClass_String (class_value c) = Ret n /\ NewScriptClass n = Some (class_value c))
  /\ ScriptClass_String 6 = Crash /\ ScriptClass_String 7 = Ret "Invalid"%string.
Proof. split; [|split; reflexivity]. destruct c; eexists; (split; [reflexivity|reflexivity]). Qed.
