(* ===== verification/Sighash.v ===== *)
(** Signature hashes (src/thoughtd/txscript/sighash.go).

    The transaction is copied and the copy is cut down to what the hash type
    commits to; the digest is taken of its serialization and the hash type. *)

From S2P Require Import Prelude Crypto WireCommon WireTx ScriptError Opcodes Tokenizer Script.

Notation SigHashOld := 0x0 (only parsing).
Notation SigHashAll := 0x1 (only parsing).
Notation SigHashNone := 0x2 (only parsing).
Notation SigHashSingle := 0x3 (only parsing).
Notation SigHashAnyOneCanPay := 0x80 (only parsing).
Notation sigHashMask := 0x1f (only parsing).

(** The copies are new structs: writing to them leaves the transaction alone. *)
Definition shallowCopyTx (tx : MsgTx) : MsgTx :=
  mkMsgTx (Version tx) (TxIns tx) (TxOuts tx) (LockTime tx).

Definition set_SignatureScript (s : bytes) (ti : TxIn) : TxIn :=
  mkTxIn (PreviousOutPoint ti) s (Witness ti) (Sequence ti).
Definition set_Sequence (n : Z) (ti : TxIn) : TxIn :=
  mkTxIn (PreviousOutPoint ti) (SignatureScript ti) (Witness ti) n.

Definition set_TxIns (l : list TxIn) (tx : MsgTx) : MsgTx :=
  mkMsgTx (Version tx) l (TxOuts tx) (LockTime tx).
Definition set_TxOuts (l : list TxOut) (tx : MsgTx) : MsgTx :=
  mkMsgTx (Version tx) (TxIns tx) l (LockTime tx).

(** [for i := range l { l[i] = f(i, l[i]) }] *)
Fixpoint zimap {A B} (f : Z -> A -> B) (i : Z) (l : list A) : list B :=
  match l with
  | [] => []
  | x :: l => f i x :: zimap f (i + 1) l
  end.

(** The loop that clears the sequence of the other inputs. *)
Definition zeroSequences (idx : Z) (tx : MsgTx) : MsgTx :=
  set_TxIns (zimap (fun i ti => if negb (i =? idx) then set_Sequence 0 ti else ti) 0 (TxIns tx)) tx.

(** The copy of the transaction that is serialized. *)
Definition sighashTx (sigScript : bytes) (hashType : Z) (tx : MsgTx) (idx : Z) :
    outcome ErrorCode MsgTx :=
  let txCopy := shallowCopyTx tx in
  let txCopy := set_TxIns (zimap (fun i ti =>
    if i =? idx then set_SignatureScript sigScript ti else set_SignatureScript [] ti)
    0 (TxIns txCopy)) txCopy in
  let! txCopy :=
    (if Z.land hashType sigHashMask =? SigHashNone then
       Ret (zeroSequences idx (set_TxOuts [] txCopy))
     else if Z.land hashType sigHashMask =? SigHashSingle then
       let! outs := orCrash (zslice (TxOuts txCopy) 0 (idx + 1)) in
       let outs := zimap (fun i to => if i <? idx then mkTxOut (-1) [] else to) 0 outs in
       Ret (zeroSequences idx (set_TxOuts outs txCopy))
     else Ret txCopy) in
  if negb (Z.land hashType SigHashAnyOneCanPay =? 0) then
    let! ins := orCrash (zslice (TxIns txCopy) idx (idx + 1)) in
    Ret (set_TxIns ins txCopy)
  else Ret txCopy.

(** The bytes that are hashed; writing to a [bytes.Buffer] does not fail. *)
Definition sighashPreimage (txCopy : MsgTx) (hashType : Z) : bytes :=
  (SerializeNoWitness txCopy []).2 ++ le_bytes 4 hashType.

Section sighash.
Context `{Crypto}.

Definition calcSignatureHash (sigScript : bytes) (hashType : Z) (tx : MsgTx) (idx : Z) :
    outcome ErrorCode bytes :=
  if (Z.land hashType sigHashMask =? SigHashSingle) && (idx >=? zlen (TxOuts tx)) then
    Ret (z2b 0x01 :: replicate 31 (z2b 0))
  else
    let! sigScript := removeOpcodeRaw sigScript OP_CODESEPARATOR in
    let! txCopy := sighashTx sigScript hashType tx idx in
    Ret (DoubleHashB (sighashPreimage txCopy hashType)).

Definition CalcSignatureHash (script : bytes) (hashType : Z) (tx : MsgTx) (idx : Z) :
    outcome ErrorCode bytes :=
  let! _ := checkScriptParses script in
  calcSignatureHash script hashType tx idx.
End sighash.

(** ** The loops *)

Lemma length_zimap {A B} (f : Z -> A -> B) i l : length (zimap f i l) = length l.
Proof. revert i. induction l as [|x l IH]; intros i; simpl; [done|]. by rewrite IH. Qed.

Lemma zlen_zimap {A B} (f : Z -> A -> B) i l : zlen (zimap f i l) = zlen l.
Proof. unfold zlen. by rewrite length_zimap. Qed.

Lemma lookup_zimap {A B} (f : Z -> A -> B) l : forall i (n : nat),
  zimap f i l !! n = f (i + Z.of_nat n) <$> l !! n.
Proof.
  induction l as [|x l IH]; intros i n; [done|]. destruct n as [|n]; simpl.
  - by rewrite Z.add_0_r.
  - rewrite IH. destruct (l !! n); simpl; [|done]. do 2 f_equal. lia.
Qed.

Lemma zimap_ext {A B} (f g : Z -> A -> B) l : forall i,
  (forall j x, i <= j -> f j x = g j x) -> zimap f i l = zimap g i l.
Proof.
  induction l as [|x l IH]; intros i Hf; simpl; [done|].
  rewrite Hf by lia. f_equal. apply IH. intros j y Hj. apply Hf. lia.
Qed.

Lemma zimap_zimap {A B C} (f : Z -> A -> B) (g : Z -> B -> C) l : forall i,
  zimap g i (zimap f i l) = zimap (fun i x => g i (f i x)) i l.
Proof. induction l as [|x l IH]; intros i; simpl; [done|]. by rewrite IH. Qed.

Lemma map_zimap {A B C} (f : Z -> A -> B) (g : B -> C) l : forall i,
  map g (zimap f i l) = zimap (fun i x => g (f i x)) i l.
Proof. induction l as [|x l IH]; intros i; simpl; [done|]. by rewrite IH. Qed.

Lemma zimap_const {A B} (f : A -> B) l : forall i, zimap (fun _ => f) i l = map f l.
Proof. induction l as [|x l IH]; intros i; simpl; [done|]. by rewrite IH. Qed.

Lemma Forall_zimap {A B} (P : A -> Prop) (Q : B -> Prop) (f : Z -> A -> B) l : forall i,
  Forall P l -> (forall j x, P x -> Q (f j x)) -> Forall Q (zimap f i l).
Proof.
  induction l as [|x l IH]; intros i Hl Hf; simpl; [constructor|].
  inversion Hl; subst. constructor; eauto.
Qed.

(** ** The copy that is hashed *)

Lemma sighashTx_total s ht tx idx :
  0 <= idx < zlen (TxIns tx) ->
  (Z.land ht sigHashMask = SigHashSingle -> idx < zlen (TxOuts tx)) ->
  exists c, sighashTx s ht tx idx = Ret c.
Proof.
  intros Hi Ho. unfold sighashTx. cbv zeta.
  assert (forall c, zlen (TxIns c) = zlen (TxIns tx) -> exists c',
    (if negb (Z.land ht SigHashAnyOneCanPay =? 0)
     then let! ins := orCrash (zslice (TxIns c) idx (idx + 1)) in Ret (set_TxIns ins c)
     else Ret c) = Ret (E := ErrorCode) c') as Hacp.
  { intros c Hc. destruct (negb _); [|by eexists].
    rewrite zslice_Some by lia. by eexists. }
  destruct (Z.eqb_spec (Z.land ht sigHashMask) SigHashNone); cbn [bindO].
  { apply Hacp. simpl. by rewrite !zlen_zimap. }
  destruct (Z.eqb_spec (Z.land ht sigHashMask) SigHashSingle) as [E|E]; cbn [bindO].
  - specialize (Ho E). cbn [shallowCopyTx TxOuts set_TxIns]. rewrite zslice_Some by lia.
    cbn [orCrash bindO]. apply Hacp. simpl. by rewrite !zlen_zimap.
  - apply Hacp. simpl. by rewrite zlen_zimap.
Qed.

Lemma calcSignatureHash_total `{Crypto} `{!CryptoLaws _} s ht tx idx :
  zlen s < 2 ^ 31 -> 0 <= idx < zlen (TxIns tx) ->
  exists h, calcSignatureHash s ht tx idx = Ret h /\ zlen h = 32.
Proof.
  intros Hs Hi. unfold calcSignatureHash.
  destruct ((_ =? SigHashSingle) && _) eqn:E; [by eexists|].
  assert (exists r, removeOpcodeRaw s OP_CODESEPARATOR = Ret r) as [r ->].
  { unfold removeOpcodeRaw. destruct (zlen s =? 0); [by eexists|].
    rewrite removeLoop_spec by done. by eexists. }
  cbn [bindO]. destruct (sighashTx_total r ht tx idx Hi) as [c ->].
  { intros E1. rewrite E1, Z.eqb_refl in E. cbn [andb] in E. zbool. done. }
  cbn [bindO]. eexists. split; [reflexivity|]. unfold DoubleHashB. apply sha256_len.
Qed.

(** Hash types that commit to everything. *)
Definition commits_all (ht : Z) : Prop :=
  Z.land ht sigHashMask <> SigHashNone /\ Z.land ht sigHashMask <> SigHashSingle
  /\ Z.land ht SigHashAnyOneCanPay = 0.

Lemma sighashTx_all s ht tx idx :
  commits_all ht ->
  sighashTx s ht tx idx
  = Ret (set_TxIns (zimap (fun i ti =>
      if i =? idx then set_SignatureScript s ti else set_SignatureScript [] ti) 0 (TxIns tx)) tx).
Proof.
  intros (H1 & H2 & H3). unfold sighashTx. cbv zeta.
  rewrite (proj2 (Z.eqb_neq _ _) H1), (proj2 (Z.eqb_neq _ _) H2), H3. cbn [bindO Z.eqb negb].
  by destruct tx.
Qed.

Lemma tx_wf_set_ins tx f :
  tx_wf tx ->
  (forall i ti, txin_wf ti -> txin_wf (f i ti) /\ Witness (f i ti) = Witness ti) ->
  tx_wf (set_TxIns (zimap f 0 (TxIns tx)) tx).
Proof.
  intros (Hv & [Hi Hins] & [Ho Houts] & Hw & Hl) Hf. unfold tx_wf. simpl. split_and!; try done; try lia.
  - by rewrite zlen_zimap.
  - eapply Forall_zimap; [exact Hins|]. intros j x Hx. by apply Hf.
  - assert (Forall (fun ti => txin_wf ti /\ witness_wf (Witness ti)) (TxIns tx)) as Hb
      by (by apply Forall_and).
    eapply Forall_zimap; [exact Hb|]. intros j x [Hx Hxw]. simpl.
    destruct (Hf j x Hx) as [_ ->]. done.
Qed.

Lemma sighash_copy_wf s idx tx :
  tx_wf tx -> zlen s <= MaxMessagePayload ->
  tx_wf (set_TxIns (zimap (fun i ti =>
    if i =? idx then set_SignatureScript s ti else set_SignatureScript [] ti) 0 (TxIns tx)) tx).
Proof.
  intros Hw Hs. apply tx_wf_set_ins; [done|]. intros i ti (H1 & H2 & H3).
  destruct (i =? idx); (split; [split_and!; simpl; try done; try apply H3|done]).
Qed.

Lemma serialize_inj c1 c2 :
  tx_wf c1 -> tx_wf c2 -> (SerializeNoWitness c1 []).2 = (SerializeNoWitness c2 []).2 ->
  tx_strip c1 = tx_strip c2.
Proof.
  intros H1 H2. unfold SerializeNoWitness. rewrite !ThtEncode_writes by done. simpl. intros E.
  pose proof (ThtDecode_reads_base BaseEncoding c1 [] H1 (or_introl eq_refl)) as E1.
  pose proof (ThtDecode_reads_base BaseEncoding c2 [] H2 (or_introl eq_refl)) as E2.
  rewrite E, E2 in E1. congruence.
Qed.

Lemma preimage_inj c1 c2 ht1 ht2 :
  0 <= ht1 < 2 ^ 32 -> 0 <= ht2 < 2 ^ 32 ->
  sighashPreimage c1 ht1 = sighashPreimage c2 ht2 ->
  (SerializeNoWitness c1 []).2 = (SerializeNoWitness c2 []).2 /\ ht1 = ht2.
Proof.
  intros Hh1 Hh2 E. unfold sighashPreimage in E. apply app_inj_2 in E as [E1 E2].
  - split; [done|]. apply (f_equal le_val) in E2. rewrite !le_val_le_bytes in E2.
    change (256 ^ Z.of_nat 4) with (2 ^ 32) in E2. by rewrite !Z.mod_small in E2 by done.
  - by rewrite !length_le_bytes.
Qed.

(** ** Properties *)

(** The signature hash of an input of the transaction always exists: for
    every script, hash type and input index in range the computation neither
    panics nor fails, and the digest has 32 bytes. *)
Theorem signature_hash_total `{Crypto} `{!CryptoLaws _} (s : bytes) (ht : Z) (tx : MsgTx) (idx : Z) :
  zlen s < 2 ^ 31 -> 0 <= idx < zlen (TxIns tx) ->
  exists h, calcSignatureHash s ht tx idx = Ret h /\ zlen h = 32.
Proof. apply calcSignatureHash_total. Qed.

Lemma signature_hash_total_witness :
  exists h, calcSignatureHash (H := toy) [z2b OP_CHECKSIG] 0x83 sample_tx 0 = Ret h /\ zlen h = 32.
Proof.
  apply (signature_hash_total (H := toy) [z2b OP_CHECKSIG] 0x83 sample_tx 0); unfold zlen; simpl; lia.
Defined.

(** C34: a signature with [SigHashAll] commits to the whole transaction: if the
    hashed bytes of two transactions within the protocol's limits are equal,
    the hash types are equal, and so are the versions, the spent outpoints, the
    sequence numbers, the outputs, the lock times and the signed script. *)
Theorem sighash_all_commits (s1 s2 : bytes) (ht1 ht2 : Z) (tx1 tx2 c1 c2 : MsgTx) (idx : Z) :
  tx_wf tx1 -> tx_wf tx2 -> zlen s1 <= MaxMessagePayload -> zlen s2 <= MaxMessagePayload ->
  0 <= ht1 < 2 ^ 32 -> 0 <= ht2 < 2 ^ 32 -> commits_all ht1 -> commits_all ht2 ->
  0 <= idx < zlen (TxIns tx1) ->
  sighashTx s1 ht1 tx1 idx = Ret c1 -> sighashTx s2 ht2 tx2 idx = Ret c2 ->
  sighashPreimage c1 ht1 = sighashPreimage c2 ht2 ->
  ht1 = ht2 /\ s1 = s2 /\ Version tx1 = Version tx2 /\ LockTime tx1 = LockTime tx2
  /\ TxOuts tx1 = TxOuts tx2
  /\ map PreviousOutPoint (TxIns tx1) = map PreviousOutPoint (TxIns tx2)
  /\ map Sequence (TxIns tx1) = map Sequence (TxIns tx2).
Proof.
  intros W1 W2 L1 L2 Hh1 Hh2 A1 A2 Hi E1 E2 E.
  rewrite sighashTx_all in E1, E2 by done. injection E1 as <-. injection E2 as <-.
  apply preimage_inj in E as [E ->]; [|done..].
  apply serialize_inj in E; [|by apply sighash_copy_wf..].
  unfold tx_strip in E. simpl in E. injection E as Ev Ei Eo El. rewrite !map_zimap in Ei.
  split_and!; try done.
  - apply (f_equal (fun l => l !! Z.to_nat idx)) in Ei. rewrite !lookup_zimap in Ei.
    rewrite Z.add_0_l, Z2Nat.id, Z.eqb_refl in Ei by lia.
    destruct (lookup_lt_is_Some_2 (TxIns tx1) (Z.to_nat idx)) as [ti Hti]; [unfold zlen in *; lia|].
    rewrite Hti in Ei. destruct (TxIns tx2 !! Z.to_nat idx); simpl in Ei; [|done]. by injection Ei.
  - apply (f_equal (map PreviousOutPoint)) in Ei. rewrite !map_zimap in Ei.
    rewrite <- !(zimap_const PreviousOutPoint _ 0).
    etransitivity; [|etransitivity; [exact Ei|]];
      apply zimap_ext; intros j x _; by destruct (j =? idx).
  - apply (f_equal (map Sequence)) in Ei. rewrite !map_zimap in Ei.
    rewrite <- !(zimap_const Sequence _ 0).
    etransitivity; [|etransitivity; [exact Ei|]];
      apply zimap_ext; intros j x _; by destruct (j =? idx).
Qed.

Lemma sighash_all_commits_witness :
  commits_all SigHashAll /\ exists c, sighashTx [z2b 1] SigHashAll sample_tx 0 = Ret c
    /\ map Sequence (TxIns sample_tx) = map Sequence (TxIns sample_tx).
Proof.
  assert (commits_all SigHashAll) as Hc by (split_and!; done).
  destruct (sighashTx [z2b 1] SigHashAll sample_tx 0) as [c| | |] eqn:E; try discriminate E.
  split; [exact Hc|]. exists c. split; [reflexivity|].
  apply (sighash_all_commits [z2b 1] [z2b 1] SigHashAll SigHashAll sample_tx sample_tx c c 0);
    first [exact sample_tx_wf | exact Hc | exact E | reflexivity | unfold zlen; simpl; lia].
Defined.

(** *** What is not committed to *)

(** Replace the unlocking data of every input. *)
Definition unlock_with (f : Z -> bytes * list bytes) (tx : MsgTx) : MsgTx :=
  set_TxIns (zimap (fun i ti => mkTxIn (PreviousOutPoint ti) (f i).1 (f i).2 (Sequence ti)) 0
    (TxIns tx)) tx.

Lemma forM_strip l : forall w, forM (map strip l) writeTxIn w = forM l writeTxIn w.
Proof.
  induction l as [|ti l IH]; intros w; simpl; [done|]. unfold bindM.
  change (writeTxIn (strip ti)) with (writeTxIn ti). destruct (writeTxIn ti w) as [[] t]; try done.
Qed.

Lemma serialize_strip c w : SerializeNoWitness (tx_strip c) w = SerializeNoWitness c w.
Proof.
  unfold SerializeNoWitness, ThtEncode. cbn [tx_strip Version TxIns TxOuts LockTime is_witness_encoding andb].
  assert (zlen (map strip (TxIns c)) = zlen (TxIns c)) as -> by (unfold zlen; by rewrite length_map).
  do 3 (apply bindM_ext; intros). unfold bindM at 1 4. by rewrite forM_strip.
Qed.

Lemma preimage_strip c1 c2 ht :
  tx_strip c1 = tx_strip c2 -> sighashPreimage c1 ht = sighashPreimage c2 ht.
Proof.
  intros E. unfold sighashPreimage. by rewrite <- (serialize_strip c1), E, serialize_strip.
Qed.

Lemma zslice_map {A B} (f : A -> B) l a b : zslice (map f l) a b = map f <$> zslice l a b.
Proof.
  unfold zslice. assert (zlen (map f l) = zlen l) as -> by (unfold zlen; by rewrite length_map).
  case_decide; [|done]. simpl. by rewrite skipn_map, firstn_map.
Qed.

(** The inputs up to their unlocking data. *)
Definition locked (ti : TxIn) : OutPoint * Z := (PreviousOutPoint ti, Sequence ti).

Lemma zimap_locked {B} (f : Z -> TxIn -> B) l1 : forall l2 i,
  map locked l1 = map locked l2 ->
  (forall j x y, locked x = locked y -> f j x = f j y) -> zimap f i l1 = zimap f i l2.
Proof.
  induction l1 as [|x l1 IH]; intros [|y l2] i E Hf; try done. simpl in *.
  injection E as E1 E2 E3. f_equal; [apply Hf; unfold locked; congruence|by apply IH].
Qed.

Lemma sighashTx_locked s ht tx1 tx2 idx :
  Version tx1 = Version tx2 -> LockTime tx1 = LockTime tx2 -> TxOuts tx1 = TxOuts tx2 ->
  map locked (TxIns tx1) = map locked (TxIns tx2) ->
  match sighashTx s ht tx1 idx, sighashTx s ht tx2 idx with
  | Ret c1, Ret c2 => tx_strip c1 = tx_strip c2
  | Crash, Crash => True
  | _, _ => False
  end.
Proof.
  intros Hv Hl Ho Hi. unfold sighashTx. cbv zeta. unfold shallowCopyTx, zeroSequences, set_TxIns, set_TxOuts.
  cbn [Version TxIns TxOuts LockTime]. rewrite Hv, Hl, Ho.
  set (f := fun (i : Z) ti => if i =? idx then set_SignatureScript s ti else set_SignatureScript [] ti).
  set (g := fun (i : Z) ti => if negb (i =? idx) then set_Sequence 0 ti else ti).
  assert (map strip (zimap f 0 (TxIns tx1)) = map strip (zimap f 0 (TxIns tx2))) as F1.
  { rewrite !map_zimap. apply zimap_locked; [done|]. intros j x y [= E1 E2]. unfold f.
    destruct (j =? idx); unfold strip; simpl; by rewrite E1, E2. }
  assert (map strip (zimap g 0 (zimap f 0 (TxIns tx1))) = map strip (zimap g 0 (zimap f 0 (TxIns tx2)))) as F2.
  { rewrite !zimap_zimap, !map_zimap. apply zimap_locked; [done|]. intros j x y [= E1 E2]. unfold f, g.
    destruct (j =? idx); unfold strip; simpl; by rewrite E1, ?E2. }
  assert (forall l1 l2 v o t, map strip l1 = map strip l2 ->
    match (if negb (Z.land ht SigHashAnyOneCanPay =? 0)
           then let! ins := orCrash (zslice l1 idx (idx + 1)) in Ret (mkMsgTx v ins o t)
           else Ret (E := ErrorCode) (mkMsgTx v l1 o t)),
          (if negb (Z.land ht SigHashAnyOneCanPay =? 0)
           then let! ins := orCrash (zslice l2 idx (idx + 1)) in Ret (mkMsgTx v ins o t)
           else Ret (E := ErrorCode) (mkMsgTx v l2 o t)) with
    | Ret c1, Ret c2 => tx_strip c1 = tx_strip c2
    | Crash, Crash => True
    | _, _ => False
    end) as Hacp.
  { intros l1 l2 v o t E. destruct (negb _); unfold tx_strip; simpl; [|by rewrite E].
    apply (f_equal (fun l => zslice l idx (idx + 1))) in E. rewrite !zslice_map in E.
    destruct (zslice l1 _ _), (zslice l2 _ _); simpl in *; try done. injection E as E. by rewrite E. }
  destruct (_ =? SigHashNone); cbn [bindO Version TxIns TxOuts LockTime]; [by apply Hacp|].
  destruct (_ =? SigHashSingle); cbn [bindO Version TxIns TxOuts LockTime]; [|by apply Hacp].
  destruct (zslice (TxOuts tx2) 0 (idx + 1)); cbn [orCrash bindO Version TxIns TxOuts LockTime]; [|done].
  by apply Hacp.
Qed.

Lemma calcSignatureHash_unlock `{Crypto} (s : bytes) (ht : Z) (tx : MsgTx) (idx : Z)
    (f : Z -> bytes * list bytes) :
  calcSignatureHash s ht (unlock_with f tx) idx = calcSignatureHash s ht tx idx.
Proof.
  unfold calcSignatureHash. change (TxOuts (unlock_with f tx)) with (TxOuts tx).
  destruct (_ && _); [done|]. destruct (removeOpcodeRaw s OP_CODESEPARATOR) as [r| | |]; try done.
  cbn [bindO]. pose proof (sighashTx_locked r ht (unlock_with f tx) tx idx eq_refl eq_refl eq_refl) as Hs.
  assert (map locked (TxIns (unlock_with f tx)) = map locked (TxIns tx)) as E.
  { unfold unlock_with. simpl. rewrite map_zimap. unfold locked at 1. simpl.
    rewrite <- (zimap_const locked (TxIns tx) 0). by apply zimap_ext. }
  specialize (Hs E). destruct (sighashTx r ht (unlock_with f tx) idx), (sighashTx r ht tx idx); try done.
  cbn [bindO]. by rewrite (preimage_strip a a0).
Qed.

(** No signature commits to unlocking data: for every hash type the
    signature hash of an input is the same whatever signature scripts and
    witnesses the inputs of the transaction carry, so signing one input never
    invalidates another. *)
Theorem sighash_ignores_unlocking `{Crypto} (s : bytes) (ht : Z) (tx : MsgTx) (idx : Z)
    (f : Z -> bytes * list bytes) :
  calcSignatureHash s ht (unlock_with f tx) idx = calcSignatureHash s ht tx idx.
Proof. apply calcSignatureHash_unlock. Qed.
