(* ===== verification/SigParse.v ===== *)
(** Signature encodings (src/thoughtd/thtec/ecdsa/signature.go, and the checks
    of src/thoughtd/txscript/engine.go).

    [parseSig] is the DER/BER parser, [checkSignatureEncoding] the engine's own
    check of the same format.  Both index into the signature with computed
    offsets: an index out of range would be a panic. *)

From S2P Require Import Prelude Crypto ScriptError Opcodes Tokenizer Script Standard.

(** ** The parser *)

(** The errors of [parseSig]: the string does not have the format, an integer
    of it is negative or padded, or it is not in the range of the group. *)
Inductive SigErr := MalformedSig | BadPadding | InvalidScalar.

Inductive PadErr := errNegativeValue | errExcessivelyPaddedValue.

Notation MinSigLen := 8 (only parsing).

(** [s[i]] as an integer. *)
Definition at_ {E} (s : bytes) (i : Z) : outcome E Z :=
  let! b := orCrash (znth s i) in Ret (b2z b).

Definition canonicalPadding (b : bytes) : outcome SigErr (option PadErr) :=
  let! b0 := at_ b 0 in
  if Z.land b0 0x80 =? 0x80 then Ret (Some errNegativeValue) else
  if (zlen b >? 1) && (b0 =? 0x00) then
    let! b1 := at_ b 1 in
    if negb (Z.land b1 0x80 =? 0x80) then Ret (Some errExcessivelyPaddedValue) else Ret None
  else Ret None.

(** [for len(b) > 0 && b[0] == 0x00 { b = b[1:] }] *)
Fixpoint stripZeroes (b : bytes) : bytes :=
  match b with
  | x :: b' => if b2z x =? 0 then stripZeroes b' else b
  | [] => []
  end.

Section parse.
Context `{Crypto}.

(** The checks of one integer, which the code writes once for R and once for
    S. *)
Definition parseScalar (der : bool) (b : bytes) : outcome SigErr ModNScalar :=
  let! bad := (if der then canonicalPadding b else Ret None) in
  match bad with
  | Some _ => Fail BadPadding
  | None =>
      let b := stripZeroes b in
      if zlen b >? 32 then Fail InvalidScalar else
      let '(r, overflow) := SetByteSlice b in
      if overflow then Fail InvalidScalar else
      if IsZero r then Fail InvalidScalar else
      Ret r
  end.

Definition parseSig (sigStr : bytes) (der : bool) : outcome SigErr Signature :=
  if zlen sigStr <? MinSigLen then Fail MalformedSig else
  let index := 0 in
  let! magic := at_ sigStr index in
  if negb (magic =? 0x30) then Fail MalformedSig else
  let index := index + 1 in
  let! siglen := at_ sigStr index in
  let index := index + 1 in
  if (u8 (siglen + 2) >? zlen sigStr) || (u8 (siglen + 2) <? MinSigLen) then Fail MalformedSig else
  let! sigStr := orCrash (zslice sigStr 0 (u8 (siglen + 2))) in
  let! marker := at_ sigStr index in
  if negb (marker =? 0x02) then Fail MalformedSig else
  let index := index + 1 in
  let! rLen := at_ sigStr index in
  let index := index + 1 in
  if (rLen <=? 0) || (rLen >? zlen sigStr - index - 3) then Fail MalformedSig else
  let! rBytes := orCrash (zslice sigStr index (index + rLen)) in
  let! r := parseScalar der rBytes in
  let index := index + rLen in
  let! marker := at_ sigStr index in
  if negb (marker =? 0x02) then Fail MalformedSig else
  let index := index + 1 in
  let! sLen := at_ sigStr index in
  let index := index + 1 in
  if (sLen <=? 0) || (sLen >? zlen sigStr - index) then Fail MalformedSig else
  let! sBytes := orCrash (zslice sigStr index (index + sLen)) in
  let! s := parseScalar der sBytes in
  let index := index + sLen in
  if negb (index =? zlen sigStr) then Fail MalformedSig else
  Ret (NewSignature r s).

Definition ParseSignature (sigStr : bytes) : outcome SigErr Signature := parseSig sigStr false.
Definition ParseDERSignature (sigStr : bytes) : outcome SigErr Signature := parseSig sigStr true.
End parse.

(** ** The engine's flags and encoding checks *)

Notation ScriptBip16 := (2 ^ 0) (only parsing).
Notation ScriptStrictMultiSig := (2 ^ 1) (only parsing).
Notation ScriptDiscourageUpgradableNops := (2 ^ 2) (only parsing).
Notation ScriptVerifyCheckLockTimeVerify := (2 ^ 3) (only parsing).
Notation ScriptVerifyCheckSequenceVerify := (2 ^ 4) (only parsing).
Notation ScriptVerifyCleanStack := (2 ^ 5) (only parsing).
Notation ScriptVerifyDERSignatures := (2 ^ 6) (only parsing).
Notation ScriptVerifyLowS := (2 ^ 7) (only parsing).
Notation ScriptVerifyMinimalData := (2 ^ 8) (only parsing).
Notation ScriptVerifyNullFail := (2 ^ 9) (only parsing).
Notation ScriptVerifySigPushOnly := (2 ^ 10) (only parsing).
Notation ScriptVerifyStrictEncoding := (2 ^ 11) (only parsing).
Notation ScriptVerifyMinimalIf := (2 ^ 12) (only parsing).
Notation ScriptVerifyDiscourageOpSuccess := (2 ^ 13) (only parsing).
Notation ScriptVerifyDiscourageUpgradeablePubkeyType := (2 ^ 14) (only parsing).

(** [vm.flags&flag == flag]; the checks below only read the flags of the engine. *)
Definition has_flag (flags flag : Z) : bool := Z.land flags flag =? flag.

Definition StandardVerifyFlags : Z :=
  Z.lor ScriptBip16 (Z.lor ScriptVerifyDERSignatures (Z.lor ScriptVerifyStrictEncoding
  (Z.lor ScriptVerifyMinimalData (Z.lor ScriptStrictMultiSig (Z.lor ScriptDiscourageUpgradableNops
  (Z.lor ScriptVerifyCleanStack (Z.lor ScriptVerifyNullFail
  (Z.lor ScriptVerifyCheckLockTimeVerify (Z.lor ScriptVerifyCheckSequenceVerify
  (Z.lor ScriptVerifyLowS (Z.lor ScriptStrictMultiSig (Z.lor ScriptVerifyMinimalIf
  (Z.lor ScriptVerifyDiscourageOpSuccess ScriptVerifyDiscourageUpgradeablePubkeyType))))))))))))).

Definition checkHashTypeEncoding (flags hashType : Z) : outcome ErrorCode unit :=
  if negb (has_flag flags ScriptVerifyStrictEncoding) then Ret tt else
  let sigHashType := Z.land hashType (u32 (Z.lnot 0x80)) in
  if (sigHashType <? 0x1) || (sigHashType >? 0x3) then Fail ErrInvalidSigHashType else Ret tt.

Definition checkPubKeyEncoding (flags : Z) (pubKey : bytes) : outcome ErrorCode unit :=
  if negb (has_flag flags ScriptVerifyStrictEncoding) then Ret tt else
  if (zlen pubKey =? 33) && (byte_is pubKey 0 0x02 || byte_is pubKey 0 0x03) then Ret tt
  else if (zlen pubKey =? 65) && byte_is pubKey 0 0x04 then Ret tt
  else Fail ErrPubKeyType.

Notation asn1SequenceID := 0x30 (only parsing).
Notation asn1IntegerID := 0x02 (only parsing).
Notation minSigLen := 8 (only parsing).
Notation maxSigLen := 72 (only parsing).

Definition checkSignatureEncoding `{Crypto} (flags : Z) (sig : bytes) : outcome ErrorCode unit :=
  if negb (has_flag flags ScriptVerifyDERSignatures) && negb (has_flag flags ScriptVerifyLowS)
     && negb (has_flag flags ScriptVerifyStrictEncoding) then Ret tt else
  let sigLen := zlen sig in
  if sigLen <? minSigLen then Fail ErrSigTooShort else
  if sigLen >? maxSigLen then Fail ErrSigTooLong else
  let! seqID := at_ sig 0 in
  if negb (seqID =? asn1SequenceID) then Fail ErrSigInvalidSeqID else
  let! dataLen := at_ sig 1 in
  if negb (dataLen =? sigLen - 2) then Fail ErrSigInvalidDataLen else
  let rOffset := 4 in
  let! rLen := at_ sig 3 in
  let sTypeOffset := rOffset + rLen in
  let sLenOffset := sTypeOffset + 1 in
  if sTypeOffset >=? sigLen then Fail ErrSigMissingSTypeID else
  if sLenOffset >=? sigLen then Fail ErrSigMissingSLen else
  let sOffset := sLenOffset + 1 in
  let! sLen := at_ sig sLenOffset in
  if negb (sOffset + sLen =? sigLen) then Fail ErrSigInvalidSLen else
  let! rType := at_ sig 2 in
  if negb (rType =? asn1IntegerID) then Fail ErrSigInvalidRIntID else
  if rLen =? 0 then Fail ErrSigZeroRLen else
  let! r0 := at_ sig rOffset in
  if negb (Z.land r0 0x80 =? 0) then Fail ErrSigNegativeR else
  let! rPadded :=
    (if (rLen >? 1) && (r0 =? 0x00)
     then let! r1 := at_ sig (rOffset + 1) in Ret (Z.land r1 0x80 =? 0) else Ret false) in
  if rPadded then Fail ErrSigTooMuchRPadding else
  let! sType := at_ sig sTypeOffset in
  if negb (sType =? asn1IntegerID) then Fail ErrSigInvalidSIntID else
  if sLen =? 0 then Fail ErrSigZeroSLen else
  let! s0 := at_ sig sOffset in
  if negb (Z.land s0 0x80 =? 0) then Fail ErrSigNegativeS else
  let! sPadded :=
    (if (sLen >? 1) && (s0 =? 0x00)
     then let! s1 := at_ sig (sOffset + 1) in Ret (Z.land s1 0x80 =? 0) else Ret false) in
  if sPadded then Fail ErrSigTooMuchSPadding else
  if has_flag flags ScriptVerifyLowS then
    let! sBytes := orCrash (zslice sig sOffset (sOffset + sLen)) in
    if be_val sBytes >? Z.shiftr curveN 1 then Fail ErrSigHighS else Ret tt
  else Ret tt.

(** ** Indexing *)

Definition returns {E A} (o : outcome E A) : Prop :=
  match o with Ret _ | Fail _ => True | Crash | NoFuel => False end.

Lemma at_in {E} s i : 0 <= i < zlen s -> exists v, at_ (E := E) s i = Ret v /\ 0 <= v < 256.
Proof.
  intros Hi. destruct (znth_is_Some s i Hi) as [b Hb]. unfold at_. rewrite Hb.
  exists (b2z b). split; [done|apply b2z_range].
Qed.

(** Evaluate an index that is in range, naming the byte. *)
Ltac step_at v Hv :=
  match goal with |- context [@at_ ?T ?s ?i] =>
    let E := fresh "E" in
    destruct (@at_in T s i) as (v & E & Hv); [|rewrite E; clear E; cbn [bindO]] end.

Lemma canonicalPadding_total b : zlen b > 0 -> returns (canonicalPadding b).
Proof.
  intros Hb. unfold canonicalPadding. step_at b0 Hb0; [lia|]. case_match; [done|].
  destruct ((zlen b >? 1) && (b0 =? 0)) eqn:E; [|done]. zbool. step_at b1 Hb1; [lia|]. by case_match.
Qed.

Lemma parseScalar_total `{Crypto} der b : zlen b > 0 -> returns (parseScalar der b).
Proof.
  intros Hb. unfold parseScalar. pose proof (canonicalPadding_total b Hb) as Hp.
  destruct der; [destruct (canonicalPadding b) as [[]| | |]; try done|]; cbn [bindO];
    (case_match; [done|]); destruct (SetByteSlice _) as [r ov]; destruct ov; try done; by case_match.
Qed.

(** ** Parsing DER is stricter than parsing BER *)

Lemma parseScalar_der `{Crypto} b r : parseScalar true b = Ret r -> parseScalar false b = Ret r.
Proof.
  unfold parseScalar. cbn [bindO]. destruct (canonicalPadding b) as [[]| | |]; cbn [bindO]; done.
Qed.

Lemma parseSig_der `{Crypto} s sg : parseSig s true = Ret sg -> parseSig s false = Ret sg.
Proof.
  unfold parseSig. cbv zeta. intros E.
  repeat match goal with
  | H : (if ?c then _ else _) = Ret _ |- _ =>
      let Ec := fresh in destruct c eqn:Ec; [discriminate H|]
  | H : bindO ?m _ = Ret _ |- _ =>
      let Em := fresh in let a := fresh "a" in
      destruct m as [a| | |] eqn:Em; [|discriminate H..];
      lazymatch type of Em with
      | parseScalar true _ = _ => rewrite (parseScalar_der _ _ Em)
      | _ => idtac
      end; cbn [bindO] in H |- *
  end.
  exact E.
Qed.

Lemma parseSig_total `{Crypto} s der : returns (parseSig s der).
Proof.
  unfold parseSig. cbv zeta. rewrite !Z.add_0_l.
  destruct (Z.ltb_spec (zlen s) 8) as [|H8]; [done|].
  step_at magic Hm; [lia|]. case_match; [done|].
  step_at siglen Hsl; [lia|]. destruct ((u8 _ >? zlen s) || _) eqn:E1; [done|]. zbool.
  set (n := u8 (siglen + 2)) in *.
  destruct (zslice s 0 n) as [t|] eqn:Et; [|rewrite zslice_Some in Et by lia; done].
  apply zslice_inv in Et as (_ & _ & Hn & _). rewrite Z.sub_0_r in Hn. cbn [orCrash bindO].
  step_at mk Hmk; [lia|]. case_match; [done|]. step_at rLen Hr; [lia|].
  destruct ((rLen <=? 0) || _) eqn:E2; [done|]. zbool.
  replace (1 + 1 + 1 + 1) with 4 in * by lia.
  destruct (zslice t 4 (4 + rLen)) as [rb|] eqn:Er; [|rewrite zslice_Some in Er by lia; done].
  apply zslice_inv in Er as (_ & _ & Hrb & _). cbn [orCrash bindO].
  pose proof (parseScalar_total der rb ltac:(lia)) as Hp.
  destruct (parseScalar der rb); try done. cbn [bindO].
  step_at mk2 Hmk2; [lia|]. case_match; [done|]. step_at sLen Hs; [lia|].
  destruct ((sLen <=? 0) || _) eqn:E3; [done|]. zbool.
  destruct (zslice t (4 + rLen + 1 + 1) _) as [sb|] eqn:Es; [|rewrite zslice_Some in Es by lia; done].
  apply zslice_inv in Es as (_ & _ & Hsb & _). cbn [orCrash bindO].
  pose proof (parseScalar_total der sb ltac:(lia)) as Hp2.
  destruct (parseScalar der sb); try done. cbn [bindO]. by case_match.
Qed.

Lemma checkSignatureEncoding_total `{Crypto} flags sig : returns (checkSignatureEncoding flags sig).
Proof.
  unfold checkSignatureEncoding. cbv zeta.
  case_match; [done|]. destruct (Z.ltb_spec (zlen sig) 8) as [|H8]; [done|].
  case_match; [done|]. step_at seqID Hseq; [lia|]. case_match; [done|].
  step_at dataLen Hd; [lia|]. case_match; [done|]. step_at rLen Hr; [lia|].
  rewrite !Z.geb_leb. destruct (Z.leb_spec (zlen sig) (4 + rLen)); [done|].
  destruct (Z.leb_spec (zlen sig) (4 + rLen + 1)); [done|].
  step_at sLen Hs; [lia|]. destruct (Z.eqb_spec (4 + rLen + 1 + 1 + sLen) (zlen sig)); [|done]. cbn [negb].
  step_at rType Hrt; [lia|]. case_match; [done|]. destruct (Z.eqb_spec rLen 0); [done|].
  step_at r0 Hr0; [lia|]. case_match; [done|].
  assert (returns (E := ErrorCode) (if (rLen >? 1) && (r0 =? 0)
     then let! r1 := at_ sig (4 + 1) in Ret (Z.land r1 0x80 =? 0) else Ret false)) as Hrp.
  { destruct ((rLen >? 1) && _) eqn:E; [|done]. zbool. step_at r1 Hr1; [lia|]. done. }
  destruct (if (rLen >? 1) && (r0 =? 0) then _ else _) as [[]| | |] in Hrp |- *; try done.
  cbn [bindO]. step_at sType Hst; [lia|]. case_match; [done|]. destruct (Z.eqb_spec sLen 0); [done|].
  step_at s0 Hs0; [lia|]. case_match; [done|].
  assert (returns (E := ErrorCode) (if (sLen >? 1) && (s0 =? 0)
     then let! s1 := at_ sig (4 + rLen + 1 + 1 + 1) in Ret (Z.land s1 0x80 =? 0) else Ret false)) as Hsp.
  { destruct ((sLen >? 1) && _) eqn:E; [|done]. zbool. step_at s1 Hs1; [lia|]. done. }
  destruct (if (sLen >? 1) && (s0 =? 0) then _ else _) as [[]| | |] in Hsp |- *; try done.
  cbn [bindO]. case_match; [|done].
  rewrite zslice_Some by lia. cbn [orCrash bindO]. by case_match.
Qed.

(** ** The engine's check implies the parser's *)

(** A signature in DER form: the two integers and where they stand. *)
Definition der_form (sig : bytes) (rLen sLen : Z) : Prop :=
  8 <= zlen sig <= 72 /\ 1 <= rLen /\ 1 <= sLen /\ 6 + rLen + sLen = zlen sig
  /\ znth sig 0 = Some (z2b 0x30) /\ znth sig 1 = Some (z2b (zlen sig - 2))
  /\ znth sig 2 = Some (z2b 0x02) /\ znth sig 3 = Some (z2b rLen)
  /\ znth sig (4 + rLen) = Some (z2b 0x02) /\ znth sig (5 + rLen) = Some (z2b sLen).

(** An integer that is neither negative nor padded, at [off] with [len] bytes. *)
Definition int_form (sig : bytes) (off len : Z) : Prop :=
  exists b0, znth sig off = Some b0 /\ b2z b0 < 128
    /\ (1 < len -> b2z b0 = 0 -> exists b1, znth sig (off + 1) = Some b1 /\ 128 <= b2z b1).

Lemma at_Ret {E} s i v : at_ (E := E) s i = Ret v -> znth s i = Some (z2b v) /\ 0 <= v < 256.
Proof.
  unfold at_. destruct (znth s i) as [b|]; [|done]. intros [= <-].
  split; [by rewrite z2b_b2z|apply b2z_range].
Qed.

Lemma at_eq {E} s i v : znth s i = Some (z2b v) -> 0 <= v < 256 -> at_ (E := E) s i = Ret v.
Proof. intros Hz Hv. unfold at_. rewrite Hz. simpl. by rewrite b2z_z2b, Z.mod_small. Qed.

Lemma land_80_byte v : 0 <= v < 256 -> (Z.land v 0x80 =? 0) = (v <? 128) /\ (Z.land v 0x80 =? 0x80) = negb (v <? 128).
Proof.
  intros Hv. assert (b2z (z2b v) = v) as <- by (by rewrite b2z_z2b, Z.mod_small).
  by destruct (z2b v).
Qed.

Lemma padded_false {E} sig off len v :
  (if (len >? 1) && (v =? 0)
   then let! r1 := at_ sig (off + 1) in Ret (Z.land r1 0x80 =? 0) else Ret (E := E) false) = Ret false ->
  1 < len -> v = 0 -> exists b1, znth sig (off + 1) = Some b1 /\ 128 <= b2z b1.
Proof.
  intros H Hl ->. rewrite Z.gtb_ltb, (proj2 (Z.ltb_lt _ _)) in H by lia. simpl in H.
  destruct (at_ sig (off + 1)) as [r1| | |] eqn:E1; try done. apply at_Ret in E1 as [E1 Hr].
  simpl in H. injection H as H. destruct (land_80_byte r1 Hr) as [H1 _]. rewrite H1 in H. zbool.
  eexists. split; [exact E1|]. rewrite b2z_z2b, Z.mod_small; lia.
Qed.

Ltac inv_check H :=
  repeat match type of H with
  | (if ?c then Fail _ else _) = Ret _ => let Ec := fresh "C" in destruct c eqn:Ec; [discriminate H|]
  | bindO (at_ ?s ?i) _ = Ret _ =>
      let Em := fresh "A" in let v := fresh "v" in
      destruct (at_ s i) as [v| | |] eqn:Em; [|discriminate H..]; cbn [bindO] in H
  | bindO ?m _ = Ret _ =>
      let Em := fresh "B" in let v := fresh "p" in
      destruct m as [v| | |] eqn:Em; [|discriminate H..]; cbn [bindO] in H
  end.

Lemma land_80_small v : 0 <= v < 256 -> Z.land v 0x80 = 0 -> v < 128.
Proof.
  intros Hv Hl. destruct (land_80_byte v Hv) as [H _]. rewrite Hl in H. simpl in H.
  symmetry in H. by apply Z.ltb_lt in H.
Qed.

Lemma checkSignatureEncoding_form `{Crypto} flags sig :
  has_flag flags ScriptVerifyDERSignatures || has_flag flags ScriptVerifyLowS
    || has_flag flags ScriptVerifyStrictEncoding = true ->
  checkSignatureEncoding flags sig = Ret tt ->
  exists rLen sLen, der_form sig rLen sLen
    /\ int_form sig 4 rLen /\ int_form sig (6 + rLen) sLen
    /\ (has_flag flags ScriptVerifyLowS = true -> exists sb,
          zslice sig (6 + rLen) (6 + rLen + sLen) = Some sb /\ be_val sb <= Z.shiftr curveN 1).
Proof.
  intros Hf Hc. unfold checkSignatureEncoding in Hc. cbv zeta in Hc.
  rewrite <- !negb_orb, Hf in Hc. cbn [negb] in Hc. inv_check Hc. zbool.
  repeat match goal with Ha : at_ _ _ = Ret _ |- _ => apply at_Ret in Ha as [? ?] end.
  subst v v0 v3 v5 p p0. apply land_80_small in C8, C12; [|done..].
  replace (4 + v1 + 1 + 1) with (6 + v1) in * by lia.
  exists v1, v2. split_and!.
  - unfold der_form. split_and!; try done; try lia. rewrite <- H8. f_equal. lia.
  - exists (z2b v4). rewrite b2z_z2b, Z.mod_small by lia. split_and!; [done|lia|].
    by apply (padded_false (E := ErrorCode)).
  - exists (z2b v6). rewrite b2z_z2b, Z.mod_small by lia. split_and!; [done|lia|].
    by apply (padded_false (E := ErrorCode)).
  - intros Hl. rewrite Hl in Hc. destruct (zslice sig _ _) as [sb|]; [|done]. cbn [orCrash bindO] in Hc.
    exists sb. split; [done|]. case_match; [done|]. zbool. lia.
Qed.

Lemma canonicalPadding_ok sig off len b :
  1 <= len -> zslice sig off (off + len) = Some b -> int_form sig off len ->
  canonicalPadding b = Ret None.
Proof.
  intros Hl Hb (b0 & H0 & Hlt & H1). unfold canonicalPadding.
  pose proof (zslice_inv _ _ _ _ Hb) as (_ & _ & Hlen & _).
  pose proof (b2z_range b0).
  pose proof (znth_slice _ _ _ _ 0 Hb ltac:(lia)) as E0. rewrite Z.add_0_r, H0 in E0.
  unfold at_ at 1. rewrite E0. cbn [orCrash bindO].
  rewrite (proj2 (land_80_byte _ (b2z_range b0))). rewrite (proj2 (Z.ltb_lt _ _)) by done. cbn [negb].
  destruct ((zlen b >? 1) && _) eqn:E; [|done]. zbool.
  destruct H1 as (b1 & H1 & Hge); [lia|done|].
  pose proof (znth_slice _ _ _ _ 1 Hb ltac:(lia)) as E1. rewrite H1 in E1.
  unfold at_. rewrite E1. cbn [orCrash bindO].
  rewrite (proj2 (land_80_byte _ (b2z_range b1))). rewrite (proj2 (Z.ltb_ge _ _)) by done. done.
Qed.

Lemma parseScalar_form `{Crypto} b :
  canonicalPadding b = Ret None ->
  (exists r, parseScalar true b = Ret r) \/ parseScalar true b = Fail InvalidScalar.
Proof.
  intros Hp. unfold parseScalar. rewrite Hp. cbn [bindO].
  case_match; [by right|]. destruct (SetByteSlice _) as [r ov]. destruct ov; [by right|].
  case_match; eauto.
Qed.

(** On a string in DER form the parser comes down to its two integers. *)
Lemma parseSig_der_form `{Crypto} sig rLen sLen rb sb :
  der_form sig rLen sLen ->
  zslice sig 4 (4 + rLen) = Some rb -> zslice sig (6 + rLen) (6 + rLen + sLen) = Some sb ->
  ParseDERSignature sig
  = let! r := parseScalar true rb in let! s := parseScalar true sb in Ret (NewSignature r s).
Proof.
  intros (Hl & Hr & Hs & Hsum & Z0 & Z1 & Z2 & Z3 & Z4 & Z5) Er Es.
  unfold ParseDERSignature, parseSig. cbv zeta. rewrite !Z.add_0_l.
  ztest. rewrite (at_eq sig 0 0x30) by (done || lia). cbn [bindO Z.eqb Pos.eqb negb].
  rewrite (at_eq sig 1 (zlen sig - 2)) by (done || lia). cbn [bindO].
  replace (zlen sig - 2 + 2) with (zlen sig) by lia. rewrite u8_id by lia. ztest. cbn [orb].
  rewrite zslice_full. cbn [orCrash bindO].
  rewrite (at_eq sig (1 + 1) 0x02) by (done || lia). cbn [bindO Z.eqb Pos.eqb negb].
  rewrite (at_eq sig (1 + 1 + 1) rLen) by (done || lia). cbn [bindO].
  replace (1 + 1 + 1 + 1) with 4 by lia. ztest. cbn [orb]. rewrite Er. cbn [orCrash bindO].
  destruct (parseScalar true rb) as [r| | |]; cbn [bindO]; try done.
  rewrite (at_eq sig (4 + rLen) 0x02) by (done || lia). cbn [bindO Z.eqb Pos.eqb negb].
  replace (4 + rLen + 1) with (5 + rLen) by lia.
  rewrite (at_eq sig (5 + rLen) sLen) by (done || lia). cbn [bindO].
  replace (5 + rLen + 1) with (6 + rLen) by lia. ztest. cbn [orb]. rewrite Es. done.
Qed.

(** What the engine's check accepts, the parser can only refuse because a
    scalar is out of range. *)
Lemma parseSig_form `{Crypto} sig rLen sLen :
  der_form sig rLen sLen -> int_form sig 4 rLen -> int_form sig (6 + rLen) sLen ->
  (exists sg, ParseDERSignature sig = Ret sg) \/ ParseDERSignature sig = Fail InvalidScalar.
Proof.
  intros Hd Hri Hsi. pose proof Hd as (Hl & Hr & Hs & Hsum & _).
  destruct (zslice sig 4 (4 + rLen)) as [rb|] eqn:Er; [|rewrite zslice_Some in Er by lia; done].
  destruct (zslice sig (6 + rLen) (6 + rLen + sLen)) as [sb|] eqn:Es; [|rewrite zslice_Some in Es by lia; done].
  rewrite (parseSig_der_form sig rLen sLen rb sb) by done.
  destruct (parseScalar_form rb) as [[r ->]| ->]; [by apply (canonicalPadding_ok sig 4 rLen)| |by right]. cbn [bindO].
  destruct (parseScalar_form sb) as [[s ->]| ->]; [by apply (canonicalPadding_ok sig (6 + rLen) sLen)| |by right].
  left. by eexists.
Qed.

(** An integer that is well-formed passes both tests of the engine's check. *)
Lemma int_form_checks {E} sig off len : int_form sig off len ->
  exists v, at_ (E := E) sig off = Ret v /\ Z.land v 0x80 = 0
    /\ (if (1 <? len) && (v =? 0)
        then let! r1 := at_ sig (off + 1) in Ret (Z.land r1 0x80 =? 0) else Ret (E := E) false) = Ret false.
Proof.
  intros (b0 & Hz & Hb & Hp). pose proof (b2z_range b0) as Hr. exists (b2z b0).
  unfold at_ at 1. rewrite Hz. cbn [orCrash bindO]. destruct (land_80_byte (b2z b0) Hr) as [H0 _].
  rewrite (proj2 (Z.ltb_lt _ _)) in H0 by done. split_and!; [done|by apply Z.eqb_eq|].
  destruct ((1 <? len) && (b2z b0 =? 0)) eqn:E1; [|done]. zbool. destruct Hp as (b1 & Hz1 & Hb1); [lia|done|].
  unfold at_. rewrite Hz1. cbn [orCrash bindO]. f_equal. destruct (land_80_byte (b2z b1) (b2z_range b1)) as [-> _].
  apply Z.ltb_ge. lia.
Qed.

(** The engine's check accepts every signature in DER form with a low S. *)
Lemma checkSignatureEncoding_complete `{Crypto} flags sig rLen sLen sb :
  der_form sig rLen sLen -> int_form sig 4 rLen -> int_form sig (6 + rLen) sLen ->
  zslice sig (6 + rLen) (6 + rLen + sLen) = Some sb -> be_val sb <= Z.shiftr curveN 1 ->
  checkSignatureEncoding flags sig = Ret tt.
Proof.
  intros (Hl & Hr & Hs & Hsum & Z0 & Z1 & Z2 & Z3 & Z4 & Z5) Hri Hsi Es Hlow.
  unfold checkSignatureEncoding. cbv zeta. destruct (_ && _); [done|]. ztest.
  rewrite (at_eq sig 0 0x30) by (done || lia). cbn [bindO Z.eqb Pos.eqb negb].
  rewrite (at_eq sig 1 (zlen sig - 2)) by (done || lia). cbn [bindO]. ztest. cbn [negb].
  rewrite (at_eq sig 3 rLen) by (done || lia). cbn [bindO]. ztest.
  replace (4 + rLen + 1) with (5 + rLen) by lia.
  rewrite (at_eq sig (5 + rLen) sLen) by (done || lia). cbn [bindO].
  replace (5 + rLen + 1) with (6 + rLen) by lia. ztest. cbn [negb].
  rewrite (at_eq sig 2 0x02) by (done || lia). cbn [bindO Z.eqb Pos.eqb negb].
  destruct (int_form_checks (E := ErrorCode) sig 4 rLen Hri) as (r0 & Ar & Lr & Pr). rewrite Ar. cbn [bindO].
  rewrite Lr. cbn [Z.eqb negb]. rewrite Pr. cbn [bindO].
  rewrite (at_eq sig (4 + rLen) 0x02) by (done || lia). cbn [bindO Z.eqb Pos.eqb negb]. ztest.
  destruct (int_form_checks (E := ErrorCode) sig (6 + rLen) sLen Hsi) as (s0 & As & Ls & Ps). rewrite As. cbn [bindO].
  rewrite Ls. cbn [Z.eqb negb]. rewrite Ps. cbn [bindO]. destruct (has_flag _ _); [|done].
  rewrite Es. cbn [orCrash bindO]. by ztest.
Qed.

(** ** Properties *)

(** Parsing a signature never panics, whatever bytes it is given and in
    either mode: every index the parser computes is inside the string; and
    whatever the strict mode accepts, the lax mode reads as the same
    signature. *)
Theorem parseSig_safe `{Crypto} (s : bytes) (der : bool) :
  returns (parseSig s der)
  /\ forall sg, ParseDERSignature s = Ret sg -> ParseSignature s = Ret sg.
Proof. split; [apply parseSig_total|]. intros sg. apply parseSig_der. Qed.

(** The engine's own check of a signature never panics, and with any of the
    encoding flags set what it accepts has the DER form: the parser then
    refuses it only for a scalar outside the range of the group, never for its
    format; and under the low-S flag the S value is at most half the order. *)
Theorem checkSignatureEncoding_sound `{Crypto} (flags : Z) (sig : bytes) :
  returns (checkSignatureEncoding flags sig)
  /\ (has_flag flags ScriptVerifyDERSignatures || has_flag flags ScriptVerifyLowS
        || has_flag flags ScriptVerifyStrictEncoding = true ->
      checkSignatureEncoding flags sig = Ret tt ->
      ((exists sg, ParseDERSignature sig = Ret sg) \/ ParseDERSignature sig = Fail InvalidScalar)
      /\ exists rLen sLen, der_form sig rLen sLen
         /\ (has_flag flags ScriptVerifyLowS = true -> exists sb,
               zslice sig (6 + rLen) (6 + rLen + sLen) = Some sb /\ be_val sb <= Z.shiftr curveN 1)).
Proof.
  split; [apply checkSignatureEncoding_total|]. intros Hf Hc.
  destruct (checkSignatureEncoding_form flags sig Hf Hc) as (rLen & sLen & Hd & Hr & Hs & Hlow).
  split; [by eapply parseSig_form|]. by exists rLen, sLen.
Qed.
