(* ===== verification/SigCache.v ===== *)
(** The signature cache (src/thoughtd/txscript/sigcache.go).

    A map from signature hashes to one signature and public key each, with a
    bound on its size.  Which entry is evicted depends on the iteration order of
    Go maps: it is chosen by a function [pick] about which only the guarantee of
    [range] is assumed, that it yields a key of the map if there is one.  The
    mutex only orders concurrent calls and is not modelled. *)

From S2P Require Import Prelude Crypto SigParse.

Definition sigCacheEntry : Type := bytes * bytes.  (* sig, pubKey *)

(** The first key a [range] loop over a map yields. *)
Class MapOrder := pick : gmap bytes sigCacheEntry -> option bytes.
Class MapOrderLaws (O : MapOrder) : Prop := {
  pick_some m k : pick m = Some k -> is_Some (m !! k);
  pick_none m : pick m = None -> m = ∅ }.

Record SigCache := mkSigCache { validSigs : gmap bytes sigCacheEntry; maxEntries : Z }.

Definition NewSigCache (maxEntries : Z) : SigCache := mkSigCache ∅ maxEntries.

Definition Exists (s : SigCache) (sigHash sig pubKey : bytes) : bool :=
  match validSigs s !! sigHash with
  | Some (esig, epk) => bool_decide (epk = pubKey) && bool_decide (esig = sig)
  | None => false
  end.

Definition Add `{MapOrder} (sigHash sig pubKey : bytes) (s : SigCache) : SigCache :=
  if maxEntries s <=? 0 then s else
  let m :=
    if Z.of_nat (size (validSigs s)) + 1 >? maxEntries s then
      match pick (validSigs s) with
      | Some k => delete k (validSigs s)
      | None => validSigs s
      end
    else validSigs s in
  mkSigCache (<[sigHash := (sig, pubKey)]> m) (maxEntries s).

(** ** The invariant *)

(** Every entry records a signature that verifies. *)
Definition cache_sound `{Crypto} (s : SigCache) : Prop :=
  forall h sig pk, validSigs s !! h = Some (sig, pk) ->
    exists sg key, ParseSignature sig = Ret sg /\ ParsePubKey pk = Some key
      /\ SigVerify sg h key = true.

Definition cache_bounded (s : SigCache) : Prop :=
  Z.of_nat (size (validSigs s)) <= Z.max 0 (maxEntries s).

Lemma NewSigCache_sound `{Crypto} n : cache_sound (NewSigCache n).
Proof. intros h sig pk Hl. unfold NewSigCache in Hl; simpl in Hl; by rewrite lookup_empty in Hl. Qed.

Lemma Add_lookup `{MapOrder} h sig pk s h' e :
  validSigs (Add h sig pk s) !! h' = Some e ->
  (h' = h /\ e = (sig, pk)) \/ validSigs s !! h' = Some e.
Proof.
  unfold Add. case_match; [auto|]. cbv zeta. simpl. intros Hl.
  apply lookup_insert_Some in Hl as [[<- <-]|[Hne Hl]]; [by left|]. right.
  destruct (_ >? _); [|done]. destruct (pick _); [|done]. by apply lookup_delete_Some in Hl as [_ ?].
Qed.

Lemma Add_sound `{Crypto, MapOrder} h sig pk sg key s :
  cache_sound s -> ParseSignature sig = Ret sg -> ParsePubKey pk = Some key ->
  SigVerify sg h key = true -> cache_sound (Add h sig pk s).
Proof.
  intros Hs H1 H2 H3 h' sig' pk' Hl. apply Add_lookup in Hl as [[-> [= -> ->]]|Hl]; [eauto|].
  by apply Hs.
Qed.

Lemma Add_bounded `{MapOrder} `{!MapOrderLaws _} h sig pk s :
  cache_bounded s -> cache_bounded (Add h sig pk s).
Proof.
  unfold cache_bounded, Add. intros Hb. destruct (Z.leb_spec (maxEntries s) 0) as [Hm|Hm]; [done|].
  cbv zeta. simpl.
  assert (forall m : gmap bytes sigCacheEntry, Z.of_nat (size (<[h := (sig, pk)]> m))
    <= Z.of_nat (size m) + 1) as Hins.
  { intros m. destruct (m !! h) eqn:E.
    - rewrite map_size_insert_Some by eauto. lia.
    - rewrite map_size_insert_None by done. lia. }
  rewrite Z.gtb_ltb. destruct (Z.ltb_spec (maxEntries s) (Z.of_nat (size (validSigs s)) + 1)).
  - destruct (pick (validSigs s)) as [k|] eqn:E.
    + apply pick_some in E as Hk. specialize (Hins (delete k (validSigs s))).
      rewrite (map_size_delete_Some _ _ Hk) in Hins.
      assert (size (validSigs s) <> 0%nat).
      { intros Hz. apply map_size_empty_inv in Hz. rewrite Hz in Hk.
        rewrite lookup_empty in Hk. by destruct Hk. }
      lia.
    + apply pick_none in E. rewrite E in *. rewrite map_size_empty in *. specialize (Hins ∅).
      rewrite map_size_empty in Hins. lia.
  - specialize (Hins (validSigs s)). lia.
Qed.

(** A hit is a signature that verifies: the cache answers what verification
    would answer. *)
Lemma Exists_sound `{Crypto} s h sig pk sg key :
  cache_sound s -> Exists s h sig pk = true ->
  (ParseSignature sig = Ret sg \/ ParseDERSignature sig = Ret sg) -> ParsePubKey pk = Some key ->
  SigVerify sg h key = true.
Proof.
  intros Hs He Hsg Hk. unfold Exists in He.
  destruct (validSigs s !! h) as [[esig epk]|] eqn:E; [|done].
  apply andb_prop in He as [->%bool_decide_eq_true ->%bool_decide_eq_true].
  destruct (Hs _ _ _ E) as (sg' & key' & H1 & H2 & H3).
  assert (ParseSignature sig = Ret sg) as Hb by (destruct Hsg; [done|by apply parseSig_der]).
  congruence.
Qed.

(** An order that evaluates: the first key of the list of the map. *)
Definition toy_order : MapOrder := fun m => fst <$> head (map_to_list m).

#[export] Instance toy_order_laws : MapOrderLaws toy_order.
Proof.
  split; intros m; unfold pick, toy_order.
  - intros k. destruct (map_to_list m) as [|[k' e] l] eqn:E; simpl; [done|]. intros [= ->].
    exists e. apply elem_of_map_to_list. rewrite E. left.
  - destruct (map_to_list m) as [|[k' e] l] eqn:E; simpl; [|done]. intros _.
    by apply map_to_list_empty_iff.
Qed.

(** ** Properties *)

(** The cache never changes the outcome of a verification: on a cache all of
    whose entries verified when they were added, a lookup that hits implies that
    the signature, parsed in either mode, verifies under the key; adding a
    verified signature keeps that invariant, and no sequence of additions makes
    the cache exceed its configured size. *)
Theorem SigCache_sound_and_bounded `{Crypto, MapOrder} `{!MapOrderLaws _}
    (s : SigCache) (h sig pk : bytes) (sg : Signature) (key : PublicKey) :
  cache_sound s -> cache_bounded s ->
  (ParseSignature sig = Ret sg \/ ParseDERSignature sig = Ret sg) -> ParsePubKey pk = Some key ->
  (Exists s h sig pk = true -> SigVerify sg h key = true)
  /\ (SigVerify sg h key = true ->
      cache_sound (Add h sig pk s) /\ cache_bounded (Add h sig pk s)
      /\ (0 < maxEntries s -> Exists (Add h sig pk s) h sig pk = true)).
Proof.
  intros Hs Hb Hsg Hk. split; [intros He; by eapply Exists_sound|]. intros Hv. split_and!.
  - eapply Add_sound; try done. destruct Hsg; [done|by apply parseSig_der].
  - by apply Add_bounded.
  - intros Hm. unfold Exists, Add. rewrite (proj2 (Z.leb_gt _ _)) by lia. cbv zeta. simpl.
    rewrite lookup_insert_eq. by rewrite !bool_decide_true.
Qed.

(** A signature that the toy scheme accepts for a key and a digest. *)
Definition toy_sign (pk h : bytes) : bytes :=
  der_sig (toy_bytes (toy_scalar 1 pk)) (toy_bytes (toy_scalar 2 h)).

Lemma SigCache_sound_and_bounded_witness :
  let pk := replicate 33 (z2b 2) in
  let h := replicate 32 (z2b 9) in
  let s := @Add toy_order h (toy_sign pk h) pk (NewSigCache 1) in
  @cache_sound toy s /\ cache_bounded s.
Proof.
  cbv zeta.
  destruct (@SigCache_sound_and_bounded toy toy_order _ (NewSigCache 1) (replicate 32 (z2b 9))
    (toy_sign (replicate 33 (z2b 2)) (replicate 32 (z2b 9))) (replicate 33 (z2b 2))
    (toy_scalar 1 (replicate 33 (z2b 2)), toy_scalar 2 (replicate 32 (z2b 9))) (replicate 33 (z2b 2)))
    as [_ H].
  - exact (@NewSigCache_sound toy 1).
  - vm_compute. discriminate.
  - left. vm_compute. reflexivity.
  - vm_compute. reflexivity.
  - destruct H as (H1 & H2 & _); [vm_compute; reflexivity|]. split; [exact H1|exact H2].
Defined.
