(* ===== verification/Engine.v ===== *)
(** The script engine (src/thoughtd/txscript/engine.go, opcode.go and
    sigvalidate.go).

    The struct [Engine], the handlers of all opcodes, [Step], [Execute] and
    [NewEngine].  A method of the engine is a stateful call on the struct: an
    error of the script is [Fail], a run-time panic [Crash].  The fields
    [hashCache], [witnessVersion], [witnessProgram] and [inputAmount] are never
    read by the methods and are left out. *)

From S2P Require Import Prelude Crypto WireCommon WireTx ScriptError ScriptNum ScriptStack Opcodes Tokenizer Script Standard Sighash SigParse SigCache.

Notation MaxStackSize := 1000 (only parsing).
Notation LockTimeThreshold := 500000000 (only parsing).

Notation OpCondFalse := 0 (only parsing).
Notation OpCondTrue := 1 (only parsing).
Notation OpCondSkip := 2 (only parsing).

Record Engine := mkEngine {
  flags : Z;
  tx : MsgTx;
  txIdx : Z;
  version : Z;
  bip16 : bool;
  sigCache : option SigCache;
  scripts : list bytes;
  scriptIdx : Z;
  opcodeIdx : Z;
  lastCodeSep : Z;
  tokenizer : ScriptTokenizer;
  savedFirstStack : list bytes;
  dstack : stack;
  astack : stack;
  condStack : list Z;
  numOps : Z }.

Notation EM := (M Engine ErrorCode).

(** ** Updates of one field *)

Definition set_sigCache c vm := mkEngine (flags vm) (tx vm) (txIdx vm) (version vm) (bip16 vm) c
  (scripts vm) (scriptIdx vm) (opcodeIdx vm) (lastCodeSep vm) (tokenizer vm) (savedFirstStack vm)
  (dstack vm) (astack vm) (condStack vm) (numOps vm).
Definition set_scripts x vm := mkEngine (flags vm) (tx vm) (txIdx vm) (version vm) (bip16 vm) (sigCache vm)
  x (scriptIdx vm) (opcodeIdx vm) (lastCodeSep vm) (tokenizer vm) (savedFirstStack vm)
  (dstack vm) (astack vm) (condStack vm) (numOps vm).
Definition set_scriptIdx x vm := mkEngine (flags vm) (tx vm) (txIdx vm) (version vm) (bip16 vm) (sigCache vm)
  (scripts vm) x (opcodeIdx vm) (lastCodeSep vm) (tokenizer vm) (savedFirstStack vm)
  (dstack vm) (astack vm) (condStack vm) (numOps vm).
Definition set_opcodeIdx x vm := mkEngine (flags vm) (tx vm) (txIdx vm) (version vm) (bip16 vm) (sigCache vm)
  (scripts vm) (scriptIdx vm) x (lastCodeSep vm) (tokenizer vm) (savedFirstStack vm)
  (dstack vm) (astack vm) (condStack vm) (numOps vm).
Definition set_lastCodeSep x vm := mkEngine (flags vm) (tx vm) (txIdx vm) (version vm) (bip16 vm) (sigCache vm)
  (scripts vm) (scriptIdx vm) (opcodeIdx vm) x (tokenizer vm) (savedFirstStack vm)
  (dstack vm) (astack vm) (condStack vm) (numOps vm).
Definition set_tokenizer x vm := mkEngine (flags vm) (tx vm) (txIdx vm) (version vm) (bip16 vm) (sigCache vm)
  (scripts vm) (scriptIdx vm) (opcodeIdx vm) (lastCodeSep vm) x (savedFirstStack vm)
  (dstack vm) (astack vm) (condStack vm) (numOps vm).
Definition set_savedFirstStack x vm := mkEngine (flags vm) (tx vm) (txIdx vm) (version vm) (bip16 vm) (sigCache vm)
  (scripts vm) (scriptIdx vm) (opcodeIdx vm) (lastCodeSep vm) (tokenizer vm) x
  (dstack vm) (astack vm) (condStack vm) (numOps vm).
Definition set_dstack x vm := mkEngine (flags vm) (tx vm) (txIdx vm) (version vm) (bip16 vm) (sigCache vm)
  (scripts vm) (scriptIdx vm) (opcodeIdx vm) (lastCodeSep vm) (tokenizer vm) (savedFirstStack vm)
  x (astack vm) (condStack vm) (numOps vm).
Definition set_astack x vm := mkEngine (flags vm) (tx vm) (txIdx vm) (version vm) (bip16 vm) (sigCache vm)
  (scripts vm) (scriptIdx vm) (opcodeIdx vm) (lastCodeSep vm) (tokenizer vm) (savedFirstStack vm)
  (dstack vm) x (condStack vm) (numOps vm).
Definition set_condStack x vm := mkEngine (flags vm) (tx vm) (txIdx vm) (version vm) (bip16 vm) (sigCache vm)
  (scripts vm) (scriptIdx vm) (opcodeIdx vm) (lastCodeSep vm) (tokenizer vm) (savedFirstStack vm)
  (dstack vm) (astack vm) x (numOps vm).
Definition set_numOps x vm := mkEngine (flags vm) (tx vm) (txIdx vm) (version vm) (bip16 vm) (sigCache vm)
  (scripts vm) (scriptIdx vm) (opcodeIdx vm) (lastCodeSep vm) (tokenizer vm) (savedFirstStack vm)
  (dstack vm) (astack vm) (condStack vm) x.

(** A method of one of the stacks or of the tokenizer. *)
Definition onD {A} (m : SM A) : EM A := onM dstack set_dstack m.
Definition onA {A} (m : SM A) : EM A := onM astack set_astack m.
Definition onT {A} (m : TM A) : EM A := onM tokenizer set_tokenizer m.

Definition getsM {A} (f : Engine -> A) : EM A := vm <- getM ;; retM (f vm).
Definition nofuelM {S E A} : M S E A := fun s => (NoFuel, s).
(** [_ = call()]: an error is dropped. *)
Definition ignoreM {S E} (m : M S E unit) : M S E unit :=
  fun s => match m s with (Fail _, s') => (Ret tt, s') | r => r end.

Definition hasFlag (flag : Z) (vm : Engine) : bool := has_flag (flags vm) flag.

Definition isBranchExecuting (vm : Engine) : bool :=
  match last (condStack vm) with None => true | Some c => c =? OpCondTrue end.

Definition isOpcodeDisabled (opcode : Z) : bool :=
  existsb (Z.eqb opcode) [OP_CAT; OP_SUBSTR; OP_LEFT; OP_RIGHT; OP_INVERT; OP_AND; OP_OR; OP_XOR;
    OP_2MUL; OP_2DIV; OP_MUL; OP_DIV; OP_MOD; OP_LSHIFT; OP_RSHIFT].

Definition isOpcodeAlwaysIllegal (opcode : Z) : bool :=
  existsb (Z.eqb opcode) [OP_VERIF; OP_VERNOTIF].

Definition isOpcodeConditional (opcode : Z) : bool :=
  existsb (Z.eqb opcode) [OP_IF; OP_NOTIF; OP_ELSE; OP_ENDIF].

Definition checkMinimalDataPush (op : opcode) (data : bytes) : outcome ErrorCode unit :=
  let opcodeVal := value op in
  let dataLen := zlen data in
  let d0 := match data with b :: _ => b2z b | [] => 0 end in
  if (dataLen =? 0) && negb (opcodeVal =? OP_0) then Fail ErrMinimalData
  else if (dataLen =? 1) && (d0 >=? 1) && (d0 <=? 16) then
    if negb (opcodeVal =? u8 (OP_1 + d0 - 1)) then Fail ErrMinimalData else Ret tt
  else if (dataLen =? 1) && (d0 =? 0x81) then
    if negb (opcodeVal =? OP_1NEGATE) then Fail ErrMinimalData else Ret tt
  else if dataLen <=? 75 then
    if negb (opcodeVal =? dataLen) then Fail ErrMinimalData else Ret tt
  else if dataLen <=? 255 then
    if negb (opcodeVal =? OP_PUSHDATA1) then Fail ErrMinimalData else Ret tt
  else if dataLen <=? 65535 then
    if negb (opcodeVal =? OP_PUSHDATA2) then Fail ErrMinimalData else Ret tt
  else Ret tt.

(** ** Opcode handlers (opcode.go)

    The parameters [op] and [data] of a handler are the opcode and its data. *)

Definition opcodeDisabled : EM unit := failM ErrDisabledOpcode.
Definition opcodeReserved : EM unit := failM ErrReservedOpcode.
Definition opcodeInvalid : EM unit := failM ErrReservedOpcode.
Definition opcodeFalse : EM unit := onD (PushByteArray []).
Definition opcodePushData (data : bytes) : EM unit := onD (PushByteArray data).
Definition opcode1Negate : EM unit := onD (PushInt (-1)).
Definition opcodeN (op : opcode) : EM unit := onD (PushInt (u8 (value op - (OP_1 - 1)))).

Definition opcodeNop (op : opcode) : EM unit :=
  if existsb (Z.eqb (value op)) [OP_NOP1; OP_NOP4; OP_NOP5; OP_NOP6; OP_NOP7; OP_NOP8; OP_NOP9; OP_NOP10]
  then
    discourage <- getsM (hasFlag ScriptDiscourageUpgradableNops) ;;
    if discourage then failM ErrDiscourageUpgradableNOPs else retM tt
  else retM tt.

Definition popIfBool : EM bool :=
  minimalIf <- getsM (hasFlag ScriptVerifyMinimalIf) ;;
  if negb minimalIf then onD PopBool else
  so <- onD PopByteArray ;;
  if zlen so >? 1 then failM ErrMinimalIf else
  if (zlen so =? 1) && negb (byte_is so 0 0x01) then failM ErrMinimalIf else
  retM (asBool so).

Definition pushCond (c : Z) : EM unit := modifyM (fun vm => set_condStack (condStack vm ++ [c]) vm).

Definition opcodeIf : EM unit :=
  executing <- getsM isBranchExecuting ;;
  if executing then
    ok <- popIfBool ;;
    pushCond (if ok then OpCondTrue else OpCondFalse)
  else pushCond OpCondSkip.

Definition opcodeNotIf : EM unit :=
  executing <- getsM isBranchExecuting ;;
  if executing then
    ok <- popIfBool ;;
    pushCond (if negb ok then OpCondTrue else OpCondFalse)
  else pushCond OpCondSkip.

(** Replace the last element. *)
Definition set_last {A} (l : list A) (x : A) : list A := removelast l ++ [x].

Definition opcodeElse : EM unit :=
  cond <- getsM condStack ;;
  match last cond with
  | None => failM ErrUnbalancedConditional
  | Some c =>
      if c =? OpCondTrue then modifyM (set_condStack (set_last cond OpCondFalse))
      else if c =? OpCondFalse then modifyM (set_condStack (set_last cond OpCondTrue))
      else retM tt
  end.

Definition opcodeEndif : EM unit :=
  cond <- getsM condStack ;;
  match last cond with
  | None => failM ErrUnbalancedConditional
  | Some _ => modifyM (set_condStack (removelast cond))
  end.

Definition abstractVerify (c : ErrorCode) : EM unit :=
  verified <- onD PopBool ;;
  if negb verified then failM c else retM tt.

Definition opcodeVerify : EM unit := abstractVerify ErrVerify.
Definition opcodeReturn : EM unit := failM ErrEarlyReturn.

Definition verifyLockTime (txLockTime threshold lockTime : Z) : outcome ErrorCode unit :=
  if negb (((txLockTime <? threshold) && (lockTime <? threshold))
           || ((txLockTime >=? threshold) && (lockTime >=? threshold)))
  then Fail ErrUnsatisfiedLockTime
  else if lockTime >? txLockTime then Fail ErrUnsatisfiedLockTime
  else Ret tt.

(** [vm.tx.TxIn[vm.txIdx]] *)
Definition currentTxIn : EM TxIn :=
  vm <- getM ;; liftO (orCrash (znth (TxIns (tx vm)) (txIdx vm))).

Definition opcodeCheckLockTimeVerify : EM unit :=
  enabled <- getsM (hasFlag ScriptVerifyCheckLockTimeVerify) ;;
  if negb enabled then
    discourage <- getsM (hasFlag ScriptDiscourageUpgradableNops) ;;
    if discourage then failM ErrDiscourageUpgradableNOPs else retM tt
  else
  so <- onD (PeekByteArray 0) ;;
  minimal <- getsM (fun vm => verifyMinimalData (dstack vm)) ;;
  lockTime <- liftO (makeScriptNum so minimal 5) ;;
  if lockTime <? 0 then failM ErrNegativeLockTime else
  txLockTime <- getsM (fun vm => LockTime (tx vm)) ;;
  liftO (verifyLockTime txLockTime LockTimeThreshold lockTime) ;;
  txIn <- currentTxIn ;;
  if Sequence txIn =? MaxTxInSequenceNum then failM ErrUnsatisfiedLockTime else retM tt.

Definition opcodeCheckSequenceVerify : EM unit :=
  enabled <- getsM (hasFlag ScriptVerifyCheckSequenceVerify) ;;
  if negb enabled then
    discourage <- getsM (hasFlag ScriptDiscourageUpgradableNops) ;;
    if discourage then failM ErrDiscourageUpgradableNOPs else retM tt
  else
  so <- onD (PeekByteArray 0) ;;
  minimal <- getsM (fun vm => verifyMinimalData (dstack vm)) ;;
  stackSequence <- liftO (makeScriptNum so minimal 5) ;;
  if stackSequence <? 0 then failM ErrNegativeLockTime else
  let sequence := stackSequence in
  if negb (Z.land sequence SequenceLockTimeDisabled =? 0) then retM tt else
  txVersion <- getsM (fun vm => Version (tx vm)) ;;
  if txVersion <? 2 then failM ErrUnsatisfiedLockTime else
  txIn <- currentTxIn ;;
  let txSequence := Sequence txIn in
  if negb (Z.land txSequence SequenceLockTimeDisabled =? 0) then failM ErrUnsatisfiedLockTime else
  let lockTimeMask := Z.lor SequenceLockTimeIsSeconds SequenceLockTimeMask in
  liftO (verifyLockTime (Z.land txSequence lockTimeMask) SequenceLockTimeIsSeconds
    (Z.land sequence lockTimeMask)).

Definition opcodeToAltStack : EM unit := so <- onD PopByteArray ;; onA (PushByteArray so).
Definition opcodeFromAltStack : EM unit := so <- onA PopByteArray ;; onD (PushByteArray so).

Definition opcode2Drop : EM unit := onD (DropN 2).
Definition opcode2Dup : EM unit := onD (DupN 2).
Definition opcode3Dup : EM unit := onD (DupN 3).
Definition opcode2Over : EM unit := onD (OverN 2).
Definition opcode2Rot : EM unit := onD (RotN 2).
Definition opcode2Swap : EM unit := onD (SwapN 2).

Definition opcodeIfDup : EM unit :=
  so <- onD (PeekByteArray 0) ;;
  if asBool so then onD (PushByteArray so) else retM tt.

Definition opcodeDepth : EM unit := onD (d <- Depth ;; PushInt d).
Definition opcodeDrop : EM unit := onD (DropN 1).
Definition opcodeDup : EM unit := onD (DupN 1).
Definition opcodeNip : EM unit := onD (NipN 1).
Definition opcodeOver : EM unit := onD (OverN 1).
Definition opcodePick : EM unit := val <- onD PopInt ;; onD (PickN (Int32 val)).
Definition opcodeRoll : EM unit := val <- onD PopInt ;; onD (RollN (Int32 val)).
Definition opcodeRot : EM unit := onD (RotN 1).
Definition opcodeSwap : EM unit := onD (SwapN 1).
Definition opcodeTuck : EM unit := onD Tuck.
Definition opcodeSize : EM unit := so <- onD (PeekByteArray 0) ;; onD (PushInt (zlen so)).

Definition opcodeEqual : EM unit :=
  a <- onD PopByteArray ;;
  b <- onD PopByteArray ;;
  onD (PushBool (bool_decide (a = b))).
Definition opcodeEqualVerify : EM unit := opcodeEqual ;; abstractVerify ErrEqualVerify.

(** The shape of the numeric opcodes: pop, compute on [int64], push. *)
Definition unary (f : Z -> Z) : EM unit := m <- onD PopInt ;; onD (PushInt (f m)).
Definition binary (f : Z -> Z -> Z) : EM unit :=
  v0 <- onD PopInt ;; v1 <- onD PopInt ;; onD (PushInt (f v0 v1)).
Definition of_bool (b : bool) : Z := if b then 1 else 0.

Definition opcode1Add : EM unit := unary (fun m => i64 (m + 1)).
Definition opcode1Sub : EM unit := unary (fun m => i64 (m - 1)).
Definition opcodeNegate : EM unit := unary (fun m => i64 (- m)).
Definition opcodeAbs : EM unit := unary (fun m => if m <? 0 then i64 (- m) else m).
Definition opcodeNot : EM unit := unary (fun m => of_bool (m =? 0)).
Definition opcode0NotEqual : EM unit := unary (fun m => if negb (m =? 0) then 1 else m).
Definition opcodeAdd : EM unit := binary (fun v0 v1 => i64 (v0 + v1)).
Definition opcodeSub : EM unit := binary (fun v0 v1 => i64 (v1 - v0)).
Definition opcodeBoolAnd : EM unit := binary (fun v0 v1 => of_bool (negb (v0 =? 0) && negb (v1 =? 0))).
Definition opcodeBoolOr : EM unit := binary (fun v0 v1 => of_bool (negb (v0 =? 0) || negb (v1 =? 0))).
Definition opcodeNumEqual : EM unit := binary (fun v0 v1 => of_bool (v0 =? v1)).
Definition opcodeNumEqualVerify : EM unit := opcodeNumEqual ;; abstractVerify ErrNumEqualVerify.
Definition opcodeNumNotEqual : EM unit := binary (fun v0 v1 => of_bool (negb (v0 =? v1))).
Definition opcodeLessThan : EM unit := binary (fun v0 v1 => of_bool (v1 <? v0)).
Definition opcodeGreaterThan : EM unit := binary (fun v0 v1 => of_bool (v1 >? v0)).
Definition opcodeLessThanOrEqual : EM unit := binary (fun v0 v1 => of_bool (v1 <=? v0)).
Definition opcodeGreaterThanOrEqual : EM unit := binary (fun v0 v1 => of_bool (v1 >=? v0)).
Definition opcodeMin : EM unit := binary (fun v0 v1 => if v1 <? v0 then v1 else v0).
Definition opcodeMax : EM unit := binary (fun v0 v1 => if v1 >? v0 then v1 else v0).

Definition opcodeWithin : EM unit :=
  maxVal <- onD PopInt ;;
  minVal <- onD PopInt ;;
  x <- onD PopInt ;;
  onD (PushInt (of_bool ((x >=? minVal) && (x <? maxVal)))).

Section engine.
Context `{Crypto} `{MapOrder}.

(** *** Hashes *)

Definition hashOp (f : bytes -> bytes) : EM unit :=
  buf <- onD PopByteArray ;; onD (PushByteArray (f buf)).

Definition opcodeRipemd160 : EM unit := hashOp ripemd160.
Definition opcodeSha1 : EM unit := hashOp sha1.
Definition opcodeSha256 : EM unit := hashOp sha256.
Definition opcodeHash160 : EM unit := hashOp (fun buf => ripemd160 (sha256 buf)).
Definition opcodeHash256 : EM unit := hashOp DoubleHashB.

Definition opcodeCodeSeparator : EM unit :=
  modifyM (fun vm => set_lastCodeSep (ByteIndex (tokenizer vm)) vm).

(** *** Signatures (sigvalidate.go) *)

(** [vm.scripts[vm.scriptIdx][vm.lastCodeSep:]] *)
Definition subScript : EM bytes :=
  vm <- getM ;;
  s <- liftO (orCrash (znth (scripts vm) (scriptIdx vm))) ;;
  liftO (orCrash (zslice s (lastCodeSep vm) (zlen s))).

(** Errors of parsing a signature and a key: script errors end the script,
    the others make the check false. *)
Inductive sigCheckErr := ScriptErr (e : ErrorCode) | OtherErr.

Definition asScript {A} (o : outcome ErrorCode A) : outcome sigCheckErr A :=
  match o with Ret a => Ret a | Fail e => Fail (ScriptErr e) | Crash => Crash | NoFuel => NoFuel end.
Definition asOther {E A} (o : outcome E A) : outcome sigCheckErr A :=
  match o with Ret a => Ret a | Fail _ => Fail OtherErr | Crash => Crash | NoFuel => NoFuel end.

Definition strictEncoding (vm : Engine) : bool :=
  hasFlag ScriptVerifyStrictEncoding vm || hasFlag ScriptVerifyDERSignatures vm.

Definition parseSignatureFor (vm : Engine) (sigBytes : bytes) : outcome SigErr Signature :=
  if strictEncoding vm then ParseDERSignature sigBytes else ParseSignature sigBytes.

Definition parseBaseSigAndPubkey (pkBytes fullSigBytes : bytes) (vm : Engine) :
    outcome sigCheckErr (PublicKey * Signature * Z) :=
  let! hashType := at_ fullSigBytes (zlen fullSigBytes - 1) in
  let! sigBytes := orCrash (zslice fullSigBytes 0 (zlen fullSigBytes - 1)) in
  let! _ := asScript (checkHashTypeEncoding (flags vm) hashType) in
  let! _ := asScript (checkSignatureEncoding (flags vm) sigBytes) in
  let! _ := asScript (checkPubKeyEncoding (flags vm) pkBytes) in
  match ParsePubKey pkBytes with
  | None => Fail OtherErr
  | Some pubKey =>
      let! signature := asOther (parseSignatureFor vm sigBytes) in
      Ret (pubKey, signature, hashType)
  end.

(** [verifySig]; the multisig handler repeats the same statements. *)
Definition verifySig (sigHash sigBytes pkBytes : bytes) (sig : Signature) (pubKey : PublicKey) :
    EM bool :=
  cache <- getsM sigCache ;;
  match cache with
  | Some c =>
      if Exists c sigHash sigBytes pkBytes then retM true
      else if SigVerify sig sigHash pubKey then
        modifyM (set_sigCache (Some (Add sigHash sigBytes pkBytes c))) ;; retM true
      else retM false
  | None => retM (SigVerify sig sigHash pubKey)
  end.

(** [newBaseSigVerifier] and [Verify]; the result says whether the signature
    is valid, [inr] is the error of the constructor. *)
Definition checkBaseSig (pkBytes fullSigBytes : bytes) : EM (bool + sigCheckErr) :=
  vm <- getM ;;
  match parseBaseSigAndPubkey pkBytes fullSigBytes vm with
  | Fail e => retM (inr e)
  | Crash => crashM
  | NoFuel => nofuelM
  | Ret (pubKey, sig, hashType) =>
      sub <- subScript ;;
      sigBytes <- liftO (orCrash (zslice fullSigBytes 0 (zlen fullSigBytes - 1))) ;;
      sub <- liftO (removeOpcodeByData sub fullSigBytes) ;;
      sigHash <- liftO (calcSignatureHash sub hashType (tx vm) (txIdx vm)) ;;
      valid <- verifySig sigHash sigBytes pkBytes sig pubKey ;;
      retM (inl valid)
  end.

Definition opcodeCheckSig : EM unit :=
  pkBytes <- onD PopByteArray ;;
  fullSigBytes <- onD PopByteArray ;;
  r <- checkBaseSig pkBytes fullSigBytes ;;
  match r with
  | inr (ScriptErr e) => failM e
  | inr OtherErr => onD (PushBool false)
  | inl valid =>
      nullFail <- getsM (hasFlag ScriptVerifyNullFail) ;;
      if negb valid && nullFail && (zlen fullSigBytes >? 0) then failM ErrNullFail
      else onD (PushBool valid)
  end.

Definition opcodeCheckSigVerify : EM unit := opcodeCheckSig ;; abstractVerify ErrCheckSigVerify.

(** *** Multisig *)

Record parsedSigInfo := mkSigInfo {
  signature : bytes; parsedSignature : option Signature; parsed : bool }.

(** Pop [n] items, the top one first. *)
Fixpoint popN (n : nat) : SM (list bytes) :=
  match n with
  | O => retM []
  | S n => x <- PopByteArray ;; xs <- popN n ;; retM (x :: xs)
  end.

(** The loop over the signatures: one public key per round.  [signatures] is
    the slice of pointers, whose parse results are kept between rounds. *)
Fixpoint multisigLoop (fuel : nat) (script : bytes) (pubKeys : list bytes)
    (signatures : list parsedSigInfo)
    (numSignatures numPubKeys pubKeyIdx signatureIdx : Z) : EM bool :=
  match fuel with
  | O => nofuelM
  | S fuel =>
      if negb (numSignatures >? 0) then retM true else
      let pubKeyIdx := pubKeyIdx + 1 in
      let numPubKeys := numPubKeys - 1 in
      if numSignatures >? numPubKeys then retM false else
      sigInfo <- liftO (orCrash (znth signatures signatureIdx)) ;;
      pubKey <- liftO (orCrash (znth pubKeys pubKeyIdx)) ;;
      let rawSig := signature sigInfo in
      if zlen rawSig =? 0 then
        multisigLoop fuel script pubKeys signatures numSignatures numPubKeys pubKeyIdx signatureIdx
      else
      hashType <- liftO (at_ rawSig (zlen rawSig - 1)) ;;
      sigBytes <- liftO (orCrash (zslice rawSig 0 (zlen rawSig - 1))) ;;
      vm <- getM ;;
      '(parsedSig, signatures) <-
        (if negb (parsed sigInfo) then
           liftO (checkHashTypeEncoding (flags vm) hashType) ;;
           liftO (checkSignatureEncoding (flags vm) sigBytes) ;;
           match parseSignatureFor vm sigBytes with
           | Ret sg => retM (Some sg,
               <[Z.to_nat signatureIdx := mkSigInfo rawSig (Some sg) true]> signatures)
           | Fail _ => retM (None,
               <[Z.to_nat signatureIdx := mkSigInfo rawSig (parsedSignature sigInfo) true]> signatures)
           | Crash => crashM
           | NoFuel => nofuelM
           end
         else retM (parsedSignature sigInfo, signatures)) ;;
      match parsedSig with
      | None =>
          multisigLoop fuel script pubKeys signatures numSignatures numPubKeys pubKeyIdx signatureIdx
      | Some sg =>
          liftO (checkPubKeyEncoding (flags vm) pubKey) ;;
          match ParsePubKey pubKey with
          | None =>
              multisigLoop fuel script pubKeys signatures numSignatures numPubKeys pubKeyIdx signatureIdx
          | Some parsedPubKey =>
              hash <- liftO (calcSignatureHash script hashType (tx vm) (txIdx vm)) ;;
              valid <- verifySig hash sigBytes pubKey sg parsedPubKey ;;
              if valid then
                multisigLoop fuel script pubKeys signatures (numSignatures - 1) numPubKeys
                  pubKeyIdx (signatureIdx + 1)
              else
                multisigLoop fuel script pubKeys signatures numSignatures numPubKeys
                  pubKeyIdx signatureIdx
          end
      end
  end.

Definition opcodeCheckMultiSig : EM unit :=
  numKeys <- onD PopInt ;;
  let numPubKeys := Int32 numKeys in
  if numPubKeys <? 0 then failM ErrInvalidPubKeyCount else
  if numPubKeys >? MaxPubKeysPerMultiSig then failM ErrInvalidPubKeyCount else
  modifyM (fun vm => set_numOps (numOps vm + numPubKeys) vm) ;;
  n <- getsM numOps ;;
  if n >? MaxOpsPerScript then failM ErrTooManyOperations else
  pubKeys <- onD (popN (Z.to_nat numPubKeys)) ;;
  numSigs <- onD PopInt ;;
  let numSignatures := Int32 numSigs in
  if numSignatures <? 0 then failM ErrInvalidSignatureCount else
  if numSignatures >? numPubKeys then failM ErrInvalidSignatureCount else
  sigs <- onD (popN (Z.to_nat numSignatures)) ;;
  let signatures := map (fun s => mkSigInfo s None false) sigs in
  dummy <- onD PopByteArray ;;
  strict <- getsM (hasFlag ScriptStrictMultiSig) ;;
  if strict && negb (zlen dummy =? 0) then failM ErrSigNullDummy else
  script <- subScript ;;
  success <- multisigLoop (S (S (Z.to_nat numPubKeys))) script pubKeys signatures
    numSignatures (numPubKeys + 1) (-1) 0 ;;
  nullFail <- getsM (hasFlag ScriptVerifyNullFail) ;;
  if negb success && nullFail && existsb (fun s => zlen s >? 0) sigs then failM ErrNullFail
  else onD (PushBool success).

Definition opcodeCheckMultiSigVerify : EM unit :=
  opcodeCheckMultiSig ;; abstractVerify ErrCheckMultiSigVerify.

(** *** Dispatch: [op.opfunc(op, data, vm)] *)

Definition run_opfunc (op : opcode) (data : bytes) : EM unit :=
  match op_func op with
  | f_False => opcodeFalse
  | f_PushData => opcodePushData data
  | f_1Negate => opcode1Negate
  | f_Reserved => opcodeReserved
  | f_N => opcodeN op
  | f_Nop => opcodeNop op
  | f_If => opcodeIf
  | f_NotIf => opcodeNotIf
  | f_Else => opcodeElse
  | f_Endif => opcodeEndif
  | f_Verify => opcodeVerify
  | f_Return => opcodeReturn
  | f_ToAltStack => opcodeToAltStack
  | f_FromAltStack => opcodeFromAltStack
  | f_2Drop => opcode2Drop
  | f_2Dup => opcode2Dup
  | f_3Dup => opcode3Dup
  | f_2Over => opcode2Over
  | f_2Rot => opcode2Rot
  | f_2Swap => opcode2Swap
  | f_IfDup => opcodeIfDup
  | f_Depth => opcodeDepth
  | f_Drop => opcodeDrop
  | f_Dup => opcodeDup
  | f_Nip => opcodeNip
  | f_Over => opcodeOver
  | f_Pick => opcodePick
  | f_Roll => opcodeRoll
  | f_Rot => opcodeRot
  | f_Swap => opcodeSwap
  | f_Tuck => opcodeTuck
  | f_Disabled => opcodeDisabled
  | f_Size => opcodeSize
  | f_Equal => opcodeEqual
  | f_EqualVerify => opcodeEqualVerify
  | f_1Add => opcode1Add
  | f_1Sub => opcode1Sub
  | f_Negate => opcodeNegate
  | f_Abs => opcodeAbs
  | f_Not => opcodeNot
  | f_0NotEqual => opcode0NotEqual
  | f_Add => opcodeAdd
  | f_Sub => opcodeSub
  | f_BoolAnd => opcodeBoolAnd
  | f_BoolOr => opcodeBoolOr
  | f_NumEqual => opcodeNumEqual
  | f_NumEqualVerify => opcodeNumEqualVerify
  | f_NumNotEqual => opcodeNumNotEqual
  | f_LessThan => opcodeLessThan
  | f_GreaterThan => opcodeGreaterThan
  | f_LessThanOrEqual => opcodeLessThanOrEqual
  | f_GreaterThanOrEqual => opcodeGreaterThanOrEqual
  | f_Min => opcodeMin
  | f_Max => opcodeMax
  | f_Within => opcodeWithin
  | f_Ripemd160 => opcodeRipemd160
  | f_Sha1 => opcodeSha1
  | f_Sha256 => opcodeSha256
  | f_Hash160 => opcodeHash160
  | f_Hash256 => opcodeHash256
  | f_CodeSeparator => opcodeCodeSeparator
  | f_CheckSig => opcodeCheckSig
  | f_CheckSigVerify => opcodeCheckSigVerify
  | f_CheckMultiSig => opcodeCheckMultiSig
  | f_CheckMultiSigVerify => opcodeCheckMultiSigVerify
  | f_CheckLockTimeVerify => opcodeCheckLockTimeVerify
  | f_CheckSequenceVerify => opcodeCheckSequenceVerify
  | f_Invalid => opcodeInvalid
  end.

(** ** The machine (engine.go) *)

Definition executeOpcode (op : opcode) (data : bytes) : EM unit :=
  if isOpcodeDisabled (value op) then failM ErrDisabledOpcode else
  if isOpcodeAlwaysIllegal (value op) then failM ErrReservedOpcode else
  if zlen data >? MaxScriptElementSize then failM ErrElementTooBig else
  vm <- getM ;;
  if negb (isBranchExecuting vm) && negb (isOpcodeConditional (value op)) then retM tt else
  (if verifyMinimalData (dstack vm) && isBranchExecuting vm
      && (value op >=? 0) && (value op <=? OP_PUSHDATA4)
   then liftO (checkMinimalDataPush op data) else retM tt) ;;
  run_opfunc op data.

Definition checkValidPC : EM unit :=
  vm <- getM ;;
  if scriptIdx vm >=? zlen (scripts vm) then failM ErrInvalidProgramCounter else retM tt.

Definition CheckErrorCondition (finalScript : bool) : EM unit :=
  vm <- getM ;;
  if scriptIdx vm <? zlen (scripts vm) then failM ErrScriptUnfinished else
  let cleanStackActive := hasFlag ScriptVerifyCleanStack vm in
  d <- onD Depth ;;
  if finalScript && cleanStackActive && negb (d =? 1) then failM ErrCleanStack
  else if d <? 1 then failM ErrEmptyStack else
  v <- onD PopBool ;;
  if negb v then failM ErrEvalFalse else retM tt.

(** The items bottom first, read with [PeekByteArray]; its errors are dropped. *)
Definition getStack (s : stack) : list bytes :=
  rev (map (fun i => match PeekByteArray (Z.of_nat i) s with (Ret b, _) => b | _ => [] end)
           (seq 0 (Z.to_nat (i32 (zlen (stk s)))))).

Fixpoint pushAll (data : list bytes) : SM unit :=
  match data with
  | [] => retM tt
  | x :: data => PushByteArray x ;; pushAll data
  end.

Definition setStack (data : list bytes) : SM unit :=
  ignoreM (d <- Depth ;; DropN d) ;; pushAll data.

Definition GetStack (vm : Engine) : list bytes := getStack (dstack vm).
Definition SetStack (data : list bytes) : EM unit := onD (setStack data).
Definition GetAltStack (vm : Engine) : list bytes := getStack (astack vm).
Definition SetAltStack (data : list bytes) : EM unit := onA (setStack data).

(** The [switch] of [Step] that moves to the next script. *)
Definition advanceScript : EM unit :=
  vm <- getM ;;
  if (scriptIdx vm =? 0) && bip16 vm then
    modifyM (fun vm => set_scriptIdx (scriptIdx vm + 1) vm) ;;
    modifyM (fun vm => set_savedFirstStack (GetStack vm) vm)
  else if (scriptIdx vm =? 1) && bip16 vm then
    modifyM (fun vm => set_scriptIdx (scriptIdx vm + 1) vm) ;;
    CheckErrorCondition false ;;
    saved <- getsM savedFirstStack ;;
    script <- liftO (orCrash (znth saved (zlen saved - 1))) ;;
    liftO (checkScriptParses script) ;;
    modifyM (fun vm => set_scripts (scripts vm ++ [script]) vm) ;;
    rest <- liftO (orCrash (zslice saved 0 (zlen saved - 1))) ;;
    SetStack rest
  else modifyM (fun vm => set_scriptIdx (scriptIdx vm + 1) vm).

(** The end of a script. *)
Definition nextScript : EM bool :=
  cond <- getsM condStack ;;
  if negb (zlen cond =? 0) then failM ErrUnbalancedConditional else
  onA (ignoreM (d <- Depth ;; DropN d)) ;;
  modifyM (set_numOps 0) ;;
  modifyM (set_opcodeIdx 0) ;;
  advanceScript ;;
  vm <- getM ;;
  (if (scriptIdx vm <? zlen (scripts vm))
      && match znth (scripts vm) (scriptIdx vm) with Some s => zlen s =? 0 | None => false end
   then modifyM (fun vm => set_scriptIdx (scriptIdx vm + 1) vm) else retM tt) ;;
  modifyM (set_lastCodeSep 0) ;;
  vm <- getM ;;
  if scriptIdx vm >=? zlen (scripts vm) then retM true else
  s <- liftO (orCrash (znth (scripts vm) (scriptIdx vm))) ;;
  modifyM (set_tokenizer (MakeScriptTokenizer s)) ;;
  retM false.

(** [Step] returns whether the last opcode has been executed. *)
Definition Step : EM bool :=
  checkValidPC ;;
  more <- onT Next ;;
  if negb more then
    e <- getsM (fun vm => Err (tokenizer vm)) ;;
    match e with
    | Some e => failM e
    | None => failM ErrInvalidProgramCounter
    end
  else
  t <- getsM tokenizer ;;
  match op t with
  | None => crashM
  | Some o =>
      executeOpcode o (bytes_of (Data t)) ;;
      d <- onD Depth ;;
      a <- onA Depth ;;
      if i32 (d + a) >? MaxStackSize then failM ErrStackOverflow else
      modifyM (fun vm => set_opcodeIdx (opcodeIdx vm + 1) vm) ;;
      finished <- getsM (fun vm => Done (tokenizer vm)) ;;
      if finished then nextScript else retM false
  end.

(** The loop of [Execute]. *)
Fixpoint runSteps (fuel : nat) : EM unit :=
  match fuel with
  | O => nofuelM
  | S fuel => done <- Step ;; if done then retM tt else runSteps fuel
  end.

(** Every step consumes a byte of a script; a redeem script is an element of
    the stack and so has at most [MaxScriptElementSize] bytes. *)
Definition exec_fuel (vm : Engine) : nat :=
  S (Z.to_nat (zsum zlen (scripts vm) + MaxScriptElementSize)).

Definition Execute : EM unit :=
  vm <- getM ;;
  if negb (version vm =? 0) then retM tt else
  runSteps (exec_fuel vm) ;;
  CheckErrorCondition true.

(** The checks of [NewEngine] on one script. *)
Fixpoint checkScripts (l : list bytes) : outcome ErrorCode unit :=
  match l with
  | [] => Ret tt
  | scr :: l =>
      if zlen scr >? MaxScriptSize then Fail ErrScriptTooBig else
      let! _ := checkScriptParses scr in
      checkScripts l
  end.

Definition NewEngine (scriptPubKey : bytes) (tx : MsgTx) (txIdx : Z) (flags : Z)
    (sigCache : option SigCache) : outcome ErrorCode Engine :=
  if (txIdx <? 0) || (txIdx >=? zlen (TxIns tx)) then Fail ErrInvalidIndex else
  let! txIn := orCrash (znth (TxIns tx) txIdx) in
  let scriptSig := SignatureScript txIn in
  if (zlen scriptSig =? 0) && (zlen scriptPubKey =? 0) then Fail ErrEvalFalse else
  let! _ :=
    (if has_flag flags ScriptVerifySigPushOnly then
       let! pushOnly := IsPushOnlyScript scriptSig in
       if negb pushOnly then Fail ErrNotPushOnly else Ret tt
     else Ret tt) in
  let! bip16 :=
    (if has_flag flags ScriptBip16 && isScriptHashScript scriptPubKey then
       if negb (has_flag flags ScriptVerifySigPushOnly) then
         let! pushOnly := IsPushOnlyScript scriptSig in
         if negb pushOnly then Fail ErrNotPushOnly else Ret true
       else Ret true
     else Ret false) in
  let scripts := [scriptSig; scriptPubKey] in
  let! _ := checkScripts scripts in
  let scriptIdx := if zlen scriptSig =? 0 then 1 else 0 in
  let minimal := has_flag flags ScriptVerifyMinimalData in
  let! s := orCrash (znth scripts scriptIdx) in
  Ret (mkEngine flags tx txIdx 0 bip16 sigCache scripts scriptIdx 0 0 (MakeScriptTokenizer s)
         [] (mkStack [] minimal) (mkStack [] minimal) [] 0).
End engine.
