(* ===== verification/EngineInv.v ===== *)
(** Safety of the script engine.

    The invariant of the struct [Engine] between two steps, and the proof that
    every opcode handler keeps it: no index, slice or conversion of the engine
    is out of range, the stacks stay within their bounds, and the loop of
    [Execute] ends.  The one exception of the code is named exactly: a signature
    check that is given an empty signature. *)

From S2P Require Import Prelude Crypto WireCommon WireTx ScriptError ScriptNum ScriptStack Opcodes Tokenizer Script Standard Sighash SigParse SigCache Engine.

(** ** Calls that push a bounded number of items

    [Safe I i Phi m]: from a state in [I k] the call [m] neither panics nor runs
    out of fuel, and if it returns [a] then [Phi a] holds and the state is in
    [I (k + i)]; [k] is a bound on the number of items on the stacks. *)

Section safe.
Context {S E : Type} (I : Z -> S -> Prop).

Definition Safe {A} (i : Z) (Phi : A -> Prop) (m : M S E A) : Prop :=
  forall k, 0 <= k -> k + i <= 2 ^ 30 ->
    triple (I k) m (fun a s => Phi a /\ I (k + i) s) any_err.

Lemma safe_bind {A B} i j (Phi : A -> Prop) (Psi : B -> Prop) m c :
  0 <= i <= j -> Safe i Phi m -> (forall a, Phi a -> Safe (j - i) Psi (c a)) ->
  Safe j Psi (bindM m c).
Proof.
  intros Hi Hm Hc k Hk0 Hk. eapply triple_bind; [apply Hm; lia|].
  intros a. apply triple_pure. intros Ha. eapply triple_conseq; [apply (Hc a Ha (k + i)); lia| | |].
  - done.
  - intros b s. by replace (k + i + (j - i)) with (k + j) by lia.
  - done.
Qed.

Lemma safe_assoc {A B C} i (Phi : C -> Prop) (m : M S E A) (f : A -> M S E B) g :
  Safe i Phi (bindM m (fun a => bindM (f a) g)) -> Safe i Phi (bindM (bindM m f) g).
Proof. intros Hm k Hk0 Hk s Hs. rewrite bindM_assoc. by apply Hm. Qed.

Lemma safe_fail {A} i (Phi : A -> Prop) e : Safe i Phi (failM e).
Proof. by intros k ?? s ?. Qed.

Hypothesis I_mono : forall k k' s, k <= k' -> I k s -> I k' s.

Lemma safe_ret {A} i (Phi : A -> Prop) a : 0 <= i -> Phi a -> Safe i Phi (retM a).
Proof using I_mono. intros Hi Ha k Hk0 Hk s Hs. split; [done|]. eapply I_mono; [|exact Hs]. lia. Qed.

Lemma safe_ret_eq {A} (a : A) : Safe 0 (fun x => x = a) (retM a).
Proof using I_mono. by apply safe_ret. Qed.

Lemma safe_weaken {A} i j (Phi Psi : A -> Prop) m :
  Safe i Phi m -> i <= j -> (forall a, Phi a -> Psi a) -> Safe j Psi m.
Proof using I_mono.
  intros Hm Hij HP k Hk0 Hk. eapply triple_conseq; [apply (Hm k); lia|done| |done].
  intros a s [??]. split; [by apply HP|]. eapply I_mono; [|done]. lia.
Qed.

Lemma safe_lift {A} i (Phi : A -> Prop) (o : outcome E A) :
  0 <= i -> returns o -> (forall a, o = Ret a -> Phi a) -> Safe i Phi (liftO o).
Proof using I_mono.
  intros Hi Ho HP k Hk0 Hk s Hs. unfold liftO. destruct o; try done. split; [by apply HP|].
  eapply I_mono; [|done]. lia.
Qed.
End safe.

Create HintDb safe.
#[export] Hint Resolve safe_ret_eq : safe.

(** Follow the structure of a call: binds split off their first call, which a
    lemma of the database must cover; conditionals split. *)
Ltac safe_step :=
  lazymatch goal with
  | |- Safe _ _ _ (bindM (bindM _ _) _) => apply safe_assoc
  | |- Safe _ _ _ (bindM _ _) =>
      eapply safe_bind; [|solve [eauto with safe]|cbv beta; intros ? ?]; [lia|]
  | |- Safe _ _ _ (retM _) => apply safe_ret; [eauto with safe|lia|auto with safe]
  | |- Safe _ _ _ (failM _) => apply safe_fail
  | |- Safe _ _ _ (if ?b then _ else _) => destruct b eqn:?
  | |- Safe _ _ _ (match ?x with _ => _ end) => destruct x eqn:?
  | |- Safe _ _ _ _ => eapply safe_weaken; [eauto with safe|solve [eauto with safe]|lia|auto with safe]
  end.

(** ** The stacks *)

Lemma stack_inv_mono k k' s : k <= k' -> stack_inv k s -> stack_inv k' s.
Proof. apply stack_inv_weaken. Qed.
#[export] Hint Resolve stack_inv_mono : safe.

Notation SafeS := (Safe (E := ErrorCode) stack_inv).
Notation num_ok n := (Z.abs n < 2 ^ 31).

Lemma elem_ok_nil : elem_ok [].
Proof. done. Qed.
Lemma elem_ok_fromBool b : elem_ok (fromBool b).
Proof. by destruct b. Qed.
#[export] Hint Resolve elem_ok_nil elem_ok_fromBool : safe.
#[export] Hint Extern 1 True => exact I : safe.

Lemma safe_Push so : elem_ok so -> SafeS 1 (fun _ => True) (PushByteArray so).
Proof. intros Hso k Hk0 Hk s Hs. split; [done|]. apply Push_triple; [done|done]. Qed.

Lemma safe_nipN idx : SafeS 0 elem_ok (nipN idx).
Proof.
  intros k Hk0 Hk. eapply triple_conseq; [apply (nipN_triple k); lia|done| |done].
  intros a s [??]. split; [done|]. eapply stack_inv_mono; [|done]. lia.
Qed.

Lemma safe_Peek idx : SafeS 0 elem_ok (PeekByteArray idx).
Proof. intros k Hk0 Hk. rewrite Z.add_0_r. apply Peek_triple. lia. Qed.

Lemma makeScriptNum_range v req len n :
  1 <= len <= 7 -> makeScriptNum v req len = Ret n -> Z.abs n < 2 ^ (8 * len - 1).
Proof.
  intros Hl Hm. destruct (Z.leb_spec (zlen v) len).
  - destruct (makeScriptNum_cases v req len ltac:(lia)) as [[E _]|[E _]]; rewrite E in Hm; [|done].
    injection Hm as <-. apply num_val_range; lia.
  - unfold makeScriptNum in Hm. rewrite Z.gtb_ltb, (proj2 (Z.ltb_lt _ _)) in Hm by lia. done.
Qed.

Lemma makeScriptNum_returns v req len : len <= 7 -> returns (makeScriptNum v req len).
Proof.
  intros Hl. destruct (Z.leb_spec (zlen v) len).
  - by destruct (makeScriptNum_cases v req len ltac:(lia)) as [[-> _]|[-> _]].
  - unfold makeScriptNum. by rewrite Z.gtb_ltb, (proj2 (Z.ltb_lt _ _)) by lia.
Qed.

Lemma safe_get_stack : SafeS 0 (fun s => 0 <= i32 (zlen (stk s)) <= 2 ^ 30) getM.
Proof.
  intros k Hk0 Hk s Hs. rewrite Z.add_0_r. split; [|done].
  rewrite i32_depth by (apply (inv_depth k); [lia|done]). destruct Hs. pose proof (zlen_nonneg (stk s)). lia.
Qed.
#[export] Hint Resolve safe_Push safe_nipN safe_Peek safe_get_stack : safe.

Lemma safe_PopInt : SafeS 0 (fun n => num_ok n) PopInt.
Proof.
  unfold PopInt, PopByteArray. do 2 safe_step. apply safe_lift; [eauto with safe|lia| |].
  - apply makeScriptNum_returns. lia.
  - intros n. apply makeScriptNum_range. lia.
Qed.

Lemma Bytes_small n : num_ok n \/ Z.abs n < 2 ^ 40 -> exists v, Bytes n = Ret v /\ elem_ok v.
Proof.
  intros Hn. destruct (Bytes_spec n) as (v & -> & Hm & Hv); [lia|]. exists v. split; [done|].
  unfold elem_ok. assert (zlen v <= 7); [|lia]. apply minimal_len; [lia|done|]. rewrite Hv. simpl. lia.
Qed.

Lemma safe_PushInt n : Z.abs n < 2 ^ 40 -> SafeS 1 (fun _ => True) (PushInt n).
Proof.
  intros Hn. unfold PushInt. destruct (Bytes_small n) as (v & E & Hv); [by right|].
  rewrite E. eapply (safe_bind _ 0 1 elem_ok); [lia|apply safe_lift; [eauto with safe|lia|done|]|].
  - by intros a [= <-].
  - intros a Ha. by apply safe_Push.
Qed.
#[export] Hint Resolve safe_PopInt : safe.
#[export] Hint Extern 2 (Safe _ _ _ (PushInt _)) => apply safe_PushInt; lia : safe.

Lemma safe_popN n : SafeS 0 (fun l => Forall elem_ok l /\ length l = n) (popN n).
Proof.
  induction n as [|n IH]; simpl; [apply safe_ret; [eauto with safe|lia|auto]|].
  unfold PopByteArray. safe_step. eapply safe_bind; [|exact IH|]; [lia|]. intros l [Hl <-].
  apply safe_ret; [eauto with safe|lia|]. auto.
Qed.

Lemma safe_Depth : SafeS 0 (fun d => 0 <= d <= 2 ^ 30) Depth.
Proof. unfold Depth. safe_step. apply safe_ret; [eauto with safe|lia|done]. Qed.

Lemma safe_PopBool : SafeS 0 (fun _ => True) PopBool.
Proof. unfold PopBool, PopByteArray. repeat safe_step. Qed.

Lemma safe_PushBool b : SafeS 1 (fun _ => True) (PushBool b).
Proof. apply safe_Push. auto with safe. Qed.
#[export] Hint Resolve safe_popN safe_Depth safe_PopBool safe_PushBool : safe.

(** ** The engine within one opcode *)

(** The fields no opcode handler changes. *)
Record frame (vm0 vm : Engine) : Prop := {
  fr_flags : flags vm = flags vm0;
  fr_tx : tx vm = tx vm0;
  fr_txIdx : txIdx vm = txIdx vm0;
  fr_version : version vm = version vm0;
  fr_bip16 : bip16 vm = bip16 vm0;
  fr_scripts : scripts vm = scripts vm0;
  fr_scriptIdx : scriptIdx vm = scriptIdx vm0;
  fr_opcodeIdx : opcodeIdx vm = opcodeIdx vm0;
  fr_tokenizer : tokenizer vm = tokenizer vm0;
  fr_saved : savedFirstStack vm = savedFirstStack vm0 }.

Lemma frame_refl vm : frame vm vm.
Proof. by split. Qed.

Definition cond_ok (c : Z) : Prop := c = OpCondFalse \/ c = OpCondTrue \/ c = OpCondSkip.

(** Between the calls of a handler: [vm0] is the engine the handler was given,
    and the two stacks have at most [k] items. *)
Record Iv (vm0 : Engine) (k : Z) (vm : Engine) : Prop := {
  iv_frame : frame vm0 vm;
  iv_depth : zlen (stk (dstack vm)) + zlen (stk (astack vm)) <= k;
  iv_delem : Forall elem_ok (stk (dstack vm));
  iv_aelem : Forall elem_ok (stk (astack vm));
  iv_sep : 0 <= lastCodeSep vm <= zlen (script (tokenizer vm0));
  iv_ops : 0 <= numOps vm <= MaxOpsPerScript;
  iv_cond : Forall cond_ok (condStack vm) }.

Lemma Iv_mono vm0 k k' vm : k <= k' -> Iv vm0 k vm -> Iv vm0 k' vm.
Proof. intros ? []. split; try done. lia. Qed.
#[export] Hint Resolve Iv_mono : safe.

Notation SafeE vm0 := (Safe (E := ErrorCode) (Iv vm0)).

Section lifts.
Variable vm0 : Engine.

Lemma onD_safe {A} i (Phi : A -> Prop) m : SafeS i Phi m -> 0 <= i -> SafeE vm0 i Phi (onD m).
Proof.
  intros Hm Hi k Hk0 Hk vm [Hf Hl Hd Ha Hs Ho Hc]. unfold onD, onM.
  set (a := zlen (stk (astack vm))) in *. pose proof (zlen_nonneg (stk (dstack vm))).
  assert (0 <= a) by apply zlen_nonneg.
  specialize (Hm (k - a) ltac:(lia) ltac:(lia) (dstack vm)).
  destruct (m (dstack vm)) as [[r|e| |] s]; [|done|apply Hm; split; [lia|done]..].
  destruct Hm as [Hr [Hl' He']]; [split; [lia|done]|]. split; [done|]. split; try done.
  - by destruct Hf.
  - simpl. fold a. lia.
Qed.

Lemma onA_safe {A} i (Phi : A -> Prop) m : SafeS i Phi m -> 0 <= i -> SafeE vm0 i Phi (onA m).
Proof.
  intros Hm Hi k Hk0 Hk vm [Hf Hl Hd Ha Hs Ho Hc]. unfold onA, onM.
  set (d := zlen (stk (dstack vm))) in *. pose proof (zlen_nonneg (stk (astack vm))).
  assert (0 <= d) by apply zlen_nonneg.
  specialize (Hm (k - d) ltac:(lia) ltac:(lia) (astack vm)).
  destruct (m (astack vm)) as [[r|e| |] s]; [|done|apply Hm; split; [lia|done]..].
  destruct Hm as [Hr [Hl' He']]; [split; [lia|done]|]. split; [done|]. split; try done.
  - by destruct Hf.
  - simpl. fold d. lia.
Qed.

(** What is known of the engine a handler reads. *)
Lemma getM_safe : SafeE vm0 0 (fun vm => exists k, Iv vm0 k vm) getM.
Proof. intros k Hk0 Hk vm Hv. rewrite Z.add_0_r. split; [by exists k|done]. Qed.

Lemma getsM_safe {A} (f : Engine -> A) :
  SafeE vm0 0 (fun a => exists vm k, a = f vm /\ Iv vm0 k vm) (getsM f).
Proof. intros k Hk0 Hk vm Hv. rewrite Z.add_0_r. split; [|done]. by exists vm, k. Qed.

Lemma set_cond_safe i f :
  0 <= i ->
  (forall vm k, Iv vm0 k vm -> Forall cond_ok (f vm)) ->
  SafeE vm0 i (fun _ => True) (modifyM (fun vm => set_condStack (f vm) vm)).
Proof.
  intros Hi Hf k Hk0 Hk vm Hv. split; [done|]. pose proof (Hf vm k Hv).
  destruct Hv as [Hfr ???]. split; try done; [by destruct Hfr|simpl; lia].
Qed.
End lifts.

#[export] Hint Extern 2 (Safe _ _ _ (onD _)) =>
  apply onD_safe; [solve [eauto with safe]|lia] : safe.
#[export] Hint Extern 2 (Safe _ _ _ (onA _)) =>
  apply onA_safe; [solve [eauto with safe]|lia] : safe.
#[export] Hint Resolve getM_safe getsM_safe : safe.
#[export] Hint Extern 1 (Safe _ _ _ PopByteArray) => unfold PopByteArray : safe.

Lemma cond_ok_bool (b : bool) : cond_ok (if b then OpCondTrue else OpCondFalse).
Proof. unfold cond_ok. destruct b; auto. Qed.

Lemma cond_ok_last c l : Forall cond_ok l -> cond_ok c -> Forall cond_ok (set_last l c).
Proof.
  intros Hl Hc. apply Forall_app. split; [|auto].
  destruct l as [|x l] using rev_ind; [done|]. rewrite removelast_last. by apply Forall_app in Hl as [? _].
Qed.

Lemma cond_ok_removelast l : Forall cond_ok l -> Forall cond_ok (removelast l).
Proof.
  intros Hl. destruct l as [|x l] using rev_ind; [done|]. rewrite removelast_last.
  by apply Forall_app in Hl as [? _].
Qed.

(** ** Total helpers of the signature checks *)

Lemma zlen_unparse_filter f l : zlen (unparse (List.filter f l)) <= zlen (unparse l).
Proof.
  unfold unparse. induction l as [|p l IH]; [done|].
  cbn [List.filter]. destruct (f p); cbn [map concat]; rewrite ?zlen_app; pose proof (zlen_nonneg (op_bytes p.1 p.2)); lia.
Qed.

Lemma removeOpcodeByData_total s d :
  zlen s < 2 ^ 31 -> exists r, removeOpcodeByData s d = Ret r /\ zlen r <= zlen s.
Proof.
  intros Hs. unfold removeOpcodeByData. case_match; [by eexists|].
  rewrite removeLoop_spec by done. eexists. split; [reflexivity|]. case_match; [|done].
  etrans; [apply zlen_unparse_filter|]. pose proof (ops_partition s) as (r & E & _).
  apply (f_equal zlen) in E. rewrite zlen_app in E. pose proof (zlen_nonneg r). lia.
Qed.

Lemma bindO_returns {E A B} (m : outcome E A) (k : A -> outcome E B) :
  returns m -> (forall a, m = Ret a -> returns (k a)) -> returns (bindO m k).
Proof. destruct m; naive_solver. Qed.

Lemma asScript_returns {A} (o : outcome ErrorCode A) : returns o -> returns (asScript o).
Proof. by destruct o. Qed.
Lemma asOther_returns {E A} (o : outcome E A) : returns o -> returns (asOther o).
Proof. by destruct o. Qed.
Lemma checkHashTypeEncoding_returns f h : returns (checkHashTypeEncoding f h).
Proof. unfold checkHashTypeEncoding. cbv zeta. by repeat case_match. Qed.
Lemma checkPubKeyEncoding_returns f k : returns (checkPubKeyEncoding f k).
Proof. unfold checkPubKeyEncoding. by repeat case_match. Qed.
Lemma parseSignatureFor_returns `{Crypto} vm b : returns (parseSignatureFor vm b).
Proof. unfold parseSignatureFor. case_match; apply parseSig_total. Qed.
#[export] Hint Resolve asScript_returns asOther_returns checkHashTypeEncoding_returns
  checkPubKeyEncoding_returns parseSignatureFor_returns checkSignatureEncoding_total : safe.

(** The last byte of a signature is read without a check that there is one. *)
Lemma parseBaseSigAndPubkey_returns `{Crypto} pk sig vm :
  sig <> [] -> returns (parseBaseSigAndPubkey pk sig vm).
Proof.
  intros Hs. assert (0 < zlen sig) as Hl.
  { destruct sig; [done|]. rewrite zlen_cons. pose proof (zlen_nonneg sig). lia. }
  unfold parseBaseSigAndPubkey. destruct (@at_in sigCheckErr sig (zlen sig - 1)) as (h & -> & _); [lia|].
  rewrite zslice_Some by lia. cbn [bindO orCrash].
  repeat (apply bindO_returns; [auto with safe|intros _ _]). case_match; [|done].
  apply bindO_returns; [auto with safe|done].
Qed.

Lemma parseBaseSigAndPubkey_empty `{Crypto} pk vm : parseBaseSigAndPubkey pk [] vm = Crash.
Proof. done. Qed.

(** The item below the top, where CHECKSIG finds the signature, is empty. *)
Definition empty_sig (vm : Engine) : bool :=
  match rev (stk (dstack vm)) with _ :: [] :: _ => true | _ => false end.

Definition isCheckSig (o : opcode) : bool :=
  match op_func o with f_CheckSig | f_CheckSigVerify => true | _ => false end.

Lemma onD_Ret {A} (m : SM A) vm a s :
  m (dstack vm) = (Ret a, s) -> onD m vm = (Ret a, set_dstack s vm).
Proof. unfold onD, onM. by intros ->. Qed.

Lemma onD_Fail {A} (m : SM A) vm e s :
  m (dstack vm) = (Fail e, s) -> onD m vm = (Fail e, set_dstack s vm).
Proof. unfold onD, onM. by intros ->. Qed.

Lemma bindM_fail {S E A B} (m : M S E A) (k : A -> M S E B) s e t :
  m s = (Fail e, t) -> bindM m k s = (Fail e, t).
Proof. unfold bindM. by intros ->. Qed.

(** ** The handlers *)

Section handlers.
Context `{Crypto} `{!CryptoLaws _} `{MapOrder}.
Variable vm0 : Engine.
Hypothesis Htx : 0 <= txIdx vm0 < zlen (TxIns (tx vm0)).
Hypothesis Hscr : znth (scripts vm0) (scriptIdx vm0) = Some (script (tokenizer vm0)).
Hypothesis Htok : tok_ok (tokenizer vm0).

Notation Ok m := (SafeE vm0 3 (fun _ => True) m).

Lemma abstractVerify_safe e : SafeE vm0 0 (fun _ => True) (abstractVerify e).
Proof. unfold abstractVerify. repeat safe_step. Qed.
#[local] Hint Resolve abstractVerify_safe : safe.

Lemma popIfBool_safe : SafeE vm0 0 (fun _ => True) popIfBool.
Proof. unfold popIfBool. repeat safe_step. Qed.

Lemma pushCond_safe c : cond_ok c -> SafeE vm0 0 (fun _ => True) (pushCond c).
Proof.
  intros Hc. apply (set_cond_safe vm0 0 (fun vm => condStack vm ++ [c])); [lia|].
  intros vm k Hv. apply Forall_app. split; [apply Hv|auto].
Qed.
Lemma cond_ok_skip : cond_ok OpCondSkip.
Proof. right. by right. Qed.
#[local] Hint Resolve popIfBool_safe pushCond_safe cond_ok_bool cond_ok_skip : safe.

Lemma opcodeIf_safe : Ok opcodeIf.
Proof. unfold opcodeIf. repeat safe_step. Qed.
Lemma opcodeNotIf_safe : Ok opcodeNotIf.
Proof. unfold opcodeNotIf. repeat safe_step. Qed.

Lemma opcodeElse_safe : Ok opcodeElse.
Proof.
  unfold opcodeElse. safe_step. destruct H1 as (vm & k & -> & Hv).
  destruct (last _); repeat safe_step.
  all: apply (set_cond_safe vm0 _ (fun _ => _)); [lia|]; intros _ _ _; apply cond_ok_last;
    [apply Hv|]; unfold cond_ok; auto.
Qed.

Lemma opcodeEndif_safe : Ok opcodeEndif.
Proof.
  unfold opcodeEndif. safe_step. destruct H1 as (vm & k & -> & Hv).
  destruct (last _); [|apply safe_fail].
  apply (set_cond_safe vm0 _ (fun _ => _)); [lia|]. intros _ _ _. apply cond_ok_removelast, Hv.
Qed.

Lemma opcodeNop_safe op : Ok (opcodeNop op).
Proof. unfold opcodeNop. repeat safe_step. Qed.

Lemma currentTxIn_safe : SafeE vm0 0 (fun _ => True) currentTxIn.
Proof using Htx.
  unfold currentTxIn. safe_step. destruct H1 as (k & [[] ??????]).
  apply safe_lift; [eauto with safe|lia| |done].
  destruct (znth_is_Some (TxIns (tx a)) (txIdx a)) as [ti ->]; [congruence|done].
Qed.

Lemma lift_safe {A} (o : outcome ErrorCode A) :
  returns o -> SafeE vm0 0 (fun a => o = Ret a) (liftO o).
Proof. intros Ho. apply safe_lift; [eauto with safe|lia|done|done]. Qed.

Lemma verifyLockTime_returns a b c : returns (verifyLockTime a b c).
Proof. unfold verifyLockTime. by repeat case_match. Qed.
#[local] Hint Resolve currentTxIn_safe lift_safe verifyLockTime_returns : safe.
#[local] Hint Extern 1 (returns (makeScriptNum _ _ _)) => apply makeScriptNum_returns; lia : safe.

Lemma opcodeCheckLockTimeVerify_safe : Ok opcodeCheckLockTimeVerify.
Proof using Htx. unfold opcodeCheckLockTimeVerify. repeat safe_step. Qed.
Lemma opcodeCheckSequenceVerify_safe : Ok opcodeCheckSequenceVerify.
Proof using Htx. unfold opcodeCheckSequenceVerify. cbv zeta. repeat safe_step. Qed.

Lemma opcodeToAltStack_safe : Ok opcodeToAltStack.
Proof. unfold opcodeToAltStack. repeat safe_step. Qed.
Lemma opcodeFromAltStack_safe : Ok opcodeFromAltStack.
Proof. unfold opcodeFromAltStack. repeat safe_step. Qed.

(** The methods that move or copy items, at the sizes the opcodes use. *)
Ltac unroll :=
  apply onD_safe; [|lia];
  unfold DropN, DupN, RotN, SwapN, OverN, PickN, RollN, NipN, Tuck, PopByteArray; cbv zeta;
  change (Z.to_nat 1) with 1%nat; change (Z.to_nat 2) with 2%nat; change (Z.to_nat 3) with 3%nat;
  cbn [Z.ltb Z.compare Pos.compare Pos.compare_cont timesM]; repeat safe_step.

Lemma moves_safe :
  Ok opcode2Drop /\ Ok opcode2Dup /\ Ok opcode3Dup /\ Ok opcode2Over /\ Ok opcode2Rot
  /\ Ok opcode2Swap /\ Ok opcodeDrop /\ Ok opcodeDup /\ Ok opcodeNip /\ Ok opcodeOver
  /\ Ok opcodeRot /\ Ok opcodeSwap /\ Ok opcodeTuck.
Proof. split_and!; unroll. Qed.

Lemma opcodeIfDup_safe : Ok opcodeIfDup.
Proof. unfold opcodeIfDup. repeat safe_step. Qed.

Lemma opcodePick_safe : Ok opcodePick.
Proof. unfold opcodePick. safe_step. unroll. Qed.
Lemma opcodeRoll_safe : Ok opcodeRoll.
Proof. unfold opcodeRoll. safe_step. unroll. Qed.

Lemma opcodeDepth_safe : Ok opcodeDepth.
Proof. unfold opcodeDepth. apply onD_safe; [|lia]. repeat safe_step. Qed.

Lemma opcodeSize_safe : Ok opcodeSize.
Proof.
  unfold opcodeSize. safe_step. apply onD_safe; [|lia].
  pose proof (zlen_nonneg a). unfold elem_ok in *. safe_step.
Qed.

Lemma opcodeEqual_safe : SafeE vm0 1 (fun _ => True) opcodeEqual.
Proof. unfold opcodeEqual. repeat safe_step. Qed.
#[local] Hint Resolve opcodeEqual_safe : safe.
Lemma opcodeEqualVerify_safe : Ok opcodeEqualVerify.
Proof. unfold opcodeEqualVerify. repeat safe_step. Qed.

(** The operands have less than 32 bits, so the results have less than 40. *)
Lemma unary_safe f :
  (forall m, num_ok m -> Z.abs (f m) < 2 ^ 40) -> SafeE vm0 1 (fun _ => True) (unary f).
Proof. intros Hf. unfold unary. safe_step. specialize (Hf a H1). safe_step. Qed.

Lemma binary_safe f :
  (forall m n, num_ok m -> num_ok n -> Z.abs (f m n) < 2 ^ 40) ->
  SafeE vm0 1 (fun _ => True) (binary f).
Proof. intros Hf. unfold binary. do 2 safe_step. specialize (Hf a a0 H1 H2). safe_step. Qed.

Lemma of_bool_range b : Z.abs (of_bool b) < 2 ^ 40.
Proof. by destruct b. Qed.

Ltac arith :=
  first [apply unary_safe | apply binary_safe]; intros;
  first [apply of_bool_range
        | repeat match goal with |- context [if ?b then _ else _] => destruct b end;
          rewrite ?i64_id by lia; lia].

Notation Ok1 m := (SafeE vm0 1 (fun _ => True) m).
Lemma arith_safe :
  Ok1 opcode1Add /\ Ok1 opcode1Sub /\ Ok1 opcodeNegate /\ Ok1 opcodeAbs /\ Ok1 opcodeNot
  /\ Ok1 opcode0NotEqual /\ Ok1 opcodeAdd /\ Ok1 opcodeSub /\ Ok1 opcodeBoolAnd
  /\ Ok1 opcodeBoolOr /\ Ok1 opcodeNumEqual /\ Ok1 opcodeNumNotEqual /\ Ok1 opcodeLessThan
  /\ Ok1 opcodeGreaterThan /\ Ok1 opcodeLessThanOrEqual /\ Ok1 opcodeGreaterThanOrEqual
  /\ Ok1 opcodeMin /\ Ok1 opcodeMax.
Proof. split_and!; arith. Qed.

Lemma opcodeNumEqualVerify_safe : Ok opcodeNumEqualVerify.
Proof.
  unfold opcodeNumEqualVerify.
  assert (Ok1 opcodeNumEqual) as Hn by apply arith_safe. repeat safe_step.
Qed.

Lemma opcodeWithin_safe : Ok opcodeWithin.
Proof.
  unfold opcodeWithin. do 3 safe_step. apply onD_safe; [|lia].
  pose proof (of_bool_range ((a1 >=? a0) && (a1 <? a))). safe_step.
Qed.

Lemma hashOp_safe f : (forall b, elem_ok (f b)) -> Ok (hashOp f).
Proof. intros Hf. unfold hashOp. safe_step. specialize (Hf a). safe_step. Qed.

Lemma hashes_safe :
  Ok opcodeRipemd160 /\ Ok opcodeSha1 /\ Ok opcodeSha256 /\ Ok opcodeHash160 /\ Ok opcodeHash256.
Proof using CryptoLaws0.
  split_and!; apply hashOp_safe; intros b; unfold elem_ok, DoubleHashB;
    rewrite ?sha256_len, ?sha1_len, ?ripemd160_len; lia.
Qed.

Lemma opcodeCodeSeparator_safe : Ok opcodeCodeSeparator.
Proof using Htok.
  intros k Hk0 Hk vm Hv. split; [done|]. destruct Hv as [Hf ??????]. split; try done.
  - by destruct Hf.
  - simpl. lia.
  - simpl. destruct Hf as [_ _ _ _ _ _ _ _ E _]. rewrite E. unfold ByteIndex. apply Htok.
Qed.

(** *** Signature checks *)

Lemma subScript_safe : SafeE vm0 0 (fun s => zlen s < 2 ^ 31) subScript.
Proof using Hscr Htok.
  unfold subScript. safe_step. destruct H1 as (k & [[] ????? ?]).
  rewrite fr_scripts0, fr_scriptIdx0, Hscr. destruct Htok as [_ Hl].
  eapply (safe_bind _ 0); [lia|by apply lift_safe|]. intros s [= <-].
  rewrite zslice_Some by lia. apply safe_lift; [eauto with safe|lia|done|].
  intros s' [= <-]. rewrite zlen_take, zlen_drop. lia.
Qed.

Lemma verifySig_safe h sb pk sg key : SafeE vm0 0 (fun _ => True) (verifySig h sb pk sg key).
Proof.
  unfold verifySig. repeat safe_step.
  intros k Hk0 Hk vm [Hf ??????]. split; [done|]. split; try done; [by destruct Hf|simpl; lia].
Qed.

Lemma calcSignatureHash_returns s ht :
  zlen s < 2 ^ 31 -> returns (calcSignatureHash s ht (tx vm0) (txIdx vm0)).
Proof using CryptoLaws0 Htx.
  intros Hs. by destruct (calcSignatureHash_total s ht (tx vm0) (txIdx vm0)) as (h & -> & _).
Qed.

Lemma checkBaseSig_safe pk sig : sig <> [] -> SafeE vm0 0 (fun _ => True) (checkBaseSig pk sig).
Proof using CryptoLaws0 Htx Hscr Htok.
  intros Hsig. unfold checkBaseSig. safe_step. destruct H1 as (k & [[] ??????]).
  pose proof (parseBaseSigAndPubkey_returns pk sig a Hsig) as Hr.
  destruct (parseBaseSigAndPubkey pk sig a) as [[[key sg] ht]|e| |]; try done; [|safe_step].
  pose proof subScript_safe. safe_step.
  assert (0 < zlen sig) by (destruct sig; [done|]; rewrite zlen_cons; pose proof (zlen_nonneg sig); lia).
  rewrite zslice_Some by lia. do 1 safe_step.
  destruct (removeOpcodeByData_total a0 sig) as (r & -> & Hr'); [done|].
  eapply (safe_bind _ 0); [lia|by apply lift_safe|]. intros ? [= <-].
  rewrite fr_tx0, fr_txIdx0. pose proof (calcSignatureHash_returns r ht ltac:(lia)).
  safe_step. pose proof verifySig_safe. repeat safe_step.
Qed.

(** *** CHECKMULTISIG *)

Lemma lookup_total {A} (l : list A) i :
  0 <= i < zlen l -> SafeE vm0 0 (fun x => znth l i = Some x) (liftO (orCrash (znth l i))).
Proof.
  intros Hi. destruct (znth_is_Some l i Hi) as [x ->].
  apply safe_lift; [eauto with safe|lia|done|]. by intros ? [= ->].
Qed.

Lemma multisigLoop_safe fuel : forall scr keys sigs ns np pi si,
  zlen scr < 2 ^ 31 -> 0 <= ns -> np + pi = zlen keys -> -1 <= pi ->
  0 <= si -> si + ns = zlen sigs -> (Z.to_nat np < fuel)%nat ->
  SafeE vm0 0 (fun _ => True) (multisigLoop fuel scr keys sigs ns np pi si).
Proof using CryptoLaws0 Htx.
  pose proof verifySig_safe as Hver.
  induction fuel as [|fuel IH]; intros scr keys sigs ns np pi si Hs Hns Hnp Hpi Hsi Hss Hf; [lia|].
  cbn [multisigLoop]. destruct (Z.gtb_spec ns 0) as [Hn0|]; cbn [negb]; [|safe_step].
  destruct (Z.gtb_spec ns (np - 1)); [safe_step|].
  eapply (safe_bind _ 0); [lia|apply lookup_total; lia|]. intros info Hinfo.
  eapply (safe_bind _ 0); [lia|apply lookup_total; lia|]. intros key Hkey.
  cbv zeta. destruct (Z.eqb_spec (zlen (signature info)) 0) as [|Hz]; [apply IH; lia|].
  set (raw := signature info) in *. pose proof (zlen_nonneg raw).
  destruct (@at_in ErrorCode raw (zlen raw - 1)) as (ht & -> & _); [lia|].
  rewrite zslice_Some by lia. eapply (safe_bind _ 0); [lia|by apply lift_safe|]. intros ? [= <-].
  safe_step. eapply (safe_bind _ 0); [lia|apply getM_safe|]. intros vm (k & [[] ??????]).
  eapply (safe_bind _ 0 _ (fun p => zlen p.2 = zlen sigs)); [lia| |].
  { destruct (parsed info); cbn [negb]; [safe_step|].
    do 2 safe_step. pose proof (parseSignatureFor_returns vm a) as Hr.
    destruct (parseSignatureFor vm a); try done; safe_step; cbn [snd]; unfold zlen;
      by rewrite length_insert. }
  intros [[sg|] sigs'] Hl; cbn [snd] in Hl; [|apply IH; lia].
  safe_step. destruct (ParsePubKey key); [|apply IH; lia].
  rewrite fr_tx0, fr_txIdx0. pose proof (calcSignatureHash_returns scr ht Hs).
  do 2 safe_step. safe_step; apply IH; lia.
Qed.

(** The operation count is tested right after it is increased. *)
Lemma count_safe {A} n (Phi : A -> Prop) c :
  0 <= n <= MaxPubKeysPerMultiSig -> SafeE vm0 1 Phi c ->
  SafeE vm0 1 Phi (modifyM (fun vm => set_numOps (numOps vm + n) vm) ;;
    m <- getsM numOps ;; if m >? MaxOpsPerScript then failM ErrTooManyOperations else c).
Proof.
  intros Hn Hc k Hk0 Hk vm Hv. unfold getsM. runM. cbn [numOps set_numOps].
  destruct (Z.gtb_spec (numOps vm + n) MaxOpsPerScript); [done|].
  apply Hc; try done. destruct Hv as [[] ??????]. split; try done. cbn. lia.
Qed.

Lemma Int32_range n : num_ok n -> Int32 n = n.
Proof. intros Hn. unfold Int32. ztest. apply i32_id. lia. Qed.

Lemma opcodeCheckMultiSig_safe : SafeE vm0 1 (fun _ => True) opcodeCheckMultiSig.
Proof using CryptoLaws0 Htx Hscr Htok.
  pose proof subScript_safe as Hsub. unfold opcodeCheckMultiSig.
  eapply (safe_bind _ 0); [lia|eauto with safe|]. intros nk Hnk. cbv beta in Hnk.
  rewrite Int32_range by done. cbv zeta.
  destruct (Z.ltb_spec nk 0); [safe_step|]. destruct (Z.gtb_spec nk MaxPubKeysPerMultiSig); [safe_step|].
  apply count_safe; [lia|].
  eapply (safe_bind _ 0); [lia|eauto with safe|]. intros keys [Hkeys Hlk].
  eapply (safe_bind _ 0); [lia|eauto with safe|]. intros ns Hns. cbv beta in Hns.
  rewrite Int32_range by done.
  destruct (Z.ltb_spec ns 0); [safe_step|]. destruct (Z.gtb_spec ns nk); [safe_step|].
  eapply (safe_bind _ 0); [lia|eauto with safe|]. intros sigs [Hsigs Hls].
  do 4 safe_step. eapply (safe_bind _ 0); [lia| |intros ? _; repeat safe_step].
  apply multisigLoop_safe; try done; try lia; unfold zlen; rewrite ?length_map; lia.
Qed.

Lemma opcodeCheckMultiSigVerify_safe : Ok opcodeCheckMultiSigVerify.
Proof using CryptoLaws0 Htx Hscr Htok.
  pose proof opcodeCheckMultiSig_safe. unfold opcodeCheckMultiSigVerify. repeat safe_step.
Qed.

(** *** CHECKSIG *)

(** The handler once the key and the signature are popped. *)
Definition checkSigRest (pkBytes fullSigBytes : bytes) : EM unit :=
  r <- checkBaseSig pkBytes fullSigBytes ;;
  match r with
  | inr (ScriptErr e) => failM e
  | inr OtherErr => onD (PushBool false)
  | inl valid =>
      nullFail <- getsM (hasFlag ScriptVerifyNullFail) ;;
      if negb valid && nullFail && (zlen fullSigBytes >? 0) then failM ErrNullFail
      else onD (PushBool valid)
  end.

Lemma checkSigRest_safe pk sig : sig <> [] -> SafeE vm0 1 (fun _ => True) (checkSigRest pk sig).
Proof using CryptoLaws0 Htx Hscr Htok.
  intros Hs. pose proof (checkBaseSig_safe pk sig Hs). unfold checkSigRest. repeat safe_step.
Qed.

Lemma dstack_depth_ok k vm : k <= 2 ^ 30 -> Iv vm0 k vm -> depth_ok (dstack vm).
Proof.
  intros Hk [_ Hl _ _ _ _ _]. unfold depth_ok. pose proof (zlen_nonneg (stk (astack vm))). lia.
Qed.

(** The two pops. *)
Lemma CheckSig_pops vm :
  depth_ok (dstack vm) ->
  (empty_sig vm = false /\ exists vm', opcodeCheckSig vm = (Fail ErrInvalidStackOperation, vm'))
  \/ exists below sig pk, stk (dstack vm) = below ++ [sig; pk]
      /\ opcodeCheckSig vm = checkSigRest pk sig (set_dstack (set_stk below (dstack vm)) vm).
Proof.
  intros Hd. unfold opcodeCheckSig, empty_sig.
  destruct (stk (dstack vm)) as [|pk l _] eqn:E using rev_ind.
  { left. split; [done|]. eexists. eapply bindM_fail, onD_Fail, Pop_empty, E. }
  erewrite bindM_step by (apply onD_Ret, (Pop_spec _ l pk); done).
  destruct l as [|sig below _] using rev_ind.
  { left. split; [done|]. eexists. by eapply bindM_fail, onD_Fail, Pop_empty. }
  erewrite bindM_step; [|apply onD_Ret, (Pop_spec _ below sig); [|done]].
  - right. exists below, sig, pk. split; [by rewrite <- app_assoc|reflexivity].
  - unfold depth_ok in *. rewrite E in Hd. cbn. rewrite zlen_app in Hd.
    pose proof (zlen_nonneg [pk]). lia.
Qed.

Lemma opcodeCheckSig_triple k :
  0 <= k -> k + 1 <= 2 ^ 30 ->
  triple (fun vm => empty_sig vm = false /\ Iv vm0 k vm) opcodeCheckSig
    (fun _ => Iv vm0 (k + 1)) any_err.
Proof using CryptoLaws0 Htx Hscr Htok.
  intros Hk0 Hk vm [He Hv]. destruct (CheckSig_pops vm) as [(_ & vm' & ->)|(below & sig & pk & E & ->)].
  - apply (dstack_depth_ok k); [lia|done].
  - done.
  - assert (sig <> []) as Hs.
    { intros ->. unfold empty_sig in He. by rewrite E, rev_app_distr in He. }
    assert (Iv vm0 k (set_dstack (set_stk below (dstack vm)) vm)) as Hv'.
    { destruct Hv as [[] Hl Hd ????]. rewrite E in Hl, Hd. apply Forall_app in Hd as [??].
      split; try done. cbn. clear -Hl. autorewrite with zlen in Hl. lia. }
    pose proof (checkSigRest_safe pk sig Hs k Hk0 Hk _ Hv') as Ht.
    destruct (checkSigRest _ _ _) as [[] ?]; try done. by destruct Ht.
Qed.

Lemma opcodeCheckSigVerify_triple k :
  0 <= k -> k + 1 <= 2 ^ 30 ->
  triple (fun vm => empty_sig vm = false /\ Iv vm0 k vm) opcodeCheckSigVerify
    (fun _ => Iv vm0 (k + 1)) any_err.
Proof using CryptoLaws0 Htx Hscr Htok.
  intros Hk0 Hk. eapply triple_bind; [by apply opcodeCheckSig_triple|]. intros u.
  eapply triple_conseq; [apply (abstractVerify_safe ErrCheckSigVerify (k + 1)); lia|done| |done].
  intros ? vm [_ Hv]. by rewrite Z.add_0_r in Hv.
Qed.

(** *** Dispatch *)

Lemma Ok_triple (m : EM unit) k (P : Engine -> Prop) :
  Ok m -> 0 <= k -> k + 3 <= 2 ^ 30 -> (forall vm, P vm -> Iv vm0 k vm) ->
  triple P m (fun _ => Iv vm0 (k + 3)) any_err.
Proof. intros Hm Hk0 Hk HP. eapply triple_conseq; [by apply (Hm k)|done| |done]. by intros [] vm [].  Qed.

Lemma pushes_safe op data :
  elem_ok data -> Ok opcodeFalse /\ Ok (opcodePushData data) /\ Ok opcode1Negate /\ Ok (opcodeN op).
Proof.
  intros Hd. unfold opcodeFalse, opcodePushData, opcode1Negate, opcodeN.
  pose proof (Z.mod_pos_bound (value op - (OP_1 - 1)) (2 ^ 8)) as Hm. unfold u8. split_and!.
  all: safe_step.
Qed.

Lemma Ok1_Ok (m : EM unit) : Ok1 m -> Ok m.
Proof. intros Hm. eapply safe_weaken; [eauto with safe|exact Hm|lia|done]. Qed.

Lemma run_opfunc_triple o data k :
  elem_ok data -> 0 <= k -> k + 3 <= 2 ^ 30 ->
  triple (fun vm => (isCheckSig o = true -> empty_sig vm = false) /\ Iv vm0 k vm)
    (run_opfunc o data) (fun _ => Iv vm0 (k + 3)) any_err.
Proof using CryptoLaws0 Htx Hscr Htok.
  intros Hdata Hk0 Hk.
  destruct (isCheckSig o) eqn:Ec.
  { assert (triple (fun vm => empty_sig vm = false /\ Iv vm0 k vm) (run_opfunc o data)
      (fun _ => Iv vm0 (k + 1)) any_err) as Ht.
    { unfold isCheckSig, run_opfunc in *. destruct (op_func o); try discriminate Ec;
        [apply opcodeCheckSig_triple|apply opcodeCheckSigVerify_triple]; lia. }
    eapply triple_conseq; [exact Ht| | |done].
    - intros vm [Hc Hv]. auto.
    - intros u vm. apply Iv_mono. lia. }
  eapply Ok_triple; [|done..|by intros vm []].
  pose proof moves_safe as Hmoves. pose proof arith_safe as Harith. pose proof hashes_safe as Hhash.
  pose proof (pushes_safe o data Hdata) as Hpush.
  pose proof opcodeCheckMultiSig_safe as Hmulti.
  destruct Hmoves as (?&?&?&?&?&?&?&?&?&?&?&?&?). destruct Hhash as (?&?&?&?&?).
  destruct Harith as (?&?&?&?&?&?&?&?&?&?&?&?&?&?&?&?&?&?). destruct Hpush as (?&?&?&?).
  unfold isCheckSig, run_opfunc in *. destruct (op_func o); try discriminate Ec;
    try match goal with
    | Hm : Ok ?m |- Ok ?m' => constr_eq m m'; exact Hm
    | Hm : Ok1 ?m |- Ok ?m' => constr_eq m m'; exact (Ok1_Ok m Hm)
    | |- Ok opcodeReserved => apply safe_fail
    | |- Ok opcodeDisabled => apply safe_fail
    | |- Ok opcodeReturn => apply safe_fail
    | |- Ok opcodeInvalid => apply safe_fail
    end.
  - apply opcodeNop_safe.
  - apply opcodeIf_safe.
  - apply opcodeNotIf_safe.
  - apply opcodeElse_safe.
  - apply opcodeEndif_safe.
  - eapply safe_weaken; [eauto with safe|apply abstractVerify_safe|lia|done].
  - apply opcodeToAltStack_safe.
  - apply opcodeFromAltStack_safe.
  - apply opcodeIfDup_safe.
  - apply opcodeDepth_safe.
  - apply opcodePick_safe.
  - apply opcodeRoll_safe.
  - apply opcodeSize_safe.
  - apply Ok1_Ok, opcodeEqual_safe.
  - apply opcodeEqualVerify_safe.
  - apply opcodeNumEqualVerify_safe.
  - apply opcodeWithin_safe.
  - apply opcodeCodeSeparator_safe.
  - apply opcodeCheckMultiSigVerify_safe.
  - apply opcodeCheckLockTimeVerify_safe.
  - apply opcodeCheckSequenceVerify_safe.
Qed.
End handlers.

(** ** Copying and clearing the stacks *)

Lemma clear_stack s :
  depth_ok s -> ignoreM (d <- Depth ;; DropN d) s = (Ret tt, set_stk [] s).
Proof.
  intros Hd. unfold ignoreM, Depth, getM, retM. unfold bindM at 1. unfold bindM at 1.
  rewrite i32_depth by done. unfold depth_ok in Hd. destruct (stk s) as [|x l] eqn:E.
  - change (zlen []) with 0. unfold DropN. cbn. by rewrite stack_eta.
  - rewrite (zlen_cons x l) in *. pose proof (zlen_nonneg l).
    unfold DropN. ztest. change [] with (@nil bytes).
    replace (Z.to_nat (1 + zlen l)) with (length (x :: l)) by (simpl; unfold zlen in *; lia).
    rewrite (drop_loop (x :: l) []); [done|unfold depth_ok; rewrite E, zlen_cons; lia|done].
Qed.

Lemma pushAll_spec l : forall s, pushAll l s = (Ret tt, set_stk (stk s ++ l) s).
Proof.
  induction l as [|x l IH]; intros s; cbn [pushAll].
  - rewrite app_nil_r. by destruct s.
  - erewrite bindM_step by reflexivity. rewrite IH. cbn. by rewrite <- app_assoc.
Qed.

Lemma setStack_spec l s : depth_ok s -> setStack l s = (Ret tt, set_stk l s).
Proof.
  intros Hd. unfold setStack. erewrite bindM_step by (by apply clear_stack). by rewrite pushAll_spec.
Qed.

(** [getStack] copies the stack bottom first: the [k]-th item read from the top
    ends up in its place. *)
Lemma getStack_spec s : depth_ok s -> getStack s = stk s.
Proof.
  intros Hd. unfold getStack. rewrite i32_depth, zlen_to_nat by done.
  assert (forall above below, stk s = below ++ above ->
    map (fun i => match PeekByteArray (Z.of_nat i) s with (Ret b, _) => b | _ => [] end)
      (seq 0 (length above)) = rev above) as Hm.
  { induction above as [|x above IH]; intros below Hs; [done|].
    cbn [length rev]. rewrite seq_S, map_app, (IH (below ++ [x])) by (by rewrite <- app_assoc).
    f_equal. cbn [map Nat.add]. fold (zlen above). by rewrite (Peek_spec s below x above). }
  by rewrite (Hm _ []), rev_involutive.
Qed.

(** ** The invariant *)

Definition script_ok (s : bytes) : Prop := zlen s <= MaxScriptSize /\ parses s = true.

(** What holds between two opcodes, and at the end of a script. *)
Record base (vm : Engine) : Prop := {
  b_iv : Iv vm MaxStackSize vm;
  b_tx : 0 <= txIdx vm < zlen (TxIns (tx vm));
  b_scr : znth (scripts vm) (scriptIdx vm) = Some (script (tokenizer vm));
  b_tok : tok_ok (tokenizer vm) /\ err (tokenizer vm) = None;
  b_scripts : Forall script_ok (scripts vm);
  b_saved : Forall elem_ok (savedFirstStack vm) /\ zlen (savedFirstStack vm) <= MaxStackSize;
  b_shape : exists sig pk rest, scripts vm = sig :: pk :: rest
    /\ (bip16 vm = true -> isScriptHashScript pk = true)
    /\ (bip16 vm = false \/ scriptIdx vm <= 1 -> rest = []) /\ zlen rest <= 1 }.

(** A P2SH output whose input pushed nothing: the first opcode fails. *)
Definition fresh_p2sh (vm : Engine) : Prop :=
  stk (dstack vm) = [] /\ condStack vm = [] /\ remaining (tokenizer vm) = script (tokenizer vm)
  /\ isScriptHashScript (script (tokenizer vm)) = true.

(** The invariant of the engine between two calls of [Step]. *)
Record inv (vm : Engine) : Prop := {
  inv_base : base vm;
  inv_more : remaining (tokenizer vm) <> [] /\ parses (remaining (tokenizer vm)) = true;
  inv_p2sh : bip16 vm = true -> scriptIdx vm = 1 -> savedFirstStack vm = [] -> fresh_p2sh vm }.

(** The number of bytes the engine may still execute. *)
Definition steps_left (vm : Engine) : Z :=
  zlen (remaining (tokenizer vm)) + zsum zlen (drop (Z.to_nat (scriptIdx vm + 1)) (scripts vm))
  + (if bip16 vm && (scriptIdx vm <=? 1) then MaxScriptElementSize else 0).

(** The engine after its last script. *)
Record finished (vm : Engine) : Prop := {
  fin_idx : zlen (scripts vm) <= scriptIdx vm;
  fin_cond : condStack vm = [];
  fin_alt : stk (astack vm) = [];
  fin_depth : zlen (stk (dstack vm)) <= MaxStackSize;
  fin_elem : Forall elem_ok (stk (dstack vm)) }.

(** The engine once [Step] has moved to the next script, if there is one. *)
Record advanced (vm : Engine) : Prop := {
  adv_cond : condStack vm = [];
  adv_alt : stk (astack vm) = [];
  adv_ops : numOps vm = 0;
  adv_depth : zlen (stk (dstack vm)) <= MaxStackSize;
  adv_elem : Forall elem_ok (stk (dstack vm));
  adv_tx : 0 <= txIdx vm < zlen (TxIns (tx vm));
  adv_scripts : Forall script_ok (scripts vm);
  adv_saved : Forall elem_ok (savedFirstStack vm) /\ zlen (savedFirstStack vm) <= MaxStackSize;
  adv_idx : 1 <= scriptIdx vm;
  adv_shape : exists sig pk rest, scripts vm = sig :: pk :: rest
    /\ (bip16 vm = true -> isScriptHashScript pk = true)
    /\ (bip16 vm = false \/ scriptIdx vm <= 1 -> rest = []) /\ zlen rest <= 1;
  adv_p2sh : bip16 vm = true -> scriptIdx vm = 1 -> savedFirstStack vm = [] -> stk (dstack vm) = [] }.

Definition bytes_left (vm : Engine) : Z :=
  zsum zlen (drop (Z.to_nat (scriptIdx vm)) (scripts vm))
  + (if bip16 vm && (scriptIdx vm <=? 1) then MaxScriptElementSize else 0).

(** The rest of [nextScript] once the script index has been advanced. *)
Definition nextTail : EM bool :=
  vm <- getM ;;
  (if (scriptIdx vm <? zlen (scripts vm))
      && match znth (scripts vm) (scriptIdx vm) with Some s => zlen s =? 0 | None => false end
   then modifyM (fun vm => set_scriptIdx (scriptIdx vm + 1) vm) else retM tt) ;;
  modifyM (set_lastCodeSep 0) ;;
  vm <- getM ;;
  if scriptIdx vm >=? zlen (scripts vm) then retM true else
  s <- liftO (orCrash (znth (scripts vm) (scriptIdx vm))) ;;
  modifyM (set_tokenizer (MakeScriptTokenizer s)) ;;
  retM false.

Definition step_result (vm : Engine) (bound : Z) (r : outcome ErrorCode bool * Engine) : Prop :=
  match r with
  | (Ret false, vm') => inv vm' /\ steps_left vm' <= bound
  | (Ret true, vm') => finished vm'
  | (Fail _, _) => True
  | (Crash, _) | (NoFuel, _) => False
  end.

Lemma drop_script (l : list bytes) i s :
  znth l i = Some s -> drop (Z.to_nat i) l = s :: drop (Z.to_nat (i + 1)) l.
Proof.
  intros Hs. pose proof (znth_Some _ _ _ Hs) as Hi. rewrite znth_lookup in Hs by lia.
  rewrite (drop_S l s) by done. f_equal. f_equal. lia.
Qed.

Lemma znth_Forall {A} (P : A -> Prop) l i x : Forall P l -> znth l i = Some x -> P x.
Proof. unfold znth. case_decide; [|done]. apply Forall_lookup_1. Qed.

(** Entering a script that is not empty. *)
Lemma enter_script vm s :
  advanced vm -> znth (scripts vm) (scriptIdx vm) = Some s -> zlen s <> 0 ->
  let vm' := set_tokenizer (MakeScriptTokenizer s) (set_lastCodeSep 0 vm) in
  inv vm' /\ steps_left vm' <= bytes_left vm.
Proof.
  intros [] Hs Hz. assert (script_ok s) as [Hl Hp] by (by eapply znth_Forall).
  pose proof (zlen_nonneg s). assert (tok_ok (MakeScriptTokenizer s)) as Ht by (apply make_ok; lia).
  cbv zeta. split.
  - split; [split|..]; cbn; try done.
    + split; cbn; try done; try lia; rewrite ?adv_cond0, ?adv_alt0; try done.
      change (zlen (@nil bytes)) with 0. lia.
    + rewrite remaining_make. split; [|done]. by intros ->.
    + intros Hb Hi Hn. split; [by apply adv_p2sh0|]. cbn. rewrite remaining_make.
      split_and!; try done. destruct adv_shape0 as (sig & pk & rest & E & Hh & _).
      rewrite E, Hi in Hs. injection Hs as <-. by apply Hh.
  - unfold steps_left, bytes_left. cbn [scripts scriptIdx tokenizer bip16 set_tokenizer set_lastCodeSep].
    rewrite remaining_make. rewrite (drop_script _ _ _ Hs). unfold zsum. cbn [foldr]. lia.
Qed.

Lemma nextTail_safe vm : advanced vm -> step_result vm (bytes_left vm) (nextTail vm).
Proof.
  intros Ha. pose proof Ha as []. unfold nextTail. runM.
  destruct (Z.ltb_spec (scriptIdx vm) (zlen (scripts vm))) as [Hi|Hi]; cbn [andb].
  - destruct (znth_is_Some (scripts vm) (scriptIdx vm)) as [s Hs]; [lia|]. rewrite Hs.
    destruct (Z.eqb_spec (zlen s) 0) as [Hz|Hz].
    + cbn [set_scriptIdx set_lastCodeSep scriptIdx scripts].
      assert (zlen (scripts vm) <= scriptIdx vm + 1) as Hend.
      { destruct adv_shape0 as (sig & pk & rest & E & Hh & Hr & Hl). rewrite E in *.
        apply zlen_0_inv in Hz. subst s. rewrite !zlen_cons in *.
        destruct (decide (scriptIdx vm = 1)) as [H1|H1]; [|lia].
        rewrite H1 in Hs. injection Hs as ->.
        destruct (bip16 vm); [by specialize (Hh eq_refl)|]. rewrite Hr by auto.
        change (zlen []) with 0. lia. }
      rewrite Z.geb_leb, (proj2 (Z.leb_le _ _)) by done. by split.
    + cbn [set_scriptIdx set_lastCodeSep scriptIdx scripts]. rewrite Z.geb_leb, (proj2 (Z.leb_gt _ _)) by done.
      rewrite Hs. by apply enter_script.
  - cbn [set_lastCodeSep scriptIdx scripts]. rewrite Z.geb_leb, (proj2 (Z.leb_le _ _)) by done. by split.
Qed.

Lemma onD_PopBool vm below x :
  depth_ok (dstack vm) -> stk (dstack vm) = below ++ [x] ->
  onD PopBool vm = (Ret (asBool x), set_dstack (set_stk below (dstack vm)) vm).
Proof.
  intros Hd E. apply onD_Ret. unfold PopBool. by erewrite bindM_step by (by apply (Pop_spec _ below x)).
Qed.

(** The end of the execution: the script succeeded when every script has run and
    the top of the stack is true, alone on the stack when a clean stack is
    required. *)
Lemma CheckErrorCondition_spec final vm :
  depth_ok (dstack vm) ->
  (exists e vm', CheckErrorCondition final vm = (Fail e, vm')
     /\ ~ (zlen (scripts vm) <= scriptIdx vm
           /\ exists below x, stk (dstack vm) = below ++ [x] /\ asBool x = true
              /\ (final && hasFlag ScriptVerifyCleanStack vm = true -> below = [])))
  \/ (zlen (scripts vm) <= scriptIdx vm
      /\ exists below x, stk (dstack vm) = below ++ [x] /\ asBool x = true
         /\ (final && hasFlag ScriptVerifyCleanStack vm = true -> below = [])
         /\ CheckErrorCondition final vm = (Ret tt, set_dstack (set_stk below (dstack vm)) vm)).
Proof.
  intros Hd. unfold CheckErrorCondition. erewrite bindM_step by reflexivity. cbv zeta.
  destruct (Z.ltb_spec (scriptIdx vm) (zlen (scripts vm))).
  { left. do 2 eexists. split; [reflexivity|]. lia. }
  assert (onD Depth vm = (Ret (zlen (stk (dstack vm))), vm)) as Hdep.
  { unfold onD, onM, Depth. runM. rewrite i32_depth by done. by destruct vm. }
  rewrite (bindM_step _ _ _ _ _ Hdep). clear Hdep.
  destruct (stk (dstack vm)) as [|x below _] eqn:E using rev_ind.
  { left. change (zlen []) with 0. case_match; do 2 eexists; (split; [reflexivity|]);
      intros (_ & below & x & Hb & _); by destruct below. }
  rewrite zlen_app. change (zlen [x]) with 1. pose proof (zlen_nonneg below).
  destruct (final && hasFlag ScriptVerifyCleanStack vm) eqn:Ef; cbn [andb].
  - destruct (Z.eqb_spec (zlen below + 1) 1) as [Hz|Hz]; cbn [negb].
    + assert (below = []) as -> by (apply zlen_0_inv; lia). change (zlen []) with 0. ztest.
      erewrite bindM_step by (by apply onD_PopBool). destruct (asBool x) eqn:Ex; cbn [negb].
      * right. split; [lia|]. by exists [], x.
      * left. do 2 eexists. split; [reflexivity|]. intros (_ & b & y & Hb & Hy & _).
        apply app_inj_tail in Hb as [_ ->]. congruence.
    + left. do 2 eexists. split; [reflexivity|]. intros (_ & b & y & Hb & _ & Hc).
      apply app_inj_tail in Hb as [-> _]. rewrite Hc in Hz by done. done.
  - ztest.
    erewrite bindM_step by (by apply onD_PopBool). destruct (asBool x) eqn:Ex; cbn [negb].
    + right. split; [lia|]. by exists below, x.
    + left. do 2 eexists. split; [reflexivity|]. intros (_ & b & y & Hb & Hy & _).
      apply app_inj_tail in Hb as [_ ->]. congruence.
Qed.

(** The end of a script: what [nextScript] starts from. *)
Record at_end (vm : Engine) : Prop := {
  e_base : base vm;
  e_done : remaining (tokenizer vm) = [];
  e_saved : bip16 vm = true -> scriptIdx vm = 1 -> savedFirstStack vm <> [] }.

(** The same engine with the state of the finished script cleared. *)
Definition cleared (vm : Engine) : Engine :=
  set_opcodeIdx 0 (set_numOps 0 (set_astack (set_stk [] (astack vm)) vm)).

Lemma base_depth vm : base vm -> depth_ok (dstack vm) /\ depth_ok (astack vm).
Proof.
  intros [[_ Hl _ _ _ _ _] _ _ _ _ _ _]. unfold depth_ok.
  pose proof (zlen_nonneg (stk (dstack vm))). pose proof (zlen_nonneg (stk (astack vm))). lia.
Qed.

(** The saved stack of a P2SH input is taken apart: its top is the redeem
    script, the rest becomes the stack. *)
Lemma redeem_step vm saved redeem :
  depth_ok (dstack vm) -> savedFirstStack vm = saved ++ [redeem] -> zlen redeem < 2 ^ 31 ->
  (saved <- getsM savedFirstStack ;;
   script <- liftO (orCrash (znth saved (zlen saved - 1))) ;;
   liftO (checkScriptParses script) ;;
   modifyM (fun vm => set_scripts (scripts vm ++ [script]) vm) ;;
   rest <- liftO (orCrash (zslice saved 0 (zlen saved - 1))) ;;
   SetStack rest) vm
  = if parses redeem
    then (Ret tt, set_dstack (set_stk saved (dstack vm)) (set_scripts (scripts vm ++ [redeem]) vm))
    else (Fail ErrMalformedPush, vm).
Proof.
  intros Hd Hs Hr. erewrite bindM_step by reflexivity. rewrite Hs, znth_top.
  erewrite bindM_step by reflexivity. rewrite checkScriptParses_spec by done.
  destruct (parses redeem); [|by erewrite bindM_fail by reflexivity].
  do 2 (erewrite bindM_step by reflexivity). rewrite zlen_app. change (zlen [redeem]) with 1.
  replace (zlen saved + 1 - 1) with (zlen saved) by lia. rewrite zslice_app_l.
  erewrite bindM_step by reflexivity. unfold SetStack. by apply onD_Ret, setStack_spec.
Qed.

(** The engine in the next script, with a new stack, saved stack and scripts. *)
Definition next_engine (vm : Engine) (sc saved l : list bytes) : Engine :=
  set_dstack (set_stk l (dstack vm)) (set_savedFirstStack saved (set_scripts sc
    (set_scriptIdx (scriptIdx vm + 1) (cleared vm)))).

Lemma next_engine_advanced vm extra saved l :
  base vm -> condStack vm = [] -> remaining (tokenizer vm) = [] ->
  zlen l <= MaxStackSize -> Forall elem_ok l ->
  Forall elem_ok saved -> zlen saved <= MaxStackSize ->
  (extra = [] /\ (bip16 vm = true -> scriptIdx vm = 0 -> saved = [] -> l = [])
   \/ exists redeem, extra = [redeem] /\ script_ok redeem /\ elem_ok redeem
      /\ bip16 vm = true /\ scriptIdx vm = 1) ->
  let vm' := next_engine vm (scripts vm ++ extra) saved l in
  advanced vm' /\ bytes_left vm' <= steps_left vm.
Proof.
  intros [_ Htx Hscr Htok Hscrs Hsaved (sig & pk & rest & E & Hh & Hr & Hl1)] Hc Hdone Hl He Hs Hsl Hex.
  pose proof (znth_Some _ _ _ Hscr) as Hi. cbv zeta. split.
  - split; cbn; try done; try lia.
    + apply Forall_app. split; [done|]. destruct Hex as [[-> _]|(r & -> & ? & _)]; auto.
    + destruct Hex as [[-> _]|(r & -> & _ & _ & Hb & Hi1)].
      * rewrite app_nil_r, E. exists sig, pk, rest. split_and!; try done.
        intros [?|?]; apply Hr; [by left|right; lia].
      * exists sig, pk, [r]. rewrite E, Hr by lia. split_and!; try done.
        intros [?|?]; [congruence|lia].
    + destruct Hex as [[_ Hp]|(r & _ & _ & _ & _ & Hi1)]; [|lia]. intros Hb Hi0 Hn.
      apply Hp; [done|lia|done].
  - unfold bytes_left, steps_left. cbn [scripts scriptIdx bip16 next_engine set_dstack
      set_savedFirstStack set_scripts set_scriptIdx cleared set_opcodeIdx set_numOps set_astack].
    rewrite Hdone. change (zlen (@nil byte)) with 0.
    rewrite drop_app, zsum_app. destruct Hex as [[-> _]|(r & -> & _ & Hre & Hb & Hi1)].
    + rewrite drop_nil. change (zsum zlen []) with 0.
      destruct (bip16 vm); cbn [andb]; [|lia].
      destruct (Z.leb_spec (scriptIdx vm + 1) 1), (Z.leb_spec (scriptIdx vm) 1); lia.
    + rewrite Hb, Hi1. cbn [andb]. ztest. unfold elem_ok in Hre.
      assert (zsum zlen (drop (Z.to_nat (1 + 1) - length (scripts vm)) [r]) <= zlen r); [|lia].
      destruct (Z.to_nat (1 + 1) - length (scripts vm))%nat as [|n]; cbn;
        [lia|rewrite drop_nil; cbn; pose proof (zlen_nonneg r); lia].
Qed.

Lemma advanceScript_safe vm :
  at_end vm -> condStack vm = [] ->
  match advanceScript (cleared vm) with
  | (Ret _, vm') => advanced vm' /\ bytes_left vm' <= steps_left vm
  | (Fail _, _) => True
  | (Crash, _) | (NoFuel, _) => False
  end.
Proof.
  intros [Hb He Hsv] Hc. destruct (base_depth vm Hb) as [Hdd _].
  pose proof Hb as [[_ Hl Hde _ _ _ _] _ _ _ _ [Hse Hsl] _].
  pose proof (zlen_nonneg (stk (astack vm))).
  unfold advanceScript. erewrite bindM_step by reflexivity.
  change (scriptIdx (cleared vm)) with (scriptIdx vm). change (bip16 (cleared vm)) with (bip16 vm).
  destruct ((scriptIdx vm =? 0) && bip16 vm) eqn:E0; [|destruct ((scriptIdx vm =? 1) && bip16 vm) eqn:E1].
  - pose proof (next_engine_advanced vm [] (stk (dstack vm)) (stk (dstack vm)) Hb Hc He) as Hn.
    rewrite app_nil_r in Hn. erewrite bindM_step by reflexivity. unfold modifyM, GetStack.
    rewrite getStack_spec by done. unfold next_engine in Hn. rewrite stack_eta in Hn by done.
    apply Hn; try done; try lia. by left.
  - zbool. destruct (savedFirstStack vm) as [|redeem saved _] eqn:Es using rev_ind; [by destruct Hsv|].
    erewrite bindM_step by reflexivity.
    set (vm1 := set_scriptIdx (scriptIdx vm + 1) (cleared vm)).
    destruct (CheckErrorCondition_spec false vm1) as [(e & vm' & Hf & _)|(_ & below & x & Ex & _ & _ & Hf)];
      [done|by rewrite (bindM_fail _ _ _ _ _ Hf)|]. rewrite (bindM_step _ _ _ _ _ Hf).
    apply Forall_app in Hse as [Hse Hre]. inversion Hre as [|?? Hre' _]; subst.
    rewrite zlen_app in Hsl. change (zlen [redeem]) with 1 in Hsl. unfold elem_ok in Hre'.
    rewrite (redeem_step _ saved redeem); [|unfold depth_ok in *; cbn|done|lia].
    2:{ change (stk (dstack vm1)) with (stk (dstack vm)) in Ex. rewrite Ex, zlen_app in Hdd.
        pose proof (zlen_nonneg [x]). lia. }
    destruct (parses redeem) eqn:Ep; [|done].
    pose proof (next_engine_advanced vm [redeem] (savedFirstStack vm) saved Hb Hc He) as Hn.
    apply Hn; try done; try lia; [rewrite Es; by apply Forall_app|rewrite Es, zlen_app; done|].
    right. exists redeem. split_and!; try done. split; [lia|done].
  - pose proof (next_engine_advanced vm [] (savedFirstStack vm) (stk (dstack vm)) Hb Hc He) as Hn.
    rewrite app_nil_r in Hn. unfold modifyM. unfold next_engine in Hn. rewrite stack_eta in Hn by done.
    apply Hn; try done; try lia. left. split; [done|]. intros Hb16 Hi0. rewrite Hb16, Hi0 in E0. done.
Qed.

Lemma nextScript_safe vm : at_end vm -> step_result vm (steps_left vm) (nextScript vm).
Proof.
  intros He. unfold nextScript. erewrite bindM_step by reflexivity.
  destruct (Z.eqb_spec (zlen (condStack vm)) 0) as [Hc|Hc]; cbn [negb]; [|done].
  apply zlen_0_inv in Hc. destruct (base_depth vm (e_base vm He)) as [_ Ha].
  assert (onA (ignoreM (d <- Depth ;; DropN d)) vm = (Ret tt, set_astack (set_stk [] (astack vm)) vm)) as Hcl
    by (unfold onA, onM; by rewrite clear_stack).
  rewrite (bindM_step _ _ _ _ _ Hcl). do 2 (erewrite bindM_step by reflexivity).
  pose proof (advanceScript_safe vm He Hc) as Hadv. fold (cleared vm).
  change (bindM advanceScript _ _) with ((advanceScript ;; nextTail) (cleared vm)). unfold bindM.
  destruct (advanceScript (cleared vm)) as [[[]|e| |] vm']; try done. destruct Hadv as [Ha' Hle].
  pose proof (nextTail_safe vm' Ha') as Ht. unfold step_result in *.
  destruct (nextTail vm') as [[[]|e| |] vm'']; try done. destruct Ht. split; [done|lia].
Qed.

Lemma zsum_zlen_nonneg (l : list bytes) : 0 <= zsum zlen l.
Proof. induction l as [|x l IH]; [done|]. unfold zsum in *. cbn. pose proof (zlen_nonneg x). lia. Qed.

(** ** One step *)

Section step.
Context `{Crypto} `{!CryptoLaws _} `{MapOrder}.

(** The engine with the opcode read. *)
Definition fetched (vm : Engine) (p : opcode * option bytes * bytes) : Engine :=
  set_tokenizer (tok_after (tokenizer vm) p) vm.

(** [Step] after the execution of the opcode. *)
Definition stepTail : EM bool :=
  d <- onD Depth ;;
  a <- onA Depth ;;
  if i32 (d + a) >? MaxStackSize then failM ErrStackOverflow else
  modifyM (fun vm => set_opcodeIdx (opcodeIdx vm + 1) vm) ;;
  finished <- getsM (fun vm => Done (tokenizer vm)) ;;
  if finished then nextScript else retM false.

Lemma Step_exec vm o d rest :
  tok_ok (tokenizer vm) -> err (tokenizer vm) = None -> scriptIdx vm < zlen (scripts vm) ->
  parse_op (remaining (tokenizer vm)) = Some (o, d, rest) ->
  Step vm = (executeOpcode o (bytes_of d) ;; stepTail) (fetched vm (o, d, rest)).
Proof.
  intros Ht He Hi Hp. unfold Step. unfold checkValidPC.
  assert ((vm <- getM ;; if scriptIdx vm >=? zlen (scripts vm) then failM ErrInvalidProgramCounter
    else retM tt : EM unit) vm = (Ret tt, vm)) as Hpc.
  { runM. rewrite Z.geb_leb, (proj2 (Z.leb_gt _ _)) by lia. done. }
  rewrite (bindM_step _ _ _ _ _ Hpc).
  assert (onT Next vm = (Ret true, fetched vm (o, d, rest))) as Hn.
  { unfold onT, onM. rewrite (Next_spec _ Ht He). unfold next_ref.
    destruct (remaining (tokenizer vm)) as [|b s] eqn:E; [done|]. by rewrite Hp. }
  rewrite (bindM_step _ _ _ _ _ Hn). cbn [negb]. erewrite bindM_step by reflexivity. reflexivity.
Qed.

(** The next opcode of a script that parses. *)
Lemma parses_next s :
  s <> [] -> parses s = true ->
  exists o d rest, parse_op s = Some (o, d, rest) /\ parses rest = true.
Proof.
  intros Hs Hp. unfold parses, parse_script in *. destruct s as [|b s]; [done|].
  set (n := length (b :: s)) in *. cbn [length] in n. subst n. cbn [parse_all] in Hp.
  destruct (parse_op (b :: s)) as [[[o d] rest]|] eqn:E; [|done]. exists o, d, rest. split; [done|].
  pose proof (parse_op_shorter _ _ _ _ E) as Hl. rewrite zlen_cons in Hl. unfold zlen in Hl.
  rewrite (parse_all_fuel (length rest) (length s)) by lia.
  destruct (parse_all (length s) rest). done.
Qed.

Lemma parse_op_opcode s o d rest : parse_op s = Some (o, d, rest) -> exists b r, s = b :: r /\ o = opcode_at b.
Proof.
  unfold parse_op. destruct s as [|b r]; [done|]. cbv zeta.
  repeat case_match; intros; simplify_eq; by do 2 eexists.
Qed.

Lemma conditional_not_checksig b :
  isOpcodeConditional (value (opcode_at b)) = true -> isCheckSig (opcode_at b) = false.
Proof. destruct b; vm_compute; congruence. Qed.

Lemma checksig_value b :
  isCheckSig (opcode_at b) = true ->
  isOpcodeDisabled (value (opcode_at b)) = false /\ isOpcodeAlwaysIllegal (value (opcode_at b)) = false
  /\ (value (opcode_at b) <=? OP_PUSHDATA4) = false /\ op_length (opcode_at b) = 1.
Proof. destruct b; vm_compute; try discriminate; auto. Qed.

Lemma checkMinimalDataPush_returns o data : returns (checkMinimalDataPush o data).
Proof. unfold checkMinimalDataPush. cbv zeta. by repeat case_match. Qed.

(** The opcode reads the hash type of an empty signature. *)
Definition panics (o : opcode) (vm : Engine) : bool :=
  isBranchExecuting vm && isCheckSig o && empty_sig vm.

Lemma executeOpcode_triple vm0 b data k :
  0 <= txIdx vm0 < zlen (TxIns (tx vm0)) ->
  znth (scripts vm0) (scriptIdx vm0) = Some (script (tokenizer vm0)) -> tok_ok (tokenizer vm0) ->
  0 <= k -> k + 3 <= 2 ^ 30 ->
  triple (fun vm => panics (opcode_at b) vm = false /\ Iv vm0 k vm)
    (executeOpcode (opcode_at b) data) (fun _ => Iv vm0 (k + 3)) any_err.
Proof using CryptoLaws0.
  intros Htx Hscr Htok Hk0 Hk vm [Hp Hv]. set (o := opcode_at b) in *. unfold executeOpcode.
  destruct (isOpcodeDisabled _); [done|]. destruct (isOpcodeAlwaysIllegal _); [done|].
  destruct (Z.gtb_spec (zlen data) MaxScriptElementSize); [done|].
  erewrite bindM_step by reflexivity.
  destruct (negb (isBranchExecuting vm) && negb (isOpcodeConditional (value o))) eqn:Eb.
  { cbn. eapply Iv_mono; [|done]. lia. }
  assert (triple (fun vm => (isCheckSig o = true -> empty_sig vm = false) /\ Iv vm0 k vm)
    (run_opfunc o data) (fun _ => Iv vm0 (k + 3)) any_err) as Ht.
  { by apply run_opfunc_triple. }
  specialize (Ht vm). assert ((isCheckSig o = true -> empty_sig vm = false) /\ Iv vm0 k vm) as Hpre.
  { split; [|done]. intros Hc. unfold panics in Hp. rewrite Hc, andb_true_r in Hp.
    destruct (isBranchExecuting vm); [done|]. cbn [negb andb] in Eb. zbool.
    subst o. by rewrite (conditional_not_checksig b) in Hc. }
  destruct (_ && _ && _ && _); [|by apply Ht].
  pose proof (checkMinimalDataPush_returns o data) as Hr. unfold bindM, liftO.
  destruct (checkMinimalDataPush o data) as [[]|e| |]; [by apply Ht|done..].
Qed.

(** The state the step starts from keeps the invariant of the handlers. *)
Lemma fetched_base vm o d rest :
  base vm -> parse_op (remaining (tokenizer vm)) = Some (o, d, rest) ->
  base (fetched vm (o, d, rest)) /\ remaining (tokenizer (fetched vm (o, d, rest))) = rest.
Proof.
  intros [Hv Htx Hscr [Ht He] Hs Hsv Hsh] Hp.
  destruct (suffix_remaining _ _ _ _ Ht Hp) as (Ht' & Hr & _). split; [|done].
  destruct Hv as [_ ??????]. by split.
Qed.

Lemma Done_remaining t : tok_ok t -> err t = None -> Done t = bool_decide (remaining t = []).
Proof.
  intros [Ho Hl] He. unfold Done. rewrite He, i32_id by (pose proof (zlen_nonneg (script t)); lia).
  unfold remaining. rewrite Z.geb_leb. destruct (Z.leb_spec (zlen (script t)) (offset t)) as [H1|H1].
  - rewrite bool_decide_true; [done|]. apply drop_ge. unfold zlen in *. lia.
  - rewrite bool_decide_false; [done|]. intros E. apply (f_equal zlen) in E.
    rewrite zlen_drop in E. change (zlen []) with 0 in E. lia.
Qed.

Lemma onD_Depth vm : depth_ok (dstack vm) -> onD Depth vm = (Ret (zlen (stk (dstack vm))), vm).
Proof. intros Hd. unfold onD, onM, Depth. runM. rewrite i32_depth by done. by destruct vm. Qed.
Lemma onA_Depth vm : depth_ok (astack vm) -> onA Depth vm = (Ret (zlen (stk (astack vm))), vm).
Proof. intros Hd. unfold onA, onM, Depth. runM. rewrite i32_depth by done. by destruct vm. Qed.

Lemma stepTail_safe vm0 vm :
  base vm0 -> parses (remaining (tokenizer vm0)) = true ->
  (bip16 vm0 = true -> scriptIdx vm0 = 1 -> savedFirstStack vm0 <> []) ->
  Iv vm0 (MaxStackSize + 3) vm -> step_result vm (steps_left vm0) (stepTail vm).
Proof.
  intros [_ Htx Hscr [Ht He] Hs Hsv Hsh] Hp Hsaved [Hf Hl Hd Ha Hsep Ho Hc].
  pose proof (zlen_nonneg (stk (dstack vm))). pose proof (zlen_nonneg (stk (astack vm))).
  unfold stepTail.
  rewrite (bindM_step _ _ _ _ _ (onD_Depth vm ltac:(unfold depth_ok; lia))).
  rewrite (bindM_step _ _ _ _ _ (onA_Depth vm ltac:(unfold depth_ok; lia))).
  rewrite i32_id by lia. destruct (Z.gtb_spec (zlen (stk (dstack vm)) + zlen (stk (astack vm))) MaxStackSize); [done|].
  erewrite bindM_step by reflexivity. unfold getsM. rewrite bindM_assoc.
  erewrite bindM_step by reflexivity. erewrite bindM_step by reflexivity.
  set (vm1 := set_opcodeIdx (opcodeIdx vm + 1) vm). destruct Hf.
  assert (tokenizer vm1 = tokenizer vm0) as Etok by done. rewrite Etok, Done_remaining by done.
  assert (base vm1) as Hb.
  { split; cbn; rewrite ?fr_tx0, ?fr_txIdx0, ?fr_scripts0, ?fr_scriptIdx0, ?fr_tokenizer0, ?fr_saved0, ?fr_bip17; try done.
    split; cbn; try done. by rewrite fr_tokenizer0. }
  assert (steps_left vm1 = steps_left vm0) as El
    by (unfold steps_left; cbn; by rewrite fr_tokenizer0, fr_scripts0, fr_scriptIdx0, fr_bip17).
  case_bool_decide as Hrem.
  - rewrite <- El. apply (nextScript_safe vm1). split; [done|by rewrite Etok|].
    cbn. rewrite fr_bip17, fr_scriptIdx0, fr_saved0. done.
  - cbn. split; [|lia]. split; [done|by rewrite Etok|].
    cbn. rewrite fr_bip17, fr_scriptIdx0, fr_saved0. intros ???. by destruct Hsaved.
Qed.

(** The panic of the next step. *)
Definition step_panics (vm : Engine) : bool :=
  match parse_op (remaining (tokenizer vm)) with
  | Some (o, _, _) => panics o vm
  | None => false
  end.

(** A P2SH script that starts on an empty stack fails in its first opcode. *)
Lemma hash160_empty vm data :
  stk (dstack vm) = [] -> condStack vm = [] -> zlen data <= MaxScriptElementSize ->
  exists vm', executeOpcode (opcode_at (z2b OP_HASH160)) data vm = (Fail ErrInvalidStackOperation, vm').
Proof.
  intros Hd Hc Hl. unfold executeOpcode. change (value _) with OP_HASH160.
  change (isOpcodeDisabled _) with false. change (isOpcodeAlwaysIllegal _) with false.
  rewrite Z.gtb_ltb, (proj2 (Z.ltb_ge _ _)) by done. cbn [orb]. erewrite bindM_step by reflexivity.
  assert (isBranchExecuting vm = true) as -> by (unfold isBranchExecuting; by rewrite Hc).
  cbn [negb andb]. rewrite andb_false_r. erewrite bindM_step by reflexivity.
  eexists. unfold run_opfunc. cbn [op_func]. change (op_func _) with f_Hash160.
  unfold opcodeHash160, hashOp. by eapply bindM_fail, onD_Fail, Pop_empty.
Qed.

Lemma fresh_p2sh_fails vm : inv vm -> fresh_p2sh vm -> exists e vm', Step vm = (Fail e, vm').
Proof.
  intros [Hb [Hn Hp] _] (Hd & Hc & Hr & Hh).
  destruct (isScriptHashScript_first _ Hh) as [r Er].
  assert (parse_op (remaining (tokenizer vm)) = Some (opcode_at (z2b OP_HASH160), None, r)) as Ho
    by (by rewrite Hr, Er).
  destruct Hb as [_ _ Hscr [Ht He] _ _ _]. apply znth_Some in Hscr as Hi.
  rewrite (Step_exec vm _ _ _ Ht He ltac:(lia) Ho).
  destruct (hash160_empty (fetched vm (opcode_at (z2b OP_HASH160), None, r)) []) as [vm' E]; try done.
  do 2 eexists. apply bindM_fail, E.
Qed.

Lemma Step_safe vm :
  inv vm -> step_panics vm = false -> step_result vm (steps_left vm - 1) (Step vm).
Proof using CryptoLaws0.
  intros Hinv Hpan. pose proof Hinv as [Hb [Hn Hp] Hfresh].
  destruct (decide (bip16 vm = true /\ scriptIdx vm = 1 /\ savedFirstStack vm = [])) as [(Hb16 & Hi & Hs)|Hns].
  { destruct (fresh_p2sh_fails vm Hinv) as (e & vm' & ->); [by apply Hfresh|done]. }
  destruct (parses_next _ Hn Hp) as (o & d & rest & Hop & Hpr).
  unfold step_panics in Hpan. rewrite Hop in Hpan.
  destruct (fetched_base vm o d rest Hb Hop) as [Hb' Hr']. set (vm0 := fetched vm (o, d, rest)) in *.
  assert (steps_left vm0 <= steps_left vm - 1) as Hle.
  { pose proof (parse_op_shorter _ _ _ _ Hop). unfold steps_left. rewrite Hr'. cbn. lia. }
  destruct (parse_op_opcode _ _ _ _ Hop) as (b & r & _ & ->).
  pose proof Hb as [_ _ Hscr [Ht He] _ _ _]. apply znth_Some in Hscr as Hi.
  rewrite (Step_exec vm _ _ _ Ht He ltac:(lia) Hop). fold vm0.
  pose proof Hb' as [Hv0 Htx0 Hscr0 [Ht0 _] _ _ _].
  pose proof (executeOpcode_triple vm0 b (bytes_of d) MaxStackSize Htx0 Hscr0 Ht0
    ltac:(lia) ltac:(lia) vm0 (conj Hpan Hv0)) as Hex.
  unfold bindM. destruct (executeOpcode _ _ _) as [[[]|e| |] vm1]; try done.
  pose proof (stepTail_safe vm0 vm1 Hb' ltac:(by rewrite Hr')) as Htl.
  assert (bip16 vm0 = true -> scriptIdx vm0 = 1 -> savedFirstStack vm0 <> []) as Hsaved
    by (intros ???; by apply Hns).
  specialize (Htl Hsaved Hex). unfold step_result in *.
  destruct (stepTail vm1) as [[[]|e| |] vm2]; try done. destruct Htl. split; [done|lia].
Qed.

(** And conversely. *)
Lemma Step_panic vm : inv vm -> step_panics vm = true -> (Step vm).1 = Crash.
Proof.
  intros [Hb [Hn Hp] _] Hpan. destruct (parses_next _ Hn Hp) as (o & d & rest & Hop & Hpr).
  unfold step_panics in Hpan. rewrite Hop in Hpan. unfold panics in Hpan.
  apply andb_prop in Hpan as [[Hx Hc]%andb_prop Hem].
  destruct (parse_op_opcode _ _ _ _ Hop) as (b & r & Er & ->).
  destruct (checksig_value b Hc) as (H1 & H2 & H3 & H4).
  pose proof Hb as [_ _ Hscr [Ht He] _ _ _]. apply znth_Some in Hscr as Hi.
  rewrite (Step_exec vm _ _ _ Ht He ltac:(lia) Hop).
  assert (d = None) as ->.
  { rewrite Er in Hop. unfold parse_op in Hop. cbv zeta in Hop. rewrite H4 in Hop. by simplify_eq/=. }
  set (vm0 := fetched vm _). unfold executeOpcode. rewrite H1, H2. cbn [orb].
  change (zlen (bytes_of None) >? MaxScriptElementSize) with false. cbv iota.
  rewrite bindM_assoc. erewrite bindM_step by reflexivity.
  change (isBranchExecuting vm0) with (isBranchExecuting vm). rewrite Hx, H3, andb_false_r.
  cbn [negb andb]. rewrite bindM_assoc. erewrite bindM_step by reflexivity.
  assert ((opcodeCheckSig vm0).1 = Crash) as Hcs.
  { change (empty_sig vm) with (empty_sig vm0) in Hem.
    destruct (CheckSig_pops vm0) as [[Hem' _]|(below & sig & pk & E & ->)];
      [apply (base_depth vm Hb)|congruence|].
    unfold empty_sig in Hem. rewrite E, rev_app_distr in Hem. cbn in Hem. by destruct sig. }
  unfold isCheckSig, run_opfunc in *. unfold bindM.
  destruct (op_func (opcode_at b)); try discriminate Hc.
  - by destruct (opcodeCheckSig vm0) as [[] ?].
  - unfold opcodeCheckSigVerify, bindM. by destruct (opcodeCheckSig vm0) as [[] ?].
Qed.

(** ** The whole execution *)

(** The engines an execution passes through. *)
Inductive reaches : Engine -> Engine -> Prop :=
  | reaches_refl vm : reaches vm vm
  | reaches_step vm vm1 vm2 : Step vm = (Ret false, vm1) -> reaches vm1 vm2 -> reaches vm vm2.

Lemma reaches_inv vm vm' :
  reaches vm vm' -> inv vm -> inv vm' /\ steps_left vm' <= steps_left vm.
Proof using CryptoLaws0.
  induction 1 as [vm|vm vm1 vm2 Hs _ IH]; intros Hv; [split; [done|lia]|].
  destruct (step_panics vm) eqn:Ep.
  - pose proof (Step_panic vm Hv Ep) as Hc. by rewrite Hs in Hc.
  - pose proof (Step_safe vm Hv Ep) as Hr. rewrite Hs in Hr. destruct Hr as [Hv1 Hl].
    destruct (IH Hv1). split; [done|lia].
Qed.

Lemma runSteps_safe fuel : forall vm,
  inv vm -> steps_left vm < Z.of_nat fuel ->
  match runSteps fuel vm with
  | (Ret _, vm') => finished vm' /\ exists vm1, reaches vm vm1 /\ Step vm1 = (Ret true, vm')
  | (Fail _, _) => True
  | (Crash, _) => exists vm', reaches vm vm' /\ step_panics vm' = true
  | (NoFuel, _) => False
  end.
Proof using CryptoLaws0.
  induction fuel as [|fuel IH]; intros vm Hv Hf.
  { assert (0 <= steps_left vm); [|lia]. unfold steps_left.
    pose proof (zlen_nonneg (remaining (tokenizer vm))).
    pose proof (zsum_zlen_nonneg (drop (Z.to_nat (scriptIdx vm + 1)) (scripts vm))). case_match; lia. }
  cbn [runSteps]. destruct (step_panics vm) eqn:Ep.
  { pose proof (Step_panic vm Hv Ep) as Hc. unfold bindM.
    destruct (Step vm) as [[] ?]; try done. exists vm. split; [constructor|done]. }
  pose proof (Step_safe vm Hv Ep) as Hr. unfold bindM.
  destruct (Step vm) as [[[]|e| |] vm1] eqn:Es; try done.
  - split; [done|]. exists vm. split; [constructor|done].
  - destruct Hr as [Hv1 Hl]. specialize (IH vm1 Hv1 ltac:(lia)).
    destruct (runSteps fuel vm1) as [[[]|e| |] vm2]; try done.
    + destruct IH as (Hfin & vm3 & Hr3 & Es3). split; [done|]. exists vm3. split; [|done].
      by econstructor.
    + destruct IH as (vm3 & Hr3 & Hp3). exists vm3. split; [|done]. by econstructor.
Qed.

Lemma exec_fuel_enough vm : inv vm -> steps_left vm < Z.of_nat (exec_fuel vm).
Proof.
  intros [[_ _ Hscr [[Ho _] _] _ _ _] _ _]. unfold steps_left, exec_fuel.
  assert (zsum zlen (scripts vm) = zsum zlen (take (Z.to_nat (scriptIdx vm)) (scripts vm))
    + (zlen (script (tokenizer vm)) + zsum zlen (drop (Z.to_nat (scriptIdx vm + 1)) (scripts vm)))) as E.
  { rewrite <- (take_drop (Z.to_nat (scriptIdx vm)) (scripts vm)) at 1.
    rewrite zsum_app, (drop_script _ _ _ Hscr). done. }
  pose proof zsum_zlen_nonneg as Hz.
  pose proof (Hz (take (Z.to_nat (scriptIdx vm)) (scripts vm))).
  pose proof (Hz (drop (Z.to_nat (scriptIdx vm + 1)) (scripts vm))).
  unfold remaining. rewrite zlen_drop. case_match; lia.
Qed.

(** *** The engine [NewEngine] returns *)

Lemma checkScripts_spec l :
  (checkScripts l = Ret tt /\ Forall script_ok l) \/ exists e, checkScripts l = Fail e.
Proof.
  induction l as [|s l IH]; [by left|]. cbn [checkScripts].
  destruct (Z.gtb_spec (zlen s) MaxScriptSize); [by right; eexists|].
  rewrite checkScriptParses_spec by lia. destruct (parses s) eqn:Ep; [|by right; eexists].
  cbn [bindO]. destruct IH as [[-> Hl]|[e ->]]; [left|right; by eexists]. split; [done|].
  constructor; [|done]. split; [lia|done].
Qed.

Lemma pushOnly_total (b : bool) s :
  zlen s < 2 ^ 31 ->
  let o := (if b then let! pushOnly := IsPushOnlyScript s in
                      if negb pushOnly then Fail ErrNotPushOnly else Ret tt else Ret tt) in
  o = Ret tt \/ o = Fail ErrNotPushOnly.
Proof. intros Hs. destruct b; [|by left]. rewrite IsPushOnlyScript_spec by done. cbn. case_match; auto. Qed.

(** The second test, which also decides whether the input is P2SH. *)
Lemma bip16_total fl sig pk :
  zlen sig < 2 ^ 31 ->
  let o := (if has_flag fl ScriptBip16 && isScriptHashScript pk then
       if negb (has_flag fl ScriptVerifySigPushOnly) then
         let! pushOnly := IsPushOnlyScript sig in
         if negb pushOnly then Fail ErrNotPushOnly else Ret true
       else Ret true
     else Ret false) in
  exists b16, (o = Ret b16 /\ (b16 = true -> isScriptHashScript pk = true)) \/ o = Fail ErrNotPushOnly.
Proof.
  intros Hs. rewrite IsPushOnlyScript_spec by done.
  destruct (isScriptHashScript pk); rewrite ?andb_true_r, ?andb_false_r.
  - exists (has_flag fl ScriptBip16). repeat case_match; cbn [bindO] in *; repeat case_match; auto.
  - exists false. auto.
Qed.

Lemma initial_inv pk tx idx fl cache b16 sig txIn :
  0 <= idx < zlen (TxIns tx) -> znth (TxIns tx) idx = Some txIn -> SignatureScript txIn = sig ->
  ~ (sig = [] /\ pk = []) -> Forall script_ok [sig; pk] ->
  (b16 = true -> isScriptHashScript pk = true) ->
  let i := if zlen sig =? 0 then 1 else 0 in
  let m := has_flag fl ScriptVerifyMinimalData in
  exists s, znth [sig; pk] i = Some s
    /\ inv (mkEngine fl tx idx 0 b16 cache [sig; pk] i 0 0 (MakeScriptTokenizer s) []
             (mkStack [] m) (mkStack [] m) [] 0).
Proof.
  intros Hi _ _ Hne Hs Hb i m.
  assert (exists s, znth [sig; pk] i = Some s /\ script_ok s /\ s <> [] /\ (i = 1 -> s = pk)
    /\ 0 <= i <= 1) as (s & Es & [Hl Hp] & Hn & Hpk & Hir).
  { inversion Hs as [|?? H1 H2]; subst. inversion H2 as [|?? H3 _]; subst. subst i.
    destruct (Z.eqb_spec (zlen sig) 0) as [Hz|Hz].
    - exists pk. split_and!; try done. intros ->. apply Hne. split; [by apply zlen_0_inv|done].
    - exists sig. split_and!; try done. by intros ->. }
  exists s. split; [done|]. assert (tok_ok (MakeScriptTokenizer s)) by (apply make_ok; lia).
  split; cbn [tokenizer bip16 scriptIdx savedFirstStack].
  - split; cbn; try done.
    + split; cbn; try done. pose proof (zlen_nonneg s). lia.
    + exists sig, pk, []. split_and!; try done.
  - rewrite remaining_make. done.
  - intros Hb' Hi1 _. unfold fresh_p2sh. cbn. rewrite remaining_make. split_and!; try done.
    rewrite Hpk by done. by apply Hb.
Qed.

Lemma NewEngine_spec pk tx idx fl cache :
  zlen pk < 2 ^ 31 -> Forall (fun ti => zlen (SignatureScript ti) < 2 ^ 31) (TxIns tx) ->
  (exists vm, NewEngine pk tx idx fl cache = Ret vm /\ inv vm /\ version vm = 0
     /\ sigCache vm = cache)
  \/ exists e, NewEngine pk tx idx fl cache = Fail e.
Proof.
  intros Hpk Htx. unfold NewEngine.
  destruct ((idx <? 0) || (idx >=? zlen (TxIns tx))) eqn:Ei; [by right; eexists|]. zbool.
  destruct (znth_is_Some (TxIns tx) idx) as [ti Eti]; [lia|]. rewrite Eti. cbn [orCrash bindO].
  set (sig := SignatureScript ti). assert (zlen sig < 2 ^ 31) as Hsig by (by eapply (znth_Forall _ _ _ _ Htx)).
  destruct ((zlen sig =? 0) && (zlen pk =? 0)) eqn:Eb; [by right; eexists|].
  destruct (pushOnly_total (has_flag fl ScriptVerifySigPushOnly) sig Hsig) as [-> | ->];
    cbn [bindO]; [|by right; eexists].
  destruct (bip16_total fl sig pk Hsig) as (b16 & [[-> Hb16]| ->]); cbn [bindO]; [|by right; eexists].
  destruct (checkScripts_spec [sig; pk]) as [[-> Hs]|[e ->]]; cbn [bindO]; [|by right; eexists].
  destruct (initial_inv pk tx idx fl cache b16 sig ti) as (s & -> & Hinv); try done; try lia.
  { intros [-> ->]. by cbn in Eb. }
  cbn [orCrash bindO]. left. by eexists.
Qed.
End step.
