(* ===== verification/EngineSafety.v ===== *)
(** The safety theorems of the script engine: construction, one step, the whole
    execution, and the opcodes that are refused wherever they are. *)

From S2P Require Import Prelude Crypto WireCommon WireTx ScriptError ScriptNum ScriptStack Opcodes Tokenizer Script Standard Sighash SigParse SigCache Engine EngineInv.

(** ** Concrete engines *)

(** A transaction that spends one output with the given unlocking script. *)
Definition spend (sig : bytes) : MsgTx :=
  mkMsgTx 1 [mkTxIn (mkOutPoint (replicate 32 (z2b 7)) 0) sig [] 0xffffffff]
    [mkTxOut 1000 [z2b OP_1]] 0.

Definition start (sig pk : bytes) (fl : Z) : outcome ErrorCode Engine :=
  NewEngine pk (spend sig) 0 fl None.

Lemma spend_small sig :
  zlen sig < 2 ^ 31 -> Forall (fun ti => zlen (SignatureScript ti) < 2 ^ 31) (TxIns (spend sig)).
Proof. intros Hs. by repeat constructor. Qed.

Lemma start_inv sig pk fl vm :
  start sig pk fl = Ret vm -> zlen sig < 2 ^ 31 -> zlen pk < 2 ^ 31 -> inv vm /\ version vm = 0.
Proof.
  intros Hst Hs Hp.
  destruct (NewEngine_spec pk (spend sig) 0 fl None Hp (spend_small sig Hs)) as [(vm' & E & Hv & H0 & _)|[e E]];
    unfold start in Hst; rewrite E in Hst; [|done]. by injection Hst as <-.
Qed.

(** The engine after [n] steps, if none of them ends the execution. *)
Fixpoint steps `{Crypto} `{MapOrder} (n : nat) (vm : Engine) : option Engine :=
  match n with
  | O => Some vm
  | S n => match Step vm with (Ret false, vm) => steps n vm | _ => None end
  end.

Lemma steps_reaches `{Crypto} `{MapOrder} n : forall vm vm', steps n vm = Some vm' -> reaches vm vm'.
Proof.
  induction n as [|n IH]; intros vm vm'; cbn [steps]; [intros [= ->]; constructor|].
  destruct (Step vm) as [[[]|e| |] vm1] eqn:E; try done. intros Hs. econstructor; [exact E|by apply IH].
Qed.

Lemma reaches_trans `{Crypto} `{MapOrder} vm1 vm2 vm3 : reaches vm1 vm2 -> reaches vm2 vm3 -> reaches vm1 vm3.
Proof using Type. induction 1; [done|]. intros. econstructor; eauto. Qed.

Lemma reaches_one `{Crypto} `{MapOrder} vm vm' : Step vm = (Ret false, vm') -> reaches vm vm'.
Proof using Type. intros. econstructor; [done|constructor]. Qed.

Definition steps_from (n : nat) (sig pk : bytes) (fl : Z) : option Engine :=
  match start sig pk fl with Ret vm => steps (H := toy) (H0 := toy_order) n vm | _ => None end.

Lemma steps_from_inv n sig pk fl vm :
  steps_from n sig pk fl = Some vm -> zlen sig < 2 ^ 31 -> zlen pk < 2 ^ 31 -> inv vm.
Proof.
  unfold steps_from. destruct (start sig pk fl) as [vm0|e| |] eqn:E; try done. intros Hs ??.
  destruct (start_inv _ _ _ _ E) as [Hv _]; [done..|].
  exact (proj1 (reaches_inv (H := toy) _ _ (steps_reaches _ _ _ Hs) Hv)).
Qed.

(** ** Properties *)

(** [NewEngine] never panics, and an engine it returns is in a consistent
    state: the input exists, the program counter is at the start of a script that
    is not empty, every script parses and respects the size limit, the stacks
    and the condition stack are empty, and a pay-to-script-hash evaluation is
    only set up for an output of that form. *)
Theorem NewEngine_establishes_inv (pk : bytes) (tx : MsgTx) (idx fl : Z) (cache : option SigCache) :
  zlen pk < 2 ^ 31 -> Forall (fun ti => zlen (SignatureScript ti) < 2 ^ 31) (TxIns tx) ->
  match NewEngine pk tx idx fl cache with
  | Ret vm => inv vm /\ version vm = 0 /\ sigCache vm = cache
  | Fail _ => True
  | Crash | NoFuel => False
  end.
Proof.
  intros Hp Ht. by destruct (NewEngine_spec pk tx idx fl cache Hp Ht) as [(vm & -> & ?)|[e ->]].
Qed.

Lemma NewEngine_establishes_inv_witness :
  match start [z2b OP_1] [z2b OP_DUP; z2b OP_EQUAL] 0 with Ret vm => inv vm | _ => False end.
Proof.
  assert (zlen [z2b OP_DUP; z2b OP_EQUAL] < 2 ^ 31) as Hp by reflexivity.
  assert (zlen [z2b OP_1] < 2 ^ 31) as Hs by reflexivity.
  pose proof (NewEngine_establishes_inv [z2b OP_DUP; z2b OP_EQUAL] (spend [z2b OP_1]) 0 0 None Hp
    (spend_small _ Hs)) as Hn.
  change (NewEngine _ _ _ _ _) with (start [z2b OP_1] [z2b OP_DUP; z2b OP_EQUAL] 0) in Hn.
  destruct (start [z2b OP_1] [z2b OP_DUP; z2b OP_EQUAL] 0) eqn:E; [exact (proj1 Hn)|..]; vm_compute in E; discriminate E.
Defined.

(** C2: every step of the engine keeps the invariant, whatever opcode it executes
    and whatever is on the stacks: no more than 1000 items on the two stacks
    together, none longer than 520 bytes, the program counter and the last code
    separator inside the current script, condition values and operation count in
    range.  A step that does not end the execution strictly decreases the number
    of script bytes left, and a step that ends it leaves every conditional
    closed and the alternate stack empty.  No step runs an unbounded loop, and
    the only panic is the one described by [step_panics]. *)
Theorem Step_invariant `{Crypto} `{!CryptoLaws _} `{MapOrder} (vm : Engine) :
  inv vm ->
  match Step vm with
  | (Ret false, vm') => inv vm' /\ steps_left vm' < steps_left vm
  | (Ret true, vm') => finished vm'
  | (Fail _, _) => True
  | (Crash, _) => step_panics vm = true
  | (NoFuel, _) => False
  end.
Proof.
  intros Hv. destruct (step_panics vm) eqn:Ep.
  - pose proof (Step_panic vm Hv Ep) as Hc. by destruct (Step vm) as [[] ?].
  - pose proof (Step_safe vm Hv Ep) as Hs. unfold step_result in Hs.
    destruct (Step vm) as [[[]|e| |] vm']; try done. destruct Hs. split; [done|lia].
Qed.

Lemma Step_invariant_witness :
  match steps_from 1 [z2b OP_1] [z2b OP_DUP; z2b OP_EQUAL] 0 with
  | Some vm => match Step (H := toy) (H0 := toy_order) vm with
               | (Ret false, vm') => inv vm' /\ steps_left vm' < steps_left vm
               | _ => False
               end
  | None => False
  end.
Proof.
  destruct (steps_from 1 [z2b OP_1] [z2b OP_DUP; z2b OP_EQUAL] 0) as [vm|] eqn:E; [|vm_compute in E; discriminate E].
  pose proof (Step_invariant (H := toy) (H0 := toy_order) vm
    (steps_from_inv _ _ _ _ _ E eq_refl eq_refl)) as Hn.
  assert ((Step (H := toy) (H0 := toy_order) vm).1 = Ret false) as Hs
    by (vm_compute in E; injection E as <-; vm_compute; reflexivity).
  destruct (Step vm) as [[[]|e| |] vm']; try discriminate Hs. exact Hn.
Defined.

(** C10: a step panics in exactly one situation: an executed CHECKSIG or
    CHECKSIGVERIFY whose signature operand is the empty byte string, because
    [parseBaseSigAndPubkey] reads the last byte of the signature without testing
    that there is one. *)
Theorem Step_panics_iff `{Crypto} `{!CryptoLaws _} `{MapOrder} (vm : Engine) :
  inv vm ->
  (Step vm).1 = Crash <->
  exists b rest below pk, remaining (tokenizer vm) = b :: rest /\ (b = z2b OP_CHECKSIG \/ b = z2b OP_CHECKSIGVERIFY)
    /\ isBranchExecuting vm = true /\ stk (dstack vm) = below ++ [[]; pk].
Proof.
  intros Hv. assert ((Step vm).1 = Crash <-> step_panics vm = true) as ->.
  { destruct (step_panics vm) eqn:Ep; [split; [done|intros _; by apply Step_panic]|].
    split; [|done]. intros Hc. pose proof (Step_safe vm Hv Ep) as Hs.
    by destruct (Step vm) as [[[]|e| |] vm']. }
  unfold step_panics, panics. split.
  - destruct (parse_op _) as [[[o d] rest]|] eqn:Ho; [|done].
    destruct (parse_op_opcode _ _ _ _ Ho) as (b & r & Er & ->).
    intros [[Hx Hc]%andb_prop He]%andb_prop. unfold empty_sig in He.
    destruct (rev (stk (dstack vm))) as [|pk [|[|] below]] eqn:Es; try done.
    exists b, r, (rev below), pk. split_and!; [done| |done|].
    + clear -Hc. destruct b; vm_compute in Hc; try discriminate Hc; auto.
    + rewrite <- (rev_involutive (stk (dstack vm))), Es. cbn. by rewrite <- app_assoc.
  - intros (b & rest & below & pk & Er & Hb & Hx & Es). rewrite Er. unfold empty_sig. rewrite Es, rev_app_distr.
    destruct Hb as [-> | ->]; cbn; by rewrite Hx.
Qed.

(** [OP_0 <key> CHECKSIG]: after the two pushes the engine is in front of the
    panic. *)
Definition empty_sig_script : bytes := [z2b OP_0; z2b OP_1; z2b OP_CHECKSIG].

Lemma Step_panics_iff_witness :
  match steps_from 2 empty_sig_script [z2b OP_1] 0 with
  | Some vm => (Step (H := toy) (H0 := toy_order) vm).1 = Crash
  | None => False
  end.
Proof.
  destruct (steps_from 2 empty_sig_script [z2b OP_1] 0) as [vm|] eqn:E; [|vm_compute in E; discriminate E].
  apply (Step_panics_iff (H := toy) (H0 := toy_order) vm).
  - exact (steps_from_inv _ _ _ _ _ E eq_refl eq_refl).
  - vm_compute in E. injection E as <-. exists (z2b OP_CHECKSIG), [], [], [z2b 1].
    split_and!; [reflexivity|left; reflexivity|reflexivity..].
Defined.

(** ** The whole execution *)

Section execute.
Context `{Crypto} `{!CryptoLaws _} `{MapOrder}.

Lemma runSteps_reaches vm vm1 vm2 :
  reaches vm vm1 -> Step vm1 = (Ret true, vm2) ->
  forall fuel, runSteps fuel vm = (Ret tt, vm2) \/ (runSteps fuel vm).1 = NoFuel.
Proof using Type.
  induction 1 as [vm|vm vm3 vm4 Hs _ IH]; intros He [|fuel]; cbn [runSteps]; auto; unfold bindM.
  - left. by rewrite He.
  - rewrite Hs. by apply IH.
Qed.

Lemma Execute_run vm :
  version vm = 0 -> Execute vm = (runSteps (exec_fuel vm) ;; CheckErrorCondition true) vm.
Proof. intros Hv. unfold Execute. erewrite bindM_step by reflexivity. by rewrite Hv. Qed.

Lemma Execute_total vm :
  inv vm -> version vm = 0 ->
  match Execute vm with
  | (Ret _, _) | (Fail _, _) => True
  | (Crash, _) => exists vm', reaches vm vm' /\ step_panics vm' = true
  | (NoFuel, _) => False
  end.
Proof using CryptoLaws0.
  intros Hv H0v. rewrite Execute_run by done. unfold bindM.
  pose proof (runSteps_safe _ vm Hv (exec_fuel_enough vm Hv)) as Hr.
  destruct (runSteps (exec_fuel vm) vm) as [[[]|e| |] vm1]; try done.
  destruct Hr as [[_ _ _ Hd _] _].
  destruct (CheckErrorCondition_spec true vm1) as [(e & vm' & -> & _)|(_ & b & x & _ & _ & _ & ->)]; try done.
  unfold depth_ok. lia.
Qed.
End execute.

(** C5: the execution of any input of any transaction ends: the loop of [Execute]
    is left after at most as many rounds as there are bytes in the scripts and
    the redeem script, with success or with an error; the one way to panic is to
    reach a signature check of an empty signature. *)
Theorem Execute_terminates `{Crypto} `{!CryptoLaws _} `{MapOrder}
    (pk : bytes) (tx : MsgTx) (idx fl : Z) (cache : option SigCache) (vm : Engine) :
  zlen pk < 2 ^ 31 -> Forall (fun ti => zlen (SignatureScript ti) < 2 ^ 31) (TxIns tx) ->
  NewEngine pk tx idx fl cache = Ret vm ->
  match Execute vm with
  | (Ret _, _) | (Fail _, _) => True
  | (Crash, _) => exists vm', reaches vm vm' /\ inv vm' /\ step_panics vm' = true
  | (NoFuel, _) => False
  end.
Proof.
  intros Hp Ht Hn. destruct (NewEngine_spec pk tx idx fl cache Hp Ht) as [(vm' & E & Hv & H0v & _)|[e E]];
    rewrite E in Hn; [|done]. injection Hn as <-.
  pose proof (Execute_total vm' Hv H0v) as He. destruct (Execute vm') as [[] ?]; try done.
  destruct He as (vm2 & Hr & Hpan). exists vm2. split_and!; try done. by apply (reaches_inv vm').
Qed.

Lemma Execute_terminates_witness :
  match start [z2b OP_1] [z2b OP_DUP; z2b OP_EQUAL] 0 with
  | Ret vm => match Execute (H := toy) (H0 := toy_order) vm with (Ret _, _) | (Fail _, _) => True | _ => False end
  | _ => False
  end.
Proof.
  destruct (start [z2b OP_1] [z2b OP_DUP; z2b OP_EQUAL] 0) as [vm|e| |] eqn:E; [|vm_compute in E; discriminate E..].
  assert (zlen [z2b OP_DUP; z2b OP_EQUAL] < 2 ^ 31) as Hp by reflexivity.
  assert (zlen [z2b OP_1] < 2 ^ 31) as Hs by reflexivity.
  pose proof (Execute_terminates (H := toy) (H0 := toy_order) _ _ _ _ _ vm Hp (spend_small _ Hs) E) as Ht.
  assert ((Execute (H := toy) (H0 := toy_order) vm).1 = Ret tt) as Hr
    by (vm_compute in E; injection E as <-; vm_compute; reflexivity).
  destruct (Execute vm) as [[]]; try discriminate Hr. exact Ht.
Defined.

(** C23: [Execute] succeeds if and only if the run comes to the end of the last
    script and there the top item of the stack is true, and is the only one when
    the flag for a clean stack is set.  At that point every conditional is closed
    and the alternate stack is empty. *)
Theorem Execute_success_iff `{Crypto} `{!CryptoLaws _} `{MapOrder} (vm : Engine) :
  inv vm -> version vm = 0 ->
  (Execute vm).1 = Ret tt <->
  exists vm1 vm2 below x, reaches vm vm1 /\ Step vm1 = (Ret true, vm2) /\ finished vm2
    /\ stk (dstack vm2) = below ++ [x] /\ asBool x = true
    /\ (hasFlag ScriptVerifyCleanStack vm2 = true -> below = []).
Proof.
  intros Hv H0v. rewrite Execute_run by done. unfold bindM.
  pose proof (runSteps_safe _ vm Hv (exec_fuel_enough vm Hv)) as Hr. split.
  - intros He. destruct (runSteps (exec_fuel vm) vm) as [[[]|e| |] vm2]; try done.
    destruct Hr as (Hfin & vm1 & Hreach & Hs). exists vm1, vm2.
    destruct (CheckErrorCondition_spec true vm2) as [(e & vm' & E & _)|(_ & b & x & Hst & Hx & Hcl & _)].
    + destruct Hfin as [_ _ _ Hd _]. unfold depth_ok. lia.
    + by rewrite E in He.
    + by exists b, x.
  - intros (vm1 & vm2 & below & x & Hreach & Hs & Hfin & Hst & Hx & Hcl).
    destruct (runSteps_reaches vm vm1 vm2 Hreach Hs (exec_fuel vm)) as [E|E];
      [rewrite E|by destruct (runSteps (exec_fuel vm) vm) as [[] ?]].
    destruct (CheckErrorCondition_spec true vm2) as [(e & vm' & _ & Hno)|(_ & b & y & _ & _ & _ & ->)]; try done.
    + destruct Hfin as [_ _ _ Hd _]. unfold depth_ok. lia.
    + destruct Hno. destruct Hfin as [Hi _ _ _ _]. split; [done|]. by exists below, x.
Qed.

Lemma Execute_success_iff_witness :
  match start [z2b OP_1] [z2b OP_DUP; z2b OP_EQUAL] 0 with
  | Ret vm => exists vm2, finished vm2 /\ exists below x, stk (dstack vm2) = below ++ [x] /\ asBool x = true
  | _ => False
  end.
Proof.
  destruct (start [z2b OP_1] [z2b OP_DUP; z2b OP_EQUAL] 0) as [vm|e| |] eqn:E; [|vm_compute in E; discriminate E..].
  destruct (start_inv _ _ _ _ E eq_refl eq_refl) as [Hv H0].
  destruct (proj1 (Execute_success_iff (H := toy) (H0 := toy_order) vm Hv H0))
    as (vm1 & vm2 & below & x & _ & _ & Hf & Hs & Hx & _).
  - vm_compute in E. injection E as <-. vm_compute. reflexivity.
  - exists vm2. split; [exact Hf|]. exists below, x. split; [exact Hs|exact Hx].
Defined.

(** ** What the comments say and the code does not do *)

(** 300 operations are executed, although [MaxOpsPerScript] is 201: only
    CHECKMULTISIG counts, and it counts its keys. *)
Example operations_not_counted :
  match start [z2b OP_1] (replicate 300 (z2b OP_NOP)) 0 with
  | Ret vm => (Execute (H := toy) (H0 := toy_order) vm).1
  | _ => NoFuel
  end = Ret tt.
Proof. vm_compute. reflexivity. Qed.

(** The clean stack flag is accepted without the flag for P2SH. *)
Example clean_stack_without_bip16 :
  match start [z2b OP_1] [z2b OP_NOP] ScriptVerifyCleanStack with
  | Ret vm => hasFlag ScriptVerifyCleanStack vm && negb (hasFlag ScriptBip16 vm)
  | _ => false
  end = true.
Proof. vm_compute. reflexivity. Qed.
