(* ===== verification/EnginePay.v ===== *)
(** Pay-to-pubkey-hash, from the scripts to the verdict.

    The engine is run symbolically on the standard unlocking and locking scripts
    for any key, signature, transaction and flags. *)

From S2P Require Import Prelude Crypto WireCommon WireTx ScriptError ScriptNum ScriptStack Opcodes Tokenizer Script ScriptBuilder Standard Sighash SigParse SigCache Engine EngineInv EngineSafety.

(** ** The scripts *)

Definition direct_push (data : bytes) : bytes := z2b (zlen data) :: data.

(** [<sig> <pubkey>] *)
Definition unlock (sig pk : bytes) : bytes := direct_push sig ++ direct_push pk.

(** Data of these sizes has one canonical push: its length and the data. *)
Definition direct_size (data : bytes) : Prop := 2 <= zlen data <= 75.

Lemma parse_direct data rest :
  direct_size data ->
  parse_op (direct_push data ++ rest) = Some (opcode_at (z2b (zlen data)), Some data, rest).
Proof. intros Hd. unfold direct_size in Hd. apply parse_direct_push. lia. Qed.

Lemma unparse_push data :
  direct_size data ->
  op_bytes (opcode_at (z2b (zlen data))) (Some data) = direct_push data
  /\ tok_wf (opcode_at (z2b (zlen data)), Some data)
  /\ value (opcode_at (z2b (zlen data))) = zlen data.
Proof.
  intros Hd. pose proof (parse_direct data [] Hd) as Hp. unfold direct_size in Hd.
  assert (value (opcode_at (z2b (zlen data))) = zlen data) as Hv
    by (rewrite opcode_at_value, b2z_z2b; apply Z.mod_small; lia).
  assert (op_bytes (opcode_at (z2b (zlen data))) (Some data) = direct_push data) as Hb.
  { apply parse_op_app in Hp. by rewrite !app_nil_r in Hp. }
  split_and!; [done| |done]. exists []. cbn [fst snd]. by rewrite Hb.
Qed.

(** The opcodes of the two scripts. *)
Lemma unlock_ops sig pk :
  direct_size sig -> direct_size pk ->
  ops (unlock sig pk) = [(opcode_at (z2b (zlen sig)), Some sig); (opcode_at (z2b (zlen pk)), Some pk)]
  /\ parses (unlock sig pk) = true.
Proof.
  intros Hs Hp. destruct (unparse_push sig Hs) as (E1 & W1 & _), (unparse_push pk Hp) as (E2 & W2 & _).
  replace (unlock sig pk) with (unparse [(opcode_at (z2b (zlen sig)), Some sig);
    (opcode_at (z2b (zlen pk)), Some pk)]).
  - apply ops_unparse. by repeat constructor.
  - unfold unparse. cbn [map concat fst snd]. by rewrite E1, E2, app_nil_r.
Qed.

Lemma p2pkh_ops h :
  zlen h = 20 ->
  ops (p2pkh h) = [(opcode_at (z2b OP_DUP), None); (opcode_at (z2b OP_HASH160), None);
    (opcode_at (z2b (zlen h)), Some h); (opcode_at (z2b OP_EQUALVERIFY), None);
    (opcode_at (z2b OP_CHECKSIG), None)] /\ parses (p2pkh h) = true.
Proof.
  intros Hh. destruct (unparse_push h) as (E & W & _); [unfold direct_size; lia|].
  replace (p2pkh h) with (unparse [(opcode_at (z2b OP_DUP), None); (opcode_at (z2b OP_HASH160), None);
    (opcode_at (z2b (zlen h)), Some h); (opcode_at (z2b OP_EQUALVERIFY), None);
    (opcode_at (z2b OP_CHECKSIG), None)]).
  - apply ops_unparse. repeat constructor; try done; by exists [].
  - unfold unparse. cbn [map concat fst snd]. rewrite E. unfold p2pkh, direct_push. by rewrite Hh.
Qed.

Lemma p2pkh_keeps h sig :
  zlen h = 20 -> Contains h sig = false -> removeOpcodeByData (p2pkh h) sig = Ret (p2pkh h).
Proof.
  intros Hh Hc. unfold removeOpcodeByData. case_match; [done|].
  rewrite removeLoop_spec by (unfold p2pkh; autorewrite with zlen; lia).
  rewrite (proj1 (p2pkh_ops h Hh)). unfold hit. cbn [existsb fst snd bytes_of].
  assert (Contains [] sig = false) as Hn.
  { destruct sig; [|done]. destruct h; [done|]. by cbn in Hc. }
  rewrite Hc, Hn, !andb_false_r. done.
Qed.

(** ** Steps of a straight-line script *)

(** What the execution of the scripts depends on: in script [i], with [s] to
    execute and the stack [d].  For pay-to-script-hash, [sv] is the stack that was
    saved. *)
Record view (fl : Z) (tx0 : MsgTx) (idx : Z) (bip : bool) (sv scrs : list bytes) (i : Z) (s : bytes)
    (d : list bytes) (vm : Engine) : Prop := {
  v_flags : flags vm = fl;
  v_tx : tx vm = tx0;
  v_txIdx : txIdx vm = idx;
  v_version : version vm = 0;
  v_bip16 : bip16 vm = bip;
  v_saved : savedFirstStack vm = sv;
  v_ops : numOps vm = 0;
  v_cache : sigCache vm = None;
  v_scripts : scripts vm = scrs;
  v_scriptIdx : scriptIdx vm = i;
  v_sep : lastCodeSep vm = 0;
  v_tok : tok_ok (tokenizer vm) /\ err (tokenizer vm) = None;
  v_rem : remaining (tokenizer vm) = s;
  v_minimal : verifyMinimalData (dstack vm) = has_flag fl ScriptVerifyMinimalData;
  v_d : stk (dstack vm) = d;
  v_a : stk (astack vm) = [];
  v_cond : condStack vm = [] }.

Section steps.
Context `{Crypto} `{MapOrder}.
Context (fl : Z) (tx0 : MsgTx) (idx : Z) (bip : bool) (sv scrs : list bytes).
Notation view i s d := (view fl tx0 idx bip sv scrs i s d).

(** The opcode read, the stack not yet changed. *)
Lemma fetched_view i s d o data rest vm :
  view i s d vm -> parse_op s = Some (o, data, rest) -> view i rest d (fetched vm (o, data, rest)).
Proof.
  intros [] Hp. destruct v_tok0 as [Ht He]. rewrite <- v_rem0 in Hp.
  destruct (suffix_remaining _ _ _ _ Ht Hp) as (Ht' & Hr & _). by split.
Qed.

(** A step whose handler returns. *)
Lemma step_ret i s d o data rest vm vm2 :
  view i s d vm -> i < zlen scrs -> parse_op s = Some (o, data, rest) ->
  executeOpcode o (bytes_of data) (fetched vm (o, data, rest)) = (Ret tt, vm2) ->
  zlen (stk (dstack vm2)) <= MaxStackSize -> stk (astack vm2) = [] ->
  tok_ok (tokenizer vm2) /\ err (tokenizer vm2) = None -> remaining (tokenizer vm2) = rest ->
  Step vm = (if bool_decide (rest = []) then nextScript else retM false) (set_opcodeIdx (opcodeIdx vm2 + 1) vm2).
Proof.
  intros [] Hi Hp Hex Hd Ha [Htk Hte] Hr. destruct v_tok0 as [Ht He].
  rewrite (Step_exec vm o data rest); try done; [|by rewrite v_scriptIdx0, v_scripts0|by rewrite v_rem0].
  rewrite (bindM_step _ _ _ _ _ Hex). unfold stepTail. pose proof (zlen_nonneg (stk (dstack vm2))).
  assert (depth_ok (dstack vm2) /\ depth_ok (astack vm2)) as [Hdd Hda]
    by (unfold depth_ok; rewrite Ha; change (zlen (@nil bytes)) with 0; lia).
  rewrite (bindM_step _ _ _ _ _ (onD_Depth vm2 Hdd)), (bindM_step _ _ _ _ _ (onA_Depth vm2 Hda)).
  rewrite Ha. change (zlen (@nil bytes)) with 0. rewrite Z.add_0_r, i32_id by lia.
  rewrite Z.gtb_ltb, (proj2 (Z.ltb_ge _ _)) by done.
  erewrite bindM_step by reflexivity. unfold getsM. rewrite bindM_assoc.
  erewrite bindM_step by reflexivity. erewrite bindM_step by reflexivity.
  cbn [tokenizer set_opcodeIdx]. rewrite Done_remaining by done. by rewrite Hr.
Qed.

(** A step whose handler leaves [d'] on the stack. *)
Lemma step_view i s d o data rest d' vm :
  view i s d vm -> i < zlen scrs -> parse_op s = Some (o, data, rest) -> zlen d' <= MaxStackSize ->
  (forall vm1, view i rest d vm1 ->
     executeOpcode o (bytes_of data) vm1 = (Ret tt, set_dstack (set_stk d' (dstack vm1)) vm1)) ->
  exists vm', view i rest d' vm' /\ Step vm = (if bool_decide (rest = []) then nextScript else retM false) vm'.
Proof.
  intros Hv Hi Hp Hd Hex. pose proof (fetched_view _ _ _ _ _ _ _ Hv Hp) as Hv1. specialize (Hex _ Hv1).
  set (vm1 := fetched vm (o, data, rest)) in *. set (vm2 := set_dstack _ vm1) in Hex.
  exists (set_opcodeIdx (opcodeIdx vm2 + 1) vm2). pose proof Hv1 as [].
  split; [by split|]. by apply (step_ret i s d o data).
Qed.

Lemma step_fail i s d o data rest e vm' vm :
  view i s d vm -> i < zlen scrs -> parse_op s = Some (o, data, rest) ->
  executeOpcode o (bytes_of data) (fetched vm (o, data, rest)) = (Fail e, vm') ->
  Step vm = (Fail e, vm').
Proof.
  intros [] Hi Hp Hex. destruct v_tok0 as [Ht He].
  rewrite (Step_exec vm o data rest); try done; [|by rewrite v_scriptIdx0, v_scripts0
    |by rewrite v_rem0].
  by apply bindM_fail.
Qed.

(** The end of a script: nothing is left to clear. *)
Lemma next_clears vm :
  condStack vm = [] -> stk (astack vm) = [] ->
  nextScript vm = (advanceScript ;; nextTail) (set_opcodeIdx 0 (set_numOps 0 vm)).
Proof.
  intros Hc Ha. unfold nextScript. erewrite bindM_step by reflexivity. rewrite Hc.
  change (zlen (@nil Z)) with 0. cbn [Z.eqb negb].
  assert (onA (ignoreM (d <- Depth ;; DropN d)) vm = (Ret tt, vm)) as Hcl.
  { unfold onA, onM. rewrite clear_stack by (unfold depth_ok; rewrite Ha; done).
    rewrite stack_eta by done. by destruct vm. }
  rewrite (bindM_step _ _ _ _ _ Hcl). by do 2 (erewrite bindM_step by reflexivity).
Qed.
End steps.

Section run.
Context `{Crypto} `{MapOrder}.
Context (fl : Z) (tx0 : MsgTx) (idx : Z) (sig_s pk_s : bytes).
Notation view i s d := (view fl tx0 idx false [] [sig_s; pk_s] i s d).

(** The end of a script of an input that is not P2SH. *)
Lemma next_plain i d vm :
  view i [] d vm ->
  nextScript vm = nextTail (set_scriptIdx (i + 1) (set_opcodeIdx 0 (set_numOps 0 vm))).
Proof.
  intros []. rewrite next_clears by done.
  assert (advanceScript (set_opcodeIdx 0 (set_numOps 0 vm))
    = (Ret tt, set_scriptIdx (i + 1) (set_opcodeIdx 0 (set_numOps 0 vm)))) as Ha.
  { unfold advanceScript. erewrite bindM_step by reflexivity.
    cbn [scriptIdx bip16 set_opcodeIdx set_numOps]. rewrite v_bip17, !andb_false_r.
    unfold modifyM. cbn [scriptIdx set_opcodeIdx set_numOps]. by rewrite v_scriptIdx0. }
  by rewrite (bindM_step _ _ _ _ _ Ha).
Qed.

(** The end of the unlocking script. *)
Lemma next_view d vm :
  view 0 [] d vm -> pk_s <> [] -> zlen pk_s < 2 ^ 31 ->
  exists vm', nextScript vm = (Ret false, vm') /\ view 1 pk_s d vm'.
Proof.
  intros Hv Hne Hl. rewrite (next_plain 0 d) by done. destruct Hv. unfold nextTail.
  change (0 + 1) with 1. erewrite bindM_step by reflexivity.
  cbn [scriptIdx scripts set_scriptIdx set_opcodeIdx set_numOps]. rewrite v_scripts0.
  change (1 <? zlen [sig_s; pk_s]) with true. change (znth [sig_s; pk_s] 1) with (Some pk_s).
  cbv iota beta.
  rewrite (proj2 (Z.eqb_neq (zlen pk_s) 0)) by (intros ?%zlen_0_inv; done). cbn [andb].
  do 3 (erewrite bindM_step by reflexivity).
  cbn [scriptIdx scripts set_lastCodeSep set_scriptIdx set_opcodeIdx set_numOps]. rewrite v_scripts0.
  change (1 >=? zlen [sig_s; pk_s]) with false. change (znth [sig_s; pk_s] 1) with (Some pk_s).
  cbv iota. eexists. split; [reflexivity|].
  split; cbn; try done. split; [by apply make_ok|done].
Qed.

(** *** The opcodes of the two scripts *)

(** An opcode that is not a push, in an executing branch. *)
Lemma exec_plain o data vm :
  isOpcodeDisabled (value o) = false -> isOpcodeAlwaysIllegal (value o) = false ->
  OP_PUSHDATA4 < value o -> zlen data <= MaxScriptElementSize -> condStack vm = [] ->
  executeOpcode o data vm = run_opfunc o data vm.
Proof.
  intros H1 H2 Hv Hl Hc. unfold executeOpcode. rewrite H1, H2.
  rewrite Z.gtb_ltb, (proj2 (Z.ltb_ge _ _)) by done. erewrite bindM_step by reflexivity.
  assert (isBranchExecuting vm = true) as -> by (unfold isBranchExecuting; by rewrite Hc).
  cbn [negb andb]. rewrite (proj2 (Z.leb_gt _ _) Hv), andb_false_r.
  by erewrite bindM_step by reflexivity.
Qed.

Lemma op_func_push b : 1 <= b2z b <= 75 -> op_func (opcode_at b) = f_PushData.
Proof. destruct b; intros [Ha Hb]; first [reflexivity | exfalso; vm_compute in Ha, Hb; by auto]. Qed.

Lemma push_not_refused b :
  1 <= b2z b <= 75 ->
  isOpcodeDisabled (value (opcode_at b)) = false /\ isOpcodeAlwaysIllegal (value (opcode_at b)) = false.
Proof. destruct b; intros [Ha Hb]; first [split; reflexivity | exfalso; vm_compute in Ha, Hb; by auto]. Qed.

Lemma exec_push data d vm :
  direct_size data -> condStack vm = [] -> stk (dstack vm) = d ->
  executeOpcode (opcode_at (z2b (zlen data))) data vm
  = (Ret tt, set_dstack (set_stk (d ++ [data]) (dstack vm)) vm).
Proof.
  intros Hs Hc Hd. destruct (unparse_push data Hs) as (_ & _ & Hv). unfold direct_size in Hs.
  assert (b2z (z2b (zlen data)) = zlen data) as Hb by (rewrite b2z_z2b; apply Z.mod_small; lia).
  destruct (push_not_refused (z2b (zlen data))) as [H1 H2]; [lia|].
  unfold executeOpcode. rewrite H1, H2. rewrite Z.gtb_ltb, (proj2 (Z.ltb_ge _ _)) by lia.
  erewrite bindM_step by reflexivity.
  assert (isBranchExecuting vm = true) as -> by (unfold isBranchExecuting; by rewrite Hc).
  cbn [negb andb]. rewrite Hv.
  assert (checkMinimalDataPush (opcode_at (z2b (zlen data))) data = Ret tt) as ->.
  { unfold checkMinimalDataPush. cbv zeta. rewrite Hv. ztest. done. }
  erewrite bindM_step by (case_match; reflexivity).
  unfold run_opfunc. rewrite op_func_push by lia. by subst d.
Qed.

Ltac plain := rewrite exec_plain; [|reflexivity|reflexivity|reflexivity|done|done].

Lemma exec_dup d x vm :
  condStack vm = [] -> stk (dstack vm) = d ++ [x] -> zlen (d ++ [x]) < 2 ^ 30 ->
  executeOpcode (opcode_at (z2b OP_DUP)) [] vm
  = (Ret tt, set_dstack (set_stk (d ++ [x; x]) (dstack vm)) vm).
Proof.
  intros Hc Hd Hl. plain. apply onD_Ret.
  rewrite (DupN_effect (dstack vm) 1 d [x]); [done|lia|done|rewrite Hd; lia|done].
Qed.

Lemma exec_hash160 d x vm :
  condStack vm = [] -> stk (dstack vm) = d ++ [x] -> zlen (d ++ [x]) < 2 ^ 30 ->
  executeOpcode (opcode_at (z2b OP_HASH160)) [] vm
  = (Ret tt, set_dstack (set_stk (d ++ [ripemd160 (sha256 x)]) (dstack vm)) vm).
Proof.
  intros Hc Hd Hl. plain. change (run_opfunc _ _) with opcodeHash160. unfold opcodeHash160, hashOp.
  erewrite bindM_step by (apply onD_Ret, (Pop_spec _ d x); [unfold depth_ok; rewrite Hd; lia|done]).
  done.
Qed.

Lemma exec_equalverify d x y vm :
  condStack vm = [] -> stk (dstack vm) = d ++ [x; y] -> zlen (d ++ [x; y]) < 2 ^ 30 ->
  exists vm', executeOpcode (opcode_at (z2b OP_EQUALVERIFY)) [] vm
    = if bool_decide (x = y) then (Ret tt, set_dstack (set_stk d (dstack vm)) vm)
      else (Fail ErrEqualVerify, vm').
Proof.
  intros Hc Hd Hl. plain. change (run_opfunc _ _) with opcodeEqualVerify.
  unfold opcodeEqualVerify, opcodeEqual. rewrite zlen_app in Hl. change (zlen [x; y]) with 2 in Hl.
  pose proof (zlen_nonneg d). rewrite bindM_assoc.
  erewrite bindM_step by (apply onD_Ret, (Pop_spec _ (d ++ [x]) y);
    [unfold depth_ok; rewrite Hd, zlen_app; change (zlen [x; y]) with 2; lia|by rewrite <- app_assoc]).
  rewrite bindM_assoc. erewrite bindM_step by (apply onD_Ret, (Pop_spec _ d x);
    [unfold depth_ok; cbn; rewrite zlen_app; change (zlen [x]) with 1; lia|done]).
  erewrite bindM_step by reflexivity. unfold abstractVerify.
  erewrite bindM_step by (apply (onD_PopBool _ d);
    [unfold depth_ok; cbn [dstack set_dstack stk set_stk]; autorewrite with zlen; lia|done]).
  assert (bool_decide (y = x) = bool_decide (x = y)) as -> by (apply bool_decide_ext; naive_solver).
  destruct (bool_decide (x = y)); cbn; by eexists.
Qed.

(** *** CHECKSIG *)

(** What a signature check of [script] decides. *)
Definition checksig_verdict (vm : Engine) (script sig pk : bytes) : outcome ErrorCode bool :=
  match parseBaseSigAndPubkey pk sig vm with
  | Fail (ScriptErr e) => Fail e
  | Fail OtherErr => Ret false
  | Ret (key, sg, ht) =>
      let! hash := calcSignatureHash script ht (tx vm) (txIdx vm) in
      if SigVerify sg hash key then Ret true
      else if hasFlag ScriptVerifyNullFail vm then Fail ErrNullFail else Ret false
  | Crash => Crash
  | NoFuel => NoFuel
  end.

Lemma checksig_verdict_ext vm1 vm2 script sig pk :
  flags vm1 = flags vm2 -> tx vm1 = tx vm2 -> txIdx vm1 = txIdx vm2 ->
  checksig_verdict vm1 script sig pk = checksig_verdict vm2 script sig pk.
Proof.
  intros Ef Et Ei. unfold checksig_verdict, parseBaseSigAndPubkey, parseSignatureFor, strictEncoding, hasFlag.
  by rewrite Ef, Et, Ei.
Qed.

Lemma exec_checksig sig pk vm :
  view 1 [] [sig; pk] vm -> sig <> [] -> removeOpcodeByData pk_s sig = Ret pk_s ->
  match checksig_verdict vm pk_s sig pk with
  | Ret b => executeOpcode (opcode_at (z2b OP_CHECKSIG)) [] vm
             = (Ret tt, set_dstack (set_stk [fromBool b] (dstack vm)) vm)
  | Fail e => exists vm', executeOpcode (opcode_at (z2b OP_CHECKSIG)) [] vm = (Fail e, vm')
  | Crash | NoFuel => True
  end.
Proof.
  intros [] Hne Hrm.
  rewrite exec_plain; [|reflexivity|reflexivity|reflexivity|done|done].
  change (run_opfunc _ _) with opcodeCheckSig.
  assert (opcodeCheckSig vm = checkSigRest pk sig (set_dstack (set_stk [] (dstack vm)) vm)) as ->.
  { unfold opcodeCheckSig.
    erewrite bindM_step by (apply onD_Ret, (Pop_spec _ [sig] pk); [unfold depth_ok; by rewrite v_d0|done]).
    by erewrite bindM_step by (apply onD_Ret, (Pop_spec _ [] sig); done). }
  set (vm1 := set_dstack _ vm).
  rewrite (checksig_verdict_ext vm vm1) by done. unfold checksig_verdict, checkSigRest, checkBaseSig.
  rewrite bindM_assoc. erewrite bindM_step by reflexivity.
  destruct (parseBaseSigAndPubkey pk sig vm1) as [[[key sg] ht]|[e|]| |] eqn:Ep; try done; [|by eexists].
  assert (subScript vm1 = (Ret pk_s, vm1)) as Hsub.
  { unfold subScript. runM. cbn [scripts scriptIdx lastCodeSep vm1 set_dstack].
    rewrite v_scripts0, v_scriptIdx0, v_sep0. change (znth [sig_s; pk_s] 1) with (Some pk_s).
    cbv iota beta. by rewrite zslice_full. }
  rewrite bindM_assoc, (bindM_step _ _ _ _ _ Hsub).
  assert (0 < zlen sig) by (destruct sig; [done|]; rewrite zlen_cons; pose proof (zlen_nonneg sig); lia).
  rewrite zslice_Some by lia. cbn [orCrash]. rewrite bindM_assoc. erewrite bindM_step by reflexivity.
  rewrite Hrm. rewrite bindM_assoc. erewrite bindM_step by reflexivity. rewrite bindM_assoc.
  destruct (calcSignatureHash pk_s ht (tx vm1) (txIdx vm1)) as [hash|e| |]; cbn [bindO]; try done;
    [|by eexists; erewrite bindM_fail by reflexivity].
  erewrite bindM_step by reflexivity. rewrite bindM_assoc.
  unfold verifySig, getsM. runM. cbn [sigCache vm1 set_dstack]. rewrite v_cache0.
  destruct (SigVerify sg hash key); cbn; [done|].
  fold (hasFlag ScriptVerifyNullFail vm). change (hasFlag ScriptVerifyNullFail vm1) with (hasFlag ScriptVerifyNullFail vm).
  destruct (hasFlag ScriptVerifyNullFail vm); cbn [andb]; [|done].
  rewrite Z.gtb_ltb, (proj2 (Z.ltb_lt _ _)) by lia. by eexists.
Qed.

(** The end of the locking script. *)
Lemma end_view d vm :
  view 1 [] d vm ->
  exists vm', nextScript vm = (Ret true, vm') /\ stk (dstack vm') = d
    /\ scriptIdx vm' = 2 /\ scripts vm' = [sig_s; pk_s].
Proof.
  intros Hv. rewrite (next_plain 1 d) by done. destruct Hv. unfold nextTail. change (1 + 1) with 2. runM.
  cbn [scriptIdx scripts set_scriptIdx set_opcodeIdx set_numOps]. rewrite v_scripts0.
  change (2 <? zlen [sig_s; pk_s]) with false. cbn [andb]. cbv iota beta.
  cbn [scriptIdx scripts set_lastCodeSep set_scriptIdx set_opcodeIdx set_numOps]. rewrite v_scripts0.
  change (2 >=? zlen [sig_s; pk_s]) with true. cbv iota. by eexists.
Qed.

(** The verdict on one item. *)
Lemma final_check b vm :
  stk (dstack vm) = [fromBool b] -> scriptIdx vm = zlen (scripts vm) ->
  (CheckErrorCondition true vm).1 = if b then Ret tt else Fail ErrEvalFalse.
Proof.
  intros Hd Hi. unfold CheckErrorCondition. erewrite bindM_step by reflexivity. cbv zeta.
  rewrite Hi, Z.ltb_irrefl.
  rewrite (bindM_step _ _ _ _ _ (onD_Depth vm ltac:(unfold depth_ok; by rewrite Hd))), Hd.
  change (zlen [fromBool b]) with 1. cbn [Z.eqb negb]. rewrite andb_false_r.
  change (1 <? 1) with false. cbv iota.
  erewrite bindM_step by (apply (onD_PopBool vm []); [unfold depth_ok; by rewrite Hd|done]).
  by destruct b.
Qed.

Lemma runSteps_S n vm vm' :
  Step vm = (Ret false, vm') -> runSteps (S n) vm = runSteps n vm'.
Proof. intros Hs. cbn [runSteps]. by rewrite (bindM_step _ _ _ _ _ Hs). Qed.

(** From the end of the unlocking script to the verdict. *)
Definition p2pkh_verdict (vm : Engine) (h sig pk : bytes) : outcome ErrorCode unit :=
  if negb (bool_decide (ripemd160 (sha256 pk) = h)) then Fail ErrEqualVerify else
  let! ok := checksig_verdict vm (p2pkh h) sig pk in
  if ok then Ret tt else Fail ErrEvalFalse.
End run.

Section p2pkh.
Context `{Crypto} `{!CryptoLaws _} `{MapOrder}.
Context (fl : Z) (tx0 : MsgTx) (idx : Z) (h sig pk : bytes).
Hypothesis Hsig : direct_size sig.
Hypothesis Hpk : direct_size pk.
Hypothesis Hh : zlen h = 20.
Hypothesis Hkeep : Contains h sig = false.
Notation view i s d := (view fl tx0 idx false [] [unlock sig pk; p2pkh h] i s d).

Lemma p2pkh_size : zlen (p2pkh h) = 25.
Proof using Hh. unfold p2pkh. autorewrite with zlen. lia. Qed.

(** The two pushes of the unlocking script. *)
Lemma unlock_run vm :
  view 0 (unlock sig pk) [] vm ->
  exists vm1 vm2, Step vm = (Ret false, vm1) /\ Step vm1 = (Ret false, vm2)
    /\ view 1 (p2pkh h) [sig; pk] vm2.
Proof using Hsig Hpk Hh.
  intros Hv.
  destruct (step_view _ _ _ _ _ _ 0 _ [] _ _ _ [sig] _ Hv ltac:(done) (parse_direct sig (direct_push pk) Hsig))
    as (vm1 & Hv1 & Hs1); [done|intros ? []; by apply (exec_push sig [])|].
  rewrite bool_decide_false in Hs1 by done.
  pose proof (parse_direct pk [] Hpk) as Hp2. rewrite app_nil_r in Hp2.
  destruct (step_view _ _ _ _ _ _ 0 _ [sig] _ _ _ [sig; pk] _ Hv1 ltac:(done) Hp2)
    as (vm2 & Hv2 & Hs2); [done|intros ? []; by apply (exec_push pk [sig])|].
  rewrite bool_decide_true in Hs2 by done.
  destruct (next_view _ _ _ _ _ _ vm2 Hv2) as (vm3 & Hn & Hv3); [done|rewrite p2pkh_size; lia|].
  exists vm1, vm3. rewrite Hs1, Hs2, Hn. done.
Qed.

(** The locking script up to the comparison of the hashes. *)
Lemma lock_run vm :
  view 1 (p2pkh h) [sig; pk] vm ->
  exists vm1 vm2 vm3, Step vm = (Ret false, vm1) /\ Step vm1 = (Ret false, vm2)
    /\ Step vm2 = (Ret false, vm3)
    /\ view 1 [z2b OP_EQUALVERIFY; z2b OP_CHECKSIG] [sig; pk; ripemd160 (sha256 pk); h] vm3.
Proof using Hsig Hpk Hh.
  intros Hv. set (tail := [z2b OP_EQUALVERIFY; z2b OP_CHECKSIG]).
  assert (direct_size h) as Hd by (unfold direct_size; lia).
  assert (p2pkh h = z2b OP_DUP :: z2b OP_HASH160 :: direct_push h ++ tail) as E
    by (unfold p2pkh, direct_push, tail; by rewrite Hh).
  assert (view 1 (z2b OP_DUP :: z2b OP_HASH160 :: direct_push h ++ tail) [sig; pk] vm) as Hv'
    by (destruct Hv; split; try done; by rewrite v_rem0).
  clear Hv. destruct (step_view _ _ _ _ _ _ 1 _ [sig; pk] (opcode_at (z2b OP_DUP)) None
    (z2b OP_HASH160 :: direct_push h ++ tail) [sig; pk; pk] _ Hv' ltac:(done) eq_refl)
    as (vm1 & Hv1 & Hs1); [done|intros ? []; apply (exec_dup [sig] pk); done || reflexivity|].
  destruct (step_view _ _ _ _ _ _ 1 _ _ (opcode_at (z2b OP_HASH160)) None
    (direct_push h ++ tail) [sig; pk; ripemd160 (sha256 pk)] _ Hv1 ltac:(done) eq_refl)
    as (vm2 & Hv2 & Hs2); [done|intros ? []; apply (exec_hash160 [sig; pk] pk); done || reflexivity|].
  destruct (step_view _ _ _ _ _ _ 1 _ _ _ _ _ [sig; pk; ripemd160 (sha256 pk); h] _ Hv2 ltac:(done)
    (parse_direct h tail Hd)) as (vm3 & Hv3 & Hs3);
    [done|intros ? []; by apply (exec_push h [sig; pk; ripemd160 (sha256 pk)])|].
  rewrite bool_decide_false in Hs1, Hs2, Hs3 by done. by exists vm1, vm2, vm3.
Qed.

Lemma sig_nonempty : sig <> [].
Proof using Hsig. intros E. unfold direct_size in Hsig. rewrite E in Hsig. change (zlen []) with 0 in Hsig. lia. Qed.

Lemma checksig_verdict_total vm :
  tx vm = tx0 -> txIdx vm = idx -> 0 <= idx < zlen (TxIns tx0) ->
  returns (checksig_verdict vm (p2pkh h) sig pk).
Proof using Hsig Hh CryptoLaws0.
  intros Ht Hx Hi. unfold checksig_verdict.
  pose proof (parseBaseSigAndPubkey_returns pk sig vm sig_nonempty) as Hr.
  destruct (parseBaseSigAndPubkey pk sig vm) as [[[key sg] ht]|[]| |]; try done.
  rewrite Ht, Hx. destruct (calcSignatureHash_total (p2pkh h) ht tx0 idx) as (hash & -> & _);
    [rewrite p2pkh_size; lia|done|]. cbn [bindO]. by repeat case_match.
Qed.

(** The signature check, the end of the script and the final test. *)
Lemma checksig_run vm fuel :
  view 1 [z2b OP_CHECKSIG] [sig; pk] vm -> 0 <= idx < zlen (TxIns tx0) ->
  ((runSteps (S fuel) ;; CheckErrorCondition true) vm).1
  = let! ok := checksig_verdict vm (p2pkh h) sig pk in if ok then Ret tt else Fail ErrEvalFalse.
Proof using Hsig Hpk Hh Hkeep CryptoLaws0.
  intros Hv Hi. pose proof (p2pkh_keeps h sig Hh Hkeep) as Hrm.
  pose proof (fetched_view _ _ _ _ _ _ 1 _ _ (opcode_at (z2b OP_CHECKSIG)) None [] vm Hv eq_refl) as Hf.
  assert (forall vm1, view 1 [] [sig; pk] vm1 ->
    checksig_verdict vm1 (p2pkh h) sig pk = checksig_verdict vm (p2pkh h) sig pk) as Hsame
    by (intros vm1 Hv1; destruct Hv, Hv1; apply checksig_verdict_ext; congruence).
  pose proof (checksig_verdict_total vm ltac:(by destruct Hv) ltac:(by destruct Hv) Hi) as Htot.
  destruct (checksig_verdict vm (p2pkh h) sig pk) as [b|e| |] eqn:Ever; try done; cbn [bindO].
  - destruct (step_view _ _ _ _ _ _ 1 _ _ _ None [] [fromBool b] vm Hv ltac:(done) eq_refl)
      as (vm1 & Hv1 & Hs1); [done| |].
    { intros vm1 Hv1. pose proof (exec_checksig _ _ _ _ _ sig pk vm1 Hv1 sig_nonempty Hrm) as Hex.
      by rewrite Hsame in Hex. }
    rewrite bool_decide_true in Hs1 by done.
    destruct (end_view _ _ _ _ _ _ vm1 Hv1) as (vm2 & Hn & Hd & Hix & Hsc). rewrite Hn in Hs1.
    unfold bindM. cbn [runSteps]. rewrite (bindM_step _ _ _ _ _ Hs1). unfold retM.
    apply final_check; [done|]. by rewrite Hix, Hsc.
  - pose proof (exec_checksig _ _ _ _ _ sig pk _ Hf sig_nonempty Hrm) as Hex.
    rewrite Hsame in Hex by done. destruct Hex as [vm' Hex].
    pose proof (step_fail _ _ _ _ _ _ 1 _ _ _ None [] e vm' vm Hv ltac:(done) eq_refl Hex) as Hs.
    unfold bindM. cbn [runSteps]. by rewrite (bindM_fail _ _ _ _ _ Hs).
Qed.

(** The comparison of the hashes, and what follows. *)
Lemma verify_run vm fuel :
  view 1 [z2b OP_EQUALVERIFY; z2b OP_CHECKSIG] [sig; pk; ripemd160 (sha256 pk); h] vm ->
  0 <= idx < zlen (TxIns tx0) ->
  ((runSteps (S (S fuel)) ;; CheckErrorCondition true) vm).1 = p2pkh_verdict vm h sig pk.
Proof using Hsig Hpk Hh Hkeep CryptoLaws0.
  intros Hv Hi. unfold p2pkh_verdict.
  case_bool_decide as Heq; cbn [negb].
  - destruct (step_view _ _ _ _ _ _ 1 _ _ (opcode_at (z2b OP_EQUALVERIFY)) None [z2b OP_CHECKSIG]
      [sig; pk] _ Hv ltac:(done) eq_refl) as (vm1 & Hv1 & Hs1); [done| |].
    { intros vm1 []. destruct (exec_equalverify [sig; pk] (ripemd160 (sha256 pk)) h vm1) as [vm' E];
        [done..|]. by rewrite bool_decide_true in E. }
    rewrite bool_decide_false in Hs1 by done. unfold bindM at 1. rewrite (runSteps_S _ _ _ Hs1).
    assert (checksig_verdict vm (p2pkh h) sig pk = checksig_verdict vm1 (p2pkh h) sig pk) as ->
      by (destruct Hv, Hv1; apply checksig_verdict_ext; congruence).
    by apply checksig_run.
  - pose proof (fetched_view _ _ _ _ _ _ 1 _ _ (opcode_at (z2b OP_EQUALVERIFY)) None [z2b OP_CHECKSIG] vm Hv eq_refl) as [].
    destruct (exec_equalverify [sig; pk] (ripemd160 (sha256 pk)) h
      (fetched vm (opcode_at (z2b OP_EQUALVERIFY), None, [z2b OP_CHECKSIG]))) as [vm' E]; [done..|].
    rewrite bool_decide_false in E by done.
    pose proof (step_fail _ _ _ _ _ _ 1 _ _ _ None [z2b OP_CHECKSIG] _ vm' vm Hv ltac:(done) eq_refl E) as Hs.
    unfold bindM. cbn [runSteps]. by rewrite (bindM_fail _ _ _ _ _ Hs).
Qed.

(** The engine [NewEngine] builds for the two scripts. *)
Lemma p2pkh_engine ti :
  znth (TxIns tx0) idx = Some ti -> SignatureScript ti = unlock sig pk ->
  exists vm, NewEngine (p2pkh h) tx0 idx fl None = Ret vm /\ view 0 (unlock sig pk) [] vm.
Proof using Hsig Hpk Hh.
  intros Hti Hss. pose proof (znth_Some _ _ _ Hti) as Hi. unfold NewEngine.
  destruct (unlock_ops sig pk Hsig Hpk) as [Eo Ep]. destruct (p2pkh_ops h Hh) as [_ Ep'].
  destruct (unparse_push sig Hsig) as (_ & _ & V1), (unparse_push pk Hpk) as (_ & _ & V2).
  pose proof p2pkh_size as Hsz. unfold direct_size in Hsig, Hpk.
  assert (zlen (unlock sig pk) = 2 + zlen sig + zlen pk) as Hun
    by (unfold unlock, direct_push; autorewrite with zlen; lia).
  assert (IsPushOnlyScript (unlock sig pk) = Ret true) as Hpo.
  { rewrite IsPushOnlyScript_spec by lia. rewrite Eo, Ep. cbn [forallb fst]. rewrite V1, V2. by ztest. }
  assert (isScriptHashScript (p2pkh h) = false) as Hns.
  { destruct (isScriptHashScript (p2pkh h)) eqn:E; [|done].
    destruct (isScriptHashScript_first _ E) as [r Er]. by injection Er. }
  assert ((idx <? 0) || (idx >=? zlen (TxIns tx0)) = false) as -> by (by ztest).
  rewrite Hti. cbn [orCrash bindO]. rewrite Hss, Hpo, Hns, Hun.
  rewrite (proj2 (Z.eqb_neq (2 + zlen sig + zlen pk) 0)) by lia. cbn [andb].
  assert (forall b : bool, (if b then let! pushOnly := Ret (E := ErrorCode) true in
    if negb pushOnly then Fail ErrNotPushOnly else Ret tt else Ret tt) = Ret tt) as -> by (by intros []).
  cbn [bindO checkScripts]. rewrite Hun, Hsz. ztest. rewrite !checkScriptParses_spec by lia.
  rewrite Ep, Ep'. cbn [bindO]. change (znth [unlock sig pk; p2pkh h] 0) with (Some (unlock sig pk)).
  rewrite ?andb_false_r. cbn [orCrash bindO]. eexists. split; [reflexivity|].
  assert (tok_ok (MakeScriptTokenizer (unlock sig pk))) by (apply make_ok; lia). by split.
Qed.

Lemma p2pkh_run ti :
  znth (TxIns tx0) idx = Some ti -> SignatureScript ti = unlock sig pk ->
  exists vm, NewEngine (p2pkh h) tx0 idx fl None = Ret vm /\ flags vm = fl /\ tx vm = tx0
    /\ txIdx vm = idx /\ (Execute vm).1 = p2pkh_verdict vm h sig pk.
Proof using Hsig Hpk Hh Hkeep CryptoLaws0.
  intros Hti Hss. destruct (p2pkh_engine ti Hti Hss) as (vm & Hn & Hv).
  pose proof (znth_Some _ _ _ Hti) as Hi. exists vm.
  split_and!; [done|by destruct Hv..|].
  destruct (unlock_run vm Hv) as (vm1 & vm2 & S1 & S2 & Hv2).
  destruct (lock_run vm2 Hv2) as (vm3 & vm4 & vm5 & S3 & S4 & S5 & Hv5).
  rewrite Execute_run by (by destruct Hv).
  assert (exists n, exec_fuel vm = S (S (S (S (S (S (S n))))))) as [n ->].
  { unfold exec_fuel. destruct Hv. rewrite v_scripts0.
    exists (Z.to_nat (zsum zlen [unlock sig pk; p2pkh h] + MaxScriptElementSize) - 6)%nat.
    pose proof (zsum_zlen_nonneg [unlock sig pk; p2pkh h]). lia. }
  unfold bindM. rewrite (runSteps_S _ _ _ S1), (runSteps_S _ _ _ S2), (runSteps_S _ _ _ S3),
    (runSteps_S _ _ _ S4), (runSteps_S _ _ _ S5).
  pose proof (verify_run vm5 n Hv5 Hi) as Hfin. unfold bindM in Hfin. rewrite Hfin.
  unfold p2pkh_verdict. destruct Hv, Hv5. rewrite (checksig_verdict_ext vm5 vm); congruence.
Qed.
End p2pkh.

(** ** Property *)

(** C1: pay-to-pubkey-hash works end to end.  For every transaction input whose
    unlocking script pushes a signature and a key and every 20-byte hash, the
    engine built for the standard locking script succeeds if and only if the key
    hashes to the hash of the script, key and signature have an accepted encoding
    and parse, and the signature verifies the signature hash of the transaction
    with the locking script; a wrong key ends with [ErrEqualVerify], whatever
    the signature is. *)
Theorem p2pkh_execution `{Crypto} `{!CryptoLaws _} `{MapOrder}
    (fl : Z) (tx0 : MsgTx) (idx : Z) (ti : TxIn) (h sig pk : bytes) :
  direct_size sig -> direct_size pk -> zlen h = 20 -> Contains h sig = false ->
  znth (TxIns tx0) idx = Some ti -> SignatureScript ti = unlock sig pk ->
  exists vm, NewEngine (p2pkh h) tx0 idx fl None = Ret vm
    /\ (ripemd160 (sha256 pk) <> h -> (Execute vm).1 = Fail ErrEqualVerify)
    /\ ((Execute vm).1 = Ret tt <->
        ripemd160 (sha256 pk) = h
        /\ exists key sg ht hash, parseBaseSigAndPubkey pk sig vm = Ret (key, sg, ht)
             /\ calcSignatureHash (p2pkh h) ht tx0 idx = Ret hash /\ SigVerify sg hash key = true).
Proof.
  intros Hs Hp Hh Hc Hti Hss.
  destruct (p2pkh_run fl tx0 idx h sig pk Hs Hp Hh Hc ti Hti Hss) as (vm & Hn & _ & Et & Ei & He).
  exists vm. split; [done|]. rewrite He. unfold p2pkh_verdict, checksig_verdict. rewrite Et, Ei.
  case_bool_decide as Heq; cbn [negb]; [|naive_solver]. split; [done|].
  destruct (parseBaseSigAndPubkey pk sig vm) as [[[key sg] ht]|[]| |]; cbn [bindO];
    try (split; [done|intros (_ & ? & ? & ? & ? & ? & _); done]).
  destruct (calcSignatureHash (p2pkh h) ht tx0 idx) as [hash|e| |] eqn:Eh; cbn [bindO];
    try (split; [done|intros (_ & ? & ? & ? & ? & [= <- <- <-] & ? & _); congruence]).
  destruct (SigVerify sg hash key) eqn:Ev; cbn [bindO].
  - split; [|done]. intros _. split; [done|]. by exists key, sg, ht, hash.
  - split; [by case_match|]. intros (_ & ? & ? & ? & ? & [= <- <- <-] & Eh' & ?). congruence.
Qed.

(** A key and a transaction signed with the toy scheme. *)
Definition toy_pk : bytes := replicate 33 (z2b 2).
Definition toy_lock : bytes := ripemd160 (Crypto := toy) (sha256 (Crypto := toy) toy_pk).
Definition toy_sig : bytes :=
  match calcSignatureHash (H := toy) (p2pkh toy_lock) SigHashAll (spend []) 0 with
  | Ret hash => toy_sign toy_pk hash ++ [z2b SigHashAll]
  | _ => []
  end.

Lemma p2pkh_execution_witness :
  exists vm, NewEngine (p2pkh toy_lock) (spend (unlock toy_sig toy_pk)) 0 0 None = Ret vm
    /\ (Execute (H := toy) (H0 := toy_order) vm).1 = Ret tt.
Proof.
  destruct (p2pkh_execution (H := toy) (H0 := toy_order) 0 (spend (unlock toy_sig toy_pk)) 0
    (mkTxIn (mkOutPoint (replicate 32 (z2b 7)) 0) (unlock toy_sig toy_pk) [] 0xffffffff)
    toy_lock toy_sig toy_pk) as (vm & Hn & _ & Hiff).
  - split; vm_compute; discriminate.
  - split; vm_compute; discriminate.
  - reflexivity.
  - vm_compute. reflexivity.
  - reflexivity.
  - reflexivity.
  - exists vm. split; [exact Hn|]. apply Hiff. split; [reflexivity|].
    vm_compute in Hn. injection Hn as <-. do 4 eexists.
    split; [vm_compute; reflexivity|]. split; [vm_compute; reflexivity|]. vm_compute. reflexivity.
Defined.
