(* ===== verification/EngineCache.v ===== *)
(** The signature cache does not change the verdict of the engine.

    Two engines that differ only in the cache are run side by side: one with a
    cache of which every entry was verified, one without a cache.  Every handler
    gives the same result on both and keeps the cache sound. *)

From S2P Require Import Prelude Crypto WireCommon WireTx ScriptError ScriptNum ScriptStack Opcodes Tokenizer Script Standard Sighash SigParse SigCache Engine EngineInv EngineSafety EnginePay.

Section cache.
Context `{Crypto} `{MapOrder}.

(** The second engine is the first one without its cache. *)
Definition sim (s1 s2 : Engine) : Prop :=
  s2 = set_sigCache None s1
  /\ match sigCache s1 with Some c => cache_sound c | None => True end.

Definition Rel {A} (Q : A -> A -> Prop) (m1 m2 : EM A) : Prop :=
  forall s1 s2, sim s1 s2 ->
    match m1 s1, m2 s2 with
    | (Ret a, t1), (Ret b, t2) => Q a b /\ sim t1 t2
    | (Fail e, t1), (Fail e', t2) => e = e' /\ sim t1 t2
    | (Crash, t1), (Crash, t2) | (NoFuel, t1), (NoFuel, t2) => sim t1 t2
    | _, _ => False
    end.

(** The same call on both engines. *)
Definition Indep {A} (m : EM A) : Prop := Rel eq m m.

Lemma rel_bind {A B} (Q : A -> A -> Prop) (P : B -> B -> Prop) m1 m2 k1 k2 :
  Rel Q m1 m2 -> (forall a b, Q a b -> Rel P (k1 a) (k2 b)) -> Rel P (bindM m1 k1) (bindM m2 k2).
Proof.
  intros Hm Hk s1 s2 Hs. specialize (Hm s1 s2 Hs). unfold bindM.
  destruct (m1 s1) as [[a|e| |] t1], (m2 s2) as [[b|e'| |] t2]; try done.
  destruct Hm as [Hq Ht]. by apply Hk.
Qed.

Lemma indep_bind {A B} (m : EM A) (k : A -> EM B) :
  Indep m -> (forall a, Indep (k a)) -> Indep (bindM m k).
Proof. intros Hm Hk. eapply rel_bind; [exact Hm|]. intros a b ->. apply Hk. Qed.

(** With what is known of the result. *)
Definition IndepP {A} (Phi : A -> Prop) (m : EM A) : Prop := Rel (fun a b => a = b /\ Phi a) m m.

Lemma indep_bindP {A B} Phi (m : EM A) (k : A -> EM B) :
  IndepP Phi m -> (forall a, Phi a -> Indep (k a)) -> Indep (bindM m k).
Proof. intros Hm Hk. eapply rel_bind; [exact Hm|]. intros a b [-> Ha]. by apply Hk. Qed.

Lemma indepP_bindP {A B} Phi Psi (m : EM A) (k : A -> EM B) :
  IndepP Phi m -> (forall a, Phi a -> IndepP Psi (k a)) -> IndepP Psi (bindM m k).
Proof. intros Hm Hk. eapply rel_bind; [exact Hm|]. intros a b [-> Ha]. by apply Hk. Qed.

Lemma indepP_lift {A} (o : outcome ErrorCode A) : IndepP (fun a => o = Ret a) (liftO o).
Proof. intros s1 s2 Hs. unfold liftO. by destruct o. Qed.

Lemma indepP_ret {A} (Phi : A -> Prop) a : Phi a -> IndepP Phi (retM a).
Proof. by intros Ha s1 s2 Hs. Qed.

Lemma indep_ret {A} (a : A) : Indep (retM a).
Proof. by intros s1 s2 Hs. Qed.
Lemma indep_fail {A} e : Indep (failM e : EM A).
Proof. by intros s1 s2 Hs. Qed.
Lemma indep_crash {A} : Indep (crashM : EM A).
Proof. by intros s1 s2 Hs. Qed.
Lemma indep_nofuel {A} : Indep (nofuelM : EM A).
Proof. by intros s1 s2 Hs. Qed.
Lemma indep_lift {A} (o : outcome ErrorCode A) : Indep (liftO o).
Proof. intros s1 s2 Hs. unfold liftO. by destruct o. Qed.

Lemma indep_onD {A} (m : SM A) : Indep (onD m).
Proof.
  intros s1 s2 [-> Hc]. unfold onD, onM. cbn [dstack set_sigCache].
  by destruct (m (dstack s1)) as [[] t].
Qed.
Lemma indep_onA {A} (m : SM A) : Indep (onA m).
Proof.
  intros s1 s2 [-> Hc]. unfold onA, onM. cbn [astack set_sigCache].
  by destruct (m (astack s1)) as [[] t].
Qed.
Lemma indep_onT {A} (m : TM A) : Indep (onT m).
Proof.
  intros s1 s2 [-> Hc]. unfold onT, onM. cbn [tokenizer set_sigCache].
  by destruct (m (tokenizer s1)) as [[] t].
Qed.

(** Reading and writing the other fields. *)
Lemma indep_gets {A} (f : Engine -> A) :
  (forall vm, f (set_sigCache None vm) = f vm) -> Indep (getsM f).
Proof. intros Hf s1 s2 [-> Hc]. unfold getsM. runM. by rewrite Hf. Qed.
Lemma indep_modify f :
  (forall vm, f (set_sigCache None vm) = set_sigCache None (f vm)) ->
  (forall vm, sigCache (f vm) = sigCache vm) -> Indep (modifyM f).
Proof. intros Hf Hg s1 s2 [-> Hc]. unfold modifyM. split; [done|]. split; [by rewrite Hf|by rewrite Hg]. Qed.

(** Reading the whole struct: what follows may only use the other fields. *)
Lemma indep_get {A} (k : Engine -> EM A) :
  (forall vm, k (set_sigCache None vm) = k vm) -> (forall vm, Indep (k vm)) -> Indep (bindM getM k).
Proof. intros He Hk s1 s2 Hs. unfold bindM, getM. destruct Hs as [-> Hc]. rewrite He. by apply Hk. Qed.
End cache.

Ltac indep_step :=
  lazymatch goal with
  | |- Indep (bindM getM _) => apply indep_get; [reflexivity|intros ?]
  | |- Indep (bindM _ _) => apply indep_bind; [|intros ?]
  | |- Indep (retM _) => apply indep_ret
  | |- Indep (failM _) => apply indep_fail
  | |- Indep crashM => apply indep_crash
  | |- Indep nofuelM => apply indep_nofuel
  | |- Indep (liftO _) => apply indep_lift
  | |- Indep (onD _) => apply indep_onD
  | |- Indep (onA _) => apply indep_onA
  | |- Indep (onT _) => apply indep_onT
  | |- Indep (getsM _) => apply indep_gets; reflexivity
  | |- Indep (modifyM _) => apply indep_modify; reflexivity
  | |- Indep (if ?b then _ else _) => destruct b
  | |- Indep (match ?x with _ => _ end) => destruct x
  | |- Indep (let _ := _ in _) => cbv zeta
  end.

Create HintDb indep.

Section handlers.
Context `{Crypto} `{MapOrder}.

Lemma indep_abstractVerify e : Indep (abstractVerify e).
Proof. unfold abstractVerify. repeat indep_step. Qed.
Lemma indep_popIfBool : Indep popIfBool.
Proof. unfold popIfBool. repeat indep_step. Qed.
Lemma indep_pushCond c : Indep (pushCond c).
Proof. unfold pushCond. repeat indep_step. Qed.
Lemma indep_currentTxIn : Indep currentTxIn.
Proof. unfold currentTxIn. repeat indep_step. Qed.
Lemma indep_subScript : Indep subScript.
Proof. unfold subScript. repeat indep_step. Qed.
Lemma indep_unary f : Indep (unary f).
Proof. unfold unary. repeat indep_step. Qed.
Lemma indep_binary f : Indep (binary f).
Proof. unfold binary. repeat indep_step. Qed.
Lemma indep_hashOp f : Indep (hashOp f).
Proof. unfold hashOp. repeat indep_step. Qed.

(** Verifying a parsed signature with the cache is verifying it. *)
Lemma indep_verifySig h sigBytes pk sg key :
  (ParseSignature sigBytes = Ret sg \/ ParseDERSignature sigBytes = Ret sg) ->
  ParsePubKey pk = Some key -> Indep (verifySig h sigBytes pk sg key).
Proof.
  intros Hsg Hk s1 s2 [-> Hc]. unfold verifySig, getsM. runM. cbn [sigCache set_sigCache].
  destruct (sigCache s1) as [c|] eqn:Ec; [|split; [done|]; split; [done|by rewrite Ec]].
  destruct (Exists c h sigBytes pk) eqn:Ex.
  - rewrite (Exists_sound c h sigBytes pk sg key) by done.
    split; [done|]. split; [done|by rewrite Ec].
  - destruct (SigVerify sg h key) eqn:Ev; (split; [done|]; split; [done|]); [|by rewrite Ec].
    cbn. eapply Add_sound; try done. destruct Hsg; [done|by apply parseSig_der].
Qed.

Lemma parseSignatureFor_parses vm sigBytes sg :
  parseSignatureFor vm sigBytes = Ret sg ->
  ParseSignature sigBytes = Ret sg \/ ParseDERSignature sigBytes = Ret sg.
Proof. unfold parseSignatureFor. case_match; auto. Qed.

Lemma parseBase_parses pk full vm key sg ht :
  parseBaseSigAndPubkey pk full vm = Ret (key, sg, ht) ->
  ParsePubKey pk = Some key
  /\ exists sigBytes, zslice full 0 (zlen full - 1) = Some sigBytes
     /\ (ParseSignature sigBytes = Ret sg \/ ParseDERSignature sigBytes = Ret sg).
Proof.
  unfold parseBaseSigAndPubkey. intros Hp. inv_bind Hp. inv_bind Hp.
  destruct (zslice full 0 _) as [sb|] eqn:Ez; [injection Hm0 as <-|done].
  do 3 inv_bind Hp. destruct (ParsePubKey pk); [|done]. inv_bind Hp. injection Hp as -> -> ->.
  split; [done|]. exists sb. split; [done|]. apply (parseSignatureFor_parses vm).
  unfold asOther in Hm3. by destruct (parseSignatureFor vm sb); simplify_eq.
Qed.

Lemma indep_checkBaseSig pk full : Indep (checkBaseSig pk full).
Proof.
  unfold checkBaseSig. apply indep_get; [reflexivity|]. intros vm.
  destruct (parseBaseSigAndPubkey pk full vm) as [[[key sg] ht]|e| |] eqn:Ep; [|indep_step..].
  destruct (parseBase_parses _ _ _ _ _ _ Ep) as (Hk & sb & Ez & Hsg).
  apply indep_bind; [apply indep_subScript|intros sub]. rewrite Ez.
  eapply indep_bindP; [apply indepP_lift|]. intros ? [= <-].
  do 2 (apply indep_bind; [indep_step|intros ?]).
  apply indep_bind; [by apply indep_verifySig|intros ?; indep_step].
Qed.

Lemma indep_CheckSig : Indep opcodeCheckSig.
Proof.
  unfold opcodeCheckSig. do 2 (apply indep_bind; [indep_step|intros ?]).
  apply indep_bind; [apply indep_checkBaseSig|intros ?]. repeat indep_step.
Qed.

(** What the multisig loop keeps of the signatures it has parsed. *)
Definition info_ok (i : parsedSigInfo) : Prop :=
  forall sg sigBytes, parsedSignature i = Some sg ->
    zslice (signature i) 0 (zlen (signature i) - 1) = Some sigBytes ->
    ParseSignature sigBytes = Ret sg \/ ParseDERSignature sigBytes = Ret sg.

Lemma indep_parseStep vm info sigs si ht sb :
  Forall info_ok sigs -> info_ok info ->
  zslice (signature info) 0 (zlen (signature info) - 1) = Some sb ->
  IndepP (fun r => Forall info_ok r.2 /\ forall sg, r.1 = Some sg ->
            ParseSignature sb = Ret sg \/ ParseDERSignature sb = Ret sg)
    (if negb (parsed info) then
       liftO (checkHashTypeEncoding (flags vm) ht) ;;
       liftO (checkSignatureEncoding (flags vm) sb) ;;
       match parseSignatureFor vm sb with
       | Ret sg => retM (Some sg, <[si := mkSigInfo (signature info) (Some sg) true]> sigs)
       | Fail _ => retM (None, <[si := mkSigInfo (signature info) (parsedSignature info) true]> sigs)
       | Crash => crashM
       | NoFuel => nofuelM
       end
     else retM (parsedSignature info, sigs)).
Proof.
  intros Hs Hi Hz. destruct (parsed info); cbn [negb].
  { apply indepP_ret. split; [done|]. intros sg E. by apply Hi. }
  do 2 (eapply indepP_bindP; [apply indepP_lift|intros _ _]).
  destruct (parseSignatureFor vm sb) as [sg|e| |] eqn:Ep;
    [apply indepP_ret|apply indepP_ret|intros s1 s2 Hr; exact Hr..]; cbn [fst snd].
  - apply parseSignatureFor_parses in Ep. split; [|by intros ? [= <-]].
    apply Forall_insert; [done|]. intros sg' sb' [= <-] Hz'. cbn in Hz'. by simplify_eq.
  - split; [|done]. apply Forall_insert; [done|]. exact Hi.
Qed.

Lemma indep_multisigLoop fuel : forall scr keys sigs ns np pi si,
  Forall info_ok sigs -> Indep (multisigLoop fuel scr keys sigs ns np pi si).
Proof.
  induction fuel as [|fuel IH]; intros scr keys sigs ns np pi si Hok; cbn [multisigLoop]; [indep_step|].
  do 2 (indep_step; [indep_step|]).
  eapply indep_bindP; [apply indepP_lift|]. intros info Hi.
  destruct (znth sigs si) as [info'|] eqn:Ei; [injection Hi as ->|done].
  assert (info_ok info) as Hinfo by (by eapply znth_Forall).
  apply indep_bind; [indep_step|intros key]. cbv zeta.
  indep_step; [by apply IH|]. apply indep_bind; [indep_step|intros ht].
  eapply indep_bindP; [apply indepP_lift|]. intros sb Hsb.
  destruct (zslice (signature info) 0 _) as [sb'|] eqn:Ez; [injection Hsb as ->|done].
  apply indep_get; [reflexivity|intros vm].
  eapply indep_bindP; [by apply (indep_parseStep vm info sigs)|]. intros [[sg|] sigs'] [Hs' Hsg];
    cbn [fst snd] in *; [|by apply IH].
  apply indep_bind; [indep_step|intros _]. destruct (ParsePubKey key) eqn:Ek; [|by apply IH].
  apply indep_bind; [indep_step|intros h].
  apply indep_bind; [apply indep_verifySig; auto|intros valid]. indep_step; by apply IH.
Qed.

Lemma indep_CheckMultiSig : Indep opcodeCheckMultiSig.
Proof.
  unfold opcodeCheckMultiSig. repeat (indep_step || apply indep_subScript).
  apply indep_multisigLoop, List.Forall_forall. intros i Hi. apply in_map_iff in Hi as (sg & <- & _). done.
Qed.

Lemma indep_run_opfunc o data : Indep (run_opfunc o data).
Proof.
  unfold run_opfunc. destruct (op_func o);
    unfold opcodeFalse, opcodePushData, opcode1Negate, opcodeReserved, opcodeN, opcodeNop, opcodeIf,
      opcodeNotIf, opcodeElse, opcodeEndif, opcodeVerify, opcodeReturn, opcodeToAltStack,
      opcodeFromAltStack, opcode2Drop, opcode2Dup, opcode3Dup, opcode2Over, opcode2Rot, opcode2Swap,
      opcodeIfDup, opcodeDepth, opcodeDrop, opcodeDup, opcodeNip, opcodeOver, opcodePick, opcodeRoll,
      opcodeRot, opcodeSwap, opcodeTuck, opcodeDisabled, opcodeSize, opcodeEqualVerify, opcodeEqual,
      opcode1Add, opcode1Sub, opcodeNegate, opcodeAbs, opcodeNot, opcode0NotEqual, opcodeAdd, opcodeSub,
      opcodeBoolAnd, opcodeBoolOr, opcodeNumEqualVerify, opcodeNumEqual, opcodeNumNotEqual,
      opcodeLessThan, opcodeGreaterThan, opcodeLessThanOrEqual, opcodeGreaterThanOrEqual, opcodeMin,
      opcodeMax, opcodeWithin, opcodeRipemd160, opcodeSha1, opcodeSha256, opcodeHash160, opcodeHash256,
      opcodeCodeSeparator, opcodeCheckSigVerify, opcodeCheckMultiSigVerify, opcodeCheckLockTimeVerify,
      opcodeCheckSequenceVerify, opcodeInvalid; cbv zeta;
    repeat first [ indep_step | apply indep_abstractVerify | apply indep_popIfBool | apply indep_pushCond
                 | apply indep_currentTxIn | apply indep_unary | apply indep_binary | apply indep_hashOp
                 | apply indep_CheckSig | apply indep_CheckMultiSig ].
Qed.

Lemma indep_executeOpcode o data : Indep (executeOpcode o data).
Proof. unfold executeOpcode. repeat (indep_step || apply indep_run_opfunc). Qed.

Lemma indep_CheckErrorCondition b : Indep (CheckErrorCondition b).
Proof. unfold CheckErrorCondition. cbv zeta. repeat indep_step. Qed.

Lemma indep_nextScript : Indep nextScript.
Proof.
  unfold nextScript, advanceScript, SetStack.
  repeat (indep_step || apply indep_CheckErrorCondition).
Qed.

Lemma indep_Step : Indep Step.
Proof.
  unfold Step, checkValidPC. repeat (indep_step || apply indep_executeOpcode || apply indep_nextScript).
Qed.

Lemma indep_runSteps fuel : Indep (runSteps fuel).
Proof. induction fuel as [|fuel IH]; cbn [runSteps]; repeat (indep_step || apply indep_Step || apply IH). Qed.

Lemma indep_Execute : Indep Execute.
Proof.
  unfold Execute. repeat (indep_step || apply indep_runSteps || apply indep_CheckErrorCondition).
Qed.
End handlers.

(** ** Property *)

(** C4: the signature cache is transparent.  Executing an input with a cache all
    of whose entries were verified gives the same result, success or the same
    error, as executing it without a cache; it leaves the same stacks, program
    counter and condition stack, and the cache it leaves is again one whose
    entries were all verified. *)
Theorem Execute_cache_transparent `{Crypto} `{MapOrder} (vm : Engine) (c : SigCache) :
  sigCache vm = Some c -> cache_sound c ->
  (Execute vm).1 = (Execute (set_sigCache None vm)).1
  /\ set_sigCache None (Execute vm).2 = (Execute (set_sigCache None vm)).2
  /\ match sigCache (Execute vm).2 with Some c' => cache_sound c' | None => True end.
Proof.
  intros Hc Hs. pose proof (indep_Execute vm (set_sigCache None vm)) as Hr.
  assert (sim vm (set_sigCache None vm)) as Hsim by (split; [done|by rewrite Hc]).
  specialize (Hr Hsim).
  destruct (Execute vm) as [[a|e| |] t1], (Execute (set_sigCache None vm)) as [[b|e'| |] t2]; try done.
  - destruct Hr as [-> [-> Hr]]. done.
  - destruct Hr as [-> [-> Hr]]. done.
  - destruct Hr as [-> Hr]. done.
  - destruct Hr as [-> Hr]. done.
Qed.

(** The engine of a P2PKH input with a cache that has room for one entry. *)
Lemma Execute_cache_transparent_witness :
  match start (unlock toy_sig toy_pk) (p2pkh toy_lock) 0 with
  | Ret vm =>
      (Execute (H := toy) (H0 := toy_order) (set_sigCache (Some (NewSigCache 1)) vm)).1 = Ret tt
  | _ => False
  end.
Proof.
  destruct (start (unlock toy_sig toy_pk) (p2pkh toy_lock) 0) as [vm|e| |] eqn:E; [|vm_compute in E; discriminate E..].
  pose proof (proj1 (Execute_cache_transparent (H := toy) (H0 := toy_order)
    (set_sigCache (Some (NewSigCache 1)) vm) (NewSigCache 1) eq_refl (NewSigCache_sound (H := toy) 1))) as Ht.
  rewrite Ht. vm_compute in E. injection E as <-. vm_compute. reflexivity.
Defined.
