(* ===== verification/EngineMulti.v ===== *)
(** CHECKMULTISIG decides the existence of an assignment.

    The handler tries every signature against the keys in order and never goes
    back; the specification asks for an assignment of the signatures to distinct
    keys that keeps the order. *)

From S2P Require Import Prelude Crypto WireCommon WireTx ScriptError ScriptNum ScriptStack Opcodes Tokenizer Script Standard Sighash SigParse SigCache Engine EngineInv EngineSafety.

(** ** The greedy search *)

Lemma sublist_rev {A} (l k : list A) : sublist l k -> sublist (rev l) (rev k).
Proof.
  induction 1 as [|x l k _ IH|x l k _ IH]; cbn [rev]; [constructor|by apply sublist_app|].
  rewrite <- (app_nil_r (rev l)). apply sublist_app; [done|apply sublist_nil_l].
Qed.

Lemma Forall2_rev' {A B} (R : A -> B -> Prop) l k : Forall2 R l k -> Forall2 R (rev l) (rev k).
Proof. induction 1; cbn [rev]; [constructor|]. apply Forall2_app; auto. Qed.

Section greedy.
Context {A B : Type} (valid : A -> B -> bool).

Fixpoint greedy (sigs : list A) (keys : list B) : bool :=
  match sigs, keys with
  | [], _ => true
  | _ :: _, [] => false
  | s :: ss, k :: ks => if valid s k then greedy ss ks else greedy (s :: ss) ks
  end.

(** An assignment in order: a sublist of the keys that matches the signatures
    one by one. *)
Definition assignment (sigs : list A) (keys : list B) : Prop :=
  exists sub, sublist sub keys /\ Forall2 (fun s k => valid s k = true) sigs sub.

Lemma greedy_mono sigs : forall keys s, greedy (s :: sigs) keys = true -> greedy sigs keys = true.
Proof.
  intros keys. revert sigs. induction keys as [|k ks IH]; intros sigs s; [by destruct sigs|].
  cbn [greedy]. destruct sigs as [|s' ss]; [done|].
  destruct (valid s k).
  - intros Hg. destruct (valid s' k); [by apply (IH ss s')|done].
  - intros Hg. destruct (valid s' k); [apply (IH ss s'), (IH (s' :: ss) s), Hg|by apply (IH _ s)].
Qed.

Lemma greedy_assignment keys : forall sigs, greedy sigs keys = true <-> assignment sigs keys.
Proof.
  induction keys as [|k ks IH]; intros [|s ss]; cbn [greedy].
  - split; [intros _|done]. exists []. split; constructor.
  - split; [done|]. intros (sub & Hs & Hf). apply sublist_nil_r in Hs as ->. inversion Hf.
  - split; [intros _|done]. exists []. split; [apply sublist_nil_l|constructor].
  - destruct (valid s k) eqn:Ev.
    + rewrite IH. split.
      * intros (sub & Hs & Hf). exists (k :: sub). split; [by constructor|by constructor].
      * intros (sub & Hs & Hf). inversion Hf as [|? k' ? sub' Hk Hf']; subst.
        exists sub'. split; [|done]. inversion Hs; subst; [done|].
        etrans; [|done]. by apply sublist_cons.
    + rewrite IH. split.
      * intros (sub & Hs & Hf). exists sub. split; [by constructor|done].
      * intros (sub & Hs & Hf). exists sub. split; [|done]. inversion Hf as [|? k' ? sub' Hk Hf']; subst.
        inversion Hs; subst; [congruence|done].
Qed.

Lemma greedy_short sigs keys : (length keys < length sigs)%nat -> greedy sigs keys = false.
Proof.
  intros Hl. destruct (greedy sigs keys) eqn:E; [|done].
  apply greedy_assignment in E as (sub & Hs%sublist_length & Hf%Forall2_length). lia.
Qed.

(** Reading both lists from the other end does not matter. *)
Lemma assignment_rev sigs keys : assignment (rev sigs) (rev keys) <-> assignment sigs keys.
Proof.
  assert (forall sigs keys, assignment sigs keys -> assignment (rev sigs) (rev keys)) as Hr.
  { intros ss ks (sub & Hs & Hf). exists (rev sub). split; [by apply sublist_rev|by apply Forall2_rev']. }
  split; [|apply Hr]. intros Ha%Hr. by rewrite !rev_involutive in Ha.
Qed.
End greedy.

(** ** The loop *)

(** The flags under which the handler can refuse: those for the encoding of
    signatures and keys, the empty dummy and the empty failing signatures. *)
Definition strict_multi (fl : Z) : bool :=
  existsb (has_flag fl) [ScriptStrictMultiSig; ScriptVerifyNullFail; ScriptVerifyDERSignatures;
    ScriptVerifyLowS; ScriptVerifyStrictEncoding].

Lemma strict_multi_false fl :
  strict_multi fl = false ->
  has_flag fl ScriptStrictMultiSig = false /\ has_flag fl ScriptVerifyNullFail = false
  /\ has_flag fl ScriptVerifyDERSignatures = false /\ has_flag fl ScriptVerifyLowS = false
  /\ has_flag fl ScriptVerifyStrictEncoding = false.
Proof. unfold strict_multi. cbn [existsb]. rewrite !orb_false_iff. tauto. Qed.

(** Where the handler fails, one of the flags is set. *)
Ltac strict_flag H :=
  apply not_false_iff_true; intros E; apply strict_multi_false in E as (E1 & E2 & E3 & E4 & E5);
  revert H; unfold hasFlag, checkHashTypeEncoding, checkSignatureEncoding, checkPubKeyEncoding;
  rewrite ?E1, ?E2, ?E3, ?E4, ?E5; cbn [negb andb]; rewrite ?andb_false_r; done.

Section multisig.
Context `{Crypto} `{!CryptoLaws _} `{MapOrder}.
Variable vm0 : Engine.
Variable script : bytes.
Hypothesis Hcache : sigCache vm0 = None.
Hypothesis Htx : 0 <= txIdx vm0 < zlen (TxIns (tx vm0)).
Hypothesis Hscr : zlen script < 2 ^ 31.

(** The signature without its hash type. *)
Definition sig_body (raw : bytes) : bytes := removelast raw.
Definition sig_type (raw : bytes) : Z := match last raw with Some b => b2z b | None => 0 end.

Definition parse_opt (raw : bytes) : option Signature :=
  match parseSignatureFor vm0 (sig_body raw) with Ret sg => Some sg | _ => None end.

(** A signature is valid for a key. *)
Definition sig_matches (raw key : bytes) : bool :=
  match raw with
  | [] => false
  | _ =>
      match parse_opt raw, ParsePubKey key, calcSignatureHash script (sig_type raw) (tx vm0) (txIdx vm0) with
      | Some sg, Some pk, Ret hash => SigVerify sg hash pk
      | _, _, _ => false
      end
  end.

(** What the loop remembers of a signature. *)
Definition info_for (raw : bytes) (i : parsedSigInfo) : Prop :=
  signature i = raw
  /\ parsedSignature i = if parsed i then parse_opt raw else None.

Lemma raw_split raw :
  raw <> [] ->
  at_ (E := ErrorCode) raw (zlen raw - 1) = Ret (sig_type raw)
  /\ zslice raw 0 (zlen raw - 1) = Some (sig_body raw).
Proof.
  intros Hr. destruct (snoc_cases raw) as [->|(b & m & ->)]; [done|].
  unfold sig_type, sig_body, at_. rewrite removelast_last, last_snoc, znth_top. split; [done|].
  rewrite zlen_app. change (zlen [m]) with 1. replace (zlen b + 1 - 1) with (zlen b) by lia.
  apply zslice_app_l.
Qed.

Lemma drop_lookup_cons {A} (l : list A) i x :
  znth l i = Some x -> drop (Z.to_nat i) l = x :: drop (Z.to_nat (i + 1)) l.
Proof.
  intros Hx. pose proof (znth_Some _ _ _ Hx). rewrite znth_lookup in Hx by lia.
  rewrite (drop_S l x) by done. do 2 f_equal. lia.
Qed.

(** The part of a round that parses the signature, unless it was parsed before. *)
Definition parse_info (info : parsedSigInfo) (infos : list parsedSigInfo) (raw : bytes) (si : Z) :
    EM (option Signature * list parsedSigInfo) :=
  if negb (parsed info) then
    liftO (checkHashTypeEncoding (flags vm0) (sig_type raw)) ;;
    liftO (checkSignatureEncoding (flags vm0) (sig_body raw)) ;;
    match parseSignatureFor vm0 (sig_body raw) with
    | Ret sg => retM (Some sg, <[Z.to_nat si := mkSigInfo raw (Some sg) true]> infos)
    | Fail _ => retM (None, <[Z.to_nat si := mkSigInfo raw (parsedSignature info) true]> infos)
    | Crash => crashM
    | NoFuel => nofuelM
    end
  else retM (parsedSignature info, infos).

Lemma info_insert raws infos raw si o :
  Forall2 info_for raws infos -> znth raws si = Some raw -> o = parse_opt raw ->
  Forall2 info_for raws (<[Z.to_nat si := mkSigInfo raw o true]> infos).
Proof.
  intros Hin Er Eo. pose proof (znth_Some _ _ _ Er).
  rewrite <- (list_insert_id raws (Z.to_nat si) raw) by (by rewrite znth_lookup in Er by lia).
  apply Forall2_insert; [done|]. split; [done|]. cbn. by rewrite Eo.
Qed.

Lemma parse_info_spec raws infos info raw si :
  Forall2 info_for raws infos -> znth raws si = Some raw -> info_for raw info ->
  match parse_info info infos raw si vm0 with
  | (Ret (o, infos'), vm') => vm' = vm0 /\ o = parse_opt raw /\ Forall2 info_for raws infos'
  | (Fail e, _) => strict_multi (flags vm0) = true
  | (Crash, _) | (NoFuel, _) => False
  end.
Proof.
  intros Hin Er [Esig Eparse]. unfold parse_info.
  destruct (parsed info); cbn [negb]; [by split|]. unfold liftO, bindM.
  pose proof (checkHashTypeEncoding_returns (flags vm0) (sig_type raw)).
  pose proof (checkSignatureEncoding_total (flags vm0) (sig_body raw)).
  pose proof (parseSignatureFor_returns vm0 (sig_body raw)).
  destruct (checkHashTypeEncoding _ _) as [[]|e| |] eqn:Eh; try done;
    [|strict_flag Eh].
  destruct (checkSignatureEncoding _ _) as [[]|e| |] eqn:Es; try done;
    [|strict_flag Es].
  pose proof (fun o => info_insert raws infos raw si o Hin Er) as Hins.
  unfold parse_opt in *. destruct (parseSignatureFor vm0 (sig_body raw)) as [sg|e| |]; try done.
  - split_and!; try done. by apply Hins.
  - split_and!; try done. rewrite Eparse. by apply Hins.
Qed.

Lemma multisigLoop_greedy fuel : forall keys raws infos ns np pi si,
  Forall2 info_for raws infos ->
  0 <= ns -> np + pi = zlen keys -> -1 <= pi -> 0 <= si -> si + ns = zlen raws ->
  (Z.to_nat np < fuel)%nat ->
  match multisigLoop fuel script keys infos ns np pi si vm0 with
  | (Ret b, vm') => vm' = vm0
      /\ b = greedy sig_matches (drop (Z.to_nat si) raws) (drop (Z.to_nat (pi + 1)) keys)
  | (Fail e, _) => strict_multi (flags vm0) = true
  | (Crash, _) | (NoFuel, _) => False
  end.
Proof using Hcache Htx Hscr CryptoLaws0.
  induction fuel as [|fuel IH]; intros keys raws infos ns np pi si Hin Hns Hnp Hpi Hsi Hss Hf;
    cbn [multisigLoop]; [lia|].
  pose proof (Forall2_length _ _ _ Hin) as Hlen.
  destruct (Z.gtb_spec ns 0) as [Hn0|Hn0]; cbn [negb].
  2:{ split; [done|]. rewrite (drop_ge raws) by (unfold zlen in *; lia). by destruct (drop _ keys). }
  destruct (Z.gtb_spec ns (np - 1)) as [Hgt|Hle].
  { split; [done|]. symmetry. apply greedy_short. rewrite !length_drop. unfold zlen in *. lia. }
  destruct (znth_is_Some infos si) as [info Ei]; [unfold zlen in *; lia|].
  destruct (znth_is_Some keys (pi + 1)) as [key Ek]; [lia|].
  destruct (znth_is_Some raws si) as [raw Er]; [lia|].
  assert (info_for raw info) as [Esig Eparse].
  { unfold znth in Ei, Er. case_decide; [|done]. by eapply Forall2_lookup_lr. }
  rewrite Ei, Ek. cbn [orCrash]. do 2 (erewrite bindM_step by reflexivity). cbv zeta.
  rewrite (drop_lookup_cons raws si raw), (drop_lookup_cons keys (pi + 1) key) by done.
  cbn [greedy]. rewrite <- (drop_lookup_cons raws si raw) by done. rewrite Esig.
  assert (forall infos', Forall2 info_for raws infos' ->
    match multisigLoop fuel script keys infos' ns (np - 1) (pi + 1) si vm0 with
    | (Ret b, vm') => vm' = vm0 /\ b = greedy sig_matches (drop (Z.to_nat si) raws)
                                       (drop (Z.to_nat (pi + 1 + 1)) keys)
    | (Fail e, _) => strict_multi (flags vm0) = true
    | (Crash, _) | (NoFuel, _) => False
    end) as Hcont by (intros; apply IH; try done; lia).
  destruct (Z.eqb_spec (zlen raw) 0) as [Hz|Hz].
  { apply zlen_0_inv in Hz. assert (sig_matches raw key = false) as -> by (by rewrite Hz). by apply Hcont. }
  assert (raw <> []) as Hne by (intros E; by rewrite E in Hz).
  assert (sig_matches raw key = match parse_opt raw, ParsePubKey key,
    calcSignatureHash script (sig_type raw) (tx vm0) (txIdx vm0) with
    | Some sg, Some pk, Ret hash => SigVerify sg hash pk | _, _, _ => false end) as ->
    by (by destruct raw).
  destruct (raw_split raw Hne) as [Ht Hb]. rewrite Ht, Hb. cbn [orCrash].
  do 3 (erewrite bindM_step by reflexivity).
  match goal with |- context [bindM ?m _ vm0] => change m with (parse_info info infos raw si) end.
  pose proof (parse_info_spec raws infos info raw si Hin Er (conj Esig Eparse)) as Hparse.
  unfold bindM at 1. destruct (parse_info info infos raw si vm0) as [[[o infos']|e| |] vm']; try done.
  destruct Hparse as (-> & -> & Hinfos').
  destruct (parse_opt raw) as [sg|]; [|by apply Hcont].
  pose proof (checkPubKeyEncoding_returns (flags vm0) key).
  unfold bindM at 1, liftO. destruct (checkPubKeyEncoding _ _) as [[]|e| |] eqn:Ep; try done;
    [|strict_flag Ep].
  destruct (ParsePubKey key) as [pk|]; [|by apply Hcont].
  unfold bindM at 1.
  destruct (calcSignatureHash_total script (sig_type raw) (tx vm0) (txIdx vm0)) as (hash & -> & _); [done..|].
  assert (verifySig hash (sig_body raw) key sg pk vm0 = (Ret (SigVerify sg hash pk), vm0)) as Hver
    by (unfold verifySig, getsM; runM; by rewrite Hcache).
  rewrite (bindM_step _ _ _ _ _ Hver). destruct (SigVerify sg hash pk); [|by apply Hcont].
  apply IH; try done; lia.
Qed.
End multisig.

(** ** The handler *)

Lemma popN_spec l : forall below s,
  depth_ok s -> stk s = below ++ l -> popN (length l) s = (Ret (rev l), set_stk below s).
Proof.
  induction l as [|x l IH] using rev_ind; intros below s Hd Hs.
  { rewrite app_nil_r in Hs. cbn. by rewrite stack_eta. }
  rewrite length_app, Nat.add_comm, rev_app_distr. cbn [Nat.add length popN rev app].
  rewrite app_assoc in Hs. erewrite bindM_step by (by apply Pop_spec).
  erewrite bindM_step; [|apply (IH below); [|done]]; [done|].
  unfold depth_ok in *. rewrite Hs, zlen_app in Hd. cbn. pose proof (zlen_nonneg [x]). lia.
Qed.

Lemma onD_popN vm below l :
  depth_ok (dstack vm) -> stk (dstack vm) = below ++ l ->
  onD (popN (length l)) vm = (Ret (rev l), set_dstack (set_stk below (dstack vm)) vm).
Proof. intros Hd Hs. by apply onD_Ret, popN_spec. Qed.

Lemma onD_PopInt vm below b n :
  depth_ok (dstack vm) -> stk (dstack vm) = below ++ [b] ->
  makeScriptNum b (verifyMinimalData (dstack vm)) maxScriptNumLen = Ret n ->
  onD PopInt vm = (Ret n, set_dstack (set_stk below (dstack vm)) vm).
Proof.
  intros Hd Hs Hn. apply onD_Ret. unfold PopInt.
  erewrite bindM_step by (by apply Pop_spec). erewrite bindM_step by reflexivity.
  cbn. by rewrite Hn.
Qed.

Section handler.
Context `{Crypto} `{!CryptoLaws _} `{MapOrder}.
Variables (vm : Engine) (script : bytes) (below : list bytes) (dummy : bytes)
  (sigs keys : list bytes) (mB nB : bytes).
Hypothesis Hcache : sigCache vm = None.
Hypothesis Htx : 0 <= txIdx vm < zlen (TxIns (tx vm)).
Hypothesis Hscr : zlen script < 2 ^ 31.
Hypothesis Hsub : forall vm', scripts vm' = scripts vm -> scriptIdx vm' = scriptIdx vm ->
  lastCodeSep vm' = lastCodeSep vm -> subScript vm' = (Ret script, vm').
Hypothesis Hd : depth_ok (dstack vm).
Hypothesis Hst : stk (dstack vm) = ((((below ++ [dummy]) ++ sigs) ++ [mB]) ++ keys) ++ [nB].
Hypothesis Hn : makeScriptNum nB (verifyMinimalData (dstack vm)) maxScriptNumLen = Ret (zlen keys).
Hypothesis Hm : makeScriptNum mB (verifyMinimalData (dstack vm)) maxScriptNumLen = Ret (zlen sigs).
Hypothesis Hmn : zlen sigs <= zlen keys <= MaxPubKeysPerMultiSig.
Hypothesis Hops : 0 <= numOps vm /\ numOps vm + zlen keys <= MaxOpsPerScript.

(** The engine once everything is popped. *)
Definition popped : Engine :=
  set_dstack (set_stk below (dstack vm)) (set_numOps (numOps vm + zlen keys) vm).

(** The handler after the pops. *)
Definition checkRest (dummy : bytes) (sigs keys : list bytes) : EM unit :=
  strict <- getsM (hasFlag ScriptStrictMultiSig) ;;
  if strict && negb (zlen dummy =? 0) then failM ErrSigNullDummy else
  script <- subScript ;;
  success <- multisigLoop (S (S (Z.to_nat (zlen keys)))) script (rev keys)
    (map (fun s => mkSigInfo s None false) (rev sigs)) (zlen sigs) (zlen keys + 1) (-1) 0 ;;
  nullFail <- getsM (hasFlag ScriptVerifyNullFail) ;;
  if negb success && nullFail && existsb (fun s => zlen s >? 0) (rev sigs) then failM ErrNullFail
  else onD (PushBool success).

Lemma CheckMultiSig_pops : opcodeCheckMultiSig vm = checkRest dummy sigs keys popped.
Proof using Hd Hst Hn Hm Hmn Hops.
  unfold opcodeCheckMultiSig. pose proof (zlen_nonneg sigs). pose proof (zlen_nonneg keys).
  assert (zlen (stk (dstack vm)) < 2 ^ 31) as Hl by apply Hd. rewrite Hst in Hl.
  rewrite (bindM_step _ _ _ _ _ (onD_PopInt vm _ nB _ Hd Hst Hn)).
  rewrite Int32_range by lia. cbv zeta. ztest. erewrite bindM_step by reflexivity.
  erewrite bindM_step by reflexivity. cbn [numOps set_numOps set_dstack]. ztest.
  rewrite zlen_to_nat.
  erewrite bindM_step by (apply (onD_popN _ (((below ++ [dummy]) ++ sigs) ++ [mB]) keys); [|done];
    unfold depth_ok; cbn; rewrite zlen_app in Hl; pose proof (zlen_nonneg [nB]); lia).
  rewrite !zlen_app in Hl. change (zlen [nB]) with 1 in Hl. change (zlen [mB]) with 1 in Hl.
  change (zlen [dummy]) with 1 in Hl. pose proof (zlen_nonneg below).
  erewrite bindM_step by (apply (onD_PopInt _ ((below ++ [dummy]) ++ sigs) mB); [|done|exact Hm];
    unfold depth_ok; cbn; rewrite !zlen_app; change (zlen [mB]) with 1; change (zlen [dummy]) with 1; lia).
  rewrite Int32_range by lia. ztest. rewrite zlen_to_nat.
  erewrite bindM_step by (apply (onD_popN _ (below ++ [dummy]) sigs); [|done];
    unfold depth_ok; cbn; rewrite !zlen_app; change (zlen [dummy]) with 1; lia).
  erewrite bindM_step by (apply onD_Ret, (Pop_spec _ below dummy); [|done];
    unfold depth_ok; cbn; rewrite !zlen_app; change (zlen [dummy]) with 1; lia).
  unfold checkRest. rewrite zlen_to_nat. reflexivity.
Qed.

Lemma CheckMultiSig_result :
  match opcodeCheckMultiSig vm with
  | (Ret _, vm') => exists b, vm' = set_dstack (set_stk (below ++ [fromBool b]) (dstack vm)) popped
      /\ (b = true <-> assignment (sig_matches vm script) sigs keys)
  | (Fail _, _) => strict_multi (flags vm) = true
  | (Crash, _) | (NoFuel, _) => False
  end.
Proof using Type*.
  rewrite CheckMultiSig_pops. unfold checkRest. erewrite bindM_step by reflexivity.
  change (hasFlag ScriptStrictMultiSig popped) with (hasFlag ScriptStrictMultiSig vm).
  destruct (hasFlag ScriptStrictMultiSig vm && negb (zlen dummy =? 0)) eqn:Es.
  { strict_flag Es. }
  rewrite (bindM_step _ _ _ _ _ (Hsub popped eq_refl eq_refl eq_refl)).
  pose proof (zlen_nonneg sigs). pose proof (zlen_nonneg keys).
  set (infos := map (fun s => mkSigInfo s None false) (rev sigs)).
  assert (Forall2 (info_for popped) (rev sigs) infos) as Hin.
  { subst infos. induction (rev sigs) as [|s l IH]; constructor; [by split|done]. }
  pose proof (multisigLoop_greedy popped script Hcache Htx Hscr (S (S (Z.to_nat (zlen keys)))) (rev keys)
    (rev sigs) infos (zlen sigs) (zlen keys + 1) (-1) 0 Hin) as Hloop.
  rewrite !zlen_rev in Hloop.
  specialize (Hloop ltac:(lia) ltac:(lia) ltac:(lia) ltac:(lia) ltac:(lia) ltac:(lia)).
  change (-1 + 1) with 0 in Hloop. rewrite !drop_0 in Hloop. unfold bindM at 1.
  destruct (multisigLoop _ _ _ _ _ _ _ _ popped) as [[b|e| |] vm1]; try done. destruct Hloop as [-> Hb].
  assert (b = true <-> assignment (sig_matches vm script) sigs keys) as Hiff.
  { rewrite <- assignment_rev, <- greedy_assignment, Hb. done. }
  erewrite bindM_step by reflexivity.
  change (hasFlag ScriptVerifyNullFail popped) with (hasFlag ScriptVerifyNullFail vm).
  destruct (negb b && hasFlag ScriptVerifyNullFail vm && _) eqn:En.
  { strict_flag En. }
  exists b. split; [done|done].
Qed.
End handler.

(** ** Property *)

(** C3: CHECKMULTISIG is correct.  With [m] signatures and [n] keys on the stack
    in their order, the handler never panics; if it returns, it has replaced its
    operands by one truth value, which is true if and only if the signatures can
    be assigned to distinct keys in the same order so that every signature
    verifies under its key; and without the flags that make signatures, keys or the
    dummy item strict it always returns. *)
Theorem CheckMultiSig_correct `{Crypto} `{!CryptoLaws _} `{MapOrder} (vm : Engine) (script : bytes)
    (below : list bytes) (dummy : bytes) (sigs keys : list bytes) (mB nB : bytes) :
  inv vm -> sigCache vm = None ->
  zslice (Tokenizer.script (tokenizer vm)) (lastCodeSep vm) (zlen (Tokenizer.script (tokenizer vm))) = Some script ->
  stk (dstack vm) = below ++ [dummy] ++ sigs ++ [mB] ++ keys ++ [nB] ->
  makeScriptNum nB (verifyMinimalData (dstack vm)) maxScriptNumLen = Ret (zlen keys) ->
  makeScriptNum mB (verifyMinimalData (dstack vm)) maxScriptNumLen = Ret (zlen sigs) ->
  zlen sigs <= zlen keys <= MaxPubKeysPerMultiSig ->
  numOps vm + zlen keys <= MaxOpsPerScript ->
  match opcodeCheckMultiSig vm with
  | (Ret _, vm') => exists b, stk (dstack vm') = below ++ [fromBool b]
      /\ (b = true <-> assignment (sig_matches vm script) sigs keys)
  | (Fail _, _) => strict_multi (flags vm) = true
  | (Crash, _) | (NoFuel, _) => False
  end.
Proof.
  intros Hv Hc Hz Hst Hn Hm Hmn Hops. destruct Hv as [Hb _ _]. destruct (base_depth vm Hb) as [Hd _].
  destruct Hb as [Hiv Htx Hscr [[_ Htok] _] _ _ _].
  pose proof (CheckMultiSig_result vm script below dummy sigs keys mB nB Hc Htx) as Hr.
  assert (zlen script < 2 ^ 31) as Hl
    by (apply zslice_inv in Hz as (? & ? & -> & _); pose proof (iv_sep _ _ _ Hiv); lia).
  assert (forall vm', scripts vm' = scripts vm -> scriptIdx vm' = scriptIdx vm ->
    lastCodeSep vm' = lastCodeSep vm -> subScript vm' = (Ret script, vm')) as Hsub.
  { intros vm' E1 E2 E3. unfold subScript. runM. rewrite E1, E2, E3, Hscr. by rewrite Hz. }
  specialize (Hr Hl Hsub Hd ltac:(rewrite Hst; by rewrite <- !app_assoc) Hn Hm Hmn
    (conj (proj1 (iv_ops _ _ _ Hiv)) Hops)).
  destruct (opcodeCheckMultiSig vm) as [[u|e| |] vm']; try done.
  destruct Hr as (b & -> & Hiff). by exists b.
Qed.

(** One signature for the second of two keys, in front of CHECKMULTISIG. *)
Definition toy_key (n : Z) : bytes := replicate 33 (z2b n).
Definition toy_multi_sig : bytes :=
  match calcSignatureHash (H := toy) [z2b OP_CHECKMULTISIG] SigHashAll (spend []) 0 with
  | Ret hash => toy_sign (toy_key 3) hash ++ [z2b SigHashAll]
  | _ => []
  end.
Definition toy_multi_unlock : bytes :=
  [z2b OP_0] ++ (z2b (zlen toy_multi_sig) :: toy_multi_sig) ++ [z2b OP_1]
  ++ (z2b 33 :: toy_key 2) ++ (z2b 33 :: toy_key 3) ++ [z2b OP_2].
Notation toy_multi_engine := (steps_from 6 toy_multi_unlock [z2b OP_CHECKMULTISIG] 0).

Lemma CheckMultiSig_correct_witness :
  match toy_multi_engine with
  | Some vm => exists vm', opcodeCheckMultiSig (H := toy) (H0 := toy_order) vm = (Ret tt, vm')
      /\ exists b, stk (dstack vm') = [fromBool b]
         /\ (b = true <-> assignment (sig_matches (H := toy) vm [z2b OP_CHECKMULTISIG])
                            [toy_multi_sig] [toy_key 2; toy_key 3])
  | None => False
  end.
Proof.
  destruct toy_multi_engine as [vm|] eqn:E; [|vm_compute in E; discriminate E].
  assert (zlen toy_multi_unlock < 2 ^ 31) as Hl by (vm_compute; reflexivity).
  pose proof (steps_from_inv _ _ _ _ _ E Hl eq_refl) as Hv.
  pose proof (CheckMultiSig_correct (H := toy) (H0 := toy_order) vm [z2b OP_CHECKMULTISIG] [] []
    [toy_multi_sig] [toy_key 2; toy_key 3] [z2b 1] [z2b 2] Hv) as Hm.
  assert (flags vm = 0 /\ sigCache vm = None
    /\ zslice (script (tokenizer vm)) (lastCodeSep vm) (zlen (script (tokenizer vm))) = Some [z2b OP_CHECKMULTISIG]
    /\ stk (dstack vm) = [] ++ [[]] ++ [toy_multi_sig] ++ [[z2b 1]] ++ [toy_key 2; toy_key 3] ++ [[z2b 2]]
    /\ verifyMinimalData (dstack vm) = false /\ numOps vm = 0) as (H0 & H1 & H2 & H3 & H4 & H5)
    by (vm_compute in E; injection E as <-; split_and!; vm_compute; reflexivity).
  rewrite H4, H5 in Hm. specialize (Hm H1 H2 H3 eq_refl eq_refl).
  destruct (opcodeCheckMultiSig vm) as [[[]|e| |] vm'].
  - exists vm'. split; [reflexivity|]. apply Hm; unfold zlen; simpl; lia.
  - exfalso. rewrite H0 in Hm. cut (strict_multi 0 = true); [discriminate|]. apply Hm; unfold zlen; simpl; lia.
  - exfalso. apply Hm; unfold zlen; simpl; lia.
  - exfalso. apply Hm; unfold zlen; simpl; lia.
Defined.
