(* ===== verification/EngineP2sh.v ===== *)
(** Pay-to-script-hash with a multisignature script, from the scripts to the verdict.

    The engine is run symbolically through the three scripts: the pushes of the
    unlocking script, the comparison of hashes, and the redeem script with the
    stack that was saved. *)

From S2P Require Import Prelude Crypto WireCommon WireTx ScriptError ScriptNum ScriptStack Opcodes Tokenizer Script ScriptBuilder Standard Sighash SigParse SigCache Engine EngineInv EngineSafety EnginePay EngineMulti.

(** ** Pushes *)

(** Data that its canonical push leaves on the stack: anything but the single
    bytes that have no opcode of their own. *)
Definition pushable (data : bytes) : Prop :=
  data = [] \/ 2 <= zlen data <= MaxScriptElementSize \/ exists n, 1 <= n <= 16 /\ data = [z2b n].

Definition pushes (ds : list bytes) : bytes := concat (map push_bytes ds).

Lemma pushes_app x y : pushes (x ++ y) = pushes x ++ pushes y.
Proof. unfold pushes. by rewrite map_app, concat_app. Qed.

Section push.
Context `{Crypto} `{MapOrder}.

(** What executing an opcode with its data pushes. *)
Definition executes_push (o : opcode) (dd : option bytes) (data : bytes) : Prop :=
  forall vm, condStack vm = [] ->
    executeOpcode o (bytes_of dd) vm
    = (Ret tt, set_dstack (set_stk (stk (dstack vm) ++ [data]) (dstack vm)) vm).

Lemma executes_short o dd data (f : EM unit) :
  isOpcodeDisabled (value o) = false -> isOpcodeAlwaysIllegal (value o) = false ->
  zlen (bytes_of dd) <= MaxScriptElementSize ->
  checkMinimalDataPush o (bytes_of dd) = Ret tt \/ OP_PUSHDATA4 < value o ->
  run_opfunc o (bytes_of dd) = f -> f = onD (PushByteArray data) ->
  executes_push o dd data.
Proof.
  intros H1 H2 Hl Hm Hf -> vm Hc. unfold executeOpcode. rewrite H1, H2, Hf.
  rewrite Z.gtb_ltb, (proj2 (Z.ltb_ge _ _)) by done. erewrite bindM_step by reflexivity.
  assert (isBranchExecuting vm = true) as -> by (unfold isBranchExecuting; by rewrite Hc).
  cbn [negb andb]. erewrite bindM_step; [done|]. destruct Hm as [->|Hm]; [by case_match|].
  rewrite (proj2 (Z.leb_gt _ _) Hm), andb_false_r. done.
Qed.

Lemma parse_small n rest :
  1 <= n <= 16 ->
  exists o, parse_op (push_bytes [z2b n] ++ rest) = Some (o, None, rest) /\ value o <= OP_16
    /\ executes_push o None [z2b n].
Proof.
  intros Hn. assert (exists k, (k < 16)%nat /\ n = Z.of_nat (S k)) as (k & Hk & ->)
    by (exists (Z.to_nat (n - 1)); lia).
  do 16 (destruct k as [|k]; [eexists; split; [reflexivity|split; [by cbn|]];
    eapply executes_short; [reflexivity|reflexivity|done|by right|reflexivity|reflexivity]|]). lia.
Qed.

(** The opcodes PUSHDATA1 and PUSHDATA2. *)
Lemma parse_counted data rest :
  OP_PUSHDATA1 <= zlen data <= MaxScriptElementSize ->
  exists o, parse_op (push_bytes data ++ rest) = Some (o, Some data, rest) /\ value o <= OP_16
    /\ executes_push o (Some data) data.
Proof.
  intros Hn. unfold push_bytes. cbv zeta. ztest. cbn [andb orb].
  destruct (Z.leb_spec (zlen data) 0xff); eexists; (split; [apply parse_data_op with (n := zlen data);
    [|by rewrite length_le_bytes| |reflexivity]|split]).
  all: try done.
  all: try (eapply executes_short; [reflexivity|reflexivity|cbn [bytes_of]; lia|left|reflexivity|reflexivity];
    unfold checkMinimalDataPush; cbn [bytes_of]; cbv zeta; ztest; done).
  all: rewrite le_val_le_bytes; apply Z.mod_small; lia.
Qed.

Lemma pushable_parse data rest :
  pushable data ->
  exists o dd, parse_op (push_bytes data ++ rest) = Some (o, dd, rest) /\ value o <= OP_16
    /\ executes_push o dd data.
Proof.
  intros [->|[Hd|(n & Hn & ->)]].
  - do 2 eexists. split; [reflexivity|]. split; [by cbn|].
    eapply executes_short; [reflexivity|reflexivity|done|by left|reflexivity|reflexivity].
  - destruct (Z.ltb_spec (zlen data) OP_PUSHDATA1) as [Hs|Hs].
    + rewrite push_bytes_direct by lia. destruct (parse_direct_push data rest) as [Hp Hv]; [lia|].
      do 2 eexists. split; [exact Hp|]. split; [lia|]. intros vm Hc.
      apply (exec_push data); [split; lia|done|done].
    + destruct (parse_counted data rest) as (o & ?); [lia|]. by exists o, (Some data).
  - destruct (parse_small n rest Hn) as (o & ?). by exists o, None.
Qed.
End push.

(** The tokens of pushes. *)
Lemma pushes_tokens `{Crypto} `{MapOrder} ds :
  Forall pushable ds ->
  exists l, pushes ds = unparse l /\ Forall tok_wf l /\ forallb (fun p => value p.1 <=? OP_16) l = true.
Proof.
  induction 1 as [|x ds Hx _ (l & E & Hw & Hl)]; [by exists []|].
  destruct (pushable_parse x [] Hx) as (o & dd & Hp & Hv & _). rewrite app_nil_r in Hp.
  pose proof (parse_op_app _ _ _ _ Hp) as Hb. rewrite app_nil_r in Hb.
  exists ((o, dd) :: l). split_and!.
  - unfold pushes, unparse in *. cbn [map concat fst snd]. by rewrite Hb, E.
  - constructor; [|done]. exists []. cbn [fst snd]. by rewrite <- Hb, ?app_nil_r.
  - cbn [forallb fst]. by rewrite Hl, (proj2 (Z.leb_le _ _) Hv).
Qed.

(** ** Runs *)

Section runs.
Context `{Crypto} `{!CryptoLaws _} `{MapOrder}.

(** The verdict of an engine is that of any engine its execution passes through. *)
Lemma Execute_reaches vm vm1 :
  inv vm -> version vm = 0 -> reaches vm vm1 ->
  match Step vm1 with
  | (Ret true, vm2) => (Execute vm).1 = (CheckErrorCondition true vm2).1
  | (Fail e, _) => (Execute vm).1 = Fail e
  | _ => True
  end.
Proof using CryptoLaws0.
  intros Hv H0v Hr. rewrite Execute_run by done.
  assert ((runSteps (exec_fuel vm) vm).1 <> NoFuel) as Hs.
  { pose proof (runSteps_safe _ vm Hv (exec_fuel_enough vm Hv)). by destruct (runSteps _ vm) as [[] ?]. }
  revert Hs. generalize (exec_fuel vm). clear Hv H0v. unfold bindM.
  induction Hr as [vm|vm vm1 vm2 Hst _ IH]; intros [|n] Hs; cbn [runSteps] in *; [done| |done|];
    unfold bindM in *.
  - by destruct (Step vm) as [[[]|e| |] vm2].
  - rewrite Hst in *. by apply IH.
Qed.
End runs.

(** ** The unlocking script *)

Section view.
Context `{Crypto} `{MapOrder}.
Context (fl : Z) (tx0 : MsgTx) (idx : Z) (bip : bool) (sv scrs : list bytes).
Notation view i s d := (view fl tx0 idx bip sv scrs i s d).

Lemma push_step i data rest d vm :
  pushable data -> view i (push_bytes data ++ rest) d vm -> i < zlen scrs -> zlen (d ++ [data]) <= MaxStackSize ->
  exists vm', view i rest (d ++ [data]) vm'
    /\ Step vm = (if bool_decide (rest = []) then nextScript else retM false) vm'.
Proof.
  intros Hp Hv Hi Hl. destruct (pushable_parse data rest Hp) as (o & dd & Hparse & _ & Hex).
  apply (step_view _ _ _ _ _ _ i (push_bytes data ++ rest) d o dd); try done.
  intros vm1 []. rewrite Hex by done. by rewrite v_d.
Qed.

Lemma pushes_run i rest : forall ds d vm,
  Forall pushable ds -> view i (pushes ds ++ rest) d vm -> rest <> [] -> i < zlen scrs ->
  zlen (d ++ ds) <= MaxStackSize ->
  exists vm', reaches vm vm' /\ view i rest (d ++ ds) vm'.
Proof.
  induction ds as [|x ds IH]; intros d vm Hp Hv Hr Hi Hl.
  { rewrite app_nil_r. exists vm. split; [constructor|done]. }
  inversion Hp as [|? ? Hx Hp']; subst. unfold pushes in Hv. cbn [map concat] in Hv. rewrite <- app_assoc in Hv.
  fold (pushes ds) in Hv. rewrite cons_middle, app_assoc in Hl.
  destruct (push_step i x (pushes ds ++ rest) d vm Hx Hv Hi) as (vm1 & Hv1 & Hs).
  { rewrite zlen_app in Hl. pose proof (zlen_nonneg ds). lia. }
  rewrite bool_decide_false in Hs by (intros [_ ?]%app_eq_nil; done).
  destruct (IH (d ++ [x]) vm1 Hp' Hv1 Hr Hi Hl) as (vm2 & Hr2 & Hv2). exists vm2.
  split; [by econstructor|]. by rewrite cons_middle, app_assoc.
Qed.
End view.

Lemma exec_equal `{Crypto} `{MapOrder} d x y vm :
  condStack vm = [] -> stk (dstack vm) = d ++ [x; y] -> zlen (d ++ [x; y]) < 2 ^ 30 ->
  executeOpcode (opcode_at (z2b OP_EQUAL)) [] vm
  = (Ret tt, set_dstack (set_stk (d ++ [fromBool (bool_decide (x = y))]) (dstack vm)) vm).
Proof.
  intros Hc Hd Hl. rewrite exec_plain; [|reflexivity|reflexivity|reflexivity|done|done].
  change (run_opfunc _ _) with opcodeEqual. unfold opcodeEqual. rewrite zlen_app in Hl.
  change (zlen [x; y]) with 2 in Hl. pose proof (zlen_nonneg d).
  erewrite bindM_step by (apply onD_Ret, (Pop_spec _ (d ++ [x]) y);
    [unfold depth_ok; rewrite Hd, zlen_app; change (zlen [x; y]) with 2; lia|by rewrite <- app_assoc]).
  erewrite bindM_step by (apply onD_Ret, (Pop_spec _ d x);
    [unfold depth_ok; cbn; rewrite zlen_app; change (zlen [x]) with 1; lia|done]).
  assert (bool_decide (y = x) = bool_decide (x = y)) as -> by (apply bool_decide_ext; naive_solver). done.
Qed.

(** ** The three scripts *)

Section p2sh.
Context `{Crypto} `{!CryptoLaws _} `{MapOrder}.
Context (fl : Z) (tx0 : MsgTx) (idx : Z) (ds : list bytes) (redeem h : bytes).
Hypothesis Hds : Forall pushable ds.
Hypothesis Hred : 2 <= zlen redeem <= MaxScriptElementSize.
Hypothesis Hlen : zlen ds <= 100.
Hypothesis Hh : zlen h = 20.
Hypothesis Hparse : parses redeem = true.
Let u := pushes (ds ++ [redeem]).
Notation start_view := (view fl tx0 idx true [] [u; p2sh h] 0 u []).
Notation lock_view := (view fl tx0 idx true (ds ++ [redeem]) [u; p2sh h] 1).
Notation redeem_view := (view fl tx0 idx true (ds ++ [redeem]) [u; p2sh h; redeem] 2).

Lemma redeem_pushable : pushable redeem.
Proof using Hred. by right; left. Qed.

Lemma zlen_saved : zlen (ds ++ [redeem]) = zlen ds + 1.
Proof. rewrite zlen_app. done. Qed.

(** The end of the unlocking script saves the stack. *)
Lemma unlock_next vm :
  view fl tx0 idx true [] [u; p2sh h] 0 [] (ds ++ [redeem]) vm ->
  exists vm', nextScript vm = (Ret false, vm') /\ lock_view (p2sh h) (ds ++ [redeem]) vm'.
Proof using Hlen Hh.
  intros []. rewrite next_clears by done. pose proof (zlen_nonneg ds). pose proof zlen_saved.
  assert (GetStack vm = ds ++ [redeem]) as Hg
    by (unfold GetStack; rewrite getStack_spec; [done|unfold depth_ok; rewrite v_d; lia]).
  assert (advanceScript (set_opcodeIdx 0 (set_numOps 0 vm)) = (Ret tt,
    set_savedFirstStack (ds ++ [redeem]) (set_scriptIdx 1 (set_opcodeIdx 0 (set_numOps 0 vm))))) as Ha.
  { unfold advanceScript. erewrite bindM_step by reflexivity. cbn [scriptIdx bip16 set_opcodeIdx set_numOps].
    rewrite v_bip16, v_scriptIdx. cbn [Z.eqb andb]. erewrite bindM_step by reflexivity.
    unfold modifyM. cbn [scriptIdx set_opcodeIdx set_numOps]. rewrite v_scriptIdx.
    change (GetStack (set_scriptIdx (0 + 1) (set_opcodeIdx 0 (set_numOps 0 vm)))) with (GetStack vm).
    by rewrite Hg. }
  rewrite (bindM_step _ _ _ _ _ Ha). unfold nextTail. erewrite bindM_step by reflexivity.
  cbn [scriptIdx scripts set_savedFirstStack set_scriptIdx set_opcodeIdx set_numOps]. rewrite v_scripts.
  change (1 <? zlen [u; p2sh h]) with true. change (znth [u; p2sh h] 1) with (Some (p2sh h)). cbv iota beta.
  assert (zlen (p2sh h) = 23) as Hz by (unfold p2sh; autorewrite with zlen; lia). rewrite Hz.
  cbn [Z.eqb andb]. do 3 (erewrite bindM_step by reflexivity).
  cbn [scriptIdx scripts set_lastCodeSep set_savedFirstStack set_scriptIdx set_opcodeIdx set_numOps].
  rewrite v_scripts. change (1 >=? zlen [u; p2sh h]) with false.
  change (znth [u; p2sh h] 1) with (Some (p2sh h)). cbv iota. eexists. split; [reflexivity|].
  pose proof (make_ok (p2sh h) ltac:(lia)) as Hm. by split.
Qed.

Lemma unlock_pushes vm :
  start_view vm -> exists vm', reaches vm vm' /\ lock_view (p2sh h) (ds ++ [redeem]) vm'.
Proof using Hds Hred Hlen Hh.
  intros Hv. pose proof zlen_saved.
  assert (push_bytes redeem <> []) as Hne
    by (destruct (push_bytes redeem) eqn:E; [apply (f_equal zlen) in E; rewrite zlen_push_bytes in E|done];
        unfold canonicalDataSize in E; revert E; change (zlen (@nil byte)) with 0; repeat case_match; zbool; lia).
  assert (view fl tx0 idx true [] [u; p2sh h] 0 (pushes ds ++ push_bytes redeem ++ []) [] vm) as Hv'.
  { rewrite app_nil_r. replace (pushes ds ++ push_bytes redeem) with u; [done|].
    subst u. rewrite pushes_app. unfold pushes at 2. cbn [map concat]. by rewrite app_nil_r. }
  destruct (pushes_run _ _ _ _ _ _ 0 (push_bytes redeem ++ []) ds [] vm Hds Hv') as (vm1 & Hr1 & Hv1);
    [by rewrite app_nil_r|done|cbn [app]; lia|].
  destruct (push_step _ _ _ _ _ _ 0 redeem [] _ vm1 redeem_pushable Hv1) as (vm2 & Hv2 & Hs2); [done|cbn [app]; lia|].
  rewrite bool_decide_true in Hs2 by done. destruct (unlock_next vm2 Hv2) as (vm3 & Hn & Hv3).
  exists vm3. split; [|done]. eapply reaches_trans; [exact Hr1|]. apply reaches_one. by rewrite Hs2.
Qed.

(** *** The locking script *)

Let same : bool := bool_decide (ripemd160 (sha256 redeem) = h).

Lemma lock_steps vm :
  lock_view (p2sh h) (ds ++ [redeem]) vm ->
  exists vm1 vm2, reaches vm vm1 /\ lock_view [] (ds ++ [fromBool same]) vm2 /\ Step vm1 = nextScript vm2.
Proof using Hlen Hh.
  intros Hv. pose proof (zlen_nonneg ds). assert (direct_size h) as Hd by (unfold direct_size; lia).
  assert (p2sh h = z2b OP_HASH160 :: direct_push h ++ [z2b OP_EQUAL]) as E
    by (unfold p2sh, direct_push; by rewrite Hh).
  assert (lock_view (z2b OP_HASH160 :: direct_push h ++ [z2b OP_EQUAL]) (ds ++ [redeem]) vm) as Hv'
    by (destruct Hv; split; try done; by rewrite v_rem). clear Hv.
  destruct (step_view _ _ _ _ _ _ 1 _ _ (opcode_at (z2b OP_HASH160)) None
    (direct_push h ++ [z2b OP_EQUAL]) (ds ++ [ripemd160 (sha256 redeem)]) _ Hv' ltac:(done) eq_refl)
    as (vm1 & Hv1 & Hs1); [rewrite zlen_app; change (zlen [_]) with 1; lia
    |intros ? []; apply exec_hash160; [done|done|rewrite zlen_app; change (zlen [_]) with 1; lia]|].
  destruct (step_view _ _ _ _ _ _ 1 _ _ _ _ _ (ds ++ [ripemd160 (sha256 redeem); h]) _ Hv1 ltac:(done)
    (parse_direct h [z2b OP_EQUAL] Hd)) as (vm2 & Hv2 & Hs2);
    [rewrite zlen_app; change (zlen [_; _]) with 2; lia
    |intros ? []; rewrite (exec_push h (ds ++ [ripemd160 (sha256 redeem)])) by done; by rewrite <- app_assoc|].
  destruct (step_view _ _ _ _ _ _ 1 _ _ (opcode_at (z2b OP_EQUAL)) None [] (ds ++ [fromBool same]) _ Hv2
    ltac:(done) eq_refl) as (vm3 & Hv3 & Hs3); [rewrite zlen_app; change (zlen [_]) with 1; lia
    |intros ? []; apply exec_equal; [done|done|rewrite zlen_app; change (zlen [_; _]) with 2; lia]|].
  rewrite bool_decide_false in Hs1, Hs2 by done. rewrite bool_decide_true in Hs3 by done.
  exists vm2, vm3. split_and!; [|done|done]. econstructor; [exact Hs1|by apply reaches_one].
Qed.

Lemma lock_check vm :
  stk (dstack vm) = ds ++ [fromBool same] -> scriptIdx vm = 2 -> scripts vm = [u; p2sh h] ->
  exists vm', CheckErrorCondition false vm
    = if same then (Ret tt, set_dstack (set_stk ds (dstack vm)) vm) else (Fail ErrEvalFalse, vm').
Proof using Hlen.
  intros Hd Hi Hs. pose proof (zlen_nonneg ds).
  assert (zlen (stk (dstack vm)) = zlen ds + 1) as Hz by (by rewrite Hd, zlen_app).
  assert (depth_ok (dstack vm)) as Hdep by (unfold depth_ok; lia).
  unfold CheckErrorCondition. erewrite bindM_step by reflexivity. cbv zeta. rewrite Hi, Hs.
  change (2 <? zlen [u; p2sh h]) with false. cbv iota.
  rewrite (bindM_step _ _ _ _ _ (onD_Depth vm Hdep)), Hz. cbn [andb]. ztest.
  rewrite (bindM_step _ _ _ _ _ (onD_PopBool vm ds _ Hdep Hd)).
  destruct same; by eexists.
Qed.

(** The end of the locking script puts the redeem script in place. *)
Lemma lock_next vm :
  lock_view [] (ds ++ [fromBool same]) vm ->
  exists vm', (if same then nextScript vm = (Ret false, vm') /\ redeem_view redeem ds vm'
               else nextScript vm = (Fail ErrEvalFalse, vm')).
Proof using Hred Hlen Hparse.
  intros []. rewrite next_clears by done. pose proof (zlen_nonneg ds).
  set (vm0 := set_scriptIdx 2 (set_opcodeIdx 0 (set_numOps 0 vm))).
  destruct (lock_check vm0) as [vmf Hck]; [done|done|done|].
  assert (advanceScript (set_opcodeIdx 0 (set_numOps 0 vm))
    = if same then (Ret tt, set_dstack (set_stk ds (dstack vm0)) (set_scripts [u; p2sh h; redeem] vm0))
      else (Fail ErrEvalFalse, vmf)) as Ha.
  { unfold advanceScript. erewrite bindM_step by reflexivity. cbn [scriptIdx bip16 set_opcodeIdx set_numOps].
    rewrite v_bip16, v_scriptIdx. cbn [Z.eqb Pos.eqb andb]. erewrite bindM_step by reflexivity.
    cbn [scriptIdx set_opcodeIdx set_numOps]. rewrite v_scriptIdx. change (1 + 1) with 2. fold vm0.
    destruct same; [|by rewrite (bindM_fail _ _ _ _ _ Hck)]. rewrite (bindM_step _ _ _ _ _ Hck).
    rewrite (redeem_step _ ds redeem); [|unfold depth_ok; cbn; lia|done|lia]. rewrite Hparse. cbn. by rewrite v_scripts. }
  destruct same; [|exists vmf; by rewrite (bindM_fail _ _ _ _ _ Ha)].
  rewrite (bindM_step _ _ _ _ _ Ha). unfold nextTail. erewrite bindM_step by reflexivity.
  cbn [scriptIdx scripts set_dstack set_scripts vm0 set_scriptIdx].
  change (2 <? zlen [u; p2sh h; redeem]) with true. change (znth [u; p2sh h; redeem] 2) with (Some redeem).
  cbv iota beta. rewrite (proj2 (Z.eqb_neq (zlen redeem) 0)) by lia. cbn [andb].
  do 3 (erewrite bindM_step by reflexivity).
  cbn [scriptIdx scripts set_lastCodeSep set_dstack set_scripts vm0 set_scriptIdx].
  change (2 >=? zlen [u; p2sh h; redeem]) with false. change (znth [u; p2sh h; redeem] 2) with (Some redeem).
  cbv iota. eexists. split; [reflexivity|]. pose proof (make_ok redeem ltac:(lia)). by split.
Qed.

(** *** The engine [NewEngine] builds *)

Lemma p2sh_engine ti :
  has_flag fl ScriptBip16 = true -> zlen u <= MaxScriptSize ->
  znth (TxIns tx0) idx = Some ti -> SignatureScript ti = u ->
  exists vm, NewEngine (p2sh h) tx0 idx fl None = Ret vm /\ start_view vm.
Proof using Hds Hred Hh H H0.
  intros Hbip Hu Hti Hss. pose proof (znth_Some _ _ _ Hti) as Hi. unfold NewEngine.
  destruct (pushes_tokens (ds ++ [redeem])) as (l & El & Hw & Hpush);
    [apply Forall_app; split; [done|constructor; [apply redeem_pushable|constructor]]|].
  fold u in El. destruct (ops_unparse l Hw) as [Eo Ep]. rewrite <- El in Eo, Ep.
  assert (IsPushOnlyScript u = Ret true) as Hpo by (rewrite IsPushOnlyScript_spec, Eo, Ep, Hpush by lia; done).
  assert (isScriptHashScript (p2sh h) = true) as Hsh.
  { unfold isScriptHashScript. by rewrite (proj2 (extractScriptHash_iff _ h)). }
  assert (zlen (p2sh h) = 23) as Hz by (unfold p2sh; autorewrite with zlen; lia).
  assert (parses (p2sh h) = true) as Eph.
  { destruct (unparse_push h) as (E & W & _); [unfold direct_size; lia|].
    replace (p2sh h) with (unparse [(opcode_at (z2b OP_HASH160), None); (opcode_at (z2b (zlen h)), Some h);
      (opcode_at (z2b OP_EQUAL), None)]).
    - apply ops_unparse. repeat constructor; try done; by exists [].
    - unfold unparse. cbn [map concat fst snd]. rewrite E. unfold p2sh, direct_push. by rewrite Hh. }
  assert (0 < zlen u) as Hpos.
  { destruct l as [|p l]; [|pose proof (zlen_nonneg u); destruct (Z.eq_dec (zlen u) 0) as [E0|]; [|lia]].
    - subst u. rewrite pushes_app in El. apply app_eq_nil in El as [_ El].
      unfold pushes in El. cbn [map concat] in El. rewrite app_nil_r in El.
      destruct (pushable_parse redeem [] redeem_pushable) as (o & dd & Hp & _). rewrite El in Hp. done.
    - apply zlen_0_inv in E0. rewrite E0 in Eo. done. }
  assert ((idx <? 0) || (idx >=? zlen (TxIns tx0)) = false) as -> by (by ztest).
  rewrite Hti. cbn [orCrash bindO]. rewrite Hss, Hpo, Hsh, Hbip.
  rewrite (proj2 (Z.eqb_neq (zlen u) 0)) by lia. cbn [andb bindO negb].
  assert (forall b : bool, (if b then Ret (E := ErrorCode) tt else Ret tt) = Ret tt) as -> by (by intros []).
  cbn [bindO]. assert (forall b : bool, (if b then Ret (E := ErrorCode) true else Ret true) = Ret true) as ->
    by (by intros []).
  cbn [bindO checkScripts]. rewrite Hz. ztest. rewrite !checkScriptParses_spec by lia. rewrite Ep, Eph.
  cbn [bindO]. change (znth [u; p2sh h] 0) with (Some u). cbn [orCrash bindO].
  eexists. split; [reflexivity|]. pose proof (make_ok u ltac:(lia)). by split.
Qed.

(** The end of the redeem script. *)
Lemma redeem_end b vm :
  condStack vm = [] -> stk (astack vm) = [] -> scriptIdx vm = 2 -> scripts vm = [u; p2sh h; redeem] ->
  stk (dstack vm) = [fromBool b] ->
  exists vm', nextScript vm = (Ret true, vm')
    /\ (CheckErrorCondition true vm').1 = if b then Ret tt else Fail ErrEvalFalse.
Proof.
  intros Hc Ha Hi Hs Hd. rewrite next_clears by done.
  assert (advanceScript (set_opcodeIdx 0 (set_numOps 0 vm))
    = (Ret tt, set_scriptIdx 3 (set_opcodeIdx 0 (set_numOps 0 vm)))) as Had.
  { unfold advanceScript. erewrite bindM_step by reflexivity. cbn [scriptIdx set_opcodeIdx set_numOps].
    rewrite Hi. cbn [Z.eqb Pos.eqb andb]. unfold modifyM. cbn [scriptIdx set_opcodeIdx set_numOps]. by rewrite Hi. }
  rewrite (bindM_step _ _ _ _ _ Had). unfold nextTail. runM.
  cbn [scriptIdx scripts set_scriptIdx set_opcodeIdx set_numOps]. rewrite Hs.
  change (3 <? zlen [u; p2sh h; redeem]) with false. cbn [andb]. cbv iota beta.
  cbn [scriptIdx scripts set_lastCodeSep set_scriptIdx set_opcodeIdx set_numOps]. rewrite Hs.
  change (3 >=? zlen [u; p2sh h; redeem]) with true. cbv iota. eexists. split; [reflexivity|].
  apply final_check; [done|]. cbn. by rewrite Hs.
Qed.

(** A redeem script of another hash fails; otherwise the execution comes to the
    redeem script, with what was pushed before it. *)
Lemma p2sh_run vm :
  start_view vm -> inv vm ->
  if same then exists vm', reaches vm vm' /\ redeem_view redeem ds vm'
  else (Execute vm).1 = Fail ErrEvalFalse.
Proof using Hds Hred Hlen Hh Hparse CryptoLaws0.
  intros Hv Hinv. destruct (unlock_pushes vm Hv) as (vm1 & Hr1 & Hv1).
  destruct (lock_steps vm1 Hv1) as (vm2 & vm3 & Hr2 & Hv3 & Hs).
  pose proof (reaches_trans _ _ _ Hr1 Hr2) as Hr.
  destruct (lock_next vm3 Hv3) as (vm4 & Hn). destruct same.
  - destruct Hn as [Hn Hv4]. rewrite Hn in Hs. exists vm4. split; [|done].
    eapply reaches_trans; [exact Hr|by apply reaches_one].
  - pose proof (Execute_reaches vm vm2 Hinv ltac:(by destruct Hv) Hr) as He.
    by rewrite Hs, Hn in He.
Qed.
End p2sh.

(** ** The multisignature script *)

Lemma multisig_pushes keys m :
  Forall (fun k => isStrictPubKeyEncoding k = true) keys -> 1 <= m <= 16 -> 1 <= zlen keys <= 16 ->
  multisig_script keys m = pushes ([[z2b m]] ++ keys ++ [[z2b (zlen keys)]]) ++ [z2b OP_CHECKMULTISIG]
  /\ Forall pushable ([[z2b m]] ++ keys ++ [[z2b (zlen keys)]]).
Proof.
  intros Hk Hm Hn.
  assert (forall n, 1 <= n <= 16 -> push_bytes [z2b n] = [smallint_op n]) as Hsm.
  { intros n Hn'. assert (b2z (z2b n) = n) as E by (rewrite b2z_z2b; apply Z.mod_small; lia).
    unfold push_bytes, smallint_op, first_byte. change (zlen [z2b n]) with 1. cbv zeta. rewrite E. by ztest. }
  assert (keys_bytes keys = pushes keys /\ Forall pushable keys) as [Ek Hp].
  { clear Hn. unfold keys_bytes, pushes. induction Hk as [|k keys Hk%strict_len _ [IH1 IH2]]; [done|].
    cbn [map concat]. rewrite IH1, push_bytes_direct by lia. split; [done|]. constructor; [|done]. right. left. lia. }
  split.
  - rewrite !pushes_app. unfold pushes at 1 3. cbn [map concat]. rewrite !Hsm, <- Ek by lia.
    unfold multisig_script. by rewrite !app_nil_r, <- !app_assoc.
  - repeat (apply Forall_app; split); [|done|]; (constructor; [|constructor]); right; right; eauto.
Qed.

Lemma multisig_parses `{Crypto} `{MapOrder} keys m :
  Forall (fun k => isStrictPubKeyEncoding k = true) keys -> 1 <= m <= 16 -> 1 <= zlen keys <= 16 ->
  parses (multisig_script keys m) = true.
Proof.
  intros Hk Hm Hn. destruct (multisig_pushes keys m Hk Hm Hn) as [E Hp].
  destruct (pushes_tokens _ Hp) as (l & El & Hw & _). rewrite E, El.
  replace (unparse l ++ [z2b OP_CHECKMULTISIG])
    with (unparse (l ++ [(opcode_at (z2b OP_CHECKMULTISIG), None)])) by (by rewrite unparse_app).
  apply ops_unparse. apply Forall_app. split; [done|]. constructor; [by exists []|constructor].
Qed.

Lemma sig_matches_ext `{Crypto} vm1 vm2 script sig key :
  flags vm1 = flags vm2 -> tx vm1 = tx vm2 -> txIdx vm1 = txIdx vm2 ->
  sig_matches vm1 script sig key = sig_matches vm2 script sig key.
Proof.
  intros Ef Et Ei. unfold sig_matches, parse_opt, parseSignatureFor, strictEncoding, hasFlag. by rewrite Ef, Et, Ei.
Qed.

Lemma small_num n minimal : 1 <= n <= 16 -> makeScriptNum [z2b n] minimal maxScriptNumLen = Ret n.
Proof.
  intros Hn. assert (exists k, (k < 16)%nat /\ n = Z.of_nat (S k)) as (k & Hk & ->)
    by (exists (Z.to_nat (n - 1)); lia).
  do 16 (destruct k as [|k]; [by destruct minimal|]). lia.
Qed.

Lemma assignment_ext {A B} (f g : A -> B -> bool) sigs keys :
  (forall s k, f s k = g s k) -> assignment f sigs keys <-> assignment g sigs keys.
Proof.
  intros E. unfold assignment. split; intros (sub & Hs & Hf); exists sub; (split; [done|]);
    (eapply Forall2_impl; [exact Hf|]); intros ? ? <-; by rewrite E.
Qed.

Section multisig.
Context `{Crypto} `{!CryptoLaws _} `{MapOrder}.
Context (fl : Z) (tx0 : MsgTx) (idx : Z) (keys sigs : list bytes) (h : bytes).
Hypothesis Hkeys : Forall (fun k => isStrictPubKeyEncoding k = true) keys.
Hypothesis Hmn : 1 <= zlen sigs <= zlen keys /\ zlen keys <= 16.
Hypothesis Hidx : 0 <= idx < zlen (TxIns tx0).
Let redeem := multisig_script keys (zlen sigs).
Let u := pushes (([] :: sigs) ++ [redeem]).
Notation scrs := [u; p2sh h; redeem].
Notation redeem_view := (view fl tx0 idx true (([] :: sigs) ++ [redeem]) scrs 2).
Notation operands := (([] :: sigs) ++ [[z2b (zlen sigs)]] ++ keys ++ [[z2b (zlen keys)]]).
Hypothesis Hred : zlen redeem <= MaxScriptElementSize.

Lemma operands_count : zlen operands = zlen sigs + zlen keys + 3.
Proof. rewrite !zlen_app, zlen_cons. change (zlen [_]) with 1. lia. Qed.

Lemma multisig_exec vm :
  redeem_view [] operands vm ->
  match executeOpcode (opcode_at (z2b OP_CHECKMULTISIG)) [] vm with
  | (Ret _, vm') => exists b, vm' = set_dstack (set_stk [fromBool b] (dstack vm)) (set_numOps (zlen keys) vm)
      /\ (b = true <-> assignment (sig_matches vm redeem) sigs keys)
  | (Fail _, _) => strict_multi fl = true
  | _ => False
  end.
Proof using CryptoLaws0 Hmn Hidx Hred.
  intros []. rewrite exec_plain; [|reflexivity|reflexivity|reflexivity|done|done].
  change (run_opfunc _ _) with opcodeCheckMultiSig. pose proof operands_count as Hc.
  pose proof (zlen_nonneg sigs). pose proof (zlen_nonneg keys).
  pose proof (CheckMultiSig_result vm redeem [] [] sigs keys [z2b (zlen sigs)] [z2b (zlen keys)]) as Hr.
  unfold popped in Hr. rewrite v_tx, v_txIdx, v_ops, v_d, v_flags in Hr. cbn [app] in Hr. apply Hr; try done.
  - lia.
  - intros vm' E1 E2 E3. unfold subScript. runM. rewrite E1, E2, E3, v_scripts, v_scriptIdx, v_sep.
    change (znth scrs 2) with (Some redeem). cbv iota beta. by rewrite zslice_full.
  - unfold depth_ok. rewrite v_d. lia.
  - by rewrite <- !app_assoc.
  - apply small_num. lia.
  - apply small_num. lia.
  - lia.
  - lia.
Qed.

(** The redeem script, from its start to the verdict. *)
Lemma redeem_run vm :
  redeem_view redeem ([] :: sigs) vm ->
  exists vm1, reaches vm vm1
    /\ match Step vm1 with
       | (Ret true, vm2) => exists b, (CheckErrorCondition true vm2).1 = (if b : bool then Ret tt else Fail ErrEvalFalse)
           /\ (b = true <-> assignment (sig_matches vm redeem) sigs keys)
       | (Fail _, _) => strict_multi fl = true
       | _ => False
       end.
Proof using CryptoLaws0 Hkeys Hmn Hidx Hred.
  intros Hv. pose proof operands_count as Hc.
  destruct (multisig_pushes keys (zlen sigs)) as [Er Hp]; [done|lia|lia|].
  assert (redeem_view (pushes ([[z2b (zlen sigs)]] ++ keys ++ [[z2b (zlen keys)]]) ++ [z2b OP_CHECKMULTISIG])
    ([] :: sigs) vm) as Hv' by (rewrite <- Er; exact Hv).
  destruct (pushes_run _ _ _ _ _ _ 2 _ _ ([] :: sigs) vm Hp Hv') as (vm1 & Hr1 & Hv1); [done|done|lia|].
  exists vm1. split; [done|].
  pose proof (fetched_view _ _ _ _ _ _ 2 _ _ (opcode_at (z2b OP_CHECKMULTISIG)) None [] vm1 Hv1 eq_refl) as Hf.
  pose proof (multisig_exec _ Hf) as Hex. destruct (executeOpcode _ _ _) as [[[]|e| |] vm2] eqn:Ee; try done.
  - destruct Hex as (b & -> & Hb). destruct Hf as [? ? ? ? ? ? ? ? ? ? ? ? ? ? ? Ha Hcond].
    rewrite (step_ret _ _ _ _ _ _ 2 _ _ (opcode_at (z2b OP_CHECKMULTISIG)) None [] vm1 _ Hv1 ltac:(done) eq_refl Ee)
      by done.
    rewrite bool_decide_true by done.
    match goal with |- context [nextScript ?v] =>
      destruct (redeem_end ([] :: sigs) redeem h b v) as (vm3 & -> & Hck); [done..|] end.
    exists b. split; [done|]. rewrite Hb. destruct Hv, Hv1. apply assignment_ext. intros.
    apply sig_matches_ext; cbn; congruence.
  - by rewrite (step_fail _ _ _ _ _ _ 2 _ _ (opcode_at (z2b OP_CHECKMULTISIG)) None [] e vm2 vm1 Hv1 ltac:(done) eq_refl Ee).
Qed.
End multisig.

Lemma zlen_push_le data : zlen (push_bytes data) <= zlen data + 5.
Proof.
  rewrite zlen_push_bytes. unfold canonicalDataSize. cbv zeta. pose proof (zlen_nonneg data).
  repeat case_match; zbool; lia.
Qed.

Lemma zlen_pushes_le ds : Forall (fun d => zlen d <= 75) ds -> zlen (pushes ds) <= 80 * zlen ds.
Proof.
  induction 1 as [|d ds Hd _ IH]; [done|]. unfold pushes in *. cbn [map concat].
  rewrite zlen_app, zlen_cons. pose proof (zlen_push_le d). lia.
Qed.

(** The unlocking script of a multisignature script behind its hash: the item that
    CHECKMULTISIG ignores, the signatures, and the script, each with the push that
    the builder adds. *)
Definition unlock_p2sh (sigs : list bytes) (redeem : bytes) : bytes := pushes (([] :: sigs) ++ [redeem]).

Lemma unlock_sizes `{Crypto} `{MapOrder} keys sigs redeem :
  Forall (fun k => isStrictPubKeyEncoding k = true) keys ->
  Forall (fun s => s = [] \/ direct_size s) sigs -> 1 <= zlen sigs <= zlen keys -> zlen keys <= 16 ->
  multisig_script keys (zlen sigs) = redeem -> zlen redeem <= MaxScriptElementSize ->
  Forall pushable ([] :: sigs) /\ 2 <= zlen redeem <= MaxScriptElementSize /\ zlen ([] :: sigs) <= 100
  /\ parses redeem = true /\ zlen (unlock_p2sh sigs redeem) <= MaxScriptSize.
Proof.
  intros Hk Hs Hmn Hn Hm Hred. split_and!; [| |done| | |].
  - constructor; [by left|]. eapply Forall_impl; [exact Hs|]. intros s [->|Hd]; [by left|right; left].
    unfold direct_size in Hd. lia.
  - rewrite <- Hm. unfold multisig_script. rewrite zlen_cons, zlen_app. change (zlen [_; _]) with 2.
    pose proof (zlen_nonneg (keys_bytes keys)). lia.
  - rewrite zlen_cons. lia.
  - rewrite <- Hm. apply multisig_parses; done || lia.
  - unfold unlock_p2sh. rewrite pushes_app, zlen_app. unfold pushes at 2. cbn [map concat]. rewrite app_nil_r.
    pose proof (zlen_push_le redeem). assert (zlen (pushes ([] :: sigs)) <= 80 * zlen ([] :: sigs)) as Hz.
    { apply zlen_pushes_le. constructor; [done|]. eapply Forall_impl; [exact Hs|].
      intros s [->|Hd]; [done|apply Hd]. }
    rewrite zlen_cons in Hz. lia.
Qed.

(** ** Property *)

(** C12: pay-to-script-hash with a multisignature script works end to end.  For every
    transaction input whose unlocking script pushes signatures and the script that
    [MultiSigScript] builds for as many signatures, and every 20-byte hash, the
    engine built for the script hash fails with [ErrEvalFalse] if the script has
    another hash, whatever the signatures are; it succeeds only if the hash is that
    of the script and the signatures can be assigned, in order, to distinct keys
    under which they verify; and without the flags for strict signatures it succeeds
    if that is so, and else fails with [ErrEvalFalse]. *)
Theorem p2sh_multisig_execution `{Crypto} `{!CryptoLaws _} `{MapOrder}
    (fl : Z) (tx0 : MsgTx) (idx : Z) (ti : TxIn) (h redeem : bytes) (sigs keys : list bytes) :
  has_flag fl ScriptBip16 = true -> zlen h = 20 ->
  Forall (fun k => isStrictPubKeyEncoding k = true) keys ->
  Forall (fun s => s = [] \/ direct_size s) sigs ->
  1 <= zlen sigs <= zlen keys -> zlen keys <= 16 ->
  MultiSigScript keys (zlen sigs) = Ret redeem -> zlen redeem <= MaxScriptElementSize ->
  Forall (fun ti => zlen (SignatureScript ti) < 2 ^ 31) (TxIns tx0) ->
  znth (TxIns tx0) idx = Some ti -> SignatureScript ti = unlock_p2sh sigs redeem ->
  exists vm, NewEngine (p2sh h) tx0 idx fl None = Ret vm
    /\ let matches := ripemd160 (sha256 redeem) = h in
       let assigned := assignment (sig_matches vm redeem) sigs keys in
       (~ matches -> (Execute vm).1 = Fail ErrEvalFalse)
       /\ ((Execute vm).1 = Ret tt -> matches /\ assigned)
       /\ (strict_multi fl = false ->
           ((Execute vm).1 = Ret tt <-> matches /\ assigned)
           /\ ((Execute vm).1 = Ret tt \/ (Execute vm).1 = Fail ErrEvalFalse)).
Proof.
  intros Hbip Hh Hk Hs Hmn Hn Hm Hred Htx Hti Hss. pose proof (znth_Some _ _ _ Hti) as Hi.
  rewrite MultiSigScript_eq in Hm by (done || lia). injection Hm as Hm.
  destruct (unlock_sizes keys sigs redeem Hk Hs Hmn Hn Hm Hred) as (Hp & Hr2 & Hl & Hpar & Hu).
  destruct (p2sh_engine fl tx0 idx ([] :: sigs) redeem h Hp Hr2 Hh ti Hbip Hu Hti Hss) as (vm & Hne & Hv).
  exists vm. split; [done|]. cbv zeta.
  destruct (NewEngine_spec (p2sh h) tx0 idx fl None) as [(vm' & E & Hinv & H0v & _)|[e E]];
    [unfold p2sh; autorewrite with zlen; lia|done| |congruence].
  assert (vm' = vm) as -> by congruence.
  pose proof (p2sh_run fl tx0 idx ([] :: sigs) redeem h Hp Hr2 Hl Hh Hpar vm Hv Hinv) as Hrun.
  case_bool_decide as Hsame; [|rewrite Hrun; naive_solver].
  destruct Hrun as (vm1 & Hr1 & Hv1). subst redeem.
  destruct (redeem_run fl tx0 idx keys sigs h Hk ltac:(lia) Hi Hred vm1 Hv1) as (vm3 & Hr3 & Hst).
  pose proof (Execute_reaches vm vm3 Hinv H0v (reaches_trans _ _ _ Hr1 Hr3)) as He.
  assert (assignment (sig_matches vm1 (multisig_script keys (zlen sigs))) sigs keys
    <-> assignment (sig_matches vm (multisig_script keys (zlen sigs))) sigs keys) as Hsm.
  { destruct Hv, Hv1. apply assignment_ext. intros. apply sig_matches_ext; congruence. }
  destruct (Step vm3) as [[[]|e| |] vm4]; try done.
  - destruct Hst as (b & Hc & Hb). rewrite He, Hc. rewrite Hsm in Hb. destruct b; naive_solver.
  - rewrite He, Hst. naive_solver.
Qed.

(** One signature for the second of two keys, behind a script hash. *)
Definition toy_redeem : bytes := multisig_script [toy_key 2; toy_key 3] 1.
Definition toy_redeem_hash : bytes := ripemd160 (Crypto := toy) (sha256 (Crypto := toy) toy_redeem).
Definition toy_redeem_sig : bytes :=
  match calcSignatureHash (H := toy) toy_redeem SigHashAll (spend []) 0 with
  | Ret hash => toy_sign (toy_key 3) hash ++ [z2b SigHashAll]
  | _ => []
  end.

Lemma p2sh_multisig_execution_witness :
  exists vm, NewEngine (p2sh toy_redeem_hash) (spend (unlock_p2sh [toy_redeem_sig] toy_redeem)) 0 ScriptBip16 None = Ret vm
    /\ (Execute (H := toy) (H0 := toy_order) vm).1 = Ret tt.
Proof.
  destruct (p2sh_multisig_execution (H := toy) (H0 := toy_order) ScriptBip16
    (spend (unlock_p2sh [toy_redeem_sig] toy_redeem)) 0
    (mkTxIn (mkOutPoint (replicate 32 (z2b 7)) 0) (unlock_p2sh [toy_redeem_sig] toy_redeem) [] 0xffffffff)
    toy_redeem_hash toy_redeem [toy_redeem_sig] [toy_key 2; toy_key 3]) as (vm & Hn & _ & _ & Hiff).
  - reflexivity.
  - vm_compute. reflexivity.
  - repeat constructor.
  - constructor; [right; split; vm_compute; discriminate|constructor].
  - split; vm_compute; discriminate.
  - vm_compute. discriminate.
  - vm_compute. reflexivity.
  - vm_compute. discriminate.
  - apply spend_small. vm_compute. reflexivity.
  - reflexivity.
  - reflexivity.
  - exists vm. split; [exact Hn|]. apply Hiff; [reflexivity|]. split; [reflexivity|].
    apply greedy_assignment. vm_compute in Hn. injection Hn as <-. vm_compute. reflexivity.
Defined.
