(* ===== verification/EngineCond.v ===== *)
(** Conditionals.

    The condition stack makes IF, ELSE and ENDIF behave as the structured
    statement they denote.  The handlers first: which of them leave the condition
    stack alone, and what the conditionals do to it.  Then the steps of the engine: a
    branch that is not taken is passed without an effect ([skip_block]), and a branch
    that is executed closes what it opens ([block_keeps]). *)

From S2P Require Import Prelude Crypto WireCommon WireTx ScriptError ScriptNum ScriptStack Opcodes Tokenizer Script Standard Sighash SigParse SigCache Engine EngineInv EngineSafety.

(** ** Handlers that leave the condition stack alone *)

Definition Keeps {A} (m : EM A) : Prop := forall vm, condStack (m vm).2 = condStack vm.

Section keeps.
Lemma keeps_bind {A B} (m : EM A) (k : A -> EM B) :
  Keeps m -> (forall a, Keeps (k a)) -> Keeps (bindM m k).
Proof.
  intros Hm Hk vm. specialize (Hm vm). unfold bindM.
  destruct (m vm) as [[a|e| |] vm1]; try done. cbn in Hm. by rewrite (Hk a vm1).
Qed.
Lemma keeps_const {A} (f : Engine -> outcome ErrorCode A) : Keeps (fun vm => (f vm, vm)).
Proof. done. Qed.
Lemma keeps_modify f : (forall vm, condStack (f vm) = condStack vm) -> Keeps (modifyM f).
Proof. intros Hf vm. apply Hf. Qed.
Lemma keeps_onD {A} (m : SM A) : Keeps (onD m).
Proof. intros vm. unfold onD, onM. by destruct (m (dstack vm)). Qed.
Lemma keeps_onA {A} (m : SM A) : Keeps (onA m).
Proof. intros vm. unfold onA, onM. by destruct (m (astack vm)). Qed.
End keeps.

Ltac keeps_step :=
  lazymatch goal with
  | |- Keeps (bindM _ _) => apply keeps_bind; [|intros ?]
  | |- Keeps (retM _) => intros ?; reflexivity
  | |- Keeps (failM _) => intros ?; reflexivity
  | |- Keeps crashM => intros ?; reflexivity
  | |- Keeps nofuelM => intros ?; reflexivity
  | |- Keeps (liftO _) => intros ?; reflexivity
  | |- Keeps getM => intros ?; reflexivity
  | |- Keeps (getsM _) => intros ?; reflexivity
  | |- Keeps (modifyM _) => apply keeps_modify; reflexivity
  | |- Keeps (onD _) => apply keeps_onD
  | |- Keeps (onA _) => apply keeps_onA
  | |- Keeps (if ?b then _ else _) => destruct b
  | |- Keeps (match ?x with _ => _ end) => destruct x
  | |- Keeps (let _ := _ in _) => cbv zeta
  end.

Section handlers.
Context `{Crypto} `{MapOrder}.

Lemma keeps_abstractVerify e : Keeps (abstractVerify e).
Proof. unfold abstractVerify. repeat keeps_step. Qed.
Lemma keeps_verifySig h sb pk sg key : Keeps (verifySig h sb pk sg key).
Proof. unfold verifySig. repeat keeps_step. Qed.
Lemma keeps_subScript : Keeps subScript.
Proof. unfold subScript. repeat keeps_step. Qed.

Lemma keeps_CheckSig : Keeps opcodeCheckSig.
Proof.
  unfold opcodeCheckSig, checkBaseSig.
  repeat (keeps_step || apply keeps_subScript || apply keeps_verifySig).
Qed.

Lemma keeps_multisigLoop fuel : forall scr keys sigs ns np pi si,
  Keeps (multisigLoop fuel scr keys sigs ns np pi si).
Proof.
  induction fuel as [|fuel IH]; intros; cbn [multisigLoop]; cbv zeta;
    repeat (keeps_step || apply IH || apply keeps_verifySig).
Qed.

Lemma keeps_CheckMultiSig : Keeps opcodeCheckMultiSig.
Proof.
  unfold opcodeCheckMultiSig. cbv zeta.
  repeat (keeps_step || apply keeps_subScript || apply keeps_multisigLoop).
Qed.

Definition isCondFunc (f : opfunc) : bool :=
  match f with f_If | f_NotIf | f_Else | f_Endif => true | _ => false end.

Lemma keeps_run_opfunc o data : isCondFunc (op_func o) = false -> Keeps (run_opfunc o data).
Proof.
  intros Hc. unfold run_opfunc. destruct (op_func o); try discriminate Hc;
    unfold opcodeFalse, opcodePushData, opcode1Negate, opcodeReserved, opcodeN, opcodeNop, opcodeVerify,
      opcodeReturn, opcodeToAltStack,
      opcodeFromAltStack, opcode2Drop, opcode2Dup, opcode3Dup, opcode2Over, opcode2Rot, opcode2Swap,
      opcodeIfDup, opcodeDepth, opcodeDrop, opcodeDup, opcodeNip, opcodeOver, opcodePick, opcodeRoll,
      opcodeRot, opcodeSwap, opcodeTuck, opcodeDisabled, opcodeSize, opcodeEqualVerify, opcodeEqual,
      opcode1Add, opcode1Sub, opcodeNegate, opcodeAbs, opcodeNot, opcode0NotEqual, opcodeAdd, opcodeSub,
      opcodeBoolAnd, opcodeBoolOr, opcodeNumEqualVerify, opcodeNumEqual, opcodeNumNotEqual,
      opcodeLessThan, opcodeGreaterThan, opcodeLessThanOrEqual, opcodeGreaterThanOrEqual, opcodeMin,
      opcodeMax, opcodeWithin, opcodeRipemd160, opcodeSha1, opcodeSha256, opcodeHash160, opcodeHash256,
      opcodeCodeSeparator, opcodeCheckSigVerify, opcodeCheckMultiSigVerify, opcodeCheckLockTimeVerify,
      opcodeCheckSequenceVerify, opcodeInvalid, unary, binary, hashOp, currentTxIn; cbv zeta;
    repeat first [ keeps_step | apply keeps_abstractVerify | apply keeps_CheckSig | apply keeps_CheckMultiSig ].
Qed.
End handlers.

(** ** Balanced blocks *)

Notation op_IF := (opcode_at (z2b OP_IF)).
Notation op_NOTIF := (opcode_at (z2b OP_NOTIF)).
Notation op_ELSE := (opcode_at (z2b OP_ELSE)).
Notation op_ENDIF := (opcode_at (z2b OP_ENDIF)).

(** An opcode that may stand in a branch that is not taken: the engine refuses the
    disabled and the always illegal opcodes and the pushes of more than 520 bytes even
    there. *)
Definition plain (p : opcode * option bytes) : Prop :=
  tok_wf p /\ isOpcodeConditional (value p.1) = false
  /\ isOpcodeDisabled (value p.1) = false /\ isOpcodeAlwaysIllegal (value p.1) = false
  /\ zlen (bytes_of p.2) <= MaxScriptElementSize.

(** The opcodes of a branch, with its conditionals closed. *)
Inductive block : list (opcode * option bytes) -> Prop :=
  | block_nil : block []
  | block_op p l : plain p -> block l -> block (p :: l)
  | block_if o l r : o = op_IF \/ o = op_NOTIF -> block l -> block r ->
      block ((o, None) :: l ++ (op_ENDIF, None) :: r)
  | block_else o l1 l2 r : o = op_IF \/ o = op_NOTIF -> block l1 -> block l2 -> block r ->
      block ((o, None) :: l1 ++ (op_ELSE, None) :: l2 ++ (op_ENDIF, None) :: r).

Lemma conditional_func b :
  isOpcodeConditional (value (opcode_at b)) = isCondFunc (op_func (opcode_at b)).
Proof. by destruct b. Qed.

Lemma unparse_cons_more p l s : unparse (p :: l) ++ s = op_bytes p.1 p.2 ++ unparse l ++ s.
Proof. unfold unparse. cbn [map concat]. by rewrite <- app_assoc. Qed.
Lemma unparse_app_more l k s : unparse (l ++ k) ++ s = unparse l ++ unparse k ++ s.
Proof. by rewrite unparse_app, <- app_assoc. Qed.

(** ** The handlers of the conditionals *)

Section blocks.
Context `{Crypto} `{MapOrder}.

Lemma exec_conditional o vm :
  o = op_IF \/ o = op_NOTIF \/ o = op_ELSE \/ o = op_ENDIF ->
  executeOpcode o [] vm = run_opfunc o [] vm.
Proof.
  intros Ho. unfold executeOpcode.
  destruct Ho as [-> |[-> |[-> | ->]]]; change (isOpcodeDisabled _) with false;
    change (isOpcodeAlwaysIllegal _) with false; cbv iota; change (zlen [] >? MaxScriptElementSize) with false;
    cbv iota; erewrite bindM_step by reflexivity; change (isOpcodeConditional _) with true; cbn [negb];
    rewrite !andb_false_r; by erewrite bindM_step by reflexivity.
Qed.

(** With the stack [c] of conditions. *)
Notation with_cond c vm := (set_condStack c vm).

Lemma cond_eta vm : with_cond (condStack vm) vm = vm.
Proof. by destruct vm. Qed.

Lemma else_flips c x vm :
  run_opfunc op_ELSE [] (with_cond (c ++ [x]) vm)
  = (Ret tt, with_cond (c ++ [if x =? OpCondTrue then OpCondFalse
                             else if x =? OpCondFalse then OpCondTrue else x]) vm).
Proof.
  change (run_opfunc op_ELSE []) with opcodeElse. unfold opcodeElse. erewrite bindM_step by reflexivity.
  cbn [condStack set_condStack]. rewrite last_snoc.
  destruct (x =? OpCondTrue), (x =? OpCondFalse); unfold modifyM, set_last;
    cbn [condStack set_condStack]; rewrite ?removelast_last; done.
Qed.

Lemma endif_pops c x vm :
  run_opfunc op_ENDIF [] (with_cond (c ++ [x]) vm) = (Ret tt, with_cond c vm).
Proof.
  change (run_opfunc op_ENDIF []) with opcodeEndif. unfold opcodeEndif. erewrite bindM_step by reflexivity.
  cbn [condStack set_condStack]. rewrite last_snoc. unfold modifyM. by rewrite removelast_last.
Qed.

(** IF and NOTIF in a branch that is not taken. *)
Lemma if_skips o vm :
  o = op_IF \/ o = op_NOTIF -> isBranchExecuting vm = false ->
  run_opfunc o [] vm = (Ret tt, with_cond (condStack vm ++ [OpCondSkip]) vm).
Proof.
  intros [-> | ->] Hx;
    [change (run_opfunc op_IF []) with opcodeIf|change (run_opfunc op_NOTIF []) with opcodeNotIf];
    unfold opcodeIf, opcodeNotIf; erewrite bindM_step by reflexivity; by rewrite Hx.
Qed.

Lemma not_executing c x vm : condStack vm = c ++ [x] -> x <> OpCondTrue -> isBranchExecuting vm = false.
Proof. intros Hc Hx. unfold isBranchExecuting. rewrite Hc, last_snoc. by apply Z.eqb_neq. Qed.

Lemma keeps_popIfBool : Keeps popIfBool.
Proof. unfold popIfBool. repeat keeps_step. Qed.

Lemma keeps_plain p : plain p -> Keeps (executeOpcode p.1 (bytes_of p.2)).
Proof.
  intros ([rest [b [r [_ ->]]]%parse_op_opcode] & Hc & _). rewrite conditional_func in Hc. unfold executeOpcode.
  repeat (keeps_step || by apply keeps_run_opfunc).
Qed.

(** IF and NOTIF open one condition. *)
Definition cond_of (o : opcode) (v : bool) : Z :=
  if value o =? OP_IF then (if v then OpCondTrue else OpCondFalse)
  else (if v then OpCondFalse else OpCondTrue).

Lemma if_executes o vm v vm1 :
  o = op_IF \/ o = op_NOTIF -> isBranchExecuting vm = true -> popIfBool vm = (Ret v, vm1) ->
  executeOpcode o [] vm = (Ret tt, with_cond (condStack vm ++ [cond_of o v]) vm1).
Proof.
  intros Ho Hx Hp. rewrite exec_conditional by tauto.
  pose proof (keeps_popIfBool vm) as Hk. rewrite Hp in Hk. cbn in Hk. rewrite <- Hk.
  destruct Ho as [-> | ->]; unfold cond_of;
    [change (run_opfunc op_IF []) with opcodeIf|change (run_opfunc op_NOTIF []) with opcodeNotIf];
    unfold opcodeIf, opcodeNotIf; erewrite bindM_step by reflexivity; rewrite Hx;
    rewrite (bindM_step _ _ _ _ _ Hp); unfold pushCond, modifyM; by destruct v.
Qed.

Lemma if_opens o vm vm' :
  o = op_IF \/ o = op_NOTIF -> executeOpcode o [] vm = (Ret tt, vm') ->
  exists x, condStack vm' = condStack vm ++ [x].
Proof.
  intros Ho He. destruct (isBranchExecuting vm) eqn:Hx.
  - destruct (popIfBool vm) as [[v|e| |] vm1] eqn:Hp.
    { rewrite (if_executes o vm v vm1 Ho Hx Hp) in He. injection He as <-. by eexists. }
    all: rewrite exec_conditional in He by tauto; destruct Ho as [-> | ->];
      [change (run_opfunc op_IF []) with opcodeIf in He|change (run_opfunc op_NOTIF []) with opcodeNotIf in He];
      unfold opcodeIf, opcodeNotIf in He; erewrite bindM_step in He by reflexivity; rewrite Hx in He;
      unfold bindM in He; by rewrite Hp in He.
  - rewrite exec_conditional, if_skips in He by tauto. injection He as <-. by eexists.
Qed.

Lemma exec_else vm c x :
  condStack vm = c ++ [x] ->
  executeOpcode op_ELSE [] vm = (Ret tt, with_cond (c ++ [if x =? OpCondTrue then OpCondFalse
                             else if x =? OpCondFalse then OpCondTrue else x]) vm).
Proof. intros Hc. rewrite exec_conditional, <- (cond_eta vm), Hc by tauto. by rewrite else_flips. Qed.

Lemma exec_endif vm c x :
  condStack vm = c ++ [x] -> executeOpcode op_ENDIF [] vm = (Ret tt, with_cond c vm).
Proof. intros Hc. rewrite exec_conditional, <- (cond_eta vm), Hc by tauto. by rewrite endif_pops. Qed.

End blocks.

(** ** The conditionals in the steps of the engine *)

(** [vm'] is [vm] further on in the same script, with the conditions [c], the bytes [s]
    left to execute and another count of opcodes; nothing else differs. *)
Record moved (vm : Engine) (c : list Z) (s : bytes) (vm' : Engine) : Prop := {
  mv_rest : vm' = set_opcodeIdx (opcodeIdx vm') (set_tokenizer (tokenizer vm') (set_condStack c vm));
  mv_script : script (tokenizer vm') = script (tokenizer vm);
  mv_remaining : remaining (tokenizer vm') = s }.

Lemma moved_trans vm c s vm1 c' s' vm2 :
  moved vm c s vm1 -> moved vm1 c' s' vm2 -> moved vm c' s' vm2.
Proof. intros [E1 S1 _] [E2 S2 R2]. split; [|congruence|done]. rewrite E2, E1 at 1. done. Qed.

Lemma moved_cond vm c s vm' : moved vm c s vm' -> condStack vm' = c.
Proof. intros [-> _ _]. done. Qed.

Section steps.
Context `{Crypto} `{!CryptoLaws _} `{MapOrder}.

(** What [Step] does once the opcode has been executed. *)
Definition go_on (rest : bytes) : EM bool := if bool_decide (rest = []) then nextScript else retM false.

Lemma Step_moves vm o d rest vm1 :
  inv vm -> parse_op (remaining (tokenizer vm)) = Some (o, d, rest) ->
  executeOpcode o (bytes_of d) (fetched vm (o, d, rest)) = (Ret tt, vm1) ->
  tokenizer vm1 = tokenizer (fetched vm (o, d, rest)) ->
  zlen (stk (dstack vm1)) + zlen (stk (astack vm1)) <= MaxStackSize ->
  Step vm = go_on rest (set_opcodeIdx (opcodeIdx vm1 + 1) vm1).
Proof.
  intros Hv Hop He Htok Hd. pose proof (inv_base _ Hv) as Hb. pose proof Hb as [_ _ Hscr [Ht Er] _ _ _].
  apply znth_Some in Hscr as Hi. rewrite (Step_exec vm o d rest Ht Er ltac:(lia) Hop).
  rewrite (bindM_step _ _ _ _ _ He). destruct (fetched_base vm o d rest Hb Hop) as [[_ _ _ [Ht' Er'] _ _ _] Hr'].
  pose proof (zlen_nonneg (stk (dstack vm1))). pose proof (zlen_nonneg (stk (astack vm1))). unfold stepTail.
  rewrite (bindM_step _ _ _ _ _ (onD_Depth vm1 ltac:(unfold depth_ok; lia))).
  rewrite (bindM_step _ _ _ _ _ (onA_Depth vm1 ltac:(unfold depth_ok; lia))).
  rewrite i32_id, Z.gtb_ltb, (proj2 (Z.ltb_ge _ _)) by lia. erewrite bindM_step by reflexivity.
  erewrite bindM_step by reflexivity. cbn [tokenizer set_opcodeIdx].
  rewrite Htok, Done_remaining, Hr' by done. done.
Qed.

(** An opcode that changes nothing but the conditions. *)
Lemma Step_quiet vm o d rest c :
  inv vm -> parse_op (remaining (tokenizer vm)) = Some (o, d, rest) ->
  executeOpcode o (bytes_of d) (fetched vm (o, d, rest)) = (Ret tt, set_condStack c (fetched vm (o, d, rest))) ->
  exists vm', Step vm = go_on rest vm' /\ moved vm c rest vm'.
Proof.
  intros Hv Hop He. eexists. split.
  - apply (Step_moves vm o d rest _ Hv Hop He); [done|]. cbn. apply (inv_base _ Hv).
  - destruct (fetched_base vm o d rest (inv_base _ Hv) Hop) as [_ Hr]. by split.
Qed.

(** The engine gets from [vm] to [vm'] and only moves on. *)
Definition passes (vm : Engine) (c : list Z) (s : bytes) (vm' : Engine) : Prop :=
  reaches vm vm' /\ inv vm' /\ moved vm c s vm'.

Lemma passes_trans vm c s vm1 c' s' vm2 :
  passes vm c s vm1 -> passes vm1 c' s' vm2 -> passes vm c' s' vm2.
Proof.
  intros (R1 & _ & M1) (R2 & V2 & M2). split; [by apply (reaches_trans _ vm1)|]. split; [done|].
  by apply (moved_trans _ _ _ vm1 _ _ _ M1).
Qed.

(** One stretch after another. *)
Lemma passes_chain vm c s c' s' :
  (exists vm1, passes vm c s vm1) ->
  (forall vm1, inv vm1 -> remaining (tokenizer vm1) = s -> condStack vm1 = c -> exists vm', passes vm1 c' s' vm') ->
  exists vm', passes vm c' s' vm'.
Proof.
  intros [vm1 P1] Hk. pose proof P1 as (_ & V1 & M1).
  destruct (Hk vm1 V1 (mv_remaining _ _ _ _ M1) (moved_cond _ _ _ _ M1)) as [vm' P2].
  exists vm'. by apply (passes_trans _ _ _ _ _ _ _ P1).
Qed.

Lemma passes_op vm o d rest c :
  inv vm -> rest <> [] -> remaining (tokenizer vm) = op_bytes o d ++ rest -> tok_wf (o, d) ->
  (forall vm', condStack vm' = condStack vm -> executeOpcode o (bytes_of d) vm' = (Ret tt, set_condStack c vm')) ->
  exists vm', passes vm c rest vm'.
Proof using CryptoLaws0.
  intros Hv Hn Hr [rest' Hw] He. apply (parse_op_local _ _ _ rest) in Hw. cbn [fst snd] in Hw. rewrite <- Hr in Hw.
  destruct (Step_quiet vm o d rest c Hv Hw) as (vm' & Hs & Hm); [by apply He|].
  unfold go_on in Hs. rewrite bool_decide_false in Hs by done.
  pose proof (reaches_one vm vm' Hs) as Hre.
  exists vm'. split; [done|]. split; [|done]. by apply (reaches_inv vm vm').
Qed.

Lemma cond_wf o : o = op_IF \/ o = op_NOTIF \/ o = op_ELSE \/ o = op_ENDIF -> tok_wf (o, None).
Proof. intros Ho. exists []. by destruct Ho as [-> |[-> |[-> | ->]]]. Qed.

Lemma unparse_more l (s : bytes) : s <> [] -> unparse l ++ s <> [].
Proof. by intros Hs [_ ?]%app_eq_nil. Qed.
Lemma op_more o d (s : bytes) : op_bytes o d ++ s <> [].
Proof. done. Qed.
#[local] Hint Resolve unparse_more op_more : core.

Lemma executing_cond vm vm' : condStack vm = condStack vm' -> isBranchExecuting vm = isBranchExecuting vm'.
Proof. unfold isBranchExecuting. by intros ->. Qed.

(** ELSE and ENDIF inside a script. *)
Definition flip (x : Z) : Z :=
  if x =? OpCondTrue then OpCondFalse else if x =? OpCondFalse then OpCondTrue else x.

Lemma passes_else vm c x rest :
  inv vm -> remaining (tokenizer vm) = op_bytes op_ELSE None ++ rest -> rest <> [] -> condStack vm = c ++ [x] ->
  exists vm', passes vm (c ++ [flip x]) rest vm'.
Proof using CryptoLaws0.
  intros Hv Hr Hn Hc. apply (passes_op vm op_ELSE None); [done..|apply cond_wf; tauto|].
  intros vm' E. apply exec_else. congruence.
Qed.

Lemma passes_endif vm c x rest :
  inv vm -> remaining (tokenizer vm) = op_bytes op_ENDIF None ++ rest -> rest <> [] -> condStack vm = c ++ [x] ->
  exists vm', passes vm c rest vm'.
Proof using CryptoLaws0.
  intros Hv Hr Hn Hc. apply (passes_op vm op_ENDIF None); [done..|apply cond_wf; tauto|].
  intros vm' E. apply (exec_endif _ _ x). congruence.
Qed.

Lemma passes_skipped_if vm o rest :
  o = op_IF \/ o = op_NOTIF -> isBranchExecuting vm = false ->
  inv vm -> remaining (tokenizer vm) = op_bytes o None ++ rest -> rest <> [] ->
  exists vm', passes vm (condStack vm ++ [OpCondSkip]) rest vm'.
Proof using CryptoLaws0.
  intros Ho Hx Hv Hr Hn. apply (passes_op vm o None); [done..|apply cond_wf; tauto|].
  intros vm' E. cbn [bytes_of]. rewrite exec_conditional by tauto. rewrite <- E. apply if_skips; [done|].
  by rewrite (executing_cond vm' vm).
Qed.

(** A block in a branch that is not taken has no effect at all. *)
Lemma skip_block l : block l -> forall vm c s,
  inv vm -> remaining (tokenizer vm) = unparse l ++ s -> s <> [] -> isBranchExecuting vm = false -> condStack vm = c ->
  exists vm', passes vm c s vm'.
Proof using CryptoLaws0.
  induction 1 as [|[o d] l (Hw & Hc & Hd & Hi & Hl) _ IH|o l r Ho _ IH1 _ IH2
                 |o l1 l2 r Ho _ IH1 _ IH2 _ IH3]; intros vm c s Hv Hr Hn Hx Hcs.
  - exists vm. split; [constructor|]. split; [done|]. subst c. split; [by destruct vm|done..].
  - rewrite unparse_cons_more in Hr. cbn [fst snd] in *.
    apply (passes_chain vm c (unparse l ++ s)).
    + apply (passes_op vm o d); [auto..|]. intros vm' E.
      unfold executeOpcode. rewrite Hd, Hi, Z.gtb_ltb, (proj2 (Z.ltb_ge _ _)) by done.
      erewrite bindM_step by reflexivity. rewrite (executing_cond vm' vm), Hx, Hc, <- Hcs, <- E by done.
      by destruct vm'.
    + intros vm1 V1 R1 C1. apply IH; [done..|by rewrite (executing_cond vm1 vm), Hx by congruence|done].
  - rewrite unparse_cons_more, unparse_app_more, unparse_cons_more in Hr. cbn [fst snd] in Hr.
    eapply passes_chain; [apply (passes_skipped_if vm o); [done|done|done|exact Hr|auto]|]. intros vm1 V1 R1 C1.
    eapply passes_chain; [eapply (IH1 vm1); [done|exact R1|auto|by apply (not_executing _ _ _ C1)|exact C1]|].
    intros vm2 V2 R2 C2.
    eapply passes_chain; [eapply (passes_endif vm2); [done|exact R2|auto|exact C2]|]. intros vm3 V3 R3 C3.
    apply IH2; [done..| |congruence]. by rewrite (executing_cond vm3 vm), Hx.
  - rewrite unparse_cons_more, unparse_app_more, unparse_cons_more, unparse_app_more, unparse_cons_more in Hr. cbn [fst snd] in Hr.
    eapply passes_chain; [apply (passes_skipped_if vm o); [done|done|done|exact Hr|auto]|]. intros vm1 V1 R1 C1.
    eapply passes_chain; [eapply (IH1 vm1); [done|exact R1|auto|by apply (not_executing _ _ _ C1)|exact C1]|].
    intros vm2 V2 R2 C2.
    eapply passes_chain; [eapply (passes_else vm2); [done|exact R2|auto|exact C2]|]. intros vm3 V3 R3 C3.
    eapply passes_chain; [eapply (IH2 vm3); [done|exact R3|auto|by apply (not_executing _ _ _ C3)|exact C3]|].
    intros vm4 V4 R4 C4.
    eapply passes_chain; [eapply (passes_endif vm4); [done|exact R4|auto|exact C4]|]. intros vm5 V5 R5 C5.
    apply IH3; [done..| |congruence]. by rewrite (executing_cond vm5 vm), Hx.
Qed.

(** One opcode in the middle of a script, when the execution goes on. *)
Lemma steps_op n vm o d rest vm' :
  inv vm -> tok_wf (o, d) -> remaining (tokenizer vm) = op_bytes o d ++ rest -> rest <> [] ->
  steps (S n) vm = Some vm' ->
  exists vm1 vm2, executeOpcode o (bytes_of d) (fetched vm (o, d, rest)) = (Ret tt, vm1)
    /\ condStack vm2 = condStack vm1 /\ inv vm2 /\ remaining (tokenizer vm2) = rest
    /\ steps n vm2 = Some vm'.
Proof using CryptoLaws0.
  intros Hv [rest' Hw] Hr Hn Hs. apply (parse_op_local _ _ _ rest) in Hw. cbn [fst snd] in Hw. rewrite <- Hr in Hw.
  cbn [steps] in Hs. destruct (Step vm) as [[[]|e| |] vm2] eqn:Est; try done.
  destruct (reaches_inv vm vm2 (reaches_one _ _ Est) Hv) as [V2 _].
  assert (step_panics vm = false) as Hp.
  { destruct (step_panics vm) eqn:Ep; [|done]. pose proof (Step_panic vm Hv Ep) as Hc. by rewrite Est in Hc. }
  unfold step_panics in Hp. rewrite Hw in Hp. pose proof (inv_base _ Hv) as Hb. pose proof Hb as [_ _ Hscr [Ht Er] _ _ _].
  apply znth_Some in Hscr as Hi. rewrite (Step_exec vm o d rest Ht Er ltac:(lia) Hw) in Est.
  destruct (fetched_base vm o d rest Hb Hw) as [[Hv0 Htx0 Hscr0 [Ht0 Er0] _ _ _] Hr0].
  destruct (parse_op_opcode _ _ _ _ Hw) as (b & r & _ & ->). set (vm0 := fetched vm _) in *.
  pose proof (executeOpcode_triple vm0 b (bytes_of d) MaxStackSize Htx0 Hscr0 Ht0
    ltac:(lia) ltac:(lia) vm0 (conj Hp Hv0)) as Hex.
  unfold bindM at 1 in Est. destruct (executeOpcode _ _ _) as [[[]|e| |] vm1]; try done.
  destruct Hex as [Hf Hd _ _ _ _ _]. exists vm1, vm2. split; [done|].
  pose proof (zlen_nonneg (stk (dstack vm1))). pose proof (zlen_nonneg (stk (astack vm1))). unfold stepTail in Est.
  rewrite (bindM_step _ _ _ _ _ (onD_Depth vm1 ltac:(unfold depth_ok; lia))) in Est.
  rewrite (bindM_step _ _ _ _ _ (onA_Depth vm1 ltac:(unfold depth_ok; lia))) in Est.
  destruct (_ >? _); [done|]. erewrite bindM_step in Est by reflexivity. erewrite bindM_step in Est by reflexivity.
  cbn [tokenizer set_opcodeIdx] in Est. rewrite (fr_tokenizer _ _ Hf), Done_remaining, Hr0, bool_decide_false in Est by done.
  injection Est as <-. split; [done|]. split; [done|]. split; [|done]. cbn. by rewrite (fr_tokenizer _ _ Hf).
Qed.

Lemma steps_app n m vm vm' :
  steps (n + m) vm = Some vm' -> exists vm1, steps n vm = Some vm1 /\ steps m vm1 = Some vm'.
Proof.
  revert vm. induction n as [|n IH]; intros vm; cbn [steps Nat.add]; [by exists vm|].
  destruct (Step vm) as [[[]|e| |] vm1]; try done. apply IH.
Qed.

(** The conditionals among them. *)
Lemma steps_if n vm o rest vm' :
  o = op_IF \/ o = op_NOTIF -> inv vm -> remaining (tokenizer vm) = op_bytes o None ++ rest -> rest <> [] ->
  steps (S n) vm = Some vm' ->
  exists vm1 x, condStack vm1 = condStack vm ++ [x] /\ inv vm1 /\ remaining (tokenizer vm1) = rest /\ steps n vm1 = Some vm'.
Proof using CryptoLaws0.
  intros Ho Hv Hr Hn Hs. apply (steps_op n vm o None rest) in Hs as (vm1 & vm2 & He & Hc & Hs); [|done|apply cond_wf; tauto|done..].
  apply (if_opens o) in He as [x Hx]; [|done]. exists vm2, x. split; [|done]. by rewrite Hc, Hx.
Qed.

Lemma steps_else n vm c x rest vm' :
  condStack vm = c ++ [x] -> inv vm -> remaining (tokenizer vm) = op_bytes op_ELSE None ++ rest -> rest <> [] ->
  steps (S n) vm = Some vm' ->
  exists vm1, condStack vm1 = c ++ [flip x] /\ inv vm1 /\ remaining (tokenizer vm1) = rest /\ steps n vm1 = Some vm'.
Proof using CryptoLaws0.
  intros Hx Hv Hr Hn Hs. apply (steps_op n vm op_ELSE None rest) in Hs as (vm1 & vm2 & He & Hc & Hs); [|done|apply cond_wf; tauto|done..].
  cbn [bytes_of] in He. rewrite (exec_else (fetched vm (op_ELSE, None, rest)) c x Hx) in He. injection He as <-. by exists vm2.
Qed.

Lemma steps_endif n vm c x rest vm' :
  condStack vm = c ++ [x] -> inv vm -> remaining (tokenizer vm) = op_bytes op_ENDIF None ++ rest -> rest <> [] ->
  steps (S n) vm = Some vm' ->
  exists vm1, condStack vm1 = c /\ inv vm1 /\ remaining (tokenizer vm1) = rest /\ steps n vm1 = Some vm'.
Proof using CryptoLaws0.
  intros Hx Hv Hr Hn Hs. apply (steps_op n vm op_ENDIF None rest) in Hs as (vm1 & vm2 & He & Hc & Hs); [|done|apply cond_wf; tauto|done..].
  cbn [bytes_of] in He. rewrite (exec_endif (fetched vm (op_ENDIF, None, rest)) c x Hx) in He. injection He as <-. by exists vm2.
Qed.

(** A block closes what it opens. *)
Lemma block_keeps l : block l -> forall vm vm' s,
  inv vm -> remaining (tokenizer vm) = unparse l ++ s -> s <> [] -> steps (length l) vm = Some vm' ->
  condStack vm' = condStack vm /\ inv vm' /\ remaining (tokenizer vm') = s.
Proof using CryptoLaws0.
  induction 1 as [|[o d] l Hp _ IH|o l r Ho _ IH1 _ IH2|o l1 l2 r Ho _ IH1 _ IH2 _ IH3];
    intros vm vm' s Hv Hr Hn Hs.
  - injection Hs as <-. done.
  - rewrite unparse_cons_more in Hr. cbn [fst snd] in Hr.
    destruct (steps_op _ vm o d _ vm' Hv (proj1 Hp) Hr ltac:(auto) Hs) as (vm1 & vm2 & He & Hc & V2 & R2 & S2).
    destruct (IH vm2 vm' s V2 R2 Hn S2) as (C & V & R). split; [|done].
    pose proof (keeps_plain _ Hp (fetched vm (o, d, unparse l ++ s))) as Hk. cbn [fst snd] in Hk. rewrite He in Hk.
    cbn in Hk. congruence.
  - rewrite unparse_cons_more, unparse_app_more, unparse_cons_more in Hr. cbn [fst snd] in Hr. rewrite length_cons, length_app in Hs.
    destruct (steps_if _ vm o _ vm' Ho Hv Hr ltac:(auto) Hs) as (vm1 & x & C1 & V1 & R1 & S1).
    destruct (steps_app _ _ _ _ S1) as (vm2 & S2 & S3). destruct (IH1 vm1 vm2 _ V1 R1 ltac:(auto) S2) as (C2 & V2 & R2).
    rewrite C1 in C2. destruct (steps_endif _ vm2 _ x _ vm' C2 V2 R2 ltac:(auto) S3) as (vm3 & C3 & V3 & R3 & S4).
    destruct (IH2 vm3 vm' s V3 R3 Hn S4) as (C & V & R). split; [congruence|done].
  - rewrite unparse_cons_more, unparse_app_more, unparse_cons_more, unparse_app_more, unparse_cons_more in Hr. cbn [fst snd] in Hr.
    rewrite length_cons, length_app, length_cons, length_app in Hs.
    destruct (steps_if _ vm o _ vm' Ho Hv Hr ltac:(auto) Hs) as (vm1 & x & C1 & V1 & R1 & S1).
    destruct (steps_app _ _ _ _ S1) as (vm2 & S2 & S3). destruct (IH1 vm1 vm2 _ V1 R1 ltac:(auto) S2) as (C2 & V2 & R2).
    rewrite C1 in C2. destruct (steps_else _ vm2 _ x _ vm' C2 V2 R2 ltac:(auto) S3) as (vm3 & C3 & V3 & R3 & S4).
    destruct (steps_app _ _ _ _ S4) as (vm4 & S5 & S6). destruct (IH2 vm3 vm4 _ V3 R3 ltac:(auto) S5) as (C4 & V4 & R4).
    rewrite C3 in C4. destruct (steps_endif _ vm4 _ _ _ vm' C4 V4 R4 ltac:(auto) S6) as (vm5 & C5 & V5 & R5 & S7).
    destruct (IH3 vm5 vm' s V5 R5 Hn S7) as (C & V & R). split; [congruence|done].
Qed.

(** The opening IF of a branch that is executed. *)
Lemma popIfBool_tokenizer t vm v vm1 :
  popIfBool vm = (Ret v, vm1) -> popIfBool (set_tokenizer t vm) = (Ret v, set_tokenizer t vm1).
Proof.
  unfold popIfBool, getsM. rewrite !bindM_assoc. erewrite !bindM_step by reflexivity.
  change (hasFlag ScriptVerifyMinimalIf (set_tokenizer t vm)) with (hasFlag ScriptVerifyMinimalIf vm).
  unfold retM, failM, onD, onM, bindM.
  destruct (negb _); cbv beta; change (dstack (set_tokenizer t vm)) with (dstack vm).
  - destruct (PopBool (dstack vm)) as [[]]; by intros [= <- <-].
  - destruct (PopByteArray (dstack vm)) as [[so| | |]]; try done.
    destruct (_ >? _); [done|]. destruct (_ && _); [done|]. by intros [= <- <-].
Qed.

Lemma passes_if o vm v vm1 rest :
  o = op_IF \/ o = op_NOTIF -> inv vm -> remaining (tokenizer vm) = op_bytes o None ++ rest -> rest <> [] ->
  isBranchExecuting vm = true -> popIfBool vm = (Ret v, vm1) ->
  exists vm2, reaches vm vm2 /\ inv vm2 /\ moved vm1 (condStack vm ++ [cond_of o v]) rest vm2.
Proof using CryptoLaws0.
  intros Ho Hv Hr Hn Hx Hp. destruct (cond_wf o ltac:(tauto)) as [rest' Hw]. apply (parse_op_local _ _ _ rest) in Hw.
  cbn [fst snd] in Hw. rewrite <- Hr in Hw. destruct (fetched_base vm o None rest (inv_base _ Hv) Hw) as [Hb0 Hr0].
  pose proof (popIfBool_tokenizer (tok_after (tokenizer vm) (o, None, rest)) vm v vm1 Hp) as Hp'.
  fold (fetched vm (o, None, rest)) in Hp'. set (vm0 := fetched vm _) in *.
  pose proof (popIfBool_safe vm0 MaxStackSize ltac:(lia) ltac:(lia) vm0 (b_iv _ Hb0)) as Hs. rewrite Hp' in Hs.
  destruct Hs as [_ [Hf Hd _ _ _ _ _]].
  pose proof (Step_moves vm o None rest _ Hv Hw (if_executes o vm0 v _ Ho Hx Hp') eq_refl ltac:(cbn in *; lia)) as Hst.
  unfold go_on in Hst. rewrite bool_decide_false in Hst by done. pose proof (reaches_one _ _ Hst) as Hre.
  eexists. split; [exact Hre|]. split; [by apply (reaches_inv vm)|]. split; [done| |done].
  pose proof (popIfBool_safe vm MaxStackSize ltac:(lia) ltac:(lia) vm (b_iv _ (inv_base _ Hv))) as Hs. rewrite Hp in Hs.
  destruct Hs as [_ [Hf' _ _ _ _ _ _]]. cbn. by rewrite (fr_tokenizer _ _ Hf').
Qed.

(** The closing ENDIF, which may be the last opcode of the script. *)
Lemma endif_ends vm vm1 c x rest :
  reaches vm vm1 -> inv vm1 -> moved vm (c ++ [x]) (op_bytes op_ENDIF None ++ rest) vm1 ->
  exists vm2 vm3, reaches vm vm2 /\ moved vm c rest vm3 /\ Step vm2 = go_on rest vm3.
Proof.
  intros Re V M. destruct (Step_quiet vm1 op_ENDIF None rest c V) as (vm2 & Hs & M2).
  - by rewrite (mv_remaining _ _ _ _ M).
  - apply (exec_endif _ _ x), (moved_cond _ _ _ _ M).
  - exists vm1, vm2. split; [done|]. split; [|done]. by apply (moved_trans _ _ _ _ _ _ _ M).
Qed.
End steps.

(** ** Property *)

(** C24: IF, ELSE and ENDIF are the structured conditional in the steps of the engine.
    In front of [IF l1 ELSE l2 ENDIF], on a branch that is executed and with an operand
    that can be popped, the engine comes to the first opcode of the branch the operand
    selects with nothing changed but the operand popped and a condition added; what
    that branch then does, its errors included, is what its own steps do.  If they go
    through, the engine comes behind the ENDIF with nothing changed after the branch
    but the condition removed, and goes on there, or with the next script when nothing
    is left of this one.  So the opcodes of the other branch, nested conditionals and
    all, change nothing.  [NOTIF] selects the other branch.  The branches hold no
    disabled or always illegal opcode and no push of more than 520 bytes, which
    the engine refuses in either branch. *)
Theorem if_else_selects `{Crypto} `{!CryptoLaws _} `{MapOrder} (o : opcode)
    (l1 l2 : list (opcode * option bytes)) (rest : bytes) (vm vm1 : Engine) (v : bool) :
  let tail := op_bytes op_ENDIF None ++ rest in
  let first := if value o =? OP_IF then v else negb v in
  o = op_IF \/ o = op_NOTIF -> block l1 -> block l2 -> inv vm ->
  remaining (tokenizer vm) = op_bytes o None ++ unparse l1 ++ op_bytes op_ELSE None ++ unparse l2 ++ tail ->
  isBranchExecuting vm = true -> popIfBool vm = (Ret v, vm1) ->
  exists vm2, reaches vm vm2
  /\ moved vm1 (condStack vm ++ [OpCondTrue])
       (if first then unparse l1 ++ op_bytes op_ELSE None ++ unparse l2 ++ tail else unparse l2 ++ tail) vm2
  /\ forall vm3, steps (length (if first then l1 else l2)) vm2 = Some vm3 ->
     exists vm4 vm5, reaches vm3 vm4 /\ moved vm3 (condStack vm) rest vm5
       /\ Step vm4 = (if bool_decide (rest = []) then nextScript else retM false) vm5.
Proof.
  cbv zeta. intros Ho Hb1 Hb2 Hv Hr Hx Hp. set (tail := op_bytes op_ENDIF None ++ rest) in *.
  destruct (passes_if o vm v vm1 _ Ho Hv Hr ltac:(by apply unparse_more) Hx Hp) as (vm2 & Re2 & V2 & M2).
  pose proof (moved_cond _ _ _ _ M2) as C2. pose proof (mv_remaining _ _ _ _ M2) as R2.
  set (first := if value o =? OP_IF then v else negb v).
  replace (cond_of o v) with (if first then OpCondTrue else OpCondFalse) in *
    by (unfold first, cond_of; by destruct (value o =? OP_IF), v).
  destruct first.
  - exists vm2. split; [done|]. split; [done|]. intros vm3 Hs.
    destruct (block_keeps l1 Hb1 vm2 vm3 _ V2 R2 ltac:(done) Hs) as (C3 & V3 & R3). rewrite C2 in C3.
    destruct (passes_else vm3 (condStack vm) OpCondTrue _ V3 R3 ltac:(by apply unparse_more) C3) as [vm4 P4].
    destruct P4 as (Re4 & V4 & M4).
    destruct (skip_block l2 Hb2 vm4 _ tail V4 (mv_remaining _ _ _ _ M4) ltac:(done)
      (not_executing _ _ _ (moved_cond _ _ _ _ M4) ltac:(done)) (moved_cond _ _ _ _ M4)) as [vm5 P5].
    destruct P5 as (Re5 & V5 & M5). apply (endif_ends vm3 vm5 _ OpCondFalse); [by apply (reaches_trans _ vm4)|done|].
    by apply (moved_trans _ _ _ _ _ _ _ M4).
  - destruct (skip_block l1 Hb1 vm2 _ _ V2 R2 ltac:(done) (not_executing _ _ _ C2 ltac:(done)) C2) as [vm3 (Re3 & V3 & M3)].
    destruct (passes_else vm3 (condStack vm) OpCondFalse _ V3 (mv_remaining _ _ _ _ M3) ltac:(by apply unparse_more)
      (moved_cond _ _ _ _ M3)) as [vm4 (Re4 & V4 & M4)].
    change (flip OpCondFalse) with OpCondTrue in M4. exists vm4. split; [by apply (reaches_trans _ vm2), (reaches_trans _ vm3)|]. split.
    { by apply (moved_trans _ _ _ vm2 _ _ _ M2), (moved_trans _ _ _ vm3 _ _ _ M3). }
    intros vm5 Hs. destruct (block_keeps l2 Hb2 vm4 vm5 tail V4 (mv_remaining _ _ _ _ M4) ltac:(done) Hs) as (C5 & V5 & R5).
    apply (endif_ends vm5 vm5 _ OpCondTrue); [constructor|done|]. split; [|done..].
    rewrite <- (moved_cond _ _ _ _ M4), <- C5. by destruct vm5.
Qed.

(** The input pushes 1 and the output is [IF 2 ELSE RETURN ENDIF]. *)
Definition if_script : bytes := map z2b [OP_IF; OP_2; OP_ELSE; OP_RETURN; OP_ENDIF].

Example if_script_accepted :
  match start [z2b OP_1] if_script 0 with
  | Ret vm => (Execute (H := toy) (H0 := toy_order) vm).1 = Ret tt
  | _ => False
  end.
Proof. vm_compute. reflexivity. Qed.

Lemma plain_op b :
  parse_op [z2b b] = Some (opcode_at (z2b b), None, []) -> value (opcode_at (z2b b)) = b ->
  isOpcodeConditional b = false -> isOpcodeDisabled b = false -> isOpcodeAlwaysIllegal b = false ->
  block [(opcode_at (z2b b), None)].
Proof.
  intros Hp Hv Hc Hd Hi. apply block_op; [|apply block_nil]. split; [|cbn [fst]; by rewrite Hv].
  exists []. unfold op_bytes. cbn [fst snd]. by rewrite Hv.
Qed.

Lemma if_else_selects_witness :
  match steps_from 1 [z2b OP_1] if_script 0 with
  | Some vm => exists vm2, reaches (H := toy) (H0 := toy_order) vm vm2
      /\ moved (set_dstack (mkStack [] false) vm) [OpCondTrue] (map z2b [OP_2; OP_ELSE; OP_RETURN; OP_ENDIF]) vm2
      /\ forall vm3, steps (H := toy) (H0 := toy_order) 1 vm2 = Some vm3 ->
         exists vm4 vm5, reaches (H := toy) (H0 := toy_order) vm3 vm4 /\ moved vm3 [] [] vm5
           /\ Step (H := toy) (H0 := toy_order) vm4 = nextScript vm5
  | None => False
  end.
Proof.
  destruct (steps_from 1 [z2b OP_1] if_script 0) as [vm|] eqn:E; [|vm_compute in E; discriminate E].
  pose proof (steps_from_inv _ _ _ _ _ E eq_refl eq_refl) as Hv.
  assert (condStack vm = [] /\ remaining (tokenizer vm) = if_script
    /\ popIfBool vm = (Ret true, set_dstack (mkStack [] false) vm)) as (Hc & Hr & Hp)
    by (vm_compute in E; injection E as <-; vm_compute; auto).
  pose proof (if_else_selects (H := toy) (H0 := toy_order) op_IF [(opcode_at (z2b OP_2), None)]
    [(opcode_at (z2b OP_RETURN), None)] [] vm (set_dstack (mkStack [] false) vm) true) as Ht.
  rewrite Hc in Ht. apply Ht.
  - left. reflexivity.
  - apply plain_op; reflexivity.
  - apply plain_op; reflexivity.
  - exact Hv.
  - rewrite Hr. reflexivity.
  - unfold isBranchExecuting. rewrite Hc. reflexivity.
  - exact Hp.
Defined.
