(* ===== verification/Address.v ===== *)
(** Payment addresses: util/address.go, util/hash160.go, util/pubkey.go, the
    network parameters of chaincfg/params.go, and the functions of
    txscript/standard.go that turn addresses into scripts and back.

    The three structs that implement the interface [Address] are records; a value
    of the interface is one of them, and a nil interface is [None]. *)

From S2P Require Import Prelude Crypto Digits Hash Base58 ScriptError ScriptNum Opcodes Tokenizer Script ScriptBuilder Standard.

(** ** chaincfg/params.go *)

Record Params := mkParams {
  Name : bytes;
  Net : Z;
  DefaultPort : bytes;
  PubKeyHashAddrID : byte;
  ScriptHashAddrID : byte;
  PrivateKeyID : byte;
  HDPrivateKeyID : bytes;
  HDPublicKeyID : bytes;
  HDCoinType : Z }.

Notation MainNet := 0x59472ee4 (only parsing).
Notation TestNet3 := 0x2b9939bf (only parsing).

Definition MainNetParams : Params := mkParams (str "main") MainNet (str "10618")
  (z2b 0x07) (z2b 0x09) (z2b 0x7b)
  [z2b 0x5a; z2b 0xeb; z2b 0xd8; z2b 0xc6] [z2b 0xfb; z2b 0xc6; z2b 0xa0; z2b 0x0d] 5.

Definition TestNet3Params : Params := mkParams (str "test") TestNet3 (str "11618")
  (z2b 0x6d) (z2b 0xc1) (z2b 0xeb)
  [z2b 0xb6; z2b 0xf1; z2b 0x3f; z2b 0x50] [z2b 0x5d; z2b 0x40; z2b 0x5f; z2b 0x7a] 1.

Definition NetMagic_String (n : Z) : bytes :=
  if n =? MainNet then str "MainNet"
  else if n =? TestNet3 then str "TestNet3"
  else str "Unknown network (" ++ FormatInt n ++ str ")".

(** ** util/address.go *)

Notation Ripemd160Size := 20 (only parsing).

Inductive AddrErr :=
  | ErrChecksumMismatch
  | ErrUnknownAddressType
  | ErrAddressCollision
  | ErrAddressFormat
  | ErrAddressSize
  | ErrPkHashSize
  | ErrScriptHashSize
  | ErrAddressHex (e : HexErr)
  | ErrParsePubKey.
#[export] Instance AddrErr_eq_dec : EqDecision AddrErr.
Proof. solve_decision. Defined.

Inductive PubKeyFormat := PKFUncompressed | PKFCompressed.
#[export] Instance PubKeyFormat_eq_dec : EqDecision PubKeyFormat.
Proof. solve_decision. Defined.

Record AddressPubKeyHash := mkAddressPubKeyHash { apkh_hash : bytes; apkh_netID : byte }.
Record AddressScriptHash := mkAddressScriptHash { ash_hash : bytes; ash_netID : byte }.

Section address.
Context `{Crypto}.

Definition Hash160 (buf : bytes) : bytes := ripemd160 (sha256 buf).

Definition encodeAddress {E} (hash160 : bytes) (netID : byte) : outcome E bytes :=
  let! h := orCrash (zslice hash160 0 Ripemd160Size) in
  CheckEncode h netID.

Definition newAddressPubKeyHash (pkHash : bytes) (netID : byte) : outcome AddrErr AddressPubKeyHash :=
  if negb (zlen pkHash =? Ripemd160Size) then Fail ErrPkHashSize
  else Ret (mkAddressPubKeyHash pkHash netID).

Definition NewAddressPubKeyHash (pkHash : bytes) (net : Params) : outcome AddrErr AddressPubKeyHash :=
  newAddressPubKeyHash pkHash (PubKeyHashAddrID net).

Definition AddressPubKeyHash_EncodeAddress {E} (a : AddressPubKeyHash) : outcome E bytes :=
  encodeAddress (apkh_hash a) (apkh_netID a).

Definition newAddressScriptHashFromHash (scriptHash : bytes) (netID : byte) : outcome AddrErr AddressScriptHash :=
  if negb (zlen scriptHash =? Ripemd160Size) then Fail ErrScriptHashSize
  else Ret (mkAddressScriptHash scriptHash netID).

Definition NewAddressScriptHash (serializedScript : bytes) (net : Params) : outcome AddrErr AddressScriptHash :=
  let scriptHash := Hash160 serializedScript in
  newAddressScriptHashFromHash scriptHash (ScriptHashAddrID net).

Definition NewAddressScriptHashFromHash (scriptHash : bytes) (net : Params) : outcome AddrErr AddressScriptHash :=
  newAddressScriptHashFromHash scriptHash (ScriptHashAddrID net).

Definition AddressScriptHash_EncodeAddress {E} (a : AddressScriptHash) : outcome E bytes :=
  encodeAddress (ash_hash a) (ash_netID a).

Record AddressPubKey := mkAddressPubKey {
  pubKeyFormat : PubKeyFormat;
  pubKey : PublicKey;
  pubKeyHashID : byte }.

Definition NewAddressPubKey (serializedPubKey : bytes) (net : Params) : outcome AddrErr AddressPubKey :=
  match ParsePubKey serializedPubKey with
  | None => Fail ErrParsePubKey
  | Some pubKey =>
      let! b := orCrash (znth serializedPubKey 0) in
      let pkFormat := if (b2z b =? 0x02) || (b2z b =? 0x03) then PKFCompressed else PKFUncompressed in
      Ret (mkAddressPubKey pkFormat pubKey (PubKeyHashAddrID net))
  end.

Definition serialize (a : AddressPubKey) : bytes :=
  match pubKeyFormat a with
  | PKFUncompressed => SerializeUncompressed (pubKey a)
  | PKFCompressed => SerializeCompressed (pubKey a)
  end.

Definition AddressPubKey_EncodeAddress {E} (a : AddressPubKey) : outcome E bytes :=
  encodeAddress (Hash160 (serialize a)) (pubKeyHashID a).

Definition SetFormat (pkFormat : PubKeyFormat) (a : AddressPubKey) : AddressPubKey :=
  mkAddressPubKey pkFormat (pubKey a) (pubKeyHashID a).

(** The address of the hash of the key. *)
Definition AddressPubKey_AddressPubKeyHash (a : AddressPubKey) : AddressPubKeyHash :=
  mkAddressPubKeyHash (Hash160 (serialize a)) (pubKeyHashID a).

(** The interface. *)
Inductive Address :=
  | AddrPubKeyHash (a : AddressPubKeyHash)
  | AddrScriptHash (a : AddressScriptHash)
  | AddrPubKey (a : AddressPubKey).

Definition EncodeAddress {E} (a : Address) : outcome E bytes :=
  match a with
  | AddrPubKeyHash a => AddressPubKeyHash_EncodeAddress a
  | AddrScriptHash a => AddressScriptHash_EncodeAddress a
  | AddrPubKey a => AddressPubKey_EncodeAddress a
  end.

Definition Address_String {E} (a : Address) : outcome E bytes :=
  match a with
  | AddrPubKeyHash a => AddressPubKeyHash_EncodeAddress a
  | AddrScriptHash a => AddressScriptHash_EncodeAddress a
  | AddrPubKey a => Ret (EncodeToString (serialize a))
  end.

Definition ScriptAddress (a : Address) : bytes :=
  match a with
  | AddrPubKeyHash a => apkh_hash a
  | AddrScriptHash a => ash_hash a
  | AddrPubKey a => serialize a
  end.

Definition IsForNet (a : Address) (net : Params) : bool :=
  match a with
  | AddrPubKeyHash a => bool_decide (apkh_netID a = PubKeyHashAddrID net)
  | AddrScriptHash a => bool_decide (ash_netID a = ScriptHashAddrID net)
  | AddrPubKey a => bool_decide (pubKeyHashID a = PubKeyHashAddrID net)
  end.

Definition liftA {A} (f : A -> Address) (o : outcome AddrErr A) : outcome AddrErr Address :=
  let! a := o in Ret (f a).

Definition DecodeAddress (addr : bytes) (defaultNet : Params) : outcome AddrErr Address :=
  if (zlen addr =? 130) || (zlen addr =? 66) then
    match DecodeString addr with
    | Ret serializedPubKey => liftA AddrPubKey (NewAddressPubKey serializedPubKey defaultNet)
    | Fail e => Fail (ErrAddressHex e)
    | Crash => Crash
    | NoFuel => NoFuel
    end
  else
    match CheckDecode addr with
    | Fail ErrChecksum => Fail ErrChecksumMismatch
    | Fail _ => Fail ErrAddressFormat
    | Ret (decoded, netID) =>
        if zlen decoded =? Ripemd160Size then
          let isP2PKH := bool_decide (netID = PubKeyHashAddrID defaultNet) in
          let isP2SH := bool_decide (netID = ScriptHashAddrID defaultNet) in
          let hash160 := decoded in
          if isP2PKH && isP2SH then Fail ErrAddressCollision
          else if isP2PKH then liftA AddrPubKeyHash (newAddressPubKeyHash hash160 netID)
          else if isP2SH then liftA AddrScriptHash (newAddressScriptHashFromHash hash160 netID)
          else Fail ErrUnknownAddressType
        else Fail ErrAddressSize
    | Crash => Crash
    | NoFuel => NoFuel
    end.

(** ** txscript/standard.go *)

Definition PayToAddrScript (addr : option Address) : outcome StdErr bytes :=
  match addr with
  | Some (AddrPubKeyHash a) => lift_build (payToPubKeyHashScript (apkh_hash a))
  | Some (AddrScriptHash a) => lift_build (payToScriptHashScript (ash_hash a))
  | Some (AddrPubKey a) => lift_build (payToPubKeyScript (serialize a))
  | None => Fail (SErr ErrUnsupportedAddress)
  end.

(** A constructor whose error is dropped. *)
Definition okAddrs (o : outcome AddrErr Address) : outcome ErrorCode (list Address) :=
  match o with Ret a => Ret [a] | Fail _ => Ret [] | Crash => Crash | NoFuel => NoFuel end.

Definition pubKeyHashToAddrs (hash : bytes) (params : Params) : outcome ErrorCode (list Address) :=
  okAddrs (liftA AddrPubKeyHash (NewAddressPubKeyHash hash params)).

Definition scriptHashToAddrs (hash : bytes) (params : Params) : outcome ErrorCode (list Address) :=
  okAddrs (liftA AddrScriptHash (NewAddressScriptHashFromHash hash params)).

(** The loop over the keys of a multisig script. *)
Fixpoint pubKeysToAddrs (pubKeys : list bytes) (params : Params) : outcome ErrorCode (list Address) :=
  match pubKeys with
  | [] => Ret []
  | pubkey :: pubKeys =>
      let! addr := okAddrs (liftA AddrPubKey (NewAddressPubKey pubkey params)) in
      let! addrs := pubKeysToAddrs pubKeys params in
      Ret (addr ++ addrs)
  end.

Definition ExtractPkScriptAddrs (pkScript : bytes) (chainParams : Params) :
    outcome ErrorCode (ScriptClass * list Address * Z) :=
  match extractPubKeyHash pkScript with
  | Some hash => let! addrs := pubKeyHashToAddrs hash chainParams in Ret (PubKeyHashTy, addrs, 1)
  | None =>
  match extractScriptHash pkScript with
  | Some hash => let! addrs := scriptHashToAddrs hash chainParams in Ret (ScriptHashTy, addrs, 1)
  | None =>
  match extractPubKey pkScript with
  | Some data =>
      let! addrs := okAddrs (liftA AddrPubKey (NewAddressPubKey data chainParams)) in
      Ret (PubKeyTy, addrs, 1)
  | None =>
      let! details := extractMultisigScriptDetails pkScript true in
      if valid details then
        let! addrs := pubKeysToAddrs (pubKeys details) chainParams in
        Ret (MultiSigTy, addrs, requiredSigs details)
      else
        let! nullData := isNullDataScript pkScript in
        if nullData then Ret (NullDataTy, [], 0) else Ret (NonStandardTy, [], 0)
  end end end.
End address.

(** An address of the main network with the toy checksum, and on the other network. *)
Example address_example :
  match EncodeAddress (H := toy) (E := unit) (AddrPubKeyHash (mkAddressPubKeyHash (replicate 20 (z2b 5)) (z2b 7))) with
  | Ret s =>
      match DecodeAddress (H := toy) s MainNetParams, DecodeAddress (H := toy) s TestNet3Params with
      | Ret (AddrPubKeyHash a), Fail e =>
          bool_decide (apkh_hash a = replicate 20 (z2b 5)) && bool_decide (e = ErrUnknownAddressType)
      | _, _ => false
      end
  | _ => false
  end = true.
Proof. vm_compute. reflexivity. Qed.

(** ** Addresses and their text *)

Section address_proofs.
#[local] Set Default Proof Using "Type*".
Context `{C : Crypto} `{!CryptoLaws C}.

Lemma encodeAddress_eq {E} h v : zlen h = 20 -> encodeAddress (E := E) h v = CheckEncode h v.
Proof.
  intros Hh. unfold encodeAddress. rewrite <- Hh, zslice_full. done.
Qed.

(** An encoded hash is too short to be taken for a hexadecimal key. *)
Lemma CheckEncode_short {E} h v s : zlen h = 20 -> CheckEncode (E := E) h v = Ret s -> zlen s <= 50.
Proof.
  intros Hh He. apply Encode_length in He. rewrite zlen_app, zlen_checksum in He.
  change ([v] ++ h) with (v :: h) in He. rewrite zlen_cons in He. lia.
Qed.

Lemma zlen_Hash160 b : zlen (Hash160 b) = 20.
Proof. apply ripemd160_len. Qed.

Definition distinct_ids (net : Params) : Prop := PubKeyHashAddrID net <> ScriptHashAddrID net.

(** The address of a hash on a network. *)
Definition hash_address (net : Params) (script : bool) (h : bytes) : Address :=
  if script then AddrScriptHash (mkAddressScriptHash h (ScriptHashAddrID net))
  else AddrPubKeyHash (mkAddressPubKeyHash h (PubKeyHashAddrID net)).
Definition hash_id (net : Params) (script : bool) : byte :=
  if script then ScriptHashAddrID net else PubKeyHashAddrID net.

Lemma EncodeAddress_hash {E} net script h : zlen h = 20 ->
  EncodeAddress (E := E) (hash_address net script h) = CheckEncode h (hash_id net script).
Proof. intros Hh. destruct script; by apply encodeAddress_eq. Qed.

Lemma newAddress_ok h v : zlen h = 20 ->
  newAddressPubKeyHash h v = Ret (mkAddressPubKeyHash h v)
  /\ newAddressScriptHashFromHash h v = Ret (mkAddressScriptHash h v).
Proof. intros Hh. unfold newAddressPubKeyHash, newAddressScriptHashFromHash. by rewrite Hh. Qed.

Lemma DecodeAddress_hash net script h s : distinct_ids net -> zlen h = 20 ->
  CheckEncode (E := AddrErr) h (hash_id net script) = Ret s ->
  DecodeAddress s net = Ret (hash_address net script h).
Proof.
  intros Hd Hh He. pose proof (CheckEncode_short _ _ _ Hh He). apply CheckEncode_iff in He.
  unfold DecodeAddress. ztest. cbn [orb]. rewrite He, Hh. change (20 =? 20) with true. cbv iota zeta.
  destruct (newAddress_ok h (hash_id net script) Hh) as [E1 E2].
  destruct script; cbn [hash_id hash_address] in *.
  - rewrite bool_decide_eq_false_2 by (unfold distinct_ids in Hd; congruence).
    rewrite bool_decide_eq_true_2 by done. cbn [andb]. by rewrite E2.
  - rewrite bool_decide_eq_true_2 by done.
    rewrite bool_decide_eq_false_2 by done. cbn [andb]. by rewrite E1.
Qed.

Lemma DecodeAddress_inv {E} net a s : DecodeAddress s net = Ret a -> zlen s <> 66 -> zlen s <> 130 ->
  exists script h, a = hash_address net script h /\ zlen h = 20
    /\ CheckEncode (E := E) h (hash_id net script) = Ret s.
Proof.
  intros Hdec H66 H130. unfold DecodeAddress in Hdec.
  rewrite (proj2 (Z.eqb_neq _ _) H66), (proj2 (Z.eqb_neq _ _) H130) in Hdec. cbn [orb] in Hdec.
  destruct (CheckDecode s) as [[h v]|[]| |] eqn:Hc; try done.
  destruct (Z.eqb_spec (zlen h) 20) as [Hh|]; [|done]. cbv zeta in Hdec.
  destruct (newAddress_ok h v Hh) as [E1 E2]. apply (CheckEncode_iff (E := E)) in Hc.
  case_bool_decide as Hp; case_bool_decide as Hsh; cbn [andb] in Hdec; try done; subst v.
  - rewrite E1 in Hdec. injection Hdec as <-. by exists false, h.
  - rewrite E2 in Hdec. injection Hdec as <-. by exists true, h.
Qed.

(** ** Keys *)

Context `{!KeyLaws C}.

(** A key that [ParsePubKey] can return. *)
Definition valid_key (k : PublicKey) : Prop := exists b, ParsePubKey b = Some k.

(** What the constructors of this network return. *)
Definition wf_address (net : Params) (a : Address) : Prop :=
  match a with
  | AddrPubKeyHash a => zlen (apkh_hash a) = 20 /\ apkh_netID a = PubKeyHashAddrID net
  | AddrScriptHash a => zlen (ash_hash a) = 20 /\ ash_netID a = ScriptHashAddrID net
  | AddrPubKey a => valid_key (pubKey a) /\ pubKeyHashID a = PubKeyHashAddrID net
  end.

Lemma serialize_form a : valid_key (pubKey a) ->
  zlen (serialize a) = (match pubKeyFormat a with PKFCompressed => 33 | PKFUncompressed => 65 end)
  /\ isStrictPubKeyEncoding (serialize a) = true
  /\ ParsePubKey (serialize a) = Some (pubKey a)
  /\ exists b l, serialize a = b :: l
       /\ (b2z b =? 2) || (b2z b =? 3) = match pubKeyFormat a with PKFCompressed => true | PKFUncompressed => false end.
Proof.
  intros [b Hb]. unfold serialize. destruct (pubKeyFormat a).
  - destruct (uncompressed_form b _ Hb) as (Hl & Hh & Hp). split_and!; [done| |done|].
    + unfold isStrictPubKeyEncoding. rewrite Hl. cbn [Z.eqb andb]. destruct (SerializeUncompressed _); [done|].
      by injection Hh as ->.
    + destruct (SerializeUncompressed _); [done|]. injection Hh as ->. eauto.
  - destruct (compressed_form b _ Hb) as (Hl & Hh & Hp). split_and!; [done| |done|].
    + unfold isStrictPubKeyEncoding. rewrite Hl. destruct (SerializeCompressed _); [naive_solver|].
      by destruct Hh as [[= ->]|[= ->]].
    + destruct (SerializeCompressed _); [naive_solver|]. destruct Hh as [[= ->]|[= ->]]; eauto.
Qed.

Lemma NewAddressPubKey_serialize a net : valid_key (pubKey a) -> pubKeyHashID a = PubKeyHashAddrID net ->
  NewAddressPubKey (serialize a) net = Ret a.
Proof.
  intros Hk Hid. destruct (serialize_form a Hk) as (_ & _ & Hp & b & l & Hs & Hf).
  unfold NewAddressPubKey. rewrite Hp, Hs. change (znth (b :: l) 0) with (Some b). cbn [orCrash bindO].
  rewrite Hf, <- Hid. destruct a as [[] k id]; done.
Qed.

Lemma NewAddressPubKey_wf b net a : NewAddressPubKey b net = Ret a -> wf_address net (AddrPubKey a).
Proof.
  unfold NewAddressPubKey. destruct (ParsePubKey b) as [k|] eqn:Hk; [|done].
  destruct (znth b 0); [|done]. cbn [orCrash bindO]. intros [= <-]. split; [by exists b|done].
Qed.

(** Parsing a key does not panic on a string that is not empty. *)
Lemma NewAddressPubKey_total b net : b <> [] ->
  match NewAddressPubKey b net with Crash | NoFuel => False | _ => True end.
Proof. unfold NewAddressPubKey. destruct (ParsePubKey b); [|done]. by destruct b. Qed.

Lemma DecodeAddress_key a net : wf_address net (AddrPubKey a) ->
  DecodeAddress (EncodeToString (serialize a)) net = Ret (AddrPubKey a).
Proof.
  intros [Hk Hid]. destruct (serialize_form a Hk) as (Hl & _).
  unfold DecodeAddress. rewrite zlen_EncodeToString, Hl.
  replace (_ || _) with true by (by destruct (pubKeyFormat a)).
  unfold DecodeString. rewrite hex_Decode_EncodeToString. unfold liftA. by rewrite NewAddressPubKey_serialize.
Qed.

(** A string of hexadecimal length is a key or an error. *)
Lemma DecodeAddress_hex s net : zlen s = 66 \/ zlen s = 130 ->
  match DecodeAddress s net with
  | Ret a => exists k, a = AddrPubKey k /\ wf_address net a
  | Fail _ => True
  | Crash | NoFuel => False
  end.
Proof.
  intros Hl. unfold DecodeAddress. replace (_ || _) with true by (by destruct Hl as [-> | ->]).
  unfold DecodeString. pose proof (hex_Decode_total s) as Ht.
  destruct (hex_Decode s) as [b|e| |] eqn:Hd; try done. apply hex_Decode_len in Hd.
  assert (b <> []) as Hb by (intros ->; change (zlen []) with 0 in Hd; lia).
  pose proof (NewAddressPubKey_total b net Hb) as Hn. unfold liftA.
  destruct (NewAddressPubKey b net) as [a|e| |] eqn:Ha; try done. cbn [bindO].
  exists a. split; [done|]. by eapply NewAddressPubKey_wf.
Qed.

Lemma wf_hash_address net script h : zlen h = 20 -> wf_address net (hash_address net script h).
Proof. by destruct script. Qed.

Lemma wf_address_cases net a : wf_address net a ->
  (exists script h, a = hash_address net script h /\ zlen h = 20) \/ exists k, a = AddrPubKey k.
Proof.
  destruct a as [[h v]|[h v]|k]; cbn [wf_address apkh_hash apkh_netID ash_hash ash_netID]; [| |eauto];
    intros [Hh ->]; left; [exists false, h|exists true, h]; done.
Qed.

(** Decoding gives addresses of the network; those of a hash are printed as they
    were read. *)
Lemma DecodeAddress_wf {E} net a s : DecodeAddress s net = Ret a -> wf_address net a
  /\ ((forall k, a <> AddrPubKey k) -> EncodeAddress (E := E) a = Ret s).
Proof.
  intros Hs. destruct (decide (zlen s = 66 \/ zlen s = 130)) as [Hl|Hl].
  - pose proof (DecodeAddress_hex s net Hl) as Hx. rewrite Hs in Hx. destruct Hx as (k & -> & Hwf).
    split; [done|]. intros Hn. by destruct (Hn k).
  - destruct (DecodeAddress_inv (E := E) net a s Hs) as (script & h & -> & Hh & He); [tauto..|].
    split; [by apply wf_hash_address|]. intros _. by rewrite EncodeAddress_hash.
Qed.

(** A text that is not a key is what its address prints. *)
Lemma DecodeAddress_String {E} net a s : DecodeAddress s net = Ret a -> zlen s <> 66 -> zlen s <> 130 ->
  Address_String (E := E) a = Ret s.
Proof.
  intros Hs H1 H2. destruct (DecodeAddress_inv (E := E) net a s Hs H1 H2) as (script & h & -> & Hh & He).
  rewrite <- He, <- EncodeAddress_hash by done. by destruct script.
Qed.
End address_proofs.

(** C26: addresses and their text determine each other on a network whose two
    identifiers differ: every address of the network is decoded from the text it
    prints; whatever is decoded is an address of this network; and an address that
    is not a plain key has no other text. *)
Theorem Address_text_exact `{C : Crypto} `{!CryptoLaws C} `{!KeyLaws C} (net : Params) (a : Address) :
  distinct_ids net ->
  (wf_address net a -> exists s, Address_String (E := AddrErr) a = Ret s /\ DecodeAddress s net = Ret a)
  /\ (forall s, DecodeAddress s net = Ret a -> wf_address net a
        /\ ((forall k, a <> AddrPubKey k) -> EncodeAddress (E := AddrErr) a = Ret s)).
Proof.
  intros Hd. split.
  - intros Hwf. destruct (wf_address_cases net a Hwf) as [(script & h & -> & Hh)|[k ->]].
    + destruct (CheckEncode_total (E := AddrErr) h (hash_id net script)) as [s Hs]. exists s. split.
      * rewrite <- Hs, <- (EncodeAddress_hash net script h Hh). by destruct script.
      * by apply DecodeAddress_hash.
    + eexists. split; [done|]. by apply DecodeAddress_key.
  - intros s. apply DecodeAddress_wf.
Qed.

Lemma Address_text_exact_witness :
  let a := AddrScriptHash (H := toy) (mkAddressScriptHash (replicate 20 (z2b 5)) (z2b 9)) in
  exists s, Address_String (H := toy) (E := AddrErr) a = Ret s /\ DecodeAddress (H := toy) s MainNetParams = Ret a.
Proof.
  intros a. apply (Address_text_exact (C := toy) MainNetParams a); [discriminate|done].
Defined.

(** C28: decoding an address panics exactly when the string has not the length of a
    hexadecimal key and the base58 decoder meets a rune outside its table before
    any other bad one; otherwise it returns an address or an error. *)
Theorem DecodeAddress_panics_iff `{C : Crypto} `{!CryptoLaws C} `{!KeyLaws C} (net : Params) (s : bytes) :
  DecodeAddress s net <> NoFuel
  /\ (DecodeAddress s net = Crash
      <-> zlen s <> 66 /\ zlen s <> 130
          /\ exists v, first_bad (chunk_runes (S (length s)) s) = Some v /\ ~ 0 <= v < 256).
Proof.
  destruct (decide (zlen s = 66 \/ zlen s = 130)) as [Hl|Hl].
  { pose proof (DecodeAddress_hex s net Hl) as Hx.
    destruct (DecodeAddress s net); try done; (split; [done|split; [done|intros (? & ? & _); tauto]]). }
  assert (Hn : DecodeAddress s net <> NoFuel /\ (DecodeAddress s net = Crash <-> Decode (E := Base58Err) s = Crash)).
  { unfold DecodeAddress. replace (_ || _) with false by (symmetry; apply orb_false_iff; rewrite !Z.eqb_neq; tauto).
    unfold CheckDecode. destruct (Decode s) as [d|e| |] eqn:Hd; cbn [bindO]; try (by split).
    2:{ destruct e; by split. }
    2:{ exfalso. eapply Decode_fuel. exact Hd. }
    destruct (Z.ltb_spec (zlen d) 5); [by split|]. rewrite !zslice_Some by lia.
    destruct (znth_is_Some d 0) as [v Hv]; [lia|]. rewrite Hv. cbn [orCrash bindO].
    destruct (negb _); [by split|]. set (p := take _ _). destruct (Z.eqb_spec (zlen p) 20) as [Hp|]; [|by split].
    destruct (newAddress_ok p v Hp) as [-> ->]. cbn [liftA bindO].
    repeat case_bool_decide; cbn [andb]; by split. }
  destruct Hn as [Hn Hc]. split; [done|]. rewrite Hc, Decode_crash. tauto.
Qed.

Lemma DecodeAddress_panics_iff_witness :
  DecodeAddress (H := toy) [z2b 0xE2; z2b 0x82; z2b 0xAC] MainNetParams = Crash.
Proof.
  apply (DecodeAddress_panics_iff (C := toy) MainNetParams [z2b 0xE2; z2b 0x82; z2b 0xAC]).
  split_and!; [discriminate|discriminate|]. exists 0x20AC. split; [reflexivity|lia].
Defined.

(** ** Addresses and their scripts *)

(** The number of keys of a multisig script does not depend on whether they are
    collected. *)
Definition erase_keys {T} (r : outcome ErrorCode ((Z * list bytes) * T + (Z * list bytes) * T)) :
    outcome ErrorCode (Z * T + Z * T) :=
  let! x := r in
  match x with
  | inl ((n, _), t) => Ret (inl (n, t))
  | inr ((n, _), t) => Ret (inr (n, t))
  end.

Lemma for_next_flag fuel : forall t n k1 k2,
  erase_keys (for_next fuel (multisigBody true) t (n, k1))
  = erase_keys (for_next fuel (multisigBody false) t (n, k2)).
Proof.
  induction fuel as [|fuel IH]; intros t n k1 k2; [done|]. cbn [for_next].
  destruct (Next t) as [[[|]| | |] t']; try done. unfold multisigBody at 1 3.
  destruct (Opcode t') as [o| | |]; try done. cbn [bindO].
  destruct (isSmallInt o); [done|]. destruct (negb _); cbn [bindO]; apply IH.
Qed.

Lemma multisig_flag s : zlen s < 2 ^ 31 ->
  exists d1 d2, extractMultisigScriptDetails s true = Ret d1 /\ extractMultisigScriptDetails s false = Ret d2
    /\ valid d1 = valid d2 /\ requiredSigs d1 = requiredSigs d2.
Proof.
  intros Hl. destruct (multisig_total s true Hl) as (d1 & E1 & _). destruct (multisig_total s false Hl) as (d2 & E2 & _).
  exists d1, d2. split; [done|]. split; [done|]. revert E1 E2; unfold extractMultisigScriptDetails;
    (destruct (_ || _); [by intros [= <-] [= <-]|]);
    destruct (Next _) as [[m| | |] t]; try done; cbn [bindO]; (destruct m; cbn [negb]; [|by intros [= <-] [= <-]]);
    destruct (Opcode t) as [o| | |]; try done; cbn [bindO]; (destruct (isSmallInt o); cbn [negb]; [|by intros [= <-] [= <-]]);
    pose proof (for_next_flag (tok_fuel s) t 0 [] []) as Hf; unfold erase_keys in Hf;
    destruct (for_next _ (multisigBody true) _ _) as [[[[n1 k1] t1]|[[n1 k1] t1]]| | |]; try done;
    destruct (for_next _ (multisigBody false) _ _) as [[[[n2 k2] t2]|[[n2 k2] t2]]| | |]; try done;
    cbn [bindO] in Hf |- *; injection Hf as -> ->; (destruct (Done t2); [by intros [= <-] [= <-]|]);
    destruct (Opcode t2); try done; cbn [bindO]; (destruct (_ || _); [by intros [= <-] [= <-]|]);
    (destruct (negb _); [by intros [= <-] [= <-]|]); by intros [= <-] [= <-].
Qed.

Section scripts.
#[local] Set Default Proof Using "Type*".
Context `{C : Crypto} `{!CryptoLaws C} `{!KeyLaws C}.

Lemma okAddrs_liftA {A} (f : A -> Address) o a : o = Ret a -> okAddrs (liftA f o) = Ret [f a].
Proof using Type. by intros ->. Qed.

Lemma not_p2pkh s : (forall h, s <> p2pkh h) -> extractPubKeyHash s = None.
Proof.
  intros Hs. destruct (extractPubKeyHash s) as [h|] eqn:E; [|done].
  apply extractPubKeyHash_iff in E as [-> _]. by destruct (Hs h).
Qed.
Lemma not_p2sh s : (forall h, s <> p2sh h) -> extractScriptHash s = None.
Proof.
  intros Hs. destruct (extractScriptHash s) as [h|] eqn:E; [|done].
  apply extractScriptHash_iff in E as [-> _]. by destruct (Hs h).
Qed.

Lemma p2pk_head k r : isStrictPubKeyEncoding k = true -> p2pk k = z2b OP_DUP :: r \/ p2pk k = z2b OP_HASH160 :: r -> False.
Proof. intros [Hk|Hk]%strict_len; unfold p2pk; rewrite Hk; intros [[= E]|[= E]]. Qed.

Definition address_class (a : Address) : ScriptClass :=
  match a with
  | AddrPubKeyHash _ => PubKeyHashTy
  | AddrScriptHash _ => ScriptHashTy
  | AddrPubKey _ => PubKeyTy
  end.

(** The script of an address. *)
Definition address_script (a : Address) : bytes :=
  match a with
  | AddrPubKeyHash a => p2pkh (apkh_hash a)
  | AddrScriptHash a => p2sh (ash_hash a)
  | AddrPubKey a => p2pk (serialize a)
  end.

Lemma PayToAddrScript_eq net a : wf_address net a -> PayToAddrScript (Some a) = Ret (address_script a).
Proof.
  destruct a as [a|a|a]; cbn [PayToAddrScript wf_address address_script]; intros [Ha _].
  - by rewrite payToPubKeyHashScript_eq.
  - by rewrite payToScriptHashScript_eq.
  - destruct (serialize_form a Ha) as (_ & Hs & _). by rewrite payToPubKeyScript_eq.
Qed.

Lemma Extract_address net a : wf_address net a ->
  ExtractPkScriptAddrs (address_script a) net = Ret (address_class a, [a], 1).
Proof.
  destruct a as [[h v]|[h v]|a]; intros Hwf; destruct (Hwf) as [Ha Hid];
    cbn [address_script address_class apkh_hash ash_hash apkh_netID ash_netID] in *; unfold ExtractPkScriptAddrs.
  - subst v. rewrite (proj2 (extractPubKeyHash_iff _ h)) by done. unfold pubKeyHashToAddrs, NewAddressPubKeyHash.
    by rewrite (okAddrs_liftA AddrPubKeyHash _ _ (proj1 (newAddress_ok h (PubKeyHashAddrID net) Ha))).
  - subst v. rewrite not_p2pkh by done. rewrite (proj2 (extractScriptHash_iff _ h)) by done.
    unfold scriptHashToAddrs, NewAddressScriptHashFromHash.
    by rewrite (okAddrs_liftA AddrScriptHash _ _ (proj2 (newAddress_ok h (ScriptHashAddrID net) Ha))).
  - destruct (serialize_form a Ha) as (_ & Hs & _).
    rewrite not_p2pkh by (intros h E; eapply (p2pk_head _ _ Hs); left; exact E).
    rewrite not_p2sh by (intros h E; eapply (p2pk_head _ _ Hs); right; exact E).
    rewrite (proj2 (extractPubKey_iff _ (serialize a))) by done.
    by rewrite (okAddrs_liftA AddrPubKey _ _ (NewAddressPubKey_serialize a net Ha Hid)).
Qed.

Lemma strict_nonempty k : isStrictPubKeyEncoding k = true -> k <> [].
Proof. intros Hk ->. by apply strict_len in Hk as [?|?]. Qed.

Lemma okAddrs_key k net : k <> [] ->
  exists l, okAddrs (liftA AddrPubKey (NewAddressPubKey k net)) = Ret l /\ (length l <= 1)%nat
    /\ Forall (wf_address net) l.
Proof.
  intros Hk. pose proof (NewAddressPubKey_total k net Hk) as Ht.
  destruct (NewAddressPubKey k net) as [a|e| |] eqn:Ha; try done; eexists; (split; [done|]); (split; [cbn [length]; lia|]).
  - constructor; [by eapply NewAddressPubKey_wf|constructor].
  - constructor.
Qed.

Lemma pubKeysToAddrs_total keys net : Forall (fun k => isStrictPubKeyEncoding k = true) keys ->
  exists l, pubKeysToAddrs keys net = Ret l /\ (length l <= length keys)%nat /\ Forall (wf_address net) l.
Proof.
  induction 1 as [|k keys Hk Hks (l & El & Hl & Hw)]; [by exists []|]. cbn [pubKeysToAddrs].
  destruct (okAddrs_key k net (strict_nonempty k Hk)) as (l' & -> & Hl' & Hw'). rewrite El. cbn [bindO].
  eexists. split; [done|]. split; [rewrite length_app; cbn [length]; lia|by apply Forall_app].
Qed.

(** The keys that are collected are well-formed. *)
Lemma for_next_keys fuel : forall t n ks r,
  Forall (fun k => isStrictPubKeyEncoding k = true) ks ->
  for_next fuel (multisigBody true) t (n, ks) = Ret r ->
  Forall (fun k => isStrictPubKeyEncoding k = true) (match r with inl ((_, ks'), _) => ks' | inr ((_, ks'), _) => ks' end).
Proof.
  induction fuel as [|fuel IH]; intros t n ks r Hk; [done|]. cbn [for_next].
  destruct (Next t) as [[[|]| | |] t']; try done; [|by intros [= <-]]. unfold multisigBody at 1.
  destruct (Opcode t') as [o| | |]; try done. cbn [bindO].
  destruct (isSmallInt o); [by intros [= <-]|]. destruct (isStrictPubKeyEncoding _) eqn:Hs; cbn [negb bindO]; apply IH.
  - apply Forall_app. by split; [|repeat constructor].
  - done.
Qed.

Lemma multisig_keys s d : extractMultisigScriptDetails s true = Ret d ->
  Forall (fun k => isStrictPubKeyEncoding k = true) (pubKeys d).
Proof.
  unfold extractMultisigScriptDetails. destruct (_ || _); [by intros [= <-]|].
  destruct (Next _) as [[m| | |] t]; try done. cbn [bindO]. destruct m; cbn [negb]; [|by intros [= <-]].
  destruct (Opcode t) as [o| | |]; try done. cbn [bindO]. destruct (isSmallInt o); cbn [negb]; [|by intros [= <-]].
  destruct (for_next _ _ t (0, [])) as [r| | |] eqn:Hr; try done.
  apply for_next_keys in Hr; [|done]. cbn [bindO].
  destruct r as [[[n ks] t']|[[n ks] t']]; (destruct (Done t'); [by intros [= <-]|]);
    destruct (Opcode t'); try done; cbn [bindO]; (destruct (_ || _); [by intros [= <-]|]);
    (destruct (negb _); [by intros [= <-]|]); by intros [= <-].
Qed.

Lemma class_first s : 
  (extractPubKeyHash s <> None -> extractPubKey s = None /\ extractScriptHash s = None)
  /\ (extractScriptHash s <> None -> extractPubKey s = None).
Proof.
  split.
  - destruct (extractPubKeyHash s) as [h|] eqn:E; [|done]. intros _. apply extractPubKeyHash_iff in E as [-> _].
    split; [|by apply not_p2sh]. destruct (extractPubKey _) as [k|] eqn:Ek; [|done].
    apply extractPubKey_iff in Ek as [Ek Hk]. exfalso. eapply (p2pk_head k _ Hk). left. by rewrite <- Ek.
  - destruct (extractScriptHash s) as [h|] eqn:E; [|done]. intros _. apply extractScriptHash_iff in E as [-> _].
    destruct (extractPubKey _) as [k|] eqn:Ek; [|done].
    apply extractPubKey_iff in Ek as [Ek Hk]. exfalso. eapply (p2pk_head k _ Hk). right. by rewrite <- Ek.
Qed.

(** The class of the addresses is the class of the script. *)
Lemma Extract_total s net : zlen s < 2 ^ 31 ->
  exists c l n, ExtractPkScriptAddrs s net = Ret (c, l, n) /\ typeOfScript s = Ret c /\ Forall (wf_address net) l
    /\ (c = PubKeyHashTy \/ c = ScriptHashTy -> n = 1 /\ exists a, l = [a] /\ s = address_script a /\ c = address_class a).
Proof.
  intros Hl. destruct (class_first s) as [H1 H2].
  unfold ExtractPkScriptAddrs, typeOfScript, isPubKeyScript, isPubKeyHashScript, isScriptHashScript, isMultisigScript.
  destruct (extractPubKeyHash s) as [h|] eqn:E1.
  { destruct H1 as [-> ->]; [done|]. apply extractPubKeyHash_iff in E1 as [-> Hh]. cbn [non_nil].
    unfold pubKeyHashToAddrs, NewAddressPubKeyHash.
    rewrite (okAddrs_liftA AddrPubKeyHash _ _ (proj1 (newAddress_ok h (PubKeyHashAddrID net) Hh))). cbn [bindO].
    eexists _, _, _. split_and!; [done|done|by repeat constructor|]. intros _. split; [done|]. eexists. by split_and!. }
  destruct (extractScriptHash s) as [h|] eqn:E2.
  { rewrite H2 by done. apply extractScriptHash_iff in E2 as [-> Hh]. cbn [non_nil].
    unfold scriptHashToAddrs, NewAddressScriptHashFromHash.
    rewrite (okAddrs_liftA AddrScriptHash _ _ (proj2 (newAddress_ok h (ScriptHashAddrID net) Hh))). cbn [bindO].
    eexists _, _, _. split_and!; [done|done|by repeat constructor|]. intros _. split; [done|]. eexists. by split_and!. }
  destruct (extractPubKey s) as [k|] eqn:E3; cbn [non_nil].
  { apply extractPubKey_iff in E3 as [-> Hk].
    destruct (okAddrs_key k net (strict_nonempty k Hk)) as (l & -> & _ & Hw). cbn [bindO].
    eexists _, _, _. split_and!; [done|done|done|]. by intros [?|?]. }
  destruct (multisig_flag s Hl) as (d1 & d2 & Ed1 & Ed2 & Hv & _). rewrite Ed1, Ed2. cbn [bindO]. rewrite <- Hv.
  destruct (valid d1).
  { destruct (pubKeysToAddrs_total (pubKeys d1) net (multisig_keys s d1 Ed1)) as (l & -> & _ & Hw). cbn [bindO].
    eexists _, _, _. split_and!; [done|done|done|]. by intros [?|?]. }
  destruct (nulldata_total s Hl) as (nd & -> & _). cbn [bindO].
  destruct nd; eexists _, _, _; (split_and!; [done|done|constructor|by intros [?|?]]).
Qed.
End scripts.

(** C27: scripts and addresses correspond: the script of an address of the network
    is recognized with that address alone and one signature; every script is
    classified as [typeOfScript] does, without a panic, with addresses of the
    network only; and a script with a hash address is the script of it. *)
Theorem address_script_exact `{C : Crypto} `{!CryptoLaws C} `{!KeyLaws C} (net : Params) (a : Address) (s : bytes) :
  wf_address net a -> zlen s < 2 ^ 31 ->
  (exists sa, PayToAddrScript (Some a) = Ret sa /\ ExtractPkScriptAddrs sa net = Ret (address_class a, [a], 1))
  /\ exists c l n, ExtractPkScriptAddrs s net = Ret (c, l, n) /\ typeOfScript s = Ret c
       /\ Forall (wf_address net) l
       /\ (c = PubKeyHashTy \/ c = ScriptHashTy ->
           exists a', l = [a'] /\ n = 1 /\ PayToAddrScript (Some a') = Ret s).
Proof.
  intros Ha Hs. split.
  - exists (address_script a). split; [by eapply PayToAddrScript_eq|by apply Extract_address].
  - destruct (Extract_total s net Hs) as (c & l & n & E & Ht & Hw & Hc). exists c, l, n. split_and!; try done.
    intros H. destruct (Hc H) as (-> & a' & -> & -> & _). exists a'. split_and!; [done|done|].
    inversion_clear Hw. by eapply PayToAddrScript_eq.
Qed.

Lemma address_script_exact_witness :
  let a := AddrPubKeyHash (H := toy) (mkAddressPubKeyHash (replicate 20 (z2b 5)) (z2b 7)) in
  exists sa, PayToAddrScript (H := toy) (Some a) = Ret sa
    /\ ExtractPkScriptAddrs (H := toy) sa MainNetParams = Ret (address_class a, [a], 1).
Proof.
  intros a. apply (address_script_exact (C := toy) MainNetParams a []); [done|reflexivity].
Defined.
