(* ===== verification/PkScript.v ===== *)
(** Locking scripts recovered from unlocking scripts: txscript/pkscript.go.

    A [PkScript] keeps the script in an array of 34 bytes, so that it can be the
    key of a map; its class tells how many of the bytes are the script. *)

From S2P Require Import Prelude Crypto Address WireCommon WireTx ScriptError ScriptNum Opcodes Tokenizer Script ScriptBuilder Standard SigCache Engine EngineInv EngineSafety EnginePay.

Notation MinSigLen := 8 (only parsing).
Notation minPubKeyHashSigScriptLen := (1 + MinSigLen + 1 + 1 + 33) (only parsing).
Notation maxPubKeyHashSigScriptLen := (1 + 72 + 1 + 1 + 33) (only parsing).
Notation compressedPubKeyLen := 33 (only parsing).
Notation pubKeyHashLen := 25 (only parsing).
Notation scriptHashLen := 23 (only parsing).
Notation maxLen := 34%nat (only parsing).

Inductive PkErr :=
  | ErrUnsupportedScriptType
  | ErrPkScript (e : ErrorCode)
  | ErrPkBuild (e : BuildErr).

(** [copy(dst[:], src)] into an array of zeros. *)
Definition copy_array (n : nat) (src : bytes) : bytes := take n (src ++ replicate n Byte.x00).

(** src/thoughtd/thtec/pubkey.go *)
Definition IsCompressedPubKey {E} (pubKey : bytes) : outcome E bool :=
  if zlen pubKey =? 33 then
    let! b := orCrash (znth pubKey 0) in
    Ret (Z.ldiff (b2z b) 0x1 =? 0x2)
  else Ret false.

Record PkScript := mkPkScript { pk_class : ScriptClass; pk_script : bytes }.

Definition isSupportedScriptType (class : ScriptClass) : bool :=
  match class with PubKeyHashTy | ScriptHashTy => true | _ => false end.

Definition PkScript_Script {E} (s : PkScript) : outcome E (option bytes) :=
  match pk_class s with
  | PubKeyHashTy => let! script := orCrash (zslice (pk_script s) 0 pubKeyHashLen) in Ret (Some script)
  | ScriptHashTy => let! script := orCrash (zslice (pk_script s) 0 scriptHashLen) in Ret (Some script)
  | _ => Ret None
  end.

(** The error of a call in the error type of the package. *)
Definition asPk {A} (o : outcome ErrorCode A) : outcome PkErr A :=
  match o with Ret a => Ret a | Fail e => Fail (ErrPkScript e) | Crash => Crash | NoFuel => NoFuel end.
Definition asPkBuild {A} (o : outcome BuildErr A) : outcome PkErr A :=
  match o with Ret a => Ret a | Fail e => Fail (ErrPkBuild e) | Crash => Crash | NoFuel => NoFuel end.

Section pkscript.
Context `{Crypto}.

Definition ParsePkScript (pkScript : bytes) : outcome PkErr PkScript :=
  let! (scriptClass, _, _) := asPk (ExtractPkScriptAddrs pkScript MainNetParams) in
  if negb (isSupportedScriptType scriptClass) then Fail ErrUnsupportedScriptType
  else Ret (mkPkScript scriptClass (copy_array maxLen pkScript)).

Definition PkScript_Address (s : PkScript) (chainParams : Params) : outcome PkErr Address :=
  let! script := PkScript_Script s in
  let! (_, addrs, _) := asPk (ExtractPkScriptAddrs (bytes_of script) chainParams) in
  orCrash (znth addrs 0).

Definition hash160 (data : bytes) : bytes := ripemd160 (sha256 data).

(** The last case, also reached by the [fallthrough]. *)
Definition computeScriptHash (sigScript : bytes) : outcome PkErr PkScript :=
  let! _ := asPk (checkScriptParses sigScript) in
  let! redeemScript := asPk (finalOpcodeData sigScript) in
  let scriptHash := hash160 (bytes_of redeemScript) in
  let! script := asPkBuild (payToScriptHashScript scriptHash) in
  Ret (mkPkScript ScriptHashTy (copy_array maxLen script)).

Definition computePkScript (sigScript : bytes) : outcome PkErr PkScript :=
  let! pushOnly := asPk (IsPushOnlyScript sigScript) in
  if negb pushOnly then Fail ErrUnsupportedScriptType
  else if (zlen sigScript >=? minPubKeyHashSigScriptLen) && (zlen sigScript <=? maxPubKeyHashSigScriptLen) then
    let! pubKey := orCrash (zslice sigScript (zlen sigScript - compressedPubKeyLen) (zlen sigScript)) in
    let! compressed := IsCompressedPubKey pubKey in
    if compressed then
      let pubKeyHash := hash160 pubKey in
      let! script := asPkBuild (payToPubKeyHashScript pubKeyHash) in
      Ret (mkPkScript PubKeyHashTy (copy_array maxLen script))
    else computeScriptHash sigScript
  else computeScriptHash sigScript.

Definition ComputePkScript (sigScript : bytes) : outcome PkErr PkScript :=
  if zlen sigScript >? 0 then computePkScript sigScript else Fail ErrUnsupportedScriptType.
End pkscript.

(** ** The script in the array *)

Lemma copy_array_prefix {E} n s : (length s <= n)%nat ->
  orCrash (E := E) (zslice (copy_array n s) 0 (zlen s)) = Ret s.
Proof.
  intros Hn. unfold copy_array.
  assert (zlen (take n (s ++ replicate n Byte.x00)) = Z.of_nat n) as Hl
    by (rewrite zlen_take, zlen_app, zlen_replicate; unfold zlen; lia).
  rewrite zslice_Some by (rewrite ?Hl; unfold zlen; lia). cbn [orCrash]. f_equal.
  rewrite Z.sub_0_r, zlen_to_nat. cbn [Z.to_nat]. rewrite drop_0, take_take, Nat.min_l by done.
  apply take_app_length.
Qed.

Lemma zlen_p2pkh h : zlen h = 20 -> zlen (p2pkh h) = 25.
Proof. intros Hh. unfold p2pkh. repeat rewrite ?zlen_cons, ?zlen_app. rewrite Hh. done. Qed.
Lemma zlen_p2sh h : zlen h = 20 -> zlen (p2sh h) = 23.
Proof. intros Hh. unfold p2sh. repeat rewrite ?zlen_cons, ?zlen_app. rewrite Hh. done. Qed.

Lemma PkScript_Script_p2pkh {E} h : zlen h = 20 ->
  PkScript_Script (E := E) (mkPkScript PubKeyHashTy (copy_array maxLen (p2pkh h))) = Ret (Some (p2pkh h)).
Proof.
  intros Hh. unfold PkScript_Script. cbn [pk_class pk_script]. rewrite <- (zlen_p2pkh h Hh).
  rewrite copy_array_prefix; [done|]. pose proof (zlen_p2pkh h Hh). unfold zlen in *. lia.
Qed.
Lemma PkScript_Script_p2sh {E} h : zlen h = 20 ->
  PkScript_Script (E := E) (mkPkScript ScriptHashTy (copy_array maxLen (p2sh h))) = Ret (Some (p2sh h)).
Proof.
  intros Hh. unfold PkScript_Script. cbn [pk_class pk_script]. rewrite <- (zlen_p2sh h Hh).
  rewrite copy_array_prefix; [done|]. pose proof (zlen_p2sh h Hh). unfold zlen in *. lia.
Qed.

Section pkscript_proofs.
#[local] Set Default Proof Using "Type*".
Context `{C : Crypto} `{!CryptoLaws C}.

Lemma computeScriptHash_eq s : zlen s < 2 ^ 31 -> parses s = true ->
  computeScriptHash s
  = Ret (mkPkScript ScriptHashTy (copy_array maxLen
      (p2sh (hash160 (bytes_of (match last (ops s) with Some p => p.2 | None => None end)))))).
Proof.
  intros Hs Hp. unfold computeScriptHash.
  rewrite checkScriptParses_spec, finalOpcodeData_spec, Hp by done. cbn [asPk bindO].
  by rewrite payToScriptHashScript_eq by apply ripemd160_len.
Qed.

(** The data of the last push, or the last 33 bytes of a script of suitable size
    that start like a compressed key. *)
Lemma ComputePkScript_eq s : zlen s < 2 ^ 31 ->
  ComputePkScript s
  = if negb (zlen s >? 0) || negb (forallb (fun p => value p.1 <=? OP_16) (ops s) && parses s)
    then Fail ErrUnsupportedScriptType
    else
      let key := drop (length s - 33) s in
      if (zlen s >=? 44) && (zlen s <=? 108)
         && match head key with Some b => Z.ldiff (b2z b) 0x1 =? 0x2 | None => false end
      then Ret (mkPkScript PubKeyHashTy (copy_array maxLen (p2pkh (hash160 key))))
      else Ret (mkPkScript ScriptHashTy (copy_array maxLen
             (p2sh (hash160 (bytes_of (match last (ops s) with Some p => p.2 | None => None end)))))).
Proof.
  intros Hs. unfold ComputePkScript, computePkScript.
  change (1 + MinSigLen + 1 + 1 + 33) with 44. change (1 + 72 + 1 + 1 + 33) with 108. destruct (zlen s >? 0); cbn [negb orb]; [|done].
  rewrite IsPushOnlyScript_spec by done. cbn [asPk bindO].
  destruct (forallb _ _); cbn [andb negb orb]; [|done]. destruct (parses s) eqn:Hp; cbn [andb negb orb]; [|done].
  destruct (Z.geb_spec (zlen s) 44), (Z.leb_spec (zlen s) 108); cbn [andb]; try by apply computeScriptHash_eq.
  rewrite zslice_Some by lia. cbn [orCrash bindO].
  rewrite take_ge by (rewrite length_drop; unfold zlen in *; lia).
  replace (Z.to_nat (zlen s - 33)) with (length s - 33)%nat by (unfold zlen; lia).
  cbv zeta. set (key := drop (length s - 33) s). assert (Hk : zlen key = 33) by (unfold key, zlen in *; rewrite length_drop; lia).
  unfold IsCompressedPubKey. rewrite Hk. cbn [Z.eqb]. destruct key as [|b key']; [done|].
  change (znth (b :: key') 0) with (Some b). cbn [orCrash bindO head Pos.eqb]. destruct (_ =? 0x2).
  - by rewrite payToPubKeyHashScript_eq by apply ripemd160_len.
  - by apply computeScriptHash_eq.
Qed.
End pkscript_proofs.

Lemma unlock_compressed sig pk : zlen pk = 33 ->
  drop (length (unlock sig pk) - 33) (unlock sig pk) = pk.
Proof.
  intros Hp. unfold unlock, direct_push. change (z2b (zlen pk) :: pk) with ([z2b (zlen pk)] ++ pk).
  rewrite app_assoc. set (front := _ ++ [_]).
  replace (length (front ++ pk) - 33)%nat with (length front) by (rewrite length_app; unfold zlen in Hp; lia).
  apply drop_app_length.
Qed.

(** A signature and a compressed key name the script of the key. *)
Lemma ComputePkScript_unlock `{C : Crypto} `{!CryptoLaws C} sig pk : 9 <= zlen sig <= 73 -> zlen pk = 33 -> (head pk = Some (z2b 2) \/ head pk = Some (z2b 3)) ->
  ComputePkScript (unlock sig pk) = Ret (mkPkScript PubKeyHashTy (copy_array maxLen (p2pkh (Hash160 pk)))).
Proof.
  intros Hs Hp Hhd. assert (Ds : direct_size sig) by (unfold direct_size; lia). assert (Dp : direct_size pk) by (unfold direct_size; lia).
  assert (Hl : zlen (unlock sig pk) = zlen sig + 35).
  { unfold unlock, direct_push. rewrite zlen_app, !zlen_cons. lia. }
  rewrite ComputePkScript_eq by lia. destruct (unlock_ops sig pk Ds Dp) as [-> ->].
  destruct (unparse_push sig Ds) as (_ & _ & V1), (unparse_push pk Dp) as (_ & _ & V2).
  rewrite Hl, unlock_compressed by done. cbn [forallb fst]. rewrite V1, V2. ztest. cbn [andb orb negb].
  replace (match head pk with Some b => Z.ldiff (b2z b) 0x1 =? 0x2 | None => false end) with true
    by (by destruct Hhd as [-> | ->]).
  cbv zeta. done.
Qed.
(** The locking script computed from an unlocking script is the one that was
    unlocked: whenever the engine accepts a signature and a compressed key for a
    pay-to-pubkey-hash script, [ComputePkScript] recovers that script from the
    unlocking script alone, and its address is the address of the key. *)
Theorem ComputePkScript_recovers `{C : Crypto} `{!CryptoLaws C} `{MapOrder}
    (fl : Z) (tx0 : MsgTx) (idx : Z) (ti : TxIn) (h sig pk : bytes) (net : Params) (vm : Engine) :
  9 <= zlen sig <= 73 -> zlen pk = 33 -> (head pk = Some (z2b 2) \/ head pk = Some (z2b 3)) ->
  zlen h = 20 -> Contains h sig = false ->
  znth (TxIns tx0) idx = Some ti -> SignatureScript ti = unlock sig pk ->
  NewEngine (p2pkh h) tx0 idx fl None = Ret vm -> (Execute vm).1 = Ret tt ->
  exists p, ComputePkScript (SignatureScript ti) = Ret p
    /\ PkScript_Script (E := PkErr) p = Ret (Some (p2pkh h))
    /\ PkScript_Address p net = Ret (AddrPubKeyHash (mkAddressPubKeyHash (Hash160 pk) (PubKeyHashAddrID net))).
Proof.
  intros Hs Hp Hhd Hh Hc Hti Hss Hn Hx.
  assert (Ds : direct_size sig) by (unfold direct_size; lia). assert (Dp : direct_size pk) by (unfold direct_size; lia).
  destruct (p2pkh_run fl tx0 idx h sig pk Ds Dp Hh Hc ti Hti Hss) as (vm' & Hn' & _ & _ & _ & He).
  rewrite Hn in Hn'. injection Hn' as <-. rewrite Hx in He. unfold p2pkh_verdict in He.
  case_bool_decide as Hk; [|done]. clear He Hx. rewrite Hss.
  exists (mkPkScript PubKeyHashTy (copy_array maxLen (p2pkh h))). split_and!.
  - rewrite ComputePkScript_unlock by done. unfold Hash160. by rewrite Hk.
  - by apply PkScript_Script_p2pkh.
  - unfold PkScript_Address. rewrite PkScript_Script_p2pkh by done. cbn [bindO bytes_of].
    unfold ExtractPkScriptAddrs. rewrite (proj2 (extractPubKeyHash_iff _ h)) by done.
    unfold pubKeyHashToAddrs, NewAddressPubKeyHash.
    rewrite (okAddrs_liftA AddrPubKeyHash _ _ (proj1 (newAddress_ok h (PubKeyHashAddrID net) Hh))).
    cbn [bindO asPk]. unfold Hash160. by rewrite Hk.
Qed.

Lemma ComputePkScript_recovers_witness :
  exists vm p, NewEngine (p2pkh toy_lock) (spend (unlock toy_sig toy_pk)) 0 0 None = Ret vm
    /\ ComputePkScript (H := toy) (unlock toy_sig toy_pk) = Ret p
    /\ PkScript_Script (E := PkErr) p = Ret (Some (p2pkh toy_lock)).
Proof.
  destruct (NewEngine (p2pkh toy_lock) (spend (unlock toy_sig toy_pk)) 0 0 None) as [vm|e| |] eqn:E;
    [|vm_compute in E; discriminate E..].
  destruct (ComputePkScript_recovers (C := toy) (H := toy_order) 0 (spend (unlock toy_sig toy_pk)) 0
    (mkTxIn (mkOutPoint (replicate 32 (z2b 7)) 0) (unlock toy_sig toy_pk) [] 0xffffffff)
    toy_lock toy_sig toy_pk MainNetParams vm) as (p & Hp & Hs & _).
  - split; vm_compute; discriminate.
  - reflexivity.
  - left. reflexivity.
  - reflexivity.
  - vm_compute. reflexivity.
  - reflexivity.
  - reflexivity.
  - exact E.
  - pose proof E as E'. vm_compute in E'. injection E' as <-. vm_compute. reflexivity.
  - exists vm, p. split_and!; [done|exact Hp|exact Hs].
Defined.
