(* ===== verification/Sign.v ===== *)
(** Building unlocking scripts: txscript/sign.go.

    The databases of keys and scripts are the interfaces [KeyDB] and [ScriptDB]:
    functions from an address, whose error is [None].  Private keys, signing and
    the serialization of signatures belong to the external curve package and are
    fields of [Crypto]. *)

From S2P Require Import Prelude Crypto Base58 Address WireCommon WireTx ScriptError ScriptNum Opcodes Tokenizer Script ScriptBuilder Standard Sighash SigParse SigCache Engine EngineInv EngineSafety EnginePay.

Inductive SignErr :=
  | SignScript (e : ErrorCode)
  | SignBuild (e : BuildErr)
  | SignKey
  | SignRedeem
  | SignNullData
  | SignUnknown.

Definition asSign {A} (o : outcome ErrorCode A) : outcome SignErr A :=
  match o with Ret a => Ret a | Fail e => Fail (SignScript e) | Crash => Crash | NoFuel => NoFuel end.
Definition asSignBuild {A} (o : outcome BuildErr A) : outcome SignErr A :=
  match o with Ret a => Ret a | Fail e => Fail (SignBuild e) | Crash => Crash | NoFuel => NoFuel end.

(** [script, _ := builder.Script()]: the script so far, its error dropped. *)
Definition buildAny {E} (m : BM unit) : outcome E bytes :=
  match m NewScriptBuilder with
  | (Ret _, b) => Ret (b_script b)
  | (NoFuel, _) => NoFuel
  | (_, _) => Crash
  end.

Section sign.
Context `{Crypto}.

Notation KeyDB := (Address -> option (PrivateKey * bool)) (only parsing).
Notation ScriptDB := (Address -> option bytes) (only parsing).

Definition RawTxInSignature (tx : MsgTx) (idx : Z) (subScript : bytes) (hashType : Z) (key : PrivateKey) :
    outcome ErrorCode bytes :=
  let! hash := CalcSignatureHash subScript hashType tx idx in
  let signature := SignHash key hash in
  Ret (SigSerialize signature ++ [z2b hashType]).

Definition SignatureScriptFor (tx : MsgTx) (idx : Z) (subscript : bytes) (hashType : Z) (privKey : PrivateKey)
    (compress : bool) : outcome SignErr bytes :=
  let! sig := asSign (RawTxInSignature tx idx subscript hashType privKey) in
  let pk := PubKey privKey in
  let pkData := if compress then SerializeCompressed pk else SerializeUncompressed pk in
  asSignBuild (build (AddData sig ;; AddData pkData)).

Definition p2pkSignatureScript (tx : MsgTx) (idx : Z) (subScript : bytes) (hashType : Z) (privKey : PrivateKey) :
    outcome SignErr bytes :=
  let! sig := asSign (RawTxInSignature tx idx subScript hashType privKey) in
  asSignBuild (build (AddData sig)).

(** The loop over the addresses; it stops at the required number. *)
Fixpoint signLoop (tx : MsgTx) (idx : Z) (subScript : bytes) (hashType : Z) (nRequired : Z) (kdb : KeyDB)
    (addresses : list Address) (signed : Z) : BM Z :=
  match addresses with
  | [] => retM signed
  | addr :: addresses =>
      match kdb addr with
      | None => signLoop tx idx subScript hashType nRequired kdb addresses signed
      | Some (key, _) =>
          match RawTxInSignature tx idx subScript hashType key with
          | Fail _ => signLoop tx idx subScript hashType nRequired kdb addresses signed
          | Ret sig =>
              AddData sig ;;
              let signed := signed + 1 in
              if signed =? nRequired then retM signed
              else signLoop tx idx subScript hashType nRequired kdb addresses signed
          | Crash | NoFuel => crashM
          end
      end
  end.

(** The number of signatures is only reported, so the script alone is returned
    with it by [sign]. *)
Definition signMultiSig (tx : MsgTx) (idx : Z) (subScript : bytes) (hashType : Z) (addresses : list Address)
    (nRequired : Z) (kdb : KeyDB) : outcome SignErr (bytes * bool) :=
  match (AddOp OP_FALSE ;; signLoop tx idx subScript hashType nRequired kdb addresses 0) NewScriptBuilder with
  | (Ret signed, b) => Ret (b_script b, signed =? nRequired)
  | (NoFuel, _) => NoFuel
  | (_, _) => Crash
  end.

Definition sign (chainParams : Params) (tx : MsgTx) (idx : Z) (subScript : bytes) (hashType : Z)
    (kdb : KeyDB) (sdb : ScriptDB) : outcome SignErr (bytes * ScriptClass * list Address * Z) :=
  let! (class, addresses, nrequired) := asSign (ExtractPkScriptAddrs subScript chainParams) in
  match class with
  | PubKeyTy =>
      let! addr := orCrash (znth addresses 0) in
      match kdb addr with
      | None => Fail SignKey
      | Some (key, _) =>
          let! script := p2pkSignatureScript tx idx subScript hashType key in
          Ret (script, class, addresses, nrequired)
      end
  | PubKeyHashTy =>
      let! addr := orCrash (znth addresses 0) in
      match kdb addr with
      | None => Fail SignKey
      | Some (key, compressed) =>
          let! script := SignatureScriptFor tx idx subScript hashType key compressed in
          Ret (script, class, addresses, nrequired)
      end
  | ScriptHashTy =>
      let! addr := orCrash (znth addresses 0) in
      match sdb addr with
      | None => Fail SignRedeem
      | Some script => Ret (script, class, addresses, nrequired)
      end
  | MultiSigTy =>
      let! (script, _) := signMultiSig tx idx subScript hashType addresses nrequired kdb in
      Ret (script, class, addresses, nrequired)
  | NullDataTy => Fail SignNullData
  | NonStandardTy => Fail SignUnknown
  end.

(** [extractSigs]: the pushes that are not empty, and whether the script parses. *)
Definition extractSigs {E} (script : bytes) (possibleSigs : list bytes) : outcome E (list bytes * bool) :=
  match for_next (R := unit) (tok_fuel script)
    (fun t sigs =>
       let data := bytes_of (Data t) in
       if negb (zlen data =? 0) then Ret (inl (sigs ++ [data])) else Ret (inl sigs))
    (MakeScriptTokenizer script) possibleSigs with
  | Ret (inl (sigs, t)) => Ret (sigs, no_err t)
  | Ret (inr _) | Fail _ | Crash => Crash
  | NoFuel => NoFuel
  end.

(** The first address whose key verifies the signature; another kind of address
    fails the type assertion. *)
Fixpoint matchAddr {E} (pSig : Signature) (hash : bytes) (addresses : list Address) : outcome E (option Address) :=
  match addresses with
  | [] => Ret None
  | AddrPubKey pkaddr :: rest =>
      if SigVerify pSig hash (pubKey pkaddr) then Ret (Some (AddrPubKey pkaddr))
      else matchAddr pSig hash rest
  | _ :: _ => Crash
  end.

(** One round of [sigLoop]. *)
Definition matchSig (tx : MsgTx) (idx : Z) (addresses : list Address) (pkScript sig : bytes)
    (addrToSig : gmap bytes bytes) : outcome SignErr (gmap bytes bytes) :=
  if zlen sig <? 1 then Ret addrToSig
  else
    let! tSig := orCrash (zslice sig 0 (zlen sig - 1)) in
    let! hashType := at_ sig (zlen sig - 1) in
    match ParseDERSignature tSig with
    | Fail _ => Ret addrToSig
    | Ret pSig =>
        let! hash := asSign (calcSignatureHash pkScript hashType tx idx) in
        let! found := matchAddr pSig hash addresses in
        match found with
        | None => Ret addrToSig
        | Some addr =>
            let! aStr := EncodeAddress addr in
            match addrToSig !! aStr with
            | Some _ => Ret addrToSig
            | None => Ret (<[aStr := sig]> addrToSig)
            end
        end
    | Crash => Crash
    | NoFuel => NoFuel
    end.

Fixpoint sigLoop (tx : MsgTx) (idx : Z) (addresses : list Address) (pkScript : bytes)
    (possibleSigs : list bytes) (addrToSig : gmap bytes bytes) : outcome SignErr (gmap bytes bytes) :=
  match possibleSigs with
  | [] => Ret addrToSig
  | sig :: possibleSigs =>
      let! addrToSig := matchSig tx idx addresses pkScript sig addrToSig in
      sigLoop tx idx addresses pkScript possibleSigs addrToSig
  end.

(** The loop that adds the signatures in the order of the addresses. *)
Fixpoint addSigs (nRequired : Z) (addrToSig : gmap bytes bytes) (addresses : list Address) (doneSigs : Z) : BM Z :=
  match addresses with
  | [] => retM doneSigs
  | addr :: addresses =>
      aStr <- liftO (EncodeAddress addr) ;;
      match addrToSig !! aStr with
      | None => addSigs nRequired addrToSig addresses doneSigs
      | Some sig =>
          AddData sig ;;
          let doneSigs := doneSigs + 1 in
          if doneSigs =? nRequired then retM doneSigs
          else addSigs nRequired addrToSig addresses doneSigs
      end
  end.

(** [for i := doneSigs; i < nRequired; i++ { builder.AddOp(OP_0) }] *)
Fixpoint padSigs (n : nat) : BM unit :=
  match n with O => retM tt | S n => AddOp OP_0 ;; padSigs n end.

Definition mergeMultiSig (tx : MsgTx) (idx : Z) (addresses : list Address) (nRequired : Z)
    (pkScript sigScript prevScript : bytes) : outcome SignErr bytes :=
  if zlen sigScript =? 0 then Ret prevScript
  else if zlen prevScript =? 0 then Ret sigScript
  else
    let! (possibleSigs, ok) := extractSigs sigScript [] in
    if negb ok then Ret prevScript
    else
      let! (possibleSigs, ok) := extractSigs prevScript possibleSigs in
      if negb ok then Ret sigScript
      else
        let! addrToSig := sigLoop tx idx addresses pkScript possibleSigs ∅ in
        buildAny (AddOp OP_FALSE ;;
                  doneSigs <- addSigs nRequired addrToSig addresses 0 ;;
                  padSigs (Z.to_nat (nRequired - doneSigs))).

(** [checkScriptParses(script) != nil] *)
Definition unparsable {E} (script : bytes) : outcome E bool :=
  match checkScriptParses script with
  | Ret _ => Ret false
  | Fail _ => Ret true
  | Crash => Crash
  | NoFuel => NoFuel
  end.

Fixpoint mergeScripts (fuel : nat) (chainParams : Params) (tx : MsgTx) (idx : Z) (pkScript : bytes)
    (class : ScriptClass) (addresses : list Address) (nRequired : Z) (sigScript prevScript : bytes) :
    outcome SignErr bytes :=
  match fuel with
  | O => NoFuel
  | S fuel =>
      match class with
      | ScriptHashTy =>
          let! bad := (if zlen sigScript =? 0 then Ret true else unparsable sigScript) in
          if bad then Ret prevScript
          else
            let! bad := (if zlen prevScript =? 0 then Ret true else unparsable prevScript) in
            if bad then Ret sigScript
            else
              let! script := asSign (finalOpcodeData sigScript) in
              let script := bytes_of script in
              let! (class, addresses, nrequired) := asSign (ExtractPkScriptAddrs script chainParams) in
              let! mergedScript :=
                mergeScripts fuel chainParams tx idx script class addresses nrequired sigScript prevScript in
              buildAny (AddOps mergedScript ;; AddData script)
      | MultiSigTy => mergeMultiSig tx idx addresses nRequired pkScript sigScript prevScript
      | _ => if zlen sigScript >? zlen prevScript then Ret sigScript else Ret prevScript
      end
  end.

Definition SignTxOutput (fuel : nat) (chainParams : Params) (tx : MsgTx) (idx : Z) (pkScript : bytes)
    (hashType : Z) (kdb : KeyDB) (sdb : ScriptDB) (previousScript : bytes) : outcome SignErr bytes :=
  let! (sigScript, class, addresses, nrequired) := sign chainParams tx idx pkScript hashType kdb sdb in
  let! sigScript :=
    match class with
    | ScriptHashTy =>
        let! (realSigScript, _, _, _) := sign chainParams tx idx sigScript hashType kdb sdb in
        buildAny (AddOps realSigScript ;; AddData sigScript)
    | _ => Ret sigScript
    end in
  mergeScripts fuel chainParams tx idx pkScript class addresses nrequired sigScript previousScript.
End sign.

(** ** Serialized signatures pass the checks *)

Lemma der_int_pos v : der_int v -> 1 <= zlen v.
Proof. destruct v; [done|]. intros _. rewrite zlen_cons. pose proof (zlen_nonneg v). lia. Qed.

Section der.
Context (r s : bytes) (Hr : der_int r) (Hs : der_int s) (Hr33 : zlen r <= 33) (Hs33 : zlen s <= 33).
#[local] Set Default Proof Using "Hr Hs Hr33 Hs33".

Definition der_head : bytes := [z2b 0x30; z2b (4 + zlen r + zlen s); z2b 0x02; z2b (zlen r)].

Lemma der_sig_split : der_sig r s = der_head ++ r ++ ([z2b 0x02; z2b (zlen s)] ++ s).
Proof using Type. reflexivity. Qed.

Lemma zlen_der_sig : zlen (der_sig r s) = 6 + zlen r + zlen s.
Proof using Type. rewrite der_sig_split, !zlen_app. change (zlen der_head) with 4. change (zlen [_; _]) with 2. lia. Qed.

Lemma der_sig_r : zslice (der_sig r s) 4 (4 + zlen r) = Some r.
Proof using Type.
  pose proof zlen_der_sig as Hl. pose proof (zlen_nonneg s). pose proof (zlen_nonneg r).
  rewrite zslice_Some by lia. f_equal. replace (Z.to_nat (4 + zlen r - 4)) with (length r) by (unfold zlen; lia).
  rewrite der_sig_split. change (Z.to_nat 4) with (length der_head). rewrite drop_app_length. apply take_app_length.
Qed.

Lemma der_sig_s : zslice (der_sig r s) (6 + zlen r) (6 + zlen r + zlen s) = Some s.
Proof using Type.
  pose proof zlen_der_sig as Hl. pose proof (zlen_nonneg s). pose proof (zlen_nonneg r).
  rewrite zslice_Some by lia. f_equal.
  replace (Z.to_nat (6 + zlen r + zlen s - (6 + zlen r))) with (length s) by (unfold zlen; lia).
  rewrite der_sig_split, (app_assoc r), (app_assoc der_head).
  replace (Z.to_nat (6 + zlen r)) with (length (der_head ++ r ++ [z2b 0x02; z2b (zlen s)]))
    by (rewrite !length_app; unfold zlen; cbn [length der_head]; lia).
  rewrite drop_app_length. by apply take_ge.
Qed.

Lemma der_sig_tail i : 0 <= i -> znth (der_sig r s) (4 + zlen r + i) = znth ([z2b 0x02; z2b (zlen s)] ++ s) i.
Proof using Type.
  intros Hi. pose proof (zlen_nonneg r). rewrite der_sig_split.
  rewrite !znth_app_r by (change (zlen der_head) with 4; lia). f_equal. change (zlen der_head) with 4. lia.
Qed.

Lemma der_sig_form : der_form (der_sig r s) (zlen r) (zlen s).
Proof.
  pose proof (der_int_pos r Hr). pose proof (der_int_pos s Hs).
  unfold der_form. rewrite zlen_der_sig. split_and!; try lia; try reflexivity.
  - rewrite der_sig_split. cbn [der_head app]. change (Some (z2b (4 + zlen r + zlen s)) = Some (z2b (6 + zlen r + zlen s - 2))).
    do 2 f_equal. lia.
  - rewrite <- (Z.add_0_r (4 + zlen r)), der_sig_tail by lia. done.
  - replace (5 + zlen r) with (4 + zlen r + 1) by lia. rewrite der_sig_tail by lia. done.
Qed.

Lemma der_int_form off v : zslice (der_sig r s) off (off + zlen v) = Some v -> der_int v ->
  int_form (der_sig r s) off (zlen v).
Proof.
  intros Hz Hv. destruct v as [|b v]; [done|]. pose proof (zlen_nonneg v).
  pose proof (znth_slice _ _ _ _ 0 Hz ltac:(rewrite zlen_cons; lia)) as H0. rewrite Z.add_0_r in H0.
  exists b. split; [by rewrite <- H0|]. destruct v as [|c v]; [split; [done|]; intros Hl; exfalso; revert Hl; by vm_compute|].
  destruct Hv as [Hb Hc]. split; [done|]. intros _ Hb0. exists c.
  pose proof (znth_slice _ _ _ _ 1 Hz ltac:(rewrite !zlen_cons in *; pose proof (zlen_nonneg v); lia)) as H1.
  split; [by rewrite <- H1|by apply Hc].
Qed.
End der.

(** ** A signed input is accepted *)

Lemma stripZeroes_eq b : stripZeroes b = drop_zeros b.
Proof. reflexivity. Qed.

Section accepted.
#[local] Set Default Proof Using "Type*".
Context `{C : Crypto} `{!CryptoLaws C} `{!KeyLaws C} `{!SignLaws C}.

Lemma parseScalar_int v sc : der_int v -> SetByteSlice (drop_zeros v) = (sc, false) -> IsZero sc = false ->
  zlen (drop_zeros v) <= 32 -> parseScalar true v = Ret sc.
Proof using Type.
  intros Hv Hs Hz Hl. unfold parseScalar.
  assert (canonicalPadding v = Ret None) as ->.
  { destruct v as [|b v]; [done|]. pose proof (b2z_range b). pose proof (zlen_nonneg v).
    apply (canonicalPadding_ok (b :: v) 0 (zlen (b :: v))); [rewrite zlen_cons; lia|rewrite Z.add_0_l; apply zslice_full|].
    exists b. split; [done|]. destruct v as [|c v]; [split; [done|]; intros Hl1; exfalso; revert Hl1; by vm_compute|].
    destruct Hv as [Hb Hc]. split; [done|]. intros _ Hb0. exists c. split; [done|by apply Hc]. }
  cbn [bindO]. cbv zeta. rewrite stripZeroes_eq, Hs, Hz. by ztest.
Qed.

(** The signature of a signer passes the engine's check and is parsed back. *)
Lemma signature_parsed key hash flags :
  let sb := SigSerialize (SignHash key hash) in
  8 <= zlen sb <= 72 /\ checkSignatureEncoding flags sb = Ret tt
  /\ ParseDERSignature sb = Ret (SignHash key hash) /\ ParseSignature sb = Ret (SignHash key hash).
Proof.
  destruct (sign_serialized key hash) as (r & s & sr & ss & -> & Hr & Hs & Hr33 & Hs33 & Hlow & Er & Zr & Lr & Es & Zs & Ls & En).
  cbv zeta. pose proof (der_sig_form r s Hr Hs Hr33 Hs33) as Hf. pose proof (der_sig_r r s) as Sr. pose proof (der_sig_s r s) as Ss.
  assert (HD : ParseDERSignature (der_sig r s) = Ret (SignHash key hash)).
  { rewrite (parseSig_der_form _ _ _ r s Hf Sr Ss), (parseScalar_int r sr) by done. cbn [bindO].
    rewrite (parseScalar_int s ss) by done. cbn [bindO]. by rewrite En. }
  split_and!; [apply Hf|apply Hf| |done|by apply parseSig_der].
  eapply (checkSignatureEncoding_complete flags _ (zlen r) (zlen s) s); [done| | |done|done].
  - by apply der_int_form.
  - by apply der_int_form.
Qed.

Definition key_bytes (key : PrivateKey) (compress : bool) : bytes :=
  if compress then SerializeCompressed (PubKey key) else SerializeUncompressed (PubKey key).

Lemma key_bytes_ok key compress :
  direct_size (key_bytes key compress) /\ ParsePubKey (key_bytes key compress) = Some (PubKey key)
  /\ forall flags, checkPubKeyEncoding flags (key_bytes key compress) = Ret tt.
Proof.
  destruct (signer_key key) as [b Hb]. unfold key_bytes, direct_size, checkPubKeyEncoding. destruct compress.
  - destruct (compressed_form b _ Hb) as (Hl & Hh & Hp). rewrite Hl. split_and!; [lia|lia|done|].
    intros flags. destruct (negb _); [done|]. destruct (SerializeCompressed _); [naive_solver|].
    by destruct Hh as [[= ->]|[= ->]].
  - destruct (uncompressed_form b _ Hb) as (Hl & Hh & Hp). rewrite Hl. split_and!; [lia|lia|done|].
    intros flags. destruct (negb _); [done|]. destruct (SerializeUncompressed _); [done|].
    by injection Hh as ->.
Qed.

(** The hash types of the standard. *)
Definition standard_hash_type (ht : Z) : Prop := In ht [0x01; 0x02; 0x03; 0x81; 0x82; 0x83].

Lemma hash_type_ok ht flags : standard_hash_type ht -> 0 <= ht < 256 /\ checkHashTypeEncoding flags ht = Ret tt.
Proof using Type.
  intros Hin. unfold checkHashTypeEncoding.
  repeat (destruct Hin as [<-|Hin]; [split; [lia|]; by destruct (negb _)|]). done.
Qed.

Lemma full_signature_parsed key hash ht vm : standard_hash_type ht ->
  forall compress,
  parseBaseSigAndPubkey (key_bytes key compress) (SigSerialize (SignHash key hash) ++ [z2b ht]) vm
  = Ret (PubKey key, SignHash key hash, ht).
Proof.
  intros Hht compress. destruct (hash_type_ok ht (flags vm) Hht) as [Hr Hc].
  destruct (signature_parsed key hash (flags vm)) as (_ & Hse & Hd & Hl).
  destruct (key_bytes_ok key compress) as (_ & Hp & Hpe).
  set (sb := SigSerialize (SignHash key hash)) in *. unfold parseBaseSigAndPubkey.
  assert (zlen (sb ++ [z2b ht]) - 1 = zlen sb) as -> by (rewrite zlen_app; change (zlen [z2b ht]) with 1; lia).
  rewrite (at_eq _ _ ht) by (apply znth_last || lia). cbn [bindO].
  assert (zslice (sb ++ [z2b ht]) 0 (zlen sb) = Some sb) as ->.
  { rewrite zslice_Some by (try apply zlen_nonneg; rewrite ?zlen_app; try lia; change (zlen [z2b ht]) with 1; lia).
    f_equal. rewrite Z.sub_0_r, zlen_to_nat. cbn [Z.to_nat]. rewrite drop_0. apply take_app_length. }
  cbn [orCrash bindO]. rewrite Hc, Hse, Hpe, Hp. cbn [asScript bindO].
  unfold parseSignatureFor. destruct (strictEncoding vm); [by rewrite Hd|by rewrite Hl].
Qed.

(** The builder of an unlocking script. *)
Lemma build_unlock sig pk : 9 <= zlen sig <= 73 -> direct_size pk ->
  build (AddData sig ;; AddData pk) = Ret (unlock sig pk).
Proof using Type.
  intros Hs Hk. unfold direct_size in Hk. unfold build, NewScriptBuilder.
  rewrite AddData_step by (unfold zlen in *; simpl; lia). rewrite push_bytes_direct by lia.
  rewrite AddData_appends by (cbn [b_err b_script]; try done; pose proof (canonicalDataSize_le pk);
    rewrite ?zlen_app, ?zlen_cons in *; change (zlen []) with 0 in *; lia).
  cbn [b_append b_err b_script]. rewrite push_bytes_direct by lia. done.
Qed.

(** The unlocking script of a key. *)
Lemma SignatureScriptFor_eq tx idx script ht key compress hash : standard_hash_type ht ->
  CalcSignatureHash script ht tx idx = Ret hash ->
  SignatureScriptFor tx idx script ht key compress
  = Ret (unlock (SigSerialize (SignHash key hash) ++ [z2b ht]) (key_bytes key compress)).
Proof.
  intros Hht Hh. unfold SignatureScriptFor, RawTxInSignature. rewrite Hh. cbn [bindO asSign].
  destruct (signature_parsed key hash 0) as (Hl & _). destruct (key_bytes_ok key compress) as (Hk & _).
  fold (key_bytes key compress). set (sig := SigSerialize (SignHash key hash) ++ [z2b ht]).
  assert (Hs : 9 <= zlen sig <= 73) by (unfold sig; rewrite zlen_app; change (zlen [z2b ht]) with 1; lia).
  by rewrite build_unlock.
Qed.

Lemma CalcSignatureHash_p2pkh h ht tx idx : zlen h = 20 ->
  CalcSignatureHash (p2pkh h) ht tx idx = calcSignatureHash (p2pkh h) ht tx idx.
Proof using Type.
  intros Hh. unfold CalcSignatureHash. rewrite checkScriptParses_spec by (unfold p2pkh; autorewrite with zlen; lia).
  by rewrite (proj2 (p2pkh_ops h Hh)).
Qed.

Lemma znth_unlock_with f tx idx ti : znth (TxIns tx) idx = Some ti ->
  znth (TxIns (unlock_with f tx)) idx
  = Some (mkTxIn (PreviousOutPoint ti) (f idx).1 (f idx).2 (Sequence ti)).
Proof using Type.
  intros Hz. pose proof (znth_Some _ _ _ Hz) as Hr. rewrite znth_lookup in Hz |- * by lia.
  unfold unlock_with, set_TxIns. cbn [TxIns]. rewrite lookup_zimap, Hz. cbn [fmap option_fmap option_map].
  by rewrite Z.add_0_l, Z2Nat.id by lia.
Qed.

(** Signing the output of a key hash whose key is known. *)
Lemma SignTxOutput_p2pkh net tx idx ht kdb sdb h key compress fuel :
  zlen h = 20 -> 0 <= idx < zlen (TxIns tx) -> standard_hash_type ht ->
  kdb (AddrPubKeyHash (mkAddressPubKeyHash h (PubKeyHashAddrID net))) = Some (key, compress) ->
  exists hash, calcSignatureHash (p2pkh h) ht tx idx = Ret hash
    /\ SignTxOutput (S fuel) net tx idx (p2pkh h) ht kdb sdb []
       = Ret (unlock (SigSerialize (SignHash key hash) ++ [z2b ht]) (key_bytes key compress)).
Proof.
  intros Hh Hi Hht Hk.
  destruct (calcSignatureHash_total (p2pkh h) ht tx idx) as (hash & Hhash & _);
    [unfold p2pkh; autorewrite with zlen; lia|done|].
  exists hash. split; [done|]. unfold SignTxOutput, sign, ExtractPkScriptAddrs.
  rewrite (proj2 (extractPubKeyHash_iff _ h)) by done. unfold pubKeyHashToAddrs, NewAddressPubKeyHash.
  rewrite (okAddrs_liftA AddrPubKeyHash _ _ (proj1 (newAddress_ok h (PubKeyHashAddrID net) Hh))).
  cbn [bindO asSign]. change (znth [?a] 0) with (Some a). cbn [orCrash bindO]. rewrite Hk.
  rewrite (SignatureScriptFor_eq _ _ _ _ _ _ hash) by (done || by rewrite CalcSignatureHash_p2pkh).
  cbn [bindO mergeScripts]. rewrite (proj2 (Z.gtb_lt _ _)); [done|]. change (zlen []) with 0.
  unfold unlock, direct_push at 1. cbn [app]. rewrite zlen_cons. match goal with |- context [zlen ?l] => pose proof (zlen_nonneg l) end. lia.
Qed.

(** An input that carries the signature of its hash by the key it pays to. *)
Lemma signed_input_accepted `{MapOrder} tx idx ht key compress hash f wit fl :
  let h := Hash160 (key_bytes key compress) in let sig := SigSerialize (SignHash key hash) ++ [z2b ht] in
  0 <= idx < zlen (TxIns tx) -> standard_hash_type ht -> calcSignatureHash (p2pkh h) ht tx idx = Ret hash ->
  Contains h sig = false -> f idx = (unlock sig (key_bytes key compress), wit) ->
  exists vm, NewEngine (p2pkh h) (unlock_with f tx) idx fl None = Ret vm /\ (Execute vm).1 = Ret tt.
Proof.
  intros h sig Hi Hht Hhash Hc Hf. assert (Hh : zlen h = 20) by apply ripemd160_len.
  destruct (znth_is_Some (TxIns tx) idx Hi) as [ti Hti]. apply (znth_unlock_with f) in Hti. rewrite Hf in Hti. cbn [fst snd] in Hti.
  destruct (key_bytes_ok key compress) as (Hkd & _). destruct (signature_parsed key hash 0) as (Hl & _).
  destruct (p2pkh_run fl (unlock_with f tx) idx h sig (key_bytes key compress)) with
    (ti := mkTxIn (PreviousOutPoint ti) (unlock sig (key_bytes key compress)) wit (Sequence ti))
    as (vm & Hn & _ & Et & Ei & He); [|done|done|done|done|done|].
  { unfold direct_size, sig. rewrite zlen_app. change (zlen [z2b ht]) with 1. lia. }
  exists vm. split; [done|]. rewrite He. unfold p2pkh_verdict, checksig_verdict.
  rewrite bool_decide_eq_true_2 by done. cbn [negb]. unfold sig. rewrite full_signature_parsed by done.
  rewrite Et, Ei, calcSignatureHash_unlock, Hhash. cbn [bindO]. by rewrite sign_verifies.
Qed.
End accepted.

(** C25: what is signed is accepted: for every output that pays to the hash of a
    key of the database, in compressed or uncompressed form, [SignTxOutput] ends
    with a script, and the engine accepts the input with that script, under every
    set of flags and whatever the other inputs carry by then. *)
Theorem SignTxOutput_accepted `{C : Crypto} `{!CryptoLaws C} `{!KeyLaws C} `{!SignLaws C} `{MapOrder}
    (net : Params) (tx : MsgTx) (idx ht : Z) (kdb : Address -> option (PrivateKey * bool))
    (sdb : Address -> option bytes) (key : PrivateKey) (compress : bool) (fuel : nat) :
  let h := Hash160 (key_bytes key compress) in
  kdb (AddrPubKeyHash (mkAddressPubKeyHash h (PubKeyHashAddrID net))) = Some (key, compress) ->
  0 <= idx < zlen (TxIns tx) -> standard_hash_type ht ->
  (forall hash, calcSignatureHash (p2pkh h) ht tx idx = Ret hash ->
     Contains h (SigSerialize (SignHash key hash) ++ [z2b ht]) = false) ->
  exists script, SignTxOutput (S fuel) net tx idx (p2pkh h) ht kdb sdb [] = Ret script
    /\ forall f wit fl, f idx = (script, wit) ->
       exists vm, NewEngine (p2pkh h) (unlock_with f tx) idx fl None = Ret vm /\ (Execute vm).1 = Ret tt.
Proof.
  intros h Hk Hi Hht Hc. assert (Hh : zlen h = 20) by apply ripemd160_len.
  destruct (SignTxOutput_p2pkh net tx idx ht kdb sdb h key compress fuel Hh Hi Hht Hk) as (hash & Hhash & Hs).
  eexists. split; [exact Hs|]. intros f wit fl Hf. eapply signed_input_accepted; try done. by apply Hc.
Qed.

(** A transaction of two inputs, of which the second is signed. *)
Definition unsigned_tx : MsgTx :=
  mkMsgTx 3 [mkTxIn (mkOutPoint (replicate 32 (z2b 7)) 0) [] [] 0xffffffff;
             mkTxIn (mkOutPoint (replicate 32 (z2b 8)) 1) [] [] 0xffffffff]
    [mkTxOut 5000 (p2pkh (replicate 20 (z2b 4)))] 0.

Lemma SignTxOutput_accepted_witness :
  exists script, SignTxOutput (H := toy) 1 MainNetParams unsigned_tx 1
      (p2pkh (Hash160 (H := toy) (key_bytes (C := toy) 5 false))) 0x01 (fun _ => Some (5, false)) (fun _ => None) [] = Ret script
    /\ exists vm, NewEngine (p2pkh (Hash160 (H := toy) (key_bytes (C := toy) 5 false)))
         (unlock_with (fun _ => (script, [])) unsigned_tx) 1 StandardVerifyFlags None = Ret vm
         /\ (Execute (H := toy) (H0 := toy_order) vm).1 = Ret tt.
Proof.
  destruct (SignTxOutput_accepted (C := toy) (H := toy_order) MainNetParams unsigned_tx 1 0x01
    (fun _ => Some (5, false)) (fun _ => None) 5 false 0) as (script & Hs & Hx).
  - reflexivity.
  - split; vm_compute; congruence.
  - left. reflexivity.
  - intros hash Hh. vm_compute in Hh. injection Hh as <-. vm_compute. reflexivity.
  - exists script. split; [exact Hs|]. by apply (Hx _ []).
Defined.

(** ** Nested script hashes *)

Section nested.
Context `{C : Crypto}.

(** The recursion of [mergeScripts] passes the same scripts on: when the redeem
    script is a script hash itself, it asks for the same merge again. *)
Lemma mergeScripts_nested fuel net tx idx sigScript prevScript h :
  zlen h = 20 -> zlen sigScript < 2 ^ 31 -> zlen prevScript < 2 ^ 31 ->
  sigScript <> [] -> parses sigScript = true -> prevScript <> [] -> parses prevScript = true ->
  (exists o, last (ops sigScript) = Some (o, Some (p2sh h))) ->
  forall pkScript addresses nRequired,
  mergeScripts fuel net tx idx pkScript ScriptHashTy addresses nRequired sigScript prevScript = NoFuel.
Proof.
  intros Hh Hl1 Hl2 Hn1 Hp1 Hn2 Hp2 [o Ho]. induction fuel as [|fuel IH]; intros pk addrs n; [done|].
  cbn [mergeScripts].
  assert (forall s, s <> [] -> zlen s < 2 ^ 31 -> parses s = true ->
    (if zlen s =? 0 then Ret (E := SignErr) true else unparsable s) = Ret false) as Hok.
  { intros s Hn Hl Hp. rewrite (proj2 (Z.eqb_neq _ _)) by (intros E; by apply zlen_0_inv in E).
    unfold unparsable. by rewrite checkScriptParses_spec, Hp. }
  rewrite !Hok by done. cbn [bindO]. rewrite finalOpcodeData_spec, Hp1, Ho by done. cbn [asSign bindO bytes_of snd].
  unfold ExtractPkScriptAddrs. rewrite not_p2pkh by done. rewrite (proj2 (extractScriptHash_iff _ h)) by done.
  unfold scriptHashToAddrs, NewAddressScriptHashFromHash, newAddressScriptHashFromHash. rewrite Hh.
  cbn [Z.eqb Pos.eqb negb liftA okAddrs bindO asSign]. by rewrite IH.
Qed.
End nested.
