(* ===== verification/Coins.v ===== *)
(** Identifiers of coins and addresses of scripts: thought/utils.go, and
    [CoinIdentifier] and [TransactionHash] of thought/types.go.

    A coin is named by the hash of its transaction and the index of the output,
    as the text [hash:index]. *)

From S2P Require Import Prelude Digits Hash Crypto Utf8 Base58 ScriptError ScriptNum Opcodes Tokenizer Script ScriptBuilder Standard Address.

Notation TransactionHashLength := 64 (only parsing).

(** [strings.Split(s, ":")] *)
Fixpoint Split (s : bytes) : list bytes :=
  match s with
  | [] => [[]]
  | c :: s =>
      if b2z c =? 58 then [] :: Split s
      else match Split s with v :: vs => (c :: v) :: vs | [] => [[c]] end
  end.

Definition CoinIdentifier (hash : bytes) (vout : Z) : bytes := hash ++ str ":" ++ FormatInt vout.

Definition TransactionHash {E} (identifier : bytes) : outcome E bytes :=
  let vals := Split identifier in
  orCrash (znth vals 0).

Inductive CoinErr :=
  | ErrOutpointHashLength
  | ErrOutpointHash (e : HashErr)
  | ErrOutpointIndex (e : NumError).
#[export] Instance CoinErr_eq_dec : EqDecision CoinErr.
Proof. solve_decision. Defined.

Definition ParseCoinIdentifier (identifier : bytes) : outcome CoinErr (bytes * Z) :=
  let utxoSpent := Split identifier in
  let! outpointHash := orCrash (znth utxoSpent 0) in
  if negb (zlen outpointHash =? TransactionHashLength) then Fail ErrOutpointHashLength
  else
    match NewHashFromStr outpointHash with
    | Ret hash =>
        let! text := orCrash (znth utxoSpent 1) in
        match ParseUint text 32 with
        | Ret outpointIndex => Ret (hash, u32 outpointIndex)
        | Fail e => Fail (ErrOutpointIndex e)
        | Crash => Crash
        | NoFuel => NoFuel
        end
    | Fail e => Fail (ErrOutpointHash e)
    | Crash => Crash
    | NoFuel => NoFuel
    end.

Inductive SingleErr :=
  | ErrExtract (e : ErrorCode)
  | ErrAddressCount (n : Z).

Definition ParseSingleAddress `{Crypto} (chainParams : Params) (script : bytes) :
    outcome SingleErr (ScriptClass * Address) :=
  match ExtractPkScriptAddrs script chainParams with
  | Ret (class, addresses, nRequired) =>
      if negb (nRequired =? 1) then Fail (ErrAddressCount nRequired)
      else
        let! address := orCrash (znth addresses 0) in
        Ret (class, address)
  | Fail e => Fail (ErrExtract e)
  | Crash => Crash
  | NoFuel => NoFuel
  end.

Example coin_examples :
  Split (str "ab:c:") = [str "ab"; str "c"; []]
  /\ ParseCoinIdentifier (CoinIdentifier (replicate 64 (z2b 97)) 7) = Ret (replicate 32 (z2b 0xAA), 7)
  /\ ParseCoinIdentifier (str "abc:0") = Fail ErrOutpointHashLength.
Proof. split_and!; vm_compute; reflexivity. Qed.

(** ** Identifiers *)

Definition no_colon (s : bytes) : Prop := Forall (fun c => b2z c <> 58) s.

Lemma Split_no_colon s : no_colon s -> Split s = [s].
Proof.
  induction 1 as [|c s Hc Hs IH]; [done|]. cbn [Split]. rewrite (proj2 (Z.eqb_neq _ _)) by done. by rewrite IH.
Qed.

Lemma Split_app s t : no_colon s -> Split (s ++ str ":" ++ t) = s :: Split t.
Proof.
  induction 1 as [|c s Hc Hs IH]; [done|]. cbn [app Split]. rewrite (proj2 (Z.eqb_neq _ _)) by done. by rewrite IH.
Qed.

Lemma Split_head s : exists v vs, Split s = v :: vs /\ no_colon v /\ (vs = [] <-> no_colon s) /\ (vs = [] -> v = s).
Proof.
  induction s as [|c s (v & vs & E & Hv & Hc & Hs)]; [by exists [], []; repeat split; try constructor|]. cbn [Split].
  destruct (Z.eqb_spec (b2z c) 58) as [Hc58|Hc58]; rewrite E.
  - exists [], (v :: vs). split; [done|]. split; [constructor|]. split; [|done]. split; [done|by inversion 1].
  - exists (c :: v), vs. split; [done|]. split; [by constructor|]. split; [|intros Hvs; by rewrite Hs].
    rewrite Hc. split; [by constructor|by inversion 1].
Qed.

Lemma hex_no_colon b : no_colon (EncodeToString b).
Proof.
  induction b as [|x b IH]; [constructor|]. cbn [EncodeToString]. apply Forall_app. split; [|exact IH].
  assert (forall d, 0 <= d < 16 -> b2z (hexChar d) <> 58) as Hd.
  { intros d Hd. unfold hexChar. rewrite b2z_z2b. destruct (Z.ltb_spec d 10); rewrite Z.mod_small by lia; lia. }
  destruct (b2z_nibbles x). by repeat constructor; apply Hd.
Qed.

Lemma FormatInt_no_colon x : 0 <= x -> no_colon (FormatInt x).
Proof. intros Hx. eapply Forall_impl; [by apply FormatInt_chars|]. intros c Hc. cbn beta in Hc. lia. Qed.

Lemma Split_CoinIdentifier h i : no_colon h -> 0 <= i -> Split (CoinIdentifier h i) = [h; FormatInt i].
Proof.
  intros Hh Hi. unfold CoinIdentifier. rewrite Split_app by done. f_equal. by apply Split_no_colon, FormatInt_no_colon.
Qed.

Lemma ParseCoinIdentifier_eq h i : zlen h = 32 -> 0 <= i < 2 ^ 32 ->
  ParseCoinIdentifier (CoinIdentifier (Hash_String h) i) = Ret (h, i).
Proof.
  intros Hh Hi. unfold ParseCoinIdentifier. rewrite Split_CoinIdentifier by (apply hex_no_colon || lia).
  change (znth [?a; ?b] 0) with (Some a). change (znth [?a; ?b] 1) with (Some b). cbn [orCrash bindO].
  assert (zlen (Hash_String h) = 64) as -> by (unfold Hash_String; rewrite zlen_EncodeToString, zlen_rev; lia).
  cbn [Z.eqb Pos.eqb negb]. rewrite NewHashFromStr_String by done. cbn [orCrash bindO].
  rewrite ParseUint_FormatInt by lia. by rewrite u32_id.
Qed.

(** The identifier of a coin names the output and nothing else: it is read
    back as the hash and the index it was made from, its transaction is the text
    of that hash, and two outputs have different identifiers. *)
Theorem CoinIdentifier_exact (h h' : bytes) (i i' : Z) :
  zlen h = 32 -> zlen h' = 32 -> 0 <= i < 2 ^ 32 -> 0 <= i' < 2 ^ 32 ->
  ParseCoinIdentifier (CoinIdentifier (Hash_String h) i) = Ret (h, i)
  /\ TransactionHash (E := CoinErr) (CoinIdentifier (Hash_String h) i) = Ret (Hash_String h)
  /\ (CoinIdentifier (Hash_String h) i = CoinIdentifier (Hash_String h') i' -> h = h' /\ i = i').
Proof.
  intros Hh Hh' Hi Hi'. pose proof (ParseCoinIdentifier_eq h i Hh Hi) as H1.
  pose proof (ParseCoinIdentifier_eq h' i' Hh' Hi') as H2. split_and!; [done| |].
  - unfold TransactionHash. by rewrite Split_CoinIdentifier by (apply hex_no_colon || lia).
  - intros E. rewrite E in H1. rewrite H1 in H2. by injection H2.
Qed.

Lemma CoinIdentifier_exact_witness :
  let h := replicate 32 (z2b 0xAB) in
  ParseCoinIdentifier (CoinIdentifier (Hash_String h) 3) = Ret (h, 3).
Proof.
  apply (CoinIdentifier_exact (replicate 32 (z2b 0xAB)) (replicate 32 (z2b 0)) 3 0);
    first [reflexivity | split; vm_compute; congruence].
Defined.

Lemma ParseCoinIdentifier_total s :
  match ParseCoinIdentifier s with
  | Ret (h, i) => zlen h = 32 /\ 0 <= i < 2 ^ 32
  | Fail _ => True
  | Crash => no_colon s /\ zlen s = 64 /\ exists h, NewHashFromStr s = Ret h
  | NoFuel => False
  end.
Proof.
  destruct (Split_head s) as (v & vs & E & Hv & Hc & Hs). unfold ParseCoinIdentifier. rewrite E.
  change (znth (v :: vs) 0) with (Some v). cbn [orCrash bindO].
  destruct (Z.eqb_spec (zlen v) 64) as [Hl|]; cbn [negb]; [|done].
  pose proof (NewHashFromStr_total v) as Ht. destruct (NewHashFromStr v) as [h|e| |] eqn:Hn; try done.
  destruct vs as [|w ws]; [rewrite <- Hs by done; split_and!; [done|done|eauto]|].
  change (znth (v :: w :: ws) 1) with (Some w). cbn [orCrash bindO].
  unfold ParseUint. destruct (zlen w =? 0); [done|].
  pose proof (parseDigits_total (2 ^ 32 - 1) w 0) as Hp.
  destruct (parseDigits _ w 0) as [x|e| |] eqn:Hd; try done. apply parseDigits_range in Hd; [|lia].
  rewrite u32_id by lia. split; [done|lia].
Qed.

(** Reading an identifier panics exactly when it is a hash of 64 hexadecimal
    digits without an index; otherwise it returns a hash of 32 bytes with an index
    of 32 bits, or an error. *)
Theorem ParseCoinIdentifier_panics_iff (s : bytes) :
  match ParseCoinIdentifier s with
  | Ret (h, i) => zlen h = 32 /\ 0 <= i < 2 ^ 32
  | Fail _ => True
  | Crash => no_colon s /\ zlen s = 64 /\ exists h, NewHashFromStr s = Ret h
  | NoFuel => False
  end
  /\ (no_colon s -> zlen s = 64 -> (exists h, NewHashFromStr s = Ret h) -> ParseCoinIdentifier s = Crash).
Proof.
  split; [apply ParseCoinIdentifier_total|]. intros Hn Hl [h Hh].
  destruct (Split_head s) as (v & vs & E & Hv & Hc & Hs). unfold ParseCoinIdentifier. rewrite E.
  change (znth (v :: vs) 0) with (Some v). cbn [orCrash bindO].
  assert (vs = []) as -> by (by apply Hc). rewrite Hs by done. rewrite Hl. cbn [Z.eqb Pos.eqb negb]. by rewrite Hh.
Qed.

Lemma ParseCoinIdentifier_panics_iff_witness : ParseCoinIdentifier (replicate 64 (z2b 97)) = Crash.
Proof.
  apply (ParseCoinIdentifier_panics_iff (replicate 64 (z2b 97))).
  - vm_compute. repeat constructor; discriminate.
  - reflexivity.
  - eexists. vm_compute. reflexivity.
Defined.
