(* ===== verification/Float64.v ===== *)
(** The type float64 of Go: IEEE 754 binary64 numbers with rounding to nearest,
    ties to even, on the specification of the Standard Library.

    Every operation is rounded on its own, as on amd64; Go allows a compiler to
    fuse a product with a sum on other machines.  The second part bounds the error
    of a rounded operation: at most one part in 2^53 of the exact result. *)

From S2P Require Import Prelude.
From Stdlib Require Import Floats.SpecFloat.

Notation float64 := spec_float.
Notation prec := 53 (only parsing).
Notation emax := 1024 (only parsing).

Definition fadd (x y : float64) : float64 := SFadd prec emax x y.
Definition fsub (x y : float64) : float64 := SFsub prec emax x y.
Definition fmul (x y : float64) : float64 := SFmul prec emax x y.
Definition fdiv (x y : float64) : float64 := SFdiv prec emax x y.
Definition flt (x y : float64) : bool := SFltb x y.
Definition IsNaN (x : float64) : bool := match x with S754_nan => true | _ => false end.
Definition IsInf (x : float64) (sign : Z) : bool :=
  match x with S754_infinity s => if s then sign <=? 0 else sign >=? 0 | _ => false end.

(** [float64(z)] of an integer [z]. *)
Definition of_int64 (z : Z) : float64 := binary_normalize prec emax z 0 false.

(** [int64(f)] truncates; a number that does not fit gives a value the language
    leaves to the machine. *)
Class FloatConv := { int64_overflow : float64 -> Z }.

Definition trunc (x : float64) : option Z :=
  match x with
  | S754_zero _ => Some 0
  | S754_finite s m e => Some ((if s then Z.opp else id) (Z.shiftl (Zpos m) e))
  | _ => None
  end.

Definition to_int64 `{FloatConv} (x : float64) : Z :=
  match trunc x with
  | Some v => if (- 2 ^ 63 <=? v) && (v <? 2 ^ 63) then v else i64 (int64_overflow x)
  | None => i64 (int64_overflow x)
  end.

(** amd64 gives the least integer. *)
#[export] Instance amd64_conv : FloatConv := { int64_overflow := fun _ => - 2 ^ 63 }.

Example float_examples :
  fdiv (of_int64 1) (of_int64 100000000) = S754_finite false 6044629098073146 (-79)
  /\ to_int64 (fmul (of_int64 3) (fdiv (of_int64 1) (of_int64 2))) = 1
  /\ to_int64 (S754_finite true 1 70) = - 2 ^ 63.
Proof. split_and!; vm_compute; reflexivity. Qed.

(** ** Digits *)

Lemma digits2_pos_bounds m : 2 ^ (Zpos (digits2_pos m) - 1) <= Zpos m < 2 ^ Zpos (digits2_pos m).
Proof.
  assert (Hs : forall p q, q = 2 * Zpos p \/ q = 2 * Zpos p + 1 ->
    2 ^ (Zpos (digits2_pos p) - 1) <= Zpos p < 2 ^ Zpos (digits2_pos p) ->
    2 ^ (Zpos (Pos.succ (digits2_pos p)) - 1) <= q < 2 ^ Zpos (Pos.succ (digits2_pos p))).
  { intros p q Hq Hp. rewrite Pos2Z.inj_succ. replace (Z.succ _ - 1) with (Z.succ (Zpos (digits2_pos p) - 1)) by lia.
    rewrite !Z.pow_succ_r by lia. lia. }
  induction m as [m IH|m IH|]; [apply (Hs m); [lia|done]..|done].
Qed.

Lemma Zdigits2_bounds z : 0 < z -> 2 ^ (Zdigits2 z - 1) <= z < 2 ^ Zdigits2 z.
Proof. destruct z as [|p|p]; try lia. intros _. apply digits2_pos_bounds. Qed.

Lemma Zdigits2_pos z : 0 < z -> 0 < Zdigits2 z.
Proof. destruct z; try lia. done. Qed.

Lemma Zdigits2_le z k : 0 < z < 2 ^ k -> Zdigits2 z <= k.
Proof.
  intros Hz. pose proof (Zdigits2_bounds z ltac:(lia)). pose proof (Zdigits2_pos z ltac:(lia)).
  destruct (Z.le_gt_cases (Zdigits2 z) k); [done|]. exfalso.
  pose proof (Z.pow_le_mono_r 2 k (Zdigits2 z - 1)). lia.
Qed.

Lemma Zdigits2_ge z k : 0 <= k -> 2 ^ k <= z -> k < Zdigits2 z.
Proof.
  intros Hk Hz. pose proof (Z.pow_pos_nonneg 2 k). pose proof (Zdigits2_bounds z ltac:(lia)).
  destruct (Z.le_gt_cases (Zdigits2 z) k); [|done]. exfalso.
  pose proof (Z.pow_le_mono_r 2 (Zdigits2 z) k). lia.
Qed.

(** ** Rounding

    [located m l N D]: the rational [N / D] lies at [m] plus the fraction that [l]
    tells. *)

Definition located (m : Z) (l : location) (N D : Z) : Prop :=
  match l with
  | loc_Exact => N = m * D
  | loc_Inexact Lt => m * D < N /\ 2 * N < (2 * m + 1) * D
  | loc_Inexact Eq => 2 * N = (2 * m + 1) * D
  | loc_Inexact Gt => (2 * m + 1) * D < 2 * N /\ N < (m + 1) * D
  end.

#[export] Instance location_eq_dec : EqDecision location.
Proof. solve_decision. Defined.

Definition located_rec (r : shr_record) : Z -> Z -> Prop := located (shr_m r) (loc_of_shr_record r).

Lemma located_of_loc m l N D : located m l N D -> located_rec (shr_record_of_loc m l) N D.
Proof. by destruct l as [|[]]. Qed.

Lemma shr_1_located r N D : 0 <= shr_m r -> 0 < D -> located_rec r N D ->
  0 <= shr_m (shr_1 r) /\ located_rec (shr_1 r) N (2 * D) /\ shr_m (shr_1 r) = shr_m r / 2.
Proof.
  destruct r as [m b s]. cbn [shr_m]. intros Hm HD Hl.
  assert (Hh : m = 2 * (m / 2) + m mod 2) by (apply Z.div_mod; lia).
  assert (shr_1 {| shr_m := m; shr_r := b; shr_s := s |} =
    {| shr_m := m / 2; shr_r := m mod 2 =? 1; shr_s := b || s |}) as ->.
  { rewrite <- Z.div2_div, Zmod_odd. by destruct m as [|[]|]. }
  cbn [shr_m]. split; [by apply Z.div_pos|]. split; [|done].
  assert (m mod 2 = 0 \/ m mod 2 = 1) as [Hr|Hr] by (pose proof (Z.mod_pos_bound m 2); lia); rewrite Hr in Hh |- *; cbn [Z.eqb Pos.eqb];
    set (q := m / 2) in *; clearbody q; subst m; unfold located_rec in *; cbn [shr_m] in *;
    destruct b, s; cbn [orb loc_of_shr_record located] in *; nia.
Qed.

Lemma shr_located r e n N D : 0 <= shr_m r -> 0 < D -> 0 <= n -> located_rec r N D ->
  exists r', shr r e n = (r', e + n) /\ 0 <= shr_m r' /\ located_rec r' N (2 ^ n * D) /\ shr_m r' = shr_m r / 2 ^ n.
Proof.
  intros Hm HD Hn Hl. destruct n as [|p|p]; [|clear Hn|lia].
  { exists r. rewrite Z.add_0_r. change (2 ^ 0) with 1. by rewrite Z.mul_1_l, Z.div_1_r. }
  cbn [shr]. exists (iter_pos shr_1 p r). split; [done|].
  revert r D Hm HD Hl. induction p as [p IH|p IH|]; intros r D Hm HD Hl; cbn [iter_pos].
  - destruct (shr_1_located r N D Hm HD Hl) as (H1 & H2 & H3).
    destruct (IH (shr_1 r) (2 * D)) as (H4 & H5 & H6); [done|lia|done|].
    destruct (IH (iter_pos shr_1 p (shr_1 r)) (2 ^ Zpos p * (2 * D))) as (H7 & H8 & H9);
      [done|pose proof (Z.pow_pos_nonneg 2 (Zpos p)); lia|done|].
    rewrite (Pos2Z.inj_xI p), Z.pow_add_r, Z.pow_twice_r by lia. split; [done|]. split; [by replace (_ * D) with (2 ^ Zpos p * (2 ^ Zpos p * (2 * D))) by ring|].
    rewrite H9, H6, H3, !Z.div_div by (lia || apply Z.pow_nonzero; lia). f_equal. ring.
  - destruct (IH r D) as (H4 & H5 & H6); [done..|].
    destruct (IH (iter_pos shr_1 p r) (2 ^ Zpos p * D)) as (H7 & H8 & H9);
      [done|pose proof (Z.pow_pos_nonneg 2 (Zpos p)); lia|done|].
    rewrite (Pos2Z.inj_xO p), Z.pow_twice_r. split; [done|].
    split; [by replace (_ * D) with (2 ^ Zpos p * (2 ^ Zpos p * D)) by ring|].
    rewrite H9, H6, !Z.div_div by (lia || apply Z.pow_pos_nonneg; lia). done.
  - by apply shr_1_located.
Qed.

Lemma round_nearest_located m l N D : 0 <= m -> 0 < D -> located m l N D ->
  2 * Z.abs (round_nearest_even m l * D - N) <= D /\ m <= round_nearest_even m l <= m + 1
  /\ (l = loc_Exact -> round_nearest_even m l = m).
Proof.
  intros Hm HD. destruct l as [|[]]; cbn [located round_nearest_even]; try destruct (Z.even m); intros H; (split; [nia|split; [lia|done || lia]]).
Qed.

Lemma located_ge m l N D : 0 < D -> located m l N D -> m * D <= N.
Proof. intros HD. destruct l as [|[]]; cbn [located]; nia. Qed.

Notation fexp64 := (fexp prec emax) (only parsing).

Lemma shr_fexp_located m e l N D : 0 < m -> 0 < D -> -1074 <= e -> located m l N D ->
  let k := Z.max 0 (Zdigits2 m - prec) in
  exists r, shr_fexp prec emax m e l = (r, e + k) /\ 0 <= shr_m r /\ located_rec r N (2 ^ k * D) /\ shr_m r = m / 2 ^ k
    /\ (k = 0 -> loc_of_shr_record r = l).
Proof.
  intros Hm HD He Hl k. unfold shr_fexp.
  assert (Hs : forall r, shr r e (fexp64 (Zdigits2 m + e) - e) = shr r e k).
  { intros r. unfold fexp, emin, k. destruct (Z.le_gt_cases (Zdigits2 m) prec).
    - rewrite (Z.max_l 0) by lia. destruct (Z.max _ _ - e) eqn:E; [done|lia|]. cbn [shr]. done.
    - rewrite (Z.max_r 0), Z.max_l by lia. f_equal. lia. }
  rewrite Hs. pose proof (located_of_loc m l N D Hl) as Hr.
  assert (Hm' : shr_m (shr_record_of_loc m l) = m) by (by destruct l as [|[]]).
  destruct (shr_located (shr_record_of_loc m l) e k N D) as (r & E & H1 & H2 & H3); [lia|lia|lia|done|].
  exists r. rewrite E, H3, Hm'. split_and!; try done; [rewrite <- Hm', <- H3; done|].
  intros Hk. rewrite Hk in E. injection E as <-. by destruct l as [|[]].
Qed.

(** The first rounding, to at most 53 digits. *)
Lemma round_first mx ex lx N D :
  0 < mx -> 0 < D -> located mx lx N D -> lx = loc_Exact \/ 2 ^ 52 <= mx -> -1074 <= ex ->
  let k := Z.max 0 (Zdigits2 mx - prec) in
  exists r, shr_fexp prec emax mx ex lx = (r, ex + k)
    /\ let m1 := round_nearest_even (shr_m r) (loc_of_shr_record r) in
       0 < m1 <= 2 ^ 53 /\ 2 ^ 53 * Z.abs (m1 * (2 ^ k * D) - N) <= N
       /\ (lx = loc_Exact -> k = 0 -> m1 = mx).
Proof.
  intros Hm HD Hl Hx He k. destruct (shr_fexp_located mx ex lx N D) as (r & E & Hr0 & Hr & Hrm & Hrl); [done..|].
  fold k in E, Hr, Hrm, Hrl. exists r. split; [done|]. intros m1.
  pose proof (Zdigits2_bounds mx Hm) as Hd. pose proof (Zdigits2_pos mx Hm) as Hdp.
  assert (Hk : 0 < 2 ^ k) by (apply Z.pow_pos_nonneg; lia).
  destruct (round_nearest_located (shr_m r) (loc_of_shr_record r) N (2 ^ k * D)) as (Herr & Hm1 & Hex); [done|nia|done|].
  fold m1 in Herr, Hm1, Hex.
  assert (Hlo : k = 0 \/ 2 ^ 52 <= shr_m r).
  { destruct (Z.le_gt_cases (Zdigits2 mx) prec); [lia|]. right. rewrite Hrm. apply Z.div_le_lower_bound; [done|].
    rewrite <- Z.pow_add_r by lia. replace (k + 52) with (Zdigits2 mx - 1) by lia. lia. }
  assert (Hhi : shr_m r < 2 ^ 53).
  { rewrite Hrm. apply Z.div_lt_upper_bound; [done|]. rewrite <- Z.pow_add_r by lia.
    pose proof (Z.pow_le_mono_r 2 (Zdigits2 mx) (k + 53)). lia. }
  assert (Hexact : lx = loc_Exact -> k = 0 -> m1 = mx).
  { intros Hlx Hk0. rewrite Hex by (by rewrite Hrl). by rewrite Hrm, Hk0, Z.div_1_r. }
  split; [|split; [|done]].
  - destruct Hlo as [Hk0|]; [|lia]. rewrite Hk0, Z.div_1_r in Hrm. lia.
  - destruct (decide (k = 0)) as [Hk0|Hk0]; [destruct (decide (lx = loc_Exact)) as [Hlx|Hlx]|].
    + rewrite (Hexact Hlx Hk0), Hk0. subst lx. cbn [located] in Hl. lia.
    + destruct Hx as [|Hx]; [done|]. pose proof (located_ge mx lx N D HD Hl). rewrite Hk0 in Herr |- *. nia.
    + pose proof (located_ge mx lx N D HD Hl). destruct Hlo as [|Hlo]; [done|]. rewrite Hrm in Hlo.
      pose proof (Z.mul_div_le mx (2 ^ k) Hk). assert (2 ^ 52 * 2 ^ k <= mx) by nia. nia.
Qed.

(** The second one, after a carry into a new digit. *)
Lemma round_second m1 e1 : 0 < m1 <= 2 ^ 53 -> -1074 <= e1 <= 970 ->
  exists r m e, shr_fexp prec emax m1 e1 loc_Exact = (r, e) /\ shr_m r = Zpos m
    /\ e1 <= e <= e1 + 1 /\ Zpos m * 2 ^ (e - e1) = m1 /\ (m1 < 2 ^ 53 -> e = e1).
Proof.
  intros Hm He. destruct (Z.eq_dec m1 (2 ^ 53)) as [->|Hn].
  - unfold shr_fexp. change (Zdigits2 (2 ^ 53)) with 54.
    replace (fexp64 (54 + e1) - e1) with 1 by (unfold fexp, emin; lia).
    eexists _, 4503599627370496%positive, (e1 + 1). split; [done|]. split; [done|]. split; [lia|].
    replace (e1 + 1 - e1) with 1 by lia. split; [done|lia].
  - assert (Zdigits2 m1 <= 53) by (apply Zdigits2_le; lia).
    destruct (shr_fexp_located m1 e1 loc_Exact m1 1) as (r & E & _ & _ & H2 & _); [lia|lia|lia|cbn; lia|].
    rewrite Z.max_l in E, H2 by lia. rewrite Z.div_1_r in H2. destruct m1 as [|m|m]; [lia| |lia].
    exists r, m, (e1 + 0). replace (e1 + 0 - e1) with 0 by lia. rewrite Z.mul_1_r. split_and!; try done; lia.
Qed.

(** The rounded result is finite and within one part in 2^53 of the exact one. *)
Lemma round_aux_rel sx mx ex lx N D :
  0 < mx -> 0 < D -> located mx lx N D -> lx = loc_Exact \/ 2 ^ 52 <= mx ->
  -1074 <= ex -> Zdigits2 mx + ex <= 970 ->
  exists m e, binary_round_aux prec emax sx mx ex lx = S754_finite sx m e
    /\ Zpos m <= 2 ^ 53 /\ ex <= e <= ex + Zdigits2 mx /\ 2 ^ 53 * Z.abs (Zpos m * 2 ^ (e - ex) * D - N) <= N
    /\ (lx = loc_Exact -> Zdigits2 mx <= prec -> Zpos m = mx /\ e = ex).
Proof.
  intros Hm HD Hl Hx He1 He2. unfold binary_round_aux. pose proof (Zdigits2_pos mx Hm) as Hdp.
  destruct (round_first mx ex lx N D) as (r & -> & H1 & H2 & H3); [done..|].
  set (k := Z.max 0 _) in *. set (m1 := round_nearest_even _ _) in *.
  destruct (round_second m1 (ex + k)) as (r2 & m & e & -> & -> & He & Hv & Hsame); [done|lia|].
  rewrite (proj2 (Z.leb_le _ _)) by lia. exists m, e. split; [done|].
  split; [pose proof (Z.pow_pos_nonneg 2 (e - (ex + k))); nia|]. split; [lia|]. split.
  - replace (e - ex) with ((e - (ex + k)) + k) by lia. rewrite Z.pow_add_r, Z.mul_assoc, Hv, <- Z.mul_assoc by lia. done.
  - intros Hlx Hd. assert (Hk : k = 0) by lia. specialize (H3 Hlx Hk). pose proof (Zdigits2_bounds mx Hm).
    pose proof (Z.pow_le_mono_r 2 (Zdigits2 mx) 53). assert (E : e = ex) by (rewrite Hk in Hsame; lia).
    rewrite E, Hk in Hv. replace (ex - (ex + 0)) with 0 in Hv by lia. lia.
Qed.

(** ** Operations

    [scaled m e] is the number [m * 2^e] in units of the least positive number. *)

Definition scaled (m e : Z) : Z := m * 2 ^ (e + 1074).

Lemma scaled_shift m e d : 0 <= d -> -1074 <= e -> scaled (m * 2 ^ d) e = scaled m (e + d).
Proof. intros. unfold scaled. rewrite <- Z.mul_assoc, <- Z.pow_add_r by lia. do 2 f_equal. lia. Qed.

Lemma scaled_add m m' e : scaled (m + m') e = scaled m e + scaled m' e.
Proof. unfold scaled. ring. Qed.

Lemma iter_xO m d : Zpos (Pos.iter xO m d) = Zpos m * 2 ^ Zpos d.
Proof.
  induction d as [|d IH] using Pos.peano_ind; [cbn; lia|].
  rewrite Pos.iter_succ, Pos2Z.inj_xO, IH, Pos2Z.inj_succ, Z.pow_succ_r by lia. ring.
Qed.

Lemma shl_align_spec m e e' : exists m', shl_align m e e' = (m', Z.min e e') /\ Zpos m' = Zpos m * 2 ^ (e - Z.min e e').
Proof.
  unfold shl_align. destruct (e' - e) as [|d|d] eqn:E.
  1,2: exists m; rewrite Z.min_l, Z.sub_diag, Z.mul_1_r by lia; done.
  exists (Pos.iter xO m d). rewrite Z.min_r by lia. split; [done|]. rewrite iter_xO. do 2 f_equal. lia.
Qed.

(** Rounding an exact number: the error, and no error below 53 digits. *)
Lemma round_rel sx m e : -1021 <= Zdigits2 (Zpos m) + e <= 970 -> -1074 <= e ->
  exists m' e', binary_round prec emax sx m e = S754_finite sx m' e' /\ -1074 <= e' <= 970
    /\ 2 ^ 53 * Z.abs (scaled (Zpos m') e' - scaled (Zpos m) e) <= scaled (Zpos m) e
    /\ (Zdigits2 (Zpos m) <= prec -> e' = Zdigits2 (Zpos m) + e - prec /\ Zpos m' = Zpos m * 2 ^ (e - e')).
Proof.
  intros He Hee. unfold binary_round. change (Zpos (digits2_pos m)) with (Zdigits2 (Zpos m)).
  set (d := Zdigits2 (Zpos m)) in *. assert (Hf : fexp64 (d + e) = d + e - prec) by (unfold fexp, emin; lia).
  destruct (shl_align_spec m e (fexp64 (d + e))) as (mz & -> & Hmz). rewrite Hf in Hmz |- *.
  set (ez := Z.min e (d + e - prec)) in *. pose proof (Zdigits2_pos (Zpos m) eq_refl) as Hdp. fold d in Hdp.
  pose proof (Zdigits2_bounds (Zpos m) eq_refl) as Hb. fold d in Hb.
  assert (Hdz : Zdigits2 (Zpos mz) <= d + (e - ez)).
  { apply Zdigits2_le. split; [done|]. rewrite Hmz, Z.pow_add_r by lia. apply Zmult_lt_compat_r; [|lia]. apply Z.pow_pos_nonneg; lia. }
  assert (Hs : scaled (Zpos mz) ez = scaled (Zpos m) e).
  { rewrite Hmz, scaled_shift by lia. f_equal. lia. }
  destruct (round_aux_rel sx (Zpos mz) ez loc_Exact (Zpos mz) 1) as (m' & e' & -> & _ & He' & Herr & Hex);
    [done|done|cbn; lia|by left|lia|lia|].
  exists m', e'. split; [done|]. split; [lia|]. split.
  - rewrite <- Hs. replace (scaled (Zpos m') e') with (scaled (Zpos m' * 2 ^ (e' - ez)) ez)
      by (rewrite scaled_shift by lia; f_equal; lia).
    unfold scaled. set (p := 2 ^ (ez + 1074)). assert (0 < p) by (apply Z.pow_pos_nonneg; lia). nia.
  - intros Hd. assert (ez = d + e - prec) as Hez by lia. destruct Hex as [E1 E2]; [done|lia|]. split; [lia|]. by rewrite E1, E2.
Qed.

Definition normal (m : positive) : Prop := 2 ^ 52 <= Zpos m < 2 ^ 53.

Lemma normal_digits m : normal m -> Zdigits2 (Zpos m) = 53.
Proof. intros [H1 H2]. pose proof (Zdigits2_le (Zpos m) 53). pose proof (Zdigits2_ge (Zpos m) 52). lia. Qed.

(** Integers below 2^53 are represented exactly. *)
Lemma of_int64_exact n : 0 < n < 2 ^ 53 ->
  exists m d, of_int64 n = S754_finite false m (- d) /\ of_int64 (- n) = S754_finite true m (- d)
    /\ 0 <= d <= 52 /\ Zpos m = n * 2 ^ d /\ normal m.
Proof.
  intros Hn. destruct n as [|p|p]; try lia. pose proof (Zdigits2_le (Zpos p) 53 Hn) as Hd.
  pose proof (Zdigits2_pos (Zpos p) eq_refl) as Hp. pose proof (Zdigits2_bounds (Zpos p) eq_refl) as Hb.
  destruct (round_rel false p 0) as (m & e & E & _ & _ & H1); [lia|lia|]. destruct (H1 Hd) as [-> Hm].
  destruct (round_rel true p 0) as (m' & e' & E' & _ & _ & H2); [lia|lia|]. destruct (H2 Hd) as [-> Hm'].
  rewrite <- Hm in Hm'. injection Hm' as ->.
  exists m, (53 - Zdigits2 (Zpos p)). replace (- (53 - _)) with (Zdigits2 (Zpos p) + 0 - 53) by lia.
  split_and!; [done|done|lia|lia| |]; replace (0 - _) with (53 - Zdigits2 (Zpos p)) in Hm by lia; [done|].
  unfold normal. rewrite Hm. set (d := Zdigits2 (Zpos p)) in *.
  assert (0 < 2 ^ (53 - d)) by (apply Z.pow_pos_nonneg; lia).
  assert (2 ^ 52 = 2 ^ (d - 1) * 2 ^ (53 - d)) as -> by (rewrite <- Z.pow_add_r by lia; f_equal; lia).
  assert (2 ^ 53 = 2 ^ d * 2 ^ (53 - d)) as -> by (rewrite <- Z.pow_add_r by lia; f_equal; lia). nia.
Qed.

Lemma new_location_located m q r d : 0 < d -> 0 <= r < d -> m = q * d + r -> located q (new_location d r) m d.
Proof.
  intros Hd Hr ->. unfold new_location. destruct (Z.even d) eqn:Ev; unfold new_location_even, new_location_odd;
    destruct (Z.eqb_spec r 0) as [->|Hn]; cbn [located]; try lia.
  - destruct (Z.compare_spec (2 * r) d); cbn [located]; nia.
  - assert (2 * r <> d) by (intros <-; by rewrite Z.even_mul in Ev).
    destruct (Z.compare_spec (2 * r + 1) d); cbn [located]; nia.
Qed.

Lemma div_rel s1 m1 e1 s2 m2 e2 : normal m1 -> normal m2 -> -500 <= e1 - e2 <= 500 ->
  exists m e, fdiv (S754_finite s1 m1 e1) (S754_finite s2 m2 e2) = S754_finite (xorb s1 s2) m e
    /\ Zpos m <= 2 ^ 53 /\ e1 - e2 - 53 <= e <= e1 - e2 + 2
    /\ 2 ^ 53 * Z.abs (Zpos m * 2 ^ (e - (e1 - e2 - 53)) * Zpos m2 - Zpos m1 * 2 ^ 53) <= Zpos m1 * 2 ^ 53.
Proof.
  intros N1 N2 He. unfold fdiv, SFdiv, SFdiv_core_binary. rewrite !normal_digits by done.
  replace (fexp64 _) with (e1 - e2 - 53) by (unfold fexp, emin; lia). rewrite Z.min_l by lia.
  replace (e1 - e2 - (e1 - e2 - 53)) with 53 by lia. rewrite Z.shiftl_mul_pow2 by lia.
  pose proof (Z_div_mod (Zpos m1 * 2 ^ 53) (Zpos m2) eq_refl) as Hdm.
  destruct (Z.div_eucl _ _) as [q r]. destruct Hdm as [Hq Hr]. unfold normal in *.
  assert (Hq' : 2 ^ 52 <= q < 2 ^ 54) by nia.
  pose proof (Zdigits2_le q 54 ltac:(lia)). pose proof (Zdigits2_pos q ltac:(lia)).
  destruct (round_aux_rel (xorb s1 s2) q (e1 - e2 - 53) (new_location (Zpos m2) r) (Zpos m1 * 2 ^ 53) (Zpos m2))
    as (m & e & E & Hm & H1 & H2 & _); [lia|done| |right; lia|lia|lia|].
  { apply new_location_located; [done|lia|lia]. }
  exists m, e. split_and!; [done|done|lia|lia|done].
Qed.

Lemma mul_rel s1 m1 e1 s2 m2 e2 : -500 <= e1 + e2 <= 500 -> Zpos m1 < 2 ^ 54 -> Zpos m2 < 2 ^ 54 ->
  exists m e, fmul (S754_finite s1 m1 e1) (S754_finite s2 m2 e2) = S754_finite (xorb s1 s2) m e
    /\ Zpos m <= 2 ^ 53 /\ e1 + e2 <= e <= e1 + e2 + 108
    /\ 2 ^ 53 * Z.abs (scaled (Zpos m) e - scaled (Zpos m1 * Zpos m2) (e1 + e2)) <= scaled (Zpos m1 * Zpos m2) (e1 + e2).
Proof.
  intros He H1 H2. unfold fmul, SFmul. pose proof (Zdigits2_le (Zpos (m1 * m2)) 108) as Hd.
  rewrite Pos2Z.inj_mul in Hd.
  destruct (round_aux_rel (xorb s1 s2) (Zpos (m1 * m2)) (e1 + e2) loc_Exact (Zpos (m1 * m2)) 1)
    as (m & e & E & H5 & H3 & H4 & _); [done|done|cbn; lia|by left|lia|rewrite Pos2Z.inj_mul; nia|].
  exists m, e. split; [done|]. split; [done|]. rewrite Pos2Z.inj_mul in *. split; [nia|].
  replace (scaled (Zpos m) e) with (scaled (Zpos m * 2 ^ (e - (e1 + e2))) (e1 + e2))
    by (rewrite scaled_shift by lia; f_equal; lia).
  unfold scaled. set (p := 2 ^ _). assert (0 < p) by (apply Z.pow_pos_nonneg; lia). nia.
Qed.

Lemma round_aux_sign m e l m' e' : binary_round_aux prec emax false m e l = S754_finite false m' e' ->
  binary_round_aux prec emax true m e l = S754_finite true m' e'.
Proof.
  unfold binary_round_aux. destruct (shr_fexp _ _ m _ _) as [r1 f1]. destruct (shr_fexp _ _ _ f1 _) as [r2 f2].
  destruct (shr_m r2); try done. destruct (_ <=? _); [|done]. by intros [= -> ->].
Qed.

(** Moving a number away from zero by a number of the other sign. *)
Lemma add_rel m1 e1 m2 e2 : -500 <= e1 <= 200 -> -500 <= e2 <= 200 -> Zpos m1 < 2 ^ 54 -> Zpos m2 < 2 ^ 54 ->
  exists m e, fadd (S754_finite false m1 e1) (S754_finite false m2 e2) = S754_finite false m e
    /\ fsub (S754_finite true m1 e1) (S754_finite false m2 e2) = S754_finite true m e
    /\ -1074 <= e <= 970
    /\ let sum := scaled (Zpos m1) e1 + scaled (Zpos m2) e2 in 2 ^ 53 * Z.abs (scaled (Zpos m) e - sum) <= sum.
Proof.
  intros H1 H2 Hm1 Hm2. set (ez := Z.min e1 e2).
  destruct (shl_align_spec m1 e1 ez) as (a & Ea & Ha), (shl_align_spec m2 e2 ez) as (b & Eb & Hb).
  rewrite Z.min_r in Ea, Ha, Eb, Hb by lia.
  assert (Hs : scaled (Zpos m1) e1 + scaled (Zpos m2) e2 = scaled (Zpos (a + b)) ez).
  { rewrite Pos2Z.inj_add, scaled_add, Ha, Hb, !scaled_shift by lia. f_equal; f_equal; lia. }
  assert (Hd : Zdigits2 (Zpos (a + b)) <= 755).
  { apply Zdigits2_le. split; [done|]. rewrite Pos2Z.inj_add.
    assert (forall m e, Zpos m < 2 ^ 54 -> 0 <= e <= 700 -> Zpos m * 2 ^ e < 2 ^ 754) as Hx.
    { intros m e Hm He. pose proof (Z.pow_le_mono_r 2 e 700). pose proof (Z.pow_pos_nonneg 2 e).
      change (2 ^ 754) with (2 ^ 54 * 2 ^ 700). nia. }
    pose proof (Hx m1 (e1 - ez)). pose proof (Hx m2 (e2 - ez)). change (2 ^ 755) with (2 * 2 ^ 754). lia. }
  pose proof (Zdigits2_pos (Zpos (a + b)) eq_refl).
  destruct (round_rel false (a + b) ez) as (m & e & E & He & Herr & _); [lia|lia|].
  exists m, e. unfold fadd, fsub, SFadd, SFsub. fold ez. rewrite Ea, Eb. cbn [fst cond_Zopp].
  split; [by rewrite <- E|]. split; [|split; [done|by rewrite Hs]].
  change (- Zpos a - Zpos b) with (Zneg (a + b)). cbn [binary_normalize].
  revert E. unfold binary_round. destruct (shl_align (a + b) _ _). apply round_aux_sign.
Qed.

Lemma shiftl_scaled m e n : -1074 <= e -> n * 2 ^ 1074 <= scaled m e < (n + 1) * 2 ^ 1074 -> Z.shiftl m e = n.
Proof.
  intros He Hn. assert (Z.shiftl m e = scaled m e / 2 ^ 1074) as ->.
  - unfold scaled. destruct (Z.le_gt_cases 0 e).
    + rewrite Z.shiftl_mul_pow2, Z.pow_add_r, Z.mul_assoc, Z.div_mul by lia. done.
    + rewrite Z.shiftl_div_pow2 by lia.
      replace (2 ^ 1074) with (2 ^ (- e) * 2 ^ (e + 1074)) by (rewrite <- Z.pow_add_r by lia; f_equal; lia).
      rewrite Z.div_mul_cancel_r; [done|apply Z.pow_nonzero; lia|apply Z.pow_nonzero; lia].
  - symmetry. apply (Z.div_unique_pos _ _ _ (scaled m e - n * 2 ^ 1074)); lia.
Qed.

Lemma to_int64_range `{FloatConv} f : - 2 ^ 63 <= to_int64 f < 2 ^ 63.
Proof.
  unfold to_int64. destruct (trunc f) as [v|]; [|apply i64_range].
  destruct (Z.leb_spec (- 2 ^ 63) v), (Z.ltb_spec v (2 ^ 63)); cbn [andb]; first [lia | apply i64_range].
Qed.
