(* ===== verification/Amount.v ===== *)
(** Amounts of money: util/amount.go.

    The node reports amounts in thoughts as floating point numbers; the program
    counts in notions, of which a thought has 10^8.  [ToTHT] is the correctly
    rounded quotient, which is also what parsing the decimal text gives. *)

From S2P Require Import Prelude Digits Float64.
From Stdlib Require Import Floats.SpecFloat.

(** [math.Pow10]: a table of the powers up to 31 and of every 32nd power. *)
Definition pow10tab (k : Z) : float64 := of_int64 (10 ^ k).
Definition pow10negtab32 (k : Z) : float64 := fdiv (S754_finite false 1 0) (S754_finite false (Z.to_pos (10 ^ (32 * k))) 0).
Definition Pow10 (n : Z) : float64 :=
  if (0 <=? n) && (n <=? 308) then fmul (pow10tab (32 * (n / 32))) (pow10tab (n mod 32))
  else if (-323 <=? n) && (n <=? 0) then fdiv (pow10negtab32 (- n / 32)) (pow10tab (- n mod 32))
  else if n >? 0 then S754_infinity false else S754_zero false.

Notation AmountMegaTHT := 6 (only parsing).
Notation AmountKiloTHT := 3 (only parsing).
Notation AmountTHT := 0 (only parsing).
Notation AmountMilliTHT := (-3) (only parsing).
Notation AmountMicroTHT := (-6) (only parsing).
Notation AmountNotion := (-8) (only parsing).
Definition NotionPerThought : float64 := of_int64 100000000.
Definition half : float64 := S754_finite false 4503599627370496 (-53).

Definition AmountUnit_String (u : Z) : bytes :=
  if u =? AmountMegaTHT then str "MTHT"
  else if u =? AmountKiloTHT then str "kTHT"
  else if u =? AmountTHT then str "THT"
  else if u =? AmountMilliTHT then str "mTHT"
  else if u =? AmountMicroTHT then [z2b 0xCE; z2b 0xBC] ++ str "THT"
  else if u =? AmountNotion then str "Notion"
  else str "1e" ++ FormatInt u ++ str " THT".

Inductive AmountErr := ErrInvalidAmount | ErrNegativeAmount (a : Z).

Section amount.
Context `{FloatConv}.

Definition round (f : float64) : Z :=
  if flt f (S754_zero false) then to_int64 (fsub f half) else to_int64 (fadd f half).

Definition NewAmount (f : float64) : outcome AmountErr Z :=
  if IsNaN f || IsInf f 1 || IsInf f (-1) then Fail ErrInvalidAmount
  else Ret (round (fmul f NotionPerThought)).

Definition ToUnit (a u : Z) : float64 := fdiv (of_int64 a) (Pow10 (i64 (u + 8))).
Definition ToTHT (a : Z) : float64 := ToUnit a AmountTHT.
Definition MulF64 (a : Z) (f : float64) : Z := round (fmul (of_int64 a) f).
End amount.

Example amount_examples :
  NewAmount (ToTHT 123456789) = Ret 123456789
  /\ NewAmount (ToTHT (-1)) = Ret (-1)
  /\ NewAmount (ToTHT 0) = Ret 0
  /\ NewAmount (S754_infinity true) = Fail ErrInvalidAmount
  /\ MulF64 100 (fdiv (of_int64 1) (of_int64 3)) = 33.
Proof. split_and!; vm_compute; reflexivity. Qed.

(** Past 2^52 notions, about 45 million thoughts, amounts are not exact. *)
Example NewAmount_inexact : NewAmount (ToTHT (2 ^ 52 + 1)) = Ret (2 ^ 52 + 2).
Proof. vm_compute. reflexivity. Qed.

(** ** Amounts survive the conversion *)

Definition MaxExact : Z := 15 * 10 ^ 14.

Lemma Pow10_8 : Pow10 (i64 (AmountTHT + 8)) = S754_finite false 6710886400000000 (-26).
Proof. vm_compute. reflexivity. Qed.

Lemma NotionPerThought_eq : NotionPerThought = S754_finite false 6710886400000000 (-26).
Proof. vm_compute. reflexivity. Qed.

(** The quotient by 10^8 times 10^8 is off by less than two parts in 2^53. *)
Lemma quotient_product n : 0 < n < 2 ^ 53 ->
  exists m e, (-200 <= e <= 200) /\ Zpos m <= 2 ^ 53
    /\ fmul (ToTHT n) NotionPerThought = S754_finite false m e
    /\ fmul (ToTHT (- n)) NotionPerThought = S754_finite true m e
    /\ 2 ^ 106 * Z.abs (scaled (Zpos m) e - n * 2 ^ 1074) <= (2 ^ 54 + 1) * (n * 2 ^ 1074)
    /\ (exists mx ex, ToTHT n = S754_finite false mx ex /\ ToTHT (- n) = S754_finite true mx ex).
Proof.
  intros Hn. destruct (of_int64_exact n Hn) as (m1 & d & E1 & E1' & Hd & Hm1 & N1).
  unfold ToTHT, ToUnit. rewrite Pow10_8, E1, E1', NotionPerThought_eq. set (c := 6710886400000000%positive).
  destruct (div_rel false m1 (- d) false c (-26) N1) as (mx & ex & Ex & Hmx & Hex & Hx); [split; vm_compute; congruence|lia|].
  assert (Ex' : fdiv (S754_finite true m1 (- d)) (S754_finite false c (-26)) = S754_finite true mx ex).
  { revert Ex. unfold fdiv, SFdiv. destruct (SFdiv_core_binary _ _ _ _ _ _) as [[q e'] l]. apply round_aux_sign. }
  destruct (mul_rel false mx ex false c (-26)) as (my & ey & Ey & Hmy & Hey & Hy); [lia|lia|done|].
  exists my, ey. cbn [xorb] in *. rewrite Ex, Ex'. split; [lia|]. split; [done|]. split; [done|].
  split; [revert Ey; apply round_aux_sign|]. split; [|by eexists _, _].
  set (P := scaled (Zpos mx * Zpos c) (ex + -26)) in *. set (Y := scaled (Zpos my) ey) in *.
  assert (HP : 2 ^ 53 * Z.abs (P - n * 2 ^ 1074) <= n * 2 ^ 1074).
  { replace (n * 2 ^ 1074) with (scaled (Zpos m1 * 2 ^ 53) (- d - 53)).
    2:{ rewrite scaled_shift by lia. unfold scaled. rewrite Hm1, <- Z.mul_assoc, <- Z.pow_add_r by lia. do 2 f_equal. lia. }
    unfold P. replace (ex + -26) with ((- d - 53) + (ex - (- d - -26 - 53))) by lia.
    rewrite <- scaled_shift by lia. unfold scaled. set (p := 2 ^ (- d - 53 + 1074)).
    assert (0 < p) by (apply Z.pow_pos_nonneg; lia). nia. }
  assert (0 < n * 2 ^ 1074) by (apply Z.mul_pos_pos; [lia|reflexivity]).
  change (2 ^ 106) with (2 ^ 53 * 2 ^ 53). change (2 ^ 54 + 1) with (2 * 2 ^ 53 + 1).
  revert Hy HP H. generalize (n * 2 ^ 1074). clearbody P Y. change (2 ^ 53) with 9007199254740992. clear. lia.
Qed.

Lemma NewAmount_pos `{FloatConv} n : 0 < n <= MaxExact -> NewAmount (ToTHT n) = Ret n /\ NewAmount (ToTHT (- n)) = Ret (- n).
Proof.
  unfold MaxExact. intros Hn. destruct (quotient_product n) as (m & e & He & Hm & E & E' & Herr & mx & ex & X & X'); [lia|].
  destruct (add_rel m e 4503599627370496 (-53)) as (mz & ez & Ez & Ez' & Hez & Hz); [lia|lia|lia|done|].
  assert (Hs : Z.shiftl (Zpos mz) ez = n).
  { apply shiftl_scaled; [lia|]. cbv zeta in Hz.
    change (scaled 4503599627370496 (-53)) with (2 ^ 1073) in Hz. change (2 ^ 1074) with (2 * 2 ^ 1073) in *.
    assert (0 < 2 ^ 1073) by reflexivity. generalize dependent (2 ^ 1073). intros u ? ? ?.
    set (Z1 := scaled (Zpos mz) ez) in *. set (Y := scaled (Zpos m) e) in *. clearbody Z1 Y.
    assert (n * (2 * u) <= 1500000000000000 * (2 * u)) by nia. set (T := n * (2 * u)) in *.
    replace ((n + 1) * (2 * u)) with (T + 2 * u) by (unfold T; ring). clearbody T.
    change (2 ^ 106) with 81129638414606681695789005144064 in *. change (2 ^ 54) with 18014398509481984 in *.
    change (2 ^ 53) with 9007199254740992 in *. lia. }
  assert (Hr : (- 2 ^ 63 <=? n) && (n <? 2 ^ 63) = true /\ (- 2 ^ 63 <=? - n) && (- n <? 2 ^ 63) = true) by lia.
  unfold NewAmount. rewrite E, E', X, X'. cbn [IsNaN IsInf orb]. unfold round, flt, SFltb. cbn [SFcompare].
  unfold half. rewrite Ez, Ez'. unfold to_int64. cbn [trunc]. rewrite Hs. unfold id. by destruct Hr as [-> ->].
Qed.

(** C33: an amount of at most fifteen million thoughts, of either sign, is not
    changed by the way through floating point numbers; and an amount is refused
    exactly if it is not a number or infinite. *)
Theorem NewAmount_exact `{FloatConv} (n : Z) (f : float64) :
  (Z.abs n <= MaxExact -> NewAmount (ToTHT n) = Ret n)
  /\ (NewAmount f = Fail ErrInvalidAmount <-> f = S754_nan \/ exists s, f = S754_infinity s)
  /\ (NewAmount f <> Crash /\ NewAmount f <> NoFuel).
Proof.
  split; [|split].
  - intros Hn. destruct (Z.lt_trichotomy n 0) as [Hs|[->|Hs]].
    + destruct (NewAmount_pos (- n)) as [_ E]; [lia|]. by rewrite Z.opp_involutive in E.
    + vm_compute. reflexivity.
    + by apply NewAmount_pos; lia.
  - unfold NewAmount. destruct f as [s|[]| |s m e]; cbn [IsNaN IsInf orb Z.geb Z.leb Z.compare]; split; try done; eauto.
    all: intros [|[? ?]]; done.
  - unfold NewAmount. by destruct (_ || _).
Qed.

Lemma NewAmount_exact_witness : NewAmount (ToTHT 1499999999999999) = Ret 1499999999999999.
Proof. refine (proj1 (NewAmount_exact 1499999999999999 S754_nan) _). vm_compute. congruence. Defined.
