(* ===== verification/Rosetta.v ===== *)
(** The data types of the Rosetta SDK (package types) that the program fills in
    and reads.  A pointer that may be nil is an option. *)

From S2P Require Import Prelude.

Record BlockIdentifier := mkBlockIdentifier { bi_Index : Z; bi_Hash : bytes }.
Record PartialBlockIdentifier := mkPartialBlockIdentifier { pbi_Index : option Z; pbi_Hash : option bytes }.
Record AccountIdentifier := mkAccountIdentifier { acct_Address : bytes }.
Record Currency := mkCurrency { cur_Symbol : bytes; cur_Decimals : Z }.
Record RAmount := mkAmount { amt_Value : bytes; amt_Currency : Currency }.

Inductive CoinAction := CoinCreated | CoinSpent.
Record CoinChange := mkCoinChange { cc_CoinIdentifier : bytes; cc_CoinAction : CoinAction }.
Record Coin := mkCoin { coin_CoinIdentifier : bytes; coin_Amount : option RAmount }.
Record AccountCoin := mkAccountCoin { ac_Account : option AccountIdentifier; ac_Coin : Coin }.

Record OperationIdentifier := mkOperationIdentifier { oi_Index : Z; oi_NetworkIndex : option Z }.

(** Metadata is a JSON object, of the type [J]. *)
Record Operation (J : Type) := mkOperation {
  op_OperationIdentifier : OperationIdentifier;
  op_Type : bytes;
  op_Status : option bytes;
  op_Account : option AccountIdentifier;
  op_Amount : option RAmount;
  op_CoinChange : option CoinChange;
  op_Metadata : option J }.

Record RTransaction (J : Type) := mkRTransaction {
  rtx_Hash : bytes; rtx_Operations : list (Operation J); rtx_Metadata : option J }.

Record RBlock (J : Type) := mkRBlock {
  rb_BlockIdentifier : BlockIdentifier;
  rb_ParentBlockIdentifier : BlockIdentifier;
  rb_Timestamp : Z;
  rb_Transactions : list (RTransaction J);
  rb_Metadata : option J }.

Record Peer (J : Type) := mkPeer { peer_PeerID : bytes; peer_Metadata : option J }.

Record NetworkStatusResponse (J : Type) := mkNetworkStatusResponse {
  ns_CurrentBlockIdentifier : BlockIdentifier;
  ns_CurrentBlockTimestamp : Z;
  ns_GenesisBlockIdentifier : BlockIdentifier;
  ns_Peers : list (Peer J) }.

Arguments mkOperation {J}.
Arguments op_OperationIdentifier {J}.
Arguments op_Type {J}.
Arguments op_Status {J}.
Arguments op_Account {J}.
Arguments op_Amount {J}.
Arguments op_CoinChange {J}.
Arguments op_Metadata {J}.
Arguments mkRTransaction {J}.
Arguments rtx_Hash {J}.
Arguments rtx_Operations {J}.
Arguments rtx_Metadata {J}.
Arguments mkRBlock {J}.
Arguments rb_BlockIdentifier {J}.
Arguments rb_ParentBlockIdentifier {J}.
Arguments rb_Timestamp {J}.
Arguments rb_Transactions {J}.
Arguments rb_Metadata {J}.
Arguments mkPeer {J}.
Arguments mkNetworkStatusResponse {J}.

#[export] Instance AccountIdentifier_eq_dec : EqDecision AccountIdentifier.
Proof. solve_decision. Defined.
#[export] Instance Currency_eq_dec : EqDecision Currency.
Proof. solve_decision. Defined.
#[export] Instance RAmount_eq_dec : EqDecision RAmount.
Proof. solve_decision. Defined.
#[export] Instance CoinAction_eq_dec : EqDecision CoinAction.
Proof. solve_decision. Defined.
#[export] Instance CoinChange_eq_dec : EqDecision CoinChange.
Proof. solve_decision. Defined.
#[export] Instance Coin_eq_dec : EqDecision Coin.
Proof. solve_decision. Defined.
#[export] Instance AccountCoin_eq_dec : EqDecision AccountCoin.
Proof. solve_decision. Defined.
#[export] Instance BlockIdentifier_eq_dec : EqDecision BlockIdentifier.
Proof. solve_decision. Defined.

(** The coin an operation creates, with what the program remembers of it. *)
Definition created_coin {J} (op : Operation J) : option (bytes * AccountCoin) :=
  match op_CoinChange op with
  | Some cc =>
      match cc_CoinAction cc with
      | CoinCreated => Some (cc_CoinIdentifier cc,
          mkAccountCoin (op_Account op) (mkCoin (cc_CoinIdentifier cc) (op_Amount op)))
      | CoinSpent => None
      end
  | None => None
  end.

(** [coins[id] = coin] for every coin the operations create. *)
Fixpoint addCreated {J} (ops : list (Operation J)) (coins : gmap bytes AccountCoin) : gmap bytes AccountCoin :=
  match ops with
  | [] => coins
  | op :: ops =>
      addCreated ops match created_coin op with Some (id, c) => <[id := c]> coins | None => coins end
  end.
