(* ===== verification/Client.v ===== *)
(** The client of the node: thought/client.go and thought/types.go.

    A block of the node is fetched by JSON-RPC ([GetRawBlock], which also lists the
    coins it spends) and translated into the operations of the Rosetta API
    ([ParseBlock], which is given those coins).

    The connection to the node is the class [Node]: one exchange of a request for
    a status and a body, over a state [World] that may change from call to call,
    and the JSON decoders of the bodies.  The functions of the Rosetta SDK are the
    class [SDK], their documented behaviour [SDKLaws].  Elements of JSON arrays
    are not null; objects may be. *)

From S2P Require Import Prelude Digits Float64 Amount Rosetta Hash Crypto Utf8 Base58 ScriptError ScriptNum Opcodes Tokenizer Script ScriptBuilder Standard Address Coins.
From Stdlib Require Import Floats.SpecFloat.

(** ** The data of the node *)

Definition InputOpType : bytes := str "INPUT".
Definition OutputOpType : bytes := str "OUTPUT".
Definition CoinbaseOpType : bytes := str "COINBASE".
Definition SuccessStatus : bytes := str "SUCCESS".
Definition SkippedStatus : bytes := str "SKIPPED".
Definition NullData : bytes := str "nulldata".
Notation genesisBlockIndex := 0 (only parsing).
Notation timeMultiplier := 1000 (only parsing).
Notation blockNotFoundErrCode := (-5) (only parsing).

Record ScriptPubKey := mkScriptPubKey {
  spk_ASM : bytes; spk_Hex : bytes; spk_RequiredSigs : Z; spk_Type : bytes; spk_Addresses : list bytes }.
Record ScriptSig := mkScriptSig { ss_ASM : bytes; ss_Hex : bytes }.
Record BlockchainInfo := mkBlockchainInfo { bci_Chain : bytes; bci_Blocks : Z; bci_BestBlockHash : bytes }.
Record PeerInfo := mkPeerInfo {
  pi_Addr : bytes; pi_Version : Z; pi_SubVer : bytes; pi_StartingHeight : Z; pi_RelayTxes : bool;
  pi_LastSend : Z; pi_LastRecv : Z; pi_BanScore : Z; pi_SyncedBlocks : Z; pi_SyncedHeaders : Z }.

Record Input := mkInput {
  in_TxHash : bytes; in_Vout : Z; in_ScriptSig : option ScriptSig; in_Sequence : Z;
  in_TxInWitness : list bytes; in_Coinbase : bytes }.
Record Output := mkOutput { out_Value : float64; out_Index : Z; out_ScriptPubKey : option ScriptPubKey }.
Record Transaction := mkTransaction {
  t_Hex : bytes; t_Hash : bytes; t_Size : Z; t_Vsize : Z; t_Version : Z; t_Locktime : Z; t_Weight : Z;
  t_Inputs : list Input; t_Outputs : list Output }.
Record Block := mkBlock {
  b_Hash : bytes; b_Height : Z; b_PreviousBlockHash : bytes; b_Time : Z; b_MedianTime : Z; b_Nonce : Z;
  b_MerkleRoot : bytes; b_Version : Z; b_Size : Z; b_Weight : Z; b_Bits : bytes; b_Difficulty : float64;
  b_CuckooProof : list Z; b_Txs : list Transaction }.

Record BlockMetadata := mkBlockMetadata {
  bm_Nonce : Z; bm_MerkleRoot : bytes; bm_Version : Z; bm_Size : Z; bm_Weight : Z; bm_MedianTime : Z;
  bm_Bits : bytes; bm_Difficulty : float64; bm_CuckooProof : list Z }.
Record TransactionMetadata := mkTransactionMetadata {
  tm_Size : Z; tm_Vsize : Z; tm_Version : Z; tm_Locktime : Z; tm_Weight : Z }.
Record OperationMetadata := mkOperationMetadata {
  om_Coinbase : bytes; om_ScriptSig : option ScriptSig; om_Sequence : Z; om_TxInWitness : list bytes;
  om_ScriptPubKey : option ScriptPubKey }.

(** ** The SDK *)

Class SDK := {
  JsonMap : Type;
  MarshalBlockMetadata : BlockMetadata -> option JsonMap;
  MarshalTransactionMetadata : TransactionMetadata -> option JsonMap;
  MarshalOperationMetadata : OperationMetadata -> option JsonMap;
  MarshalPeerInfo : PeerInfo -> option JsonMap;
  NegateValue : bytes -> option bytes;
  ContainsString : list bytes -> bytes -> bool }.

Definition finite (f : float64) : Prop := IsNaN f = false /\ forall s, f <> S754_infinity s.

(** JSON has no representation of infinities; everything else is marshalled.
    Values are decimal integers of any size. *)
Class SDKLaws (K : SDK) : Prop := {
  marshal_block m : finite (bm_Difficulty m) -> is_Some (MarshalBlockMetadata m);
  marshal_transaction m : is_Some (MarshalTransactionMetadata m);
  marshal_operation m : is_Some (MarshalOperationMetadata m);
  negate_int z : NegateValue (FormatInt z) = Some (FormatInt (- z));
  contains_string l s : ContainsString l s = true <-> In s l }.

(** ** Requests and responses *)

Inductive Param := PString (s : bytes) | PInt (z : Z) | PBool (b : bool).

Record request := mkRequest { JSONRPC : bytes; ID : Z; Method : bytes; Params_ : option (list Param) }.

Record responseError := mkResponseError { Code : Z; Message : bytes }.
Record response (A : Type) := mkResponse { Result : A; Error : option responseError }.
Arguments Result {A}.
Arguments Error {A}.

Record suggestedFeeRate := mkSuggestedFeeRate { FeeRate : float64 }.

Inductive ClientErr :=
  | ErrPosting
  | ErrStatusCode (status : Z) (body : bytes)
  | ErrDecoding
  | ErrJSONRPCError (code : Z) (message : bytes)
  | ErrBlockNotFound
  | ErrNilBlock
  | ErrMarshal
  | ErrMissingPreviousTx (hash txHash : bytes) (index : Z)
  | ErrNegate
  | ErrAmount (e : AmountErr).

(** [Err] of the responses: only blockResponse tells an unknown block apart. *)
Definition response_Err (e : option responseError) : option ClientErr :=
  match e with None => None | Some e => Some (ErrJSONRPCError (Code e) (Message e)) end.

Definition blockResponse_Err (e : option responseError) : option ClientErr :=
  match e with
  | None => None
  | Some e =>
      if Code e =? blockNotFoundErrCode then Some ErrBlockNotFound
      else Some (ErrJSONRPCError (Code e) (Message e))
  end.

Class Node := {
  World : Type;
  exchange : bytes -> request -> World -> option (Z * bytes) * World;
  decode_block : bytes -> option (response (option Block));
  decode_info : bytes -> option (response (option BlockchainInfo));
  decode_hash : bytes -> option (response bytes);
  decode_peers : bytes -> option (response (list PeerInfo));
  decode_prune : bytes -> option (response Z);
  decode_send : bytes -> option (response bytes);
  decode_fee : bytes -> option (response (option suggestedFeeRate));
  decode_mempool : bytes -> option (response (list bytes)) }.

Record Client := mkClient {
  baseURL : bytes; genesisBlockIdentifier : BlockIdentifier; currency : Currency }.

Definition LocalhostURL (rpcPort : Z) : bytes := str "http://localhost:" ++ FormatInt rpcPort.

Definition NewClient (url : bytes) (genesis : BlockIdentifier) (cur : Currency) : Client := mkClient url genesis cur.

Section client.
Context {K : SDK} {N : Node} `{FloatConv} (b : Client).

Notation CM := (M World ClientErr).
Notation Operation := (Operation JsonMap).

(** ** Calls of the node *)

Definition call {A} (rpcRequest : request) (decode : bytes -> option (response A))
    (errOf : option responseError -> option ClientErr) : CM A := fun w =>
  match exchange (baseURL b) rpcRequest w with
  | (None, w) => (Fail ErrPosting, w)
  | (Some (status, body), w) =>
      if negb (status =? 200) then (Fail (ErrStatusCode status body), w)
      else
        match decode body with
        | None => (Fail ErrDecoding, w)
        | Some r => match errOf (Error r) with Some e => (Fail e, w) | None => (Ret (Result r), w) end
        end
  end.

Definition post {A} (method : bytes) (params : list Param) (decode : bytes -> option (response A))
    (errOf : option responseError -> option ClientErr) : CM A :=
  call (mkRequest (str "2.0") 1 method (Some params)) decode errOf.

Definition get {A} (method : bytes) (decode : bytes -> option (response A))
    (errOf : option responseError -> option ClientErr) : CM A :=
  call (mkRequest (str "2.0") 1 method None) decode errOf.

Definition SendRawTransaction (serializedTx : bytes) : CM bytes :=
  post (str "sendrawtransaction") [PString serializedTx; PBool true; PBool false; PBool true] decode_send response_Err.

Definition SuggestedFeeRate (confTarget : Z) : CM float64 :=
  result <- post (str "estimatesmartfee") [PInt confTarget] decode_fee response_Err ;;
  rate <- liftO (orCrash result) ;;
  retM (FeeRate rate).

Definition PruneBlockchain (height : Z) : CM Z :=
  post (str "pruneblockchain") [PInt height] decode_prune response_Err.

Definition RawMempool : CM (list bytes) :=
  post (str "getrawmempool") [PBool false] decode_mempool response_Err.

Definition getPeerInfo : CM (list PeerInfo) := get (str "getpeerinfo") decode_peers response_Err.

Fixpoint GetPeersLoop (info : list PeerInfo) : CM (list (Peer JsonMap)) :=
  match info with
  | [] => retM []
  | peerInfo :: info =>
      match MarshalPeerInfo peerInfo with
      | None => failM ErrMarshal
      | Some metadata =>
          peers <- GetPeersLoop info ;;
          retM (mkPeer (pi_Addr peerInfo) (Some metadata) :: peers)
      end
  end.

Definition GetPeers : CM (list (Peer JsonMap)) :=
  info <- getPeerInfo ;;
  GetPeersLoop info.

Definition getBlockchainInfo : CM (option BlockchainInfo) := get (str "getblockchaininfo") decode_info response_Err.

Definition getHashFromIndex (index : Z) : CM bytes :=
  post (str "getblockhash") [PInt index] decode_hash response_Err.

Definition getBlockHash (identifier : option PartialBlockIdentifier) : CM bytes :=
  match identifier with
  | Some (mkPartialBlockIdentifier _ (Some hash)) => retM hash
  | Some (mkPartialBlockIdentifier (Some index) None) => getHashFromIndex index
  | None | Some (mkPartialBlockIdentifier None None) =>
      result <- getBlockchainInfo ;;
      info <- liftO (orCrash result) ;;
      retM (bci_BestBlockHash info)
  end.

Definition getBlock (identifier : option PartialBlockIdentifier) : CM (option Block) :=
  hash <- getBlockHash identifier ;;
  post (str "getblock") [PString hash; PInt 2] decode_block blockResponse_Err.

(** ** The coins of a block *)

Definition thoughtIsCoinbaseInput (input : Input) (txIndex inputIndex : Z) : bool :=
  (txIndex =? 0) && (inputIndex =? 0) && bool_decide (in_TxHash input = []) && bool_decide (in_Coinbase input <> []).

Definition getInputTxHash (input : Input) (txIndex inputIndex : Z) : option (bytes * Z) :=
  if thoughtIsCoinbaseInput input txIndex inputIndex then None else Some (in_TxHash input, in_Vout input).

(** The two loops of [GetRawBlock]. *)
Fixpoint inputCoins (inputs : list Input) (txIndex inputIndex : Z) (blockTxHashes coins : list bytes) : list bytes :=
  match inputs with
  | [] => coins
  | input :: inputs =>
      inputCoins inputs txIndex (inputIndex + 1) blockTxHashes
        match getInputTxHash input txIndex inputIndex with
        | None => coins
        | Some (txHash, vout) =>
            if negb (ContainsString blockTxHashes txHash) then coins ++ [CoinIdentifier txHash vout] else coins
        end
  end.

Fixpoint blockCoins (txs : list Transaction) (txIndex : Z) (blockTxHashes coins : list bytes) : list bytes :=
  match txs with
  | [] => coins
  | tx :: txs =>
      let blockTxHashes := blockTxHashes ++ [t_Hash tx] in
      blockCoins txs (txIndex + 1) blockTxHashes (inputCoins (t_Inputs tx) txIndex 0 blockTxHashes coins)
  end.

Definition GetRawBlock (identifier : option PartialBlockIdentifier) : CM (Block * list bytes) :=
  result <- getBlock identifier ;;
  block <- liftO (orCrash result) ;;
  retM (block, blockCoins (b_Txs block) 0 [] []).

(** ** Metadata *)

Definition Block_Metadata (bl : Block) : option JsonMap :=
  MarshalBlockMetadata (mkBlockMetadata (b_Nonce bl) (b_MerkleRoot bl) (b_Version bl) (b_Size bl) (b_Weight bl)
    (b_MedianTime bl) (b_Bits bl) (b_Difficulty bl) (b_CuckooProof bl)).

Definition Transaction_Metadata (t : Transaction) : option JsonMap :=
  MarshalTransactionMetadata (mkTransactionMetadata (t_Size t) (t_Vsize t) (t_Version t) (t_Locktime t) (t_Weight t)).

Definition Input_Metadata (i : Input) : option JsonMap :=
  MarshalOperationMetadata (mkOperationMetadata (in_Coinbase i) (in_ScriptSig i) (in_Sequence i) (in_TxInWitness i) None).

Definition Output_Metadata (o : Output) : option JsonMap :=
  MarshalOperationMetadata (mkOperationMetadata [] None 0 [] (out_ScriptPubKey o)).

Definition orMarshal {A} (o : option A) : outcome ClientErr A :=
  match o with Some a => Ret a | None => Fail ErrMarshal end.

(** ** Operations *)

Definition parseAmount (amount : float64) : outcome ClientErr Z :=
  match NewAmount amount with
  | Ret atomicAmount => if atomicAmount <? 0 then Fail (ErrAmount (ErrNegativeAmount atomicAmount)) else Ret (u64 atomicAmount)
  | Fail e => Fail (ErrAmount e)
  | Crash => Crash
  | NoFuel => NoFuel
  end.

Definition parseOutputAccount (scriptPubKey : ScriptPubKey) : AccountIdentifier :=
  match spk_Addresses scriptPubKey with
  | [address] => mkAccountIdentifier address
  | _ => mkAccountIdentifier (spk_Hex scriptPubKey)
  end.

Definition coinbaseTxOperation (input : Input) (index networkIndex : Z) : outcome ClientErr Operation :=
  let! metadata := orMarshal (Input_Metadata input) in
  Ret (mkOperation (mkOperationIdentifier index (Some networkIndex)) CoinbaseOpType (Some SuccessStatus) None None None
    (Some metadata)).

Definition parseInputTransactionOperation (input : Input) (index networkIndex : Z) (accountCoin : AccountCoin) :
    outcome ClientErr Operation :=
  let! metadata := orMarshal (Input_Metadata input) in
  let! amount := orCrash (coin_Amount (ac_Coin accountCoin)) in
  match NegateValue (amt_Value amount) with
  | None => Fail ErrNegate
  | Some newValue =>
      Ret (mkOperation (mkOperationIdentifier index (Some networkIndex)) InputOpType (Some SuccessStatus)
        (ac_Account accountCoin) (Some (mkAmount newValue (currency b)))
        (Some (mkCoinChange (CoinIdentifier (in_TxHash input) (in_Vout input)) CoinSpent)) (Some metadata))
  end.

Definition parseOutputTransactionOperation (output : Output) (txHash : bytes) (index networkIndex : Z) :
    outcome ClientErr Operation :=
  let! amount := parseAmount (out_Value output) in
  let! metadata := orMarshal (Output_Metadata output) in
  let coinChange := mkCoinChange (CoinIdentifier txHash networkIndex) CoinCreated in
  let! scriptPubKey := orCrash (out_ScriptPubKey output) in
  let account := parseOutputAccount scriptPubKey in
  let account := if zlen (acct_Address account) =? 0 then mkAccountIdentifier (CoinIdentifier txHash networkIndex) else account in
  Ret (mkOperation (mkOperationIdentifier index (Some networkIndex)) OutputOpType (Some SuccessStatus)
    (Some account) (Some (mkAmount (FormatInt (i64 amount)) (currency b)))
    (if bool_decide (spk_Type scriptPubKey = NullData) then None else Some coinChange) (Some metadata)).

Fixpoint parseInputs (tx : Transaction) (txIndex : Z) (coins : gmap bytes AccountCoin) (inputs : list Input)
    (networkIndex : Z) (txOps : list Operation) : outcome ClientErr (list Operation) :=
  match inputs with
  | [] => Ret txOps
  | input :: inputs =>
      if thoughtIsCoinbaseInput input txIndex networkIndex then
        let! txOp := coinbaseTxOperation input (zlen txOps) networkIndex in
        Ret (txOps ++ [txOp])
      else
        match coins !! CoinIdentifier (in_TxHash input) (in_Vout input) with
        | None => Fail (ErrMissingPreviousTx (in_TxHash input) (t_Hash tx) networkIndex)
        | Some accountCoin =>
            let! txOp := parseInputTransactionOperation input (zlen txOps) networkIndex accountCoin in
            parseInputs tx txIndex coins inputs (networkIndex + 1) (txOps ++ [txOp])
        end
  end.

Fixpoint parseOutputs (tx : Transaction) (outputs : list Output) (networkIndex : Z) (txOps : list Operation) :
    outcome ClientErr (list Operation) :=
  match outputs with
  | [] => Ret txOps
  | output :: outputs =>
      let! txOp := parseOutputTransactionOperation output (t_Hash tx) (zlen txOps) networkIndex in
      parseOutputs tx outputs (networkIndex + 1) (txOps ++ [txOp])
  end.

Definition parseTxOperations (tx : Transaction) (txIndex : Z) (coins : gmap bytes AccountCoin) :
    outcome ClientErr (list Operation) :=
  let! txOps := parseInputs tx txIndex coins (t_Inputs tx) 0 [] in
  parseOutputs tx (t_Outputs tx) 0 txOps.

Definition skipTransactionOperations (blockNumber : Z) (blockHash transactionHash : bytes) : bool := false.

Definition set_status (status : bytes) (op : Operation) : Operation :=
  mkOperation (op_OperationIdentifier op) (op_Type op) (Some status) (op_Account op) (op_Amount op) (op_CoinChange op)
    (op_Metadata op).

(** The map of coins belongs to the caller and is updated. *)
Fixpoint parseTransactionsLoop (block : Block) (txs : list Transaction) (index : Z) :
    M (gmap bytes AccountCoin) ClientErr (list (RTransaction JsonMap)) :=
  match txs with
  | [] => retM []
  | transaction :: txs =>
      coins <- getM ;;
      txOps <- liftO (parseTxOperations transaction index coins) ;;
      let txOps := if skipTransactionOperations (b_Height block) (b_Hash block) (t_Hash transaction)
                   then map (set_status SkippedStatus) txOps else txOps in
      metadata <- liftO (orMarshal (Transaction_Metadata transaction)) ;;
      modifyM (addCreated txOps) ;;
      rest <- parseTransactionsLoop block txs (index + 1) ;;
      retM (mkRTransaction (t_Hash transaction) txOps (Some metadata) :: rest)
  end.

Definition parseTransactions (block : option Block) : M (gmap bytes AccountCoin) ClientErr (list (RTransaction JsonMap)) :=
  match block with
  | None => failM ErrNilBlock
  | Some block => parseTransactionsLoop block (b_Txs block) 0
  end.

Definition parseBlockData (block : option Block) : outcome ClientErr (RBlock JsonMap) :=
  match block with
  | None => Fail ErrNilBlock
  | Some block =>
      let blockIndex := b_Height block in
      let genesis := blockIndex =? genesisBlockIndex in
      let previousBlockIndex := if genesis then genesisBlockIndex else i64 (blockIndex - 1) in
      let previousBlockHash := if genesis then b_Hash block else b_PreviousBlockHash block in
      let! metadata := orMarshal (Block_Metadata block) in
      Ret (mkRBlock (mkBlockIdentifier blockIndex (b_Hash block)) (mkBlockIdentifier previousBlockIndex previousBlockHash)
        (i64 (b_Time block * timeMultiplier)) [] (Some metadata))
  end.

Definition ParseBlock (block : option Block) : M (gmap bytes AccountCoin) ClientErr (RBlock JsonMap) :=
  rblock <- liftO (parseBlockData block) ;;
  txs <- parseTransactions block ;;
  retM (mkRBlock (rb_BlockIdentifier rblock) (rb_ParentBlockIdentifier rblock) (rb_Timestamp rblock) txs (rb_Metadata rblock)).

Definition NetworkStatus : CM (NetworkStatusResponse JsonMap) :=
  rawBlock <- getBlock None ;;
  currentBlock <- liftO (parseBlockData rawBlock) ;;
  peers <- GetPeers ;;
  retM (mkNetworkStatusResponse (rb_BlockIdentifier currentBlock) (rb_Timestamp currentBlock)
    (genesisBlockIdentifier b) peers).
End client.
