(* ===== verification/ClientFacts.v ===== *)
(** Theorems on the node client: what [GetRawBlock] asks for is enough for
    [ParseBlock], and the operations [ParseBlock] makes mirror the block. *)

From S2P Require Import Prelude Digits Float64 Amount Rosetta Coins Client.
From Stdlib Require Import Floats.SpecFloat.

(** ** A concrete SDK and node *)

Definition toy_negate (s : bytes) : option bytes :=
  match s with
  | [] => None
  | c :: s' => if b2z c =? 45 then Some s' else if bool_decide (s = str "0") then Some s else Some (str "-" ++ s)
  end.

#[export] Instance toy_sdk : SDK := {
  JsonMap := BlockMetadata + TransactionMetadata + OperationMetadata + PeerInfo + bytes;
  MarshalBlockMetadata m :=
    match bm_Difficulty m with S754_nan | S754_infinity _ => None | _ => Some (inl (inl (inl (inl m)))) end;
  MarshalTransactionMetadata m := Some (inl (inl (inl (inr m))));
  MarshalOperationMetadata m := Some (inl (inl (inr m)));
  MarshalPeerInfo m := Some (inl (inr m));
  NegateValue := toy_negate;
  ContainsString l s := bool_decide (s ∈ l) }.

Lemma FormatUint_pos_form x : 0 < x ->
  exists c s, FormatUint x = c :: s /\ b2z c <> 45 /\ FormatUint x <> str "0".
Proof.
  intros Hx. pose proof (FormatInt_chars x ltac:(lia)) as Hc. unfold FormatInt in Hc.
  rewrite (proj2 (Z.ltb_ge _ _)) in Hc by lia.
  assert (FormatUint x <> str "0") by (intros E; apply (FormatUint_inj x 0) in E; lia).
  destruct (FormatUint x) as [|c s] eqn:E; [by apply FormatUint_nonempty in E; lia|].
  exists c, s. split_and!; [done| |done]. inversion_clear Hc. cbn beta in *. lia.
Qed.

#[export] Instance toy_sdk_laws : SDKLaws toy_sdk.
Proof.
  split; cbn.
  - intros m [Hn Hi]. destruct (bm_Difficulty m) as [|s| |]; try done. by destruct (Hi s).
  - done.
  - done.
  - intros z. unfold FormatInt. destruct (Z.lt_trichotomy z 0) as [Hz|[->|Hz]]; [|by vm_compute|].
    + rewrite (proj2 (Z.ltb_lt z 0)), (proj2 (Z.ltb_ge (- z) 0)) by lia. done.
    + rewrite (proj2 (Z.ltb_ge z 0)), (proj2 (Z.ltb_lt (- z) 0)), Z.opp_involutive by lia.
      destruct (FormatUint_pos_form z Hz) as (c & s & E & H1 & H2). rewrite E in H2 |- *. cbn [toy_negate].
      rewrite (proj2 (Z.eqb_neq _ _)) by done. by rewrite bool_decide_eq_false_2.
  - intros l s. rewrite bool_decide_eq_true. apply list_elem_of_In.
Qed.

(** A node that always returns the same block. *)
Definition toy_node (block : Block) : Node := {|
  World := unit;
  exchange _ _ w := (Some (200, []), w);
  decode_block _ := Some (mkResponse _ (Some block) None);
  decode_info _ := Some (mkResponse _ (Some (mkBlockchainInfo (str "main") 1 (b_Hash block))) None);
  decode_hash _ := Some (mkResponse _ (b_Hash block) None);
  decode_peers _ := Some (mkResponse _ [] None);
  decode_prune _ := Some (mkResponse _ 0 None);
  decode_send _ := Some (mkResponse _ [] None);
  decode_fee _ := Some (mkResponse _ None None);
  decode_mempool _ := Some (mkResponse _ [] None) |}.

(** ** The operations of a transaction *)

Section facts.
Context {K : SDK} `{FloatConv} (b : Client).

(** What the operation of an input says, given the coins that can be spent. *)
Definition input_op (coins : gmap bytes AccountCoin) (txIndex j : Z) (input : Input) (op : Operation JsonMap) : Prop :=
  let id := CoinIdentifier (in_TxHash input) (in_Vout input) in
  if thoughtIsCoinbaseInput input txIndex j then
    op_Type op = CoinbaseOpType /\ op_Account op = None /\ op_Amount op = None /\ op_CoinChange op = None
  else
    op_Type op = InputOpType /\ op_CoinChange op = Some (mkCoinChange id CoinSpent)
    /\ exists ac a v, coins !! id = Some ac /\ op_Account op = ac_Account ac /\ coin_Amount (ac_Coin ac) = Some a
         /\ NegateValue (amt_Value a) = Some v /\ op_Amount op = Some (mkAmount v (currency b)).

(** To whom an output belongs: to its address, if it has exactly one; otherwise the
    hexadecimal script stands for the owner; and an output with neither is named
    by its coin. *)
Definition output_address (txHash : bytes) (j : Z) (spk : ScriptPubKey) : bytes :=
  let named := if bool_decide (length (spk_Addresses spk) = 1%nat) then default [] (head (spk_Addresses spk)) else spk_Hex spk in
  if bool_decide (named = []) then CoinIdentifier txHash j else named.

(** What the operation of an output says. *)
Definition output_op (txHash : bytes) (j : Z) (output : Output) (op : Operation JsonMap) : Prop :=
  op_Type op = OutputOpType /\ (exists md, Output_Metadata output = Some md /\ op_Metadata op = Some md)
  /\ exists n spk, parseAmount (out_Value output) = Ret n /\ 0 <= n < 2 ^ 63 /\ out_ScriptPubKey output = Some spk
       /\ op_Amount op = Some (mkAmount (FormatInt n) (currency b))
       /\ op_Account op = Some (mkAccountIdentifier (output_address txHash j spk)) /\ output_address txHash j spk <> []
       /\ op_CoinChange op = if bool_decide (spk_Type spk = NullData) then None
                             else Some (mkCoinChange (CoinIdentifier txHash j) CoinCreated).

Definition op_position (index j : Z) (op : Operation JsonMap) : Prop :=
  op_OperationIdentifier op = mkOperationIdentifier index (Some j) /\ op_Status op = Some SuccessStatus.

(** The inputs that get an operation: a coinbase input is the last one. *)
Fixpoint used_inputs (txIndex j : Z) (inputs : list Input) : list Input :=
  match inputs with
  | [] => []
  | i :: inputs => i :: if thoughtIsCoinbaseInput i txIndex j then [] else used_inputs txIndex (j + 1) inputs
  end.

(** Lists with their positions. *)
Fixpoint related {A B} (R : Z -> A -> B -> Prop) (j : Z) (l : list A) (k : list B) : Prop :=
  match l, k with
  | [], [] => True
  | a :: l, c :: k => R j a c /\ related R (j + 1) l k
  | _, _ => False
  end.

Lemma related_lookup {A B} (R : Z -> A -> B -> Prop) l : forall j k, related R j l k ->
  length k = length l /\ forall n a, l !! n = Some a -> exists c, k !! n = Some c /\ R (j + Z.of_nat n) a c.
Proof.
  induction l as [|a l IH]; intros j [|c k] Hr; try done. destruct Hr as [Hac Hr].
  destruct (IH (j + 1) k Hr) as [Hl Hn]. split; [by cbn; f_equal|]. intros [|n] x Hx.
  - injection Hx as <-. exists c. rewrite Z.add_0_r. done.
  - destruct (Hn n x Hx) as (y & Hy & Hxy). exists y. split; [done|]. by replace (j + Z.of_nat (S n)) with (j + 1 + Z.of_nat n) by lia.
Qed.

Lemma related_Forall {A B} (R : Z -> A -> B -> Prop) (P : B -> Prop) l : forall j k,
  (forall j a c, R j a c -> P c) -> related R j l k -> Forall P k.
Proof.
  induction l as [|a l IH]; intros j [|c k] HP Hr; try done. destruct Hr as [Hac Hr]. constructor; [by eapply HP|by eapply IH].
Qed.

Definition input_rel coins txIndex index (j : Z) (i : Input) (op : Operation JsonMap) : Prop :=
  input_op coins txIndex j i op /\ op_position (index + j) j op.
Definition output_rel txHash index (j : Z) (o : Output) (op : Operation JsonMap) : Prop :=
  output_op txHash j o op /\ op_position (index + j) j op.

Lemma orMarshal_Ret {A} (o : option A) a : orMarshal o = Ret a -> o = Some a.
Proof. destruct o; by intros [= ->]. Qed.

Lemma parseInputs_spec tx txIndex coins inputs : forall j acc ops,
  parseInputs b tx txIndex coins inputs j acc = Ret ops ->
  exists new, ops = acc ++ new /\ related (input_rel coins txIndex (zlen acc - j)) j (used_inputs txIndex j inputs) new.
Proof.
  induction inputs as [|i inputs IH]; intros j acc ops; cbn [parseInputs used_inputs].
  { intros [= <-]. exists []. by rewrite app_nil_r. }
  destruct (thoughtIsCoinbaseInput i txIndex j) eqn:Hcb.
  - unfold coinbaseTxOperation. intros Hr. apply bindO_Ret in Hr as (op & Hop & [= <-]).
    apply bindO_Ret in Hop as (md & _ & [= <-]). eexists [_]. split; [done|]. split; [|done].
    unfold input_rel, input_op, op_position. rewrite Hcb. cbn. by rewrite Z.sub_add.
  - destruct (coins !! _) as [ac|] eqn:Hac; [|done]. intros Hr. apply bindO_Ret in Hr as (op & Hop & Hr).
    apply IH in Hr as (new & -> & Hnew). exists (op :: new). rewrite <- app_assoc. split; [done|]. split.
    + apply bindO_Ret in Hop as (md & _ & Hop). apply bindO_Ret in Hop as (a & Ha & Hop).
      destruct (NegateValue _) as [v|] eqn:Hv; [|done]. injection Hop as <-.
      unfold input_rel, input_op, op_position. rewrite Hcb. cbn. rewrite Z.sub_add. split; [|done]. split_and!; try done.
      destruct (coin_Amount _) as [a'|] eqn:Ea; [|done]. injection Ha as ->. by exists ac, a, v.
    + rewrite zlen_app in Hnew. change (zlen [op]) with 1 in Hnew. by replace (zlen acc - j) with (zlen acc + 1 - (j + 1)) by lia.
Qed.

Lemma parseAmount_range f n : parseAmount f = Ret n -> 0 <= n < 2 ^ 63.
Proof.
  unfold parseAmount. destruct (NewAmount f) as [a| | |] eqn:E; try done. destruct (Z.ltb_spec a 0); [done|]. intros [= <-].
  assert (a < 2 ^ 63); [|rewrite u64_id by lia; lia].
  unfold NewAmount in E. destruct (_ || _); [done|]. injection E as <-. unfold round. destruct (flt _ _); apply to_int64_range.
Qed.

Lemma parseOutputAccount_spec txHash j spk :
  (if zlen (acct_Address (parseOutputAccount spk)) =? 0 then mkAccountIdentifier (CoinIdentifier txHash j)
   else parseOutputAccount spk) = mkAccountIdentifier (output_address txHash j spk).
Proof.
  unfold output_address. cbv zeta.
  set (named := if bool_decide (length (spk_Addresses spk) = 1%nat) then _ else _).
  assert (parseOutputAccount spk = mkAccountIdentifier named) as ->
    by (subst named; unfold parseOutputAccount; destruct (spk_Addresses spk) as [|a [|a' l]];
        [by rewrite bool_decide_false|by rewrite bool_decide_true|by rewrite bool_decide_false]).
  cbn [acct_Address]. destruct named as [|c named]; [done|]. rewrite bool_decide_false by done.
  rewrite zlen_cons, (proj2 (Z.eqb_neq _ _)); [done|]. pose proof (zlen_nonneg named). lia.
Qed.

Lemma parseOutputs_spec tx outputs : forall j acc ops, parseOutputs b tx outputs j acc = Ret ops ->
  exists new, ops = acc ++ new /\ related (output_rel (t_Hash tx) (zlen acc - j)) j outputs new.
Proof.
  induction outputs as [|o outputs IH]; intros j acc ops; cbn [parseOutputs].
  { intros [= <-]. exists []. by rewrite app_nil_r. }
  intros Hr. apply bindO_Ret in Hr as (op & Hop & Hr). apply IH in Hr as (new & -> & Hnew).
  exists (op :: new). rewrite <- app_assoc. split; [done|]. split.
  - apply bindO_Ret in Hop as (n & Hn & Hop). apply bindO_Ret in Hop as (md & Hmd & Hop). apply bindO_Ret in Hop as (spk & Hspk & Hop).
    injection Hop as <-. unfold output_rel, op_position. cbn. rewrite Z.sub_add. split; [|done].
    destruct (out_ScriptPubKey o) as [spk'|] eqn:Es; [|done]. injection Hspk as ->. pose proof (parseAmount_range _ _ Hn).
    apply orMarshal_Ret in Hmd. split; [done|]. split; [by exists md|].
    exists n, spk. split_and!; try done; [lia..|by rewrite i64_id by lia|by rewrite parseOutputAccount_spec|].
    unfold output_address. cbv zeta. destruct (bool_decide (_ = [])) eqn:Hz; [|by apply bool_decide_eq_false in Hz].
    unfold CoinIdentifier. by destruct (t_Hash tx).
  - rewrite zlen_app in Hnew. change (zlen [op]) with 1 in Hnew. by replace (zlen acc - j) with (zlen acc + 1 - (j + 1)) by lia.
Qed.

(** The coins that can be spent after some transactions. *)
Definition available (coins : gmap bytes AccountCoin) (rtxs : list (RTransaction JsonMap)) : gmap bytes AccountCoin :=
  foldl (fun c r => addCreated (rtx_Operations r) c) coins rtxs.

(** The operations of a transaction are those of its inputs, then those of its
    outputs. *)
Definition mirrors (coins : gmap bytes AccountCoin) (txIndex : Z) (tx : Transaction) (rtx : RTransaction JsonMap) : Prop :=
  rtx_Hash rtx = t_Hash tx
  /\ exists opsI opsO, rtx_Operations rtx = opsI ++ opsO
       /\ related (input_rel coins txIndex 0) 0 (used_inputs txIndex 0 (t_Inputs tx)) opsI
       /\ related (output_rel (t_Hash tx) (zlen opsI)) 0 (t_Outputs tx) opsO.

Lemma parseTxOperations_spec tx txIndex coins ops : parseTxOperations b tx txIndex coins = Ret ops ->
  exists opsI opsO, ops = opsI ++ opsO
    /\ related (input_rel coins txIndex 0) 0 (used_inputs txIndex 0 (t_Inputs tx)) opsI
    /\ related (output_rel (t_Hash tx) (zlen opsI)) 0 (t_Outputs tx) opsO.
Proof.
  unfold parseTxOperations. intros Hr. apply bindO_Ret in Hr as (opsI & HI & HO).
  apply parseInputs_spec in HI as (new & -> & HI). apply parseOutputs_spec in HO as (newO & -> & HO).
  cbn [app] in *. change (zlen [] - 0) with 0 in HI. rewrite Z.sub_0_r in HO. by exists new, newO.
Qed.

Lemma parseTransactionsLoop_spec block txs : forall index coins rtxs coins',
  parseTransactionsLoop b block txs index coins = (Ret rtxs, coins') ->
  coins' = available coins rtxs /\ length rtxs = length txs
  /\ forall k tx, txs !! k = Some tx ->
       exists rtx, rtxs !! k = Some rtx /\ mirrors (available coins (take k rtxs)) (index + Z.of_nat k) tx rtx.
Proof.
  induction txs as [|tx txs IH]; intros index coins rtxs coins' Hr; cbn [parseTransactionsLoop] in Hr.
  { injection Hr as <- <-. done. }
  rewrite (bindM_step getM _ coins coins coins) in Hr by done.
  apply bindM_Ret in Hr as (ops & s1 & Hops & Hr). injection Hops as Hops <-. cbn [skipTransactionOperations] in Hr. cbv zeta in Hr.
  apply bindM_Ret in Hr as (md & s2 & Hmd & Hr). injection Hmd as _ <-.
  apply bindM_Ret in Hr as (u & s3 & Hu & Hr). injection Hu as _ <-.
  apply bindM_Ret in Hr as (rest & s4 & Hrest & Hr). injection Hr as <- ->.
  apply IH in Hrest as (-> & Hl & Hk). split; [done|]. split; [by cbn; f_equal|]. intros [|k] tx' Hx.
  - injection Hx as <-. eexists. split; [done|]. split; [done|]. cbn [take available foldl rtx_Operations].
    rewrite Z.add_0_r. by apply parseTxOperations_spec.
  - destruct (Hk k tx' Hx) as (rtx & Hr1 & Hr2). exists rtx. split; [done|].
    by replace (index + Z.of_nat (S k)) with (index + 1 + Z.of_nat k) by lia.
Qed.
End facts.

(** ** Completeness of the coins *)

Definition priced (coins : gmap bytes AccountCoin) (id : bytes) : Prop :=
  exists ac z cur, coins !! id = Some ac /\ coin_Amount (ac_Coin ac) = Some (mkAmount (FormatInt z) cur).

(** The identifiers of the coins a list of outputs creates. *)
Fixpoint coin_ids (txHash : bytes) (j : Z) (outputs : list Output) : list bytes :=
  match outputs with
  | [] => []
  | o :: outputs =>
      match out_ScriptPubKey o with
      | Some spk => if bool_decide (spk_Type spk = NullData) then [] else [CoinIdentifier txHash j]
      | None => []
      end ++ coin_ids txHash (j + 1) outputs
  end.

(** An input that names a transaction of the block spends a coin that an earlier
    transaction of the block creates. *)
Fixpoint spends_earlier (seen ids : list bytes) (txs : list Transaction) : Prop :=
  match txs with
  | [] => True
  | tx :: txs =>
      let seen := seen ++ [t_Hash tx] in
      Forall (fun i => In (in_TxHash i) seen -> In (CoinIdentifier (in_TxHash i) (in_Vout i)) ids) (t_Inputs tx)
      /\ spends_earlier seen (ids ++ coin_ids (t_Hash tx) 0 (t_Outputs tx)) txs
  end.

Definition output_ok `{FloatConv} (o : Output) : Prop :=
  (exists n, parseAmount (out_Value o) = Ret n) /\ is_Some (out_ScriptPubKey o).

Lemma addCreated_lookup {J} (ops : list (Operation J)) id : forall coins,
  (exists op c, In op ops /\ created_coin op = Some (id, c) /\ addCreated ops coins !! id = Some c)
  \/ (addCreated ops coins !! id = coins !! id /\ forall op c, In op ops -> created_coin op <> Some (id, c)).
Proof.
  induction ops as [|op ops IH]; intros coins; cbn [addCreated]; [by right|].
  set (coins' := match created_coin op with Some (id, c) => <[id := c]> coins | None => coins end).
  destruct (IH coins') as [(op' & c & Hin & Hc & Hl)|[Hl Hn]]; [left; exists op', c; split; [by right|done]|].
  rewrite Hl. unfold coins'. destruct (created_coin op) as [[id' c]|] eqn:E.
  - destruct (decide (id' = id)) as [->|Hne].
    + left. exists op, c. rewrite lookup_insert_eq. split; [by left|done].
    + right. rewrite lookup_insert_ne by done. split; [done|]. intros op' c' [->|Hin]; [congruence|by apply Hn].
  - right. split; [done|]. intros op' c' [->|Hin]; [congruence|by apply Hn].
Qed.

Section complete.
Context {K : SDK} {L : SDKLaws K} `{FloatConv} (b : Client).
#[local] Set Default Proof Using "Type*".

Lemma inputCoins_incl txIndex seen inputs x : forall j acc, In x acc -> In x (inputCoins inputs txIndex j seen acc).
Proof.
  induction inputs as [|i inputs IH]; intros j acc Hx; [done|]. cbn [inputCoins]. apply IH.
  destruct (getInputTxHash _ _ _) as [[h v]|]; [|done]. destruct (negb _); [|done]. apply in_or_app. by left.
Qed.

Lemma blockCoins_incl txs x : forall txIndex seen acc, In x acc -> In x (blockCoins txs txIndex seen acc).
Proof. induction txs as [|tx txs IH]; intros txIndex seen acc Hx; [done|]. cbn [blockCoins]. by apply IH, inputCoins_incl. Qed.

Lemma inputCoins_complete txIndex seen inputs : forall j acc n i, inputs !! n = Some i ->
  thoughtIsCoinbaseInput i txIndex (j + Z.of_nat n) = false -> ~ In (in_TxHash i) seen ->
  In (CoinIdentifier (in_TxHash i) (in_Vout i)) (inputCoins inputs txIndex j seen acc).
Proof.
  induction inputs as [|i' inputs IH]; intros j acc [|n] i Hi Hc Hs; try done; cbn [inputCoins].
  - injection Hi as ->. rewrite Z.add_0_r in Hc. unfold getInputTxHash. rewrite Hc. apply inputCoins_incl.
    destruct (ContainsString seen (in_TxHash i)) eqn:E; [by apply contains_string in E|]. cbn [negb]. apply in_or_app. right. by left.
  - apply IH with n; [done| |done]. by replace (j + 1 + Z.of_nat n) with (j + Z.of_nat (S n)) by lia.
Qed.

Lemma parseInputs_total tx txIndex coins inputs : forall j acc,
  (forall n i, inputs !! n = Some i -> thoughtIsCoinbaseInput i txIndex (j + Z.of_nat n) = false ->
     priced coins (CoinIdentifier (in_TxHash i) (in_Vout i))) ->
  exists ops, parseInputs b tx txIndex coins inputs j acc = Ret ops.
Proof.
  induction inputs as [|i inputs IH]; intros j acc Hp; cbn [parseInputs]; [by eexists|].
  destruct (marshal_operation (mkOperationMetadata (in_Coinbase i) (in_ScriptSig i) (in_Sequence i) (in_TxInWitness i) None)) as [md Hmd].
  destruct (thoughtIsCoinbaseInput i txIndex j) eqn:Hc.
  - unfold coinbaseTxOperation, Input_Metadata. rewrite Hmd. by eexists.
  - destruct (Hp 0%nat i eq_refl) as (ac & z & cur & Hac & Ha); [by rewrite Z.add_0_r|]. rewrite Hac.
    unfold parseInputTransactionOperation, Input_Metadata. rewrite Hmd, Ha. cbn [orMarshal orCrash bindO amt_Value].
    rewrite negate_int. cbn [bindO]. apply IH. intros n i' Hi Hc'. apply (Hp (S n) i' Hi).
    by replace (j + Z.of_nat (S n)) with (j + 1 + Z.of_nat n) by lia.
Qed.

Lemma parseOutputs_total tx outputs : Forall output_ok outputs -> forall j acc,
  exists ops, parseOutputs b tx outputs j acc = Ret ops.
Proof.
  induction 1 as [|o outputs [[n Hn] [spk Hs]] Ho IH]; intros j acc; cbn [parseOutputs]; [by eexists|].
  destruct (marshal_operation (mkOperationMetadata [] None 0 [] (out_ScriptPubKey o))) as [md Hmd].
  unfold parseOutputTransactionOperation, Output_Metadata. rewrite Hn, Hmd, Hs. cbn [bindO orMarshal orCrash]. apply IH.
Qed.

Lemma outputs_create h index id outs : forall j opsO, related (output_rel b h index) j outs opsO ->
  In id (coin_ids h j outs) -> exists op c, In op opsO /\ created_coin op = Some (id, c).
Proof.
  induction outs as [|o outs IH]; intros j [|op opsO] HO Hid; try done.
  destruct HO as [[(_ & _ & n & spk & _ & _ & Hs & _ & _ & _ & Hcc) _] HO].
  cbn [coin_ids] in Hid. rewrite Hs in Hid. apply in_app_or in Hid as [Hid|Hid].
  - unfold created_coin. destruct (bool_decide _); [done|]. destruct Hid as [<-|[]].
    exists op. rewrite Hcc. eexists. split; [by left|done].
  - destruct (IH _ _ HO Hid) as (op' & c & Hin & Hc). exists op', c. split; [by right|done].
Qed.

(** What the outputs of a transaction create is priced, and nothing else is
    created. *)
Lemma mirrors_priced coins txIndex tx rtx id : mirrors b coins txIndex tx rtx ->
  (In id (coin_ids (t_Hash tx) 0 (t_Outputs tx)) \/ priced coins id) -> priced (addCreated (rtx_Operations rtx) coins) id.
Proof.
  intros (_ & opsI & opsO & -> & HI & HO) Hid.
  assert (Hcr : forall op c, In op (opsI ++ opsO) -> created_coin op = Some (id, c) ->
    exists z cur, coin_Amount (ac_Coin c) = Some (mkAmount (FormatInt z) cur)).
  { intros op c Hin. apply in_app_or in Hin as [Hin|Hin].
    - eapply (related_Forall _ (fun op => created_coin op = None)) in HI.
      + rewrite List.Forall_forall in HI. by rewrite HI.
      + intros j i op' [Hop _]. unfold input_op in Hop. unfold created_coin. destruct (thoughtIsCoinbaseInput i txIndex j).
        * by destruct Hop as (_ & _ & _ & ->).
        * by destruct Hop as (_ & -> & _).
    - eapply (related_Forall _ (fun op => forall c, created_coin op = Some (id, c) ->
        exists z cur, coin_Amount (ac_Coin c) = Some (mkAmount (FormatInt z) cur))) in HO.
      + rewrite List.Forall_forall in HO. by apply HO.
      + intros j o op' [(_ & _ & n & spk & _ & _ & _ & Ha & _ & _ & Hcc) _] c'. unfold created_coin. rewrite Hcc.
        destruct (bool_decide _); [done|]. cbn. intros [= _ <-]. rewrite Ha. cbn. eauto. }
  destruct (addCreated_lookup (opsI ++ opsO) id coins) as [(op & c & Hin & Hc & Hl)|[Hl Hn]].
  - destruct (Hcr op c Hin Hc) as (z & cur & Hz). by exists c, z, cur.
  - destruct Hid as [Hid|Hid]; [|unfold priced; by rewrite Hl]. exfalso.
    destruct (outputs_create _ _ _ _ _ _ HO Hid) as (op & c & Hin & Hc). eapply Hn; [|exact Hc]. apply in_or_app. by right.
Qed.

Lemma parseTransactionsLoop_total block txs : forall index seen acc ids coins,
  Forall (fun tx => Forall output_ok (t_Outputs tx)) txs -> spends_earlier seen ids txs ->
  (forall id, In id ids \/ In id (blockCoins txs index seen acc) -> priced coins id) ->
  exists rtxs coins', parseTransactionsLoop b block txs index coins = (Ret rtxs, coins').
Proof.
  induction txs as [|tx txs IH]; intros index seen acc ids coins Ho Hs Hp; cbn [parseTransactionsLoop]; [by eexists _, _|].
  inversion_clear Ho as [|? ? Ho1 Ho2]. destruct Hs as [Hs1 Hs2]. cbn [blockCoins] in Hp. cbv zeta in Hp, Hs1, Hs2.
  assert (exists ops, parseTxOperations b tx index coins = Ret ops) as [ops Hops].
  { destruct (parseInputs_total tx index coins (t_Inputs tx) 0 []) as [opsI HI].
    - intros n i Hi Hc. apply Hp. destruct (ContainsString (seen ++ [t_Hash tx]) (in_TxHash i)) eqn:E.
      + apply contains_string in E. left. rewrite Forall_forall in Hs1. apply Hs1; [|done]. by eapply list_elem_of_lookup_2.
      + right. apply blockCoins_incl, inputCoins_complete with n; [done|done|]. rewrite <- contains_string. by rewrite E.
    - destruct (parseOutputs_total tx (t_Outputs tx) Ho1 0 opsI) as [ops HO]. exists ops. unfold parseTxOperations. by rewrite HI. }
  destruct (marshal_transaction (mkTransactionMetadata (t_Size tx) (t_Vsize tx) (t_Version tx) (t_Locktime tx) (t_Weight tx))) as [md Hmd].
  rewrite (bindM_step getM _ coins coins coins) by done. rewrite (bindM_step _ _ coins ops coins) by (unfold liftO; by rewrite Hops).
  cbn [skipTransactionOperations]. cbv zeta. rewrite (bindM_step _ _ coins md coins) by (unfold liftO, Transaction_Metadata; by rewrite Hmd).
  rewrite (bindM_step (modifyM _) _ coins tt (addCreated ops coins)) by done.
  edestruct IH as (rest & coins' & E); [exact Ho2|exact Hs2| |by rewrite (bindM_step _ _ _ _ _ E); eexists _, _].
  intros id Hid. change ops with (rtx_Operations (mkRTransaction (t_Hash tx) ops (Some md))).
  apply mirrors_priced with index tx; [split; [done|]; by apply parseTxOperations_spec|].
  destruct Hid as [Hid|Hid]; [|right; apply Hp; by right]. apply in_app_or in Hid as [Hid|Hid]; [right; apply Hp; by left|by left].
Qed.
End complete.

(** C22: a parsed block mirrors the block of the node.  Identifiers and the
    parent of the genesis block are right; every transaction has one operation for
    each input up to a coinbase, then one for each output, numbered from 0; an
    input takes the account and the negated value of the coin it spends, looked up
    among the given coins and those created by earlier transactions of the block;
    an output has its amount, belongs to its one address (or, without exactly one,
    to its script, or failing that to its coin), and creates a coin
    unless it is provably unspendable.  The caller's map ends up with all created
    coins added. *)
Theorem ParseBlock_mirrors {K : SDK} `{FloatConv} (b : Client) (block : Block) (coins coins' : gmap bytes AccountCoin)
    (rb : RBlock JsonMap) :
  ParseBlock b (Some block) coins = (Ret rb, coins') ->
  rb_BlockIdentifier rb = mkBlockIdentifier (b_Height block) (b_Hash block)
  /\ rb_ParentBlockIdentifier rb =
       (if b_Height block =? 0 then rb_BlockIdentifier rb
        else mkBlockIdentifier (i64 (b_Height block - 1)) (b_PreviousBlockHash block))
  /\ coins' = available coins (rb_Transactions rb)
  /\ length (rb_Transactions rb) = length (b_Txs block)
  /\ forall k tx, b_Txs block !! k = Some tx ->
       let ins := used_inputs (Z.of_nat k) 0 (t_Inputs tx) in
       exists rtx, rb_Transactions rb !! k = Some rtx /\ rtx_Hash rtx = t_Hash tx
         /\ length (rtx_Operations rtx) = (length ins + length (t_Outputs tx))%nat
         /\ (forall i op, rtx_Operations rtx !! i = Some op ->
               oi_Index (op_OperationIdentifier op) = Z.of_nat i /\ op_Status op = Some SuccessStatus)
         /\ (forall j input, ins !! j = Some input -> exists op, rtx_Operations rtx !! j = Some op
               /\ input_op b (available coins (take k (rb_Transactions rb))) (Z.of_nat k) (Z.of_nat j) input op)
         /\ (forall j output, t_Outputs tx !! j = Some output -> exists op, rtx_Operations rtx !! (length ins + j)%nat = Some op
               /\ output_op b (t_Hash tx) (Z.of_nat j) output op).
Proof.
  unfold ParseBlock. intros Hr. apply bindM_Ret in Hr as (rb0 & s1 & Hd & Hr). injection Hd as Hd <-.
  apply bindM_Ret in Hr as (txs & s2 & Ht & Hr). injection Hr as <- ->. cbn [parseBlockData] in Hd. cbv zeta in Hd.
  apply bindO_Ret in Hd as (md & _ & [= <-]). cbn [rb_BlockIdentifier rb_ParentBlockIdentifier rb_Transactions].
  apply parseTransactionsLoop_spec in Ht as (-> & Hl & Hk).
  split; [done|]. split; [by destruct (Z.eqb_spec (b_Height block) 0) as [->|]|]. split; [done|]. split; [done|].
  intros k tx Hx. set (ins := used_inputs (Z.of_nat k) 0 (t_Inputs tx)). destruct (Hk k tx Hx) as (rtx & Hr1 & Hh & opsI & opsO & Eops & HI & HO). rewrite Z.add_0_l in HI. fold ins in HI.
  destruct (related_lookup _ _ _ _ HI) as [LI FI], (related_lookup _ _ _ _ HO) as [LO FO].
  exists rtx. rewrite Eops, length_app, LI, LO. split_and!; [done|done|done| | |].
  - intros i op Hi. apply lookup_app_Some in Hi as [Hi|[Hge Hi]].
    + destruct (ins !! i) as [a|] eqn:Ea; [|apply lookup_ge_None in Ea; apply lookup_lt_Some in Hi; lia].
      destruct (FI i a Ea) as (op' & Hop' & _ & Hp & Hs). rewrite Hi in Hop'. injection Hop' as <-. rewrite Hp. cbn. split; [lia|done].
    + destruct (t_Outputs tx !! (i - length opsI)%nat) as [a|] eqn:Ea; [|apply lookup_ge_None in Ea; apply lookup_lt_Some in Hi; lia].
      destruct (FO _ a Ea) as (op' & Hop' & _ & Hp & Hs). rewrite Hi in Hop'. injection Hop' as <-. rewrite Hp. cbn.
      split; [unfold zlen; lia|done].
  - intros j i Hj. destruct (FI j i Hj) as (op & Hop & Hin & _). exists op. rewrite Z.add_0_l in Hin.
    split; [by apply lookup_app_l_Some|done].
  - intros j o Hj. destruct (FO j o Hj) as (op & Hop & Hout & _). exists op. split; [|done].
    rewrite lookup_app_r, <- LI, Nat.add_comm, Nat.add_sub by lia. done.
Qed.

(** C21: the coins [GetRawBlock] asks for are enough: if they are given, each with
    an amount, the outputs have readable amounts, and an input that names a
    transaction of the same block spends a coin created before it, then
    [ParseBlock] returns a block, and does not miss a previous transaction. *)
Theorem GetRawBlock_coins_suffice {K : SDK} {L : SDKLaws K} {N : Node} `{FloatConv} (b : Client)
    (identifier : option PartialBlockIdentifier) (w w' : World) (block : Block) (ids : list bytes)
    (coins : gmap bytes AccountCoin) :
  GetRawBlock b identifier w = (Ret (block, ids), w') ->
  Forall (fun tx => Forall output_ok (t_Outputs tx)) (b_Txs block) -> spends_earlier [] [] (b_Txs block) ->
  finite (b_Difficulty block) -> Forall (priced coins) ids ->
  exists rb coins', ParseBlock b (Some block) coins = (Ret rb, coins').
Proof.
  intros Hg Ho Hs Hd Hp. unfold GetRawBlock in Hg. apply bindM_Ret in Hg as (r & w1 & _ & Hg).
  apply bindM_Ret in Hg as (bl & w2 & _ & Hg). injection Hg as <- <- <-.
  destruct (parseTransactionsLoop_total b bl (b_Txs bl) 0 [] [] [] coins Ho Hs) as (rtxs & coins' & E).
  { intros id [[]|Hid]. rewrite List.Forall_forall in Hp. by apply Hp. }
  destruct (marshal_block (mkBlockMetadata (b_Nonce bl) (b_MerkleRoot bl) (b_Version bl) (b_Size bl) (b_Weight bl)
    (b_MedianTime bl) (b_Bits bl) (b_Difficulty bl) (b_CuckooProof bl)) Hd) as [md Hmd].
  unfold ParseBlock. cbn [parseBlockData]. unfold Block_Metadata. rewrite Hmd. cbn [orMarshal bindO].
  erewrite bindM_step by done. cbn [parseTransactions]. by rewrite (bindM_step _ _ _ _ _ E); eexists _, _.
Qed.

(** ** A block

    A coinbase, a transaction that spends a coin of an earlier block, and one that
    spends an output of the second one. *)

Definition sample_hash (z : Z) : bytes := replicate 64 (z2b z).
Definition sample_script : ScriptPubKey := mkScriptPubKey (str "asm") (str "76a9") 1 (str "pubkeyhash") [str "address"].
Definition sample_output (notions : Z) : Output := mkOutput (ToTHT notions) 0 (Some sample_script).
Definition sample_input (hash : bytes) (vout : Z) : Input := mkInput hash vout None 0xffffffff [] [].
Definition sample_tx (hash : bytes) (ins : list Input) (outs : list Output) : Transaction :=
  mkTransaction [] hash 200 200 2 0 800 ins outs.
Definition sample_block : Block :=
  mkBlock (sample_hash 98) 7 (sample_hash 97) 1600000000 0 0 [] 2 0 0 [] (of_int64 1) []
    [sample_tx (sample_hash 49) [mkInput [] 0 None 0 [] (str "0a")] [sample_output 5000000000];
     sample_tx (sample_hash 50) [sample_input (sample_hash 48) 3] [sample_output 70000000; sample_output 29990000];
     sample_tx (sample_hash 51) [sample_input (sample_hash 50) 1] [sample_output 29980000]].
Definition sample_client : Client :=
  mkClient (str "http://localhost:1") (mkBlockIdentifier 0 []) (mkCurrency (str "THT") 8).
Definition sample_coins : gmap bytes AccountCoin :=
  {[ CoinIdentifier (sample_hash 48) 3 :=
       mkAccountCoin (Some (mkAccountIdentifier (str "owner")))
         (mkCoin (CoinIdentifier (sample_hash 48) 3) (Some (mkAmount (FormatInt 100000000) (currency sample_client)))) ]}.

Example sample_parsed :
  map (fun r => map (fun op => from_option amt_Value [] (op_Amount op)) (rtx_Operations r))
    match (ParseBlock (K := toy_sdk) sample_client (Some sample_block) sample_coins).1 with
    | Ret rb => rb_Transactions rb
    | _ => []
    end
  = [[[]; str "5000000000"]; [str "-100000000"; str "70000000"; str "29990000"]; [str "-29990000"; str "29980000"]].
Proof. vm_compute. reflexivity. Qed.

Definition returned {E A} (o : outcome E A) : bool := match o with Ret _ => true | _ => false end.

Lemma ParseBlock_mirrors_witness : exists rb coins',
  ParseBlock (K := toy_sdk) sample_client (Some sample_block) sample_coins = (Ret rb, coins')
  /\ length (rb_Transactions rb) = 3%nat.
Proof.
  assert (Hok : returned (ParseBlock (K := toy_sdk) sample_client (Some sample_block) sample_coins).1 = true)
    by (vm_compute; reflexivity).
  destruct (ParseBlock (K := toy_sdk) sample_client (Some sample_block) sample_coins) as [[rb|e| |] coins'] eqn:E;
    try discriminate Hok. exists rb, coins'. split; [reflexivity|].
  apply (ParseBlock_mirrors (K := toy_sdk) sample_client sample_block sample_coins coins' rb E).
Defined.

Lemma GetRawBlock_coins_suffice_witness : exists rb coins',
  ParseBlock (K := toy_sdk) sample_client (Some sample_block) sample_coins = (Ret rb, coins').
Proof.
  apply (GetRawBlock_coins_suffice (K := toy_sdk) (N := toy_node sample_block) sample_client None tt tt sample_block
    [CoinIdentifier (sample_hash 48) 3] sample_coins).
  - vm_compute. reflexivity.
  - repeat constructor; eexists; vm_compute; reflexivity.
  - split; [|split; [|split; [|exact I]]]; (apply Forall_cons; split; [|apply Forall_nil; exact I]); intros Hin.
    + destruct Hin as [Hin|Hin]; [discriminate Hin|destruct Hin].
    + destruct Hin as [Hin|[Hin|Hin]]; [discriminate Hin|discriminate Hin|destruct Hin].
    + right. right. left. reflexivity.
  - split; [reflexivity|discriminate].
  - repeat constructor. eexists _, 100000000, _. split; reflexivity.
Defined.
