(* ===== verification/UtilTx.v ===== *)
(** Transactions with remembered hashes: util/tx.go. *)

From S2P Require Import Prelude Crypto WireCommon WireTx.

Notation TxIndexUnknown := (-1) (only parsing).

Record Tx := mkTx {
  msgTx : MsgTx; txHash : option bytes; txHashWitness : option bytes; txHasWitness : option bool; txIndex : Z }.

Section tx.
Context `{Crypto}.

(** The methods remember their result in the receiver. *)
Definition Tx_Hash {E} : M Tx E bytes := fun t =>
  match txHash t with
  | Some hash => (Ret hash, t)
  | None =>
      let hash := TxHash (msgTx t) in
      (Ret hash, mkTx (msgTx t) (Some hash) (txHashWitness t) (txHasWitness t) (txIndex t))
  end.

Definition Tx_WitnessHash {E} : M Tx E bytes := fun t =>
  match txHashWitness t with
  | Some hash => (Ret hash, t)
  | None =>
      let hash := WitnessHash (msgTx t) in
      (Ret hash, mkTx (msgTx t) (txHash t) (Some hash) (txHasWitness t) (txIndex t))
  end.

Definition Tx_HasWitness {E} : M Tx E bool := fun t =>
  match txHasWitness t with
  | Some b => (Ret b, t)
  | None =>
      let b := HasWitness (msgTx t) in
      (Ret b, mkTx (msgTx t) (txHash t) (txHashWitness t) (Some b) (txIndex t))
  end.

Definition SetIndex {E} (index : Z) : M Tx E unit :=
  modifyM (fun t => mkTx (msgTx t) (txHash t) (txHashWitness t) (txHasWitness t) index).

Definition NewTx (msg : MsgTx) : Tx := mkTx msg None None None TxIndexUnknown.

Definition NewTxFromReader : RM Tx :=
  msg <- Deserialize ;;
  retM (NewTx msg).

Definition NewTxFromBytes (serializedTx : bytes) : outcome WireErr Tx := (NewTxFromReader serializedTx).1.

(** What is remembered is what the transaction has. *)
Definition memo_ok (t : Tx) : Prop :=
  (forall h, txHash t = Some h -> h = TxHash (msgTx t))
  /\ (forall h, txHashWitness t = Some h -> h = WitnessHash (msgTx t))
  /\ (forall b, txHasWitness t = Some b -> b = HasWitness (msgTx t)).
End tx.

(** A call of a method. *)
Inductive tx_call := CallHash | CallWitnessHash | CallHasWitness | CallSetIndex (index : Z).

Definition run_call `{Crypto} (c : tx_call) (t : Tx) : Tx :=
  match c with
  | CallHash => (Tx_Hash (E := unit) t).2
  | CallWitnessHash => (Tx_WitnessHash (E := unit) t).2
  | CallHasWitness => (Tx_HasWitness (E := unit) t).2
  | CallSetIndex index => (SetIndex (E := unit) index t).2
  end.

Lemma run_calls_memo `{Crypto} calls : forall t, memo_ok t ->
  memo_ok (foldl (fun t c => run_call c t) t calls) /\ msgTx (foldl (fun t c => run_call c t) t calls) = msgTx t.
Proof.
  induction calls as [|c calls IH]; intros t Ht; [done|]. cbn [foldl].
  assert (memo_ok (run_call c t) /\ msgTx (run_call c t) = msgTx t) as [H1 H2].
  { destruct Ht as (Ha & Hb & Hc). destruct t as [m a b w i]; cbn [txHash txHashWitness txHasWitness msgTx] in *.
    destruct c; cbn; [destruct a|destruct b|destruct w|]; cbn; (split; [|done]); split_and!; cbn; try done; by intros ? [= <-]. }
  rewrite <- H2. by apply IH.
Qed.

(** Remembering is invisible: after any calls of the methods on a new
    transaction, they return the hash, the witness hash and the flag of the
    transaction it was made from. *)
Theorem Tx_memo_transparent `{Crypto} (msg : MsgTx) (calls : list tx_call) :
  let t := foldl (fun t c => run_call c t) (NewTx msg) calls in
  (Tx_Hash (E := unit) t).1 = Ret (TxHash msg) /\ (Tx_WitnessHash (E := unit) t).1 = Ret (WitnessHash msg)
  /\ (Tx_HasWitness (E := unit) t).1 = Ret (HasWitness msg).
Proof.
  destruct (run_calls_memo calls (NewTx msg)) as [(H1 & H2 & H3) H4]; [by split_and!|]. cbv zeta.
  set (t := foldl _ _ _) in *. unfold Tx_Hash, Tx_WitnessHash, Tx_HasWitness. cbn [msgTx NewTx] in H4. rewrite H4 in *.
  split_and!; [destruct (txHash t); [by rewrite (H1 _ eq_refl)|done]|destruct (txHashWitness t); [by rewrite (H2 _ eq_refl)|done]|].
  destruct (txHasWitness t); [by rewrite (H3 _ eq_refl)|done].
Qed.
