(* ===== verification/Config.v ===== *)
(** The configuration: configuration/configuration.go, with the constants of
    thought/types.go it selects.

    The environment variables and the file system are the class [Env].  From the
    standard library: path.Join with path.Clean, and strconv.Atoi. *)

From S2P Require Import Prelude Crypto Digits Hash Utf8 Base58 ScriptError ScriptNum Opcodes Tokenizer Script ScriptBuilder Standard Address Rosetta.

Inductive Mode := Online | Offline.

Record NetworkIdentifier := mkNetworkIdentifier { ni_Blockchain : bytes; ni_Network : bytes }.
Record PruningConfiguration := mkPruningConfiguration { pr_Frequency : Z; pr_Depth : Z; pr_MinHeight : Z }.
Record CompressorEntry := mkCompressorEntry { ce_Namespace : bytes; ce_DictionaryPath : bytes }.

Record Configuration := mkConfiguration {
  cfg_Mode : Mode;
  cfg_Network : NetworkIdentifier;
  cfg_NetworkChain : bytes;
  cfg_Params : Params;
  cfg_Currency : Currency;
  cfg_GenesisBlockIdentifier : BlockIdentifier;
  cfg_Port : Z;
  cfg_RPCPort : Z;
  cfg_ConfigPath : bytes;
  cfg_Pruning : PruningConfiguration;
  cfg_IndexerPath : bytes;
  cfg_ThoughtdPath : bytes;
  cfg_Compressors : list CompressorEntry }.

Definition Mainnet : bytes := str "MAINNET".
Definition Testnet : bytes := str "TESTNET".

Definition cfg_Online (s : Configuration) : bool := match cfg_Mode s with Online => true | Offline => false end.
Definition cfg_Mainnet (s : Configuration) : bool := bool_decide (cfg_NetworkChain s = Mainnet).

Definition Blockchain : bytes := str "Thought".
Definition MainnetNetwork : bytes := str "Mainnet".
Definition TestnetNetwork : bytes := str "Testnet3".
Notation Decimals := 8 (only parsing).
Definition MainnetGenesisBlockIdentifier : BlockIdentifier :=
  mkBlockIdentifier 0 (str "00000000917e049641189c33d6b1275155e89b7b498b3b4f16d488f60afe513b").
Definition TestnetGenesisBlockIdentifier : BlockIdentifier :=
  mkBlockIdentifier 0 (str "00000000917e049641189c33d6b1275155e89b7b498b3b4f16d488f60afe513b").
Definition MainnetCurrency : Currency := mkCurrency (str "THT") Decimals.
Definition TestnetCurrency : Currency := mkCurrency (str "tTHT") Decimals.

(** ** The standard library *)

(** strconv.Atoi. *)
Definition Atoi (s : bytes) : option Z :=
  let '(neg, digits) :=
    match s with
    | c :: t => if b2z c =? 43 then (false, t) else if b2z c =? 45 then (true, t) else (false, s)
    | [] => (false, s)
    end in
  match ParseUint digits 64 with
  | Ret v =>
      if neg : bool then (if v <=? 2 ^ 63 then Some (- v) else None)
      else if v <? 2 ^ 63 then Some v else None
  | _ => None
  end.

Definition slash (c : byte) : bool := b2z c =? 47.

Fixpoint elements (s : bytes) : list bytes :=
  match s with
  | [] => [[]]
  | c :: s =>
      match elements s with
      | e :: es => if slash c then [] :: e :: es else (c :: e) :: es
      | [] => [[c]]
      end
  end.

(** One element of a path, on the elements before it, the last one first. *)
Definition cleanStep (rooted : bool) (out : list bytes) (e : bytes) : list bytes :=
  if bool_decide (e = []) || bool_decide (e = str ".") then out
  else if bool_decide (e = str "..") then
    match out with
    | o :: out' => if bool_decide (o = str "..") then e :: out else out'
    | [] => if rooted then [] else [e]
    end
  else e :: out.

Fixpoint joinSlash (es : list bytes) : bytes :=
  match es with
  | [] => []
  | [e] => e
  | e :: es => e ++ str "/" ++ joinSlash es
  end.

(** path.Clean. *)
Definition Clean (path : bytes) : bytes :=
  let rooted := match path with c :: _ => slash c | [] => false end in
  let out := joinSlash (rev (foldl (cleanStep rooted) [] (elements path))) in
  if rooted then str "/" ++ out else if bool_decide (out = []) then str "." else out.

(** path.Join of two elements. *)
Definition Join (a b : bytes) : bytes :=
  if bool_decide (a = []) && bool_decide (b = []) then []
  else Clean (if bool_decide (a = []) then b else a ++ str "/" ++ b).

Example Clean_samples :
  (Clean (str "/data//indexer"), Clean (str "a/../../b/."), Clean (str "/../x"), Clean [], Join (str "/data/") (str "indexer"))
  = (str "/data/indexer", str "../b", str "/x", str ".", str "/data/indexer").
Proof. vm_compute. reflexivity. Qed.

(** ** Loading *)

Class Env := {
  FS : Type;
  Getenv : bytes -> bytes;
  MkdirAll : bytes -> FS -> bool * FS }.

Inductive ConfigErr :=
  | ErrMkdir (path : bytes)
  | ErrNoMode
  | ErrMode (mode : bytes)
  | ErrNoNetwork
  | ErrNetwork (network : bytes)
  | ErrNoPort
  | ErrPort (port : bytes).

Definition defaultPruning : PruningConfiguration := mkPruningConfiguration (3600 * 10 ^ 9) 10000 100000.

Section load.
Context {E : Env}.

Definition ensurePathExists (path : bytes) : M FS ConfigErr unit := fun fs =>
  match MkdirAll path fs with
  | (true, fs) => (Ret tt, fs)
  | (false, fs) => (Fail (ErrMkdir path), fs)
  end.

(** The first switch: the mode and the paths. *)
Definition loadMode (baseDirectory : bytes) : M FS ConfigErr (Mode * bytes * bytes) :=
  let modeValue := Getenv (str "MODE") in
  if bool_decide (modeValue = str "ONLINE") then
    let indexerPath := Join baseDirectory (str "indexer") in
    ensurePathExists indexerPath ;;
    let thoughtdPath := Join baseDirectory (str "thoughtd") in
    ensurePathExists thoughtdPath ;;
    retM (Online, indexerPath, thoughtdPath)
  else if bool_decide (modeValue = str "OFFLINE") then retM (Offline, [], [])
  else if bool_decide (modeValue = []) then failM ErrNoMode
  else failM (ErrMode modeValue).

(** The configuration of a network, with a mode, paths and a port. *)
Definition mainnetConfiguration (m : Mode * bytes * bytes) (port : Z) : Configuration :=
  mkConfiguration m.1.1 (mkNetworkIdentifier Blockchain MainnetNetwork) Mainnet MainNetParams MainnetCurrency
    MainnetGenesisBlockIdentifier port 10617 (str "/app/thought-mainnet.conf") defaultPruning m.1.2 m.2
    [mkCompressorEntry (str "transaction") (str "/app/mainnet-transaction.zstd")].

Definition testnetConfiguration (m : Mode * bytes * bytes) (port : Z) : Configuration :=
  mkConfiguration m.1.1 (mkNetworkIdentifier Blockchain TestnetNetwork) Testnet TestNet3Params TestnetCurrency
    TestnetGenesisBlockIdentifier port 11617 (str "/app/thought-testnet.conf") defaultPruning m.1.2 m.2
    [mkCompressorEntry (str "transaction") (str "/app/testnet-transaction.zstd")].

(** The second switch. *)
Definition loadNetwork (m : Mode * bytes * bytes) : outcome ConfigErr (Z -> Configuration) :=
  let networkValue := Getenv (str "NETWORK") in
  if bool_decide (networkValue = Mainnet) then Ret (mainnetConfiguration m)
  else if bool_decide (networkValue = Testnet) then Ret (testnetConfiguration m)
  else if bool_decide (networkValue = []) then Fail ErrNoNetwork
  else Fail (ErrNetwork networkValue).

Definition loadPort : outcome ConfigErr Z :=
  let portValue := Getenv (str "PORT") in
  if zlen portValue =? 0 then Fail ErrNoPort
  else
    match Atoi portValue with
    | Some port => if port <=? 0 then Fail (ErrPort portValue) else Ret port
    | None => Fail (ErrPort portValue)
    end.

Definition LoadConfiguration (baseDirectory : bytes) : M FS ConfigErr Configuration :=
  m <- loadMode baseDirectory ;;
  config <- liftO (loadNetwork m) ;;
  port <- liftO loadPort ;;
  retM (config port).
End load.

(** A number is read back from its text, sign included. *)
Lemma Atoi_FormatInt z : - 2 ^ 63 <= z < 2 ^ 63 -> Atoi (FormatInt z) = Some z.
Proof.
  intros Hz. destruct (Z.lt_ge_cases z 0) as [Hn|Hn].
  - assert (FormatInt z = z2b 45 :: FormatUint (- z)) as -> by (unfold FormatInt; by rewrite (proj2 (Z.ltb_lt z 0))).
    unfold Atoi. change (b2z (z2b 45) =? 43) with false. change (b2z (z2b 45) =? 45) with true. cbv beta iota zeta.
    pose proof (ParseUint_FormatInt (- z) 64 ltac:(lia) ltac:(lia)) as Hp. unfold FormatInt in Hp. rewrite (proj2 (Z.ltb_ge (- z) 0)) in Hp by lia.
    rewrite Hp, (proj2 (Z.leb_le _ _)) by lia. f_equal. lia.
  - pose proof (ParseUint_FormatInt z 64 ltac:(lia) ltac:(lia)) as Hp. pose proof (FormatInt_chars z Hn) as Hc. unfold Atoi.
    destruct (FormatInt z) as [|c t]; [discriminate Hp|]. inversion_clear Hc. cbv iota beta.
    rewrite !(proj2 (Z.eqb_neq _ _)) by lia. rewrite Hp, (proj2 (Z.ltb_lt _ _)) by lia. done.
Qed.

Lemma Atoi_range s z : Atoi s = Some z -> - 2 ^ 63 <= z < 2 ^ 63.
Proof.
  unfold Atoi. destruct (match s with [] => _ | _ :: _ => _ end) as [neg t]. destruct (ParseUint t 64) as [v| | |] eqn:E; try done.
  assert (0 <= v).
  { unfold ParseUint in E. destruct (zlen t =? 0); [done|]. apply parseDigits_range in E; lia. }
  destruct neg; [destruct (Z.leb_spec v (2 ^ 63))|destruct (Z.ltb_spec v (2 ^ 63))]; intros [= <-]; lia.
Qed.

(** Loading the configuration never panics.  It succeeds only with a known
    mode and network and a positive port, and then the parameters, the currency
    and the ports are those of the network that was named; a positive number is
    always accepted as a port; offline, nothing is created in the file system. *)
Theorem LoadConfiguration_classifies {E : Env} (base : bytes) (fs : FS) :
  match LoadConfiguration base fs with
  | (Ret c, fs') =>
      (cfg_Online c = true /\ Getenv (str "MODE") = str "ONLINE" \/ cfg_Online c = false /\ Getenv (str "MODE") = str "OFFLINE" /\ fs' = fs)
      /\ cfg_NetworkChain c = Getenv (str "NETWORK")
      /\ (cfg_Mainnet c = true /\ c = mainnetConfiguration (cfg_Mode c, cfg_IndexerPath c, cfg_ThoughtdPath c) (cfg_Port c)
          \/ cfg_Mainnet c = false /\ c = testnetConfiguration (cfg_Mode c, cfg_IndexerPath c, cfg_ThoughtdPath c) (cfg_Port c))
      /\ Atoi (Getenv (str "PORT")) = Some (cfg_Port c) /\ 0 < cfg_Port c < 2 ^ 63
  | (Fail (ErrMkdir _), _) => Getenv (str "MODE") = str "ONLINE"
  | (Fail ErrNoMode, fs') => Getenv (str "MODE") = [] /\ fs' = fs
  | (Fail (ErrMode v), fs') => v = Getenv (str "MODE") /\ v <> str "ONLINE" /\ v <> str "OFFLINE" /\ v <> [] /\ fs' = fs
  | (Fail ErrNoNetwork, _) => Getenv (str "NETWORK") = []
  | (Fail (ErrNetwork v), _) => v = Getenv (str "NETWORK") /\ v <> Mainnet /\ v <> Testnet /\ v <> []
  | (Fail ErrNoPort, _) => Getenv (str "PORT") = []
  | (Fail (ErrPort v), _) => v = Getenv (str "PORT") /\ forall p, 0 < p < 2 ^ 63 -> v <> FormatInt p
  | (Crash, _) | (NoFuel, _) => False
  end.
Proof.
  unfold LoadConfiguration, bindM. destruct (loadMode base fs) as [[m|e| |] fs1] eqn:Em.
  2-4: revert Em; unfold loadMode, ensurePathExists, bindM, retM, failM; repeat case_bool_decide; repeat case_match; intros Em; simplify_eq; done.
  assert (Hm : m.1.1 = Online /\ Getenv (str "MODE") = str "ONLINE" \/ m.1.1 = Offline /\ Getenv (str "MODE") = str "OFFLINE" /\ fs1 = fs).
  { revert Em. unfold loadMode, ensurePathExists, bindM, retM, failM. repeat case_bool_decide; repeat case_match; intros Em; simplify_eq; auto. }
  clear Em. unfold liftO, loadNetwork, loadPort, retM.
  assert (Hp : match Atoi (Getenv (str "PORT")) with Some p => 0 < p < 2 ^ 63 \/ p <= 0 | None => True end
     /\ forall p, 0 < p < 2 ^ 63 -> Getenv (str "PORT") = FormatInt p -> Atoi (Getenv (str "PORT")) = Some p).
  { split; [destruct (Atoi _) as [p|] eqn:Ep; [|done]; apply Atoi_range in Ep; lia|]. intros p Hp ->. apply Atoi_FormatInt. lia. }
  destruct Hp as [Hp Hf]. case_bool_decide as N1; [|case_bool_decide as N2; [|case_bool_decide; auto]].
  all: destruct (Z.eqb_spec (zlen (Getenv (str "PORT"))) 0) as [Hz|Hz]; [by apply zlen_0_inv|].
  all: destruct (Atoi (Getenv (str "PORT"))) as [p|]; [|split; [done|]; intros q Hq Hv; by specialize (Hf q Hq Hv)].
  all: destruct (Z.leb_spec p 0); [split; [done|]; intros q Hq Hv; specialize (Hf q Hq Hv); injection Hf; lia|].
  all: destruct m as [[mode ip] tp]; cbn [fst snd] in *; split_and!; try done; try lia.
  1, 4: destruct Hm as [[-> ?]|[-> [? ?]]]; auto.
  2, 4: cbn; lia.
  - by left.
  - by right.
Qed.
