(* ===== verification/Construction.v ===== *)
(** The construction endpoints: services/construction_service.go, with the
    structures of services/types.go they exchange.

    A client asks for the address of a key (derive), for what a transaction needs
    (preprocess, metadata), for the hashes to sign (payloads), hands in signatures
    (combine), checks what it has (parse), and submits it (hash, submit).

    Parameters: [Parser] is parser.MatchOperations of the SDK, [Json] the
    marshalling of the exchanged structures (encoding/json and the SDK's
    MarshalMap), [services.Indexer] the interface by which scripts are looked up. *)

From S2P Require Import Prelude Crypto WireCommon WireTx Digits Hash Utf8 Base58 ScriptError ScriptNum Opcodes Tokenizer Script ScriptBuilder Standard Sighash Address PkScript Coins Float64 Amount Rosetta Client UtilTx Config.
From Stdlib Require Import Floats.SpecFloat.

(** ** Data *)

Record unsignedTransaction := mkUnsignedTransaction {
  u_Transaction : bytes; u_ScriptPubKeys : list (option ScriptPubKey);
  u_InputAmounts : list bytes; u_InputAddresses : list bytes }.
Record preprocessOptions := mkPreprocessOptions {
  po_Coins : list Coin; po_EstimatedSize : float64; po_FeeMultiplier : option float64 }.
Record constructionMetadata := mkConstructionMetadata { cm_ScriptPubKeys : list (option ScriptPubKey) }.
Record signedTransaction := mkSignedTransaction { s_Transaction : bytes; s_InputAmounts : list bytes }.

Notation TransactionOverhead := 10 (only parsing).
Notation InputSize := 148 (only parsing).
Notation OutputOverhead := 9 (only parsing).
Notation P2PKHScriptPubkeySize := 25 (only parsing).
Notation defaultConfirmationTarget := 2 (only parsing).
Definition MinFeeRate : float64 := fdiv (of_int64 1) (of_int64 100000).
Definition NotionsInThought : float64 := of_int64 100000000.
Definition bytesInKb : float64 := of_int64 1000.

(** services/errors.go.  [ErrBlockNotIndexed] is services.ErrBlockNotFound. *)
Inductive ServiceErr :=
  | ErrUnimplemented
  | ErrUnavailableOffline
  | ErrNotReady
  | ErrThoughtd
  | ErrBlockNotIndexed
  | ErrUnableToDerive
  | ErrUnclearIntent
  | ErrUnableToParseIntermediateResult
  | ErrScriptPubKeysMissing
  | ErrInvalidCoin
  | ErrUnableToDecodeAddress
  | ErrUnableToDecodeScriptPubKey
  | ErrUnableToCalculateSignatureHash
  | ErrUnsupportedScriptType
  | ErrUnableToComputePkScript
  | ErrUnableToGetCoins
  | ErrTransactionNotFound
  | ErrCouldNotGetFeeRate
  | ErrUnableToGetBalance.

(** [wrapErr]: the error that is reported for the error of a call. *)
Definition wrapErr {E A} (e : ServiceErr) (o : outcome E A) : outcome ServiceErr A :=
  match o with Ret a => Ret a | Fail _ => Fail e | Crash => Crash | NoFuel => NoFuel end.

Definition wrapOpt {A} (e : ServiceErr) (o : option A) : outcome ServiceErr A :=
  match o with Some a => Ret a | None => Fail e end.

(** ** The SDK's matching of operations *)

Inductive AmountSign := NegativeAmountSign | PositiveAmountSign.
Record OperationDescription := mkOperationDescription {
  od_Type : bytes; od_AccountExists : bool; od_AmountExists : bool; od_Sign : AmountSign; od_Currency : Currency;
  od_CoinAction : option CoinAction; od_AllowRepeats : bool }.
Record Descriptions := mkDescriptions { OperationDescriptions : list OperationDescription; ErrUnmatched : bool }.

Record Match (J : Type) := mkMatch { m_Operations : list (Operation J); m_Amounts : list Z }.
Arguments m_Operations {J}.
Arguments m_Amounts {J}.

Class Parser (J : Type) := { MatchOperations : Descriptions -> list (Operation J) -> option (list (Match J)) }.

Class Json (J : Type) := {
  MarshalUnsigned : unsignedTransaction -> option bytes;
  UnmarshalUnsigned : bytes -> option unsignedTransaction;
  MarshalSigned : signedTransaction -> option bytes;
  UnmarshalSigned : bytes -> option signedTransaction;
  MarshalOptions : preprocessOptions -> option J;
  UnmarshalOptions : option J -> option preprocessOptions;
  MarshalConstruction : constructionMetadata -> option J;
  UnmarshalConstruction : option J -> option constructionMetadata }.

Class ScriptIndex := { GetScriptPubKeys : list Coin -> outcome unit (list (option ScriptPubKey)) }.

(** A signature of a request.  The slice of its bytes may have more capacity than
    length: [sg_Spare] is what lies behind it. *)
Record RSignature := mkRSignature { sg_PublicKey : bytes; sg_Bytes : bytes; sg_Spare : bytes }.

Record SigningPayload := mkSigningPayload { sp_Address : bytes; sp_Bytes : bytes }.

Section construction.
Context `{C : Crypto} {K : SDK} {P : Parser JsonMap} {J : Json JsonMap} `{FloatConv} (s : Configuration).

Notation Operation := (Operation JsonMap).
Notation SM := (outcome ServiceErr).

Definition inputDescription : OperationDescription :=
  mkOperationDescription InputOpType true true NegativeAmountSign (cfg_Currency s) (Some CoinSpent) true.
Definition outputDescription : OperationDescription :=
  mkOperationDescription OutputOpType true true PositiveAmountSign (cfg_Currency s) None true.

Definition ConstructionDerive (publicKey : bytes) : SM AccountIdentifier :=
  let! addr := wrapErr ErrUnableToDerive (NewAddressPubKeyHash (Hash160 publicKey) (cfg_Params s)) in
  let! text := AddressPubKeyHash_EncodeAddress addr in
  Ret (mkAccountIdentifier text).

(** ** Preprocess and metadata *)

Definition outputSize (address : bytes) : SM Z :=
  match DecodeAddress address (cfg_Params s) with
  | Ret addr =>
      match PayToAddrScript (Some addr) with
      | Ret script => Ret (zlen script)
      | Fail _ => Ret P2PKHScriptPubkeySize
      | Crash => Crash
      | NoFuel => NoFuel
      end
  | Fail _ => Ret P2PKHScriptPubkeySize
  | Crash => Crash
  | NoFuel => NoFuel
  end.

Fixpoint estimateLoop (operations : list Operation) (size : Z) : SM Z :=
  match operations with
  | [] => Ret size
  | operation :: operations =>
      if bool_decide (op_Type operation = InputOpType) then estimateLoop operations (size + InputSize)
      else if bool_decide (op_Type operation = OutputOpType) then
        let! account := orCrash (op_Account operation) in
        let! n := outputSize (acct_Address account) in
        estimateLoop operations (size + OutputOverhead + n)
      else estimateLoop operations size
  end.

Definition estimateSize (operations : list Operation) : SM float64 :=
  let! size := estimateLoop operations TransactionOverhead in
  Ret (of_int64 size).

Fixpoint coinsOf (operations : list Operation) : SM (list Coin) :=
  match operations with
  | [] => Ret []
  | input :: operations =>
      match op_CoinChange input with
      | None => Fail ErrUnclearIntent
      | Some cc =>
          let! coins := coinsOf operations in
          Ret (mkCoin (cc_CoinIdentifier cc) (op_Amount input) :: coins)
      end
  end.

Definition ConstructionPreprocess (operations : list Operation) (feeMultiplier : option float64) : SM JsonMap :=
  let descriptions := mkDescriptions [inputDescription] false in
  let! matches := wrapOpt ErrUnclearIntent (MatchOperations descriptions operations) in
  let! m := orCrash (znth matches 0) in
  let! coins := coinsOf (m_Operations m) in
  let! size := estimateSize operations in
  wrapOpt ErrUnableToParseIntermediateResult (MarshalOptions (mkPreprocessOptions coins size feeMultiplier)).

(** The fee for a size, at a rate in thoughts for 1000 bytes. *)
Definition suggestedFee (feePerKB : float64) (multiplier : option float64) (size : float64) : Z :=
  let feePerKB := match multiplier with Some m => fmul feePerKB m | None => feePerKB end in
  let feePerKB := if flt feePerKB MinFeeRate then MinFeeRate else feePerKB in
  let satoshisPerB := fdiv (fmul feePerKB NotionsInThought) bytesInKb in
  to_int64 (fmul satoshisPerB size).

Definition ConstructionMetadata {N : Node} {I : ScriptIndex} (client : Client) (options : option JsonMap) :
    M World ServiceErr (JsonMap * RAmount) := fun w =>
  if negb (cfg_Online s) then (Fail ErrUnavailableOffline, w)
  else
    match UnmarshalOptions options with
    | None => (Fail ErrUnableToParseIntermediateResult, w)
    | Some options =>
        let '(rate, w) := SuggestedFeeRate client defaultConfirmationTarget w in
        (let! feePerKB := wrapErr ErrCouldNotGetFeeRate rate in
         let fee := suggestedFee feePerKB (po_FeeMultiplier options) (po_EstimatedSize options) in
         let! scripts := wrapErr ErrScriptPubKeysMissing (GetScriptPubKeys (po_Coins options)) in
         let! metadata := wrapOpt ErrUnableToParseIntermediateResult (MarshalConstruction (mkConstructionMetadata scripts)) in
         Ret (metadata, mkAmount (FormatInt fee) (cfg_Currency s)), w)
    end.

(** ** Payloads *)

Fixpoint addInputs (operations : list Operation) (tx : MsgTx) : SM MsgTx :=
  match operations with
  | [] => Ret tx
  | input :: operations =>
      match op_CoinChange input with
      | None => Fail ErrUnclearIntent
      | Some cc =>
          let! (transactionHash, index) := wrapErr ErrInvalidCoin (ParseCoinIdentifier (cc_CoinIdentifier cc)) in
          addInputs operations (AddTxIn (mkTxIn (mkOutPoint transactionHash index) [] [] MaxTxInSequenceNum) tx)
      end
  end.

Fixpoint addOutputs (operations : list Operation) (i : Z) (amounts : list Z) (tx : MsgTx) : SM MsgTx :=
  match operations with
  | [] => Ret tx
  | output :: operations =>
      let! account := orCrash (op_Account output) in
      let! addr := wrapErr ErrUnableToDecodeAddress (DecodeAddress (acct_Address account) (cfg_Params s)) in
      let! pkScript := wrapErr ErrUnableToDecodeAddress (PayToAddrScript (Some addr)) in
      let! amount := orCrash (znth amounts i) in
      addOutputs operations (i + 1) amounts (AddTxOut (mkTxOut (i64 amount) pkScript) tx)
  end.

(** One round of the loop over the inputs: address, amount and payload. *)
Definition payload (m : Match JsonMap) (metadata : constructionMetadata) (tx : MsgTx) (i : Z) :
    SM (bytes * bytes * SigningPayload) :=
  let! op := orCrash (znth (m_Operations m) i) in
  let! account := orCrash (op_Account op) in
  let! entry := orCrash (znth (cm_ScriptPubKeys metadata) i) in
  let! spk := orCrash entry in
  let! script := wrapErr ErrUnableToDecodeScriptPubKey (DecodeString (spk_Hex spk)) in
  let! (class, _) := wrapErr ErrUnableToDecodeAddress (ParseSingleAddress (cfg_Params s) script) in
  let! amount := orCrash (znth (m_Amounts m) i) in
  match class with
  | PubKeyHashTy =>
      let! hash := wrapErr ErrUnableToCalculateSignatureHash (CalcSignatureHash script SigHashAll tx i) in
      Ret (acct_Address account, FormatInt amount, mkSigningPayload (acct_Address account) hash)
  | _ => Fail ErrUnsupportedScriptType
  end.

Fixpoint payloadLoop (m : Match JsonMap) (metadata : constructionMetadata) (tx : MsgTx) (n : nat) (i : Z) :
    SM (list (bytes * bytes * SigningPayload)) :=
  match n with
  | O => Ret []
  | S n =>
      let! p := payload m metadata tx i in
      let! rest := payloadLoop m metadata tx n (i + 1) in
      Ret (p :: rest)
  end.

Definition serializeTx (tx : MsgTx) : SM bytes :=
  let '(r, buf) := Serialize tx [] in
  let! _ := wrapErr ErrUnableToParseIntermediateResult r in
  Ret buf.

Definition ConstructionPayloads (operations : list Operation) (metadata : option JsonMap) :
    SM (bytes * list SigningPayload) :=
  let descriptions := mkDescriptions [inputDescription; outputDescription] true in
  let! matches := wrapOpt ErrUnclearIntent (MatchOperations descriptions operations) in
  let tx := NewMsgTx (if negb (cfg_Mainnet s) then TestnetTxVersion else MainnetTxVersion) in
  let! ins := orCrash (znth matches 0) in
  let! tx := addInputs (m_Operations ins) tx in
  let! outs := orCrash (znth matches 1) in
  let! tx := addOutputs (m_Operations outs) 0 (m_Amounts outs) tx in
  let! metadata := wrapOpt ErrUnableToParseIntermediateResult (UnmarshalConstruction metadata) in
  let! ps := payloadLoop ins metadata tx (length (TxIns tx)) 0 in
  let! buf := serializeTx tx in
  let! rawTx := wrapOpt ErrUnableToParseIntermediateResult (MarshalUnsigned
    (mkUnsignedTransaction (EncodeToString buf) (cm_ScriptPubKeys metadata)
       (map (fun p => p.1.2) ps) (map (fun p => p.1.1) ps))) in
  Ret (EncodeToString rawTx, map snd ps).

(** ** Combine *)

Definition decodeTx (text : bytes) : SM MsgTx :=
  let! serialized := wrapErr ErrUnableToParseIntermediateResult (DecodeString text) in
  wrapErr ErrUnableToParseIntermediateResult (Deserialize serialized).1.

(** The signature as it is put into a script: zeros in front are removed, then
    the first and the second 32 bytes of the array behind the slice are read. *)
Definition normalizedSignature (sg : RSignature) : SM bytes :=
  let rawBytes := drop_zeros (sg_Bytes sg) ++ sg_Spare sg in
  let! r := orCrash (zslice rawBytes 0 32) in
  let! s := orCrash (zslice rawBytes 32 64) in
  let '(rvalue, rresult) := SetByteSlice r in
  let '(svalue, sresult) := SetByteSlice s in
  if rresult || sresult then Fail ErrUnableToParseIntermediateResult
  else Ret (SigSerialize (NewSignature rvalue svalue) ++ [z2b SigHashAll]).

Definition combineInput (unsigned : unsignedTransaction) (signatures : list RSignature) (i : Z) : SM bytes :=
  let! entry := orCrash (znth (u_ScriptPubKeys unsigned) i) in
  let! spk := orCrash entry in
  let! decodedScript := wrapErr ErrUnableToDecodeScriptPubKey (DecodeString (spk_Hex spk)) in
  let! (class, _) := wrapErr ErrUnableToDecodeAddress (ParseSingleAddress (cfg_Params s) decodedScript) in
  let! sg := orCrash (znth signatures i) in
  let! normalized := normalizedSignature sg in
  match class with
  | PubKeyHashTy =>
      wrapErr ErrUnableToParseIntermediateResult (build (AddData normalized ;; AddData (sg_PublicKey sg)))
  | _ => Fail ErrUnsupportedScriptType
  end.

Definition put_SignatureScript (script : bytes) (ti : TxIn) : TxIn :=
  mkTxIn (PreviousOutPoint ti) script (Witness ti) (Sequence ti).

Fixpoint combineLoop (unsigned : unsignedTransaction) (signatures : list RSignature) (ins : list TxIn) (i : Z) :
    SM (list TxIn) :=
  match ins with
  | [] => Ret []
  | ti :: ins =>
      let! script := combineInput unsigned signatures i in
      let! rest := combineLoop unsigned signatures ins (i + 1) in
      Ret (put_SignatureScript script ti :: rest)
  end.

Definition ConstructionCombine (unsignedText : bytes) (signatures : list RSignature) : SM bytes :=
  let! decodedTx := wrapErr ErrUnableToParseIntermediateResult (DecodeString unsignedText) in
  let! unsigned := wrapOpt ErrUnableToParseIntermediateResult (UnmarshalUnsigned decodedTx) in
  let! tx := decodeTx (u_Transaction unsigned) in
  let! ins := combineLoop unsigned signatures (TxIns tx) 0 in
  let! buf := serializeTx (mkMsgTx (Version tx) ins (TxOuts tx) (LockTime tx)) in
  let! rawTx := wrapOpt ErrUnableToParseIntermediateResult
    (MarshalSigned (mkSignedTransaction (EncodeToString buf) (u_InputAmounts unsigned))) in
  Ret (EncodeToString rawTx).

(** ** Hash *)

Definition decodeSigned (text : bytes) : SM signedTransaction :=
  let! decodedTx := wrapErr ErrUnableToParseIntermediateResult (DecodeString text) in
  wrapOpt ErrUnableToParseIntermediateResult (UnmarshalSigned decodedTx).

Definition ConstructionHash (signedText : bytes) : SM bytes :=
  let! signed := decodeSigned signedText in
  let! bytesTx := wrapErr ErrUnableToParseIntermediateResult (DecodeString (s_Transaction signed)) in
  let! tx := wrapErr ErrUnableToParseIntermediateResult (NewTxFromBytes bytesTx) in
  let! hash := (Tx_Hash tx).1 in
  Ret (Hash_String hash).

(** ** Parse *)

Definition inputOperation (index : Z) (address value : bytes) (networkIndex : Z) (input : TxIn) : Operation :=
  mkOperation (mkOperationIdentifier index (Some networkIndex)) InputOpType None
    (Some (mkAccountIdentifier address)) (Some (mkAmount value (cfg_Currency s)))
    (Some (mkCoinChange (CoinIdentifier (Hash_String (WireTx.Hash (PreviousOutPoint input))) (WireTx.Index (PreviousOutPoint input))) CoinSpent))
    None.

Fixpoint unsignedInputs (unsigned : unsignedTransaction) (ins : list TxIn) (i : Z) (ops : list Operation) : SM (list Operation) :=
  match ins with
  | [] => Ret ops
  | input :: ins =>
      let! address := orCrash (znth (u_InputAddresses unsigned) i) in
      let! value := orCrash (znth (u_InputAmounts unsigned) i) in
      unsignedInputs unsigned ins (i + 1) (ops ++ [inputOperation (zlen ops) address value i input])
  end.

Fixpoint parseTxOutputs (outs : list TxOut) (i : Z) (ops : list Operation) : SM (list Operation) :=
  match outs with
  | [] => Ret ops
  | output :: outs =>
      let! (_, addr) := wrapErr ErrUnableToDecodeAddress (ParseSingleAddress (cfg_Params s) (WireTx.PkScript output)) in
      let! text := Address_String addr in
      parseTxOutputs outs (i + 1) (ops ++
        [mkOperation (mkOperationIdentifier (zlen ops) (Some i)) OutputOpType None (Some (mkAccountIdentifier text))
           (Some (mkAmount (FormatInt (Value output)) (cfg_Currency s))) None None])
  end.

Definition parseUnsignedTransaction (text : bytes) : SM (list Operation * list AccountIdentifier) :=
  let! decodedTx := wrapErr ErrUnableToParseIntermediateResult (DecodeString text) in
  let! unsigned := wrapOpt ErrUnableToParseIntermediateResult (UnmarshalUnsigned decodedTx) in
  let! tx := decodeTx (u_Transaction unsigned) in
  let! ops := unsignedInputs unsigned (TxIns tx) 0 [] in
  let! ops := parseTxOutputs (TxOuts tx) 0 ops in
  Ret (ops, []).

Fixpoint signedInputs (signed : signedTransaction) (ins : list TxIn) (i : Z) (ops : list Operation)
    (signers : list AccountIdentifier) : SM (list Operation * list AccountIdentifier) :=
  match ins with
  | [] => Ret (ops, signers)
  | input :: ins =>
      let! pkScript := wrapErr ErrUnableToComputePkScript (ComputePkScript (SignatureScript input)) in
      let! script := PkScript_Script pkScript in
      let! (_, addr) := wrapErr ErrUnableToDecodeAddress (ParseSingleAddress (cfg_Params s) (default [] script)) in
      let! text := EncodeAddress addr in
      let! value := orCrash (znth (s_InputAmounts signed) i) in
      signedInputs signed ins (i + 1) (ops ++ [inputOperation (zlen ops) text value i input])
        (signers ++ [mkAccountIdentifier text])
  end.

Definition parseSignedTransaction (text : bytes) : SM (list Operation * list AccountIdentifier) :=
  let! signed := decodeSigned text in
  let! tx := decodeTx (s_Transaction signed) in
  let! (ops, signers) := signedInputs signed (TxIns tx) 0 [] [] in
  let! ops := parseTxOutputs (TxOuts tx) 0 ops in
  Ret (ops, signers).

Definition ConstructionParse (signed : bool) (text : bytes) : SM (list Operation * list AccountIdentifier) :=
  if signed then parseSignedTransaction text else parseUnsignedTransaction text.

Definition ConstructionSubmit {N : Node} (client : Client) (signedText : bytes) : M World ServiceErr bytes := fun w =>
  if negb (cfg_Online s) then (Fail ErrUnavailableOffline, w)
  else
    match decodeSigned signedText with
    | Ret signed =>
        let '(r, w) := SendRawTransaction client (s_Transaction signed) w in
        (wrapErr ErrThoughtd r, w)
    | Fail e => (Fail e, w)
    | Crash => (Crash, w)
    | NoFuel => (NoFuel, w)
    end.
End construction.
