(* ===== verification/ConstructionLaws.v ===== *)
(** A concrete parser of operations and a concrete marshalling, with the laws the
    theorems on the construction endpoints ask of them. *)

From S2P Require Import Prelude Digits Rosetta Client ClientFacts Config Construction.

(** ** What the parameters promise *)

Definition ascii (b : bytes) : Prop := Forall (fun c => b2z c < 128) b.

Definition spk_texts (spk : option ScriptPubKey) : list bytes :=
  match spk with
  | Some k => spk_ASM k :: spk_Hex k :: spk_Type k :: spk_Addresses k
  | None => []
  end.

(** What is marshalled is read back, at least if its strings are ASCII. *)
Class JsonLaws {J} (K : Json J) : Prop := {
  json_unsigned u : Forall ascii (u_Transaction u :: u_InputAmounts u ++ u_InputAddresses u ++ concat (map spk_texts (u_ScriptPubKeys u))) ->
    exists b, MarshalUnsigned u = Some b /\ UnmarshalUnsigned b = Some u;
  json_signed t : Forall ascii (s_Transaction t :: s_InputAmounts t) ->
    exists b, MarshalSigned t = Some b /\ UnmarshalSigned b = Some t;
  json_metadata m : Forall ascii (concat (map spk_texts (cm_ScriptPubKeys m))) ->
    exists b, MarshalConstruction m = Some b /\ UnmarshalConstruction (Some b) = Some m }.

(** Every description has a match.  What a match holds is of its description, the
    amounts of a match are those of its operations, and if unmatched operations are
    errors every operation is in exactly one match. *)
Class ParserLaws {J} (P : Parser J) : Prop := {
  match_descriptions ds ops ms : MatchOperations ds ops = Some ms ->
    Forall2 (fun d m => Forall (fun op => op_Type op = od_Type d) (m_Operations m)) (OperationDescriptions ds) ms;
  match_amounts ds ops ms m k op a z : MatchOperations ds ops = Some ms -> In m ms -> m_Operations m !! k = Some op ->
    op_Amount op = Some a -> amt_Value a = FormatInt z -> m_Amounts m !! k = Some z;
  match_all ds ops ms : MatchOperations ds ops = Some ms -> ErrUnmatched ds = true ->
    concat (map m_Operations ms) ≡ₚ ops }.

(** ** Marshalling by an enumeration of the values *)

Section codec.
Context `{Countable A}.

Fixpoint pos_bytes (p : positive) : bytes :=
  match p with xH => [] | xO p => Byte.x00 :: pos_bytes p | xI p => Byte.x01 :: pos_bytes p end.

Fixpoint bytes_pos (b : bytes) : positive :=
  match b with [] => xH | c :: b => if bool_decide (c = Byte.x00) then xO (bytes_pos b) else xI (bytes_pos b) end.

Lemma bytes_pos_bytes p : bytes_pos (pos_bytes p) = p.
Proof. induction p as [p IH|p IH|]; cbn; by rewrite ?IH. Qed.

Definition toy_marshal (a : A) : bytes := pos_bytes (encode a).
Definition toy_unmarshal (b : bytes) : option A := decode (bytes_pos b).

Lemma toy_unmarshal_marshal a : toy_unmarshal (toy_marshal a) = Some a.
Proof. unfold toy_unmarshal, toy_marshal. by rewrite bytes_pos_bytes, decode_encode. Qed.
End codec.

#[export] Instance ScriptPubKey_eq : EqDecision ScriptPubKey.
Proof. solve_decision. Defined.

#[export] Program Instance ScriptPubKey_countable : Countable ScriptPubKey :=
  inj_countable' (fun k => (spk_ASM k, spk_Hex k, spk_RequiredSigs k, spk_Type k, spk_Addresses k))
    (fun t => let '(a, h, n, t, l) := t in mkScriptPubKey a h n t l) _.
Next Obligation. by intros []. Qed.

Definition unsigned_tuple (u : unsignedTransaction) : bytes * list (option ScriptPubKey) * list bytes * list bytes :=
  (u_Transaction u, u_ScriptPubKeys u, u_InputAmounts u, u_InputAddresses u).

#[export] Instance toy_json : Json (@JsonMap toy_sdk) := {
  MarshalUnsigned u := Some (toy_marshal (unsigned_tuple u));
  UnmarshalUnsigned b :=
    match toy_unmarshal b with Some (t, k, a, d) => Some (mkUnsignedTransaction t k a d) | None => None end;
  MarshalSigned t := Some (toy_marshal (s_Transaction t, s_InputAmounts t));
  UnmarshalSigned b := match toy_unmarshal b with Some (t, a) => Some (mkSignedTransaction t a) | None => None end;
  MarshalOptions _ := None;
  UnmarshalOptions _ := None;
  MarshalConstruction m := Some (inr (toy_marshal (cm_ScriptPubKeys m)));
  UnmarshalConstruction j := match j with Some (inr b) => mkConstructionMetadata <$> toy_unmarshal b | _ => None end }.

#[export] Instance toy_json_laws : JsonLaws toy_json.
Proof.
  split; intros v _; eexists; (split; [reflexivity|]);
    cbn [toy_json UnmarshalUnsigned UnmarshalSigned UnmarshalConstruction]; rewrite toy_unmarshal_marshal; by destruct v.
Qed.

(** ** Matching by the first description that fits *)

Definition fits {J} (d : OperationDescription) (op : Operation J) : bool :=
  bool_decide (op_Type op = od_Type d)
  && eqb (od_AccountExists d) (bool_decide (is_Some (op_Account op)))
  && eqb (od_AmountExists d) (bool_decide (is_Some (op_Amount op))).

Definition toy_amount {J} (op : Operation J) : Z :=
  match op_Amount op with
  | Some a =>
      let value b := lval 10 (rev (map (fun c => b2z c - 48) b)) in
      match amt_Value a with
      | c :: b => if b2z c =? 45 then - value b else value (c :: b)
      | [] => 0
      end
  | None => 0
  end.

Definition toy_match {J} (ops : list (Operation J)) : Match J := mkMatch J ops (map toy_amount ops).

(** The operations that fit a description go to it, the others to the next ones. *)
Fixpoint toy_split {J} (ds : list OperationDescription) (ops : list (Operation J)) : list (Match J) * list (Operation J) :=
  match ds with
  | [] => ([], ops)
  | d :: ds =>
      let '(ms, rest) := toy_split ds (List.filter (fun op => negb (fits d op)) ops) in
      (toy_match (List.filter (fits d) ops) :: ms, rest)
  end.

#[export] Instance toy_parser {J} : Parser J := {
  MatchOperations ds ops :=
    let '(ms, rest) := toy_split (OperationDescriptions ds) ops in
    match rest with
    | [] => Some ms
    | _ => if ErrUnmatched ds then None else Some ms
    end }.

Lemma toy_digits x : 0 <= x -> lval 10 (rev (map (fun c => b2z c - 48) (FormatUint x))) = x.
Proof.
  intros Hx. rewrite FormatUint_digits, map_map. rewrite (map_ext_Forall _ id), map_id; [by apply dec_digits_val|].
  eapply Forall_impl; [apply dec_digits_digit|]. intros d Hd. cbn beta. rewrite b2z_dec_sym by done. unfold id. lia.
Qed.

Lemma toy_amount_eq {J} (op : Operation J) a z : op_Amount op = Some a -> amt_Value a = FormatInt z -> toy_amount op = z.
Proof.
  intros Ha Hz. unfold toy_amount. rewrite Ha, Hz. unfold FormatInt. destruct (Z.ltb_spec z 0).
  { change (str "-" ++ ?x) with (z2b 45 :: x). cbn [b2z]. rewrite toy_digits by lia. change (b2z _ =? 45) with true. cbn beta iota. lia. }
  pose proof (FormatInt_chars z ltac:(done)) as Hc. unfold FormatInt in Hc. rewrite (proj2 (Z.ltb_ge z 0)) in Hc by lia.
  pose proof (toy_digits z ltac:(done)) as Hd. destruct (FormatUint z) as [|c b]; [done|].
  inversion_clear Hc. rewrite (proj2 (Z.eqb_neq _ _)) by lia. done.
Qed.

Lemma filter_perm {A} (f : A -> bool) l : List.filter f l ++ List.filter (fun x => negb (f x)) l ≡ₚ l.
Proof.
  induction l as [|x l IH]; [done|]. cbn. destruct (f x); cbn [negb]; cbn.
  - by constructor.
  - rewrite <- Permutation_middle. by constructor.
Qed.

Lemma toy_split_spec {J} ds : forall (ops : list (Operation J)) ms rest, toy_split ds ops = (ms, rest) ->
  Forall2 (fun d m => Forall (fun op => op_Type op = od_Type d) (m_Operations m)) ds ms
  /\ Forall (fun m => m = toy_match (m_Operations m)) ms /\ concat (map m_Operations ms) ++ rest ≡ₚ ops.
Proof.
  induction ds as [|d ds IH]; intros ops ms rest Hs; cbn [toy_split] in Hs.
  { by injection Hs as <- <-. }
  destruct (toy_split ds _) as [ms' rest'] eqn:E. injection Hs as <- <-. apply IH in E as (H1 & H2 & H3). split_and!.
  - constructor; [|done]. apply Forall_forall. intros op Hop. apply list_elem_of_In, filter_In in Hop as [_ Hf].
    unfold fits in Hf. apply andb_true_iff in Hf as [Hf _]. apply andb_true_iff in Hf as [Hf _]. by apply bool_decide_eq_true in Hf.
  - by constructor.
  - cbn [map concat toy_match m_Operations]. by rewrite <- app_assoc, H3, filter_perm.
Qed.

#[export] Instance toy_parser_laws {J} : ParserLaws (@toy_parser J).
Proof.
  split; intros ds ops ms; cbn [MatchOperations toy_parser]; destruct (toy_split _ _) as [ms' rest] eqn:E;
    apply toy_split_spec in E as (H1 & H2 & H3).
  - by destruct rest; [|destruct (ErrUnmatched ds)]; intros [= <-].
  - intros m k op a z Hm Hin Hk Ha Hz. assert (ms' = ms) as <- by (by destruct rest; [|destruct (ErrUnmatched ds)]; simplify_eq).
    rewrite Forall_forall in H2. rewrite (H2 m) by (by apply list_elem_of_In). cbn [toy_match m_Amounts].
    rewrite list_lookup_fmap, Hk. cbn. f_equal. by eapply toy_amount_eq.
  - intros Hm Hu. rewrite Hu in Hm. destruct rest; [|done]. injection Hm as <-. by rewrite app_nil_r in H3.
Qed.
