(* ===== verification/ConstructionFacts.v ===== *)
(** Theorems on the construction endpoints: a transaction that goes through
    payloads and combine is accepted by the script engine, and parse gives back
    the operations it was built from. *)

From S2P Require Import Prelude Crypto WireCommon WireCodec WireTx Digits Hash Utf8 Base58 ScriptError ScriptNum Opcodes Tokenizer Script ScriptBuilder Standard Sighash SigParse SigCache Engine EnginePay Address PkScript Sign Coins Float64 Amount Rosetta Client ClientFacts UtilTx Config Construction ConstructionLaws.

Lemma ascii_hex b : ascii (EncodeToString b).
Proof.
  induction b as [|x b IH]; [constructor|]. cbn [EncodeToString]. apply Forall_app. split; [|exact IH].
  assert (forall d, 0 <= d < 16 -> b2z (hexChar d) < 128) as Hd.
  { intros d Hd. unfold hexChar. rewrite b2z_z2b. destruct (Z.ltb_spec d 10); rewrite Z.mod_small by lia; lia. }
  destruct (b2z_nibbles x). by repeat constructor; apply Hd.
Qed.

Lemma ascii_FormatInt z : ascii (FormatInt z).
Proof.
  assert (forall x, 0 <= x -> ascii (FormatInt x)) as Hp.
  { intros x Hx. eapply Forall_impl; [by apply FormatInt_chars|]. cbn. lia. }
  destruct (Z.lt_ge_cases z 0) as [Hz|Hz]; [|by apply Hp]. specialize (Hp (- z) ltac:(lia)). revert Hp.
  unfold FormatInt. rewrite (proj2 (Z.ltb_lt z 0)), (proj2 (Z.ltb_ge (- z) 0)) by lia. intros Hp. constructor; [done|exact Hp].
Qed.

Lemma wrapErr_Ret {E A} e (o : outcome E A) a : wrapErr e o = Ret a -> o = Ret a.
Proof. destruct o; by intros [= ->]. Qed.

Lemma wrapOpt_Ret {A} e (o : option A) a : wrapOpt e o = Ret a -> o = Some a.
Proof. destruct o; by intros [= ->]. Qed.

Lemma orCrash_Ret {E A} (o : option A) a : orCrash (E := E) o = Ret a -> o = Some a.
Proof. destruct o; by intros [= ->]. Qed.

(** Inversion of a chain of calls that returned. *)
Ltac inv_ret H :=
  lazymatch type of H with
  | bindO _ _ = Ret _ => let x := fresh "x" in let Hx := fresh "Hx" in apply bindO_Ret in H as (x & Hx & H)
  | wrapErr _ _ = Ret _ => apply wrapErr_Ret in H
  | wrapOpt _ _ = Ret _ => apply wrapOpt_Ret in H
  | orCrash _ = Ret _ => apply orCrash_Ret in H
  end.

Lemma slices (r t more : bytes) : zlen r = 32 -> zlen t = 32 ->
  zslice (r ++ t ++ more) 0 32 = Some r /\ zslice (r ++ t ++ more) 32 64 = Some t.
Proof.
  intros Hr Ht. pose proof (zlen_nonneg more). rewrite !zslice_Some by (rewrite ?zlen_app; lia).
  change (Z.to_nat (32 - 0)) with 32%nat. change (Z.to_nat (64 - 32)) with 32%nat. change (Z.to_nat 0) with 0%nat.
  change (Z.to_nat 32) with 32%nat. assert (L1 : length r = 32%nat) by (unfold zlen in Hr; lia).
  assert (L2 : length t = 32%nat) by (unfold zlen in Ht; lia). rewrite drop_0, <- L1 at 1.
  by rewrite take_app_length, <- L1, drop_app_length, L1, <- L2, take_app_length.
Qed.

Section facts.
#[local] Set Default Proof Using "Type*".
Context `{C : Crypto} {K : SDK} {P : Parser JsonMap} {J : Json JsonMap} `{FloatConv} (s : Configuration).

(** ** The transaction that is built *)

Definition input_of (op : Operation JsonMap) (ti : TxIn) : Prop :=
  exists cc h i, op_CoinChange op = Some cc /\ ParseCoinIdentifier (cc_CoinIdentifier cc) = Ret (h, i)
    /\ ti = mkTxIn (mkOutPoint h i) [] [] MaxTxInSequenceNum.

Definition output_of (v : Z) (op : Operation JsonMap) (to : TxOut) : Prop :=
  exists acct a, op_Account op = Some acct /\ DecodeAddress (acct_Address acct) (cfg_Params s) = Ret a
    /\ PayToAddrScript (Some a) = Ret (WireTx.PkScript to) /\ Value to = i64 v.

Lemma addInputs_spec ops : forall tx tx', addInputs ops tx = Ret tx' ->
  exists ins, tx' = mkMsgTx (Version tx) (TxIns tx ++ ins) (TxOuts tx) (LockTime tx) /\ Forall2 input_of ops ins.
Proof using Type.
  induction ops as [|op ops IH]; intros tx tx' Hr; cbn [addInputs] in Hr.
  { injection Hr as <-. exists []. rewrite app_nil_r. by destruct tx. }
  destruct (op_CoinChange op) as [cc|] eqn:Ecc; [|done]. inv_ret Hr. destruct x as [h i]. inv_ret Hx.
  apply IH in Hr as (ins & -> & Hins). eexists (_ :: ins). split; [by cbn; rewrite <- app_assoc|].
  constructor; [|done]. by exists cc, h, i.
Qed.

Lemma addOutputs_spec ops amounts : forall i tx tx', addOutputs s ops i amounts tx = Ret tx' ->
  exists outs, tx' = mkMsgTx (Version tx) (TxIns tx) (TxOuts tx ++ outs) (LockTime tx)
    /\ related (fun j op to => exists v, znth amounts j = Some v /\ output_of v op to) i ops outs.
Proof using Type.
  induction ops as [|op ops IH]; intros i tx tx' Hr; cbn [addOutputs] in Hr.
  { injection Hr as <-. exists []. rewrite app_nil_r. by destruct tx. }
  inv_ret Hr. inv_ret Hx. inv_ret Hr. inv_ret Hx0. inv_ret Hr. inv_ret Hx1. inv_ret Hr. inv_ret Hx2.
  apply IH in Hr as (outs & -> & Hout). eexists (_ :: outs). split; [by cbn; rewrite <- app_assoc|].
  split; [|done]. eexists. split; [done|]. by eexists _, _.
Qed.

(** ** The hashes to sign *)

Lemma single_p2pkh script a : ParseSingleAddress (cfg_Params s) script = Ret (PubKeyHashTy, a) ->
  exists h, script = p2pkh h /\ zlen h = 20.
Proof using Type.
  unfold ParseSingleAddress, ExtractPkScriptAddrs. destruct (extractPubKeyHash script) as [h|] eqn:E.
  { intros _. exists h. by apply extractPubKeyHash_iff. }
  intros Hr. exfalso. revert Hr. destruct (extractScriptHash script).
  { destruct (scriptHashToAddrs _ _); cbn [bindO]; try done. by destruct (znth _ 0). }
  destruct (extractPubKey script). { destruct (okAddrs _); cbn [bindO]; try done. by destruct (znth _ 0). }
  destruct (extractMultisigScriptDetails script true) as [d| | |]; cbn [bindO]; try done. destruct (valid d).
  { destruct (pubKeysToAddrs _ _); cbn [bindO]; try done. destruct (negb _); [done|]. by destruct (znth _ 0). }
  destruct (isNullDataScript script) as [[]| | |]; done.
Qed.

Definition payload_of (m : Match JsonMap) (metadata : constructionMetadata) (tx : MsgTx) (i : Z)
    (p : bytes * bytes * SigningPayload) : Prop :=
  exists op acct spk h amount hash,
    znth (m_Operations m) i = Some op /\ op_Account op = Some acct
    /\ znth (cm_ScriptPubKeys metadata) i = Some (Some spk) /\ DecodeString (spk_Hex spk) = Ret (p2pkh h) /\ zlen h = 20
    /\ znth (m_Amounts m) i = Some amount /\ calcSignatureHash (p2pkh h) SigHashAll tx i = Ret hash
    /\ p = (acct_Address acct, FormatInt amount, mkSigningPayload (acct_Address acct) hash).

Lemma payload_spec m metadata tx i p : payload s m metadata tx i = Ret p -> payload_of m metadata tx i p.
Proof using Type.
  unfold payload. intros Hr. inv_ret Hr. inv_ret Hx. inv_ret Hr. inv_ret Hx0. inv_ret Hr. inv_ret Hx1.
  inv_ret Hr. inv_ret Hx2. subst x1. inv_ret Hr. inv_ret Hx2. inv_ret Hr. inv_ret Hx3. destruct x3 as [class a].
  inv_ret Hr. inv_ret Hx4. destruct class; try done. inv_ret Hr. inv_ret Hx5. injection Hr as <-.
  destruct (single_p2pkh _ _ Hx3) as (h & -> & Hh). rewrite CalcSignatureHash_p2pkh in Hx5 by done.
  by exists x, x0, x2, h, x3, x4.
Qed.

Lemma payloadLoop_spec m metadata tx n : forall i ps, payloadLoop s m metadata tx n i = Ret ps ->
  length ps = n /\ forall j p, ps !! j = Some p -> payload_of m metadata tx (i + Z.of_nat j) p.
Proof using Type.
  induction n as [|n IH]; intros i ps Hr; cbn [payloadLoop] in Hr; [by injection Hr as <-|].
  inv_ret Hr. inv_ret Hr. injection Hr as <-. apply payload_spec in Hx. apply IH in Hx0 as [Hl Hj].
  split; [by cbn; f_equal|]. intros [|j] p Hp; [injection Hp as <-; by rewrite Z.add_0_r|].
  replace (i + Z.of_nat (S j)) with (i + 1 + Z.of_nat j) by lia. by apply Hj.
Qed.

(** ** Signatures *)

(** The 64 bytes of a signature of a hash by a key. *)
Definition raw_signature (key : PrivateKey) (hash raw : bytes) : Prop :=
  exists r t sr st, raw = r ++ t /\ zlen r = 32 /\ zlen t = 32
    /\ SetByteSlice r = (sr, false) /\ SetByteSlice t = (st, false) /\ NewSignature sr st = SignHash key hash.

Lemma normalizedSignature_spec key hash sg : raw_signature key hash (sg_Bytes sg) -> head (sg_Bytes sg) <> Some Byte.x00 ->
  normalizedSignature sg = Ret (SigSerialize (SignHash key hash) ++ [z2b SigHashAll]).
Proof using Type.
  intros (r & t & sr & st & Er & Hr & Ht & Sr & St & En) Hh. unfold normalizedSignature.
  assert (drop_zeros (sg_Bytes sg) = sg_Bytes sg) as ->.
  { destruct (sg_Bytes sg) as [|b l]; [done|]. cbn [drop_zeros]. rewrite (proj2 (Z.eqb_neq _ _)); [done|].
    intros E. apply Hh. cbn. f_equal. apply (inj b2z). by rewrite E. }
  rewrite Er, <- app_assoc. destruct (slices r t (sg_Spare sg) Hr Ht) as [-> ->]. cbn [orCrash bindO].
  rewrite Sr, St. cbn [orb]. by rewrite En.
Qed.
End facts.

(** C32: a signature is read without a panic exactly if 64 bytes are left of it
    when the zeros in front are removed, counting the spare capacity behind the slice.
    A valid signature of 64 bytes whose first byte is zero therefore panics, unless the
    slice has spare capacity; then it is read shifted: the two scalars are the first and
    the second 32 bytes of what is left of the signature followed by the bytes behind
    it, and they are refused only if one of them overflows. *)
Theorem normalizedSignature_panics_iff `{C : Crypto} (sg : RSignature) :
  let left := drop_zeros (sg_Bytes sg) ++ sg_Spare sg in
  (normalizedSignature sg = Crash <-> zlen left < 64)
  /\ (zlen (sg_Bytes sg) = 64 -> head (sg_Bytes sg) = Some Byte.x00 -> sg_Spare sg = [] -> normalizedSignature sg = Crash)
  /\ forall r t more, left = r ++ t ++ more -> zlen r = 32 -> zlen t = 32 ->
     normalizedSignature sg
     = match SetByteSlice r, SetByteSlice t with
       | (sr, false), (st, false) => Ret (SigSerialize (NewSignature sr st) ++ [z2b SigHashAll])
       | _, _ => Fail ErrUnableToParseIntermediateResult
       end.
Proof.
  cbv zeta. set (left := drop_zeros (sg_Bytes sg) ++ sg_Spare sg).
  assert (Hread : forall r t more, left = r ++ t ++ more -> zlen r = 32 -> zlen t = 32 -> normalizedSignature sg
     = match SetByteSlice r, SetByteSlice t with
       | (sr, false), (st, false) => Ret (SigSerialize (NewSignature sr st) ++ [z2b SigHashAll])
       | _, _ => Fail ErrUnableToParseIntermediateResult
       end).
  { intros r t more E Hr Ht. unfold normalizedSignature. fold left. rewrite E.
    destruct (slices r t more Hr Ht) as [-> ->]. cbn [orCrash bindO].
    by destruct (SetByteSlice r) as [sr []], (SetByteSlice t) as [st []]. }
  assert (Hiff : normalizedSignature sg = Crash <-> zlen left < 64).
  { split.
    - intros Hc. destruct (Z.lt_ge_cases (zlen left) 64) as [|Hge]; [done|]. exfalso.
      rewrite (Hread (take 32 left) (take 32 (drop 32 left)) (drop 32 (drop 32 left))) in Hc
        by (rewrite ?take_drop; try done; unfold zlen in *; rewrite length_take, ?length_drop; lia).
      by repeat case_match.
    - intros Hlt. unfold normalizedSignature. fold left. destruct (zslice left 0 32) as [r|]; [|done]. cbn [orCrash bindO].
      assert (zslice left 32 64 = None) as -> by (unfold zslice; rewrite decide_False by lia; done). done. }
  split; [exact Hiff|]. split; [|exact Hread]. intros H64 Hh Hs. apply Hiff. unfold left. rewrite Hs, app_nil_r.
  destruct (sg_Bytes sg) as [|b l]; [done|]. injection Hh as ->.
  cbn [drop_zeros]. change (b2z Byte.x00 =? 0) with true. cbn iota. rewrite zlen_cons in H64.
  assert (zlen (drop_zeros l) <= zlen l); [|lia]. clear. induction l as [|b l IH]; [done|]. cbn [drop_zeros].
  destruct (b2z b =? 0); rewrite ?zlen_cons; lia.
Qed.

Lemma normalizedSignature_panics_iff_witness :
  normalizedSignature (C := toy) (mkRSignature [] (Byte.x00 :: replicate 63 (z2b 1)) []) = Crash.
Proof.
  apply (normalizedSignature_panics_iff (C := toy) (mkRSignature [] (Byte.x00 :: replicate 63 (z2b 1)) [])); reflexivity.
Defined.

(** The same signature with one byte behind its slice is read, with that byte as its
    last one. *)
Example leading_zero_shifts :
  normalizedSignature (C := toy) (mkRSignature [] (Byte.x00 :: replicate 63 (z2b 1)) [z2b 9])
  = normalizedSignature (C := toy) (mkRSignature [] (replicate 63 (z2b 1) ++ [z2b 9]) []).
Proof. vm_compute. reflexivity. Qed.

Section combine.
#[local] Set Default Proof Using "Type*".
Context `{C : Crypto} `{!CryptoLaws C} `{!KeyLaws C} `{!SignLaws C} {K : SDK} {P : Parser JsonMap} {J : Json JsonMap}
  {L : JsonLaws J} `{FloatConv} (s : Configuration).

(** ** The unlocking scripts *)

Lemma single_address a : wf_address (cfg_Params s) a ->
  ParseSingleAddress (cfg_Params s) (address_script a) = Ret (address_class a, a).
Proof. intros Ha. unfold ParseSingleAddress. by rewrite Extract_address. Qed.

Lemma combineInput_spec unsigned signatures i spk h sg key compress hash :
  znth (u_ScriptPubKeys unsigned) i = Some (Some spk) -> DecodeString (spk_Hex spk) = Ret (p2pkh h) -> zlen h = 20 ->
  znth signatures i = Some sg -> raw_signature key hash (sg_Bytes sg) -> head (sg_Bytes sg) <> Some Byte.x00 ->
  sg_PublicKey sg = key_bytes key compress ->
  combineInput s unsigned signatures i
  = Ret (unlock (SigSerialize (SignHash key hash) ++ [z2b SigHashAll]) (key_bytes key compress)).
Proof.
  intros Hspk Hd Hh Hsg Hraw Hz Hpk. unfold combineInput. rewrite Hspk. cbn [orCrash bindO]. rewrite Hd. cbn [wrapErr bindO].
  change (p2pkh h) with (address_script (AddrPubKeyHash (mkAddressPubKeyHash h (PubKeyHashAddrID (cfg_Params s))))).
  rewrite single_address by done. cbn [wrapErr bindO]. rewrite Hsg. cbn [orCrash bindO].
  rewrite (normalizedSignature_spec key hash) by done. cbn [bindO address_class]. rewrite Hpk.
  destruct (signature_parsed key hash 0) as (Hl & _). destruct (key_bytes_ok key compress) as (Hk & _).
  rewrite build_unlock; [done| |done]. rewrite zlen_app. change (zlen [z2b SigHashAll]) with 1. lia.
Qed.

Definition script_at (unsigned : unsignedTransaction) (signatures : list RSignature) (i : Z) : bytes :=
  match combineInput s unsigned signatures i with Ret b => b | _ => [] end.

Lemma combineLoop_eq unsigned signatures ins : forall i,
  (forall j, (j < length ins)%nat -> exists b, combineInput s unsigned signatures (i + Z.of_nat j) = Ret b) ->
  combineLoop s unsigned signatures ins i
  = Ret (zimap (fun k ti => put_SignatureScript (script_at unsigned signatures k) ti) i ins).
Proof using Type.
  induction ins as [|ti ins IH]; intros i Hi; [done|]. cbn [combineLoop zimap].
  destruct (Hi 0%nat) as [b Hb]; [cbn; lia|]. rewrite Z.add_0_r in Hb. rewrite Hb. cbn [bindO]. rewrite IH; [cbn [bindO]|].
  - unfold script_at at 2. by rewrite Hb.
  - intros j Hj. destruct (Hi (S j)) as [c Hc]; [cbn; lia|]. exists c.
    by replace (i + 1 + Z.of_nat j) with (i + Z.of_nat (S j)) by lia.
Qed.

(** Inputs without witnesses: the loop is an unlocking of the transaction. *)
Lemma combine_unlock f (ins : list TxIn) : Forall (fun ti => Witness ti = []) ins -> forall i,
  zimap (fun k ti => put_SignatureScript (f k) ti) i ins
  = zimap (fun k ti => mkTxIn (PreviousOutPoint ti) (f k, [] : list bytes).1 (f k, [] : list bytes).2 (Sequence ti)) i ins.
Proof using Type.
  induction 1 as [|ti ins Hw Hins IH]; intros i; [done|]. cbn [zimap]. rewrite IH. f_equal.
  unfold put_SignatureScript. by rewrite Hw.
Qed.

(** ** Well-formed transactions *)

Lemma input_of_wf (op : Operation JsonMap) ti : input_of op ti ->
  txin_wf ti /\ witness_wf (Witness ti) /\ Witness ti = [] /\ SignatureScript ti = [].
Proof using Type.
  intros (cc & h & i & _ & Hp & ->). pose proof (ParseCoinIdentifier_total (cc_CoinIdentifier cc)) as Ht. rewrite Hp in Ht.
  split; [|by split]. split; [done|]. split; [done|]. cbn. lia.
Qed.

Lemma address_script_len net a : wf_address net a -> zlen (address_script a) <= 67.
Proof.
  destruct a as [a|a|a]; intros [Ha _]; cbn [address_script].
  - unfold p2pkh. autorewrite with zlen. lia.
  - unfold p2sh. autorewrite with zlen. lia.
  - destruct (serialize_form a Ha) as (Hl & _). unfold p2pk. rewrite zlen_cons, zlen_app, Hl.
    change (zlen [_]) with 1. destruct (pubKeyFormat a); lia.
Qed.

Lemma output_of_wf v (op : Operation JsonMap) to : output_of s v op to ->
  txout_wf to /\ exists acct a, op_Account op = Some acct /\ DecodeAddress (acct_Address acct) (cfg_Params s) = Ret a
    /\ wf_address (cfg_Params s) a /\ WireTx.PkScript to = address_script a /\ Value to = i64 v.
Proof.
  intros (acct & a & Hacct & Ha & Hs & Hv). destruct (DecodeAddress_wf (E := AddrErr) _ _ _ Ha) as [Hwf _].
  rewrite (PayToAddrScript_eq (cfg_Params s)) in Hs by done. injection Hs as Hs.
  split; [|by exists acct, a]. split; [rewrite Hv; apply i64_range|]. rewrite <- Hs. pose proof (address_script_len _ _ Hwf). lia.
Qed.

(** ** The way through the endpoints *)

Definition payload_descriptions : Descriptions := mkDescriptions [inputDescription s; outputDescription s] true.

(** A request that is matched, within the limits of a transaction, with texts
    that JSON keeps. *)
Record request_ok (operations : list (Operation JsonMap)) (ins outs : Match JsonMap) (md : option JsonMap)
    (metadata : constructionMetadata) : Prop := {
  ro_match : MatchOperations payload_descriptions operations = Some [ins; outs];
  ro_some : m_Operations ins <> [];
  ro_ins : zlen (m_Operations ins) <= maxTxInPerMessage;
  ro_outs : zlen (m_Operations outs) <= maxTxOutPerMessage;
  ro_metadata : UnmarshalConstruction md = Some metadata;
  ro_scripts : Forall ascii (concat (map spk_texts (cm_ScriptPubKeys metadata)));
  ro_addresses : forall op acct, In op (m_Operations ins) -> op_Account op = Some acct -> ascii (acct_Address acct) }.

Definition tx_version : Z := if negb (cfg_Mainnet s) then TestnetTxVersion else MainnetTxVersion.

(** What payloads made: the transaction and, for each input, its payload. *)
Record built (ins outs : Match JsonMap) (metadata : constructionMetadata) (tx : MsgTx)
    (ps : list (bytes * bytes * SigningPayload)) : Prop := {
  bt_version : Version tx = tx_version;
  bt_lock : LockTime tx = 0;
  bt_ins : Forall2 input_of (m_Operations ins) (TxIns tx);
  bt_outs : related (fun j op to => exists v, znth (m_Amounts outs) j = Some v /\ output_of s v op to) 0
              (m_Operations outs) (TxOuts tx);
  bt_len : length ps = length (TxIns tx);
  bt_payload : forall j p, ps !! j = Some p -> payload_of ins metadata tx (Z.of_nat j) p }.

Definition unsigned_of (buf : bytes) (metadata : constructionMetadata) (ps : list (bytes * bytes * SigningPayload)) :
    unsignedTransaction :=
  mkUnsignedTransaction (EncodeToString buf) (cm_ScriptPubKeys metadata) (map (fun p => p.1.2) ps) (map (fun p => p.1.1) ps).

Lemma built_wf ins outs metadata tx ps : zlen (m_Operations ins) <= maxTxInPerMessage ->
  zlen (m_Operations outs) <= maxTxOutPerMessage -> built ins outs metadata tx ps -> tx_wf tx.
Proof.
  intros Hi Ho [Hv Hl Hins Houts _ _]. split; [rewrite Hv; unfold tx_version; destruct (cfg_Mainnet s); cbn; lia|].
  pose proof (Forall2_length _ _ _ Hins) as Li. destruct (related_lookup _ _ _ _ Houts) as [Lo _].
  assert (Hw : Forall (fun ti => txin_wf ti /\ witness_wf (Witness ti)) (TxIns tx)).
  { eapply Forall2_Forall_r; [exact Hins|]. apply Forall_true. intros op ti Hio. by destruct (input_of_wf op ti Hio) as (? & ? & _). }
  apply Forall_and in Hw as [Hw1 Hw2]. split; [split; [unfold zlen in *; lia|done]|]. split; [split; [unfold zlen in *; lia|]|].
  - eapply related_Forall; [|exact Houts]. intros j op to (v & _ & Hto). by apply (output_of_wf v op).
  - split; [done|]. rewrite Hl. lia.
Qed.

Lemma Payloads_spec operations md ins outs metadata text payloads : request_ok operations ins outs md metadata ->
  ConstructionPayloads s operations md = Ret (text, payloads) ->
  exists tx ps buf raw, built ins outs metadata tx ps /\ payloads = map snd ps
    /\ Serialize tx [] = (Ret tt, buf) /\ Deserialize buf = (Ret tx, [])
    /\ text = EncodeToString raw /\ UnmarshalUnsigned raw = Some (unsigned_of buf metadata ps).
Proof.
  intros [Hm Hne Hli Hlo Hmd Hsc Had] Hr. unfold ConstructionPayloads in Hr. fold payload_descriptions in Hr. rewrite Hm in Hr.
  cbn [wrapOpt bindO] in Hr. cbv zeta in Hr. change (znth [ins; outs] 0) with (Some ins) in Hr.
  change (znth [ins; outs] 1) with (Some outs) in Hr. cbn [orCrash bindO] in Hr. fold tx_version in Hr.
  inv_ret Hr. apply addInputs_spec in Hx as (tis & -> & Hins). cbn [NewMsgTx Version TxIns TxOuts LockTime app bindO] in Hr.
  inv_ret Hr. apply addOutputs_spec in Hx as (tos & -> & Houts). cbn [Version TxIns TxOuts LockTime app] in Hr.
  rewrite Hmd in Hr. cbn [wrapOpt bindO] in Hr. set (tx := mkMsgTx _ tis tos 0) in *.
  inv_ret Hr. rename x into ps. apply payloadLoop_spec in Hx as [Hlen Hps].
  assert (Hb : built ins outs metadata tx ps) by (by split).
  pose proof (built_wf _ _ _ _ _ Hli Hlo Hb) as Hwf.
  assert (Hn : TxIns tx <> []).
  { intros E. apply Hne. pose proof (Forall2_length _ _ _ Hins) as Hl2. cbn [tx TxIns] in E. subst tis. by destruct (m_Operations ins). }
  destruct (Serialize_Deserialize tx [] Hwf Hn) as (buf & Hser & _ & Hdes). rewrite app_nil_r in Hdes.
  unfold serializeTx in Hr. rewrite Hser in Hr. cbn [wrapErr bindO] in Hr. inv_ret Hr. inv_ret Hx. injection Hr as <- <-.
  fold (unsigned_of buf metadata ps) in Hx. destruct (json_unsigned (unsigned_of buf metadata ps)) as (raw & Hm1 & Hu1).
  { cbn [unsigned_of u_Transaction u_InputAmounts u_InputAddresses u_ScriptPubKeys]. constructor; [apply ascii_hex|].
    rewrite !Forall_app. split_and!; [| |done]; apply Forall_forall; intros b (p & -> & [j Hj]%list_elem_of_lookup)%list_elem_of_fmap;
      destruct (Hps j p Hj) as (op & acct & spk & h & amount & hash & Hop & Hacct & _ & _ & _ & _ & _ & ->); cbn [fst snd].
    - apply ascii_FormatInt.
    - apply (Had op acct); [|done]. rewrite Z.add_0_l, znth_nat in Hop. apply list_elem_of_In. by eapply list_elem_of_lookup_2. }
  rewrite Hm1 in Hx. injection Hx as <-. exists tx, ps, buf, raw. by split_and!.
Qed.
End combine.

(** Every payload is signed by a key to which the script of its input pays, with a
    signature that [normalizedSignature] reads as it is. *)
Definition signed_payloads `{Crypto} (metadata : constructionMetadata) (payloads : list SigningPayload)
    (signatures : list RSignature) : Prop :=
  forall i p, payloads !! i = Some p -> exists sg key compress spk,
    signatures !! i = Some sg /\ sg_PublicKey sg = key_bytes key compress
    /\ raw_signature key (sp_Bytes p) (sg_Bytes sg) /\ head (sg_Bytes sg) <> Some Byte.x00
    /\ cm_ScriptPubKeys metadata !! i = Some (Some spk) /\ DecodeString (spk_Hex spk) = Ret (p2pkh (Hash160 (sg_PublicKey sg)))
    /\ Contains (Hash160 (sg_PublicKey sg)) (SigSerialize (SignHash key (sp_Bytes p)) ++ [z2b SigHashAll]) = false.

Section accepted.
#[local] Set Default Proof Using "Type*".
Context `{C : Crypto} `{!CryptoLaws C} `{!KeyLaws C} `{!SignLaws C} {K : SDK} {P : Parser JsonMap} {J : Json JsonMap}
  {L : JsonLaws J} `{FloatConv} `{MapOrder} (s : Configuration).

Lemma p2pkh_inj h h' : p2pkh h = p2pkh h' -> zlen h = 20 -> zlen h' = 20 -> h = h'.
Proof using Type.
  intros E H1 H2. assert (extractPubKeyHash (p2pkh h) = Some h) as E1 by (by apply extractPubKeyHash_iff).
  rewrite E in E1. assert (extractPubKeyHash (p2pkh h') = Some h') as E2 by (by apply extractPubKeyHash_iff). congruence.
Qed.

(** The scripts of the inputs, and that they unlock. *)
Lemma combined_input ins outs metadata tx ps buf signatures j :
  built s ins outs metadata tx ps -> signed_payloads metadata (map snd ps) signatures -> (j < length (TxIns tx))%nat ->
  exists spk h key compress hash,
    cm_ScriptPubKeys metadata !! j = Some (Some spk) /\ DecodeString (spk_Hex spk) = Ret (p2pkh h)
    /\ (exists sg, signatures !! j = Some sg /\ sg_PublicKey sg = key_bytes key compress)
    /\ h = Hash160 (key_bytes key compress) /\ calcSignatureHash (p2pkh h) SigHashAll tx (Z.of_nat j) = Ret hash
    /\ Contains h (SigSerialize (SignHash key hash) ++ [z2b SigHashAll]) = false
    /\ combineInput s (unsigned_of buf metadata ps) signatures (Z.of_nat j)
       = Ret (unlock (SigSerialize (SignHash key hash) ++ [z2b SigHashAll]) (key_bytes key compress)).
Proof.
  intros [_ _ _ _ Hlen Hpay] Hsig Hj. destruct (lookup_lt_is_Some_2 ps j) as [p Hp]; [lia|].
  destruct (Hpay j p Hp) as (op & acct & spk & h & amount & hash & _ & _ & Hspk & Hd & Hh & _ & Hhash & ->).
  destruct (Hsig j (mkSigningPayload (acct_Address acct) hash)) as (sg & key & compress & spk' & Hsg & Hpk & Hraw & Hz & Hspk' & Hd' & Hc).
  { by rewrite list_lookup_fmap, Hp. }
  rewrite znth_nat in Hspk. rewrite Hspk in Hspk'. injection Hspk' as <-. assert (Hpp : p2pkh h = p2pkh (Hash160 (sg_PublicKey sg))) by congruence.
  clear Hd'. apply p2pkh_inj in Hpp as Hd'; [|done|apply ripemd160_len]. rewrite Hpk in Hd', Hc. cbn [sp_Bytes] in Hc, Hraw.
  exists spk, h, key, compress, hash. split_and!; [done|done|by exists sg|done|done|by rewrite Hd'|].
  eapply combineInput_spec; [cbn [unsigned_of u_ScriptPubKeys]; by rewrite znth_nat|done|done|by rewrite znth_nat|done|done|done].
Qed.

Lemma combined_wf ins outs metadata tx ps (f : Z -> bytes) : zlen (m_Operations ins) <= maxTxInPerMessage ->
  zlen (m_Operations outs) <= maxTxOutPerMessage -> built s ins outs metadata tx ps ->
  (forall j, (j < length (TxIns tx))%nat -> zlen (f (Z.of_nat j)) <= MaxMessagePayload) ->
  tx_wf (unlock_with (fun k => (f k, [])) tx).
Proof.
  intros Hi Ho Hb Hf. destruct (built_wf s _ _ _ _ _ Hi Ho Hb) as (H1 & [H2 H3] & H4 & H5 & H6).
  unfold unlock_with, set_TxIns. split; [done|]. cbn [TxIns TxOuts Version LockTime]. rewrite zlen_zimap.
  split; [split; [done|]|split; [done|split; [|done]]]; apply Forall_lookup; intros j ti Hti;
    rewrite lookup_zimap in Hti; destruct (TxIns tx !! j) as [ti0|] eqn:E; try done; injection Hti as <-; [|done].
  rewrite Forall_lookup in H3. destruct (H3 j ti0 E) as (? & ? & ?). split; [done|]. split; [|done]. cbn.
  apply Hf. by eapply lookup_lt_Some.
Qed.

(** The bytes of a combined transaction, and the message that carries them. *)
Lemma Combine_spec operations md ins outs metadata tx ps buf raw signatures :
  request_ok s operations ins outs md metadata -> built s ins outs metadata tx ps ->
  Deserialize buf = (Ret tx, []) -> UnmarshalUnsigned raw = Some (unsigned_of buf metadata ps) ->
  signed_payloads metadata (map snd ps) signatures ->
  let tx' := unlock_with (fun k => (script_at s (unsigned_of buf metadata ps) signatures k, [])) tx in
  exists signedRaw buf', ConstructionCombine s (EncodeToString raw) signatures = Ret (EncodeToString signedRaw)
    /\ decodeSigned (EncodeToString signedRaw) = Ret (mkSignedTransaction (EncodeToString buf') (map (fun p => p.1.2) ps))
    /\ Deserialize buf' = (Ret tx', []).
Proof.
  intros Hro Hb Hdes Hun Hs tx'. assert (Hci := fun j => combined_input ins outs metadata tx ps buf signatures j Hb Hs).
  set (unsigned := unsigned_of buf metadata ps) in *. set (f := script_at s unsigned signatures) in *.
  assert (Hf : forall j, (j < length (TxIns tx))%nat -> zlen (f (Z.of_nat j)) <= MaxMessagePayload).
  { intros j Hj. destruct (Hci j Hj) as (spk & h & key & compress & hash & _ & _ & _ & _ & _ & _ & E). unfold f, script_at. rewrite E.
    destruct (signature_parsed key hash 0) as (Hl & _). destruct (key_bytes_ok key compress) as (Hk & _). unfold direct_size in Hk.
    unfold unlock, direct_push. rewrite zlen_app, !zlen_cons, zlen_app. change (zlen [_]) with 1. lia. }
  pose proof (combined_wf ins outs metadata tx ps f (ro_ins _ _ _ _ _ _ Hro) (ro_outs _ _ _ _ _ _ Hro) Hb Hf) as Hwf. fold tx' in Hwf.
  assert (Hne : TxIns tx' <> []).
  { intros E. assert (Hlen : length (TxIns tx') = length (TxIns tx)) by apply length_zimap. rewrite E in Hlen.
    pose proof (Forall2_length _ _ _ (bt_ins _ _ _ _ _ _ Hb)) as Hl2. rewrite <- Hlen in Hl2. by apply (ro_some _ _ _ _ _ _ Hro), nil_length_inv. }
  destruct (Serialize_Deserialize tx' [] Hwf Hne) as (buf' & Hser & _ & Hdes'). rewrite app_nil_r in Hdes'.
  destruct (json_signed (mkSignedTransaction (EncodeToString buf') (u_InputAmounts unsigned))) as (rawS & Hm & Hu).
  { constructor; [apply ascii_hex|]. apply Forall_forall. intros b (p & -> & [j Hj]%list_elem_of_lookup)%list_elem_of_fmap.
    destruct (bt_payload _ _ _ _ _ _ Hb j p Hj) as (? & ? & ? & ? & ? & ? & _ & _ & _ & _ & _ & _ & _ & ->). apply ascii_FormatInt. }
  exists rawS, buf'. split; [|split; [|done]].
  - unfold ConstructionCombine, DecodeString. rewrite hex_Decode_EncodeToString. cbn [wrapErr bindO]. rewrite Hun. cbn [wrapOpt bindO].
    unfold decodeTx, DecodeString. cbn [unsigned unsigned_of u_Transaction]. rewrite hex_Decode_EncodeToString. cbn [wrapErr bindO].
    rewrite Hdes. cbn [fst wrapErr bindO].
    rewrite combineLoop_eq by (intros j Hj; destruct (Hci j Hj) as (? & ? & ? & ? & ? & _ & _ & _ & _ & _ & _ & E); by eexists).
    cbn [bindO]. fold unsigned. fold f. rewrite (combine_unlock f).
    + change (mkMsgTx (Version tx) _ (TxOuts tx) (LockTime tx)) with tx'. unfold serializeTx. rewrite Hser. cbn [wrapErr bindO]. by rewrite Hm.
    + eapply Forall2_Forall_r; [exact (bt_ins _ _ _ _ _ _ Hb)|]. apply Forall_true. intros op ti Hio. by destruct (input_of_wf op ti Hio) as (_ & _ & ? & _).
  - unfold decodeSigned, DecodeString. rewrite hex_Decode_EncodeToString. cbn [wrapErr bindO]. by rewrite Hu.
Qed.
End accepted.

(** C6: a transaction that goes through the endpoints is valid: if payloads
    returns a transaction and hashes to sign, and every hash is signed by the key
    to which the script of its input pays, with a signature of 64 bytes that does
    not begin with a zero byte and whose encoding does not occur inside the hash of
    the key (the engine would remove it from the script), then combine returns a signed transaction, the engine
    accepts every input of it under every set of flags, and hash returns the hash
    of that transaction. *)
Theorem construction_accepted `{C : Crypto} `{!CryptoLaws C} `{!KeyLaws C} `{!SignLaws C} {K : SDK} {P : Parser JsonMap}
    {J : Json JsonMap} {L : JsonLaws J} `{MapOrder} (s : Configuration) (operations : list (Operation JsonMap))
    (md : option JsonMap) (ins outs : Match JsonMap) (metadata : constructionMetadata) (text : bytes)
    (payloads : list SigningPayload) (signatures : list RSignature) :
  request_ok s operations ins outs md metadata ->
  ConstructionPayloads s operations md = Ret (text, payloads) -> signed_payloads metadata payloads signatures ->
  exists signedText buf tx, ConstructionCombine s text signatures = Ret signedText
    /\ (exists amounts, decodeSigned signedText = Ret (mkSignedTransaction (EncodeToString buf) amounts))
    /\ Deserialize buf = (Ret tx, []) /\ zlen (TxIns tx) = zlen payloads
    /\ ConstructionHash signedText = Ret (Hash_String (TxHash tx))
    /\ forall i, 0 <= i < zlen payloads -> exists spk script,
         znth (cm_ScriptPubKeys metadata) i = Some (Some spk) /\ DecodeString (spk_Hex spk) = Ret script
         /\ forall fl, exists vm, NewEngine script tx i fl None = Ret vm /\ (Execute vm).1 = Ret tt.
Proof.
  intros Hro Hp Hs. destruct (Payloads_spec s _ _ _ _ _ _ _ Hro Hp) as (tx & ps & buf & raw & Hb & -> & _ & Hdes & -> & Hun).
  destruct (Combine_spec s _ _ _ _ _ _ _ _ _ _ Hro Hb Hdes Hun Hs) as (rawS & buf' & Hcomb & Hdec & Hdes').
  set (tx' := unlock_with _ tx) in *. assert (Hlen : length (TxIns tx') = length (TxIns tx)) by apply length_zimap.
  exists (EncodeToString rawS), buf', tx'. split_and!; [done|by eexists|done| | |].
  - unfold zlen. by rewrite Hlen, length_map, (bt_len _ _ _ _ _ _ Hb).
  - unfold ConstructionHash. rewrite Hdec. cbn [bindO s_Transaction]. unfold DecodeString. rewrite hex_Decode_EncodeToString. cbn [wrapErr bindO].
    unfold NewTxFromBytes, NewTxFromReader. rewrite (bindM_step _ _ _ _ _ Hdes'). done.
  - intros i Hi. unfold zlen in Hi. rewrite length_map, (bt_len _ _ _ _ _ _ Hb) in Hi.
    destruct (combined_input s ins outs metadata tx ps buf signatures (Z.to_nat i) Hb Hs)
      as (spk & h & key & compress & hash & Hspk & Hd & _ & Eh & Hhash & Hc & E); [lia|].
    rewrite Z2Nat.id in Hhash, E by lia. exists spk, (p2pkh h). rewrite znth_lookup by lia. split_and!; [done|done|].
    intros fl. subst h. eapply signed_input_accepted; [unfold zlen; lia|by left|exact Hhash|done|]. unfold script_at. by rewrite E.
Qed.

(** ** A request

    Two coins, of the keys 5 and 6, are spent by a transaction of one output. *)

Definition sample_config : Configuration := mainnetConfiguration (Online, [], []) 8080.

Definition sample_key_hash (key : Z) : bytes := Hash160 (H := toy) (key_bytes (C := toy) key true).

Definition sample_address (key : Z) : bytes :=
  match EncodeAddress (H := toy) (E := unit) (AddrPubKeyHash (mkAddressPubKeyHash (sample_key_hash key) (z2b 7))) with
  | Ret b => b
  | _ => []
  end.

Definition sample_amount (z : Z) : option RAmount := Some (mkAmount (FormatInt z) (cfg_Currency sample_config)).

Definition sample_spend (index key value : Z) : Operation (@JsonMap toy_sdk) :=
  mkOperation (mkOperationIdentifier index None) InputOpType None (Some (mkAccountIdentifier (sample_address key)))
    (sample_amount (- value))
    (Some (mkCoinChange (CoinIdentifier (Hash_String (replicate 32 (z2b 9))) index) CoinSpent)) None.

Definition sample_pay (index key value : Z) : Operation (@JsonMap toy_sdk) :=
  mkOperation (mkOperationIdentifier index None) OutputOpType None (Some (mkAccountIdentifier (sample_address key)))
    (sample_amount value) None None.

Definition sample_operations : list (Operation (@JsonMap toy_sdk)) :=
  [sample_spend 0 5 70000; sample_pay 1 7 90000; sample_spend 2 6 30000].

Definition sample_ins : Match (@JsonMap toy_sdk) := toy_match [sample_spend 0 5 70000; sample_spend 2 6 30000].
Definition sample_outs : Match (@JsonMap toy_sdk) := toy_match [sample_pay 1 7 90000].

Definition sample_spk (key : Z) : option ScriptPubKey :=
  Some (mkScriptPubKey [] (EncodeToString (p2pkh (sample_key_hash key))) 1 (str "pubkeyhash") []).

Definition sample_metadata : constructionMetadata := mkConstructionMetadata [sample_spk 5; sample_spk 6].

Definition sample_md : option (@JsonMap toy_sdk) := MarshalConstruction sample_metadata.

(** The signature of a payload by a key. *)
Definition sample_signature (key : Z) (hash : bytes) : RSignature :=
  mkRSignature (key_bytes (C := toy) key true)
    (toy_bytes (SignHash (Crypto := toy) key hash).1 ++ toy_bytes (SignHash (Crypto := toy) key hash).2) [].

Definition sample_built : outcome ServiceErr (bytes * list SigningPayload) :=
  ConstructionPayloads (C := toy) (K := toy_sdk) sample_config sample_operations sample_md.

Definition sample_payloads : list SigningPayload :=
  Eval vm_compute in match sample_built with Ret (_, payloads) => payloads | _ => [] end.

Definition sample_signatures : list RSignature :=
  Eval vm_compute in zimap (fun i p => sample_signature (5 + i) (sp_Bytes p)) 0 sample_payloads.

Lemma sample_request : request_ok (K := toy_sdk) sample_config sample_operations sample_ins sample_outs sample_md sample_metadata.
Proof.
  split.
  - vm_compute. reflexivity.
  - discriminate.
  - vm_compute. congruence.
  - vm_compute. congruence.
  - vm_compute. reflexivity.
  - apply (bool_decide_unpack _). vm_compute. exact I.
  - intros op acct Hop Hacct. unfold ascii. apply (bool_decide_unpack _).
    destruct Hop as [<-|[<-|[]]]; injection Hacct as <-; vm_compute; exact I.
Qed.

Lemma sample_built_eq : exists text, sample_built = Ret (text, sample_payloads).
Proof.
  assert (Hp : match sample_built with Ret (_, payloads) => payloads | _ => [] end = sample_payloads) by (vm_compute; reflexivity).
  assert (Hok : returned sample_built = true) by (vm_compute; reflexivity).
  destruct sample_built as [[text payloads]| | |]; try discriminate Hok. exists text. by rewrite <- Hp.
Qed.

(** The two scalars of a signature are read back from its bytes. *)
Lemma sample_raw key hash raw : raw = toy_bytes (SignHash (Crypto := toy) key hash).1 ++ toy_bytes (SignHash (Crypto := toy) key hash).2 ->
  SetByteSlice (Crypto := toy) (toy_bytes (SignHash (Crypto := toy) key hash).1) = ((SignHash (Crypto := toy) key hash).1, false) ->
  SetByteSlice (Crypto := toy) (toy_bytes (SignHash (Crypto := toy) key hash).2) = ((SignHash (Crypto := toy) key hash).2, false) ->
  raw_signature (C := toy) key hash raw.
Proof. intros -> Hr Ht. eexists _, _, _, _. by split_and!. Qed.

Lemma sample_signed : signed_payloads (H := toy) sample_metadata sample_payloads sample_signatures.
Proof.
  intros [|[|i]] p Hp; [| |discriminate Hp]; injection Hp as <-.
  - eexists _, 5, true, _. split; [reflexivity|]. split; [vm_compute; reflexivity|].
    split; [apply sample_raw; vm_compute; reflexivity|]. split; [discriminate|]. split; [reflexivity|].
    split; vm_compute; reflexivity.
  - eexists _, 6, true, _. split; [reflexivity|]. split; [vm_compute; reflexivity|].
    split; [apply sample_raw; vm_compute; reflexivity|]. split; [discriminate|]. split; [reflexivity|].
    split; vm_compute; reflexivity.
Qed.

Lemma construction_accepted_witness : exists text signedText buf tx,
  ConstructionPayloads (C := toy) (K := toy_sdk) sample_config sample_operations sample_md = Ret (text, sample_payloads)
  /\ ConstructionCombine (C := toy) sample_config text sample_signatures = Ret signedText
  /\ Deserialize buf = (Ret tx, []) /\ zlen (TxIns tx) = 2
  /\ forall fl, exists vm, NewEngine (p2pkh (sample_key_hash 5)) tx 0 fl None = Ret vm
       /\ (Execute (H := toy) (H0 := toy_order) vm).1 = Ret tt.
Proof.
  destruct sample_built_eq as [text Ht].
  destruct (construction_accepted (C := toy) (K := toy_sdk) (H := toy_order) sample_config sample_operations sample_md sample_ins
    sample_outs sample_metadata text sample_payloads sample_signatures sample_request Ht sample_signed)
    as (signedText & buf & tx & Hc & _ & Hd & Hl & _ & Hacc).
  exists text, signedText, buf, tx. split; [exact Ht|]. split; [exact Hc|]. split; [exact Hd|]. split; [exact Hl|]. intros fl.
  destruct (Hacc 0) as (spk & script & Hk & Hs & Hx); [vm_compute; split; congruence|].
  vm_compute in Hk. injection Hk as <-. vm_compute in Hs. injection Hs as <-. apply Hx.
Defined.
