(* ===== verification/ConstructionTrip.v ===== *)
(** Parsing what the construction endpoints made: the operations of an unsigned
    transaction are those it was built from. *)

From S2P Require Import Prelude Crypto WireCommon WireCodec WireTx Digits Hash Utf8 Base58 ScriptError ScriptNum Opcodes Tokenizer Script ScriptBuilder Standard Sighash SigParse SigCache Engine EnginePay Address PkScript Sign Coins Float64 Amount Rosetta Client ClientFacts UtilTx Config Construction ConstructionLaws ConstructionFacts.

(** The operation parse gives back: the positions are those in the transaction,
    there is no status and no metadata. *)
Definition parsed_op {J} (i j : Z) (cc : option CoinChange) (op : Operation J) : Operation J :=
  mkOperation (mkOperationIdentifier i (Some j)) (op_Type op) None (op_Account op) (op_Amount op) cc None.

(** The texts of an operation are those the program itself prints. *)
Record canonical {J} (s : Configuration) (op : Operation J) : Prop := {
  can_amount : exists z, op_Amount op = Some (mkAmount (FormatInt z) (cfg_Currency s)) /\ (op_Type op = OutputOpType -> - 2 ^ 63 <= z < 2 ^ 63);
  can_input : op_Type op = InputOpType -> exists h i, zlen h = 32 /\ 0 <= i < 2 ^ 32
    /\ op_CoinChange op = Some (mkCoinChange (CoinIdentifier (Hash_String h) i) CoinSpent);
  can_output acct : op_Type op = OutputOpType -> op_Account op = Some acct -> zlen (acct_Address acct) <> 66 /\ zlen (acct_Address acct) <> 130 }.

Lemma related_intro {A B} (R : Z -> A -> B -> Prop) l : forall j k, length k = length l ->
  (forall n a c, l !! n = Some a -> k !! n = Some c -> R (j + Z.of_nat n) a c) -> related R j l k.
Proof.
  induction l as [|a l IH]; intros j [|c k] Hl Hn; try done. split.
  - rewrite <- (Z.add_0_r j). by apply (Hn 0%nat).
  - apply IH; [by injection Hl|]. intros n x y Hx Hy. replace (j + 1 + Z.of_nat n) with (j + Z.of_nat (S n)) by lia. by apply Hn.
Qed.

Section trip.
#[local] Set Default Proof Using "Type*".
Context `{C : Crypto} `{!CryptoLaws C} `{!KeyLaws C} `{!SignLaws C} {K : SDK} {P : Parser JsonMap} {J : Json JsonMap}
  {L : JsonLaws J} {PL : ParserLaws P} (s : Configuration).

Lemma unsignedInputs_eq unsigned ops : forall i ins acc, zlen acc = i ->
  related (fun j op ti => exists a v, znth (u_InputAddresses unsigned) j = Some a /\ znth (u_InputAmounts unsigned) j = Some v
    /\ inputOperation s j a v j ti = parsed_op j j (op_CoinChange op) op) i ops ins ->
  unsignedInputs s unsigned ins i acc = Ret (acc ++ zimap (fun j op => parsed_op j j (op_CoinChange op) op) i ops).
Proof using Type.
  induction ops as [|op ops IH]; intros i [|ti ins] acc Hl Hr; try done; cbn [unsignedInputs zimap]; [by rewrite app_nil_r|].
  destruct Hr as ((a & v & -> & -> & E) & Hr). cbn [orCrash bindO]. rewrite Hl, E, IH; [by rewrite <- app_assoc| |done].
  rewrite zlen_app, Hl. change (zlen [_]) with 1. lia.
Qed.

Lemma parseTxOutputs_eq n ops : forall j outs acc, zlen acc = n + j ->
  related (fun k op to => exists class a text, ParseSingleAddress (cfg_Params s) (WireTx.PkScript to) = Ret (class, a)
    /\ Address_String (E := ServiceErr) a = Ret text /\ op_Type op = OutputOpType /\ op_Account op = Some (mkAccountIdentifier text)
    /\ op_Amount op = Some (mkAmount (FormatInt (Value to)) (cfg_Currency s))) j ops outs ->
  parseTxOutputs s outs j acc = Ret (acc ++ zimap (fun k op => parsed_op (n + k) k None op) j ops).
Proof using Type.
  induction ops as [|op ops IH]; intros j [|to outs] acc Hl Hr; try done; cbn [parseTxOutputs zimap]; [by rewrite app_nil_r|].
  destruct Hr as ((class & a & text & -> & Ht & E1 & E2 & E3) & Hr). cbn [wrapErr bindO]. rewrite Ht. cbn [bindO].
  rewrite Hl, IH; [|rewrite zlen_app, Hl; change (zlen [_]) with 1; lia|done].
  rewrite <- app_assoc. unfold parsed_op at 2. by rewrite E1, E2, E3.
Qed.

(** One output: its script is read as the address of the operation. *)
Lemma output_parsed op to v : canonical s op -> op_Type op = OutputOpType -> output_of s v op to ->
  (forall a z, op_Amount op = Some a -> amt_Value a = FormatInt z -> v = z) ->
  exists class a text, ParseSingleAddress (cfg_Params s) (WireTx.PkScript to) = Ret (class, a)
    /\ Address_String (E := ServiceErr) a = Ret text /\ op_Type op = OutputOpType /\ op_Account op = Some (mkAccountIdentifier text)
    /\ op_Amount op = Some (mkAmount (FormatInt (Value to)) (cfg_Currency s)).
Proof.
  intros [(z & Ha & Hz) _ Hout] Ht Ho Hv. destruct (output_of_wf s v op to Ho) as (_ & acct & a & Hacct & Hd & Hwf & Hs & Hval).
  destruct (Hout acct Ht Hacct) as [H1 H2]. exists (address_class a), a, (acct_Address acct).
  rewrite Hs, single_address by done. rewrite (Hv _ z Ha eq_refl) in Hval. split_and!; [done| |done| |].
  - by eapply DecodeAddress_String.
  - rewrite Hacct. by destruct acct.
  - rewrite Ha, Hval, i64_id; [done|]. specialize (Hz Ht). lia.
Qed.

(** One input. *)
Lemma input_parsed op ti m metadata tx j p : canonical s op -> op_Type op = InputOpType -> input_of op ti ->
  payload_of m metadata tx j p -> znth (m_Operations m) j = Some op ->
  (forall a z, op_Amount op = Some a -> amt_Value a = FormatInt z -> znth (m_Amounts m) j = Some z) ->
  inputOperation s j p.1.1 p.1.2 j ti = parsed_op j j (op_CoinChange op) op.
Proof using Type.
  intros [(z & Ha & _) Hin _] Ht (cc & h & i & Hcc & Hp & ->) (op' & acct & spk & h' & amount & hash & Hop & Hacct & _ & _ & _ & Ham & _ & ->) Hop' Hz.
  rewrite Hop in Hop'. injection Hop' as ->. rewrite (Hz _ z Ha eq_refl) in Ham. injection Ham as <-.
  destruct (Hin Ht) as (h2 & i2 & Hh2 & Hi2 & Hcc2). rewrite Hcc2 in Hcc. injection Hcc as <-. cbn [cc_CoinIdentifier] in Hp.
  rewrite ParseCoinIdentifier_eq in Hp by done. injection Hp as <- <-. unfold inputOperation, parsed_op.
  rewrite Ht, Hacct, Ha, Hcc2. by destruct acct.
Qed.

(** The same for a signed transaction, whose inputs name their accounts by the
    keys in their scripts. *)
Lemma signedInputs_eq signed ops : forall i ins acc signers, zlen acc = i ->
  related (fun j op ti => exists p script class a text v, ComputePkScript (SignatureScript ti) = Ret p
    /\ PkScript_Script (E := ServiceErr) p = Ret (Some script) /\ ParseSingleAddress (cfg_Params s) script = Ret (class, a)
    /\ EncodeAddress (E := ServiceErr) a = Ret text /\ znth (s_InputAmounts signed) j = Some v
    /\ op_Account op = Some (mkAccountIdentifier text) /\ inputOperation s j text v j ti = parsed_op j j (op_CoinChange op) op) i ops ins ->
  signedInputs s signed ins i acc signers
  = Ret (acc ++ zimap (fun j op => parsed_op j j (op_CoinChange op) op) i ops, signers ++ omap op_Account ops).
Proof using Type.
  induction ops as [|op ops IH]; intros i [|ti ins] acc signers Hl Hr; try done; cbn [signedInputs zimap omap list_omap]; [by rewrite !app_nil_r|].
  destruct Hr as ((p & script & class & a & text & v & H1 & H2 & H3 & H4 & H5 & H6 & E) & Hr). rewrite H1. cbn [wrapErr bindO].
  rewrite H2. cbn [bindO]. change (default [] (Some script)) with script. rewrite H3. cbn [wrapErr bindO]. rewrite H4. cbn [bindO]. rewrite H5. cbn [orCrash bindO].
  rewrite Hl, E, IH; [by rewrite H6, <- !app_assoc| |done]. rewrite zlen_app, Hl. change (zlen [_]) with 1. lia.
Qed.

Lemma key_bytes_33 key compress : zlen (key_bytes key compress) = 33 ->
  head (key_bytes key compress) = Some (z2b 2) \/ head (key_bytes key compress) = Some (z2b 3).
Proof.
  destruct (signer_key key) as [b Hb]. destruct compress; cbn [key_bytes].
  - by destruct (compressed_form b _ Hb) as (_ & Hh & _).
  - destruct (uncompressed_form b _ Hb) as (Hl & _). intros E. congruence.
Qed.

(** The account of a script that unlocks with a compressed key. *)
Lemma unlocked_account key compress hash text : zlen (key_bytes key compress) = 33 ->
  EncodeAddress (E := ServiceErr) (AddrPubKeyHash (mkAddressPubKeyHash (Hash160 (key_bytes key compress)) (PubKeyHashAddrID (cfg_Params s)))) = Ret text ->
  exists p script class a, ComputePkScript (unlock (SigSerialize (SignHash key hash) ++ [z2b SigHashAll]) (key_bytes key compress)) = Ret p
    /\ PkScript_Script (E := ServiceErr) p = Ret (Some script) /\ ParseSingleAddress (cfg_Params s) script = Ret (class, a)
    /\ EncodeAddress (E := ServiceErr) a = Ret text.
Proof.
  intros H33 Ht. assert (Hh : zlen (Hash160 (key_bytes key compress)) = 20) by apply ripemd160_len.
  destruct (signature_parsed key hash 0) as (Hl & _). eexists _, _, PubKeyHashTy, _. split_and!; [| | |exact Ht].
  - apply ComputePkScript_unlock; [|done|by apply key_bytes_33]. rewrite zlen_app. change (zlen [z2b SigHashAll]) with 1. lia.
  - by apply PkScript_Script_p2pkh.
  - exact (single_address s (AddrPubKeyHash (mkAddressPubKeyHash _ (PubKeyHashAddrID (cfg_Params s)))) (conj Hh eq_refl)).
Qed.
(** What is known of the operations of a match. *)
Definition matched (m : Match JsonMap) (ty : bytes) : Prop :=
  forall j op, m_Operations m !! j = Some op -> canonical s op /\ op_Type op = ty
  /\ forall a z, op_Amount op = Some a -> amt_Value a = FormatInt z -> m_Amounts m !! j = Some z.

Lemma request_matched operations ins outs md metadata : request_ok s operations ins outs md metadata -> Forall (canonical s) operations ->
  m_Operations ins ++ m_Operations outs ≡ₚ operations /\ matched ins InputOpType /\ matched outs OutputOpType.
Proof.
  intros Hro Hcan. pose proof (ro_match _ _ _ _ _ _ Hro) as Hm.
  assert (Hperm : m_Operations ins ++ m_Operations outs ≡ₚ operations).
  { pose proof (match_all _ _ _ Hm eq_refl) as Hall. cbn in Hall. by rewrite app_nil_r in Hall. }
  split; [exact Hperm|]. rewrite <- Hperm, Forall_app, !Forall_lookup in Hcan. destruct Hcan as [Hci Hco].
  pose proof (match_descriptions _ _ _ Hm) as Hd. inversion_clear Hd as [|? ? ? ? Hti Hd']. inversion_clear Hd' as [|? ? ? ? Hto _].
  rewrite Forall_lookup in Hti, Hto. split; intros j op Hop; (split_and!; [eauto|eauto|]); intros a z Ha Hz;
    (eapply match_amounts; [exact Hm| |done|done|done]); [by left|right; by left].
Qed.

Lemma built_inputs ins outs metadata tx ps buf : matched ins InputOpType -> built s ins outs metadata tx ps ->
  unsignedInputs s (unsigned_of buf metadata ps) (TxIns tx) 0 []
  = Ret (zimap (fun i op => parsed_op i i (op_CoinChange op) op) 0 (m_Operations ins)).
Proof using Type.
  intros Hm [_ _ Hins _ Hlen Hpay]. rewrite (unsignedInputs_eq _ (m_Operations ins)); [done|done|].
  pose proof (Forall2_length _ _ _ Hins) as Hli. apply related_intro; [done|]. intros n op ti Hop Hti'. rewrite Z.add_0_l.
  destruct (lookup_lt_is_Some_2 ps n) as [p Hps]; [apply lookup_lt_Some in Hti'; lia|]. exists p.1.1, p.1.2.
  cbn [unsigned_of u_InputAddresses u_InputAmounts]. rewrite !znth_nat, !list_lookup_fmap, Hps. split_and!; [done|done|].
  rewrite Forall2_lookup in Hins. specialize (Hins n). rewrite Hop, Hti' in Hins. inversion_clear Hins as [? ? Hio|].
  destruct (Hm n op Hop) as (H1 & H2 & H3). eapply input_parsed; [done|done|exact Hio|by apply Hpay|by rewrite znth_nat|]. intros a z. rewrite znth_nat. apply H3.
Qed.

Lemma built_outputs ins outs metadata tx ps acc n : matched outs OutputOpType -> built s ins outs metadata tx ps -> zlen acc = n ->
  parseTxOutputs s (TxOuts tx) 0 acc = Ret (acc ++ zimap (fun j op => parsed_op (n + j) j None op) 0 (m_Operations outs)).
Proof.
  intros Hm [_ _ _ Houts _ _] Hn. rewrite (parseTxOutputs_eq n (m_Operations outs)); [done|lia|].
  destruct (related_lookup _ _ _ _ Houts) as [Hlo Hlook]. apply related_intro; [done|]. intros j op to Hop Hto'.
  destruct (Hlook j op Hop) as (to' & Hto'' & v & Hv & Hov). rewrite Hto' in Hto''. injection Hto'' as <-.
  destruct (Hm j op Hop) as (H1 & H2 & H3). eapply output_parsed; [done|done|exact Hov|]. intros a z Ha Hz.
  pose proof (H3 a z Ha Hz) as Hz'. rewrite Z.add_0_l, znth_nat in Hv. congruence.
Qed.
End trip.

(** C19: parse undoes payloads: on a request whose texts are in the form the
    program prints, the operations read from the unsigned transaction are those of
    the request, inputs first, each with the type, account, amount and (for inputs)
    coin it was asked for, and with its position; nothing is lost or added. *)
Theorem parse_payloads `{C : Crypto} `{!CryptoLaws C} `{!KeyLaws C} `{!SignLaws C} {K : SDK} {P : Parser JsonMap} {J : Json JsonMap}
    {L : JsonLaws J} {PL : ParserLaws P} (s : Configuration) (operations : list (Operation JsonMap)) (md : option JsonMap)
    (ins outs : Match JsonMap) (metadata : constructionMetadata) (text : bytes) (payloads : list SigningPayload) :
  request_ok s operations ins outs md metadata -> Forall (canonical s) operations ->
  ConstructionPayloads s operations md = Ret (text, payloads) ->
  m_Operations ins ++ m_Operations outs ≡ₚ operations
  /\ ConstructionParse s false text
     = Ret (zimap (fun i op => parsed_op i i (op_CoinChange op) op) 0 (m_Operations ins)
            ++ zimap (fun j op => parsed_op (zlen (m_Operations ins) + j) j None op) 0 (m_Operations outs), []).
Proof.
  intros Hro Hcan Hp. destruct (request_matched s _ _ _ _ _ Hro Hcan) as (Hperm & Hmi & Hmo). split; [exact Hperm|].
  destruct (Payloads_spec s _ _ _ _ _ _ _ Hro Hp) as (tx & ps & buf & raw & Hb & _ & _ & Hdes & -> & Hun).
  unfold ConstructionParse, parseUnsignedTransaction, DecodeString. rewrite hex_Decode_EncodeToString. cbn [wrapErr bindO].
  rewrite Hun. cbn [wrapOpt bindO]. unfold decodeTx, DecodeString. cbn [unsigned_of u_Transaction]. rewrite hex_Decode_EncodeToString.
  cbn [wrapErr bindO]. rewrite Hdes. cbn [fst wrapErr bindO]. fold (unsigned_of buf metadata ps).
  rewrite (built_inputs s ins outs) by done. cbn [bindO].
  rewrite (built_outputs s ins outs metadata tx ps _ (zlen (m_Operations ins))) by (done || apply zlen_zimap). done.
Qed.

(** The accounts of the inputs are those of the keys that sign, which are
    compressed. *)
Definition keys_own `{Crypto} {J} (s : Configuration) (ops : list (Operation J)) (signatures : list RSignature) : Prop :=
  forall j op sg, ops !! j = Some op -> signatures !! j = Some sg ->
  zlen (sg_PublicKey sg) = 33 /\ exists text, op_Account op = Some (mkAccountIdentifier text)
    /\ EncodeAddress (E := ServiceErr) (AddrPubKeyHash (mkAddressPubKeyHash (Hash160 (sg_PublicKey sg)) (PubKeyHashAddrID (cfg_Params s)))) = Ret text.

(** C20: parse undoes combine: if moreover the payloads are signed with compressed
    keys that own the accounts of the inputs, the signed transaction is parsed into
    the same operations as the unsigned one, and the signers are the accounts of
    the inputs in their order, recovered from the scripts alone. *)
Theorem parse_combined `{C : Crypto} `{!CryptoLaws C} `{!KeyLaws C} `{!SignLaws C} {K : SDK} {P : Parser JsonMap} {J : Json JsonMap}
    {L : JsonLaws J} {PL : ParserLaws P} (s : Configuration) (operations : list (Operation JsonMap)) (md : option JsonMap)
    (ins outs : Match JsonMap) (metadata : constructionMetadata) (text : bytes) (payloads : list SigningPayload)
    (signatures : list RSignature) :
  request_ok s operations ins outs md metadata -> Forall (canonical s) operations ->
  ConstructionPayloads s operations md = Ret (text, payloads) -> signed_payloads metadata payloads signatures ->
  keys_own s (m_Operations ins) signatures ->
  exists signedText, ConstructionCombine s text signatures = Ret signedText
  /\ ConstructionParse s true signedText
     = Ret (zimap (fun i op => parsed_op i i (op_CoinChange op) op) 0 (m_Operations ins)
            ++ zimap (fun j op => parsed_op (zlen (m_Operations ins) + j) j None op) 0 (m_Operations outs),
            omap op_Account (m_Operations ins)).
Proof.
  intros Hro Hcan Hp Hs Hown. destruct (request_matched s _ _ _ _ _ Hro Hcan) as (_ & Hmi & Hmo).
  destruct (Payloads_spec s _ _ _ _ _ _ _ Hro Hp) as (tx & ps & buf & raw & Hb & -> & _ & Hdes & -> & Hun).
  destruct (Combine_spec s _ _ _ _ _ _ _ _ _ _ Hro Hb Hdes Hun Hs) as (rawS & buf' & Hcomb & Hdec & Hdes').
  exists (EncodeToString rawS). split; [exact Hcomb|]. unfold ConstructionParse, parseSignedTransaction. rewrite Hdec. cbn [bindO].
  unfold decodeTx, DecodeString. cbn [s_Transaction]. rewrite hex_Decode_EncodeToString. cbn [wrapErr bindO]. rewrite Hdes'. cbn [fst wrapErr bindO].
  rewrite (signedInputs_eq s _ (m_Operations ins)); [cbn [bindO app]|done|].
  - change (TxOuts (unlock_with _ tx)) with (TxOuts tx).
    rewrite (built_outputs s ins outs metadata tx ps _ (zlen (m_Operations ins))) by (done || apply zlen_zimap). done.
  - pose proof (bt_ins _ _ _ _ _ _ Hb) as Hins. pose proof (Forall2_length _ _ _ Hins) as Hli.
    apply related_intro; [unfold unlock_with, set_TxIns; cbn [TxIns]; by rewrite length_zimap|]. intros j op ti Hop Hti. rewrite Z.add_0_l.
    unfold unlock_with, set_TxIns in Hti. cbn [TxIns] in Hti. rewrite lookup_zimap in Hti.
    destruct (TxIns tx !! j) as [ti0|] eqn:Eti; [|done]. injection Hti as <-. cbn [SignatureScript fst]. rewrite Z.add_0_l.
    destruct (combined_input s ins outs metadata tx ps buf signatures j Hb Hs) as (spk & h & key & compress & hash & _ & _ & (sg & Hsg & Hpk) & _ & _ & _ & E).
    { by eapply lookup_lt_Some. }
    destruct (Hown j op sg Hop Hsg) as (H33 & text & Hacct & Htext). rewrite Hpk in H33, Htext.
    destruct (unlocked_account s key compress hash text H33 Htext) as (p & script & class & a & P1 & P2 & P3 & P4).
    destruct (lookup_lt_is_Some_2 ps j) as [pl Hpl]; [rewrite (bt_len _ _ _ _ _ _ Hb); by eapply lookup_lt_Some|].
    exists p, script, class, a, text, pl.1.2. unfold script_at. rewrite E. cbn [s_InputAmounts]. rewrite znth_nat, list_lookup_fmap, Hpl.
    split_and!; [done|done|done|done|done|done|]. rewrite Forall2_lookup in Hins. specialize (Hins j). rewrite Hop, Eti in Hins.
    inversion_clear Hins as [? ? Hio|]. destruct (Hmi j op Hop) as (M1 & M2 & M3). pose proof (bt_payload _ _ _ _ _ _ Hb j pl Hpl) as Hpay.
    assert (pl.1.1 = text) as <-.
    { destruct Hpay as (op' & acct & ? & ? & ? & ? & Hop' & Hacct' & _ & _ & _ & _ & _ & ->). rewrite znth_nat in Hop'. cbn. rewrite Hop in Hop'.
      injection Hop' as <-. rewrite Hacct in Hacct'. by injection Hacct' as <-. }
    rewrite <- (input_parsed s op ti0 ins metadata tx (Z.of_nat j) pl M1 M2 Hio Hpay); [done|by rewrite znth_nat|].
    intros a' z. rewrite znth_nat. apply M3.
Qed.

Lemma sample_spend_canonical index key value : 0 <= index < 2 ^ 32 -> canonical sample_config (sample_spend index key value).
Proof.
  intros Hi. split; [|intros _|intros acct Ht; discriminate Ht].
  - exists (- value). split; [reflexivity|]. intros Ht. discriminate Ht.
  - exists (replicate 32 (z2b 9)), index. split_and!; [reflexivity|lia|lia|reflexivity].
Qed.

Lemma sample_pay_canonical : canonical sample_config (sample_pay 1 7 90000).
Proof.
  split; [|intros Ht; discriminate Ht|].
  - exists 90000. split; [reflexivity|]. intros _. lia.
  - intros acct _ [= <-]. split; vm_compute; congruence.
Qed.

Lemma parse_payloads_witness : exists text ops,
  ConstructionPayloads (C := toy) (K := toy_sdk) sample_config sample_operations sample_md = Ret (text, sample_payloads)
  /\ ConstructionParse (C := toy) (K := toy_sdk) sample_config false text = Ret (ops, []) /\ length ops = 3%nat.
Proof.
  destruct sample_built_eq as [text Ht].
  destruct (parse_payloads (C := toy) (K := toy_sdk) sample_config sample_operations sample_md sample_ins sample_outs sample_metadata
    text sample_payloads sample_request) as [_ Hp].
  - constructor; [apply sample_spend_canonical; lia|]. constructor; [apply sample_pay_canonical|].
    constructor; [apply sample_spend_canonical; lia|]. constructor.
  - exact Ht.
  - eexists text, _. split; [exact Ht|]. split; [exact Hp|reflexivity].
Defined.

Lemma parse_combined_witness : exists text signedText ops,
  ConstructionPayloads (C := toy) (K := toy_sdk) sample_config sample_operations sample_md = Ret (text, sample_payloads)
  /\ ConstructionCombine (C := toy) sample_config text sample_signatures = Ret signedText
  /\ ConstructionParse (C := toy) (K := toy_sdk) sample_config true signedText
     = Ret (ops, [mkAccountIdentifier (sample_address 5); mkAccountIdentifier (sample_address 6)]) /\ length ops = 3%nat.
Proof.
  destruct sample_built_eq as [text Ht].
  destruct (parse_combined (C := toy) (K := toy_sdk) sample_config sample_operations sample_md sample_ins sample_outs sample_metadata
    text sample_payloads sample_signatures sample_request) as (signedText & Hc & Hp).
  - constructor; [apply sample_spend_canonical; lia|]. constructor; [apply sample_pay_canonical|].
    constructor; [apply sample_spend_canonical; lia|]. constructor.
  - exact Ht.
  - exact sample_signed.
  - intros [|[|j]] op sg Hop Hsg; [| |discriminate Hop]; injection Hop as <-; injection Hsg as <-; (split; [reflexivity|]);
      eexists; (split; [reflexivity|]); vm_compute; reflexivity.
  - eexists text, signedText, _. split; [exact Ht|]. split; [exact Hc|]. split; [exact Hp|reflexivity].
Defined.
