(* ===== verification/Threads.v ===== *)
(** Concurrent programs: threads that share a state and run interleaved.

    A program is a tree of actions.  An action is atomic: it reads and changes the
    shared state in one step, or cannot run yet (a lock that is taken, a channel
    that is open).  A schedule names the thread that runs next and resolves its
    choices (a cancelled context, a failing disk), so that runs can be computed.

    [ok] is the proof rule: every thread keeps a piece of ghost state of its own,
    an invariant relates the shared state to all pieces, and every action of a
    thread keeps the invariant, whatever the other threads did before it. *)

From S2P Require Import Prelude.

Section threads.
Context {State : Type} {Action : Type -> Type}.

Inductive prog (A : Type) : Type :=
  | Done (a : A)
  | Act (R : Type) (a : Action R) (k : R -> prog A).
Arguments Done {A}.
Arguments Act {A R}.

Fixpoint bindP {A B} (p : prog A) (f : A -> prog B) : prog B :=
  match p with
  | Done a => f a
  | Act a k => Act a (fun r => bindP (k r) f)
  end.

Definition act {R} (a : Action R) : prog R := Act a Done.

Context (perform : forall R, Action R -> nat -> State -> option (R * State)).

(** One action of a program. *)
Definition step1 {A} (p : prog A) (choice : nat) (sg : State) : option (prog A * State) :=
  match p with
  | Done _ => None
  | Act a k =>
      match perform _ a choice sg with
      | Some (r, sg) => Some (k r, sg)
      | None => None
      end
  end.

Definition config (A : Type) : Type := list (prog A) * State.

Definition cstep {A} (t choice : nat) (c : config A) : option (config A) :=
  match c.1 !! t with
  | Some p =>
      match step1 p choice c.2 with
      | Some (p, sg) => Some (<[t := p]> c.1, sg)
      | None => None
      end
  | None => None
  end.

(** A run: [None] if the schedule names a thread that cannot move. *)
Fixpoint run {A} (schedule : list (nat * nat)) (c : config A) : option (config A) :=
  match schedule with
  | [] => Some c
  | (t, choice) :: schedule =>
      match cstep t choice c with
      | Some c => run schedule c
      | None => None
      end
  end.

Lemma run_app {A} s1 : forall s2 (c : config A),
  run (s1 ++ s2) c = match run s1 c with Some c => run s2 c | None => None end.
Proof. induction s1 as [|[t ch] s1 IH]; intros s2 c; [done|]. cbn [run app]. destruct (cstep t ch c); [apply IH|done]. Qed.

(** A thread that is not scheduled stays where it is. *)
Lemma run_other {A} sch t : forall c c' : config A, run sch c = Some c' -> Forall (fun x => x.1 <> t) sch -> c'.1 !! t = c.1 !! t.
Proof.
  induction sch as [|[u ch] sch IH]; intros c c' Hr Hs; cbn [run] in Hr; [by injection Hr as <-|].
  inversion_clear Hs as [|? ? Hu Hs']. cbn [fst] in Hu. destruct (cstep u ch c) as [c1|] eqn:Hc; [|done]. rewrite (IH c1 c' Hr Hs').
  unfold cstep in Hc. destruct (c.1 !! u); [|done]. destruct (step1 _ _ _) as [[q sg]|]; [|done]. injection Hc as <-. cbn [fst].
  by rewrite list_lookup_insert_ne.
Qed.

(** ** Ghost state *)

Context {G : Type} (Inv : State -> list G -> Prop) (label : forall R, Action R -> G -> Prop).

Fixpoint ok {A} (p : prog A) (g : G) (Q : A -> G -> Prop) : Prop :=
  match p with
  | Done a => Q a g
  | Act a k =>
      label _ a g
      /\ forall sg gs t choice r sg', Inv sg gs -> gs !! t = Some g -> perform _ a choice sg = Some (r, sg') ->
         exists g', Inv sg' (<[t := g']> gs) /\ ok (k r) g' Q
  end.

Lemma ok_mono {A} (p : prog A) (Q Q' : A -> G -> Prop) : forall g,
  (forall a g, Q a g -> Q' a g) -> ok p g Q -> ok p g Q'.
Proof.
  induction p as [a|R a k IH]; intros g HQ; cbn [ok]; [auto|]. intros [Hl Hk]. split; [done|].
  intros sg gs t ch r sg' Hi Ht Hp. destruct (Hk sg gs t ch r sg' Hi Ht Hp) as (g' & Hi' & Ho). exists g'. split; [done|]. by apply IH.
Qed.

Lemma ok_bind {A B} (p : prog A) (f : A -> prog B) Q : forall g,
  ok p g (fun a g => ok (f a) g Q) -> ok (bindP p f) g Q.
Proof.
  induction p as [a|R a k IH]; intros g; cbn [ok bindP]; [done|]. intros [Hl Hk]. split; [done|].
  intros sg gs t ch r sg' Hi Ht Hp. destruct (Hk sg gs t ch r sg' Hi Ht Hp) as (g' & Hi' & Ho). exists g'. split; [done|]. by apply IH.
Qed.

(** An action that keeps the ghost state. *)
Lemma ok_skip {A R} (a : Action R) (k : R -> prog A) g Q : label _ a g ->
  (forall sg gs t choice r sg', Inv sg gs -> gs !! t = Some g -> perform _ a choice sg = Some (r, sg') -> Inv sg' gs /\ ok (k r) g Q) ->
  ok (Act a k) g Q.
Proof.
  intros Hl Hk. split; [done|]. intros sg gs t ch r sg' Hi Ht Hp. exists g. rewrite list_insert_id by done. by eapply Hk.
Qed.

Definition all_ok {A} (Q : A -> G -> Prop) (c : config A) (gs : list G) : Prop :=
  Inv c.2 gs /\ Forall2 (fun p g => ok p g Q) c.1 gs.

Lemma cstep_ok {A} (Q : A -> G -> Prop) t ch (c c' : config A) gs :
  all_ok Q c gs -> cstep t ch c = Some c' -> exists gs', all_ok Q c' gs'.
Proof.
  intros [Hi Hf] Hc. unfold cstep in Hc. destruct c as [ths sg]. cbn [fst snd] in *.
  destruct (ths !! t) as [p|] eqn:Ht; [|done]. destruct (Forall2_lookup_l _ _ _ _ _ Hf Ht) as (g & Hg & Ho).
  destruct p as [a|R a k]; [done|]. cbn [step1] in Hc. destruct (perform R a ch sg) as [[r sg']|] eqn:Hp; [|done]. injection Hc as <-.
  destruct Ho as [_ Hk]. destruct (Hk sg gs t ch r sg' Hi Hg Hp) as (g' & Hi' & Ho'). exists (<[t := g']> gs). split; [done|].
  by apply Forall2_insert.
Qed.

Lemma run_ok {A} (Q : A -> G -> Prop) sch : forall (c c' : config A) gs,
  all_ok Q c gs -> run sch c = Some c' -> exists gs', all_ok Q c' gs'.
Proof.
  induction sch as [|[t ch] sch IH]; intros c c' gs Ha Hr; cbn [run] in Hr; [injection Hr as <-; by exists gs|].
  destruct (cstep t ch c) as [c1|] eqn:Hc; [|done]. destruct (cstep_ok Q t ch c c1 gs Ha Hc) as [gs1 Ha1]. by apply (IH c1 c' gs1).
Qed.
End threads.

Arguments prog Action A : clear implicits.
Arguments Done {Action A}.
Arguments Act {Action A R} & a k.
Arguments config State Action A : clear implicits.

Declare Scope prog_scope.
Delimit Scope prog_scope with prog.
Notation "'do!' x := a 'in' q" := (Act a (fun x => q))
  (at level 200, x pattern, a at level 100, q at level 200) : prog_scope.
Notation "'let?' x := p 'in' q" := (bindP p (fun x => q))
  (at level 200, x pattern, p at level 100, q at level 200) : prog_scope.
