(* ===== verification/Indexer.v ===== *)
(** The indexer: indexer/indexer.go and indexer/wait_table.go.

    The syncer of the SDK calls the indexer from several goroutines: [Block] to
    fetch a block and find the coins it spends, [BlockSeen] when a block was
    fetched, [BlockAdded] when it is next in order, [BlockRemoved] in a reorg.  A
    coin may come from a block that is not there yet: then the goroutine registers
    in the wait table and sleeps on a channel until the transaction is seen or the
    wait is aborted.

    A goroutine is a program of [Threads].  Its actions are the accesses to what
    the goroutines share: the storage, the cache of coins, the counter of seen
    blocks, the wait table with its lock, and the channels.  A section that holds
    a lock and touches only what this lock protects is one action; the section of
    [findCoin] that reads the storage and the counter as well is several, with the
    lock taken in between.  Contexts may be cancelled at any time, so whether one
    is, is a choice of the schedule; so are failures of the storage.

    The storage of the SDK is the class [Storage]. *)

From S2P Require Import Prelude Digits Float64 Amount Rosetta Hash Crypto Utf8 Base58 ScriptError ScriptNum Opcodes Tokenizer Script ScriptBuilder Standard Address Coins Client Threads.

Notation indexPlaceholder := (-1) (only parsing).
Notation retryLimit := 5%nat (only parsing).
Definition zeroValue : bytes := str "0".

(** ** indexer/wait_table.go *)

(** A channel is a number; [closed] in the shared state says which are closed. *)
Record waitTableEntry := mkWaitTableEntry {
  listeners : Z; channel : nat; channelClosed : bool; aborted : bool; earliestBlock : Z }.

Notation waitTable := (gmap bytes waitTableEntry).

Definition newWaitTable : waitTable := ∅.
Definition waitTable_Get (key : bytes) (t : waitTable) : option waitTableEntry := t !! key.
Definition waitTable_Set (key : bytes) (value : waitTableEntry) (t : waitTable) : waitTable := <[key := value]> t.
Definition waitTable_Delete (key : bytes) (t : waitTable) : waitTable := delete key t.

(** ** The storage of the SDK *)

Inductive HeadResult := HeadFound (id : BlockIdentifier) | HeadNotFound | HeadFailed.
Inductive CoinResult := CoinFound (coin : Coin) (owner : option AccountIdentifier) | CoinNotFound | CoinFailed.
Inductive BalanceResult := BalanceFound (amount : RAmount) | AccountMissing | BalanceFailed.

(** A block whose other transactions have to be fetched one by one. *)
Record BlockResponse (J : Type) := mkBlockResponse { br_Block : RBlock J; br_OtherTransactions : list bytes }.
Arguments mkBlockResponse {J}.
Arguments br_Block {J}.
Arguments br_OtherTransactions {J}.

(** The first argument of an operation is the choice of what fails; a failed
    update leaves the storage as it was.  [types_Hash] is types.Hash. *)
Class Storage {K : SDK} := {
  DB : Type;
  GetHeadBlockIdentifier : nat -> DB -> HeadResult;
  GetCoin : nat -> DB -> bytes -> CoinResult;
  AddBlock : nat -> RBlock JsonMap -> DB -> option DB;
  SeeBlock : nat -> RBlock JsonMap -> DB -> option DB;
  RemoveBlock : nat -> BlockIdentifier -> DB -> option DB;
  FindTransaction : nat -> DB -> bytes -> option (option (RTransaction JsonMap));
  GetBlockLazy : nat -> DB -> option PartialBlockIdentifier -> option (BlockResponse JsonMap);
  GetBlockTransaction : nat -> DB -> BlockIdentifier -> bytes -> option (RTransaction JsonMap);
  GetCoins : nat -> DB -> AccountIdentifier -> option (list Coin * BlockIdentifier);
  GetBalanceAt : nat -> DB -> AccountIdentifier -> Currency -> Z -> BalanceResult;
  types_Hash : BlockIdentifier -> bytes;
  types_HashCurrency : Currency -> bytes;
  AddValues : bytes -> bytes -> option bytes;
  UnmarshalOperationMetadata : option JsonMap -> option OperationMetadata;
  asserter_Block : RBlock JsonMap -> bool }.

Inductive IndexerErr :=
  | errMissingTransaction
  | ErrOrphanHead
  | ErrContext
  | ErrStorage
  | ErrNotInWaiter (txHash : bytes)
  | ErrClient (e : ClientErr)
  | ErrInvalidBlock
  | ErrCoin (e : CoinErr)
  | ErrMetadata
  | ErrCurrency
  | ErrAddValues
  | ErrCoinAmount (difference : bytes)
  | ErrNoScript (coinIdentifier : bytes).

Section indexer.
Context {K : SDK} {N : Node} {S : Storage} `{FloatConv} (client : Client).

Notation RBlock := (RBlock JsonMap).
Notation IM := (outcome IndexerErr).

(** ** What the goroutines share *)

Record Indexer := mkIndexer {
  database : DB;
  coinCache : gmap bytes AccountCoin;
  seen : Z;
  table : waitTable;
  locked : bool;
  closed : gset nat;
  nextChannel : nat;
  world : World }.

Definition set_database (d : DB) (i : Indexer) : Indexer :=
  mkIndexer d (coinCache i) (seen i) (table i) (locked i) (closed i) (nextChannel i) (world i).
Definition set_coinCache (c : gmap bytes AccountCoin) (i : Indexer) : Indexer :=
  mkIndexer (database i) c (seen i) (table i) (locked i) (closed i) (nextChannel i) (world i).
Definition set_seen (n : Z) (i : Indexer) : Indexer :=
  mkIndexer (database i) (coinCache i) n (table i) (locked i) (closed i) (nextChannel i) (world i).
Definition set_locked (l : bool) (i : Indexer) : Indexer :=
  mkIndexer (database i) (coinCache i) (seen i) (table i) l (closed i) (nextChannel i) (world i).
Definition set_table (t : waitTable) (i : Indexer) : Indexer :=
  mkIndexer (database i) (coinCache i) (seen i) t (locked i) (closed i) (nextChannel i) (world i).
Definition set_channels (t : waitTable) (c : gset nat) (n : nat) (i : Indexer) : Indexer :=
  mkIndexer (database i) (coinCache i) (seen i) t (locked i) c n (world i).
Definition set_world (w : World) (i : Indexer) : Indexer :=
  mkIndexer (database i) (coinCache i) (seen i) (table i) (locked i) (closed i) (nextChannel i) w.

(** The state [Initialize] makes. *)
Definition Initialize (d : DB) (w : World) : Indexer := mkIndexer d ∅ 0 newWaitTable false ∅ 0 w.

(** ** Sections of the methods *)

(** All operations of a block. *)
Definition block_ops (block : RBlock) : list (Operation JsonMap) := concat (map rtx_Operations (rb_Transactions block)).

(** The cache after the coins of a block were added ([BlockAdded]). *)
Fixpoint deleteCreated (ops : list (Operation JsonMap)) (coins : gmap bytes AccountCoin) : gmap bytes AccountCoin :=
  match ops with
  | [] => coins
  | op :: ops =>
      deleteCreated ops match created_coin op with Some (id, _) => delete id coins | None => coins end
  end.

(** [close(val.channel)], with the flags of the entry. *)
Definition closeEntry (key : bytes) (val : waitTableEntry) (abort : bool) (t : waitTable) (c : gset nat) : IM (waitTable * gset nat) :=
  if bool_decide (channel val ∈ c) then Crash
  else Ret (waitTable_Set key (mkWaitTableEntry (listeners val) (channel val) true (abort || aborted val) (earliestBlock val)) t,
            {[channel val]} ∪ c).

(** The section of [BlockSeen] that wakes those who wait for the block. *)
Fixpoint wakeSeen (txs : list (RTransaction JsonMap)) (t : waitTable) (c : gset nat) : IM (waitTable * gset nat) :=
  match txs with
  | [] => Ret (t, c)
  | transaction :: txs =>
      match waitTable_Get (rtx_Hash transaction) t with
      | None => wakeSeen txs t c
      | Some val =>
          if channelClosed val then wakeSeen txs t c
          else
            let! (t, c) := closeEntry (rtx_Hash transaction) val false t c in
            wakeSeen txs t c
      end
  end.

(** The section of [BlockAdded] that aborts the waits of the next block.  Entries
    are changed while the map is traversed, none is added or removed. *)
Fixpoint abortWaits (index : Z) (entries : list (bytes * waitTableEntry)) (t : waitTable) (c : gset nat) :
    IM (waitTable * gset nat) :=
  match entries with
  | [] => Ret (t, c)
  | (txHash, val) :: entries =>
      if (earliestBlock val =? i64 (index + 1)) && negb (channelClosed val) then
        let! (t, c) := closeEntry txHash val true t c in
        abortWaits index entries t c
      else abortWaits index entries t c
  end.

(** The registration in [findCoin]: table and next channel. *)
Definition register (transactionHash : bytes) (height : Z) (t : waitTable) (n : nat) : waitTable * nat :=
  let '(val, n) :=
    match waitTable_Get transactionHash t with
    | Some val => (val, n)
    | None => (mkWaitTableEntry 0 n false false height, Datatypes.S n)
    end in
  let earliest := if earliestBlock val >? height then height else earliestBlock val in
  (waitTable_Set transactionHash
     (mkWaitTableEntry (listeners val + 1) (channel val) (channelClosed val) (aborted val) earliest) t, n).

(** The section of [findCoins] that leaves the table.  An unknown transaction is
    an error; the lock is then not released. *)
Definition release (txHash : bytes) (t : waitTable) : option (bool * waitTable) :=
  match waitTable_Get txHash t with
  | None => None
  | Some val =>
      let n := listeners val - 1 in
      Some (aborted val,
        if n =? 0 then waitTable_Delete txHash t
        else waitTable_Set txHash (mkWaitTableEntry n (channel val) (channelClosed val) (aborted val) (earliestBlock val)) t)
  end.

(** ** Actions

    [IncrSeen] and [Select] also name what they are done for. *)

Inductive Action : Type -> Type :=
  | CtxErr : Action bool
  | ContextSleep : Action bool
  | ReadSeen : Action Z
  | IncrSeen (block : RBlock) : Action unit
  | ReadTransaction : Action (nat * DB)
  | ReadHead : Action HeadResult
  | CacheLoad (block : RBlock) : Action unit
  | CacheClean (block : RBlock) : Action unit
  | CacheGet (coinIdentifier : bytes) : Action (option AccountCoin)
  | StoreAdd (block : RBlock) : Action bool
  | StoreSee (block : RBlock) : Action bool
  | StoreRemove (id : BlockIdentifier) : Action bool
  | Lock : Action unit
  | Unlock : Action unit
  | Register (transactionHash : bytes) (height : Z) : Action unit
  | WaiterGet (txHash : bytes) : Action (option waitTableEntry)
  | Select (coinIdentifier : bytes) (ch : nat) : Action bool
  | Release (txHash : bytes) : Action (option bool)
  | WakeSeen (block : RBlock) : Action (IM unit)
  | AbortWaits (block : RBlock) : Action (IM unit)
  | CallNode (A : Type) (call : M World ClientErr A) : Action (outcome ClientErr A).

Definition changed (d : DB) (o : option DB) (i : Indexer) : bool * Indexer :=
  match o with Some d => (true, set_database d i) | None => (false, i) end.

(** The new table and channels of a section; a panic leaves them. *)
Definition closing (o : IM (waitTable * gset nat)) (i : Indexer) : IM unit * Indexer :=
  match o with
  | Ret (t, c) => (Ret tt, set_channels t c (nextChannel i) i)
  | Fail e => (Fail e, i)
  | Crash => (Crash, i)
  | NoFuel => (NoFuel, i)
  end.

(** What an action does, if it can run. *)
Definition perform (R : Type) (a : Action R) (choice : nat) (i : Indexer) : option (R * Indexer) :=
  match a in Action R return option (R * Indexer) with
  | CtxErr => Some (Nat.odd choice, i)
  | ContextSleep => Some (negb (Nat.odd choice), i)
  | ReadSeen => Some (seen i, i)
  | IncrSeen _ => Some (tt, set_seen (i64 (seen i + 1)) i)
  | ReadTransaction => Some ((choice, database i), i)
  | ReadHead => Some (GetHeadBlockIdentifier choice (database i), i)
  | CacheLoad block => Some (tt, set_coinCache (addCreated (block_ops block) (coinCache i)) i)
  | CacheClean block => Some (tt, set_coinCache (deleteCreated (block_ops block) (coinCache i)) i)
  | CacheGet id => Some (coinCache i !! id, i)
  | StoreAdd block => Some (changed (database i) (AddBlock choice block (database i)) i)
  | StoreSee block => Some (changed (database i) (SeeBlock choice block (database i)) i)
  | StoreRemove id => Some (changed (database i) (RemoveBlock choice id (database i)) i)
  | Lock => if locked i then None else Some (tt, set_locked true i)
  | Unlock => Some (tt, set_locked false i)
  | Register transactionHash height =>
      let '(t, n) := register transactionHash height (table i) (nextChannel i) in
      Some (tt, set_channels t (closed i) n i)
  | WaiterGet txHash => if locked i then None else Some (waitTable_Get txHash (table i), i)
  | Select _ ch =>
      if Nat.odd choice then Some (false, i)
      else if bool_decide (ch ∈ closed i) then Some (true, i) else None
  | Release txHash =>
      if locked i then None
      else
        match release txHash (table i) with
        | Some (a, t) => Some (Some a, set_table t i)
        | None => Some (None, set_locked true i)
        end
  | WakeSeen block =>
      if locked i then None else Some (closing (wakeSeen (rb_Transactions block) (table i) (closed i)) i)
  | AbortWaits block =>
      if locked i then None
      else Some (closing (abortWaits (bi_Index (rb_BlockIdentifier block)) (map_to_list (table i)) (table i) (closed i)) i)
  | CallNode _ call => let '(r, w) := call (world i) in Some (r, set_world w i)
  end.

(** ** Programs *)

Open Scope prog_scope.
Notation P A := (prog Action (IM A)).

Definition fail {A} (e : IndexerErr) : P A := Done (Fail e).

(** The value of an outcome, for a continuation. *)
Definition liftP {A B} (o : IM A) (k : A -> P B) : P B :=
  match o with Ret a => k a | Fail e => Done (Fail e) | Crash => Done Crash | NoFuel => Done NoFuel end.

Definition BlockAdded (block : RBlock) : P unit :=
  do! added := StoreAdd block in
  if negb added then fail ErrStorage
  else
    do! _ := CacheClean block in
    do! r := AbortWaits block in
    Done r.

(** The rest of [BlockSeen] after each of its sections. *)
Definition BlockSeen_wake (block : RBlock) : P unit := do! r := WakeSeen block in Done r.

Definition BlockSeen_store (block : RBlock) : P unit :=
  do! saw := StoreSee block in
  if negb saw then fail ErrStorage else BlockSeen_wake block.

Definition BlockSeen_count (block : RBlock) : P unit := do! _ := IncrSeen block in BlockSeen_store block.

(** Acquiring the semaphore fails if the context is cancelled. *)
Definition BlockSeen (block : RBlock) : P unit :=
  do! cancelled := CtxErr in
  if cancelled then fail ErrContext
  else
    do! _ := CacheLoad block in
    BlockSeen_count block.

Definition BlockRemoved (blockIdentifier : BlockIdentifier) : P unit :=
  do! removed := StoreRemove blockIdentifier in
  if negb removed then fail ErrStorage else Done (Ret tt).

(** [findCoin]; the fuel counts its attempts. *)
Fixpoint findCoin (fuel : nat) (btcBlock : option Block) (coinIdentifier : bytes) :
    P (Coin * option AccountIdentifier) :=
  match fuel with
  | O => Done NoFuel
  | Datatypes.S fuel =>
      do! cancelled := CtxErr in
      if cancelled then fail ErrContext
      else
        do! startSeen := ReadSeen in
        do! (n, databaseTransaction) := ReadTransaction in
        match GetHeadBlockIdentifier n databaseTransaction with
        | HeadNotFound =>
            do! slept := ContextSleep in
            if slept then findCoin fuel btcBlock coinIdentifier else fail ErrContext
        | HeadFailed => fail ErrStorage
        | HeadFound coinHeadBlock =>
            match GetCoin n databaseTransaction coinIdentifier with
            | CoinFound coin owner => Done (Ret (coin, owner))
            | CoinFailed => fail ErrStorage
            | CoinNotFound =>
                do! cached := CacheGet coinIdentifier in
                match cached with
                | Some accCoin => Done (Ret (ac_Coin accCoin, ac_Account accCoin))
                | None =>
                    do! _ := Lock in
                    do! head := ReadHead in
                    match head with
                    | HeadNotFound | HeadFailed => do! _ := Unlock in fail ErrStorage
                    | HeadFound currHeadBlock =>
                        if negb (bool_decide (types_Hash currHeadBlock = types_Hash coinHeadBlock)) then
                          do! _ := Unlock in findCoin fuel btcBlock coinIdentifier
                        else
                          do! nowSeen := ReadSeen in
                          if negb (nowSeen =? startSeen) then do! _ := Unlock in findCoin fuel btcBlock coinIdentifier
                          else
                            liftP (TransactionHash coinIdentifier) (fun transactionHash =>
                            liftP (orCrash btcBlock) (fun btcBlock =>
                            do! _ := Register transactionHash (b_Height btcBlock) in
                            do! _ := Unlock in
                            fail errMissingTransaction))
                    end
                end
            end
        end
  end.

Definition checkHeaderMatch (btcBlock : option Block) : P unit :=
  do! head := ReadHead in
  match head with
  | HeadFailed => fail ErrStorage
  | HeadNotFound => Done (Ret tt)
  | HeadFound headBlock =>
      liftP (orCrash btcBlock) (fun btcBlock =>
      if (b_Height btcBlock =? i64 (bi_Index headBlock + 1)) && negb (bool_decide (b_PreviousBlockHash btcBlock = bi_Hash headBlock))
      then fail ErrOrphanHead else Done (Ret tt))
  end.

(** The first loop of [findCoins]: the coins that were found and those to wait for. *)
Fixpoint lookupCoins (fuel : nat) (btcBlock : option Block) (coins : list bytes) (coinMap : gmap bytes AccountCoin)
    (remainingCoins : list bytes) : P (gmap bytes AccountCoin * list bytes) :=
  match coins with
  | [] => Done (Ret (coinMap, remainingCoins))
  | coinIdentifier :: coins =>
      let? r := findCoin fuel btcBlock coinIdentifier in
      match r with
      | Ret (coin, owner) => lookupCoins fuel btcBlock coins (<[coinIdentifier := mkAccountCoin owner coin]> coinMap) remainingCoins
      | Fail errMissingTransaction => lookupCoins fuel btcBlock coins coinMap (remainingCoins ++ [coinIdentifier])
      | Fail e => fail e
      | Crash => Done Crash
      | NoFuel => Done NoFuel
      end
  end.

(** The second loop: wait for each of the remaining coins. *)
Fixpoint waitCoins (remainingCoins : list bytes) (shouldAbort : bool) : P bool :=
  match remainingCoins with
  | [] => Done (Ret shouldAbort)
  | coinIdentifier :: remainingCoins =>
      liftP (TransactionHash coinIdentifier) (fun txHash =>
      do! entry := WaiterGet txHash in
      match entry with
      | None => fail (ErrNotInWaiter txHash)
      | Some entry =>
          do! woken := Select coinIdentifier (channel entry) in
          if negb woken then fail ErrContext
          else
            do! val := Release txHash in
            match val with
            | None => fail (ErrNotInWaiter txHash)
            | Some a => waitCoins remainingCoins (a || shouldAbort)
            end
      end)
  end.

(** [findCoins]; the fuel counts its recursive calls and the attempts of [findCoin]. *)
Fixpoint findCoins (fuel : nat) (btcBlock : option Block) (coins : list bytes) : P (gmap bytes AccountCoin) :=
  match fuel with
  | O => Done NoFuel
  | Datatypes.S fuel =>
      let? r := checkHeaderMatch btcBlock in
      liftP r (fun _ =>
      let? r := lookupCoins fuel btcBlock coins ∅ [] in
      liftP r (fun '(coinMap, remainingCoins) =>
      match remainingCoins with
      | [] => Done (Ret coinMap)
      | _ =>
          let? r := waitCoins remainingCoins false in
          liftP r (fun shouldAbort =>
          if (shouldAbort : bool) then fail ErrOrphanHead
          else
            let? r := findCoins fuel btcBlock remainingCoins in
            liftP r (fun foundCoins => Done (Ret (foundCoins ∪ coinMap))))
      end))
  end.

(** The loop of [Block] that asks the node; a cancelled context leaves no block. *)
Fixpoint rawBlockLoop (tries : nat) (blockIdentifier : option PartialBlockIdentifier) : P (option Block * list bytes) :=
  do! cancelled := CtxErr in
  if cancelled then Done (Ret (None, []))
  else
    do! r := CallNode _ (GetRawBlock client blockIdentifier) in
    match r with
    | Ret (btcBlock, coins) => Done (Ret (Some btcBlock, coins))
    | Fail e =>
        match tries with
        | O => fail (ErrClient e)
        | Datatypes.S tries =>
            do! slept := ContextSleep in
            if slept then rawBlockLoop tries blockIdentifier else fail ErrContext
        end
    | Crash => Done Crash
    | NoFuel => Done NoFuel
    end.

Definition Indexer_Block (fuel : nat) (blockIdentifier : option PartialBlockIdentifier) : P RBlock :=
  let? r := rawBlockLoop retryLimit blockIdentifier in
  liftP r (fun '(btcBlock, coins) =>
  let? r := findCoins fuel btcBlock coins in
  liftP r (fun coinMap =>
  match (ParseBlock client btcBlock coinMap).1 with
  | Ret block => if asserter_Block block then Done (Ret block) else fail ErrInvalidBlock
  | Fail e => fail (ErrClient e)
  | Crash => Done Crash
  | NoFuel => Done NoFuel
  end)).

(** ** Queries *)

(** The loop over the operations of a transaction: [None] if no output has the index. *)
Fixpoint scriptOf (ops : list (Operation JsonMap)) (networkIndex : Z) (coin : Coin) : IM (option ScriptPubKey) :=
  match ops with
  | [] => Ret None
  | op :: ops =>
      if negb (bool_decide (op_Type op = OutputOpType)) then scriptOf ops networkIndex coin
      else
        let! index := orCrash (oi_NetworkIndex (op_OperationIdentifier op)) in
        if negb (index =? networkIndex) then scriptOf ops networkIndex coin
        else
          match UnmarshalOperationMetadata (op_Metadata op) with
          | None => Fail ErrMetadata
          | Some opMetadata =>
              let! opAmount := orCrash (op_Amount op) in
              let! coinAmount := orCrash (coin_Amount coin) in
              if negb (bool_decide (types_HashCurrency (amt_Currency opAmount) = types_HashCurrency (amt_Currency coinAmount)))
              then Fail ErrCurrency
              else
                match AddValues (amt_Value opAmount) (amt_Value coinAmount) with
                | None => Fail ErrAddValues
                | Some addition =>
                    if negb (bool_decide (addition = str "0")) then Fail (ErrCoinAmount addition)
                    else Ret (om_ScriptPubKey opMetadata)
                end
          end
  end.

Fixpoint Indexer_GetScriptPubKeys (choice : nat) (databaseTransaction : DB) (coins : list Coin) : IM (list (option ScriptPubKey)) :=
  match coins with
  | [] => Ret []
  | coin :: coins =>
      match ParseCoinIdentifier (coin_CoinIdentifier coin) with
      | Ret (transactionHash, networkIndex) =>
          match FindTransaction choice databaseTransaction (Hash_String transactionHash) with
          | None | Some None => Fail ErrStorage
          | Some (Some transaction) =>
              let! script := scriptOf (rtx_Operations transaction) networkIndex coin in
              match script with
              | None => Fail (ErrNoScript (coin_CoinIdentifier coin))
              | Some _ =>
                  let! scripts := Indexer_GetScriptPubKeys choice databaseTransaction coins in
                  Ret (script :: scripts)
              end
          end
      | Fail e => Fail (ErrCoin e)
      | Crash => Crash
      | NoFuel => NoFuel
      end
  end.

Definition GetBalance (choice : nat) (dbTx : DB) (account : AccountIdentifier) (cur : Currency)
    (blockIdentifier : option PartialBlockIdentifier) : IM (RAmount * BlockIdentifier) :=
  match GetBlockLazy choice dbTx blockIdentifier with
  | None => Fail ErrStorage
  | Some blockResponse =>
      let block := rb_BlockIdentifier (br_Block blockResponse) in
      match GetBalanceAt choice dbTx account cur (bi_Index block) with
      | AccountMissing => Ret (mkAmount zeroValue cur, block)
      | BalanceFailed => Fail ErrStorage
      | BalanceFound amount => Ret (amount, block)
      end
  end.

(** The height [Prune] asks for, if it is time to prune. *)
Definition pruneTarget (head depth minHeight : Z) : option Z :=
  let pruneHeight := i64 (head - depth) in
  if pruneHeight <=? minHeight then None else Some pruneHeight.

(** One tick of [Prune]. *)
Definition Prune_tick (depth minHeight : Z) : P unit :=
  do! head := ReadHead in
  match head with
  | HeadFound head =>
      match pruneTarget (bi_Index head) depth minHeight with
      | None => Done (Ret tt)
      | Some pruneHeight =>
          do! _ := CallNode _ (PruneBlockchain client pruneHeight) in
          Done (Ret tt)
      end
  | _ => Done (Ret tt)
  end.

(** [waitForNode]; the fuel counts its rounds. *)
Fixpoint waitForNode (fuel : nat) : P unit :=
  match fuel with
  | O => Done NoFuel
  | Datatypes.S fuel =>
      do! r := CallNode _ (NetworkStatus client) in
      match r with
      | Ret _ => Done (Ret tt)
      | Fail _ =>
          do! slept := ContextSleep in
          if slept then waitForNode fuel else fail ErrContext
      | Crash => Done Crash
      | NoFuel => Done NoFuel
      end
  end.

(** The block at which [Sync] starts. *)
Definition startIndex (choice : nat) (d : DB) : Z :=
  match GetHeadBlockIdentifier choice d with HeadFound head => i64 (bi_Index head + 1) | _ => indexPlaceholder end.
End indexer.
