(* ===== verification/IndexerFacts.v ===== *)
(** The invariant of the indexer's goroutines.

    The ghost state of a goroutine says for which coins it is registered, what it
    knows about the counter and the cache, whether it holds the lock, on which
    channel it sleeps, and which block it has put into the cache without having
    woken the sleepers.  [Inv] relates these to the shared state. *)

From S2P Require Import Prelude Rosetta Coins Client Threads Indexer.

(** The transaction of a coin. *)
Definition txh (c : bytes) : bytes := match TransactionHash (E := IndexerErr) c with Ret h => h | _ => [] end.

Lemma TransactionHash_eq c : TransactionHash (E := IndexerErr) c = Ret (txh c).
Proof.
  unfold txh, TransactionHash. destruct (Split_head c) as (v & vs & -> & _). done.
Qed.

Section inv.
#[local] Set Default Proof Using "Type*".
Context {K : SDK} {N : Node} {S : Storage}.

Notation RBlock := (RBlock JsonMap).

(** The coins a block creates belong to its transactions. *)
Definition created (b : RBlock) (c : bytes) : Prop := exists op ac, In op (block_ops b) /\ created_coin op = Some (c, ac).

Definition block_wf (b : RBlock) : Prop := forall c, created b c -> In (txh c) (map rtx_Hash (rb_Transactions b)).

Lemma addCreated_dom (ops : list (Operation JsonMap)) : forall m c, is_Some (addCreated ops m !! c) <->
  is_Some (m !! c) \/ exists op ac, In op ops /\ created_coin op = Some (c, ac).
Proof using Type.
  induction ops as [|op ops IH]; intros m c; cbn [addCreated]; [split; [auto|intros [?|(? & ? & [] & _)]; done]|].
  rewrite IH. clear IH. split.
  - intros [Hm|(o & ac & Ho & Hc)]; [|right; exists o, ac; split; [by right|done]].
    destruct (created_coin op) as [[id ac]|] eqn:E; [|auto]. destruct (decide (id = c)) as [->|Hne].
    + right. exists op, ac. split; [by left|done].
    + rewrite lookup_insert_ne in Hm by done. auto.
  - intros [Hm|(o & ac & [<-|Ho] & Hc)].
    + left. destruct (created_coin op) as [[id ac]|]; [|done]. destruct (decide (id = c)) as [->|Hne]; [by rewrite lookup_insert_eq|].
      by rewrite lookup_insert_ne.
    + left. rewrite Hc. by rewrite lookup_insert_eq.
    + right. by exists o, ac.
Qed.

Lemma deleteCreated_dom (ops : list (Operation JsonMap)) : forall m c, is_Some (deleteCreated ops m !! c) -> is_Some (m !! c).
Proof using Type.
  induction ops as [|op ops IH]; intros m c; cbn [deleteCreated]; [done|]. intros Hc%IH.
  destruct (created_coin op) as [[id ac]|]; [|done]. destruct (decide (id = c)) as [->|Hne]; [rewrite lookup_delete_eq in Hc; by destruct Hc|].
  by rewrite lookup_delete_ne in Hc.
Qed.

(** ** Ghost state *)

Record ghost := mkGhost {
  g_pending : list bytes;
  g_look : option (bytes * Z * bool);
  g_checked : option bytes;
  g_lock : bool;
  g_wait : option (bytes * nat);
  g_seer : option (RBlock * bool);
  g_todo : bool }.

(** A goroutine that fetches: idle, with what it remembers; idle; with the counter read, and then the cache;
    with the lock; about to register; with the lock only; sleeping. *)
Definition Fany p l : ghost := mkGhost p l None false None None false.
Definition Fidle p : ghost := Fany p None.
Definition Flook p c ss b : ghost := mkGhost p (Some (c, ss, b)) None false None None false.
Definition Fhold p c ss : ghost := mkGhost p (Some (c, ss, true)) None true None None false.
Definition Fcheck p c : ghost := mkGhost p None (Some c) true None None false.
Definition Flock p : ghost := mkGhost p None None true None None false.
Definition Fwait p c ch : ghost := mkGhost p None None false (Some (c, ch)) None false.

(** A goroutine that saw a block: before the cache, after it, after the counter. *)
Definition Sstart : ghost := mkGhost [] None None false None None true.
Definition Sload b : ghost := mkGhost [] None None false None (Some (b, false)) true.
Definition Scount b : ghost := mkGhost [] None None false None (Some (b, true)) false.

Definition cnt (k : bytes) (g : ghost) : Z := zlen (filter (fun c => txh c = k) (g_pending g)).
Definition total (k : bytes) (gs : list ghost) : Z := fold_right Z.add 0 (map (cnt k) gs).
Definition todo (gs : list ghost) : Z := fold_right Z.add 0 (map (fun g => if g_todo g then 1 else 0) gs).

(** Some goroutine has put the coin into the cache and will wake the sleepers; if
    [any] is false, it has not counted the block yet. *)
Definition seeing (any : bool) (c : bytes) (gs : list ghost) : Prop :=
  exists u g b n, gs !! u = Some g /\ g_seer g = Some (b, n) /\ (n = true -> any = true) /\ created b c.

Lemma sum_insert (f : ghost -> Z) gs t g g' : gs !! t = Some g ->
  fold_right Z.add 0 (map f (<[t := g']> gs)) = fold_right Z.add 0 (map f gs) - f g + f g'.
Proof using Type.
  revert t. induction gs as [|x gs IH]; intros [|t] Ht; try done.
  - injection Ht as ->. cbn. lia.
  - change (<[Datatypes.S t := g']> (x :: gs)) with (x :: <[t := g']> gs). cbn [map fold_right]. rewrite (IH t Ht). lia.
Qed.

Lemma sum_ge (f : ghost -> Z) gs t g : (forall g, 0 <= f g) -> gs !! t = Some g -> f g <= fold_right Z.add 0 (map f gs).
Proof using Type.
  intros Hf. revert t. induction gs as [|x gs IH]; intros [|t] Ht; try done.
  - injection Ht as ->. cbn. assert (0 <= fold_right Z.add 0 (map f gs)); [|lia]. clear IH.
    induction gs as [|y gs IH]; cbn; [lia|]. specialize (Hf y). lia.
  - cbn in Ht |- *. specialize (IH t Ht). specialize (Hf x). lia.
Qed.

Lemma cnt_nonneg k g : 0 <= cnt k g.
Proof using Type. apply zlen_nonneg. Qed.

Lemma total_pos gs t g c : gs !! t = Some g -> c ∈ g_pending g -> 0 < total (txh c) gs.
Proof using Type.
  intros Ht Hc. pose proof (sum_ge (cnt (txh c)) gs t g (cnt_nonneg _) Ht) as Hg. unfold total.
  assert (0 < cnt (txh c) g); [|lia]. unfold cnt. assert (c ∈ filter (fun x => txh x = txh c) (g_pending g)) as Hin.
  { by apply list_elem_of_filter. }
  destruct (filter _ _) as [|x l]; [by apply elem_of_nil in Hin|]. rewrite zlen_cons. pose proof (zlen_nonneg l). lia.
Qed.

Lemma seeing_insert any c gs t g g' : gs !! t = Some g -> g_seer g = None \/ g_seer g' = g_seer g ->
  seeing any c gs -> seeing any c (<[t := g']> gs).
Proof using Type.
  intros Ht Hs (u & x & b & n & Hu & Hx & Hn & Hc). destruct (decide (u = t)) as [->|Hne].
  - rewrite Ht in Hu. injection Hu as ->. destruct Hs as [Hs|Hs]; [congruence|].
    exists t, g', b, n. rewrite list_lookup_insert_eq by (by eapply lookup_lt_Some). by rewrite Hs.
  - exists u, x, b, n. by rewrite list_lookup_insert_ne.
Qed.

(** ** The invariant *)

(** The entries of the table and the channels. *)
Record table_ok (n : nat) (t : waitTable) (c : gset nat) : Prop := {
  to_entry k e : t !! k = Some e -> (channelClosed e = true <-> channel e ∈ c) /\ (channel e < n)%nat /\ 0 < listeners e;
  to_fresh ch : ch ∈ c -> (ch < n)%nat;
  to_inj k1 k2 e1 e2 : t !! k1 = Some e1 -> t !! k2 = Some e2 -> channel e1 = channel e2 -> k1 = k2 }.

Definition table_inv (i : Indexer) (gs : list ghost) : Prop :=
  table_ok (nextChannel i) (table i) (closed i)
  /\ (forall k, total k gs = from_option listeners 0 (table i !! k))
  /\ (forall t g c ch, gs !! t = Some g -> g_wait g = Some (c, ch) ->
       c ∈ g_pending g /\ exists e, table i !! txh c = Some e /\ channel e = ch).

Definition lock_inv (i : Indexer) (gs : list ghost) : Prop :=
  forall t g, gs !! t = Some g -> g_lock g = true ->
  locked i = true /\ forall t' g', gs !! t' = Some g' -> g_lock g' = true -> t' = t.

Definition seen_inv (i : Indexer) (gs : list ghost) : Prop :=
  0 <= seen i /\ seen i + todo gs < 2 ^ 63
  /\ forall t g c ss b, gs !! t = Some g -> g_look g = Some (c, ss, b) -> ss <= seen i.

Definition cached (i : Indexer) (c : bytes) : Prop := is_Some (coinCache i !! c).

Record wake_local (i : Indexer) (gs : list ghost) (g : ghost) : Prop := {
  wl_look c ss : g_look g = Some (c, ss, true) -> cached i c -> seen i = ss -> seeing false c gs;
  wl_lock c : g_checked g = Some c -> g_lock g = true;
  wl_check c : g_checked g = Some c -> cached i c -> seeing true c gs;
  wl_wait c e : c ∈ g_pending g -> table i !! txh c = Some e -> channelClosed e = false -> cached i c -> seeing true c gs;
  wl_block b n : g_seer g = Some (b, n) -> block_wf b }.

Definition wake_inv (i : Indexer) (gs : list ghost) : Prop := forall t g, gs !! t = Some g -> wake_local i gs g.

Definition Inv (i : Indexer) (gs : list ghost) : Prop := table_inv i gs /\ lock_inv i gs /\ seen_inv i gs /\ wake_inv i gs.

(** What is known of a goroutine before an action. *)
Definition label (R : Type) (a : Action R) (g : ghost) : Prop :=
  match a with Select c ch => g_wait g = Some (c, ch) | _ => True end
  /\ forall b n, g_seer g = Some (b, n) ->
       match a with IncrSeen b' | StoreSee b' | WakeSeen b' => b' = b | _ => False end.

(** ** Parts that do not change *)

Lemma insert_cases {A} (l : list A) t u x y : <[t := x]> l !! u = Some y -> (u = t /\ y = x) \/ (u <> t /\ l !! u = Some y).
Proof using Type.
  destruct (decide (u = t)) as [->|Hne]; [|rewrite list_lookup_insert_ne by done; auto].
  intros Hy. left. split; [done|]. assert (t < length l)%nat by (apply lookup_lt_Some in Hy; by rewrite length_insert in Hy).
  rewrite list_lookup_insert_eq in Hy by done. by injection Hy.
Qed.

Lemma table_frame i i' gs t g g' : gs !! t = Some g -> table i' = table i -> closed i' = closed i -> nextChannel i' = nextChannel i ->
  g_pending g' = g_pending g -> g_wait g' = None \/ g_wait g' = g_wait g -> table_inv i gs -> table_inv i' (<[t := g']> gs).
Proof using Type.
  intros Ht E1 E2 E3 Hp Hw (H1 & H2 & H3). unfold table_inv. rewrite E1, E2, E3. split_and!; [done| |].
  - intros k. unfold total. rewrite (sum_insert _ gs t g) by done. fold (total k gs). rewrite H2. unfold cnt. rewrite Hp. lia.
  - intros u x c ch [[-> ->]|[_ Hu]]%insert_cases Hx; [|by eapply H3]. rewrite Hp. destruct Hw as [Hw|Hw]; [congruence|].
    apply (H3 t g); [done|congruence].
Qed.

Lemma lock_frame i i' gs t g g' : gs !! t = Some g -> locked i' = locked i -> g_lock g' = g_lock g ->
  lock_inv i gs -> lock_inv i' (<[t := g']> gs).
Proof using Type.
  intros Ht E Hl Hi. assert (forall u x, <[t := g']> gs !! u = Some x -> g_lock x = true -> exists y, gs !! u = Some y /\ g_lock y = true) as Hx.
  { intros u x [[-> ->]|[_ Hu]]%insert_cases Hlx; [exists g; split; [done|congruence]|by exists x]. }
  intros u x Hu Hlx. destruct (Hx u x Hu Hlx) as (y & Hy & Hly). destruct (Hi u y Hy Hly) as [H1 H2]. split; [congruence|].
  intros v z Hv Hlz. destruct (Hx v z Hv Hlz) as (z' & Hz' & Hlz'). by apply (H2 v z').
Qed.

Lemma seen_frame i i' gs t g g' : gs !! t = Some g -> seen i' = seen i -> g_todo g' = g_todo g ->
  (forall c ss b, g_look g' = Some (c, ss, b) -> exists b', g_look g = Some (c, ss, b')) ->
  seen_inv i gs -> seen_inv i' (<[t := g']> gs).
Proof using Type.
  intros Ht E Hd Hl (H1 & H2 & H3). unfold seen_inv. rewrite E. split_and!; [done| |].
  - unfold todo. rewrite (sum_insert _ gs t g) by done. fold (todo gs). rewrite Hd. lia.
  - intros u x c ss b [[-> ->]|[_ Hu]]%insert_cases Hx; [|by eapply H3]. destruct (Hl c ss b Hx) as [b' Hb']. by apply (H3 t g c ss b').
Qed.

(** The state may forget cached coins and closed channels may become more. *)
Lemma wake_frame i i' gs t g g' : gs !! t = Some g ->
  (forall c, cached i' c -> cached i c) -> seen i' = seen i ->
  (forall k e, table i' !! k = Some e -> channelClosed e = false -> exists e', table i !! k = Some e' /\ channelClosed e' = false) ->
  (forall c ss, g_look g' = Some (c, ss, true) -> g_look g = Some (c, ss, true)) ->
  g_checked g' = None \/ g_checked g' = g_checked g /\ g_lock g' = g_lock g ->
  g_pending g' ⊆ g_pending g -> g_seer g' = g_seer g ->
  wake_inv i gs -> wake_inv i' (<[t := g']> gs).
Proof using Type.
  intros Ht Hc Es Htab Hl Hk Hp Hs Hi.
  assert (forall any c, seeing any c gs -> seeing any c (<[t := g']> gs)) as Hse by (intros any c; apply (seeing_insert any c gs t g); auto).
  assert (forall x y, wake_local i gs x -> (forall c ss, g_look y = Some (c, ss, true) -> g_look x = Some (c, ss, true)) -> g_checked y = None \/ g_checked y = g_checked x /\ g_lock y = g_lock x ->
    g_pending y ⊆ g_pending x -> g_seer y = g_seer x -> wake_local i' (<[t := g']> gs) y) as Hloc.
  { intros x y [A1 A2 A3 A4 A5] Bl Bk Bp Bs. split.
    - intros c ss E Hca Hss. apply Hse, (A1 c ss); [auto|auto|congruence].
    - intros c E. destruct Bk as [Bk|[Bk Bk']]; [congruence|]. rewrite Bk'. apply (A2 c). congruence.
    - intros c E Hca. destruct Bk as [Bk|[Bk _]]; [congruence|]. apply Hse, (A3 c); [congruence|auto].
    - intros c e E He Hce Hca. destruct (Htab _ _ He Hce) as (e' & He' & Hce'). apply Hse, (A4 c e'); auto.
    - intros b n E. apply (A5 b n). congruence. }
  intros u x [[-> ->]|[_ Hu]]%insert_cases; [apply (Hloc g); [by apply (Hi t)|done..]|].
  apply (Hloc x); [by apply (Hi u)|auto|auto|done|done].
Qed.

(** One goroutine learns something. *)
Lemma wake_set i gs t g g' : gs !! t = Some g -> g_seer g' = g_seer g -> wake_inv i gs -> wake_local i gs g' ->
  wake_inv i (<[t := g']> gs).
Proof using Type.
  intros Ht Hs Hi Hg'. assert (forall x, wake_local i gs x -> wake_local i (<[t := g']> gs) x) as Hx.
  { assert (forall any c, seeing any c gs -> seeing any c (<[t := g']> gs)) as Hse by (intros any c; apply (seeing_insert any c gs t g); auto).
    intros x [A1 A2 A3 A4 A5]. split; eauto. }
  intros u x [[-> ->]|[_ Hu]]%insert_cases; [by apply Hx|by apply Hx, (Hi u)].
Qed.

(** Actions that touch only the storage or the node. *)
Lemma Inv_ext i i' gs : table i' = table i -> closed i' = closed i -> nextChannel i' = nextChannel i -> locked i' = locked i ->
  seen i' = seen i -> coinCache i' = coinCache i -> Inv i gs -> Inv i' gs.
Proof using Type.
  intros E1 E2 E3 E4 E5 E6 (H1 & H2 & H3 & H4). split_and!.
  - unfold table_inv. by rewrite E1, E2, E3.
  - unfold lock_inv. by rewrite E4.
  - unfold seen_inv. by rewrite E5.
  - intros t g Hg. destruct (H4 t g Hg) as [A1 A2 A3 A4 A5]. unfold cached in *. split; unfold cached; rewrite ?E1, ?E5, ?E6; done.
Qed.
End inv.
