(* ===== verification/IndexerSteps.v ===== *)
(** What each action of the indexer's goroutines does to the invariant. *)

From S2P Require Import Prelude Rosetta Coins Client Threads Indexer IndexerFacts.

Section steps.
#[local] Set Default Proof Using "Type*".
Context {K : SDK} {N : Node} {S : Storage}.

Notation RBlock := (RBlock JsonMap).

Implicit Types (i : Indexer) (gs : list ghost) (g : ghost).

(** ** [findCoin] *)

Lemma step_readseen i gs t p l c : Inv i gs -> gs !! t = Some (Fany p l) -> Inv i (<[t := Flook p c (seen i) false]> gs).
Proof using Type.
  intros (H1 & H2 & H3 & H4) Ht. split_and!.
  - eapply (table_frame i); eauto.
  - eapply (lock_frame i); eauto.
  - destruct H3 as (S1 & S2 & S3). split_and!; [done| |].
    + unfold todo. by rewrite (sum_insert _ gs t (Fany p l)), Z.sub_0_r, Z.add_0_r by done.
    + intros u x c' ss b [[-> ->]|[_ Hu]]%insert_cases Hx; [injection Hx as <- <- <-; lia|by eapply S3].
  - eapply wake_set; eauto. destruct (H4 t _ Ht) as [A1 A2 A3 A4 A5]. by split.
Qed.

Lemma step_cacheget i gs t p c ss : Inv i gs -> gs !! t = Some (Flook p c ss false) -> coinCache i !! c = None ->
  Inv i (<[t := Flook p c ss true]> gs).
Proof using Type.
  intros (H1 & H2 & H3 & H4) Ht Hc. split_and!.
  - eapply (table_frame i); eauto.
  - eapply (lock_frame i); eauto.
  - eapply (seen_frame i); eauto; cbn; intros c' ss' b [= <- <- <-]; eauto.
  - eapply wake_set; eauto. destruct (H4 t _ Ht) as [A1 A2 A3 A4 A5]. split; try done.
    intros c' ss' [= <- <-] Hca. unfold cached in Hca. rewrite Hc in Hca. by destruct Hca.
Qed.

Lemma lock_none i gs t g : lock_inv i gs -> locked i = false -> gs !! t = Some g -> g_lock g = false.
Proof using Type. intros Hi Hl Ht. destruct (g_lock g) eqn:E; [|done]. destruct (Hi t g Ht E). congruence. Qed.

Lemma step_lock i gs t p c ss : Inv i gs -> gs !! t = Some (Flook p c ss true) -> locked i = false ->
  Inv (set_locked true i) (<[t := Fhold p c ss]> gs).
Proof using Type.
  intros (H1 & H2 & H3 & H4) Ht Hl. split_and!.
  - eapply (table_frame i); eauto.
  - intros u x [[-> ->]|[_ Hu]]%insert_cases Hlx; [|pose proof (lock_none _ _ _ _ H2 Hl Hu); congruence]. split; [done|].
    intros v y [[-> ->]|[_ Hv]]%insert_cases Hly; [done|]. pose proof (lock_none _ _ _ _ H2 Hl Hv). congruence.
  - eapply (seen_frame i); eauto; cbn; intros c' ss' b [= <- <- <-]; eauto.
  - eapply (wake_frame i); eauto; done.
Qed.

Lemma step_check i gs t p c : Inv i gs -> gs !! t = Some (Fhold p c (seen i)) -> Inv i (<[t := Fcheck p c]> gs).
Proof using Type.
  intros (H1 & H2 & H3 & H4) Ht. split_and!.
  - eapply (table_frame i); eauto.
  - eapply (lock_frame i); eauto.
  - eapply (seen_frame i); eauto; done.
  - eapply wake_set; eauto. destruct (H4 t _ Ht) as [A1 A2 A3 A4 A5]. split; try done.
    intros c' [= <-] Hca. destruct (A1 c (seen i) eq_refl Hca eq_refl) as (u & x & b & n & Hu & Hx & Hn & Hb). by exists u, x, b, n.
Qed.

Lemma step_unlock i gs t g : Inv i gs -> gs !! t = Some g -> g_lock g = true -> g_seer g = None -> g_todo g = false ->
  Inv (set_locked false i) (<[t := Fidle (g_pending g)]> gs).
Proof using Type.
  intros (H1 & H2 & H3 & H4) Ht Hl Hs Hd. destruct (H2 t g Ht Hl) as [_ Honly]. split_and!.
  - eapply (table_frame i); eauto.
  - intros u x [[-> ->]|[Hne Hu]]%insert_cases Hlx; [done|]. by destruct (Hne (Honly u x Hu Hlx)).
  - eapply (seen_frame i); eauto; done.
  - eapply (wake_frame i); eauto; done.
Qed.

(** The table after a registration. *)
Lemma register_ok n t c k h : table_ok n t c -> table_ok (register k h t n).2 (register k h t n).1 c.
Proof using Type.
  intros [Te Tf Ti]. unfold register, waitTable_Get, waitTable_Set. destruct (t !! k) as [e|] eqn:E; cbn [fst snd].
  - split; [|done|].
    + intros k' e' He'. destruct (decide (k' = k)) as [->|Hne]; [|rewrite lookup_insert_ne in He' by done; by eapply Te].
      rewrite lookup_insert_eq in He'. injection He' as <-. destruct (Te k e E) as (? & ? & ?). split_and!; [done|done|cbn; lia].
    + intros k1 k2 e1 e2. destruct (decide (k1 = k)) as [->|H1], (decide (k2 = k)) as [->|H2]; try done;
        rewrite ?lookup_insert_eq, ?lookup_insert_ne by done; [intros [= <-]|intros Ha [= <-]; revert Ha|]; cbn [channel]; eauto.
  - split; [|intros ch Hch%Tf; lia|].
    + intros k' e' He'. destruct (decide (k' = k)) as [->|Hne].
      * rewrite lookup_insert_eq in He'. injection He' as <-. cbn. split_and!; [|lia|lia]. split; [done|]. intros Hn%Tf. lia.
      * rewrite lookup_insert_ne in He' by done. destruct (Te k' e' He') as (? & ? & ?). split_and!; [done|lia|done].
    + intros k1 k2 e1 e2. destruct (decide (k1 = k)) as [->|H1], (decide (k2 = k)) as [->|H2]; try done;
        rewrite ?lookup_insert_eq, ?lookup_insert_ne by done.
      * intros [= <-] He2 Hch. cbn in Hch. destruct (Te k2 e2 He2) as (_ & ? & _). lia.
      * intros He1 [= <-] Hch. cbn in Hch. destruct (Te k1 e1 He1) as (_ & ? & _). lia.
      * eauto.
Qed.

(** Registering keeps the channels, and an entry that was not there is open. *)
Lemma register_lookup n t k h k' e' : (register k h t n).1 !! k' = Some e' ->
  (exists e, t !! k' = Some e /\ channel e' = channel e /\ channelClosed e' = channelClosed e /\ earliestBlock e' <= earliestBlock e
     /\ (earliestBlock e' = earliestBlock e \/ earliestBlock e' = h) /\ listeners e' = listeners e + if bool_decide (k' = k) then 1 else 0)
  \/ (k' = k /\ t !! k = None /\ e' = mkWaitTableEntry 1 n false false h).
Proof using Type.
  unfold register, waitTable_Get, waitTable_Set. destruct (decide (k' = k)) as [->|Hne].
  - rewrite (bool_decide_eq_true_2 (k = k)) by done.
    destruct (t !! k) as [e|] eqn:E; cbn [fst]; rewrite lookup_insert_eq; intros [= <-]; [left; exists e|right]; cbn.
    + destruct (Z.gtb_spec (earliestBlock e) h); split_and!; try done; try lia; auto.
    + split_and!; try done. by destruct (Z.gtb_spec h h).
  - rewrite (bool_decide_eq_false_2 (k' = k)) by done.
    destruct (t !! k); cbn [fst]; rewrite lookup_insert_ne by done; intros He; left; exists e'; split_and!; auto; lia.
Qed.

Lemma register_keeps n t k h k' e : t !! k' = Some e -> exists e', (register k h t n).1 !! k' = Some e' /\ channel e' = channel e.
Proof using Type.
  intros He. unfold register, waitTable_Get, waitTable_Set. destruct (decide (k' = k)) as [->|Hne].
  - rewrite He. cbn [fst]. rewrite lookup_insert_eq. by eexists.
  - destruct (t !! k); cbn [fst]; rewrite lookup_insert_ne by done; eauto.
Qed.

Lemma register_new n t k h : exists e, (register k h t n).1 !! k = Some e.
Proof using Type.
  unfold register, waitTable_Get, waitTable_Set. destruct (t !! k); cbn [fst]; rewrite lookup_insert_eq; eauto.
Qed.

Lemma cnt_snoc k p c b : cnt k (mkGhost (p ++ [c]) None None b None None false)
  = cnt k (Fidle p) + if bool_decide (txh c = k) then 1 else 0.
Proof using Type.
  unfold cnt. cbn [g_pending Fidle Fany]. rewrite filter_app, zlen_app. f_equal. cbn.
  case_bool_decide; by destruct (decide (txh c = k)).
Qed.

Lemma step_register i gs t p c h : Inv i gs -> gs !! t = Some (Fcheck p c) ->
  let r := register (txh c) h (table i) (nextChannel i) in
  Inv (set_channels r.1 (closed i) r.2 i) (<[t := Flock (p ++ [c])]> gs).
Proof using Type.
  intros (H1 & H2 & H3 & H4) Ht r. destruct H1 as (T1 & T2 & T3). split_and!.
  - split_and!; cbn [table nextChannel closed set_channels].
    + by apply register_ok.
    + intros k. unfold total. rewrite (sum_insert _ gs t (Fcheck p c)) by done. fold (total k gs). rewrite T2.
      unfold Flock. rewrite cnt_snoc. change (cnt k (Fcheck p c)) with (cnt k (Fidle p)).
      destruct (r.1 !! k) as [e'|] eqn:E; cbn [from_option].
      * destruct (register_lookup _ _ _ _ _ _ E) as [(e & -> & _ & _ & _ & _ & ->)|(-> & -> & ->)]; cbn [from_option listeners].
        -- rewrite (bool_decide_ext (txh c = k) (k = txh c)) by done. lia.
        -- rewrite bool_decide_eq_true_2 by done. lia.
      * destruct (table i !! k) as [e|] eqn:E0.
        -- destruct (register_keeps (nextChannel i) _ (txh c) h _ _ E0) as (? & Hx & _). unfold r in E. congruence.
        -- cbn. rewrite bool_decide_eq_false_2; [lia|]. intros <-. destruct (register_new (nextChannel i) (table i) (txh c) h). unfold r in E. congruence.
    + intros u x c' ch [[-> ->]|[_ Hu]]%insert_cases Hx; [done|]. destruct (T3 u x c' ch Hu Hx) as (Hp & e & He & Hch). split; [done|].
      destruct (register_keeps (nextChannel i) _ (txh c) h _ _ He) as (e' & He' & Hch'). exists e'. split; [done|congruence].
  - eapply (lock_frame i); eauto.
  - eapply (seen_frame i); eauto; done.
  - assert (Hse : forall any c', seeing any c' gs -> seeing any c' (<[t := Flock (p ++ [c])]> gs))
      by (intros any c'; apply (seeing_insert any c' gs t (Fcheck p c)); auto).
    assert (Hold : forall u x c' e', gs !! u = Some x -> c' ∈ g_pending x -> r.1 !! txh c' = Some e' -> channelClosed e' = false ->
      cached i c' -> seeing true c' (<[t := Flock (p ++ [c])]> gs)).
    { intros u x c' e' Hu Hc' He' Hcl Hca. apply Hse. destruct (register_lookup _ _ _ _ _ _ He') as [(e & He & _ & Hce & _)|(Hk & Hn & _)].
      - apply (wl_wait _ _ _ (H4 u x Hu) c' e); [done|done|congruence|done].
      - pose proof (total_pos gs u x c' Hu Hc') as Hpos. rewrite T2, Hk, Hn in Hpos. cbn in Hpos. lia. }
    intros u x [[-> ->]|[_ Hu]]%insert_cases.
    + split; try done. cbn [g_pending Flock]. intros c' e' [Hc'|Hc']%elem_of_app He' Hcl Hca; [by apply (Hold t (Fcheck p c) c' e')|].
      apply list_elem_of_singleton in Hc' as ->. apply Hse. by apply (wl_check _ _ _ (H4 t _ Ht)).
    + destruct (H4 u x Hu) as [A1 A2 A3 A4 A5]. split; eauto.
Qed.

(** ** [findCoins] *)

Lemma step_waiterget i gs t p l c : Inv i gs -> gs !! t = Some (Fany (c :: p) l) ->
  exists e, table i !! txh c = Some e /\ Inv i (<[t := Fwait (c :: p) c (channel e)]> gs).
Proof using Type.
  intros (H1 & H2 & H3 & H4) Ht. destruct (table i !! txh c) as [e|] eqn:E.
  2: { destruct H1 as (_ & T2 & _). pose proof (total_pos gs t _ c Ht ltac:(left)) as Hp. rewrite T2, E in Hp. cbn in Hp. lia. }
  exists e. split; [done|]. split_and!.
  - destruct H1 as (T1 & T2 & T3). split_and!; [done| |].
    + intros k. unfold total. rewrite (sum_insert _ gs t (Fany (c :: p) l)) by done. fold (total k gs). rewrite T2.
      change (cnt k (Fwait _ _ _)) with (cnt k (Fany (c :: p) l)). lia.
    + intros u x c' ch [[-> ->]|[_ Hu]]%insert_cases Hx; [|by eapply T3]. injection Hx as <- <-. split; [left|]. by exists e.
  - eapply (lock_frame i); eauto.
  - eapply (seen_frame i); eauto; done.
  - eapply (wake_frame i); eauto; done.
Qed.

Lemma cnt_cons k p c ch : cnt k (Fwait (c :: p) c ch) = cnt k (Fidle p) + if bool_decide (txh c = k) then 1 else 0.
Proof using Type.
  unfold cnt. cbn [g_pending Fwait Fidle Fany]. rewrite filter_cons. case_bool_decide as Hk; destruct (decide (txh c = k)); try done.
  - rewrite zlen_cons. lia.
  - lia.
Qed.

Lemma release_spec n t c k e : table_ok n t c -> t !! k = Some e -> exists t', release k t = Some (aborted e, t') /\ table_ok n t' c
  /\ (forall k' e', t' !! k' = Some e' -> exists e0, t !! k' = Some e0 /\ channel e' = channel e0
        /\ channelClosed e' = channelClosed e0 /\ earliestBlock e' = earliestBlock e0)
  /\ (forall k' e0, t !! k' = Some e0 -> k' <> k \/ listeners e0 <> 1 -> exists e', t' !! k' = Some e' /\ channel e' = channel e0)
  /\ forall k', from_option listeners 0 (t' !! k') = from_option listeners 0 (t !! k') - if bool_decide (k = k') then 1 else 0.
Proof using Type.
  intros [Te Tf Ti] He. destruct (Te k e He) as (Hc & Hn & Hl). unfold release, waitTable_Get, waitTable_Delete, waitTable_Set. rewrite He.
  destruct (Z.eqb_spec (listeners e - 1) 0) as [Hz|Hz]; eexists; (split; [reflexivity|]).
  - assert (Hlk : forall k' e', delete k t !! k' = Some e' -> k' <> k /\ t !! k' = Some e') by (intros k' e' [? ?]%lookup_delete_Some; by split).
    split_and!.
    + split; [intros k' e' [_ Hx]%Hlk; eauto|done|]. intros k1 k2 e1 e2 [_ ?]%Hlk [_ ?]%Hlk. eauto.
    + intros k' e' [_ Hx]%Hlk. by exists e'.
    + intros k' e0 Hx [Hk|Hne]; [|assert (k' <> k) as Hk by (intros ->; assert (e0 = e) by congruence; subst; lia)];
        exists e0; by rewrite lookup_delete_ne.
    + intros k'. case_bool_decide as Hk; [subst k'; rewrite lookup_delete_eq, He; cbn; lia|]. rewrite lookup_delete_ne by done. lia.
  - assert (Hlk : forall k' e', <[k := mkWaitTableEntry (listeners e - 1) (channel e) (channelClosed e) (aborted e) (earliestBlock e)]> t !! k' = Some e' ->
      exists e0, t !! k' = Some e0 /\ channel e' = channel e0 /\ channelClosed e' = channelClosed e0 /\ earliestBlock e' = earliestBlock e0 /\ 0 < listeners e').
    { intros k' e'. destruct (decide (k' = k)) as [->|Hne].
      - rewrite lookup_insert_eq. intros [= <-]. exists e. split_and!; try done. cbn. lia.
      - rewrite lookup_insert_ne by done. intros Hx. exists e'. split_and!; try done. by apply (Te k'). }
    split_and!.
    + split; [|done|].
      * intros k' e' (e0 & H0 & E1 & E2 & _ & E4)%Hlk. rewrite E1, E2. destruct (Te k' e0 H0) as (? & ? & ?). by split_and!.
      * intros k1 k2 e1 e2 (e3 & H3 & E3 & _)%Hlk (e4 & H4 & E4 & _)%Hlk Hch. apply (Ti k1 k2 e3 e4); [done|done|congruence].
    + intros k' e' (e0 & H0 & E1 & E2 & E3 & _)%Hlk. by exists e0.
    + intros k' e0 Hx _. destruct (decide (k' = k)) as [->|Hne]; [rewrite lookup_insert_eq; eexists; split; [done|]; cbn; congruence|].
      rewrite lookup_insert_ne by done. eauto.
    + intros k'. case_bool_decide as Hk; [subst k'; rewrite lookup_insert_eq, He; cbn; lia|]. rewrite lookup_insert_ne by done. lia.
Qed.

Lemma step_release i gs t p c ch : Inv i gs -> gs !! t = Some (Fwait (c :: p) c ch) ->
  exists a t', release (txh c) (table i) = Some (a, t') /\ Inv (set_table t' i) (<[t := Fidle p]> gs).
Proof using Type.
  intros (H1 & H2 & H3 & H4) Ht. destruct H1 as (T1 & T2 & T3). destruct (T3 t _ c ch Ht eq_refl) as (_ & e & He & Hch).
  destruct (release_spec _ _ _ _ _ T1 He) as (t' & Hr & R1 & R2 & R3 & R4). exists (aborted e), t'. split; [done|].
  assert (Htot : forall k, total k (<[t := Fidle p]> gs) = from_option listeners 0 (t' !! k)).
  { intros k. unfold total. rewrite (sum_insert _ gs t _ _ Ht). fold (total k gs). rewrite T2, R4, cnt_cons. lia. }
  split_and!.
  - split_and!; [done|done|]. intros u x c' ch' Hu Hx. pose proof Hu as Hu'.
    apply insert_cases in Hu' as [[-> ->]|[_ Hu']]; [done|]. destruct (T3 u x c' ch' Hu' Hx) as (Hp & e0 & He0 & Hch0). split; [done|].
    destruct (t' !! txh c') as [e'|] eqn:E.
    + exists e'. split; [done|]. destruct (R2 _ _ E) as (e1 & He1 & Hc1 & _). congruence.
    + pose proof (total_pos _ u x c' Hu Hp) as Hpos. rewrite Htot, E in Hpos. cbn in Hpos. lia.
  - eapply (lock_frame i); eauto.
  - eapply (seen_frame i); eauto; done.
  - eapply (wake_frame i); eauto; try done.
    + intros k e' Hk Hcl. destruct (R2 k e' Hk) as (e0 & He0 & _ & Hc0 & _). exists e0. split; [done|congruence].
    + intros x Hx. by right.
Qed.

(** ** Closing channels *)

(** Entries stay, and may become closed. *)
Definition closes (t t' : waitTable) : Prop :=
  (forall k e, t !! k = Some e -> exists e', t' !! k = Some e' /\ listeners e' = listeners e /\ channel e' = channel e
     /\ earliestBlock e' = earliestBlock e /\ (channelClosed e = true -> channelClosed e' = true))
  /\ (forall k e', t' !! k = Some e' -> is_Some (t !! k)).

#[local] Instance closes_refl : Reflexive closes.
Proof using Type. intros t. split; [|eauto]. intros k e He. exists e. by split_and!. Qed.

#[local] Instance closes_trans : Transitive closes.
Proof using Type.
  intros t1 t2 t3 [A1 A2] [B1 B2]. split.
  - intros k e He. destruct (A1 k e He) as (e' & He' & L1 & L2 & L3 & L4). destruct (B1 k e' He') as (e3 & He3 & M1 & M2 & M3 & M4).
    exists e3. split_and!; [done|congruence|congruence|congruence|auto].
  - intros k e' He'. destruct (B2 k e' He') as [e2 He2]. eauto.
Qed.

Lemma closes_inv t t' k e' : closes t t' -> t' !! k = Some e' -> exists e, t !! k = Some e /\ listeners e' = listeners e
  /\ channel e' = channel e /\ earliestBlock e' = earliestBlock e /\ (channelClosed e = true -> channelClosed e' = true).
Proof using Type.
  intros [A1 A2] He'. destruct (A2 k e' He') as [e He]. destruct (A1 k e He) as (x & Hx & L). exists e. split; [done|].
  rewrite He' in Hx. injection Hx as <-. done.
Qed.

Lemma closeEntry_ok n t c k e a : table_ok n t c -> t !! k = Some e -> channelClosed e = false ->
  exists t' c', closeEntry k e a t c = Ret (t', c') /\ table_ok n t' c' /\ closes t t'
    /\ (exists e', t' !! k = Some e' /\ channelClosed e' = true) /\ forall k', k' <> k -> t' !! k' = t !! k'.
Proof using Type.
  intros [Te Tf Ti] He Hc. destruct (Te k e He) as (Hcl & Hn & Hl). unfold closeEntry, waitTable_Set.
  rewrite bool_decide_eq_false_2 by (intros Hin; apply Hcl in Hin; congruence). eexists _, _. split; [reflexivity|].
  set (x := mkWaitTableEntry _ _ _ _ _). assert (Hlk : forall k' e', <[k := x]> t !! k' = Some e' ->
    k' = k /\ e' = x \/ k' <> k /\ t !! k' = Some e').
  { intros k' e'. destruct (decide (k' = k)) as [->|Hne]; [rewrite lookup_insert_eq; intros [= <-]; auto|].
    rewrite lookup_insert_ne by done. auto. }
  split_and!.
  - split.
    + intros k' e' [[-> ->]|[Hne He']]%Hlk; cbn [x channelClosed channel listeners].
      * split_and!; [|done|done]. split; [set_solver|done].
      * destruct (Te k' e' He') as (Hc' & Hn' & Hl'). split_and!; [|done|done]. rewrite Hc'. split; [set_solver|].
        intros [Hin|Hin]%elem_of_union; [|done]. apply elem_of_singleton in Hin. by destruct (Hne (Ti k' k e' e He' He Hin)).
    + intros ch [->%elem_of_singleton|Hch]%elem_of_union; auto.
    + intros k1 k2 e1 e2 [[-> ->]|[_ H1]]%Hlk [[-> ->]|[_ H2]]%Hlk Hch; [done|..].
      * by apply (Ti k k2 e e2).
      * by apply (Ti k1 k e1 e).
      * by apply (Ti k1 k2 e1 e2).
  - split.
    + intros k' e' He'. destruct (decide (k' = k)) as [->|Hne].
      * rewrite lookup_insert_eq. exists x. rewrite He in He'. injection He' as <-. by split_and!.
      * rewrite lookup_insert_ne by done. exists e'. by split_and!.
    + intros k' e' [[-> _]|[_ ?]]%Hlk; eauto.
  - exists x. by rewrite lookup_insert_eq.
  - intros k' Hne. by rewrite lookup_insert_ne.
Qed.

Lemma wakeSeen_ok n txs : forall t c, table_ok n t c -> exists t' c', wakeSeen (K := K) txs t c = Ret (t', c') /\ table_ok n t' c'
  /\ closes t t' /\ forall k e', In k (map rtx_Hash txs) -> t' !! k = Some e' -> channelClosed e' = true.
Proof using Type.
  induction txs as [|tx txs IH]; intros t c Hok; cbn [wakeSeen map].
  { exists t, c. split_and!; [done|done|done|]. intros k e' []. }
  unfold waitTable_Get. destruct (t !! rtx_Hash tx) as [e|] eqn:He; [destruct (channelClosed e) eqn:Hc|].
  - destruct (IH t c Hok) as (t' & c' & Hw & H1 & H2 & H3). exists t', c'. split_and!; [done|done|done|].
    intros k e' [<-|Hk] He'; [|by eapply H3]. destruct (closes_inv _ _ _ _ H2 He') as (e0 & He0 & _ & _ & _ & Hm).
    rewrite He in He0. injection He0 as <-. auto.
  - destruct (closeEntry_ok n t c _ e false Hok He Hc) as (t1 & c1 & -> & H1 & H2 & (e1 & He1 & Hc1) & _). cbn [bindO].
    destruct (IH t1 c1 H1) as (t' & c' & Hw & G1 & G2 & G3). exists t', c'. split_and!; [done|done|by etrans|].
    intros k e' [<-|Hk] He'; [|by eapply G3]. destruct (closes_inv _ _ _ _ G2 He') as (e0 & He0 & _ & _ & _ & Hm).
    rewrite He1 in He0. injection He0 as <-. auto.
  - destruct (IH t c Hok) as (t' & c' & Hw & H1 & H2 & H3). exists t', c'. split_and!; [done|done|done|].
    intros k e' [<-|Hk] He'; [|by eapply H3]. destruct (closes_inv _ _ _ _ H2 He') as (e0 & He0 & _). congruence.
Qed.

Lemma abortWaits_ok n index l : forall t c, NoDup l.*1 -> (forall k e, (k, e) ∈ l -> t !! k = Some e) -> table_ok n t c ->
  exists t' c', abortWaits index l t c = Ret (t', c') /\ table_ok n t' c' /\ closes t t'
    /\ (forall k e e', (k, e) ∈ l -> t' !! k = Some e' -> channelClosed e' = false -> earliestBlock e' <> i64 (index + 1))
    /\ forall k, k ∉ l.*1 -> t' !! k = t !! k.
Proof using Type.
  induction l as [|[k e] l IH]; intros t c Hnd Hl Hok; cbn [abortWaits].
  { exists t, c. split_and!; try done. intros k e e' Hin. by apply elem_of_nil in Hin. }
  apply NoDup_cons in Hnd as [Hk Hnd]. assert (He : t !! k = Some e) by (apply Hl; left).
  destruct ((earliestBlock e =? i64 (index + 1)) && negb (channelClosed e)) eqn:Hb.
  - apply andb_true_iff in Hb as [Hb Hc]. apply negb_true_iff in Hc.
    destruct (closeEntry_ok n t c k e true Hok He Hc) as (t1 & c1 & -> & H1 & H2 & (e1 & He1 & Hc1) & H3). cbn [bindO].
    destruct (IH t1 c1 Hnd) as (t' & c' & Hw & G1 & G2 & G3 & G4); [|done|].
    { intros k' e' Hin. rewrite H3; [apply Hl; by right|]. intros ->. apply Hk. apply list_elem_of_fmap. by exists (k, e'). }
    exists t', c'. split_and!; [done|done|by etrans| |].
    + intros k' e0 e' [[= -> ->]|Hin]%elem_of_cons He' Hce; [|by eapply G3].
      rewrite G4, He1 in He' by done. injection He' as <-. congruence.
    + intros k' Hn. apply not_elem_of_cons in Hn as [Hn1 Hn2]. by rewrite G4, H3.
  - destruct (IH t c Hnd) as (t' & c' & Hw & G1 & G2 & G3 & G4); [intros k' e' Hin; apply Hl; by right|done|].
    exists t', c'. split_and!; [done|done|done| |].
    + intros k' e0 e' [[= -> ->]|Hin]%elem_of_cons He' Hce; [|by eapply G3].
      rewrite G4, He in He' by done. injection He' as <-. rewrite Hce in Hb. cbn [negb] in Hb. rewrite andb_true_r in Hb. by apply Z.eqb_neq.
    + intros k' Hn. apply not_elem_of_cons in Hn as [Hn1 Hn2]. by rewrite G4.
Qed.

(** [BlockAdded]: no wait for the next block is left open. *)
Lemma abort_ok n index t c : table_ok n t c -> exists t' c', abortWaits index (map_to_list t) t c = Ret (t', c')
  /\ table_ok n t' c' /\ closes t t'
  /\ forall k e', t' !! k = Some e' -> channelClosed e' = false -> earliestBlock e' <> i64 (index + 1).
Proof using Type.
  intros Hok. destruct (abortWaits_ok n index (map_to_list t) t c) as (t' & c' & Hw & H1 & H2 & H3 & _); [|by intros k e ?%elem_of_map_to_list|done|].
  { apply NoDup_fst_map_to_list. }
  exists t', c'. split_and!; [done|done|done|]. intros k e' He' Hc. destruct (closes_inv _ _ _ _ H2 He') as (e & He & _).
  apply (H3 k e e'); [by apply elem_of_map_to_list|done|done].
Qed.

Lemma closing_table i gs t' c' : table_inv i gs -> table_ok (nextChannel i) t' c' -> closes (table i) t' ->
  table_inv (set_channels t' c' (nextChannel i) i) gs.
Proof using Type.
  intros (T1 & T2 & T3) Hok Hc. split_and!; [done| |].
  - intros k. rewrite T2. cbn [table set_channels]. destruct (t' !! k) as [e'|] eqn:E.
    + destruct (closes_inv _ _ _ _ Hc E) as (e & -> & Hl & _). cbn. congruence.
    + destruct (table i !! k) as [e|] eqn:E'; [|done]. destruct (proj1 Hc k e E') as (x & Hx & _). congruence.
  - intros t g c ch Ht Hw. destruct (T3 t g c ch Ht Hw) as (Hp & e & He & Hch). split; [done|].
    destruct (proj1 Hc _ _ He) as (e' & He' & _ & Hch' & _). exists e'. split; [done|congruence].
Qed.

Lemma closes_open t t' k e' : closes t t' -> t' !! k = Some e' -> channelClosed e' = false ->
  exists e, t !! k = Some e /\ channelClosed e = false.
Proof using Type.
  intros Hc He' Hf. destruct (closes_inv _ _ _ _ Hc He') as (e & He & _ & _ & _ & Hm). exists e. split; [done|].
  destruct (channelClosed e); [|done]. rewrite Hm in Hf by done. done.
Qed.

(** ** [BlockSeen] and [BlockAdded] *)

Lemma step_load i gs t b : block_wf b -> Inv i gs -> gs !! t = Some Sstart ->
  Inv (set_coinCache (addCreated (block_ops b) (coinCache i)) i) (<[t := Sload b]> gs).
Proof using Type.
  intros Hb (H1 & H2 & H3 & H4) Ht. split_and!.
  - eapply (table_frame i); eauto.
  - eapply (lock_frame i); eauto.
  - eapply (seen_frame i); eauto; done.
  - set (i' := set_coinCache _ i). set (gs' := <[t := Sload b]> gs).
    assert (Hme : gs' !! t = Some (Sload b)) by (apply list_lookup_insert_eq; by eapply lookup_lt_Some).
    assert (Hse : forall any c, cached i' c -> (cached i c -> seeing any c gs) -> seeing any c gs').
    { intros any c [Hc|Hc]%addCreated_dom Hold.
      - apply (seeing_insert any c gs t Sstart); auto.
      - exists t, (Sload b), b, false. by split_and!. }
    intros u x [[-> ->]|[_ Hu]]%insert_cases.
    + split; try done; cbn; [intros c e Hin; by apply elem_of_nil in Hin|]. by intros b' n [= <- <-].
    + destruct (H4 u x Hu) as [A1 A2 A3 A4 A5]. split; eauto.
Qed.

Lemma step_count i gs t b : Inv i gs -> gs !! t = Some (Sload b) -> Inv (set_seen (i64 (seen i + 1)) i) (<[t := Scount b]> gs).
Proof using Type.
  intros (H1 & H2 & H3 & H4) Ht. destruct H3 as (S1 & S2 & S3).
  assert (Hd : 1 <= todo gs).
  { apply (sum_ge (fun g => if g_todo g then 1 else 0) gs t (Sload b)); [|done]. intros g. destruct (g_todo g); lia. }
  assert (Hs : i64 (seen i + 1) = seen i + 1) by (apply i64_id; lia). rewrite Hs. split_and!.
  - eapply (table_frame i); eauto.
  - eapply (lock_frame i); eauto.
  - split_and!; cbn [seen set_seen]; [lia| |].
    + unfold todo. rewrite (sum_insert _ gs t (Sload b)) by done. fold (todo gs). cbn. lia.
    + intros u x c ss b' [[-> ->]|[_ Hu]]%insert_cases Hx; [done|]. specialize (S3 u x c ss b' Hu Hx). lia.
  - set (gs' := <[t := Scount b]> gs).
    assert (Hme : gs' !! t = Some (Scount b)) by (apply list_lookup_insert_eq; by eapply lookup_lt_Some).
    assert (Hse : forall c, seeing true c gs -> seeing true c gs').
    { intros c (u & g & b' & n & Hu & Hg & Hn & Hc). destruct (decide (u = t)) as [->|Hne].
      - rewrite Ht in Hu. injection Hu as <-. injection Hg as <- <-. exists t, (Scount b), b, true. by split_and!.
      - exists u, g, b', n. unfold gs'. by rewrite list_lookup_insert_ne. }
    intros u x [[-> ->]|[_ Hu]]%insert_cases.
    + split; try done; cbn; [intros c e Hin; by apply elem_of_nil in Hin|]. intros b' n [= <- <-]. by eapply (wl_block _ _ _ (H4 t _ Ht)).
    + destruct (H4 u x Hu) as [A1 A2 A3 A4 A5]. split; eauto.
      intros c ss Hl Hc Hss. cbn [seen set_seen] in Hss. specialize (S3 u x c ss true Hu Hl). lia.
Qed.

Lemma step_wake i gs t b : Inv i gs -> gs !! t = Some (Scount b) -> locked i = false ->
  exists t' c', wakeSeen (rb_Transactions b) (table i) (closed i) = Ret (t', c')
    /\ Inv (set_channels t' c' (nextChannel i) i) (<[t := Fidle []]> gs).
Proof using Type.
  intros (H1 & H2 & H3 & H4) Ht Hl. destruct (wakeSeen_ok _ (rb_Transactions b) _ _ (proj1 H1)) as (t' & c' & Hw & W1 & W2 & W3).
  exists t', c'. split; [done|]. split_and!.
  - apply (table_frame (set_channels t' c' (nextChannel i) i) _ gs t (Scount b)); auto. by apply closing_table.
  - eapply (lock_frame i); eauto.
  - eapply (seen_frame i); eauto; done.
  - assert (Hse : forall c, seeing true c gs -> created b c \/ seeing true c (<[t := Fidle []]> gs)).
    { intros c (u & g & b' & n & Hu & Hg & Hn & Hc). destruct (decide (u = t)) as [->|Hne].
      - rewrite Ht in Hu. injection Hu as <-. injection Hg as <- <-. by left.
      - right. exists u, g, b', n. by rewrite list_lookup_insert_ne. }
    pose proof (wl_block _ _ _ (H4 t _ Ht) b true eq_refl) as Hwf.
    intros u x [[-> ->]|[Hne Hu]]%insert_cases.
    { split; try done. intros c e Hin. by apply elem_of_nil in Hin. }
    pose proof (lock_none _ _ _ _ H2 Hl Hu) as Hlx. destruct (H4 u x Hu) as [A1 A2 A3 A4 A5]. split.
    + intros c ss Hlk Hc Hs. destruct (A1 c ss Hlk Hc Hs) as (v & g & b' & n & Hv & Hg & Hn & Hcr).
      exists v, g, b', n. split_and!; try done. rewrite list_lookup_insert_ne; [done|]. intros ->. rewrite Ht in Hv. injection Hv as <-.
      injection Hg as <- <-. by discriminate Hn.
    + intros c Hc. rewrite (A2 c Hc) in Hlx. done.
    + intros c Hc. rewrite (A2 c Hc) in Hlx. done.
    + intros c e' Hp He' Hcl Hc. destruct (closes_open _ _ _ _ W2 He' Hcl) as (e & He & Hce).
      destruct (Hse c (A4 c e Hp He Hce Hc)) as [Hcr|?]; [|done]. rewrite (W3 _ e' (Hwf c Hcr) He') in Hcl. done.
    + done.
Qed.

Lemma step_clean i gs b : Inv i gs -> Inv (set_coinCache (deleteCreated (block_ops b) (coinCache i)) i) gs.
Proof using Type.
  intros (H1 & H2 & H3 & H4). split_and!; [done|done|done|]. intros u x Hu. destruct (H4 u x Hu) as [A1 A2 A3 A4 A5].
  assert (Hc : forall c, cached (set_coinCache (deleteCreated (block_ops b) (coinCache i)) i) c -> cached i c) by (intros c; apply deleteCreated_dom).
  split; eauto.
Qed.

Lemma step_abort i gs index : Inv i gs ->
  exists t' c', abortWaits index (map_to_list (table i)) (table i) (closed i) = Ret (t', c')
    /\ Inv (set_channels t' c' (nextChannel i) i) gs.
Proof using Type.
  intros (H1 & H2 & H3 & H4). destruct (abort_ok _ index _ _ (proj1 H1)) as (t' & c' & Hw & W1 & W2 & _).
  exists t', c'. split; [done|]. split_and!; [by apply closing_table|done|done|].
  intros u x Hu. destruct (H4 u x Hu) as [A1 A2 A3 A4 A5]. split; [done|done|done| |done].
  intros c e' Hp He' Hcl Hc. destruct (closes_open _ _ _ _ W2 He' Hcl) as (e & He & Hce). by apply (A4 c e).
Qed.
End steps.
