(* ===== verification/IndexerThms.v ===== *)
(** Theorems on the indexer's goroutines, for every number of them and every
    schedule: no channel is closed twice, no listener loses its entry, the wait
    table is emptied, no wakeup is lost, and waits end. *)

From S2P Require Import Prelude Digits Rosetta Coins Float64 Amount Client ClientFacts Threads Indexer IndexerFacts IndexerSteps.

Section programs.
#[local] Set Default Proof Using "Type*".
Context {K : SDK} {N : Node} {S : Storage} `{FloatConv} (client : Client).

Notation RBlock := (RBlock JsonMap).
Notation IM := (outcome IndexerErr).
Notation okp := (ok perform Inv label).

(** Errors that are not reported by the waits. *)
Definition plain (e : IndexerErr) : Prop := match e with ErrNotInWaiter _ | ErrOrphanHead => False | _ => True end.

Definition idle (p : list bytes) (g : ghost) : Prop := exists l, g = Fany p l.

Definition found (p : list bytes) (c : bytes) (r : IM (Coin * option AccountIdentifier)) (g : ghost) : Prop :=
  g_seer g = None /\
  match r with
  | Ret _ => idle p g
  | Fail errMissingTransaction => idle (p ++ [c]) g
  | Fail e => plain e
  | _ => True
  end.

(** The result of a whole fetch: no entry was lost, and unless it failed in
    between, it left no registration behind. *)
Definition fetched {A} (r : IM A) (g : ghost) : Prop :=
  g_seer g = None /\
  match r with
  | Ret _ | Fail ErrOrphanHead => idle [] g
  | Fail e => plain e
  | _ => True
  end.

(** An action that changes neither the ghost state nor what it is about. *)
Ltac quiet :=
  apply ok_skip; [split; [exact I|done]|];
  let i := fresh "i" in let gs := fresh "gs" in let t := fresh "t" in let ch := fresh "ch" in
  let r := fresh "r" in let i' := fresh "i'" in let Hi := fresh "Hi" in let Ht := fresh "Ht" in let Hp := fresh "Hp" in
  intros i gs t ch r i' Hi Ht Hp; cbn [perform] in Hp; injection Hp as <- <-; split; [exact Hi|].

Lemma findCoin_ok fuel blk c : forall p l, okp (findCoin fuel blk c) (Fany p l) (found p c).
Proof using Type.
  induction fuel as [|fuel IH]; intros p l; cbn [findCoin]; [by split|].
  assert (Hunlock : forall g (Q : IM (Coin * option AccountIdentifier) -> ghost -> Prop) q, okp q (Fidle (g_pending g)) Q -> g_lock g = true -> g_seer g = None -> g_todo g = false ->
    okp (Act Unlock (fun _ => q)) g Q).
  { intros g Q q Hq Hl Hs Hd. split; [split; [done|by rewrite Hs]|]. intros i gs t ch r i' Hi Ht Hp. cbn [perform] in Hp. injection Hp as <- <-.
    exists (Fidle (g_pending g)). split; [by apply step_unlock|done]. }
  quiet. destruct (Nat.odd ch); [by split|].
  split; [by split|]. intros i_1 gs_1 t_1 ch_1 r_1 i_1' Hi_1 Ht_1 Hp_1. cbn [perform] in Hp_1. injection Hp_1 as <- <-.
  exists (Flook p c (seen i_1) false). split; [by eapply step_readseen|]. set (ss := seen i_1).
  quiet. destruct (GetHeadBlockIdentifier _ _) as [head| |]; [|quiet; destruct (negb _); [apply IH|by split]|by split].
  destruct (GetCoin _ _ _) as [coin owner| |]; [split; [done|by eexists]| |by split].
  split; [by split|]. intros i_2 gs_2 t_2 ch_2 r_2 i_2' Hi_2 Ht_2 Hp_2. cbn [perform] in Hp_2. injection Hp_2 as <- <-.
  destruct (coinCache i_2 !! c) as [ac|] eqn:Hc.
  { exists (Flook p c ss false). rewrite list_insert_id by done. split; [done|]. split; [done|by eexists]. }
  exists (Flook p c ss true). split; [by apply step_cacheget|].
  split; [by split|]. intros i_3 gs_3 t_3 ch_3 r_3 i_3' Hi_3 Ht_3 Hp_3. cbn [perform] in Hp_3.
  destruct (locked i_3) eqn:Hl; [done|]. injection Hp_3 as <- <-. exists (Fhold p c ss). split; [by apply step_lock|].
  quiet. destruct (GetHeadBlockIdentifier _ _) as [curr| |]; [|by apply Hunlock; [split|..]..].
  destruct (negb _); [by apply Hunlock; [apply IH|..]|].
  split; [by split|]. intros i_4 gs_4 t_4 ch_4 r_4 i_4' Hi_4 Ht_4 Hp_4. cbn [perform] in Hp_4. injection Hp_4 as <- <-.
  destruct (Z.eqb_spec (seen i_4) ss) as [Hs|]; cbn [negb].
  2: { exists (Fhold p c ss). rewrite list_insert_id by done. split; [done|]. by apply Hunlock; [apply IH|..]. }
  exists (Fcheck p c). split; [apply step_check; [done|by rewrite Hs]|].
  rewrite TransactionHash_eq. cbn [liftP]. destruct blk as [blk|]; [|by split]. cbn [orCrash liftP].
  split; [by split|]. intros i_5 gs_5 t_5 ch_5 r_5 i_5' Hi_5 Ht_5 Hp_5. cbn [perform] in Hp_5.
  exists (Flock (p ++ [c])). pose proof (step_register i_5 gs_5 t_5 p c (b_Height blk) Hi_5 Ht_5) as Hr. cbv zeta in Hr.
  destruct (register _ _ _ _) as [tb n]. injection Hp_5 as <- <-. split; [exact Hr|].
  apply Hunlock; [|done..]. split; [done|by eexists].
Qed.

Lemma checkHeaderMatch_ok blk g : g_seer g = None -> okp (checkHeaderMatch blk) g
  (fun r g' => g' = g /\ match r with Fail e => e = ErrOrphanHead \/ plain e | _ => True end).
Proof using Type.
  intros Hs. unfold checkHeaderMatch. apply ok_skip; [split; [done|by rewrite Hs]|].
  intros i gs t ch r i' Hi Ht Hp. cbn [perform] in Hp. injection Hp as <- <-. split; [done|].
  destruct (GetHeadBlockIdentifier _ _); [|by split|by split; [|right]]. destruct blk as [blk|]; [|by split]. cbn [orCrash liftP].
  destruct (_ && _); [by split; [|left]|by split].
Qed.

Lemma lookupCoins_ok fuel blk coins : forall m rem l, okp (lookupCoins fuel blk coins m rem) (Fany rem l)
  (fun r g => g_seer g = None /\ match r with Ret (_, rem') => idle rem' g | Fail e => plain e | _ => True end).
Proof using Type.
  induction coins as [|c coins IH]; intros m rem l; cbn [lookupCoins]; [split; [done|by exists l]|].
  apply ok_bind. eapply ok_mono; [|apply findCoin_ok]. intros r g [Hs Hr].
  destruct r as [[coin owner]|e| |]; [destruct Hr as [l' ->]; apply IH| |by split|by split].
  destruct e; try (by split). destruct Hr as [l' ->]. apply IH.
Qed.

Lemma waitCoins_ok rem : forall a l, okp (waitCoins rem a) (Fany rem l)
  (fun r g => g_seer g = None /\ match r with Ret _ => idle [] g | Fail e => plain e | _ => True end).
Proof using Type.
  induction rem as [|c rem IH]; intros a l; cbn [waitCoins]; [split; [done|by exists l]|].
  rewrite TransactionHash_eq. cbn [liftP]. split; [by split|].
  intros i gs t ch r i' Hi Ht Hp. cbn [perform] in Hp. destruct (locked i); [done|]. injection Hp as <- <-.
  destruct (step_waiterget i gs t rem l c Hi Ht) as (e & He & Hi'). exists (Fwait (c :: rem) c (channel e)). split; [done|].
  unfold waitTable_Get. rewrite He. split; [by split|]. clear i gs t ch Hi Ht He Hi'.
  intros i gs t ch r i' Hi Ht Hp. cbn [perform] in Hp. exists (Fwait (c :: rem) c (channel e)). rewrite list_insert_id by done.
  destruct (Nat.odd ch); [injection Hp as <- <-; split; [done|by split]|]. destruct (bool_decide _); [|done].
  injection Hp as <- <-. split; [done|]. cbn [negb]. split; [by split|]. clear i gs t ch Hi Ht.
  intros i gs t ch r i' Hi Ht Hp. cbn [perform] in Hp. destruct (locked i); [done|].
  destruct (step_release i gs t rem c _ Hi Ht) as (b & t' & Hr & Hi'). rewrite Hr in Hp. injection Hp as <- <-.
  exists (Fidle rem). split; [done|]. apply IH.
Qed.

Lemma findCoins_ok fuel blk : forall coins l, okp (findCoins fuel blk coins) (Fany [] l) fetched.
Proof using Type.
  induction fuel as [|fuel IH]; intros coins l; cbn [findCoins]; [by split|].
  apply ok_bind. eapply ok_mono; [|by apply checkHeaderMatch_ok]. intros r g [-> Hr].
  destruct r as [[]|e| |]; cbn [liftP]; [|destruct Hr as [->|He]; [split; [done|by exists l]|by split; [|destruct e]]|by split|by split].
  apply ok_bind. eapply ok_mono; [|apply lookupCoins_ok]. intros r g [Hs Hr'].
  destruct r as [[m rem]|e| |]; cbn [liftP]; [|by split; [|destruct e]|by split|by split].
  destruct Hr' as [l' ->]. destruct rem as [|c rem]; [split; [done|by exists l']|].
  apply ok_bind. eapply ok_mono; [|apply waitCoins_ok]. intros r g [Hs' Hr'].
  destruct r as [ab|e| |]; cbn [liftP]; [|by split; [|destruct e]|by split|by split].
  destruct ab; [by split|]. destruct Hr' as [l2 ->].
  apply ok_bind. eapply ok_mono; [|apply IH]. intros r g [Hs2 Hr2]. destruct r as [m2|e| |]; by split.
Qed.

Lemma rawBlockLoop_ok tries id : forall l, okp (rawBlockLoop client tries id) (Fany [] l)
  (fun r g => g = Fany [] l /\ match r with Fail e => plain e | _ => True end).
Proof using Type.
  induction tries as [|tries IH]; intros l; cbn [rawBlockLoop]; quiet; (destruct (Nat.odd ch); [by split|]);
    (apply ok_skip; [by split|]); intros i2 gs2 t2 ch2 r2 i2' Hi2 Ht2 Hp2; cbn [perform] in Hp2;
    destruct (GetRawBlock client id (world i2)) as [r w]; injection Hp2 as <- <-; (split; [by apply (Inv_ext i2)|]);
    destruct r as [[b cs]|e| |]; try (by split).
  quiet. destruct (negb _); [apply IH|by split].
Qed.

Lemma Block_ok fuel id l : okp (Indexer_Block client fuel id) (Fany [] l) fetched.
Proof using Type.
  unfold Indexer_Block. apply ok_bind. eapply ok_mono; [|apply rawBlockLoop_ok]. intros r g [-> Hr].
  destruct r as [[blk coins]|e| |]; cbn [liftP]; [|by split; [|destruct e]|by split|by split].
  apply ok_bind. eapply ok_mono; [|apply findCoins_ok]. intros r g [Hs Hr'].
  destruct r as [m|e| |]; cbn [liftP]; [|by split|by split|by split].
  destruct (ParseBlock client blk m).1; [destruct (asserter_Block _)| | |]; by split.
Qed.

Lemma BlockSeen_ok b : block_wf b -> okp (BlockSeen b) Sstart (fun r g => r <> Crash /\ g_pending g = []
  /\ (g_seer g = None \/ r = Fail ErrStorage /\ g_seer g = Some (b, true))).
Proof using Type.
  intros Hb. unfold BlockSeen, BlockSeen_count, BlockSeen_store, BlockSeen_wake. quiet. destruct (Nat.odd ch); [by split_and!; [| |left]|].
  split; [by split|]. clear i gs t ch Hi Ht. intros i gs t ch r i' Hi Ht Hp. cbn [perform] in Hp. injection Hp as <- <-.
  exists (Sload b). split; [by apply step_load|]. split; [split; [done|by intros b' n [= <- _]]|]. clear i gs t ch Hi Ht.
  intros i gs t ch r i' Hi Ht Hp. cbn [perform] in Hp. injection Hp as <- <-.
  exists (Scount b). split; [by apply step_count|]. apply ok_skip; [split; [done|by intros b' n [= <- _]]|]. clear i gs t ch Hi Ht.
  intros i gs t ch r i' Hi Ht Hp. cbn [perform] in Hp. unfold changed in Hp.
  destruct (SeeBlock ch b (database i)) as [d|]; injection Hp as <- <-; (split; [try done; by apply (Inv_ext i)|]); cbn [negb];
    [|split_and!; [done|done|by right]]. split; [split; [done|by intros b' n [= <- _]]|]. clear i gs t ch Hi Ht.
  intros i gs t ch r i' Hi Ht Hp. cbn [perform] in Hp. destruct (locked i) eqn:Hl; [done|].
  destruct (step_wake i gs t b Hi Ht Hl) as (t' & c' & Hw & Hi'). rewrite Hw in Hp. cbn [closing] in Hp. injection Hp as <- <-.
  exists (Fidle []). split; [done|]. split_and!; [done|done|by left].
Qed.

Lemma BlockAdded_ok b : okp (BlockAdded b) (Fidle []) (fun r g => r <> Crash /\ g = Fidle []).
Proof using Type.
  unfold BlockAdded. apply ok_skip; [by split|]. intros i gs t ch r i' Hi Ht Hp. cbn [perform] in Hp. unfold changed in Hp.
  destruct (AddBlock ch b (database i)) as [d|]; injection Hp as <- <-; (split; [try done; by apply (Inv_ext i)|]); cbn [negb]; [|by split].
  clear i gs t ch Hi Ht. apply ok_skip; [by split|]. intros i gs t ch r i' Hi Ht Hp. cbn [perform] in Hp. injection Hp as <- <-.
  split; [by apply step_clean|]. clear i gs t ch Hi Ht. apply ok_skip; [by split|]. intros i gs t ch r i' Hi Ht Hp. cbn [perform] in Hp.
  destruct (locked i); [done|]. destruct (step_abort i gs (bi_Index (rb_BlockIdentifier b)) Hi) as (t' & c' & Hw & Hi').
  rewrite Hw in Hp. cbn [closing] in Hp. injection Hp as <- <-. by split.
Qed.

Lemma BlockRemoved_ok id : okp (BlockRemoved id) (Fidle []) (fun r g => g = Fidle []).
Proof using Type.
  unfold BlockRemoved. apply ok_skip; [by split|]. intros i gs t ch r i' Hi Ht Hp. cbn [perform] in Hp. unfold changed in Hp.
  destruct (RemoveBlock ch id (database i)) as [d|]; injection Hp as <- <-; (split; [try done; by apply (Inv_ext i)|done]).
Qed.

(** ** Pools of goroutines *)

Inductive Job :=
  | JFetch (fuel : nat) (id : option PartialBlockIdentifier)
  | JSeen (b : RBlock)
  | JAdded (b : RBlock)
  | JRemoved (id : BlockIdentifier).

Inductive Result :=
  | RFetch (r : IM RBlock)
  | RSeen (b : RBlock) (r : IM unit)
  | RAdded (b : RBlock) (r : IM unit)
  | RRemoved (r : IM unit).

Definition start (j : Job) : prog Action Result :=
  match j with
  | JFetch fuel id => bindP (Indexer_Block client fuel id) (fun r => Done (RFetch r))
  | JSeen b => bindP (BlockSeen b) (fun r => Done (RSeen b r))
  | JAdded b => bindP (BlockAdded b) (fun r => Done (RAdded b r))
  | JRemoved id => bindP (BlockRemoved id) (fun r => Done (RRemoved r))
  end.

Definition ghost_of (j : Job) : ghost := match j with JSeen _ => Sstart | _ => Fidle [] end.

(** Fewer blocks than the counter can count, and coins that belong to the
    transactions of their blocks. *)
Definition jobs_ok (js : list Job) : Prop := zlen js < 2 ^ 63 /\ forall b, JSeen b ∈ js -> block_wf b.

Definition finished (r : Result) (g : ghost) : Prop :=
  match r with
  | RFetch r => fetched r g
  | RSeen b r => r <> Crash /\ g_pending g = [] /\ (g_seer g = None \/ r = Fail ErrStorage /\ g_seer g = Some (b, true))
  | RAdded b r => r <> Crash /\ g = Fidle []
  | RRemoved r => g = Fidle []
  end.

Definition initial (js : list Job) (d : DB) (w : World) : config Indexer Action Result := (map start js, Initialize d w).

Lemma start_ok j : (forall b, j = JSeen b -> block_wf b) -> okp (start j) (ghost_of j) finished.
Proof using Type.
  intros Hj. destruct j as [fuel id|b|b|id]; cbn [start ghost_of]; apply ok_bind.
  - eapply ok_mono; [|apply Block_ok]. done.
  - eapply ok_mono; [|apply BlockSeen_ok, Hj; done]. done.
  - eapply ok_mono; [|apply BlockAdded_ok]. done.
  - eapply ok_mono; [|apply BlockRemoved_ok]. done.
Qed.

Lemma initial_ok js d w : jobs_ok js -> all_ok perform Inv label finished (initial js d w) (map ghost_of js).
Proof using Type.
  intros [Hn Hb]. assert (Hg : forall t g, map ghost_of js !! t = Some g -> g = Sstart \/ g = Fidle []).
  { intros t g Ht. rewrite list_lookup_fmap in Ht. destruct (js !! t) as [[]|]; simplify_eq/=; auto. }
  split.
  - split_and!.
    + split_and!; [split; try done; intros ? ?; by rewrite ?lookup_empty| |].
      * intros k. change (table (initial js d w).2) with (∅ : gmap bytes waitTableEntry). rewrite lookup_empty. cbn [from_option]. unfold total. clear Hn Hb Hg. induction js as [|j js IH]; [done|].
        cbn [map fold_right]. rewrite IH. by destruct j.
      * intros t g c ch [->| ->]%Hg Hw; done.
    + intros t g [->| ->]%Hg Hl; done.
    + split_and!; [done| |intros t g c ss b [->| ->]%Hg Hl; done]. cbn [seen initial Initialize snd].
      assert (todo (map ghost_of js) <= zlen js); [|lia]. unfold todo. clear Hn Hb Hg.
      induction js as [|j js IH]; [done|]. cbn [map fold_right]. rewrite zlen_cons. destruct j; cbn [ghost_of g_todo Sstart Fidle Fany]; lia.
    + intros t g Ht. split; intros; destruct (Hg t g Ht) as [->| ->]; try done; by eapply elem_of_nil.
  - cbn [initial fst]. apply Forall2_fmap, Forall_Forall2_diag, Forall_forall. intros j Hj. apply start_ok. intros b ->. by apply Hb.
Qed.

(** The invariant in every state a run reaches. *)
Lemma reached_ok js d w sch c : jobs_ok js -> run perform sch (initial js d w) = Some c ->
  exists gs, all_ok perform Inv label finished c gs.
Proof using Type. intros Hj Hr. by apply (run_ok perform Inv label finished sch (initial js d w) c (map ghost_of js)); [apply initial_ok|]. Qed.

(** What a goroutine that sleeps knows. *)
Lemma sleeping_entry (c : config Indexer Action Result) gs t coin ch k : all_ok perform Inv label finished c gs ->
  c.1 !! t = Some (Act (Select coin ch) k) -> exists g e, gs !! t = Some g /\ coin ∈ g_pending g
    /\ table c.2 !! txh coin = Some e /\ channel e = ch /\ (channelClosed e = true <-> ch ∈ closed c.2).
Proof using Type.
  intros [Hi Hf] Ht. destruct (Forall2_lookup_l _ _ _ _ _ Hf Ht) as (g & Hg & [[Hw _] _]). destruct Hi as ((T1 & _ & T3) & _).
  destruct (T3 t g coin ch Hg Hw) as (Hp & e & He & Hch). exists g, e. split_and!; try done. subst ch. apply (to_entry _ _ _ T1 _ _ He).
Qed.

(** A goroutine that has put the coin into the cache and is about to wake those who
    wait for it. *)
Definition waking (coin : bytes) (p : prog Action Result) : Prop :=
  match p with
  | Act a _ => match a with IncrSeen b | StoreSee b | WakeSeen b => created b coin | _ => False end
  | Done _ => False
  end.

(** A goroutine that has put the coin into the cache and then returned, because the
    block could not be stored: it wakes nobody. *)
Definition failed_to_store (coin : bytes) (p : prog Action Result) : Prop :=
  match p with
  | Done (RSeen b (Fail ErrStorage)) => created b coin
  | _ => False
  end.

Lemma seeing_waking (c : config Indexer Action Result) gs coin : all_ok perform Inv label finished c gs -> seeing true coin gs ->
  exists u p, c.1 !! u = Some p /\ (waking coin p \/ failed_to_store coin p).
Proof using Type.
  intros [_ Hf] (u & g & b & n & Hu & Hg & _ & Hc). destruct (Forall2_lookup_r _ _ _ _ _ Hf Hu) as (p & Hp & Ho). exists u, p. split; [done|].
  destruct p as [r|R a k].
  - destruct r as [r|b' r|b' r|r]; cbn [ok finished] in Ho.
    + destruct Ho as [Ho _]. congruence.
    + destruct Ho as (_ & _ & [Ho|[-> Ho]]); [congruence|]. rewrite Hg in Ho. injection Ho as -> ->. by right.
    + destruct Ho as [_ ->]. done.
    + subst g. done.
  - left. destruct Ho as [[_ Hl] _]. specialize (Hl b n Hg). destruct a; try done; by subst.
Qed.
End programs.

(** C11: whatever blocks are fetched, seen, added and removed at the same time,
    and however the goroutines are interleaved: seeing or adding a block never
    closes a channel twice, and a fetch never misses its entry in the wait table
    (the branch that returns with the lock held). *)
Theorem indexer_safe {K : SDK} {N : Node} {S : Storage} `{FloatConv} (client : Client) (js : list Job) (d : DB) (w : World)
    (sch : list (nat * nat)) (ths : list (prog Action Result)) (i : Indexer) :
  jobs_ok js -> run perform sch (initial client js d w) = Some (ths, i) ->
  forall t p, ths !! t = Some p ->
  match p with
  | Done (RSeen _ r) | Done (RAdded _ r) => r <> Crash
  | Done (RFetch (Fail (ErrNotInWaiter _))) => False
  | _ => True
  end.
Proof.
  intros Hj Hr t p Ht. destruct (reached_ok client js d w sch (ths, i) Hj Hr) as (gs & _ & Hf).
  destruct (Forall2_lookup_l _ _ _ _ _ Hf Ht) as (g & _ & Ho). destruct p as [r|]; [|done].
  destruct r as [r|b r|b r|r]; cbn [ok finished] in Ho; [|by destruct Ho|by destruct Ho|done].
  destruct Ho as [_ Ho]. destruct r as [|e| |]; try done. by destruct e.
Qed.

(** A goroutine that returned without an error that cuts a wait short. *)
Definition settled {K : SDK} {N : Node} {S : Storage} (p : prog Action Result) : bool :=
  match p with
  | Done (RFetch (Ret _)) | Done (RFetch (Fail ErrOrphanHead)) | Done (RSeen _ _) | Done (RAdded _ _) | Done (RRemoved _) => true
  | _ => false
  end.

(** C31: the wait table does not leak: when every goroutine has returned, and every
    fetch returned a block or an orphaned head, no entry is left. *)
Theorem wait_table_drained {K : SDK} {N : Node} {S : Storage} `{FloatConv} (client : Client) (js : list Job) (d : DB) (w : World)
    (sch : list (nat * nat)) (ths : list (prog Action Result)) (i : Indexer) :
  jobs_ok js -> run perform sch (initial client js d w) = Some (ths, i) -> forallb settled ths = true ->
  table i = ∅.
Proof.
  intros Hj Hr Hs. destruct (reached_ok client js d w sch (ths, i) Hj Hr) as (gs & Hi & Hf). cbn [fst snd] in *.
  destruct Hi as ((T1 & T2 & _) & _). assert (Hp : Forall (fun g => g_pending g = []) gs).
  { clear - Hs Hf. induction Hf as [|p g ths gs Ho _ IH]; [done|]. cbn [forallb] in Hs. apply andb_true_iff in Hs as [Hp Hs].
    constructor; [|auto]. destruct p as [[r|b r|b r|r]|]; cbn [ok finished] in Ho; try done.
    - destruct Ho as [_ Ho]. destruct r as [|[]| |]; try done; by destruct Ho as [l ->].
    - apply Ho.
    - by destruct Ho as [_ ->].
    - by subst. }
  assert (Ht : forall k, total k gs = 0).
  { intros k. unfold total. clear - Hp. induction Hp as [|g gs Hg _ IH]; [done|]. cbn [map fold_right]. rewrite IH. unfold cnt. by rewrite Hg. }
  apply map_empty. intros k. destruct (table i !! k) as [e|] eqn:E; [|done]. specialize (Ht k). rewrite T2, E in Ht. cbn in Ht.
  destruct (to_entry _ _ _ T1 k e E) as (_ & _ & Hl). lia.
Qed.

(** C7: no wakeup is lost: while a goroutine sleeps on an open channel for a coin
    that is in the cache, a [BlockSeen] of the block that created the coin is still
    running and has yet to wake it, or has returned the error of the storage, with
    which the syncer stops. *)
Theorem no_lost_wakeup {K : SDK} {N : Node} {S : Storage} `{FloatConv} (client : Client) (js : list Job) (d : DB) (w : World)
    (sch : list (nat * nat)) (ths : list (prog Action Result)) (i : Indexer) (t : nat) (coin : bytes) (ch : nat)
    (k : bool -> prog Action Result) :
  jobs_ok js -> run perform sch (initial client js d w) = Some (ths, i) ->
  ths !! t = Some (Act (Select coin ch) k) -> is_Some (coinCache i !! coin) -> ch ∉ closed i ->
  exists u p, ths !! u = Some p /\ (waking coin p \/ failed_to_store coin p).
Proof.
  intros Hj Hr Ht Hc Hcl. destruct (reached_ok client js d w sch (ths, i) Hj Hr) as (gs & Ha).
  destruct (sleeping_entry _ _ _ _ _ _ Ha Ht) as (g & e & Hg & Hp & He & Hch & Hiff). cbn [fst snd] in *.
  apply (seeing_waking (ths, i) gs coin Ha). destruct Ha as [(_ & _ & _ & Hw) _].
  apply (wl_wait _ _ _ (Hw t g Hg) coin e Hp He); [|done]. destruct (channelClosed e); [|done]. by destruct Hcl; apply Hiff.
Qed.

(** ** Waits end *)

(** What concerns the wait table: registrations, blocks that were seen, with the
    hashes of their transactions, and blocks that were added. *)
Inductive WaitEvent := EvRegister (txHash : bytes) (height : Z) | EvWake (txHashes : list bytes) | EvAbort (index : Z).

(** Whether these events end a wait for a transaction whose entry names a block: the
    transaction is seen, or the block before the earliest block that is registered
    for it is added. *)
Fixpoint ends (txHash : bytes) (earliest : Z) (evs : list WaitEvent) : bool :=
  match evs with
  | [] => false
  | EvRegister tx h :: evs => ends txHash (if bool_decide (tx = txHash) then Z.min earliest h else earliest) evs
  | EvWake txs :: evs => bool_decide (txHash ∈ txs) || ends txHash earliest evs
  | EvAbort n :: evs => (earliest =? i64 (n + 1)) || ends txHash earliest evs
  end.

Lemma ends_abort txHash earliest evs n :
  EvAbort n ∈ evs -> earliest = i64 (n + 1) -> (forall h, EvRegister txHash h ∈ evs -> earliest <= h) ->
  ends txHash earliest evs = true.
Proof.
  intros Hin He. induction evs as [|ev evs IH]; [by apply elem_of_nil in Hin|]. intros Hr.
  assert (EvAbort n ∈ evs -> ends txHash earliest evs = true) as Hrest
    by (intros Hn; apply IH; [done|intros h Hh; apply Hr; by right]).
  apply elem_of_cons in Hin as [<-|Hin]; cbn [ends]; [by rewrite He, Z.eqb_refl|].
  destruct ev as [tx h|txs|m]; [|by rewrite Hrest, orb_true_r..].
  case_bool_decide as Htx; [|by apply Hrest]. subst tx. rewrite Z.min_l; [by apply Hrest|]. apply Hr. left.
Qed.

Section events.
#[local] Set Default Proof Using "Type*".
Context {K : SDK} {N : Node} {S : Storage}.

Definition event {R} (a : Action R) : list WaitEvent :=
  match a with
  | Register tx h => [EvRegister tx h]
  | WakeSeen b => [EvWake (map rtx_Hash (rb_Transactions b))]
  | AbortWaits b => [EvAbort (bi_Index (rb_BlockIdentifier b))]
  | _ => []
  end.

Definition next_event (p : prog Action Result) : list WaitEvent := match p with Act a _ => event a | Done _ => [] end.

(** The events of a run, in their order. *)
Fixpoint trace (sch : list (nat * nat)) (c : config Indexer Action Result) : list WaitEvent :=
  match sch with
  | [] => []
  | (t, ch) :: sch =>
      from_option next_event [] (c.1 !! t)
      ++ match cstep perform t ch c with Some c => trace sch c | None => [] end
  end.

Lemma closeEntry_other k e a t c t' c' k' : closeEntry k e a t c = Ret (t', c') -> k' <> k -> t' !! k' = t !! k'.
Proof using Type. unfold closeEntry, waitTable_Set. case_match; [done|]. intros [= <- _] Hk. by rewrite lookup_insert_ne. Qed.

Lemma wakeSeen_other k txs : forall t c t' c', wakeSeen (K := K) txs t c = Ret (t', c') -> k ∉ map rtx_Hash txs -> t' !! k = t !! k.
Proof using Type.
  induction txs as [|tx txs IH]; intros t c t' c' Hw; cbn [wakeSeen map] in *; [by injection Hw as <- _|].
  intros [Hk Hks]%not_elem_of_cons. destruct (waitTable_Get _ t) as [e|]; [destruct (channelClosed e)|]; [by eapply IH| |by eapply IH].
  apply bindO_Ret in Hw as ([t1 c1] & Hc & Hw). by rewrite (IH t1 c1 t' c' Hw Hks), (closeEntry_other _ _ _ _ _ _ _ _ Hc Hk).
Qed.

Lemma abortWaits_other index k l : forall t c t' c', abortWaits index l t c = Ret (t', c') ->
  (forall e, (k, e) ∈ l -> earliestBlock e <> i64 (index + 1)) -> t' !! k = t !! k.
Proof using Type.
  induction l as [|[k1 e1] l IH]; intros t c t' c' Hw Hl; cbn [abortWaits] in Hw; [by injection Hw as <- _|].
  assert (forall e, (k, e) ∈ l -> earliestBlock e <> i64 (index + 1)) as Hl' by (intros e He; apply Hl; by right).
  destruct (_ && _) eqn:Hb; [|by eapply IH]. apply andb_true_iff in Hb as [Hb%Z.eqb_eq _].
  apply bindO_Ret in Hw as ([t2 c2] & Hc & Hw). rewrite (IH t2 c2 t' c' Hw Hl').
  apply (closeEntry_other _ _ _ _ _ _ _ _ Hc). intros ->. by apply (Hl e1); [left|].
Qed.

(** What an action does to an entry that stays in the table: exactly what its
    event says. *)
Lemma perform_entry {R} (x : Action R) choice i r i' k e e' evs : table_ok (nextChannel i) (table i) (closed i) ->
  perform R x choice i = Some (r, i') -> table i !! k = Some e -> table i' !! k = Some e' ->
  channelClosed e' || ends k (earliestBlock e') evs = channelClosed e || ends k (earliestBlock e) (event x ++ evs).
Proof using Type.
  intros Hok Hp He He'. assert (table i' = table i -> e' = e) as Hsame by (intros E; rewrite E, He in He'; by injection He').
  destruct x; cbn [perform event app ends] in *; try (injection Hp as <- <-; by rewrite Hsame);
    try (unfold changed in Hp; case_match; injection Hp as <- <-; by rewrite Hsame).
  - destruct (locked i); [done|]. injection Hp as <- <-. by rewrite Hsame.
  - destruct (register transactionHash height (table i) (nextChannel i)) as [tb n] eqn:E. injection Hp as <- <-.
    cbn [table set_channels] in He'. unfold register, waitTable_Get, waitTable_Set in E. case_bool_decide as Hk.
    + subst k. rewrite He in E. injection E as <- _. rewrite lookup_insert_eq in He'. injection He' as <-. cbn.
      do 2 f_equal. destruct (Z.gtb_spec (earliestBlock e) height); lia.
    + destruct (table i !! transactionHash); injection E as <- _; rewrite lookup_insert_ne in He' by done; congruence.
  - destruct (locked i); [done|]. injection Hp as <- <-. by rewrite Hsame.
  - destruct (Nat.odd choice); [injection Hp as <- <-; by rewrite Hsame|].
    destruct (bool_decide _); [injection Hp as <- <-; by rewrite Hsame|done].
  - destruct (locked i); [done|]. destruct (table i !! txHash) as [e0|] eqn:He0.
    + destruct (release_spec _ _ _ _ _ Hok He0) as (t' & Hr & _ & R2 & _). rewrite Hr in Hp. injection Hp as <- <-.
      destruct (R2 k e' He') as (e1 & He1 & _ & -> & ->). congruence.
    + unfold release, waitTable_Get in Hp. rewrite He0 in Hp. injection Hp as <- <-. by rewrite Hsame.
  - destruct (locked i); [done|]. destruct (wakeSeen_ok _ (rb_Transactions block) _ _ Hok) as (t' & c' & Hw & _ & Hc & Hin).
    rewrite Hw in Hp. cbn [closing] in Hp. injection Hp as <- <-. cbn [table set_channels] in He'. case_bool_decide as Hk.
    + rewrite (Hin k e'); [by rewrite orb_true_r|by apply list_elem_of_In|done].
    + rewrite (wakeSeen_other _ _ _ _ _ _ Hw Hk) in He'. cbn [orb]. congruence.
  - destruct (locked i); [done|]. destruct (abort_ok _ (bi_Index (rb_BlockIdentifier block)) _ _ Hok) as (t' & c' & Hw & _ & Hc & Hno).
    rewrite Hw in Hp. cbn [closing] in Hp. injection Hp as <- <-. cbn [table set_channels] in He'.
    destruct (Z.eqb_spec (earliestBlock e) (i64 (bi_Index (rb_BlockIdentifier block) + 1))) as [Hk|Hk]; cbn [orb].
    + rewrite orb_true_r. destruct (channelClosed e') eqn:Hcl; [done|]. exfalso. apply (Hno k e' He' Hcl).
      destruct (closes_inv _ _ _ _ Hc He') as (e0 & He0 & _ & _ & -> & _). congruence.
    + rewrite (abortWaits_other _ k _ _ _ _ _ Hw) in He'; [congruence|].
      intros e0 He0%elem_of_map_to_list. congruence.
Qed.

(** The entry of a goroutine that sleeps through a run. *)
Lemma run_entry t coin ch k sch : forall c c' gs e e', all_ok perform Inv label finished c gs ->
  run perform sch c = Some c' -> Forall (fun x => x.1 <> t) sch -> c.1 !! t = Some (Act (Select coin ch) k) ->
  table c.2 !! txh coin = Some e -> table c'.2 !! txh coin = Some e' ->
  channelClosed e' = channelClosed e || ends (txh coin) (earliestBlock e) (trace sch c).
Proof using Type.
  induction sch as [|[u x] sch IH]; intros c c' gs e e' Ha Hr Hs Ht He He'; cbn [run trace] in *.
  { injection Hr as <-. cbn [ends]. rewrite orb_false_r. congruence. }
  inversion_clear Hs as [|? ? Hu Hs']. cbn [fst] in Hu. destruct (cstep perform u x c) as [c1|] eqn:Hc; [|done].
  destruct (cstep_ok perform Inv label finished u x c c1 gs Ha Hc) as [gs1 Ha1].
  assert (c1.1 !! t = Some (Act (Select coin ch) k)) as Ht1.
  { rewrite <- Ht. apply (run_other perform [(u, x)] t c c1); [by cbn [run]; rewrite Hc|by repeat constructor]. }
  destruct (sleeping_entry _ _ _ _ _ _ Ha1 Ht1) as (_ & e1 & _ & _ & He1 & _).
  rewrite (IH c1 c' gs1 e1 e' Ha1 Hr Hs' Ht1 He1 He'). destruct Ha as [((T1 & _) & _) _].
  unfold cstep in Hc. destruct (c.1 !! u) as [[r|R act q]|] eqn:Eu; [done| |done]. cbn [step1] in Hc.
  destruct (perform R act x c.2) as [[r i']|] eqn:Hp; [|done]. injection Hc as <-.
  cbn [from_option next_event]. exact (perform_entry act x c.2 r i' (txh coin) e e1 _ T1 Hp He He1).
Qed.
End events.

(** C8: waits end.  While a goroutine sleeps on the channel of its entry, whatever the
    others do meanwhile, it can run exactly if the channel was closed before, or since
    then its transaction was seen in a block, or the block was added that comes before
    the earliest block registered for the transaction.  So it can run at the latest when
    the block before the one of its entry has been added while it slept, unless
    meanwhile another goroutine registered for the same transaction with an earlier
    block.  (One that registers when the block before is already added is not woken
    by that: [late_registration_sleeps].) *)
Theorem waits_end {K : SDK} {N : Node} {S : Storage} `{FloatConv} (client : Client) (js : list Job) (d : DB) (w : World)
    (s1 s2 : list (nat * nat)) (c1 c2 : config Indexer Action Result) (t : nat) (coin : bytes) (ch : nat)
    (k : bool -> prog Action Result) (e : waitTableEntry) :
  jobs_ok js -> run perform s1 (initial client js d w) = Some c1 -> run perform s2 c1 = Some c2 ->
  c1.1 !! t = Some (Act (Select coin ch) k) -> Forall (fun x => x.1 <> t) s2 -> table c1.2 !! txh coin = Some e ->
  let runs := exists c3, cstep perform t 0 c2 = Some c3 /\ c3.1 !! t = Some (k true) in
  (runs <-> channelClosed e = true \/ ends (txh coin) (earliestBlock e) (trace s2 c1) = true)
  /\ (forall n, EvAbort n ∈ trace s2 c1 -> earliestBlock e = i64 (n + 1) ->
      (forall h, EvRegister (txh coin) h ∈ trace s2 c1 -> earliestBlock e <= h) -> runs).
Proof.
  intros Hj R1 R2 T1 Hs He runs. destruct (reached_ok client js d w s1 c1 Hj R1) as [gs1 Ha1].
  destruct (run_ok perform Inv label finished s2 _ c2 _ Ha1 R2) as [gs2 Ha2].
  assert (T2 : c2.1 !! t = Some (Act (Select coin ch) k)) by (by rewrite (run_other perform s2 t c1 c2 R2 Hs)).
  destruct (sleeping_entry _ _ _ _ _ _ Ha2 T2) as (g2 & e2 & _ & _ & He2 & Hch2 & Hiff).
  assert (Hrun : runs <-> ch ∈ closed c2.2).
  { unfold runs, cstep. rewrite T2. cbn [step1 perform Nat.odd Nat.even negb]. split.
    - intros (c3 & Hc & _). by destruct (bool_decide_reflect (ch ∈ closed c2.2)).
    - intros Hc. rewrite bool_decide_eq_true_2 by done. eexists. split; [reflexivity|]. cbn [fst].
      apply list_lookup_insert_eq. by eapply lookup_lt_Some. }
  pose proof (run_entry t coin ch k s2 c1 c2 gs1 e e2 Ha1 R2 Hs T1 He He2) as Hent.
  assert (Hex : runs <-> channelClosed e = true \/ ends (txh coin) (earliestBlock e) (trace s2 c1) = true)
    by (by rewrite Hrun, <- Hiff, Hent, orb_true_iff).
  split; [exact Hex|]. intros n Hn Hne Hreg. apply Hex. right. by apply (ends_abort _ _ _ n).
Qed.

(** ** Runs

    Block 7 of [sample_block] spends a coin of block 6.  The storage is a list of
    blocks, the last one first. *)

Definition chain_coin (blocks : list (RBlock (@JsonMap toy_sdk))) (id : bytes) : CoinResult :=
  match addCreated (concat (map block_ops blocks)) ∅ !! id with
  | Some ac => CoinFound (ac_Coin ac) (ac_Account ac)
  | None => CoinNotFound
  end.

#[export] Instance toy_storage : Storage (K := toy_sdk) := {
  DB := list (RBlock (@JsonMap toy_sdk));
  GetHeadBlockIdentifier _ d := match d with b :: _ => HeadFound (rb_BlockIdentifier b) | [] => HeadNotFound end;
  GetCoin _ := chain_coin;
  AddBlock _ b d := Some (b :: d);
  SeeBlock _ b d := Some d;
  RemoveBlock _ _ d := Some (tail d);
  FindTransaction _ d h := Some (head (List.filter (fun t => bool_decide (rtx_Hash t = h)) (concat (map rb_Transactions d))));
  GetBlockLazy _ d _ :=
    (fun b => mkBlockResponse (mkRBlock (rb_BlockIdentifier b) (rb_ParentBlockIdentifier b) (rb_Timestamp b) [] (rb_Metadata b))
       (map rtx_Hash (rb_Transactions b))) <$> head d;
  GetBlockTransaction _ d _ h := head (List.filter (fun t => bool_decide (rtx_Hash t = h)) (concat (map rb_Transactions d)));
  GetCoins _ d a :=
    match d with
    | b :: _ => Some (map (fun x => ac_Coin x.2) (List.filter (fun x => bool_decide (ac_Account x.2 = Some a))
                  (map_to_list (addCreated (concat (map block_ops d)) ∅))), rb_BlockIdentifier b)
    | [] => None
    end;
  GetBalanceAt _ _ _ _ _ := AccountMissing;
  types_Hash := bi_Hash;
  types_HashCurrency := cur_Symbol;
  AddValues a b := if bool_decide (toy_negate a = Some b) then Some (str "0") else None;
  UnmarshalOperationMetadata j := match j with Some (inl (inl (inr m))) => Some m | _ => None end;
  asserter_Block _ := true }.

#[local] Notation TBlock := (RBlock (@JsonMap toy_sdk)).

Definition sample_id (n c : Z) : BlockIdentifier := mkBlockIdentifier n (sample_hash c).

Definition sample_create : Operation (@JsonMap toy_sdk) :=
  mkOperation (mkOperationIdentifier 0 (Some 3)) OutputOpType (Some SuccessStatus) (Some (mkAccountIdentifier (str "owner")))
    (Some (mkAmount (FormatInt 100000000) (currency sample_client)))
    (Some (mkCoinChange (CoinIdentifier (sample_hash 48) 3) CoinCreated)) None.

Definition block5 : TBlock := mkRBlock (sample_id 5 53) (sample_id 4 52) 0 [] None.
Definition block6 : TBlock := mkRBlock (sample_id 6 97) (sample_id 5 53) 0 [mkRTransaction (sample_hash 48) [sample_create] None] None.
(** A block of another chain. *)
Definition block6' : TBlock := mkRBlock (sample_id 6 99) (sample_id 5 53) 0 [] None.

#[local] Instance sample_node : Node := toy_node sample_block.

Definition sample_jobs : list (Job (K := toy_sdk)) := [JFetch 3 None; JSeen block6; JAdded block6].

Definition sample_initial : config Indexer Action Result :=
  initial sample_client sample_jobs [block5] tt.

Lemma sample_jobs_ok : jobs_ok sample_jobs.
Proof.
  split; [vm_compute; congruence|]. intros b Hb. repeat (apply elem_of_cons in Hb as [Hb|Hb]; [try discriminate Hb|]); [|by apply elem_of_nil in Hb].
  injection Hb as ->. intros c (op & ac & Hop & Hc). destruct Hop as [<-|[]]. injection Hc as <- <-. by left.
Qed.

(** The fetch registers and sleeps; the block it waits for is seen, the fetch goes
    on and returns, and the block is added. *)
Definition sleep_sched : list (nat * nat) := replicate 13 (0, 0)%nat.
Definition full_sched : list (nat * nat) := sleep_sched ++ replicate 5 (1, 0)%nat ++ replicate 7 (0, 0)%nat ++ replicate 3 (2, 0)%nat.

Definition sample_run (sch : list (nat * nat)) : option (config Indexer Action Result) := run perform sch sample_initial.

Definition is_Ret_fetch (p : prog Action (Result (K := toy_sdk))) : bool :=
  match p with Done (RFetch (Ret _)) => true | _ => false end.

Example full_run : match sample_run full_sched with
  | Some (ths, i) => forallb settled ths && from_option is_Ret_fetch false (ths !! 0%nat)
  | None => false
  end = true.
Proof. vm_compute. reflexivity. Qed.

(** The sleep of a program. *)
Definition next_select {K : SDK} {N : Node} {S : Storage} (p : prog Action Result) : option (bytes * nat) :=
  match p with Act a _ => match a with Select c ch => Some (c, ch) | _ => None end | Done _ => None end.

Lemma next_select_eq {K : SDK} {N : Node} {S : Storage} (p : prog Action Result) c ch : next_select p = Some (c, ch) ->
  exists k, p = Act (Select c ch) k.
Proof. destruct p as [r|R a k]; [done|]. destruct a; try done. intros [= -> ->]. by exists k. Qed.

Definition sample_coin : bytes := CoinIdentifier (sample_hash 48) 3.

(** What a run of the sample shows of its last state. *)
Lemma sample_reached {A} (f : config Indexer Action Result -> A) sch a :
  match sample_run sch with Some c => Some (f c) | None => None end = Some a ->
  exists ths i, sample_run sch = Some (ths, i) /\ f (ths, i) = a.
Proof. destruct (sample_run sch) as [[ths i]|]; [|done]. intros [= <-]. by exists ths, i. Qed.

Lemma indexer_safe_witness : exists ths i, sample_run full_sched = Some (ths, i)
  /\ forall t p, ths !! t = Some p ->
     match p with Done (RSeen _ r) | Done (RAdded _ r) => r <> Crash | Done (RFetch (Fail (ErrNotInWaiter _))) => False | _ => True end.
Proof.
  destruct (sample_reached (fun c => length c.1) full_sched 3%nat) as (ths & i & Hr & _); [vm_compute; reflexivity|].
  exists ths, i. split; [exact Hr|].
  exact (indexer_safe sample_client sample_jobs [block5] tt full_sched ths i sample_jobs_ok Hr).
Defined.

Lemma wait_table_drained_witness : exists ths i, sample_run full_sched = Some (ths, i) /\ table i = ∅.
Proof.
  destruct (sample_reached (fun c => forallb settled c.1) full_sched true) as (ths & i & Hr & Hs); [vm_compute; reflexivity|].
  exists ths, i. split; [exact Hr|].
  exact (wait_table_drained sample_client sample_jobs [block5] tt full_sched ths i sample_jobs_ok Hr Hs).
Defined.

Lemma no_lost_wakeup_witness : exists ths i u p, sample_run (sleep_sched ++ replicate 2 (1, 0)%nat) = Some (ths, i)
  /\ ths !! u = Some p /\ (waking sample_coin p \/ failed_to_store sample_coin p).
Proof.
  destruct (sample_reached (fun c => (from_option next_select None (c.1 !! 0%nat), bool_decide (is_Some (coinCache c.2 !! sample_coin)),
    bool_decide (0%nat ∈ closed c.2))) (sleep_sched ++ replicate 2 (1, 0)%nat) (Some (sample_coin, 0%nat), true, false))
    as (ths & i & Hr & Hs); [vm_compute; reflexivity|].
  cbn [fst snd] in Hs. injection Hs as Ht Hc Hn. apply bool_decide_eq_true in Hc. apply bool_decide_eq_false in Hn.
  destruct (ths !! 0%nat) as [p|] eqn:E; [|discriminate Ht]. apply next_select_eq in Ht as [k ->].
  destruct (no_lost_wakeup (N := sample_node) (S := toy_storage) sample_client sample_jobs [block5] tt _ ths i 0 sample_coin 0 k sample_jobs_ok Hr E Hc Hn) as (u & p & Hu & Hp).
  exists ths, i, u, p. split; [exact Hr|]. split; [exact Hu|exact Hp].
Defined.

Lemma no_registration tx h n : EvRegister tx h ∈ [EvAbort n] -> False.
Proof. intros [Hh|Hh]%elem_of_cons; [done|by apply elem_of_nil in Hh]. Qed.

Lemma waits_end_witness : exists c2 c3 : config Indexer Action Result,
  sample_run (sleep_sched ++ replicate 3 (2, 0)%nat) = Some c2 /\ cstep perform 0 0 c2 = Some c3.
Proof.
  destruct (sample_reached (fun c => (from_option next_select None (c.1 !! 0%nat), table c.2 !! txh sample_coin,
      trace (replicate 3 (2, 0)%nat) c)) sleep_sched
    (Some (sample_coin, 0%nat), Some (mkWaitTableEntry 1 0 false false 7), [EvAbort 6])) as (ths & i & Hr & Hs); [vm_compute; reflexivity|].
  pose proof (f_equal snd Hs) as Htr. cbn [fst snd] in Hs, Htr. injection Hs as Ht He _.
  destruct (ths !! 0%nat) as [p|] eqn:E; [|discriminate Ht]. apply next_select_eq in Ht as [k ->].
  destruct (sample_reached (fun c => length c.1) (sleep_sched ++ replicate 3 (2, 0)%nat) 3%nat) as (ths2 & i2 & Hr2 & _); [vm_compute; reflexivity|].
  exists (ths2, i2). pose proof Hr2 as Hr3. unfold sample_run in Hr, Hr2. rewrite run_app, Hr in Hr2.
  destruct (waits_end (N := sample_node) (S := toy_storage) sample_client sample_jobs [block5] tt sleep_sched (replicate 3 (2, 0)%nat) (ths, i) (ths2, i2) 0 sample_coin 0 k
    (mkWaitTableEntry 1 0 false false 7) sample_jobs_ok Hr Hr2 E) as [_ Hw]; [repeat constructor; cbn; lia|exact He|].
  destruct (Hw 6) as (c3 & Hc3 & _).
  - rewrite Htr. left.
  - reflexivity.
  - intros h Hh. rewrite Htr in Hh. destruct (no_registration _ _ _ Hh).
  - exists c3. split; [exact Hr3|exact Hc3].
Defined.

(** ** Two runs that end badly

    A block of another chain is added between the check of the header and the
    registration: the fetch of block 7 registers when the waits for block 7 have
    already been aborted, and sleeps although nothing else will run. *)
Definition late_jobs : list (Job (K := toy_sdk)) := [JFetch 3 None; JAdded block6'].
Definition late_sched : list (nat * nat) := replicate 3 (0, 0)%nat ++ replicate 3 (1, 0)%nat ++ replicate 10 (0, 0)%nat.

Example late_registration_sleeps :
  match run perform late_sched (initial (N := sample_node) (S := toy_storage) sample_client late_jobs [block5] tt) with
  | Some (ths, i) =>
      (from_option next_select None (ths !! 0%nat), from_option settled false (ths !! 1%nat), bool_decide (0%nat ∈ closed i),
       table i !! txh sample_coin)
  | None => (None, false, true, None)
  end = (Some (sample_coin, 0%nat), true, false, Some (mkWaitTableEntry 1 0 false false 7)).
Proof. vm_compute. reflexivity. Qed.

(** A fetch whose context is cancelled before the node was asked has no block, and
    the check of the header reads its height. *)
Example cancelled_fetch_panics :
  match run perform [(0, 1); (0, 0)]%nat (initial (N := sample_node) (S := toy_storage) sample_client late_jobs [block5] tt) with
  | Some (ths, _) => match ths !! 0%nat with Some (Done (RFetch Crash)) => true | _ => false end
  | None => false
  end = true.
Proof. vm_compute. reflexivity. Qed.
