(* ===== verification/IndexerQuery.v ===== *)
(** The queries of the indexer: the scripts it finds for coins are those of the
    blocks the client parsed. *)

From S2P Require Import Prelude Digits Rosetta Hash Crypto Coins Float64 Amount Client ClientFacts Threads Indexer IndexerFacts IndexerThms.

(** Metadata is read back as it was marshalled, and opposite values cancel. *)
Class QueryLaws {K : SDK} (S : Storage) : Prop := {
  ql_metadata m j : MarshalOperationMetadata m = Some j -> UnmarshalOperationMetadata (Some j) = Some m;
  ql_add z : AddValues (FormatInt z) (FormatInt (- z)) = Some (str "0") }.

Section query.
#[local] Set Default Proof Using "Type*".
Context {K : SDK} {S : Storage} {Q : QueryLaws S} `{FloatConv}.

Lemma scriptOf_inputs opsI ops j coin : Forall (fun op : Operation JsonMap => op_Type op <> OutputOpType) opsI ->
  scriptOf (opsI ++ ops) j coin = scriptOf ops j coin.
Proof using Type.
  induction 1 as [|op opsI Hop _ IH]; [done|]. cbn [scriptOf app]. by rewrite bool_decide_eq_false_2 by done.
Qed.

(** The operation of output [n] is the one that is used. *)
Lemma scriptOf_outputs client txHash index outs : forall i opsO n output v spk cur,
  related (output_rel client txHash index) i outs opsO -> outs !! n = Some output ->
  parseAmount (out_Value output) = Ret v -> out_ScriptPubKey output = Some spk -> cur = currency client ->
  scriptOf opsO (i + Z.of_nat n) (mkCoin (CoinIdentifier txHash (i + Z.of_nat n)) (Some (mkAmount (FormatInt (- v)) cur))) = Ret (Some spk).
Proof.
  induction outs as [|o outs IH]; intros i [|op opsO] n output v spk cur Hr Ho Hv Hspk ->; try done.
  destruct Hr as [[(Hty & (md & Hmd & Hop) & v' & spk' & Hv' & _ & Hs' & Ham & _) [Hid _]] Hr].
  cbn [scriptOf]. rewrite Hty, bool_decide_eq_true_2 by done. cbn [negb]. rewrite Hid. cbn [op_position oi_NetworkIndex orCrash bindO].
  destruct n as [|n].
  - injection Ho as ->. rewrite Z.add_0_r, Z.eqb_refl. cbn [negb]. rewrite Hop, (ql_metadata _ _ Hmd), Ham.
    cbn [orCrash bindO coin_Amount amt_Currency amt_Value]. rewrite bool_decide_eq_true_2 by done. cbn [negb].
    assert (v' = v) as -> by congruence. rewrite ql_add, bool_decide_eq_true_2 by done. cbn [negb om_ScriptPubKey]. congruence.
  - rewrite (proj2 (Z.eqb_neq _ _)) by lia. cbn [negb]. replace (i + Z.of_nat (Datatypes.S n)) with (i + 1 + Z.of_nat n) by lia.
    by apply (IH (i + 1) opsO n output v spk).
Qed.

(** A coin that an output of a parsed block made, as an input spends it; the
    storage has the transactions of the block. *)
Definition stored (choice : nat) (d : DB) (coin : Coin) (spk : ScriptPubKey) : Prop :=
  exists client block coins coins' rb k tx n output h v,
    ParseBlock client (Some block) coins = (Ret rb, coins') /\ b_Txs block !! k = Some tx /\ t_Outputs tx !! n = Some output
    /\ t_Hash tx = Hash_String h /\ zlen h = 32 /\ Z.of_nat n < 2 ^ 32
    /\ parseAmount (out_Value output) = Ret v /\ out_ScriptPubKey output = Some spk
    /\ FindTransaction choice d (t_Hash tx) = Some (rb_Transactions rb !! k)
    /\ coin = mkCoin (CoinIdentifier (t_Hash tx) (Z.of_nat n)) (Some (mkAmount (FormatInt (- v)) (currency client))).

Lemma stored_script choice d coin spk coins : stored choice d coin spk ->
  Indexer_GetScriptPubKeys choice d (coin :: coins)
  = let! scripts := Indexer_GetScriptPubKeys choice d coins in Ret (Some spk :: scripts).
Proof.
  intros (client & block & cs & cs' & rb & k & tx & n & output & h & v & Hp & Htx & Ho & Hh & Hl & Hn & Hv & Hs & Hf & ->).
  unfold ParseBlock in Hp. apply bindM_Ret in Hp as (rb0 & s1 & Hd & Hp). injection Hd as _ <-.
  apply bindM_Ret in Hp as (txs & s2 & Ht & Hp). injection Hp as <- _. cbn [rb_Transactions] in Hf.
  apply parseTransactionsLoop_spec in Ht as (_ & _ & Hk). destruct (Hk k tx Htx) as (rtx & Hr & _ & opsI & opsO & Eops & HI & HO).
  cbn [Indexer_GetScriptPubKeys coin_CoinIdentifier]. rewrite Hh, ParseCoinIdentifier_eq by (done || lia). rewrite <- Hh, Hf, Hr, Eops.
  rewrite scriptOf_inputs.
  - pose proof (scriptOf_outputs client _ _ _ 0 opsO n output v spk _ HO Ho Hv Hs eq_refl) as Hsc. rewrite Z.add_0_l in Hsc. by rewrite Hsc.
  - eapply related_Forall; [|exact HI]. intros j i op [Hio _] Hty. unfold input_op in Hio.
    destruct (thoughtIsCoinbaseInput i _ j); destruct Hio as [Hio _]; rewrite Hio in Hty; discriminate Hty.
Qed.
End query.

(** C30: the scripts the construction endpoints sign against are those of the
    blocks: for coins that outputs of parsed and stored blocks made, each given
    with its amount negated as an input spends it, GetScriptPubKeys returns the
    locking scripts of these outputs. *)
Theorem GetScriptPubKeys_stored {K : SDK} {S : Storage} {Q : QueryLaws S} `{FloatConv} (choice : nat) (d : DB)
    (coins : list Coin) (spks : list ScriptPubKey) :
  Forall2 (stored choice d) coins spks -> Indexer_GetScriptPubKeys choice d coins = Ret (map Some spks).
Proof. induction 1 as [|coin spk coins spks Hc _ IH]; [done|]. by rewrite (stored_script choice d coin spk coins Hc), IH. Qed.

#[export] Instance toy_query : QueryLaws toy_storage.
Proof.
  split.
  - intros m j [= <-]. reflexivity.
  - intros z. cbn [AddValues toy_storage]. rewrite bool_decide_eq_true_2; [done|]. exact (negate_int z).
Qed.

Definition hex_hash (c : Z) : bytes := Hash_String (replicate 32 (z2b c)).

Definition stored_block : Block :=
  mkBlock (hex_hash 98) 7 (hex_hash 97) 1600000000 0 0 [] 2 0 0 [] (of_int64 1) []
    [sample_tx (hex_hash 49) [mkInput [] 0 None 0 [] (str "0a")] [sample_output 5000000000; sample_output 70000000]].

Definition parsed_block : option (RBlock (@JsonMap toy_sdk)) :=
  match (ParseBlock sample_client (Some stored_block) ∅).1 with Ret rb => Some rb | _ => None end.

Lemma GetScriptPubKeys_stored_witness : exists d : list (RBlock (@JsonMap toy_sdk)),
  Indexer_GetScriptPubKeys (S := toy_storage) 0 d
    [mkCoin (CoinIdentifier (hex_hash 49) 1) (Some (mkAmount (FormatInt (- 70000000)) (currency sample_client)))]
  = Ret [Some sample_script].
Proof.
  assert (Hok : returned (ParseBlock (K := toy_sdk) sample_client (Some stored_block) ∅).1 = true) by (vm_compute; reflexivity).
  destruct (ParseBlock (K := toy_sdk) sample_client (Some stored_block) ∅) as [[rb|e| |] coins'] eqn:E; try discriminate Hok.
  exists [rb]. apply (GetScriptPubKeys_stored (S := toy_storage) 0 [rb] _ [sample_script]). constructor; [|constructor].
  exists sample_client, stored_block, ∅, coins', rb, 0%nat, (sample_tx (hex_hash 49) [mkInput [] 0 None 0 [] (str "0a")] [sample_output 5000000000; sample_output 70000000]),
    1%nat, (sample_output 70000000), (replicate 32 (z2b 49)), 70000000.
  split; [exact E|]. split; [reflexivity|]. split; [reflexivity|]. split; [reflexivity|]. split; [reflexivity|]. split; [vm_compute; reflexivity|].
  split; [vm_compute; reflexivity|]. split; [reflexivity|]. split; [|reflexivity].
  assert (Hf : match (ParseBlock (K := toy_sdk) sample_client (Some stored_block) ∅).1 with
    | Ret rb => (map rtx_Hash (rb_Transactions rb))
    | _ => [] end = [hex_hash 49]) by (vm_compute; reflexivity).
  rewrite E in Hf. cbn [fst] in Hf. cbn [FindTransaction toy_storage map concat t_Hash sample_tx]. rewrite app_nil_r.
  destruct (rb_Transactions rb) as [|r [|r' l]]; try discriminate Hf. injection Hf as Hf. 
  assert (Hb : bool_decide (rtx_Hash r = hex_hash 49) = true) by (apply bool_decide_eq_true_2; exact Hf).
  unfold List.filter. rewrite Hb. reflexivity.
Defined.

(** ** What the client hands to the indexer *)

Lemma txh_CoinIdentifier h j : no_colon h -> txh (CoinIdentifier h j) = h.
Proof. intros Hh. unfold txh, TransactionHash, CoinIdentifier. by rewrite Split_app. Qed.

Section typed.
#[local] Set Default Proof Using "Type*".
Context {K : SDK} `{FloatConv} (client : Client).

(** Inputs create nothing, outputs only coins of their transaction. *)
Lemma mirrors_created coins txIndex tx rtx : mirrors client coins txIndex tx rtx ->
  forall op c ac, In op (rtx_Operations rtx) -> created_coin op = Some (c, ac) -> exists j, c = CoinIdentifier (t_Hash tx) j.
Proof using Type.
  intros (_ & opsI & opsO & -> & HI & HO) op c ac Hop Hc. apply in_app_or in Hop as [Hop|Hop].
  - assert (Forall (fun op => created_coin op = None) opsI) as HF.
    { eapply related_Forall; [|exact HI]. intros j i o [Hio _]. unfold input_op in Hio. unfold created_coin.
      destruct (thoughtIsCoinbaseInput _ _ _); [by destruct Hio as (_ & _ & _ & ->)|by destruct Hio as (_ & -> & _)]. }
    rewrite Forall_forall in HF. rewrite HF in Hc by (by apply list_elem_of_In). done.
  - assert (Forall (fun op => forall c ac, created_coin op = Some (c, ac) -> exists j, c = CoinIdentifier (t_Hash tx) j) opsO) as HF.
    { eapply related_Forall; [|exact HO]. intros j o op' [(_ & _ & n & spk & _ & _ & _ & _ & _ & _ & Hcc) _] c' ac'. unfold created_coin. rewrite Hcc.
      destruct (bool_decide _); [done|]. intros [= <- _]. by exists j. }
    rewrite Forall_forall in HF. by eapply HF; [apply list_elem_of_In|].
Qed.
End typed.

(** C29: what the client parses is what the indexer expects: every coin a parsed
    block creates is named after one of its transactions, so that the goroutines
    that wait for the coin are woken when the block is seen. *)
Theorem ParseBlock_typed {K : SDK} `{FloatConv} (client : Client) (block : Block) (coins coins' : gmap bytes AccountCoin)
    (rb : RBlock JsonMap) :
  Forall (fun tx => no_colon (t_Hash tx)) (b_Txs block) -> ParseBlock client (Some block) coins = (Ret rb, coins') ->
  block_wf rb /\ map rtx_Hash (rb_Transactions rb) = map t_Hash (b_Txs block).
Proof.
  intros Hnc Hp. unfold ParseBlock in Hp. apply bindM_Ret in Hp as (rb0 & s1 & Hd & Hp). injection Hd as _ <-.
  apply bindM_Ret in Hp as (txs & s2 & Ht & Hp). injection Hp as <- _. cbn [parseTransactions] in Ht.
  apply parseTransactionsLoop_spec in Ht as (_ & Hl & Hk). cbn [rb_Transactions].
  assert (Hh : map rtx_Hash txs = map t_Hash (b_Txs block)).
  { apply list_eq. intros k. rewrite !list_lookup_fmap. destruct (b_Txs block !! k) as [tx|] eqn:E.
    - destruct (Hk k tx E) as (rtx & -> & Hr & _). cbn. by rewrite Hr.
    - apply lookup_ge_None in E. rewrite (proj2 (lookup_ge_None txs k)) by lia. done. }
  split; [|done]. intros c (op & ac & Hop & Hc). unfold block_ops in Hop. cbn [rb_Transactions] in Hop.
  apply in_concat in Hop as (ops & Hops & Hop). apply in_map_iff in Hops as (rtx & <- & Hr). apply list_elem_of_In, list_elem_of_lookup in Hr as [k Hr].
  destruct (b_Txs block !! k) as [tx|] eqn:E; [|apply lookup_ge_None in E; apply lookup_lt_Some in Hr; lia].
  destruct (Hk k tx E) as (rtx' & Hr' & Hm). rewrite Hr in Hr'. injection Hr' as <-.
  destruct (mirrors_created client _ _ _ _ Hm op c ac Hop Hc) as [j ->]. rewrite Forall_lookup in Hnc.
  rewrite txh_CoinIdentifier by (by eapply Hnc). cbn [rb_Transactions]. rewrite Hh. apply in_map, list_elem_of_In. by eapply list_elem_of_lookup_2.
Qed.

Lemma ParseBlock_typed_witness : exists rb coins', ParseBlock (K := toy_sdk) sample_client (Some sample_block) sample_coins = (Ret rb, coins')
  /\ block_wf rb.
Proof.
  assert (Hok : returned (ParseBlock (K := toy_sdk) sample_client (Some sample_block) sample_coins).1 = true) by (vm_compute; reflexivity).
  destruct (ParseBlock (K := toy_sdk) sample_client (Some sample_block) sample_coins) as [[rb|e| |] coins'] eqn:E; try discriminate Hok.
  exists rb, coins'. split; [reflexivity|].
  apply (ParseBlock_typed (K := toy_sdk) sample_client sample_block sample_coins coins' rb); [|exact E].
  repeat constructor; vm_compute; congruence.
Defined.
