(* ===== verification/Services.v ===== *)
(** The other endpoints: services/account_service.go, block_service.go,
    mempool_service.go, network_service.go, the table of errors of
    services/errors.go, and the scripts the construction endpoints get from the
    indexer. *)

From S2P Require Import Prelude Crypto Digits Hash Rosetta Coins Float64 Amount Client ClientFacts Config Construction Threads Indexer IndexerFacts IndexerThms IndexerQuery.

(** ** services/errors.go *)

Record ServiceError := mkServiceError { se_Code : Z; se_Message : bytes; se_Retriable : bool }.

Definition error_of (e : ServiceErr) : ServiceError :=
  match e with
  | ErrUnimplemented => mkServiceError 0 (str "Endpoint not implemented") false
  | ErrUnavailableOffline => mkServiceError 1 (str "Endpoint unavailable offline") false
  | ErrNotReady => mkServiceError 2 (str "Thoughtd is not ready") true
  | ErrThoughtd => mkServiceError 3 (str "Thoughtd error") false
  | ErrBlockNotIndexed => mkServiceError 4 (str "Block not found") false
  | ErrUnableToDerive => mkServiceError 5 (str "Unable to derive address") false
  | ErrUnclearIntent => mkServiceError 6 (str "Unable to parse intent") false
  | ErrUnableToParseIntermediateResult => mkServiceError 7 (str "Unable to parse intermediate result") false
  | ErrScriptPubKeysMissing => mkServiceError 8 (str "Missing ScriptPubKeys") false
  | ErrInvalidCoin => mkServiceError 9 (str "Coin is invalid") false
  | ErrUnableToDecodeAddress => mkServiceError 10 (str "Unable to decode address") false
  | ErrUnableToDecodeScriptPubKey => mkServiceError 11 (str "Unable to decode ScriptPubKey") false
  | ErrUnableToCalculateSignatureHash => mkServiceError 12 (str "Unable to calculate signature hash") false
  | ErrUnsupportedScriptType => mkServiceError 13 (str "Script type is not supported") false
  | ErrUnableToComputePkScript => mkServiceError 14 (str "Unable to compute PK script") false
  | ErrUnableToGetCoins => mkServiceError 15 (str "Unable to get coins") false
  | ErrTransactionNotFound => mkServiceError 16 (str "Transaction not found") false
  | ErrCouldNotGetFeeRate => mkServiceError 17 (str "Could not get suggested fee rate") false
  | ErrUnableToGetBalance => mkServiceError 18 (str "Unable to get balance") false
  end.

Definition Errors : list ServiceErr :=
  [ErrUnimplemented; ErrUnavailableOffline; ErrNotReady; ErrThoughtd; ErrBlockNotIndexed; ErrUnableToDerive; ErrUnclearIntent;
   ErrUnableToParseIntermediateResult; ErrScriptPubKeysMissing; ErrInvalidCoin; ErrUnableToDecodeAddress;
   ErrUnableToDecodeScriptPubKey; ErrUnableToCalculateSignatureHash; ErrUnsupportedScriptType; ErrUnableToComputePkScript;
   ErrUnableToGetCoins; ErrTransactionNotFound; ErrCouldNotGetFeeRate; ErrUnableToGetBalance].

(** The table lists every error at the position of its code. *)
Lemma Errors_codes e : Errors !! Z.to_nat (se_Code (error_of e)) = Some e.
Proof. by destruct e. Qed.

Notation inlineFetchLimit := 100 (only parsing).
Definition NodeVersion : bytes := str "0.18.2".
Definition MiddlewareVersion : bytes := str "0.0.9".

Record OperationStatus := mkOperationStatus { os_Status : bytes; os_Successful : bool }.
Definition OperationTypes : list bytes := [InputOpType; OutputOpType; CoinbaseOpType].
Definition OperationStatuses : list OperationStatus :=
  [mkOperationStatus SuccessStatus true; mkOperationStatus SkippedStatus false].

Record NetworkOptionsResponse := mkNetworkOptionsResponse {
  no_NodeVersion : bytes; no_MiddlewareVersion : bytes; no_OperationStatuses : list OperationStatus; no_OperationTypes : list bytes;
  no_Errors : list ServiceErr; no_HistoricalBalanceLookup : bool; no_MempoolCoins : bool }.

Section services.
Context {K : SDK} {N : Node} {S : Storage} `{FloatConv} (s : Configuration) (client : Client).

Notation SM := (outcome ServiceErr).

(** The indexer as the construction endpoints see it, at a moment. *)
Definition index_at (choice : nat) (d : DB) : ScriptIndex :=
  {| GetScriptPubKeys coins :=
       match Indexer_GetScriptPubKeys choice d coins with
       | Ret scripts => Ret scripts
       | Fail _ => Fail tt
       | Crash => Crash
       | NoFuel => NoFuel
       end |}.

(** ** Accounts *)

Definition AccountBalance (choice : nat) (d : DB) (account : AccountIdentifier) (blockIdentifier : option PartialBlockIdentifier) :
    SM (BlockIdentifier * list RAmount) :=
  if negb (cfg_Online s) then Fail ErrUnavailableOffline
  else
    let! (amount, block) := wrapErr ErrUnableToGetBalance (GetBalance choice d account (cfg_Currency s) blockIdentifier) in
    Ret (block, [amount]).

Definition AccountCoins (choice : nat) (d : DB) (account : AccountIdentifier) : SM (BlockIdentifier * list Coin) :=
  if negb (cfg_Online s) then Fail ErrUnavailableOffline
  else
    let! (coins, block) := wrapOpt ErrUnableToGetCoins (GetCoins choice d account) in
    Ret (block, coins).

(** ** Blocks *)

Fixpoint fetchTransactions (choice : nat) (d : DB) (block : BlockIdentifier) (others : list bytes) : SM (list (RTransaction JsonMap)) :=
  match others with
  | [] => Ret []
  | otherTx :: others =>
      let! transaction := wrapOpt ErrTransactionNotFound (GetBlockTransaction choice d block otherTx) in
      let! txs := fetchTransactions choice d block others in
      Ret (transaction :: txs)
  end.

Definition set_Transactions (txs : list (RTransaction JsonMap)) (b : RBlock JsonMap) : RBlock JsonMap :=
  mkRBlock (rb_BlockIdentifier b) (rb_ParentBlockIdentifier b) (rb_Timestamp b) txs (rb_Metadata b).

Definition Service_Block (choice : nat) (d : DB) (blockIdentifier : option PartialBlockIdentifier) : SM (BlockResponse JsonMap) :=
  if negb (cfg_Online s) then Fail ErrUnavailableOffline
  else
    let! blockResponse := wrapOpt ErrBlockNotIndexed (GetBlockLazy choice d blockIdentifier) in
    if zlen (br_OtherTransactions blockResponse) >? inlineFetchLimit then Ret blockResponse
    else
      let! txs := fetchTransactions choice d (rb_BlockIdentifier (br_Block blockResponse)) (br_OtherTransactions blockResponse) in
      Ret (mkBlockResponse (set_Transactions txs (br_Block blockResponse)) []).

Definition BlockTransaction (choice : nat) (d : DB) (block : BlockIdentifier) (transaction : bytes) : SM (RTransaction JsonMap) :=
  if negb (cfg_Online s) then Fail ErrUnavailableOffline
  else wrapOpt ErrTransactionNotFound (GetBlockTransaction choice d block transaction).

(** ** The mempool *)

Definition Mempool : M World ServiceErr (list bytes) := fun w =>
  if negb (cfg_Online s) then (Fail ErrUnavailableOffline, w)
  else let '(r, w) := RawMempool client w in (wrapErr ErrThoughtd r, w).

Definition MempoolTransaction : SM (RTransaction JsonMap) :=
  if negb (cfg_Online s) then Fail ErrUnavailableOffline else Fail ErrUnimplemented.

(** ** The network *)

Definition NetworkList : list NetworkIdentifier := [cfg_Network s].

Definition Service_NetworkStatus (choice : nat) (d : DB) : M World ServiceErr (NetworkStatusResponse JsonMap) := fun w =>
  if negb (cfg_Online s) then (Fail ErrUnavailableOffline, w)
  else
    let '(r, w) := GetPeers client w in
    (let! peers := wrapErr ErrThoughtd r in
     let! cached := wrapOpt ErrNotReady (GetBlockLazy choice d None) in
     Ret (mkNetworkStatusResponse (rb_BlockIdentifier (br_Block cached)) (rb_Timestamp (br_Block cached))
       (cfg_GenesisBlockIdentifier s) peers), w).

Definition NetworkOptions : NetworkOptionsResponse :=
  mkNetworkOptionsResponse NodeVersion MiddlewareVersion OperationStatuses OperationTypes Errors true false.
End services.

(** Offline, the program talks to nobody: every endpoint that needs the node
    or the index reports that it is unavailable, and no request is sent. *)
Theorem offline_isolated `{C : Crypto} {K : SDK} {N : Node} {S : Storage} {P : Parser JsonMap} {J : Json JsonMap} `{FloatConv} {I : ScriptIndex}
    (s : Configuration) (client : Client) (choice : nat) (d : DB) (w : World) : cfg_Online s = false ->
  (forall options, ConstructionMetadata s client options w = (Fail ErrUnavailableOffline, w))
  /\ (forall text, ConstructionSubmit s client text w = (Fail ErrUnavailableOffline, w))
  /\ Mempool s client w = (Fail ErrUnavailableOffline, w)
  /\ Service_NetworkStatus s client choice d w = (Fail ErrUnavailableOffline, w)
  /\ (forall a b, AccountBalance s choice d a b = Fail ErrUnavailableOffline)
  /\ (forall a, AccountCoins s choice d a = Fail ErrUnavailableOffline)
  /\ (forall b, Service_Block s choice d b = Fail ErrUnavailableOffline)
  /\ (forall b t, BlockTransaction s choice d b t = Fail ErrUnavailableOffline).
Proof.
  intros Ho. unfold ConstructionMetadata, ConstructionSubmit, Mempool, Service_NetworkStatus, AccountBalance, AccountCoins, Service_Block, BlockTransaction.
  rewrite Ho. by split_and!.
Qed.

Lemma offline_isolated_witness : cfg_Online (mainnetConfiguration (Offline, [], []) 8080) = false
  /\ Mempool (N := sample_node) (mainnetConfiguration (Offline, [], []) 8080) sample_client tt = (Fail ErrUnavailableOffline, tt).
Proof.
  split; [reflexivity|].
  apply (offline_isolated (C := toy) (K := toy_sdk) (N := sample_node) (S := toy_storage) (I := index_at (S := toy_storage) 0%nat [block5])
    (P := {| MatchOperations _ _ := None |})
    (J := {| MarshalUnsigned _ := None; UnmarshalUnsigned _ := None; MarshalSigned _ := None; UnmarshalSigned _ := None;
             MarshalOptions _ := None; UnmarshalOptions _ := None; MarshalConstruction _ := None; UnmarshalConstruction _ := None |})
    (mainnetConfiguration (Offline, [], []) 8080) sample_client 0 [block5] tt).
  reflexivity.
Defined.

Section blocks.
#[local] Set Default Proof Using "Type*".
Context {K : SDK} {S : Storage}.

Lemma fetchTransactions_spec choice d block others txs :
  (forall h t, GetBlockTransaction choice d block h = Some t -> rtx_Hash t = h) ->
  fetchTransactions choice d block others = Ret txs -> map rtx_Hash txs = others.
Proof using Type.
  intros Hlaw. revert txs. induction others as [|h others IH]; intros txs Hr; cbn [fetchTransactions] in Hr; [by injection Hr as <-|].
  destruct (GetBlockTransaction choice d block h) as [t|] eqn:Et; [|done]. cbn [wrapOpt bindO] in Hr.
  destruct (fetchTransactions choice d block others) as [l| | |]; try done. injection Hr as <-. cbn [map]. by rewrite (Hlaw h t Et), (IH l eq_refl).
Qed.

Lemma fetchTransactions_total choice d block others : Forall (fun h => is_Some (GetBlockTransaction choice d block h)) others ->
  exists txs, fetchTransactions choice d block others = Ret txs.
Proof using Type. induction 1 as [|h others [t Ht] _ [txs IH]]; [by eexists|]. cbn [fetchTransactions]. rewrite Ht. cbn [wrapOpt bindO]. rewrite IH. by eexists. Qed.
End blocks.

(** The block endpoint loses no transaction: with a storage that has the
    transactions it lists, it returns a block, and the transactions in it together
    with those left to be fetched are the listed ones in their order; at most 100
    are fetched, and then none is left. *)
Theorem Block_lists_all {K : SDK} {S : Storage} (s : Configuration) (choice : nat) (d : DB) (id : option PartialBlockIdentifier)
    (lazyBlock : BlockResponse JsonMap) :
  cfg_Online s = true -> GetBlockLazy choice d id = Some lazyBlock -> rb_Transactions (br_Block lazyBlock) = [] ->
  (forall h t, GetBlockTransaction choice d (rb_BlockIdentifier (br_Block lazyBlock)) h = Some t -> rtx_Hash t = h) ->
  Forall (fun h => is_Some (GetBlockTransaction choice d (rb_BlockIdentifier (br_Block lazyBlock)) h)) (br_OtherTransactions lazyBlock) ->
  exists r, Service_Block s choice d id = Ret r
    /\ map rtx_Hash (rb_Transactions (br_Block r)) ++ br_OtherTransactions r = br_OtherTransactions lazyBlock
    /\ rb_BlockIdentifier (br_Block r) = rb_BlockIdentifier (br_Block lazyBlock)
    /\ zlen (rb_Transactions (br_Block r)) <= inlineFetchLimit
    /\ (zlen (br_OtherTransactions lazyBlock) <= inlineFetchLimit -> br_OtherTransactions r = []).
Proof.
  intros Ho Hl Hn Hlaw Hall. unfold Service_Block. rewrite Ho, Hl. cbn [negb wrapOpt bindO].
  destruct (Z.gtb_spec (zlen (br_OtherTransactions lazyBlock)) 100) as [Hg|Hg].
  - exists lazyBlock. rewrite Hn. split_and!; [done|done|done|done|lia].
  - destruct (fetchTransactions_total _ _ _ _ Hall) as [txs Hf]. rewrite Hf. cbn [bindO]. eexists. split; [done|].
    cbn [br_Block set_Transactions rb_Transactions br_OtherTransactions rb_BlockIdentifier].
    pose proof (fetchTransactions_spec _ _ _ _ _ Hlaw Hf) as Hm. rewrite app_nil_r. split_and!; [done|done| |done].
    assert (zlen txs = zlen (map rtx_Hash txs)) as -> by (unfold zlen; by rewrite length_map). rewrite Hm. lia.
Qed.

Lemma Block_lists_all_witness : exists r, Service_Block (S := toy_storage) (mainnetConfiguration (Online, [], []) 8080) 0 [block6; block5] None = Ret r
  /\ br_OtherTransactions r = [].
Proof.
  destruct (Block_lists_all (S := toy_storage) (mainnetConfiguration (Online, [], []) 8080) 0 [block6; block5] None
    (mkBlockResponse (mkRBlock (sample_id 6 97) (sample_id 5 53) 0 [] None) [sample_hash 48])) as (r & Hr & _ & _ & _ & Hz).
  - reflexivity.
  - reflexivity.
  - reflexivity.
  - intros h t. cbn. case_bool_decide as Hh; [|discriminate]. intros [= <-]. exact Hh.
  - repeat constructor. eexists. vm_compute. reflexivity.
  - exists r. split; [exact Hr|]. apply Hz. vm_compute. congruence.
Defined.
