(* ===== verification/TxLocs.v ===== *)
(** Locations of the locking scripts in a serialized transaction
    (src/thoughtd/wire/msgtx.go, [PkScriptLocs]).

    The offsets are added up from the sizes of the fields, without serializing;
    they are shown to cut the scripts out of what [Serialize] writes. *)

From S2P Require Import Prelude Crypto WireCommon WireTx.

(** The loop over the outputs. *)
Fixpoint scriptLocs (n : Z) (outs : list TxOut) : list Z :=
  match outs with
  | [] => []
  | txOut :: outs =>
      let n := n + (8 + VarIntSerializeSize (u64 (zlen (PkScript txOut)))) in
      n :: scriptLocs (n + zlen (PkScript txOut)) outs
  end.

(** [nil0] says whether [msg.TxIn[0].Witness] is nil, which the items of a
    witness do not tell when there are none. *)
Definition PkScriptLocs (nil0 : bool) (msg : MsgTx) : list Z :=
  let numTxOut := zlen (TxOuts msg) in
  if numTxOut =? 0 then [] else
  let n := 4 + VarIntSerializeSize (u64 (zlen (TxIns msg))) + VarIntSerializeSize (u64 numTxOut) in
  let n := if (zlen (TxIns msg) >? 0) && negb nil0 then n + 2 else n in
  let n := fold_left (fun n txIn => n + TxIn_SerializeSize txIn) (TxIns msg) n in
  scriptLocs n (TxOuts msg).

(** The script of an output is at the offset [loc] of [s]. *)
Definition script_at (s : bytes) (loc : Z) (to : TxOut) : Prop :=
  zslice s loc (loc + zlen (PkScript to)) = Some (PkScript to).

(** ** Proofs *)

#[local] Opaque le_bytes.

Lemma zslice_app_middle {A} (pre k post : list A) :
  zslice (pre ++ k ++ post) (zlen pre) (zlen pre + zlen k) = Some k.
Proof.
  pose proof (zlen_nonneg pre). pose proof (zlen_nonneg k). pose proof (zlen_nonneg post).
  rewrite zslice_Some by (rewrite ?zlen_app; lia). f_equal.
  rewrite zlen_to_nat, drop_app_length.
  replace (Z.to_nat (zlen pre + zlen k - zlen pre)) with (length k) by (unfold zlen; lia).
  apply take_app_length.
Qed.

(** The loop follows the encodings of the outputs. *)
Lemma scriptLocs_cut outs : forall pre post, Forall txout_wf outs ->
  Forall2 (script_at (pre ++ concat (map txout_bytes outs) ++ post))
    (scriptLocs (zlen pre) outs) outs.
Proof.
  induction outs as [|to outs IH]; intros pre post H; [constructor|].
  inversion H as [|? ? [_ Hl] Houts]; subst. cbn [scriptLocs map concat].
  pose proof (zlen_nonneg (PkScript to)). rewrite u64_id by lia.
  set (hd := le_bytes 8 (u64 (Value to)) ++ varint_bytes (zlen (PkScript to))).
  assert (zlen pre + (8 + VarIntSerializeSize (zlen (PkScript to))) = zlen (pre ++ hd)) as ->.
  { subst hd. rewrite !zlen_app, zlen_le_bytes, zlen_varint_bytes. lia. }
  assert (txout_bytes to = hd ++ PkScript to) as Eto
    by (unfold txout_bytes, varbytes; subst hd; by rewrite <- app_assoc).
  constructor.
  - unfold script_at. rewrite Eto.
    replace (pre ++ (_ ++ concat _) ++ post)
      with ((pre ++ hd) ++ PkScript to ++ concat (map txout_bytes outs) ++ post)
      by by rewrite <- !app_assoc.
    apply zslice_app_middle.
  - rewrite <- zlen_app. rewrite Eto.
    replace (pre ++ ((hd ++ PkScript to) ++ concat (map txout_bytes outs)) ++ post)
      with (((pre ++ hd) ++ PkScript to) ++ concat (map txout_bytes outs) ++ post)
      by by rewrite <- !app_assoc.
    by apply IH.
Qed.

(** The bytes in front of the outputs. *)
Definition locs_prefix (doWitness : bool) (msg : MsgTx) : bytes :=
  le_bytes 4 (u32 (Version msg)) ++ (if doWitness then [z2b 0; z2b 1] else [])
  ++ varint_bytes (zlen (TxIns msg)) ++ concat (map txin_bytes (TxIns msg))
  ++ varint_bytes (zlen (TxOuts msg)).

Lemma tx_bytes_split d msg : exists post,
  tx_bytes d msg = locs_prefix d msg ++ concat (map txout_bytes (TxOuts msg)) ++ post.
Proof. eexists. unfold tx_bytes, locs_prefix, tx_body. rewrite <- !app_assoc. reflexivity. Qed.

Lemma PkScriptLocs_start nil0 msg :
  tx_wf msg -> TxOuts msg <> [] ->
  PkScriptLocs nil0 msg
  = scriptLocs (zlen (locs_prefix ((zlen (TxIns msg) >? 0) && negb nil0) msg)) (TxOuts msg).
Proof.
  intros (_ & [Hi Hins] & [Ho _] & _) Hne. unfold PkScriptLocs.
  pose proof (zlen_nonneg (TxIns msg)). pose proof (zlen_nonneg (TxOuts msg)).
  destruct (Z.eqb_spec (zlen (TxOuts msg)) 0) as [E|E]; [by apply zlen_0_inv in E|].
  cbv zeta. f_equal. rewrite (fold_left_sizes _ TxIn_SerializeSize txin_bytes);
    [|done|eapply Forall_impl; [exact Hins|apply size_txin]].
  unfold locs_prefix. rewrite !u64_id by lia. rewrite !zlen_app, zlen_le_bytes, !zlen_varint_bytes.
  destruct ((_ >? _) && _); [change (zlen [_; _]) with 2|rewrite zlen_nil]; lia.
Qed.

(** If the first witness is nil exactly when no input has a witness, the
    offsets cut the locking script of each output out of the serialized
    transaction. *)
Theorem PkScriptLocs_cut nil0 msg :
  tx_wf msg -> (zlen (TxIns msg) >? 0) && negb nil0 = HasWitness msg ->
  Forall2 (script_at (Serialize msg []).2) (PkScriptLocs nil0 msg) (TxOuts msg).
Proof.
  intros Hwf Hnil. destruct (decide (TxOuts msg = [])) as [E|E].
  { unfold PkScriptLocs. rewrite E. constructor. }
  rewrite PkScriptLocs_start, Hnil by done.
  unfold Serialize. rewrite ThtEncode_writes by done. simpl.
  destruct (tx_bytes_split (HasWitness msg) msg) as [post ->].
  apply scriptLocs_cut. by destruct Hwf as (_ & _ & [_ ?] & _).
Qed.

(** ** Examples *)

Definition locs_in (w : list bytes) : TxIn :=
  mkTxIn (mkOutPoint (replicate 32 (z2b 7)) 1) (str "sig") w 0.
Definition locs_tx (ws : list (list bytes)) : MsgTx :=
  mkMsgTx 2 (map locs_in ws) [mkTxOut 5 (str "first"); mkTxOut 6 (str "second")] 0.

Lemma locs_tx_wf ws :
  zlen ws <= 10 -> Forall witness_wf ws -> tx_wf (locs_tx ws).
Proof.
  intros Hl Hw. unfold tx_wf. simpl. split_and!; try lia.
  - unfold zlen in *. rewrite length_map. lia.
  - apply Forall_map, Forall_forall. intros w _. repeat split; vm_compute; done.
  - by vm_compute.
  - repeat constructor; vm_compute; done.
  - by apply Forall_map.
Qed.

Lemma PkScriptLocs_cut_witness :
  PkScriptLocs false (locs_tx [[str "item"]; []]) = [105; 119]
  /\ Forall2 (script_at (Serialize (locs_tx [[str "item"]; []]) []).2) [105; 119]
       [mkTxOut 5 (str "first"); mkTxOut 6 (str "second")].
Proof.
  split; [by vm_compute|]. apply (PkScriptLocs_cut false (locs_tx [[str "item"]; []])).
  - apply locs_tx_wf; [by vm_compute|]. repeat constructor; vm_compute; done.
  - reflexivity.
Defined.

(** Only the first input is looked at: with a witness on the second one the
    offsets are two bytes early. *)
Theorem PkScriptLocs_second_witness :
  let msg := locs_tx [[]; [str "item"]] in
  tx_wf msg /\ HasWitness msg = true
  /\ PkScriptLocs true msg = map (fun l => l - 2) (PkScriptLocs false msg)
  /\ ~ Forall2 (script_at (Serialize msg []).2) (PkScriptLocs true msg) (TxOuts msg).
Proof.
  split_and!; [|done|by vm_compute|].
  - apply locs_tx_wf; [by vm_compute|]. repeat constructor; vm_compute; done.
  - intros H. apply Forall2_cons_1 in H as [H _]. by vm_compute in H.
Qed.

(** A witness that is empty and not nil makes them two bytes late. *)
Theorem PkScriptLocs_empty_witness :
  let msg := locs_tx [[]] in
  tx_wf msg /\ HasWitness msg = false
  /\ ~ Forall2 (script_at (Serialize msg []).2) (PkScriptLocs false msg) (TxOuts msg).
Proof.
  split_and!; [|done|].
  - apply locs_tx_wf; [by vm_compute|]. repeat constructor; vm_compute; done.
  - intros H. apply Forall2_cons_1 in H as [H _]. by vm_compute in H.
Qed.
