(* ===== verification/TxHeap.v ===== *)
(** Copies of transactions in memory (src/thoughtd/wire/msgtx.go [Copy],
    src/thoughtd/txscript/sighash.go [shallowCopyTx]).

    The rest of the development treats a transaction as a value.  In the source
    it is a struct with slices of pointers to structs that hold slices of byte
    arrays, and two copies of it may share any of them.  Here the structs and
    the arrays are cells of a heap, so that it can be said which cells a copy
    shares with the original: [Copy] shares none, [shallowCopyTx] only those
    that hold bytes. *)

From S2P Require Import Prelude WireCommon WireTx Hash.

(** ** Memory *)

Notation loc := nat (only parsing).

(** A slice is nil or a part of an array: the array, the offset, the length. *)
Definition slice : Type := option (loc * Z * Z).

Inductive cell :=
  | ABytes (b : bytes)
  | ASlices (l : list slice)
  | APtrs (l : list loc)
  | SIn (prev : OutPoint) (script witness : slice) (sequence : Z)
  | SOut (value : Z) (script : slice)
  | STx (version : Z) (ins outs : slice) (lockTime : Z).

Notation heap := (list cell).
Notation HM := (M heap Empty_set).

Definition alloc (c : cell) : HM loc := fun h => (Ret (length h), h ++ [c]).

(** Reading through a pointer or a slice that dangles is a panic. *)
Definition readV {A} (v : heap -> option A) : HM A := fun h => (orCrash (v h), h).

Definition slice_len (s : slice) : Z := match s with None => 0 | Some (_, _, n) => n end.

(** The elements of a slice of an array of the kind that [arr] selects. *)
Definition elems_at {A} (arr : cell -> option (list A)) (h : heap) (s : slice) : option (list A) :=
  match s with
  | None => Some []
  | Some (a, off, n) => h !! a ≫= fun c => arr c ≫= fun l => zslice l off (off + n)
  end.

Definition bytes_at : heap -> slice -> option bytes :=
  elems_at (fun c => match c with ABytes b => Some b | _ => None end).
Definition slices_at : heap -> slice -> option (list slice) :=
  elems_at (fun c => match c with ASlices l => Some l | _ => None end).
Definition ptrs_at : heap -> slice -> option (list loc) :=
  elems_at (fun c => match c with APtrs l => Some l | _ => None end).

(** ** The transaction a pointer stands for *)

Fixpoint traverse {A B} (f : A -> option B) (l : list A) : option (list B) :=
  match l with
  | [] => Some []
  | x :: l => f x ≫= fun y => traverse f l ≫= fun ys => Some (y :: ys)
  end.

Definition items_at (h : heap) (s : slice) : option (list bytes) :=
  slices_at h s ≫= traverse (bytes_at h).

Definition txin_at (h : heap) (p : loc) : option TxIn :=
  match h !! p with
  | Some (SIn prev s w sq) =>
      bytes_at h s ≫= fun s => items_at h w ≫= fun w => Some (mkTxIn prev s w sq)
  | _ => None
  end.

Definition txout_at (h : heap) (p : loc) : option TxOut :=
  match h !! p with
  | Some (SOut v s) => bytes_at h s ≫= fun s => Some (mkTxOut v s)
  | _ => None
  end.

(** The structs that the pointers of a slice point to. *)
Definition structs_at {X} (v : heap -> loc -> option X) (h : heap) (s : slice) : option (list X) :=
  ptrs_at h s ≫= traverse (v h).

Definition tx_at (h : heap) (p : loc) : option MsgTx :=
  match h !! p with
  | Some (STx v ins outs lt) =>
      structs_at txin_at h ins ≫= fun ins =>
      structs_at txout_at h outs ≫= fun outs => Some (mkMsgTx v ins outs lt)
  | _ => None
  end.

(** ** [Copy]

    An array is allocated with what its loop puts into it: nothing reads it
    before. *)

(** [new := make([]byte, len(old)); copy(new, old)] *)
Definition makeCopy (old : slice) : HM slice :=
  b <- readV (fun h => bytes_at h old) ;;
  p <- alloc (ABytes (copy_at (replicate (Z.to_nat (slice_len old)) (z2b 0)) 0 b)) ;;
  retM (Some (p, 0, slice_len old)).

Definition copyScript (old : slice) : HM slice :=
  if slice_len old >? 0 then makeCopy old else retM None.

Definition copyWitness (old : slice) : HM slice :=
  if negb (slice_len old =? 0) then
    items <- readV (fun h => slices_at h old) ;;
    items <- mapM makeCopy items ;;
    p <- alloc (ASlices items) ;;
    retM (Some (p, 0, slice_len old))
  else retM None.

(** [newOutPoint.Hash.SetBytes(..)] on a zero hash, its error dropped. *)
Definition copyOutPoint (old : OutPoint) : OutPoint :=
  mkOutPoint (match SetBytes (Hash old) with Ret h => h | _ => replicate 32 (z2b 0) end) (Index old).

Definition copyTxIn (p : loc) : HM loc :=
  '(prev, s, w, sq) <- readV (fun h => match h !! p with
                          | Some (SIn prev s w sq) => Some (prev, s, w, sq) | _ => None end) ;;
  newScript <- copyScript s ;;
  newWitness <- copyWitness w ;;
  alloc (SIn (copyOutPoint prev) newScript newWitness sq).

Definition copyTxOut (p : loc) : HM loc :=
  '(v, s) <- readV (fun h => match h !! p with Some (SOut v s) => Some (v, s) | _ => None end) ;;
  newScript <- copyScript s ;;
  alloc (SOut v newScript).

(** The pointers of a new array that a loop fills, one for each old element. *)
Definition copyPtrs (f : loc -> HM loc) (old : slice) : HM slice :=
  ps <- readV (fun h => ptrs_at h old) ;;
  ps <- mapM f ps ;;
  p <- alloc (APtrs ps) ;;
  retM (Some (p, 0, zlen ps)).

(** The copy of the struct [MsgTx] itself, given the copies of its elements. *)
Definition copyTx (fin fout : loc -> HM loc) (p : loc) : HM loc :=
  '(v, ins, outs, lt) <- readV (fun h => match h !! p with
                          | Some (STx v ins outs lt) => Some (v, ins, outs, lt) | _ => None end) ;;
  ins <- copyPtrs fin ins ;;
  outs <- copyPtrs fout outs ;;
  alloc (STx v ins outs lt).

Definition Copy (msg : loc) : HM loc := copyTx copyTxIn copyTxOut msg.

(** ** [shallowCopyTx]: the structs are copied with the slices they hold. *)

(** [txIns[i] = *oldTxIn; txCopy.TxIn[i] = &txIns[i]] *)
Definition shallowTxIn (p : loc) : HM loc :=
  c <- readV (fun h => match h !! p with Some (SIn a b c d) => Some (SIn a b c d) | _ => None end) ;;
  alloc c.

Definition shallowTxOut (p : loc) : HM loc :=
  c <- readV (fun h => match h !! p with Some (SOut a b) => Some (SOut a b) | _ => None end) ;;
  alloc c.

Definition shallowCopyTx_mem (tx : loc) : HM loc := copyTx shallowTxIn shallowTxOut tx.

(** ** Views of larger heaps *)

(** Every cell of [h] from [n] on is a cell of [h']. *)
Definition keeps (n : nat) (h h' : heap) : Prop :=
  forall l c, (n <= l)%nat -> h !! l = Some c -> h' !! l = Some c.

(** The cells that the view [v] of a value reads are all among those kept. *)
Definition local {A X} (v : heap -> A -> option X) : Prop :=
  forall h h' a x, keeps 0 h h' -> v h a = Some x -> v h' a = Some x.

Lemma keeps_prefix n h h' : h `prefix_of` h' -> keeps n h h'.
Proof. intros [k ->] l c _ H. by apply lookup_app_l_Some. Qed.

Lemma keeps_weaken n m h h1 h2 :
  (n <= m)%nat -> h `prefix_of` h1 -> keeps n h1 h2 -> keeps m h h2.
Proof.
  intros Hn Hp Hk l c Hl H. apply Hk; [lia|]. by apply (keeps_prefix 0 h h1 Hp l c); [lia|].
Qed.

Lemma elems_at_local {A} (arr : cell -> option (list A)) : local (elems_at arr).
Proof.
  intros h h' [[[a off] n]|] x Hk H; simpl in *; [|done].
  destruct (h !! a) as [c|] eqn:E; [|done]. by rewrite (Hk a c) by (done || lia).
Qed.

Lemma traverse_local {A B} (v : heap -> A -> option B) :
  local v -> local (fun h => traverse (v h)).
Proof.
  intros Hv h h' l. induction l as [|a l IH]; intros xs Hk H; simpl in *; [done|].
  apply bind_Some in H as (x & Hx & H). apply bind_Some in H as (ys & Hys & [= <-]).
  by rewrite (Hv h h' a x), (IH ys).
Qed.

Lemma items_at_local : local items_at.
Proof.
  intros h h' s x Hk H. unfold items_at in *. apply bind_Some in H as (l & Hl & H).
  unfold slices_at in *. rewrite (elems_at_local _ h h' s l Hk Hl). simpl.
  by apply (traverse_local bytes_at (elems_at_local _) h h').
Qed.

Lemma txin_at_local : local txin_at.
Proof.
  intros h h' p x Hk H. unfold txin_at in *. destruct (h !! p) as [c|] eqn:E; [|done].
  rewrite (Hk p c) by (done || lia). destruct c; try done.
  apply bind_Some in H as (s & Hs & H). apply bind_Some in H as (w & Hw & H).
  unfold bytes_at in *. by rewrite (elems_at_local _ h h' _ s Hk Hs), (items_at_local h h' _ w).
Qed.

Lemma txout_at_local : local txout_at.
Proof.
  intros h h' p x Hk H. unfold txout_at in *. destruct (h !! p) as [c|] eqn:E; [|done].
  rewrite (Hk p c) by (done || lia). destruct c; try done.
  apply bind_Some in H as (s & Hs & H).
  unfold bytes_at in *. by rewrite (elems_at_local _ h h' _ s Hk Hs).
Qed.

Lemma structs_at_local {X} (v : heap -> loc -> option X) : local v -> local (structs_at v).
Proof.
  intros Hv h h' s x Hk H. unfold structs_at in *. apply bind_Some in H as (l & Hl & H).
  unfold ptrs_at in *. rewrite (elems_at_local _ h h' s l Hk Hl). simpl.
  by apply (traverse_local v Hv h h').
Qed.

Lemma tx_at_local : local tx_at.
Proof.
  intros h h' p x Hk H. unfold tx_at in *. destruct (h !! p) as [c|] eqn:E; [|done].
  rewrite (Hk p c) by (done || lia). destruct c; try done.
  apply bind_Some in H as (i & Hi & H). apply bind_Some in H as (o & Ho & H).
  rewrite (structs_at_local _ txin_at_local h h' _ i Hk Hi). simpl.
  by rewrite (structs_at_local _ txout_at_local h h' _ o Hk Ho).
Qed.

(** ** Code that returns something new

    [m] only adds cells to [h], and what it returns shows [x] as long as the
    cells from [n] on are kept, whatever happens to those below. *)

Definition makes {R X} (n : nat) (m : HM R) (v : heap -> R -> option X) (x : X) (h : heap) : Prop :=
  exists r h1, m h = (Ret r, h1) /\ h `prefix_of` h1
    /\ forall h2, keeps n h1 h2 -> v h2 r = Some x.

Lemma makes_ret {R X} n (r : R) (v : heap -> R -> option X) x h :
  (forall h2, keeps n h h2 -> v h2 r = Some x) -> makes n (retM r) v x h.
Proof. intros H. by exists r, h. Qed.

Lemma makes_read {R X A} n (rd : heap -> option A) a (k : A -> HM R) (v : heap -> R -> option X) x h :
  rd h = Some a -> makes n (k a) v x h -> makes n (b <- readV rd ;; k b) v x h.
Proof. intros Hr (r & h1 & E & H). exists r, h1. unfold bindM, readV. by rewrite Hr. Qed.

(** The first step makes [y]; in the second one [y] is still there. *)
Lemma makes_bind {R S X Y} n (m : HM R) (vy : heap -> R -> option Y) y (k : R -> HM S)
    (v : heap -> S -> option X) x h :
  makes n m vy y h ->
  (forall r h1, h `prefix_of` h1 -> (forall h2, keeps n h1 h2 -> vy h2 r = Some y) ->
     makes n (k r) v x h1) ->
  makes n (r <- m ;; k r) v x h.
Proof.
  intros (r & h1 & E & Hp & Hv) Hk. destruct (Hk r h1 Hp Hv) as (s & h2 & E2 & Hp2 & Hv2).
  exists s, h2. rewrite (bindM_step _ _ _ _ _ E). split_and!; [done|by etransitivity|done].
Qed.

(** An allocation, after which the new cell is in every heap that keeps it. *)
Lemma makes_alloc {S X} n c (k : loc -> HM S) (v : heap -> S -> option X) x h :
  (n <= length h)%nat ->
  (forall p h1, h `prefix_of` h1 -> (forall h2, keeps n h1 h2 -> h2 !! p = Some c) ->
     makes n (k p) v x h1) ->
  makes n (p <- alloc c ;; k p) v x h.
Proof.
  intros Hn Hk. eapply (makes_bind _ _ (fun h p => h !! p) c); [|exact Hk].
  exists (length h), (h ++ [c]). split_and!; [done|by eexists|]. intros h2 H.
  apply H; [lia|]. by rewrite lookup_app_r, Nat.sub_diag by lia.
Qed.

Lemma keeps_mono n h h1 h2 : h `prefix_of` h1 -> keeps n h1 h2 -> keeps n h h2.
Proof. by apply keeps_weaken. Qed.

Lemma makes_mapM {A R X} n (src : heap -> A -> option X) (P : X -> Prop) (f : A -> HM R)
    (v : heap -> R -> option X) l : local src ->
  (forall a x h, (n <= length h)%nat -> src h a = Some x -> P x -> makes n (f a) v x h) ->
  forall xs h, (n <= length h)%nat -> traverse (src h) l = Some xs -> Forall P xs ->
  makes n (mapM f l) (fun h => traverse (v h)) xs h.
Proof.
  intros Hl Hf. induction l as [|a l IH]; intros xs h Hn H HP; simpl in *.
  { injection H as <-. by apply makes_ret. }
  apply bind_Some in H as (x & Hx & H). apply bind_Some in H as (ys & Hys & [= <-]).
  inversion HP; subst. eapply makes_bind; [by apply Hf|]. intros r h1 Hp Hr.
  eapply (makes_bind _ _ (fun h => traverse (v h)) ys).
  - apply IH; [apply prefix_length in Hp; lia| |done].
    eapply (traverse_local src Hl); [by apply keeps_prefix|done].
  - intros rs h2 Hp2 Hrs. apply makes_ret. intros h3 Hk. simpl.
    rewrite (Hr h3) by (by eapply keeps_mono). simpl. by rewrite (Hrs h3).
Qed.

(** ** The parts of a copy *)

Lemma elems_at_len {A} (arr : cell -> option (list A)) h s l :
  elems_at arr h s = Some l -> zlen l = slice_len s.
Proof.
  destruct s as [[[a off] n]|]; simpl; [|by intros [= <-]].
  intros H. apply bind_Some in H as (c & _ & H). apply bind_Some in H as (k & _ & H).
  apply zslice_inv in H as (Ha & Hb & Hl & ->). rewrite zlen_take, zlen_drop. lia.
Qed.

Lemma elems_at_whole {A} (arr : cell -> option (list A)) h p c l :
  h !! p = Some c -> arr c = Some l -> elems_at arr h (Some (p, 0, zlen l)) = Some l.
Proof. intros Hp Ha. simpl. rewrite Hp. simpl. rewrite Ha. simpl. apply zslice_full. Qed.

Lemma traverse_length {A B} (f : A -> option B) l xs : traverse f l = Some xs -> length l = length xs.
Proof.
  revert xs. induction l as [|a l IH]; intros xs H; simpl in *; [by injection H as <-|].
  apply bind_Some in H as (x & _ & H). apply bind_Some in H as (ys & Hys & [= <-]).
  simpl. by rewrite (IH ys).
Qed.

Section parts.
Variable n : nat.

Lemma makeCopy_makes s b h :
  (n <= length h)%nat -> bytes_at h s = Some b -> makes n (makeCopy s) bytes_at b h.
Proof using.
  intros Hn Hs. unfold makeCopy. eapply makes_read; [exact Hs|].
  rewrite <- (elems_at_len _ _ _ _ Hs), copy_at_whole.
  apply makes_alloc; [done|]. intros p h1 _ Hc. apply makes_ret. intros h2 Hk.
  by eapply elems_at_whole; [by apply Hc|].
Qed.

Lemma copyScript_makes s b h :
  (n <= length h)%nat -> bytes_at h s = Some b -> makes n (copyScript s) bytes_at b h.
Proof using.
  intros Hn Hs. unfold copyScript. pose proof (elems_at_len _ _ _ _ Hs) as Hl. rewrite <- Hl.
  zcase. zcase; [by apply makeCopy_makes|]. apply makes_ret. intros h2 _.
  by rewrite (zlen_0_inv b) by (pose proof (zlen_nonneg b); lia).
Qed.

Lemma copyWitness_makes s w h :
  (n <= length h)%nat -> items_at h s = Some w -> makes n (copyWitness s) items_at w h.
Proof using.
  intros Hn Hs. apply bind_Some in Hs as (l & Hl & Hw). unfold copyWitness.
  pose proof (elems_at_len _ _ _ _ Hl) as Hlen. zcase; simpl.
  - apply makes_ret. intros h2 _. rewrite (zlen_0_inv l) in Hw by lia. by injection Hw as <-.
  - eapply makes_read; [exact Hl|]. eapply makes_bind.
    { apply (makes_mapM n bytes_at (fun _ => True)) with (xs := w);
        [apply elems_at_local|intros; by apply makeCopy_makes|done|done|by apply Forall_true]. }
    intros news h1 Hp Hnews. assert (zlen news = slice_len s) as <-.
    { specialize (Hnews h1 (keeps_prefix n h1 h1 ltac:(done))).
      rewrite <- Hlen. unfold zlen. f_equal. rewrite (traverse_length _ _ _ Hnews).
      by rewrite (traverse_length _ _ _ Hw). }
    apply makes_alloc; [apply prefix_length in Hp; lia|]. intros p h2 Hp2 Hc.
    apply makes_ret. intros h3 Hk. unfold items_at, slices_at.
    rewrite (elems_at_whole _ h3 p (ASlices news) news) by (done || by apply Hc). simpl.
    apply Hnews. by eapply keeps_mono.
Qed.

(** Loading a struct whose view is known. *)
Lemma txin_at_inv h p ti :
  txin_at h p = Some ti -> exists s w, h !! p = Some (SIn (PreviousOutPoint ti) s w (Sequence ti))
    /\ bytes_at h s = Some (SignatureScript ti) /\ items_at h w = Some (Witness ti).
Proof using.
  unfold txin_at. destruct (h !! p) as [[]|]; try done. intros H.
  apply bind_Some in H as (s & Hs & H). apply bind_Some in H as (w & Hw & [= <-]). by eexists _, _.
Qed.

Lemma txout_at_inv h p to :
  txout_at h p = Some to -> exists s, h !! p = Some (SOut (Value to) s)
    /\ bytes_at h s = Some (PkScript to).
Proof using.
  unfold txout_at. destruct (h !! p) as [[]|]; try done. intros H.
  apply bind_Some in H as (s & Hs & [= <-]). by eexists.
Qed.

(** The last step of a copy: the struct. *)
Lemma alloc_makes {X} c (v : heap -> loc -> option X) x h :
  (n <= length h)%nat -> (forall p h2, keeps n h h2 -> h2 !! p = Some c -> v h2 p = Some x) ->
  makes n (alloc c) v x h.
Proof using.
  intros Hn Hv. exists (length h), (h ++ [c]). split_and!; [done|by eexists|].
  intros h2 Hk. apply Hv.
  - eapply keeps_mono, Hk. by eexists.
  - apply Hk; [lia|]. by rewrite lookup_app_r, Nat.sub_diag by lia.
Qed.

Definition hash32 (ti : TxIn) : Prop := zlen (Hash (PreviousOutPoint ti)) = 32.

Lemma copyTxIn_makes p ti h :
  (n <= length h)%nat -> txin_at h p = Some ti -> hash32 ti -> makes n (copyTxIn p) txin_at ti h.
Proof using.
  intros Hn Hti H32. apply txin_at_inv in Hti as (s & w & Hp & Hs & Hw). unfold copyTxIn.
  eapply makes_read; [by rewrite Hp|]. cbv beta iota.
  eapply makes_bind; [by apply copyScript_makes|]. intros s' h1 Hp1 Hs'.
  assert (n <= length h1)%nat by (apply prefix_length in Hp1; lia).
  eapply makes_bind; [apply copyWitness_makes; [done|]; eapply items_at_local, Hw; by apply keeps_prefix|].
  intros w' h2 Hp2 Hw'. apply alloc_makes; [apply prefix_length in Hp2; lia|].
  intros q h3 Hk Hq. unfold txin_at. rewrite Hq, (Hs' h3) by by eapply keeps_mono.
  simpl. rewrite (Hw' h3) by done. simpl. unfold copyOutPoint, SetBytes. rewrite H32.
  by destruct ti as [[] ? ? ?].
Qed.

Lemma copyTxOut_makes p to h :
  (n <= length h)%nat -> txout_at h p = Some to -> makes n (copyTxOut p) txout_at to h.
Proof using.
  intros Hn Hto. apply txout_at_inv in Hto as (s & Hp & Hs). unfold copyTxOut.
  eapply makes_read; [by rewrite Hp|]. cbv beta iota.
  eapply makes_bind; [by apply copyScript_makes|]. intros s' h1 Hp1 Hs'.
  apply alloc_makes; [apply prefix_length in Hp1; lia|].
  intros q h3 Hk Hq. unfold txout_at. rewrite Hq, (Hs' h3) by done. by destruct to.
Qed.

(** A copy of the elements gives a copy of the slice of pointers to them. *)
Lemma copyPtrs_makes {X} (v : heap -> loc -> option X) (P : X -> Prop) (f : loc -> HM loc) s xs h :
  local v ->
  (forall p x h, (n <= length h)%nat -> v h p = Some x -> P x -> makes n (f p) v x h) ->
  (n <= length h)%nat -> structs_at v h s = Some xs -> Forall P xs ->
  makes n (copyPtrs f s) (structs_at v) xs h.
Proof using.
  intros Hloc Hf Hn Hs HP. apply bind_Some in Hs as (l & Hl & Hxs). unfold copyPtrs.
  eapply makes_read; [exact Hl|]. eapply makes_bind; [by apply (makes_mapM n v P)|].
  intros ps h1 Hp Hps. apply makes_alloc; [apply prefix_length in Hp; lia|].
  intros p h2 Hp2 Hc. apply makes_ret. intros h3 Hk. unfold structs_at, ptrs_at.
  rewrite (elems_at_whole _ h3 p (APtrs ps) ps) by (done || by apply Hc). simpl.
  apply Hps. by eapply keeps_mono.
Qed.

Lemma copyTx_makes fin fout p tx h :
  (forall p ti h, (n <= length h)%nat -> txin_at h p = Some ti -> hash32 ti -> makes n (fin p) txin_at ti h) ->
  (forall p to h, (n <= length h)%nat -> txout_at h p = Some to -> makes n (fout p) txout_at to h) ->
  (n <= length h)%nat -> tx_at h p = Some tx -> Forall hash32 (TxIns tx) ->
  makes n (copyTx fin fout p) tx_at tx h.
Proof using.
  intros Hin Hout Hn Htx H32. unfold tx_at in Htx. destruct (h !! p) as [[]|] eqn:Hp; try done.
  apply bind_Some in Htx as (ti & Hti & Htx). apply bind_Some in Htx as (to & Hto & [= <-]).
  unfold copyTx. eapply makes_read; [by rewrite Hp|]. cbv beta iota.
  eapply makes_bind; [by apply (copyPtrs_makes txin_at hash32 fin _ ti); [apply txin_at_local|..]|].
  intros ps h1 Hp1 Hps. assert (n <= length h1)%nat by (apply prefix_length in Hp1; lia).
  eapply makes_bind.
  { apply (copyPtrs_makes txout_at (fun _ => True) fout _ to);
      [apply txout_at_local|by intros; apply Hout|done| |by apply Forall_true].
    eapply (structs_at_local _ txout_at_local), Hto. by apply keeps_prefix. }
  intros qs h2 Hp2 Hqs. apply alloc_makes; [apply prefix_length in Hp2; lia|].
  intros q h3 Hk Hq. unfold tx_at. rewrite Hq, (Hps h3) by by eapply keeps_mono.
  simpl. by rewrite (Hqs h3).
Qed.
End parts.

(** What was there before a copy is still there when the new cells change. *)
Lemma old_tx_kept h h1 h2 p tx :
  h `prefix_of` h1 -> (forall l, (l < length h)%nat -> h2 !! l = h1 !! l) ->
  tx_at h p = Some tx -> tx_at h2 p = Some tx.
Proof.
  intros Hp H2 Htx. eapply tx_at_local, Htx. intros l c _ Hl.
  rewrite H2 by by apply lookup_lt_Some in Hl. by apply (keeps_prefix 0 h h1 Hp); [lia|].
Qed.

(** C14: [Copy] is a deep copy: it returns a pointer to an equal transaction and
    changes nothing; whatever is written afterwards to memory that existed
    before leaves the copy as it is, and whatever is written to memory that the
    copy allocated leaves the original as it is. *)
Theorem Copy_deep h p tx :
  tx_at h p = Some tx -> Forall hash32 (TxIns tx) ->
  exists p' h', Copy p h = (Ret p', h') /\ h `prefix_of` h' /\ tx_at h' p' = Some tx
    /\ (forall h2, (forall l, (length h <= l)%nat -> h2 !! l = h' !! l) -> tx_at h2 p' = Some tx)
    /\ (forall h2, (forall l, (l < length h)%nat -> h2 !! l = h' !! l) -> tx_at h2 p = Some tx).
Proof.
  intros Htx H32.
  destruct (copyTx_makes (length h) copyTxIn copyTxOut p tx h) as (p' & h' & E & Hp & Hv);
    [intros; by apply copyTxIn_makes|intros; by apply copyTxOut_makes|done..|].
  exists p', h'. split_and!; [done|done|by apply Hv, keeps_prefix| |].
  - intros h2 H2. apply Hv. intros l c Hl. by rewrite H2.
  - intros h2 H2. by eapply old_tx_kept.
Qed.

Lemma shallowTxIn_makes p ti h : txin_at h p = Some ti -> makes 0 (shallowTxIn p) txin_at ti h.
Proof.
  intros Hti. apply txin_at_inv in Hti as (s & w & Hp & Hs & Hw). unfold shallowTxIn.
  eapply makes_read; [by rewrite Hp|]. apply alloc_makes; [lia|].
  intros q h2 Hk Hq. unfold txin_at. rewrite Hq. unfold bytes_at in *.
  rewrite (elems_at_local _ h h2 s _ Hk Hs). simpl. rewrite (items_at_local h h2 w _ Hk Hw). by destruct ti.
Qed.

Lemma shallowTxOut_makes p to h : txout_at h p = Some to -> makes 0 (shallowTxOut p) txout_at to h.
Proof.
  intros Hto. apply txout_at_inv in Hto as (s & Hp & Hs). unfold shallowTxOut.
  eapply makes_read; [by rewrite Hp|]. apply alloc_makes; [lia|].
  intros q h2 Hk Hq. unfold txout_at. rewrite Hq. unfold bytes_at in *.
  rewrite (elems_at_local _ h h2 s _ Hk Hs). by destruct to.
Qed.

(** [shallowCopyTx] returns an equal transaction and changes nothing; the fields
    of the copy are new cells, so that assigning to them, as the signature hash
    does, leaves the original as it is. *)
Theorem shallowCopyTx_fields h p tx :
  tx_at h p = Some tx -> Forall hash32 (TxIns tx) ->
  exists p' h', shallowCopyTx_mem p h = (Ret p', h') /\ h `prefix_of` h' /\ tx_at h' p' = Some tx
    /\ (forall h2, (forall l, (l < length h)%nat -> h2 !! l = h' !! l) -> tx_at h2 p = Some tx).
Proof.
  intros Htx H32.
  destruct (copyTx_makes 0 shallowTxIn shallowTxOut p tx h) as (p' & h' & E & Hp & Hv);
    [intros; by apply shallowTxIn_makes|intros; by apply shallowTxOut_makes|lia|done..|].
  exists p', h'. split_and!; [done|done|by apply Hv, keeps_prefix|].
  intros h2 H2. by eapply old_tx_kept.
Qed.

(** ** Examples *)

(** A transaction as the decoder leaves it, its scripts in one buffer. *)
Definition heap_cells : heap :=
  [ABytes (str "sigwitpk");
   ASlices [Some (0%nat, 3, 3)];
   SIn (mkOutPoint (replicate 32 (z2b 7)) 1) (Some (0%nat, 0, 3)) (Some (1%nat, 0, 1)) 9;
   APtrs [2%nat];
   SOut 50 (Some (0%nat, 6, 2));
   APtrs [4%nat];
   STx 2 (Some (3%nat, 0, 1)) (Some (5%nat, 0, 1)) 11].

Definition heap_tx : MsgTx :=
  mkMsgTx 2 [mkTxIn (mkOutPoint (replicate 32 (z2b 7)) 1) (str "sig") [str "wit"] 9]
    [mkTxOut 50 (str "pk")] 11.

Lemma Copy_deep_witness : tx_at heap_cells 6 = Some heap_tx
  /\ exists p' h', Copy 6 heap_cells = (Ret p', h') /\ heap_cells `prefix_of` h'
    /\ tx_at h' p' = Some heap_tx
    /\ (forall h2, (forall l, (length heap_cells <= l)%nat -> h2 !! l = h' !! l) ->
          tx_at h2 p' = Some heap_tx)
    /\ (forall h2, (forall l, (l < length heap_cells)%nat -> h2 !! l = h' !! l) ->
          tx_at h2 6%nat = Some heap_tx).
Proof.
  split; [by vm_compute|]. apply (Copy_deep heap_cells 6 heap_tx); [by vm_compute|].
  repeat constructor.
Defined.

(** Overwriting the buffer of the original changes what it says and what the
    shallow copy says, and not what the deep copy says. *)
Example copies_share_scripts :
  let overwrite (h : heap) := <[0%nat := ABytes (str "SIGWITPK")]> h in
  let changed := mkMsgTx 2 [mkTxIn (mkOutPoint (replicate 32 (z2b 7)) 1) (str "SIG") [str "WIT"] 9]
    [mkTxOut 50 (str "PK")] 11 in
  let '(r, h) := Copy 6 heap_cells in
  let '(r', h') := shallowCopyTx_mem 6 heap_cells in
  match r, r' with
  | Ret p, Ret p' =>
      tx_at (overwrite h) 6 = Some changed /\ tx_at (overwrite h) p = Some heap_tx
      /\ tx_at (overwrite h') p' = Some changed
  | _, _ => False
  end.
Proof. vm_compute. done. Qed.
