(* ===== verification/HashCache.v ===== *)
(** Partial signature hashes and their cache
    (src/thoughtd/txscript/hashcache.go).

    The digests of the outpoints, sequences and outputs of a transaction are
    computed once and kept in a map under its identifier.  They are those of
    BIP 143; the map answers with the digests of the last transaction added under
    an identifier, unless it was purged since.  Each method runs under a mutex, so
    that a sequence of calls stands for every interleaving. *)

From S2P Require Import Prelude Crypto WireCommon WireTx Sighash.

(** ** Sources of previous outputs *)

#[export] Instance OutPoint_eq_dec : EqDecision OutPoint.
Proof. solve_decision. Defined.
#[export] Instance OutPoint_countable : Countable OutPoint.
Proof.
  by apply (inj_countable' (fun o => (Hash o, Index o)) (fun p => mkOutPoint p.1 p.2)); intros [].
Defined.

(** The interface; [None] is a nil pointer. *)
Class PrevOutputFetcher (F : Type) := FetchPrevOutput : F -> OutPoint -> option TxOut.

Record CannedPrevOutputFetcher := mkCanned { pkScript : bytes; amt : Z }.

Definition NewCannedPrevOutputFetcher (script : bytes) (amt : Z) : CannedPrevOutputFetcher :=
  mkCanned script amt.

#[export] Instance Canned_FetchPrevOutput : PrevOutputFetcher CannedPrevOutputFetcher :=
  fun c _ => Some (mkTxOut (amt c) (pkScript c)).

(** A map of pointers: a missing key reads as nil, and nil can be stored. *)
Record MultiPrevOutFetcher := mkMulti { prevOuts : gmap OutPoint (option TxOut) }.

(** The argument is nil or a map. *)
Definition NewMultiPrevOutFetcher (prevOuts : option (gmap OutPoint (option TxOut))) :
    MultiPrevOutFetcher :=
  mkMulti (match prevOuts with None => ∅ | Some m => m end).

#[export] Instance Multi_FetchPrevOutput : PrevOutputFetcher MultiPrevOutFetcher :=
  fun m op => match prevOuts m !! op with Some p => p | None => None end.

Definition AddPrevOut (op : OutPoint) (txOut : option TxOut) (m : MultiPrevOutFetcher) :
    MultiPrevOutFetcher :=
  mkMulti (<[op := txOut]> (prevOuts m)).

(** [for k, v := range other.prevOuts { m.prevOuts[k] = v }] *)
Definition Merge (other m : MultiPrevOutFetcher) : MultiPrevOutFetcher :=
  mkMulti (map_fold (fun k v acc => <[k := v]> acc) (prevOuts m) (prevOuts other)).

(** ** The digests *)

Record SegwitSigHashMidstate := mkSegwit {
  HashPrevOutsV0 : bytes; HashSequenceV0 : bytes; HashOutputsV0 : bytes }.

Record TaprootSigHashMidState := mkTaproot {
  HashPrevOutsV1 : bytes; HashSequenceV1 : bytes; HashOutputsV1 : bytes;
  HashInputScriptsV1 : bytes; HashInputAmountsV1 : bytes }.

Record TxSigHashes := mkTxSigHashes {
  segwit : SegwitSigHashMidstate; taproot : TaprootSigHashMidState }.

Definition zeroHash : bytes := replicate 32 (z2b 0).

(** The loop that finds out which digests are needed; [continue] for a coinbase
    input, [break] when both are. *)
Fixpoint neededMidstates (ins : list TxIn) (hasV0Inputs hasV1Inputs : bool) : bool * bool :=
  match ins with
  | [] => (hasV0Inputs, hasV1Inputs)
  | txIn :: ins =>
      let outpoint := PreviousOutPoint txIn in
      if (Index outpoint =? 0xffffffff) && bool_decide (Hash outpoint = zeroHash)
      then neededMidstates ins true hasV1Inputs
      else
        let hasV0Inputs := true in
        if hasV0Inputs && hasV1Inputs then (hasV0Inputs, hasV1Inputs)
        else neededMidstates ins hasV0Inputs hasV1Inputs
  end.

Section hashes.
Context `{Crypto}.

Definition HashH (b : bytes) : bytes := sha256 b.

(** The writes to a [bytes.Buffer] do not fail; [b.Bytes()] is what was written. *)
Definition written (m : RM unit) : bytes := (m []).2.

Definition calcHashPrevOuts (tx : MsgTx) : bytes :=
  HashH (written (forM (TxIns tx) (fun ti =>
    Write (Hash (PreviousOutPoint ti)) ;; Write (le_bytes 4 (Index (PreviousOutPoint ti)))))).

Definition calcHashSequence (tx : MsgTx) : bytes :=
  HashH (written (forM (TxIns tx) (fun ti => Write (le_bytes 4 (Sequence ti))))).

Definition calcHashOutputs (tx : MsgTx) : bytes :=
  HashH (written (forM (TxOuts tx) WriteTxOut)).

Section fetch.
Context {F} `{PrevOutputFetcher F}.

(** [prevOut.Value] and [prevOut.PkScript] dereference what was fetched. *)
Definition calcHashInputAmounts (tx : MsgTx) (inputFetcher : F) : outcome Empty_set bytes :=
  let '(r, b) := forM (TxIns tx) (fun ti =>
    prevOut <- liftO (orCrash (FetchPrevOutput inputFetcher (PreviousOutPoint ti))) ;;
    Write (le_bytes 8 (u64 (Value prevOut)))) [] in
  match r with Ret _ => Ret (HashH b) | _ => Crash end.

Definition calcHashInputScripts (tx : MsgTx) (inputFetcher : F) : outcome Empty_set bytes :=
  let '(r, b) := forM (TxIns tx) (fun ti =>
    prevOut <- liftO (orCrash (FetchPrevOutput inputFetcher (PreviousOutPoint ti))) ;;
    WriteVarBytes (PkScript prevOut)) [] in
  match r with Ret _ => Ret (HashH b) | _ => Crash end.

Definition NewTxSigHashes (tx : MsgTx) (inputFetcher : F) : outcome Empty_set TxSigHashes :=
  let '(hasV0Inputs, hasV1Inputs) := neededMidstates (TxIns tx) false false in
  let p1 := calcHashPrevOuts tx in
  let s1 := calcHashSequence tx in
  let o1 := calcHashOutputs tx in
  let v0 := if hasV0Inputs then mkSegwit (HashH p1) (HashH s1) (HashH o1)
            else mkSegwit zeroHash zeroHash zeroHash in
  let! (a1, c1) :=
    (if hasV1Inputs then
       let! a1 := calcHashInputAmounts tx inputFetcher in
       let! c1 := calcHashInputScripts tx inputFetcher in
       Ret (a1, c1)
     else Ret (zeroHash, zeroHash)) in
  Ret (mkTxSigHashes v0 (mkTaproot p1 s1 o1 c1 a1)).
End fetch.
End hashes.

(** ** The cache *)

Record HashCache := mkHashCache { sigHashes : gmap bytes TxSigHashes }.

(** [make(map[..]*TxSigHashes, maxSize)]: the size is a hint for the allocation. *)
Definition NewHashCache (maxSize : Z) : HashCache := mkHashCache ∅.

Definition AddSigHashes `{Crypto} `{PrevOutputFetcher F} (tx : MsgTx) (inputFetcher : F) :
    M HashCache Empty_set unit :=
  let txid := TxHash tx in
  s <- liftO (NewTxSigHashes tx inputFetcher) ;;
  modifyM (fun h => mkHashCache (<[txid := s]> (sigHashes h))).

Definition ContainsHashes (txid : bytes) (h : HashCache) : bool :=
  match sigHashes h !! txid with Some _ => true | None => false end.

Definition GetSigHashes (txid : bytes) (h : HashCache) : option TxSigHashes * bool :=
  match sigHashes h !! txid with Some item => (Some item, true) | None => (None, false) end.

Definition PurgeSigHashes (txid : bytes) : M HashCache Empty_set unit :=
  modifyM (fun h => mkHashCache (delete txid (sigHashes h))).

(** ** Proofs: the digests *)

#[local] Opaque le_bytes.

Lemma forM_writes_all {A} (f : A -> RM unit) (enc : A -> bytes) l :
  (forall x w, x ∈ l -> f x w = (Ret tt, w ++ enc x)) ->
  forall w, forM l f w = (Ret tt, w ++ concat (map enc l)).
Proof.
  induction l as [|x l IH]; intros Hf w; simpl; [by rewrite app_nil_r|].
  erewrite bindM_step by (apply Hf; left). rewrite IH, <- app_assoc; [done|].
  intros y w' Hy. apply Hf. by right.
Qed.

(** No input ever asks for the digests of taproot. *)
Lemma neededMidstates_v0 ins v0 :
  neededMidstates ins v0 false = (v0 || negb (bool_decide (ins = [])), false).
Proof.
  revert v0. induction ins as [|ti ins IH]; intros v0; simpl; [by rewrite orb_false_r|].
  rewrite !IH, orb_true_r. by destruct (_ && _).
Qed.

Section digests.
Context `{Crypto}.

(** The digests of BIP 143, on the encodings of the wire. *)
Definition hashPrevouts (tx : MsgTx) : bytes :=
  DoubleHashH (concat (map (fun ti => outpoint_bytes (PreviousOutPoint ti)) (TxIns tx))).
Definition hashSequence (tx : MsgTx) : bytes :=
  DoubleHashH (concat (map (fun ti => le_bytes 4 (Sequence ti)) (TxIns tx))).
Definition hashOutputs (tx : MsgTx) : bytes :=
  DoubleHashH (concat (map txout_bytes (TxOuts tx))).
Definition bip143 (tx : MsgTx) : SegwitSigHashMidstate :=
  mkSegwit (hashPrevouts tx) (hashSequence tx) (hashOutputs tx).

(** What is computed for a transaction, as a function of it alone. *)
Definition midstates (tx : MsgTx) : TxSigHashes :=
  mkTxSigHashes
    (if decide (TxIns tx = []) then mkSegwit zeroHash zeroHash zeroHash else bip143 tx)
    (mkTaproot (sha256 (concat (map (fun ti => outpoint_bytes (PreviousOutPoint ti)) (TxIns tx))))
       (sha256 (concat (map (fun ti => le_bytes 4 (Sequence ti)) (TxIns tx))))
       (sha256 (concat (map txout_bytes (TxOuts tx)))) zeroHash zeroHash).

Lemma NewTxSigHashes_midstates `{PrevOutputFetcher F} tx (f : F) :
  Forall txout_wf (TxOuts tx) -> NewTxSigHashes tx f = Ret (midstates tx).
Proof.
  intros Ho. unfold NewTxSigHashes, midstates, bip143, hashPrevouts, hashSequence, hashOutputs.
  rewrite neededMidstates_v0.
  assert (calcHashPrevOuts tx
    = sha256 (concat (map (fun ti => outpoint_bytes (PreviousOutPoint ti)) (TxIns tx)))) as ->.
  { unfold calcHashPrevOuts, written. rewrite (forM_writes_all _
      (fun ti => outpoint_bytes (PreviousOutPoint ti))); [done|].
    intros ti w _. unfold bindM, Write, outpoint_bytes. by rewrite <- app_assoc. }
  assert (calcHashSequence tx
    = sha256 (concat (map (fun ti => le_bytes 4 (Sequence ti)) (TxIns tx)))) as ->.
  { unfold calcHashSequence, written. by rewrite (forM_writes_all _ (fun ti => le_bytes 4 (Sequence ti))). }
  assert (calcHashOutputs tx = sha256 (concat (map txout_bytes (TxOuts tx)))) as ->.
  { unfold calcHashOutputs, written. rewrite (forM_writes_all _ txout_bytes); [done|].
    intros to w Hto. apply codec_write. by eapply Forall_forall in Hto. }
  unfold DoubleHashH, HashH. simpl. by destruct (TxIns tx).
Qed.

(** The digests do not depend on the witnesses. *)
Lemma midstates_strip tx1 tx2 : tx_strip tx1 = tx_strip tx2 -> midstates tx1 = midstates tx2.
Proof.
  unfold tx_strip. intros [= _ Hins Hout _].
  assert (forall {A} (g : TxIn -> A), (forall ti, g (strip ti) = g ti) ->
    map g (TxIns tx1) = map g (TxIns tx2)) as Hg.
  { intros A g Hg. rewrite <- (map_ext (fun ti => g (strip ti)) g), <- !(map_map strip g), Hins by done.
    rewrite map_map. by apply map_ext. }
  unfold midstates, bip143, hashPrevouts, hashSequence, hashOutputs.
  rewrite Hout, !(Hg _ (fun ti => outpoint_bytes (PreviousOutPoint ti))),
    !(Hg _ (fun ti => le_bytes 4 (Sequence ti))) by done.
  f_equal. pose proof (Hg _ (fun _ => tt) (fun _ => eq_refl)) as Hl.
  by destruct (TxIns tx1), (TxIns tx2).
Qed.
End digests.

(** Whatever the source of previous outputs, the partial hashes of a
    transaction with inputs are computed without panic and are those of BIP 143:
    the double hashes of its outpoints, its sequences and its outputs; the single
    ones are kept for taproot, whose two other digests are never filled in. *)
Theorem NewTxSigHashes_bip143 `{Crypto} `{PrevOutputFetcher F} tx (f : F) :
  tx_wf tx -> TxIns tx <> [] ->
  exists s, NewTxSigHashes tx f = Ret s /\ segwit s = bip143 tx
    /\ hashPrevouts tx = HashH (HashPrevOutsV1 (taproot s))
    /\ hashSequence tx = HashH (HashSequenceV1 (taproot s))
    /\ hashOutputs tx = HashH (HashOutputsV1 (taproot s))
    /\ HashInputAmountsV1 (taproot s) = zeroHash /\ HashInputScriptsV1 (taproot s) = zeroHash.
Proof.
  intros (_ & _ & [_ Ho] & _) Hi. exists (midstates tx).
  rewrite NewTxSigHashes_midstates by done. split_and!; try done.
  unfold midstates. simpl. by rewrite decide_False.
Qed.

(** ** The cache as a map from identifiers to transactions *)

Section cache.
Context `{Crypto} {F : Type} `{PrevOutputFetcher F}.

Inductive cacheCall := CAdd (tx : MsgTx) (inputFetcher : F) | CPurge (txid : bytes).

Definition run_call (c : cacheCall) : M HashCache Empty_set unit :=
  match c with CAdd tx f => AddSigHashes tx f | CPurge txid => PurgeSigHashes txid end.

Definition call_wf (c : cacheCall) : Prop := match c with CAdd tx _ => tx_wf tx | CPurge _ => True end.

(** The transaction that [txid] stands for after the calls [cs]: the last one
    added under it, unless it was purged later. *)
Definition latest_step (txid : bytes) (cur : option MsgTx) (c : cacheCall) : option MsgTx :=
  match c with
  | CAdd tx _ => if decide (TxHash tx = txid) then Some tx else cur
  | CPurge t => if decide (t = txid) then None else cur
  end.
Definition latest (txid : bytes) (cs : list cacheCall) : option MsgTx :=
  fold_left (latest_step txid) cs None.

(** The cache holds, under each identifier, the digests of the transaction that
    [cur] gives for it. *)
Definition represents (h : HashCache) (cur : bytes -> option MsgTx) : Prop :=
  forall txid, sigHashes h !! txid = midstates <$> cur txid.

Lemma run_call_represents c h cur :
  call_wf c -> represents h cur ->
  exists h', run_call c h = (Ret tt, h') /\ represents h' (fun txid => latest_step txid (cur txid) c).
Proof using.
  intros Hc Hr. destruct c as [tx f|t]; simpl.
  - destruct Hc as (_ & _ & [_ Ho] & _). unfold AddSigHashes. cbv zeta.
    unfold bindM, liftO. rewrite NewTxSigHashes_midstates by done. eexists. split; [done|].
    intros txid. simpl. destruct (decide (TxHash tx = txid)) as [<-|Hne].
    + by rewrite lookup_insert_eq.
    + by rewrite lookup_insert_ne.
  - eexists. split; [done|]. intros txid. simpl. destruct (decide (t = txid)) as [<-|Hne].
    + by rewrite lookup_delete_eq.
    + by rewrite lookup_delete_ne.
Qed.

Lemma run_represents cs : forall h cur,
  Forall call_wf cs -> represents h cur ->
  exists h', forM cs run_call h = (Ret tt, h')
    /\ represents h' (fun txid => fold_left (latest_step txid) cs (cur txid)).
Proof using.
  induction cs as [|c cs IH]; intros h cur Hcs Hr; simpl; [by eexists|].
  inversion Hcs; subst. destruct (run_call_represents c h cur) as (h1 & E & Hr1); [done..|].
  erewrite bindM_step by exact E. by apply IH.
Qed.

Lemma latest_added txid cs tx :
  latest txid cs = Some tx -> TxHash tx = txid /\ exists f, CAdd tx f ∈ cs.
Proof using.
  unfold latest. induction cs as [|c cs IH] using rev_ind; [done|].
  rewrite fold_left_app. simpl. intros Hs.
  assert ((TxHash tx = txid /\ exists f, c = CAdd tx f) \/ fold_left (latest_step txid) cs None = Some tx)
    as [[? [f ->]]|Hl].
  { destruct c; simpl in Hs; case_decide; simplify_eq; eauto. }
  - split; [done|]. exists f. apply elem_of_app. right. by left.
  - destruct (IH Hl) as [? [f ?]]. split; [done|]. exists f. apply elem_of_app. by left.
Qed.
End cache.
Arguments cacheCall : clear implicits.

(** C15: After any sequence of additions and purges the cache answers, for every
    identifier, with the digests of the last transaction added under it, or that
    there are none if there was no such transaction or it was purged since. *)
Theorem HashCache_refines `{Crypto} `{PrevOutputFetcher F} (maxSize : Z) (cs : list (cacheCall F)) :
  Forall call_wf cs ->
  exists h, forM cs run_call (NewHashCache maxSize) = (Ret tt, h)
    /\ forall txid, ContainsHashes txid h = (if latest txid cs then true else false)
       /\ GetSigHashes txid h = (midstates <$> latest txid cs, if latest txid cs then true else false).
Proof.
  intros Hcs. destruct (run_represents cs (NewHashCache maxSize) (fun _ => None)) as (h & E & Hr).
  { done. } { intros txid. apply lookup_empty. }
  exists h. split; [done|]. intros txid. unfold ContainsHashes, GetSigHashes, latest.
  rewrite (Hr txid). by destruct (fold_left _ _ _).
Qed.

(** A hit is right: if no transaction that was added collides with [tx], the
    digests that the cache returns under the identifier of [tx] are those that
    [NewTxSigHashes] computes for [tx]. *)
Theorem GetSigHashes_hit `{Crypto} `{PrevOutputFetcher F} (maxSize : Z) (cs : list (cacheCall F)) tx h s b
    (inputFetcher : F) :
  Forall call_wf cs -> tx_wf tx ->
  (forall tx' f, CAdd tx' f ∈ cs -> TxHash tx' = TxHash tx ->
     (SerializeNoWitness tx' []).2 = (SerializeNoWitness tx []).2) ->
  forM cs run_call (NewHashCache maxSize) = (Ret tt, h) -> GetSigHashes (TxHash tx) h = (Some s, b) ->
  b = true /\ NewTxSigHashes tx inputFetcher = Ret s.
Proof.
  intros Hcs Htx Hcol E Hget.
  destruct (run_represents cs (NewHashCache maxSize) (fun _ => None)) as (h' & E' & Hr).
  { done. } { intros txid. apply lookup_empty. }
  rewrite E in E'. injection E' as <-. unfold GetSigHashes in Hget.
  rewrite (Hr (TxHash tx)) in Hget. fold (latest (TxHash tx) cs) in Hget.
  destruct (latest (TxHash tx) cs) as [tx'|] eqn:Hl; simplify_eq/=. split; [done|].
  apply latest_added in Hl as [Hid [f Hf]].
  rewrite NewTxSigHashes_midstates by apply Htx. f_equal. apply midstates_strip.
  apply serialize_inj; [done| |by symmetry; eapply Hcol].
  by eapply Forall_forall in Hf; [|exact Hcs].
Qed.

(** ** Merging sources *)

Lemma Merge_union other m : prevOuts (Merge other m) = prevOuts other ∪ prevOuts m.
Proof.
  simpl. apply (map_fold_weak_ind (fun r o => r = o ∪ prevOuts m)).
  - by rewrite map_empty_union.
  - intros i x o r _ ->. apply insert_union_l.
Qed.

(** The merged source knows what either knew, the other one first. *)
Lemma Merge_fetch other m op :
  FetchPrevOutput (Merge other m) op
  = match prevOuts other !! op with Some p => p | None => FetchPrevOutput m op end.
Proof.
  unfold FetchPrevOutput, Multi_FetchPrevOutput. rewrite Merge_union, lookup_union.
  by destruct (prevOuts other !! op), (prevOuts m !! op).
Qed.

(** ** Examples *)

Definition hc_tx (n : Z) : MsgTx :=
  mkMsgTx 2 [mkTxIn (mkOutPoint (replicate 32 (z2b 7)) n) (str "sig") [] 9] [mkTxOut 50 (str "pk")] n.
Definition hc_canned : CannedPrevOutputFetcher := NewCannedPrevOutputFetcher (str "pk") 50.

Lemma hc_tx_wf n : 0 <= n < 2 ^ 32 -> tx_wf (hc_tx n).
Proof.
  intros Hn. split; [by vm_compute|]. split; [|split; [|split]].
  - split; [by vm_compute|]. repeat constructor; try done; try apply Hn; vm_compute; done.
  - split; [by vm_compute|]. repeat constructor; vm_compute; done.
  - repeat constructor; vm_compute; done.
  - apply Hn.
Qed.

Definition hc_calls : list (cacheCall CannedPrevOutputFetcher) :=
  [CAdd (hc_tx 1) hc_canned; CAdd (hc_tx 2) hc_canned; CPurge (TxHash (H := toy) (hc_tx 1))].

Lemma hc_calls_wf : Forall call_wf hc_calls.
Proof. unfold hc_calls. do 2 (constructor; [by apply hc_tx_wf|]). by repeat constructor. Qed.

Lemma hc_added tx f : CAdd tx f ∈ hc_calls -> tx = hc_tx 1 \/ tx = hc_tx 2.
Proof.
  unfold hc_calls. generalize (hc_tx 1), (hc_tx 2), (TxHash (H := toy) (hc_tx 1)).
  intros t1 t2 i Hin. rewrite !elem_of_cons, elem_of_nil in Hin. naive_solver.
Qed.

Lemma NewTxSigHashes_bip143_witness : exists s,
  NewTxSigHashes (H := toy) (hc_tx 1) hc_canned = Ret s /\ segwit s = bip143 (H := toy) (hc_tx 1).
Proof.
  destruct (NewTxSigHashes_bip143 (H := toy) (hc_tx 1) hc_canned) as (s & E & Hs & _);
    [apply hc_tx_wf; lia|done|by exists s].
Defined.

Lemma HashCache_refines_witness : exists h,
  forM hc_calls (run_call (H := toy)) (NewHashCache 1) = (Ret tt, h)
  /\ ContainsHashes (TxHash (H := toy) (hc_tx 1)) h = false
  /\ ContainsHashes (TxHash (H := toy) (hc_tx 2)) h = true.
Proof.
  destruct (HashCache_refines (H := toy) 1 hc_calls hc_calls_wf) as (h & E & Hh).
  exists h. split; [done|]. split; rewrite (proj1 (Hh _)); by vm_compute.
Defined.

Lemma GetSigHashes_hit_witness :
  let h := (forM hc_calls (run_call (H := toy)) (NewHashCache 1)).2 in
  exists s, (GetSigHashes (TxHash (H := toy) (hc_tx 2)) h).1 = Some s
    /\ NewTxSigHashes (H := toy) (hc_tx 2) hc_canned = Ret s.
Proof.
  cbv zeta. eexists. split; [vm_compute; reflexivity|].
  refine (proj2 (GetSigHashes_hit (H := toy) 1 hc_calls (hc_tx 2) _ _ true hc_canned hc_calls_wf _ _ _ _)).
  - apply hc_tx_wf; lia.
  - intros tx' f Hin. apply hc_added in Hin as [->| ->]; intros E; [|reflexivity].
    by vm_compute in E.
  - vm_compute. reflexivity.
  - vm_compute. reflexivity.
Defined.

(** The bound given to [NewHashCache] does not bound the number of entries. *)
Example HashCache_unbounded :
  let h := (forM [CAdd (hc_tx 1) hc_canned; CAdd (hc_tx 2) hc_canned] (run_call (H := toy))
              (NewHashCache 1)).2 in
  size (sigHashes h) = 2%nat.
Proof. by vm_compute. Qed.
