(* ===== verification/AtomicSwap.v ===== *)
(** Atomic swap contracts (src/thoughtd/txscript/standard.go,
    [ExtractAtomicSwapDataPushes]).

    A table of twenty entries is matched against the opcodes of a script; an entry
    asks for an opcode or for an integer, and what matched is stored in it.  The
    function is shown to accept exactly the contracts of the format. *)

From S2P Require Import Prelude ScriptError ScriptNum Opcodes Tokenizer Script WireTx.

Record AtomicSwapDataPushes := mkSwap {
  RecipientHash160 : bytes;
  RefundHash160 : bytes;
  SecretHash : bytes;
  SecretSize : Z;
  LockTime : Z }.

Record templateMatch := mkMatch {
  expectCanonicalInt : bool;
  maxIntBytes : Z;
  t_opcode : Z;
  extractedInt : Z;
  extractedData : option bytes }.

Definition t_op (opcode : Z) : templateMatch := mkMatch false 0 opcode 0 None.
Definition t_int (maxIntBytes : Z) : templateMatch := mkMatch true maxIntBytes 0 0 None.

Definition template : list templateMatch :=
  [t_op OP_IF;
   t_op OP_SIZE; t_int maxScriptNumLen; t_op OP_EQUALVERIFY;
   t_op OP_SHA256; t_op OP_DATA_32; t_op OP_EQUALVERIFY;
   t_op OP_DUP; t_op OP_HASH160; t_op OP_DATA_20;
   t_op OP_ELSE;
   t_int cltvMaxScriptNumLen; t_op OP_CHECKLOCKTIMEVERIFY; t_op OP_DROP;
   t_op OP_DUP; t_op OP_HASH160; t_op OP_DATA_20;
   t_op OP_ENDIF;
   t_op OP_EQUALVERIFY; t_op OP_CHECKSIG].

Definition set_extractedInt (n : Z) (e : templateMatch) : templateMatch :=
  mkMatch (expectCanonicalInt e) (maxIntBytes e) (t_opcode e) n (extractedData e).
Definition set_extractedData (d : option bytes) (e : templateMatch) : templateMatch :=
  mkMatch (expectCanonicalInt e) (maxIntBytes e) (t_opcode e) (extractedInt e) d.

(** What the body of the loop does with an entry: the entry with what was
    extracted, [None] for [return nil, nil], or the error. *)
Definition matchEntry (e : templateMatch) (op : Z) (data : option bytes) :
    outcome ErrorCode (option templateMatch) :=
  if expectCanonicalInt e then
    match data with
    | Some d => let! val := makeScriptNum d true (maxIntBytes e) in Ret (Some (set_extractedInt val e))
    | None => if isSmallInt op then Ret (Some (set_extractedInt (asSmallInt op) e)) else Ret None
    end
  else if negb (op =? t_opcode e) then Ret None else Ret (Some (set_extractedData data e)).

(** The variables of the loop are the table and [templateOffset]. *)
Definition swapBody (t : ScriptTokenizer) (st : list templateMatch * Z) :
    outcome ErrorCode ((list templateMatch * Z) + unit) :=
  let '(tpl, templateOffset) := st in
  if templateOffset >=? zlen tpl then Ret (inr tt) else
  let! op := Opcode t in
  let data := Data t in
  let! tplEntry := orCrash (znth tpl templateOffset) in
  let! r := matchEntry tplEntry op data in
  match r with
  | None => Ret (inr tt)
  | Some e => Ret (inl (<[Z.to_nat templateOffset := e]> tpl, templateOffset + 1))
  end.

(** [copy(dst[:], src)] into an array of [n] zeros *)
Definition copyArray (n : nat) (src : option bytes) : bytes :=
  copy_at (replicate n (z2b 0)) 0 (bytes_of src).

(** The version is not used. *)
Definition ExtractAtomicSwapDataPushes (version : Z) (pkScript : bytes) :
    outcome ErrorCode (option AtomicSwapDataPushes) :=
  let! r := for_next (tok_fuel pkScript) swapBody (MakeScriptTokenizer pkScript) (template, 0) in
  match r with
  | inr _ => Ret None
  | inl ((tpl, templateOffset), tokenizer) =>
      match Err tokenizer with
      | Some err => Fail err
      | None =>
          if negb (Done tokenizer) || negb (templateOffset =? zlen template) then Ret None else
          let! e2 := orCrash (znth tpl 2) in
          let! e11 := orCrash (znth tpl 11) in
          let! e5 := orCrash (znth tpl 5) in
          let! e9 := orCrash (znth tpl 9) in
          let! e16 := orCrash (znth tpl 16) in
          Ret (Some (mkSwap (copyArray 20 (extractedData e9)) (copyArray 20 (extractedData e16))
                       (copyArray 32 (extractedData e5)) (extractedInt e2) (extractedInt e11)))
      end
  end.

(** ** The format of a contract *)

(** An opcode that pushes the integer [n], in at most [len] bytes if it has data. *)
Definition pushes_int (len : Z) (p : opcode * option bytes) (n : Z) : Prop :=
  match p.2 with
  | Some d => makeScriptNum d true len = Ret n
  | None => isSmallInt (value p.1) = true /\ n = asSmallInt (value p.1)
  end.

Definition plain (o : Z) : opcode * option bytes := (opcode_at (z2b o), None).
Definition pushed (b : bytes) : opcode * option bytes := (opcode_at (z2b (zlen b)), Some b).

(** The opcodes of a contract with the pushes [ps] and [pl] of the two integers. *)
Definition contract_ops (ps pl : opcode * option bytes) (p : AtomicSwapDataPushes) :
    list (opcode * option bytes) :=
  [plain OP_IF;
   plain OP_SIZE; ps; plain OP_EQUALVERIFY;
   plain OP_SHA256; pushed (SecretHash p); plain OP_EQUALVERIFY;
   plain OP_DUP; plain OP_HASH160; pushed (RecipientHash160 p);
   plain OP_ELSE;
   pl; plain OP_CHECKLOCKTIMEVERIFY; plain OP_DROP;
   plain OP_DUP; plain OP_HASH160; pushed (RefundHash160 p);
   plain OP_ENDIF;
   plain OP_EQUALVERIFY; plain OP_CHECKSIG].

Definition is_contract (s : bytes) (p : AtomicSwapDataPushes) : Prop :=
  zlen (SecretHash p) = 32 /\ zlen (RecipientHash160 p) = 20 /\ zlen (RefundHash160 p) = 20
  /\ parses s = true
  /\ exists ps pl, pushes_int 4 ps (SecretSize p) /\ pushes_int 5 pl (LockTime p)
     /\ ops s = contract_ops ps pl p.

(** ** Proofs *)

Lemma Next_false_done t t' : Next t = (Ret false, t') -> Done t' = true.
Proof.
  unfold Next. runM. intros H.
  repeat match type of H with
  | context [match ?x with _ => _ end] => destruct x eqn:?
  end; simplify_eq; done.
Qed.

Lemma for_next_done {A R} (body : ScriptTokenizer -> A -> outcome ErrorCode (A + R)) fuel : forall t a a' t',
  for_next fuel body t a = Ret (inl (a', t')) -> Done t' = true.
Proof.
  induction fuel as [|fuel IH]; intros t a a' t' H; simpl in H; [done|].
  destruct (Next t) as [[[] | | |] t1] eqn:E; try done.
  - destruct (body t1 a) as [[]| | |]; try done. by eapply IH.
  - injection H as <- <-. by eapply Next_false_done.
Qed.

(** The loop over the rest of the table, on opcodes. *)
Fixpoint matchAll (es : list templateMatch) (l : list (opcode * option bytes)) {struct l} :
    outcome ErrorCode (option (list templateMatch * list templateMatch)) :=
  match l with
  | [] => Ret (Some ([], es))
  | (o, d) :: l =>
      match es with
      | [] => Ret None
      | e :: es =>
          let! r := matchEntry e (value o) d in
          match r with
          | None => Ret None
          | Some e' =>
              let! r := matchAll es l in
              Ret (match r with Some (fs, rest) => Some (e' :: fs, rest) | None => None end)
          end
      end
  end.

Lemma swap_loop l : forall t dn es, exists t',
  fold_parsed swapBody t l (dn ++ es, zlen dn)
  = (let! r := matchAll es (map fst l) in
     Ret (match r with
          | None => inr tt
          | Some (fs, rest) => inl ((dn ++ fs ++ rest, zlen dn + zlen fs), t')
          end))
  /\ (err t = None -> err t' = None).
Proof.
  induction l as [|[[o d] r] l IH]; intros t dn es; cbn [fold_parsed map matchAll fst].
  { exists t. cbn [bindO]. change (zlen (@nil templateMatch)) with 0. by rewrite Z.add_0_r. }
  unfold swapBody at 1. cbn [tok_after Opcode op Data data bindO].
  destruct es as [|e es].
  { exists t. rewrite app_nil_r. rewrite Z.geb_leb, Z.leb_refl. done. }
  rewrite Z.geb_leb, (proj2 (Z.leb_gt _ _)) by (rewrite zlen_app, zlen_cons; pose proof (zlen_nonneg es); lia).
  rewrite znth_app_r, Z.sub_diag by lia. change (znth (e :: es) 0) with (Some e).
  cbn [orCrash bindO]. destruct (matchEntry e (value o) d) as [[e'|]| | |]; cbn [bindO]; try by exists t.
  rewrite zlen_to_nat, insert_app_r_alt, Nat.sub_diag by done.
  change (<[0%nat := e']> (e :: es)) with (e' :: es).
  destruct (IH (tok_after t (o, d, r)) (dn ++ [e']) es) as (t' & E & Ht').
  exists t'. split; [|auto]. rewrite zlen_app, <- app_assoc in E. change (zlen [e']) with 1 in E.
  cbn [app tok_after] in E. rewrite E. destruct (matchAll es (map fst l)) as [[[fs rest]|]| | |]; cbn [bindO]; try done.
  rewrite <- app_assoc, zlen_cons, Z.add_assoc. done.
Qed.

(** What a match of an entry says of the opcode. *)
Lemma matchEntry_op s c p e :
  p ∈ ops s -> matchEntry (t_op c) (value p.1) p.2 = Ret (Some e) ->
  e = set_extractedData p.2 (t_op c) /\ p.1 = opcode_at (z2b c)
  /\ match p.2 with
     | None => op_length (opcode_at (z2b c)) = 1
     | Some d => op_length (opcode_at (z2b c)) <> 1
                 /\ (1 < op_length (opcode_at (z2b c)) -> zlen d = op_length (opcode_at (z2b c)) - 1)
     end.
Proof.
  intros Hp H. unfold matchEntry in H. cbn [expectCanonicalInt t_op t_opcode] in H.
  destruct (Z.eqb_spec (value p.1) c) as [E|E]; simplify_eq/=.
  destruct (ops_value s p _ Hp eq_refl) as [Ho Hd]. rewrite <- Ho. done.
Qed.

Lemma matchEntry_plain s c p e :
  op_length (opcode_at (z2b c)) = 1 ->
  p ∈ ops s -> matchEntry (t_op c) (value p.1) p.2 = Ret (Some e) -> p = plain c.
Proof.
  intros Hc Hp H. apply (matchEntry_op s) in H as (_ & Ho & Hd); [|done].
  destruct p as [o [d|]]; simpl in *; [by destruct Hd|]. by rewrite Ho.
Qed.

Lemma matchEntry_push s c p e :
  1 < c -> op_length (opcode_at (z2b c)) = c + 1 ->
  p ∈ ops s -> matchEntry (t_op c) (value p.1) p.2 = Ret (Some e) ->
  exists b, p = pushed b /\ zlen b = c /\ extractedData e = Some b.
Proof.
  intros Hc Hl Hp H. apply (matchEntry_op s) in H as (-> & Ho & Hd); [|done].
  destruct p as [o [d|]]; simpl in *; [|lia]. exists d. unfold pushed.
  assert (zlen d = c) as E by (destruct Hd as [_ Hd]; specialize (Hd ltac:(lia)); lia).
  split_and!; [|done|done]. by rewrite Ho, E.
Qed.

Lemma matchEntry_int len p e :
  matchEntry (t_int len) (value p.1) p.2 = Ret (Some e) -> pushes_int len p (extractedInt e).
Proof.
  unfold matchEntry, pushes_int. cbn [expectCanonicalInt t_int maxIntBytes].
  destruct p.2 as [d|].
  - destruct (makeScriptNum d true len); intros H; by simplify_eq/=.
  - destruct (isSmallInt (value p.1)); intros H; by simplify_eq/=.
Qed.

(** ** The loop accepts exactly the contracts *)

Lemma matchAll_inv l : forall es fs rest,
  matchAll es l = Ret (Some (fs, rest)) ->
  exists es1, es = es1 ++ rest /\ Forall3 (fun e p f => matchEntry e (value p.1) p.2 = Ret (Some f)) es1 l fs.
Proof.
  induction l as [|[o d] l IH]; intros es fs rest H; cbn [matchAll] in H.
  { injection H as <- <-. exists []. by split; [|constructor]. }
  destruct es as [|e es]; [done|].
  destruct (matchEntry e (value o) d) as [[f|]| | |] eqn:E; try done. cbn [bindO] in H.
  destruct (matchAll es l) as [[[fs' r']|]| | |] eqn:E2; simplify_eq/=.
  destruct (IH es fs' rest E2) as (es1 & -> & HF). exists (e :: es1). split; [done|]. by constructor.
Qed.

Lemma matchAll_Forall3 es l fs :
  Forall3 (fun e p f => matchEntry e (value p.1) p.2 = Ret (Some f)) es l fs ->
  matchAll es l = Ret (Some (fs, [])).
Proof.
  induction 1 as [|e [o d] f es l fs E HF IH]; [done|]. cbn [matchAll fst snd] in *.
  rewrite E. cbn [bindO]. by rewrite IH.
Qed.

Lemma matchAll_full l fs rest :
  matchAll template l = Ret (Some (fs, rest)) -> zlen fs = 20 ->
  rest = [] /\ Forall3 (fun e p f => matchEntry e (value p.1) p.2 = Ret (Some f)) template l fs.
Proof.
  intros EM E20. apply matchAll_inv in EM as (es1 & Et & HF). apply Forall3_length_lr in HF as Hl.
  assert (rest = []) as ->.
  { apply (f_equal length) in Et. rewrite length_app in Et. simpl in Et. apply length_zero_iff_nil.
    unfold zlen in E20. lia. }
  rewrite app_nil_r in Et. by subst.
Qed.

(** The function in terms of the opcodes of the script. *)
Lemma Extract_spec v s :
  zlen s < 2 ^ 31 ->
  ExtractAtomicSwapDataPushes v s =
  let! r := matchAll template (ops s) in
  match r with
  | None => Ret None
  | Some (fs, rest) =>
      if parses s then
        if decide (zlen fs = 20) then
          match fs ++ rest with
          | [_; _; e2; _; _; e5; _; _; _; e9; _; e11; _; _; _; _; e16; _; _; _] =>
              Ret (Some (mkSwap (copyArray 20 (extractedData e9)) (copyArray 20 (extractedData e16))
                           (copyArray 32 (extractedData e5)) (extractedInt e2) (extractedInt e11)))
          | _ => Crash
          end
        else Ret None
      else Fail ErrMalformedPush
  end.
Proof.
  intros Hs. unfold ExtractAtomicSwapDataPushes.
  pose proof (for_next_done swapBody (tok_fuel s) (MakeScriptTokenizer s) (template, 0)) as Hdone.
  rewrite for_next_make in * by done. unfold ops, parses. destruct (parse_script s) as [l ok].
  cbn [fst snd] in *. destruct (swap_loop l (MakeScriptTokenizer s) [] template) as (t' & E & Ht).
  specialize (Ht eq_refl). cbn [app] in E. change (zlen (@nil templateMatch)) with 0 in E.
  rewrite E in *. destruct (matchAll template (map fst l)) as [[[fs rest]|]| | |] eqn:EM; cbn [bindO] in *; try done.
  specialize (Hdone _ _ eq_refl). destruct ok; [|done]. unfold Err. rewrite Ht, Hdone. cbn [negb orb].
  change (zlen template) with 20. rewrite Z.add_0_l.
  destruct (Z.eqb_spec (zlen fs) 20) as [E20|E20]; [|by rewrite decide_False].
  rewrite decide_True by done. cbn [negb].
  apply matchAll_full in EM as [-> HF]; [|done].
  rewrite app_nil_r. do 20 (destruct fs as [|? fs]; [done|]). destruct fs; [done|].
  exfalso. unfold zlen in E20. simpl in E20. lia.
Qed.

Lemma copyArray_whole n b : zlen b = Z.of_nat n -> copyArray n (Some b) = b.
Proof.
  intros H. unfold copyArray, bytes_of. rewrite <- (Nat2Z.id n), <- H. apply copy_at_whole.
Qed.

Lemma matchEntry_pushes_int len p n :
  pushes_int len p n -> matchEntry (t_int len) (value p.1) p.2 = Ret (Some (set_extractedInt n (t_int len))).
Proof.
  unfold pushes_int, matchEntry. cbn [expectCanonicalInt t_int maxIntBytes].
  destruct p.2 as [d|]; [by intros ->|]. by intros [-> ->].
Qed.

(** What the table holds after a contract was matched. *)
Definition filled (p : AtomicSwapDataPushes) : list templateMatch :=
  zip_with (fun e f => f e) template
    [id; id; set_extractedInt (SecretSize p); id; id; set_extractedData (Some (SecretHash p));
     id; id; id; set_extractedData (Some (RecipientHash160 p)); id; set_extractedInt (LockTime p);
     id; id; id; id; set_extractedData (Some (RefundHash160 p)); id; id; id].

Lemma contract_matches ps pl p :
  zlen (SecretHash p) = 32 -> zlen (RecipientHash160 p) = 20 -> zlen (RefundHash160 p) = 20 ->
  pushes_int 4 ps (SecretSize p) -> pushes_int 5 pl (LockTime p) ->
  matchAll template (contract_ops ps pl p) = Ret (Some (filled p, [])).
Proof.
  intros H1 H2 H3 Hs Hl. apply matchAll_Forall3. unfold template, contract_ops, filled, pushed.
  rewrite H1, H2, H3. cbn [zip_with template].
  repeat constructor; first [reflexivity | by apply matchEntry_pushes_int].
Qed.

(** Take the first entry off a match of the table with the opcodes of [s]. *)
Ltac peel HF p f :=
  let Hin := fresh in let H := fresh in
  apply Forall3_cons_inv_l in HF as (p & ? & f & ? & -> & -> & [Hin H] & HF);
  lazymatch type of H with
  | matchEntry (t_int _) _ _ = _ => apply matchEntry_int in H
  | matchEntry (t_op ?c) _ _ = _ =>
      first [apply (matchEntry_plain _ c _ _ eq_refl Hin) in H; subst p
            |apply (matchEntry_push _ c _ _ eq_refl eq_refl Hin) in H as (? & -> & ? & ?)]
  end.

(** A full match says that the opcodes are those of a contract. *)
Lemma matches_contract s fs :
  Forall3 (fun e p f => p ∈ ops s /\ matchEntry e (value p.1) p.2 = Ret (Some f)) template (ops s) fs ->
  exists ps pl p, zlen (SecretHash p) = 32 /\ zlen (RecipientHash160 p) = 20
    /\ zlen (RefundHash160 p) = 20 /\ pushes_int 4 ps (SecretSize p) /\ pushes_int 5 pl (LockTime p)
    /\ ops s = contract_ops ps pl p.
Proof.
  generalize (ops s) at 2 3 as l. intros l HF. unfold template in HF.
  peel HF p0 f0. peel HF p1 f1. peel HF p2 f2. peel HF p3 f3. peel HF p4 f4.
  peel HF p5 f5. peel HF p6 f6. peel HF p7 f7. peel HF p8 f8. peel HF p9 f9.
  peel HF p10 f10. peel HF p11 f11. peel HF p12 f12. peel HF p13 f13.
  peel HF p14 f14. peel HF p15 f15. peel HF p16 f16. peel HF p17 f17.
  peel HF p18 f18. peel HF p19 f19. inversion HF; subst.
  match goal with
  | Hs : zlen ?s5 = 32, Ha : zlen ?s9 = 20, Ea : extractedData f9 = Some ?s9,
    Hb : zlen ?s16 = 20, Eb : extractedData f16 = Some ?s16 |- _ =>
      exists p2, p11, (mkSwap s9 s16 s5 (extractedInt f2) (extractedInt f11))
  end.
  split_and!; try assumption. reflexivity.
Qed.

Lemma Forall3_impl_in {A B C} (P : A -> B -> C -> Prop) es l fs :
  Forall3 P es l fs -> Forall3 (fun e p f => p ∈ l /\ P e p f) es l fs.
Proof.
  induction 1 as [|e p f es l fs Hp HF IH]; constructor; [by split; [left|]|].
  eapply Forall3_impl; [exact IH|]. intros e' p' f' [Hin ?]. split; [by right|done].
Qed.

Lemma Extract_contract v s p :
  zlen s < 2 ^ 31 -> is_contract s p -> ExtractAtomicSwapDataPushes v s = Ret (Some p).
Proof.
  intros Hs (H1 & H2 & H3 & Hp & ps & pl & Hps & Hpl & Ho).
  rewrite Extract_spec by done. rewrite Ho, Hp, contract_matches by done. cbn [bindO].
  rewrite decide_True by done. unfold filled, template. cbn [zip_with app].
  cbn [id set_extractedInt set_extractedData extractedData extractedInt t_op t_int].
  rewrite !copyArray_whole by done. by destruct p.
Qed.

(** C16: A script is recognized as an atomic swap, with the recipient, the
    refund, the secret hash, the secret size and the lock time of [p], exactly if
    its opcodes are those of the contract for [p]; the two integers may be pushed
    in any minimal way. *)
Theorem ExtractAtomicSwap_exact v s p :
  zlen s < 2 ^ 31 ->
  ExtractAtomicSwapDataPushes v s = Ret (Some p) <-> is_contract s p.
Proof.
  intros Hs. split; [|by apply Extract_contract]. intros H.
  pose proof H as HE. rewrite Extract_spec in H by done.
  destruct (matchAll template (ops s)) as [[[fs rest]|]| | |] eqn:EM; try done. cbn [bindO] in H.
  destruct (parses s) eqn:Hp; [|done]. destruct (decide (zlen fs = 20)) as [E20|]; [|done].
  apply matchAll_full in EM as [-> HF]; [|done].
  apply Forall3_impl_in, matches_contract in HF as (ps & pl & p' & H1 & H2 & H3 & Hps & Hpl & Ho).
  assert (is_contract s p') as Hc by (split_and!; try done; by exists ps, pl).
  pose proof (Extract_contract v s p' Hs Hc) as HE'. congruence.
Qed.


Lemma matchAll_no_panic es : Forall (fun e => maxIntBytes e <= 7) es -> forall l,
  matchAll es l <> Crash /\ matchAll es l <> NoFuel.
Proof.
  induction 1 as [|e es He Hes IH]; intros [|[o d] l]; cbn [matchAll]; try done.
  assert (matchEntry e (value o) d <> Crash /\ matchEntry e (value o) d <> NoFuel) as [H1 H2].
  { unfold matchEntry. destruct (expectCanonicalInt e); [|by destruct (negb _)].
    destruct d as [d|]; [|by destruct (isSmallInt _)].
    destruct (Z.leb_spec (zlen d) (maxIntBytes e)) as [Hl|Hl].
    - destruct (makeScriptNum_cases d true (maxIntBytes e)) as [[-> _]|(-> & _ & _)]; [lia|done..].
    - unfold makeScriptNum. by ztest. }
  destruct (IH l). destruct (matchEntry e (value o) d) as [[e'|]| | |]; cbn [bindO]; try done.
  destruct (matchAll es l) as [[[]|]| | |]; done.
Qed.

(** No script makes it panic. *)
Theorem ExtractAtomicSwap_no_panic v s :
  zlen s < 2 ^ 31 -> ExtractAtomicSwapDataPushes v s <> Crash /\ ExtractAtomicSwapDataPushes v s <> NoFuel.
Proof.
  intros Hs. rewrite Extract_spec by done.
  destruct (matchAll_no_panic template) with (l := ops s) as [H1 H2]; [by repeat constructor|].
  destruct (matchAll template (ops s)) as [[[fs rest]|]| | |] eqn:EM; cbn [bindO]; try done.
  destruct (parses s); [|done]. destruct (decide (zlen fs = 20)) as [E20|]; [|done].
  apply matchAll_full in EM as [-> HF]; [|done]. rewrite app_nil_r.
  do 20 (destruct fs as [|? fs]; [done|]). destruct fs; [done|].
  exfalso. unfold zlen in E20. simpl in E20. lia.
Qed.

(** ** Example: a contract *)

Definition swap_sample : AtomicSwapDataPushes :=
  mkSwap (replicate 20 (z2b 1)) (replicate 20 (z2b 2)) (replicate 32 (z2b 3)) 32 1500000000.

(** The secret size is pushed as one byte, the lock time as four. *)
Definition swap_script : bytes :=
  unparse (contract_ops (pushed (str " ")) (pushed (le_bytes 4 1500000000)) swap_sample).

Lemma ExtractAtomicSwap_exact_witness :
  ExtractAtomicSwapDataPushes 0 swap_script = Ret (Some swap_sample).
Proof.
  apply (ExtractAtomicSwap_exact 0 swap_script swap_sample); [reflexivity|].
  split_and!; try reflexivity.
  exists (pushed (str " ")), (pushed (le_bytes 4 1500000000)). split_and!; vm_compute; reflexivity.
Defined.
