(* ===== verification/TxPool.v ===== *)
(** The pool of script buffers (src/thoughtd/wire/msgtx.go, [scriptFreeList]) and
    the decoder of transactions that borrows from it.

    WireTx treats the scripts that the decoder reads as values.  In the source a
    script is read into a buffer that is borrowed from a pool shared by all
    goroutines; at the end the scripts are copied to a buffer of the transaction's
    own and the borrowed ones are returned, also when an error ends the decoding.
    Here arrays are cells of a memory, the pool is a queue of slices of them, and
    the decoder is written with the calls of [Borrow] and [Return]. *)

From S2P Require Import Prelude WireCommon WireTx.

(** ** Memory *)

(** A slice that is not nil: array, offset, length and capacity. *)
Record buf := mkBuf { b_arr : nat; b_off : Z; b_len : Z; b_cap : Z }.

(** The receiver of the decoder.  [None] is a nil script; pointers of [msg.TxIn]
    and [msg.TxOut] and items of a witness that are still nil are left out, as
    every loop that could see them skips them. *)
Record pTxIn := mkPIn { p_prev : OutPoint; p_sig : option buf; p_wit : list buf; p_seq : Z }.
Record pTxOut := mkPOut { p_value : Z; p_pk : option buf }.
Record pMsgTx := mkPMsg { p_version : Z; p_ins : list pTxIn; p_outs : list pTxOut; p_lock : Z }.

(** The reader, the pool, the arrays and the receiver. *)
Record world := mkWorld { rd : bytes; free : list buf; arrs : list bytes; rcv : pMsgTx }.

Notation DM := (M world WireErr).

Definition with_rd (r : bytes) (w : world) : world := mkWorld r (free w) (arrs w) (rcv w).
Definition with_free (f : list buf) (w : world) : world := mkWorld (rd w) f (arrs w) (rcv w).
Definition with_arrs (a : list bytes) (w : world) : world := mkWorld (rd w) (free w) a (rcv w).
Definition with_rcv (m : pMsgTx) (w : world) : world := mkWorld (rd w) (free w) (arrs w) m.

(** A call that only uses the reader. *)
Definition rdM {A} (m : RM A) : DM A := onM rd with_rd m.

(** The bytes of a slice. *)
Definition contents (a : list bytes) (b : buf) : option bytes :=
  a !! b_arr b ≫= fun arr => zslice arr (b_off b) (b_off b + b_len b).

(** [make([]byte, n)], cut to the length [len] *)
Definition makeBuf (n len : Z) : DM buf := fun w =>
  (Ret (mkBuf (length (arrs w)) 0 len n),
   with_arrs (arrs w ++ [replicate (Z.to_nat n) (z2b 0)]) w).

(** ** scriptFreeList *)

Notation freeListMaxScriptSize := 512 (only parsing).
Notation freeListMaxItems := 12500 (only parsing).

(** [buf[:size]] on a slice of smaller capacity panics. *)
Definition Borrow (size : Z) : DM buf :=
  if size >? freeListMaxScriptSize then makeBuf size size else
  w <- getM ;;
  match free w with
  | b :: rest =>
      modifyM (with_free rest) ;;
      if size >? b_cap b then crashM else retM (mkBuf (b_arr b) (b_off b) size (b_cap b))
  | [] => makeBuf freeListMaxScriptSize size
  end.

Definition Return (b : buf) : DM unit :=
  if negb (b_cap b =? freeListMaxScriptSize) then retM tt else
  w <- getM ;;
  if zlen (free w) <? freeListMaxItems then modifyM (with_free (free w ++ [b])) else retM tt.

(** ** Reading into borrowed buffers *)

(** [io.ReadFull(r, b)]: what was read is in [b] also when the reader ends early. *)
Definition readFullInto (b : buf) : DM unit := fun w =>
  match arrs w !! b_arr b with
  | None => (Crash, w)
  | Some arr =>
      let got := take (Z.to_nat (b_len b)) (rd w) in
      let w' := with_arrs (<[b_arr b := copy_at arr (b_off b) got]> (arrs w)) w in
      let '(r, rest) := ReadFull (b_len b) (rd w) in
      (match r with Ret _ => Ret tt | Fail e => Fail e | Crash => Crash | NoFuel => NoFuel end,
       with_rd rest w')
  end.

(** [if err != nil { cleanup; return err }] *)
Definition onErr {A} (cleanup : DM unit) (m : DM A) : DM A := fun w =>
  match m w with
  | (Fail e, w') => (cleanup ;; failM e) w'
  | r => r
  end.

Definition readScript_pool (maxAllowed : Z) : DM buf :=
  count <- rdM ReadVarInt ;;
  if count >? u64 maxAllowed then failM (MessageError "readScript") else
  b <- Borrow count ;;
  onErr (Return b) (readFullInto b) ;;
  retM b.

(** Assignments to the receiver. *)
Definition upd_last {A} (f : A -> A) (l : list A) : list A :=
  match rev l with [] => [] | x :: l' => rev l' ++ [f x] end.
Definition on_ins (f : list pTxIn -> list pTxIn) (m : pMsgTx) : pMsgTx :=
  mkPMsg (p_version m) (f (p_ins m)) (p_outs m) (p_lock m).
Definition on_outs (f : list pTxOut -> list pTxOut) (m : pMsgTx) : pMsgTx :=
  mkPMsg (p_version m) (p_ins m) (f (p_outs m)) (p_lock m).
Definition rcvM (f : pMsgTx -> pMsgTx) : DM unit := modifyM (fun w => with_rcv (f (rcv w)) w).

Definition zeroIn : pTxIn := mkPIn (mkOutPoint (replicate 32 (z2b 0)) 0) None [] 0.

(** [ti := &txIns[i]; msg.TxIn[i] = ti; readTxIn(.., ti)] *)
Definition readTxIn_pool : DM unit :=
  rcvM (on_ins (fun l => l ++ [zeroIn])) ;;
  op <- rdM readOutPoint ;;
  rcvM (on_ins (upd_last (fun ti => mkPIn op (p_sig ti) (p_wit ti) (p_seq ti)))) ;;
  b <- readScript_pool MaxMessagePayload ;;
  rcvM (on_ins (upd_last (fun ti => mkPIn (p_prev ti) (Some b) (p_wit ti) (p_seq ti)))) ;;
  seq <- rdM Uint32 ;;
  rcvM (on_ins (upd_last (fun ti => mkPIn (p_prev ti) (p_sig ti) (p_wit ti) seq))).

Definition ReadTxOut_pool : DM unit :=
  rcvM (on_outs (fun l => l ++ [mkPOut 0 None])) ;;
  value <- rdM Uint64 ;;
  rcvM (on_outs (upd_last (fun to => mkPOut (i64 value) (p_pk to)))) ;;
  b <- readScript_pool MaxMessagePayload ;;
  rcvM (on_outs (upd_last (fun to => mkPOut (p_value to) (Some b)))).

(** The items of the witness of the input [i]. *)
Definition readWitness_pool (i : nat) : DM unit :=
  witCount <- rdM ReadVarInt ;;
  if witCount >? maxWitnessItemsPerInput then failM (MessageError "MsgTx.ThtDecode") else
  rcvM (on_ins (alter (fun ti => mkPIn (p_prev ti) (p_sig ti) [] (p_seq ti)) i)) ;;
  forM (seq 0 (Z.to_nat witCount)) (fun _ =>
    b <- readScript_pool maxWitnessItemSize ;;
    rcvM (on_ins (alter (fun ti => mkPIn (p_prev ti) (p_sig ti) (p_wit ti ++ [b]) (p_seq ti)) i))).

(** The buffers of the receiver, in the order in which they are returned. *)
Definition in_bufs (ti : pTxIn) : list buf := option_list (p_sig ti) ++ p_wit ti.
Definition out_bufs (to : pTxOut) : list buf := option_list (p_pk to).
Definition msg_bufs (m : pMsgTx) : list buf :=
  concat (map in_bufs (p_ins m)) ++ concat (map out_bufs (p_outs m)).

Definition returnScriptBuffers : DM unit :=
  w <- getM ;; forM (msg_bufs (rcv w)) Return.

(** ** The contiguous buffer *)

(** Copy the script in [b] to the array [n], make the slice of the array, return
    [b]; the offset is kept beside the state. *)
Definition placeBuf (n : nat) (b : buf) : M (world * Z) WireErr buf := fun '(w, off) =>
  match contents (arrs w) b, arrs w !! n with
  | Some script, Some scripts =>
      match place script (scripts, off) with
      | (Ret (s, e), (scripts', off')) =>
          let '(r, w') := Return b (with_arrs (<[n := scripts']> (arrs w)) w) in
          (let! _ := r in Ret (mkBuf n s (e - s) (e - s)), (w', off'))
      | _ => (Crash, (w, off))
      end
  | _, _ => (Crash, (w, off))
  end.

(** A nil script is copied like an empty one; there is nothing to return. *)
Definition placeSig (n : nat) (o : option buf) : M (world * Z) WireErr buf :=
  match o with
  | Some b => placeBuf n b
  | None => fun '(w, off) => (Ret (mkBuf n off 0 0), (w, off))
  end.

Definition placeIn (n : nat) (ti : pTxIn) : M (world * Z) WireErr pTxIn :=
  s <- placeSig n (p_sig ti) ;;
  ws <- mapM (placeBuf n) (p_wit ti) ;;
  retM (mkPIn (p_prev ti) (Some s) ws (p_seq ti)).

Definition placeOut (n : nat) (to : pTxOut) : M (world * Z) WireErr pTxOut :=
  s <- placeSig n (p_pk to) ;;
  retM (mkPOut (p_value to) (Some s)).

Definition relocate_pool : DM unit := fun w =>
  let total := u64 (zsum b_len (msg_bufs (rcv w))) in
  match makeBuf total total w with
  | (Ret scripts, w) =>
      let n := b_arr scripts in
      let '(r, (w, _)) :=
        (ins <- mapM (placeIn n) (p_ins (rcv w)) ;;
         outs <- mapM (placeOut n) (p_outs (rcv w)) ;;
         retM (ins, outs)) (w, 0) in
      (let! _ := r in Ret tt,
       match r with
       | Ret (ins, outs) => with_rcv (mkPMsg (p_version (rcv w)) ins outs (p_lock (rcv w))) w
       | _ => w
       end)
  | (_, w) => (Crash, w)
  end.

(** ** The decoder

    Every error return after the number of inputs was checked first calls
    [returnScriptBuffers]. *)

(** Up to the number of inputs: the flag byte and that number. *)
Definition decodeHead_pool (enc : MessageEncoding) : DM (Z * Z) :=
  version <- rdM Uint32 ;;
  rcvM (fun m => mkPMsg (i32 version) (p_ins m) (p_outs m) (p_lock m)) ;;
  count <- rdM ReadVarInt ;;
  if (count =? TxFlagMarker) && is_witness_encoding enc then
    flag <- rdM Uint8 ;;
    if negb (flag =? WitnessFlag) then failM (MessageError "MsgTx.ThtDecode") else
    count <- rdM ReadVarInt ;;
    retM (flag, count)
  else retM (0, count).

(** Up to the lock time, for [count] inputs. *)
Definition decodeBody_pool (withWitness : bool) (count : Z) : DM unit :=
  rcvM (on_ins (fun _ => [])) ;;
  forM (seq 0 (Z.to_nat count)) (fun _ => readTxIn_pool) ;;
  count <- rdM ReadVarInt ;;
  if count >? maxTxOutPerMessage then failM (MessageError "MsgTx.ThtDecode") else
  rcvM (on_outs (fun _ => [])) ;;
  forM (seq 0 (Z.to_nat count)) (fun _ => ReadTxOut_pool) ;;
  w <- getM ;;
  (if withWitness then forM (seq 0 (length (p_ins (rcv w)))) readWitness_pool else retM tt) ;;
  lockTime <- rdM Uint32 ;;
  rcvM (fun m => mkPMsg (p_version m) (p_ins m) (p_outs m) lockTime).

Definition ThtDecode_pool (enc : MessageEncoding) : DM unit :=
  '(flag, count) <- decodeHead_pool enc ;;
  if count >? maxTxInPerMessage then failM (MessageError "MsgTx.ThtDecode") else
  onErr returnScriptBuffers
    (decodeBody_pool (negb (flag =? 0) && is_witness_encoding enc) count) ;;
  relocate_pool.

(** The transaction in the receiver. *)
Definition script_of (a : list bytes) (o : option buf) : option bytes :=
  match o with None => Some [] | Some b => contents a b end.
Definition in_of (a : list bytes) (ti : pTxIn) : option TxIn :=
  script_of a (p_sig ti) ≫= fun s =>
  foldr (fun b acc => contents a b ≫= fun c => acc ≫= fun cs => Some (c :: cs)) (Some []) (p_wit ti) ≫= fun ws =>
  Some (mkTxIn (p_prev ti) s ws (p_seq ti)).
Definition out_of (a : list bytes) (to : pTxOut) : option TxOut :=
  script_of a (p_pk to) ≫= fun s => Some (mkTxOut (p_value to) s).
