(* ===== verification/TxPoolFacts.v ===== *)
(** The decoder with a pool of buffers does what the decoder of WireTx does, and
    never touches a buffer that is not its own. *)

From S2P Require Import Prelude WireCommon WireTx TxPool.

(** ** Ownership

    [own] are the buffers that the decoder has borrowed, with what they hold;
    [frame] are the arrays of everybody else, with what they hold.  No array is in
    the pool, borrowed or somebody else's at the same time, nor twice. *)

Definition pool_ok (a : list bytes) (b : buf) : Prop :=
  b_off b = 0 /\ b_cap b = freeListMaxScriptSize
  /\ exists arr, a !! b_arr b = Some arr /\ zlen arr = freeListMaxScriptSize.

Definition own_ok (a : list bytes) (o : buf * bytes) : Prop :=
  b_off o.1 = 0 /\ zlen o.2 = b_len o.1
  /\ exists rest, a !! b_arr o.1 = Some (o.2 ++ rest) /\ zlen (o.2 ++ rest) = b_cap o.1.

Definition frame_ok (a : list bytes) (f : nat * bytes) : Prop := a !! f.1 = Some f.2.

Definition locs (frame : list (nat * bytes)) (own : list (buf * bytes)) (f : list buf) : list nat :=
  map b_arr f ++ map (fun o => b_arr o.1) own ++ map fst frame.

Record owns (frame : list (nat * bytes)) (own : list (buf * bytes)) (w : world) : Prop := {
  o_nodup : NoDup (locs frame own (free w));
  o_pool : Forall (pool_ok (arrs w)) (free w);
  o_own : Forall (own_ok (arrs w)) own;
  o_frame : Forall (frame_ok (arrs w)) frame }.

Section frame.
Variable frame : list (nat * bytes).
Implicit Types (w : world) (own : list (buf * bytes)).

(** What [owns] depends on. *)
Lemma owns_ext own w w' :
  free w' = free w -> arrs w' = arrs w -> owns frame own w -> owns frame own w'.
Proof using. intros Hf Ha [H1 H2 H3 H4]. split; by rewrite ?Hf, ?Ha. Qed.

Lemma owns_perm own own' w : own ≡ₚ own' -> owns frame own w -> owns frame own' w.
Proof using.
  intros Hp [H1 H2 H3 H4]. split; [|done|by rewrite <- Hp|done].
  unfold locs in *. by rewrite <- (Permutation_map (fun o => b_arr o.1) Hp).
Qed.

(** Arrays that are not new are below the length of the memory. *)
Lemma owns_below own w l : owns frame own w -> l ∈ locs frame own (free w) -> (l < length (arrs w))%nat.
Proof using.
  intros [H1 H2 H3 H4] Hl. unfold locs in Hl. rewrite !elem_of_app, !list_elem_of_In, !in_map_iff in Hl.
  apply lookup_lt_is_Some. destruct Hl as [(b & <- & Hb)|[(o & <- & Ho)|(f & <- & Hf)]]; rewrite <- list_elem_of_In in *.
  - eapply Forall_forall in H2 as (_ & _ & arr & -> & _); [by eexists|done].
  - eapply Forall_forall in H3 as (_ & _ & rest & -> & _); [by eexists|done].
  - eapply Forall_forall in H4 as ->; [by eexists|done].
Qed.

(** A new array does not disturb the others. *)
Lemma ok_grow own w arr :
  Forall (pool_ok (arrs w)) (free w) -> Forall (own_ok (arrs w)) own -> Forall (frame_ok (arrs w)) frame ->
  Forall (pool_ok (arrs w ++ [arr])) (free w) /\ Forall (own_ok (arrs w ++ [arr])) own
  /\ Forall (frame_ok (arrs w ++ [arr])) frame.
Proof using.
  intros H1 H2 H3. split_and!; (eapply Forall_impl; [eassumption|]).
  - intros b (? & ? & a & Ha & ?). split_and!; try done. exists a. split; [by apply lookup_app_l_Some|done].
  - intros o (? & ? & r & Ha & ?). split_and!; try done. exists r. split; [by apply lookup_app_l_Some|done].
  - intros f Hf. by apply lookup_app_l_Some.
Qed.

Lemma owns_make own w n len c rest :
  owns frame own w -> replicate (Z.to_nat n) (z2b 0) = c ++ rest -> zlen c = len -> 0 <= n ->
  owns frame ((mkBuf (length (arrs w)) 0 len n, c) :: own) (makeBuf n len w).2.
Proof using.
  intros Ho Hc Hlen Hn. pose proof (owns_below _ _ (length (arrs w)) Ho) as Hb.
  destruct Ho as [H1 H2 H3 H4].
  destruct (ok_grow own w (replicate (Z.to_nat n) (z2b 0)) H2 H3 H4) as (G2 & G3 & G4).
  split; cbn [makeBuf snd with_arrs free arrs]; [|done| |done].
  - unfold locs in *. cbn [map fst b_arr].
    cbn [app]. rewrite <- Permutation_middle. constructor; [|done].
    intros Hin. specialize (Hb Hin). lia.
  - constructor; [|done]. split_and!; [done|done|]. exists rest. cbn [fst snd b_arr b_cap].
    rewrite lookup_app_r, Nat.sub_diag by lia. simpl. rewrite <- Hc. split; [done|].
    rewrite zlen_replicate. lia.
Qed.

Lemma contents_own a o : own_ok a o -> contents a o.1 = Some o.2.
Proof using.
  intros (H0 & Hl & rest & Ha & _). unfold contents. rewrite Ha. simpl. rewrite H0, Z.add_0_l, <- Hl.
  pose proof (zlen_nonneg o.2). pose proof (zlen_nonneg rest).
  rewrite zslice_Some by (rewrite ?zlen_app; lia). rewrite Z.sub_0_r, drop_0, zlen_to_nat.
  by rewrite take_app_length.
Qed.

(** *** [Borrow] *)

Lemma Borrow_spec own w size :
  owns frame own w -> 0 <= size ->
  exists b c w', Borrow size w = (Ret b, w') /\ owns frame ((b, c) :: own) w'
    /\ b_len b = size /\ zlen c = size /\ rd w' = rd w /\ rcv w' = rcv w.
Proof using.
  intros Ho Hs. unfold Borrow. rewrite Z.gtb_ltb. destruct (Z.ltb_spec 512 size) as [Hb|Hb].
  { exists (mkBuf (length (arrs w)) 0 size size), (replicate (Z.to_nat size) (z2b 0)), (makeBuf size size w).2.
    assert (zlen (replicate (Z.to_nat size) (z2b 0)) = size) as Hl by (rewrite zlen_replicate; lia).
    split_and!; try done. by apply owns_make with (rest := []); rewrite ?app_nil_r. }
  runM. destruct (free w) as [|b rest] eqn:Ef.
  - exists (mkBuf (length (arrs w)) 0 size 512), (replicate (Z.to_nat size) (z2b 0)), (makeBuf 512 size w).2.
    assert (zlen (replicate (Z.to_nat size) (z2b 0)) = size) as Hl by (rewrite zlen_replicate; lia).
    split_and!; try done.
    apply owns_make with (rest := replicate (Z.to_nat (512 - size)) (z2b 0)); try done.
    rewrite <- replicate_add. f_equal. lia.
  - destruct Ho as [H1 H2 H3 H4]. rewrite Ef in H1, H2.
    inversion H2 as [|? ? (Hoff & Hcap & arr & Ha & Hlen) H2']; subst.
    rewrite Hcap. ztest. exists (mkBuf (b_arr b) (b_off b) size (b_cap b)), (take (Z.to_nat size) arr), (with_free rest w).
    rewrite Hcap, Hoff. assert (zlen (take (Z.to_nat size) arr) = size) as Hl by (rewrite zlen_take; lia).
    split_and!; try done. split; cbn [with_free free arrs]; try done.
    + unfold locs in *. cbn [map fst b_arr app] in *. by rewrite <- Permutation_middle.
    + constructor; [|done]. split_and!; [done|done|]. exists (drop (Z.to_nat size) arr).
      cbn [fst snd b_arr b_cap]. by rewrite take_drop.
Qed.

(** *** [Return] *)

Lemma owns_drop own w o : owns frame (o :: own) w -> owns frame own w.
Proof using.
  intros [H1 H2 H3 H4]. inversion H3; subst. split; try done.
  unfold locs in *. cbn [map app] in H1. rewrite <- Permutation_middle in H1. by inversion H1.
Qed.

Lemma Return_spec own w b c :
  owns frame ((b, c) :: own) w ->
  exists w', Return b w = (Ret tt, w') /\ owns frame own w' /\ rd w' = rd w /\ rcv w' = rcv w
    /\ arrs w' = arrs w.
Proof using.
  intros Ho. unfold Return. destruct (Z.eqb_spec (b_cap b) 512) as [E|E]; cbn [negb].
  2:{ exists w. split_and!; try done. by eapply owns_drop. }
  runM. destruct (_ <? _).
  2:{ exists w. split_and!; try done. by eapply owns_drop. }
  exists (with_free (free w ++ [b]) w). split_and!; try done.
  destruct Ho as [H1 H2 H3 H4]. inversion H3 as [|? ? (Hoff & Hl & rest & Ha & Hc) H3']; subst.
  split; cbn [with_free free arrs]; try done.
  - unfold locs in *. rewrite map_app, <- app_assoc. done.
  - apply Forall_app. split; [done|]. constructor; [|done]. cbn [fst snd] in *.
    split_and!; [done|done|]. eexists. split; [exact Ha|]. lia.
Qed.

(** *** Writing to a buffer of one's own *)

Lemma owns_write own w b c c' :
  owns frame ((b, c) :: own) w -> zlen c' = zlen c ->
  exists rest, arrs w !! b_arr b = Some (c ++ rest)
    /\ owns frame ((b, c') :: own) (with_arrs (<[b_arr b := c' ++ rest]> (arrs w)) w).
Proof using.
  intros [H1 H2 H3 H4] Hl. inversion H3 as [|? ? (Hoff & Hlen & rest & Ha & Hc) H3']; subst.
  cbn [fst snd] in *. exists rest. split; [done|].
  unfold locs in H1. cbn [map app fst] in H1. rewrite <- Permutation_middle in H1.
  apply NoDup_cons in H1 as [Hnin H1]. rewrite !elem_of_app, !list_elem_of_In, !in_map_iff in Hnin.
  assert (forall l x, l <> b_arr b -> arrs w !! l = Some x ->
    <[b_arr b := c' ++ rest]> (arrs w) !! l = Some x) as Hother
    by (intros l x Hne Hx; by rewrite list_lookup_insert_ne).
  split; cbn [with_arrs free arrs].
  - unfold locs. cbn [map app fst]. rewrite <- Permutation_middle. apply NoDup_cons. split; [|done].
    by rewrite !elem_of_app, !list_elem_of_In, !in_map_iff.
  - apply Forall_forall. intros b' Hin.
    pose proof (proj1 (Forall_forall _ _) H2 b' Hin) as (? & ? & a & Hba & ?). split_and!; try done.
    exists a. split; [|done]. apply Hother; [|done]. intros E. apply Hnin. left. exists b'.
    by rewrite <- list_elem_of_In.
  - constructor.
    + split_and!; [done|cbn [snd fst]; lia|]. exists rest. cbn [fst snd].
      rewrite list_lookup_insert_eq by (by eapply lookup_lt_Some). split; [done|]. rewrite zlen_app in *. lia.
    + apply Forall_forall. intros o Hin.
      pose proof (proj1 (Forall_forall _ _) H3' o Hin) as (? & ? & r & Hr & ?). split_and!; try done.
      exists r. split; [|done]. apply Hother; [|done]. intros E. apply Hnin. right. left. exists o.
      by rewrite <- list_elem_of_In.
  - apply Forall_forall. intros f Hin.
    pose proof (proj1 (Forall_forall _ _) H4 f Hin) as Hf. apply Hother; [|done]. intros E. apply Hnin. right. right.
    exists f. by rewrite <- list_elem_of_In.
Qed.

Lemma copy_at_start c rest got :
  zlen got <= zlen c -> copy_at (c ++ rest) 0 got = (got ++ drop (length got) c) ++ rest.
Proof using.
  intros H. unfold copy_at. rewrite zlen_app, Z.min_r by (pose proof (zlen_nonneg rest); lia).
  rewrite take_0, Z.add_0_l, zlen_to_nat, take_ge by done. cbn [app].
  rewrite drop_app_le by (unfold zlen in H; lia). by rewrite <- app_assoc.
Qed.

Lemma readFullInto_spec own w b c :
  owns frame ((b, c) :: own) w ->
  exists w', rcv w' = rcv w /\
  match ReadFull (b_len b) (rd w) with
  | (Ret s, r) => readFullInto b w = (Ret tt, w') /\ rd w' = r /\ owns frame ((b, s) :: own) w'
  | (Fail e, r) => readFullInto b w = (Fail e, w') /\ rd w' = r /\ exists c', owns frame ((b, c') :: own) w'
  | _ => False
  end.
Proof using.
  intros Ho. set (got := take (Z.to_nat (b_len b)) (rd w)).
  assert (b_off b = 0 /\ zlen c = b_len b) as [Hoff Hlen]
    by (destruct Ho as [_ _ H3 _]; inversion H3 as [|? ? (? & ? & _)]; done).
  assert (zlen got <= zlen c) as Hg by (subst got; rewrite zlen_take; zlia).
  destruct (owns_write own w b c (got ++ drop (length got) c) Ho) as (rest & Ha & Hw).
  { rewrite zlen_app, zlen_drop. unfold zlen in *. lia. }
  unfold readFullInto. rewrite Ha, Hoff. fold got. rewrite copy_at_start by done.
  unfold ReadFull. destruct (Z.leb_spec (b_len b) (zlen (rd w))) as [Hle|Hle].
  - assert (drop (length got) c = []) as E.
    { apply drop_ge. subst got. unfold zlen in *. rewrite length_take. lia. }
    rewrite E, app_nil_r in *.
    eexists. split; [|split_and!; [reflexivity|reflexivity|]]; [done|]. fold got.
    eapply owns_ext; [| |exact Hw]; done.
  - destruct (rd w) as [|x r]; (eexists; split; [|split_and!; [reflexivity|reflexivity|]]; [done|]);
      (eexists; eapply owns_ext; [| |exact Hw]; done).
Qed.

Lemma Return_other b w : b_cap b <> 512 -> Return b w = (Ret tt, w).
Proof using. intros H. unfold Return. by rewrite (proj2 (Z.eqb_neq _ _)). Qed.
End frame.

(** ** Simulation

    [g] with the pool does what [f] does on values: both return or both fail with
    the same error, and leave the same rest of the input. *)

Definition sim {A B} (f : RM A) (g : DM B) (P : world -> Prop) (Q : A -> B -> world -> Prop)
    (X : world -> Prop) : Prop :=
  forall w, P w ->
  match f (rd w), g w with
  | (Ret a, r), (Ret b, w') => rd w' = r /\ Q a b w'
  | (Fail e, r), (Fail e', w') => e' = e /\ rd w' = r /\ X w'
  | _, _ => False
  end.

Lemma sim_bind {A B A' B'} (f : RM A) (g : DM B) (f' : A -> RM A') (g' : B -> DM B') P Q R X :
  sim f g P Q X -> (forall a b, sim (f' a) (g' b) (Q a b) R X) -> sim (bindM f f') (bindM g g') P R X.
Proof.
  intros H H' w Hw. specialize (H w Hw). unfold bindM.
  destruct (f (rd w)) as [[a|e| |] r], (g w) as [[b|e'| |] w']; try done.
  destruct H as [<- HQ]. by apply H'.
Qed.

Lemma sim_ret {A B} (a : A) (b : B) (P : world -> Prop) (Q : A -> B -> world -> Prop) X :
  (forall w, P w -> Q a b w) -> sim (retM a) (retM b) P Q X.
Proof. intros H w Hw. split; [done|auto]. Qed.

Lemma sim_fail {A B} e (P : world -> Prop) Q (X : world -> Prop) :
  (forall w, P w -> X w) -> sim (A := A) (B := B) (failM e) (failM e) P Q X.
Proof. intros H w Hw. split_and!; auto. Qed.

Lemma sim_conseq {A B} (f : RM A) (g : DM B) (P P' : world -> Prop) (Q Q' : A -> B -> world -> Prop)
    (X X' : world -> Prop) :
  sim f g P' Q' X' -> (forall w, P w -> P' w) -> (forall a b w, Q' a b w -> Q a b w) ->
  (forall w, X' w -> X w) -> sim f g P Q X.
Proof.
  intros H HP HQ HX w Hw. specialize (H w (HP w Hw)).
  destruct (f (rd w)) as [[] ?], (g w) as [[] ?]; try done.
  - destruct H as [? H]. split; auto.
  - destruct H as (? & ? & H). split_and!; auto.
Qed.

(** A step of the receiver between two calls. *)
Lemma sim_rcv {A B} (f : RM A) (h : pMsgTx -> pMsgTx) (g : DM B) (P P' : world -> Prop) Q X :
  (forall w, P w -> P' (with_rcv (h (rcv w)) w)) -> sim f g P' Q X -> sim f (rcvM h ;; g) P Q X.
Proof. intros HP H w Hw. exact (H _ (HP w Hw)). Qed.

(** The same at the end. *)
Lemma sim_rcv_last {A B} (f : RM A) (g : DM B) (h : B -> pMsgTx -> pMsgTx) (P : world -> Prop)
    (Q : A -> B -> world -> Prop) (R : A -> unit -> world -> Prop) X :
  sim f g P Q X -> (forall a b w, Q a b w -> R a tt (with_rcv (h b (rcv w)) w)) ->
  sim f (b <- g ;; rcvM (h b)) P R X.
Proof.
  intros H HR w Hw. specialize (H w Hw). unfold bindM.
  destruct (f (rd w)) as [[] ?], (g w) as [[] ?]; try done. destruct H as [<- H]. split; auto.
Qed.

Lemma sim_rd {A} (m : RM A) `{!NoPanic m} (P : world -> Prop) :
  (forall r w, P w -> P (with_rd r w)) -> sim m (rdM m) P (fun a b w => b = a /\ P w) P.
Proof.
  intros HP w Hw. unfold rdM, onM. pose proof (NoPanic0 (rd w)) as Hn.
  destruct (m (rd w)) as [[a|e| |] r]; cbn; try done; split_and!; auto.
Qed.

(** A last step of the value side. *)
Lemma sim_last {A B C} (f : RM A) (h : A -> B) (g : DM C) P (Q : B -> C -> world -> Prop) X :
  sim f g P (fun a => Q (h a)) X -> sim (a <- f ;; retM (h a)) g P Q X.
Proof.
  intros H w Hw. specialize (H w Hw). unfold bindM, retM.
  by destruct (f (rd w)) as [[] ?], (g w) as [[] ?].
Qed.

Lemma sim_pure {A B} (F : Prop) (f : RM A) (g : DM B) P Q X :
  (F -> sim f g P Q X) -> sim f g (fun w => F /\ P w) Q X.
Proof. intros H w [HF Hw]. by apply H. Qed.

Lemma sim_ex {A B T} (f : RM A) (g : DM B) (P : T -> world -> Prop) Q X :
  (forall t, sim f g (P t) Q X) -> sim f g (fun w => exists t, P t w) Q X.
Proof. intros H w [t Hw]. by apply (H t). Qed.

Lemma sim_ext_l {A B} (f f' : RM A) (g : DM B) P Q X :
  (forall r, f r = f' r) -> sim f' g P Q X -> sim f g P Q X.
Proof. intros H H' w Hw. rewrite H. by apply H'. Qed.

Lemma sim_get {A B} (f : RM A) (g : world -> DM B) P Q X :
  (forall w0, P w0 -> sim f (g w0) P Q X) -> sim f (w <- getM ;; g w) P Q X.
Proof. intros H w Hw. exact (H w Hw w Hw). Qed.

Lemma sim_ext_r {A B} (f : RM A) (g g' : DM B) P Q X :
  (forall w, g w = g' w) -> sim f g' P Q X -> sim f g P Q X.
Proof. intros H H' w Hw. rewrite H. by apply H'. Qed.

(** What is known of the values that [f] returns. *)
Lemma sim_with {A B} (f : RM A) (g : DM B) P Q X (F : A -> Prop) :
  sim f g P Q X -> (forall a r r', f r = (Ret a, r') -> F a) -> sim f g P (fun a b w => F a /\ Q a b w) X.
Proof.
  intros H HF w Hw. specialize (H w Hw).
  destruct (f (rd w)) as [[] ?] eqn:E, (g w) as [[] ?]; try done. destruct H. split_and!; eauto.
Qed.

#[local] Instance readOutPoint_no_panic : NoPanic readOutPoint.
Proof. unfold readOutPoint, Uint32. apply _. Qed.
#[local] Instance Uint32_no_panic : NoPanic Uint32.
Proof. unfold Uint32. apply _. Qed.
#[local] Instance Uint64_no_panic : NoPanic Uint64.
Proof. unfold Uint64. apply _. Qed.
#[local] Instance Uint8_no_panic : NoPanic Uint8.
Proof. unfold Uint8. apply _. Qed.

Lemma sim_varint (P : world -> Prop) :
  (forall r w, P w -> P (with_rd r w)) ->
  sim ReadVarInt (rdM ReadVarInt) P (fun a b w => (b = a /\ 0 <= a) /\ P w) P.
Proof.
  intros HP w Hw. pose proof (sim_rd ReadVarInt P HP w Hw) as H.
  destruct (ReadVarInt (rd w)) as [[a|e| |] r] eqn:E, (rdM ReadVarInt w) as [[b|e'| |] w']; try done.
  destruct H as (? & -> & ?). apply codec_canon in E as [? _]. split_and!; done || lia.
Qed.

Section decoder.
Variable frame : list (nat * bytes).

(** The decoder owns [own], and the receiver is [m]. *)
Definition holds (own : list (buf * bytes)) (m : pMsgTx) (w : world) : Prop :=
  owns frame own w /\ rcv w = m.

Lemma holds_rd own m r w : holds own m w -> holds own m (with_rd r w).
Proof using. intros [H ?]. split; [|done]. by apply (owns_ext frame own w). Qed.

Lemma sim_readScript max own m :
  0 <= max < 2 ^ 32 ->
  sim (readScript max) (readScript_pool max) (holds own m)
    (fun s b w => holds ((b, s) :: own) m w) (holds own m).
Proof using.
  intros Hmax. unfold readScript, readScript_pool.
  eapply sim_bind; [apply sim_varint, holds_rd|].
  intros count b w ([-> Hc] & [Ho Hm]). destruct (count >? u64 max); [by split_and!|].
  destruct (Borrow_spec frame own w count Ho Hc) as (b & c & w1 & E & Ho1 & Hlen & _ & Hr1 & Hm1).
  rewrite (bindM_step _ _ _ _ _ E). clear E.
  destruct (readFullInto_spec frame own w1 b c Ho1) as (w2 & Hm2 & H). rewrite Hlen, Hr1 in H.
  unfold onErr, bindM.
  destruct (ReadFull count (rd w)) as [[s|e| |] r]; try done.
  - destruct H as (-> & Hr2 & Ho2). split; [done|]. split; [done|congruence].
  - destruct H as (-> & Hr2 & c' & Ho2).
    destruct (Return_spec frame own w2 b c' Ho2) as (w3 & -> & Ho3 & Hr3 & Hm3 & _).
    unfold failM. split_and!; [done|congruence|]. split; [done|congruence].
Qed.

(** *** Receivers *)

(** The input [p] of the receiver stands for [ti]; its buffers, with what they
    hold, are [o]. *)
Definition in_rel (ti : TxIn) (p : pTxIn) (o : list (buf * bytes)) : Prop :=
  p_prev p = PreviousOutPoint ti /\ p_seq p = Sequence ti /\ is_Some (p_sig p)
  /\ in_bufs p = map fst o /\ map snd o = SignatureScript ti :: Witness ti.

Definition out_rel (to : TxOut) (p : pTxOut) (o : list (buf * bytes)) : Prop :=
  p_value p = Value to /\ is_Some (p_pk p) /\ out_bufs p = map fst o /\ map snd o = [PkScript to].

(** When an error occurs, the buffers of the receiver are those that are owned,
    and possibly others that [Return] ignores. *)
Definition ignored (bs : list buf) : Prop := Forall (fun b => b_cap b <> freeListMaxScriptSize) bs.
Definition failing (w : world) : Prop :=
  exists own stale, owns frame own w /\ msg_bufs (rcv w) = map fst own ++ stale /\ ignored stale.

Lemma holds_failing own m stale w :
  holds own m w -> msg_bufs m = map fst own ++ stale -> ignored stale -> failing w.
Proof using. intros [Ho <-] ??. by exists own, stale. Qed.

Lemma returnAll_spec own : forall w,
  owns frame own w -> exists w', forM (map fst own) Return w = (Ret tt, w')
    /\ owns frame [] w' /\ rd w' = rd w.
Proof using.
  induction own as [|[b c] own IH]; intros w Ho; cbn [map forM fst]; [by exists w|].
  destruct (Return_spec frame own w b c Ho) as (w1 & E & Ho1 & Hr & _).
  rewrite (bindM_step _ _ _ _ _ E). destruct (IH w1 Ho1) as (w2 & -> & Ho2 & Hr2).
  exists w2. split_and!; [done|done|congruence].
Qed.

Lemma returnIgnored bs w : ignored bs -> forM bs Return w = (Ret tt, w).
Proof using.
  intros H. induction H as [|b bs Hb H IH]; cbn [forM]; [done|].
  by rewrite (bindM_step _ _ _ _ _ (Return_other b w Hb)).
Qed.

Lemma forM_app {S E A} (l k : list A) (f : A -> M S E unit) s :
  forM (l ++ k) f s = (forM l f ;; forM k f) s.
Proof using.
  revert s. induction l as [|x l IH]; intros s; [done|]. cbn [app forM].
  rewrite bindM_assoc. apply bindM_ext. intros [] t _. apply IH.
Qed.

(** The clean-up returns everything that is owned. *)
Lemma returnScriptBuffers_spec w :
  failing w -> exists w', returnScriptBuffers w = (Ret tt, w') /\ owns frame [] w' /\ rd w' = rd w.
Proof using.
  intros (own & stale & Ho & Hm & Hs). unfold returnScriptBuffers. unfold bindM at 1, getM.
  rewrite Hm, forM_app. destruct (returnAll_spec own w Ho) as (w1 & E & Ho1 & Hr).
  exists w1. rewrite (bindM_step _ _ _ _ _ E). by rewrite returnIgnored.
Qed.

Lemma sim_onErr {A B} (f : RM A) (g : DM B) P Q :
  sim f g P Q failing -> sim f (onErr returnScriptBuffers g) P Q (owns frame []).
Proof using.
  intros H w Hw. specialize (H w Hw). unfold onErr.
  destruct (f (rd w)) as [[] ?], (g w) as [[] w']; try done.
  destruct H as (-> & Hr & Hf). destruct (returnScriptBuffers_spec w' Hf) as (w2 & E & Ho & Hr2).
  rewrite (bindM_step _ _ _ _ _ E). unfold failM. split_and!; [done|congruence|done].
Qed.

Lemma upd_last_snoc {A} (f : A -> A) l x : upd_last f (l ++ [x]) = l ++ [f x].
Proof using. unfold upd_last. rewrite rev_unit. by rewrite rev_involutive. Qed.

Lemma rel_bufs {X Y} (rel : X -> Y -> list (buf * bytes) -> Prop) (bufs : Y -> list buf) xs ys os :
  (forall x y o, rel x y o -> bufs y = map fst o) -> Forall3 rel xs ys os ->
  concat (map bufs ys) = map fst (concat os).
Proof using.
  intros Hr HF. induction HF as [|x y o xs ys os H HF IH]; [done|]. cbn [map concat].
  by rewrite map_app, IH, (Hr _ _ _ H).
Qed.

Lemma in_rel_bufs ti p o : in_rel ti p o -> in_bufs p = map fst o.
Proof using. by intros (_ & _ & _ & ? & _). Qed.
Lemma out_rel_bufs to p o : out_rel to p o -> out_bufs p = map fst o.
Proof using. by intros (_ & _ & ? & _). Qed.

Lemma holds_perm own own' m w : own ≡ₚ own' -> holds own m w -> holds own' m w.
Proof using. intros Hp [Ho ?]. split; [|done]. by eapply owns_perm. Qed.

(** A failure of a call on the reader while the receiver is [m]. *)
Lemma sim_rd_holds {A} (f : RM A) `{!NoPanic f} own m stale :
  msg_bufs m = map fst own ++ stale -> ignored stale ->
  sim f (rdM f) (holds own m) (fun a b w => b = a /\ holds own m w) failing.
Proof using.
  intros Hm Hs. eapply sim_conseq; [apply (sim_rd f), holds_rd|done|done|].
  intros w Hw. by eapply holds_failing.
Qed.

Lemma sim_readScript_holds max own m stale :
  0 <= max < 2 ^ 32 -> msg_bufs m = map fst own ++ stale -> ignored stale ->
  sim (readScript max) (readScript_pool max) (holds own m)
    (fun s b w => holds ((b, s) :: own) m w) failing.
Proof using.
  intros Hmax Hm Hs. eapply sim_conseq; [by apply sim_readScript|done|done|].
  intros w Hw. by eapply holds_failing.
Qed.

(** *** Inputs *)

(** The inputs [tis] have been read; the outputs of the receiver are still those
    it had before. *)
Definition ins_read (v lt : Z) (old : list pTxOut) (tis : list TxIn) (w : world) : Prop :=
  exists ps os, Forall3 in_rel tis ps os /\ Forall (fun ti => Witness ti = []) tis
    /\ holds (concat os) (mkPMsg v ps old lt) w.

Lemma ins_bufs v lt old ps os more tis :
  Forall3 in_rel tis ps os ->
  msg_bufs (mkPMsg v (ps ++ [more]) old lt)
  = (map fst (concat os) ++ in_bufs more) ++ concat (map out_bufs old).
Proof using.
  intros HF. unfold msg_bufs. cbn [p_ins p_outs]. rewrite map_app, concat_app. cbn [map concat].
  by rewrite app_nil_r, (rel_bufs _ _ _ _ _ in_rel_bufs HF).
Qed.

Lemma sim_readTxIn v lt old tis :
  ignored (concat (map out_bufs old)) ->
  sim readTxIn readTxIn_pool (ins_read v lt old tis)
    (fun ti _ => ins_read v lt old (tis ++ [ti])) failing.
Proof using.
  intros Hold. apply sim_ex. intros ps. apply sim_ex. intros os. apply sim_pure. intros HF.
  apply sim_pure. intros Hwit. unfold readTxIn, readTxIn_pool.
  eapply sim_rcv with (P' := holds (concat os) (mkPMsg v (ps ++ [zeroIn]) old lt)).
  { intros w [Ho Hm]. split; [by apply (owns_ext frame _ w)|]. cbn [with_rcv rcv]. by rewrite Hm. }
  eapply sim_bind.
  { eapply sim_rd_holds with (stale := concat (map out_bufs old)); [apply _| |done].
    erewrite ins_bufs by exact HF. by rewrite app_nil_r. }
  intros op op'.
  eapply sim_rcv with (P' := fun w => op' = op /\ holds (concat os)
    (mkPMsg v (ps ++ [mkPIn op None [] 0]) old lt) w).
  { intros w [-> [Ho Hm]]. split; [done|]. split; [by apply (owns_ext frame _ w)|].
    cbn [with_rcv rcv]. rewrite Hm. unfold on_ins. cbn [p_ins p_version p_outs p_lock].
    by rewrite upd_last_snoc. }
  apply sim_pure. intros ->. eapply sim_bind.
  { eapply sim_readScript_holds with (stale := concat (map out_bufs old)); [done| |done].
    erewrite ins_bufs by exact HF. by rewrite app_nil_r. }
  intros s b.
  eapply sim_rcv with (P' := holds (concat os ++ [(b, s)])
    (mkPMsg v (ps ++ [mkPIn op (Some b) [] 0]) old lt)).
  { intros w [Ho Hm]. apply (holds_perm ((b, s) :: concat os)); [by rewrite Permutation_app_comm|].
    split; [by apply (owns_ext frame _ w)|].
    cbn [with_rcv rcv]. rewrite Hm. unfold on_ins. cbn [p_ins p_version p_outs p_lock].
    by rewrite upd_last_snoc. }
  apply sim_last.
  eapply sim_rcv_last.
  { eapply sim_rd_holds with (f := Uint32) (stale := concat (map out_bufs old)); [apply _| |done].
    erewrite ins_bufs by exact HF. by rewrite map_app. }
  intros sq sq' w [-> [Ho Hm]]. exists (ps ++ [mkPIn op (Some b) [] sq]), (os ++ [[(b, s)]]).
  split; [apply Forall3_app; [done|]; repeat constructor; by eexists|].
  split; [apply Forall_app; split; [done|]; by repeat constructor|].
  rewrite concat_app. split; [by apply (owns_ext frame _ w)|].
  cbn [with_rcv rcv]. rewrite Hm. unfold on_ins. cbn [p_ins p_version p_outs p_lock].
  by rewrite upd_last_snoc.
Qed.

(** *** Outputs *)

(** The inputs [tis] and the outputs [tos] have been read. *)
Definition all_read (v lt : Z) (tis : list TxIn) (tos : list TxOut) (w : world) : Prop :=
  exists ps os qs us, Forall3 in_rel tis ps os /\ Forall3 out_rel tos qs us
    /\ holds (concat os ++ concat us) (mkPMsg v ps qs lt) w.

Lemma all_bufs v lt ps qs os us tis tos :
  Forall3 in_rel tis ps os -> Forall3 out_rel tos qs us ->
  msg_bufs (mkPMsg v ps qs lt) = map fst (concat os ++ concat us).
Proof using.
  intros HF HG. unfold msg_bufs. cbn [p_ins p_outs].
  by rewrite (rel_bufs _ _ _ _ _ in_rel_bufs HF), (rel_bufs _ _ _ _ _ out_rel_bufs HG), map_app.
Qed.

Lemma outs_bufs v lt ps qs os us more tis tos :
  Forall3 in_rel tis ps os -> Forall3 out_rel tos qs us ->
  msg_bufs (mkPMsg v ps (qs ++ [more]) lt) = (map fst (concat os ++ concat us) ++ out_bufs more) ++ [].
Proof using.
  intros HF HG. rewrite app_nil_r, <- (all_bufs v lt ps qs os us tis tos HF HG). unfold msg_bufs.
  cbn [p_ins p_outs]. rewrite map_app, concat_app. cbn [map concat]. by rewrite app_nil_r, app_assoc.
Qed.

Lemma ignored_nil : ignored [].
Proof using. constructor. Qed.

Lemma all_read_failing v lt tis tos w : all_read v lt tis tos w -> failing w.
Proof using.
  intros (ps & os & qs & us & HF & HG & Hw).
  eapply (holds_failing _ _ []); [exact Hw| |apply ignored_nil].
  rewrite app_nil_r. by eapply all_bufs.
Qed.

Lemma sim_ReadTxOut v lt tis tos :
  sim ReadTxOut ReadTxOut_pool (all_read v lt tis tos)
    (fun to _ => all_read v lt tis (tos ++ [to])) failing.
Proof using.
  apply sim_ex. intros ps. apply sim_ex. intros os. apply sim_ex. intros qs. apply sim_ex. intros us.
  apply sim_pure. intros HF. apply sim_pure. intros HG. unfold ReadTxOut, ReadTxOut_pool.
  eapply sim_rcv with (P' := holds (concat os ++ concat us) (mkPMsg v ps (qs ++ [mkPOut 0 None]) lt)).
  { intros w [Ho Hm]. split; [by apply (owns_ext frame _ w)|]. cbn [with_rcv rcv]. by rewrite Hm. }
  eapply sim_bind.
  { eapply sim_rd_holds with (stale := []); [apply _| |apply ignored_nil].
    erewrite outs_bufs by eassumption. by rewrite !app_nil_r. }
  intros val val'.
  eapply sim_rcv with (P' := fun w => val' = val /\ holds (concat os ++ concat us)
    (mkPMsg v ps (qs ++ [mkPOut (i64 val) None]) lt) w).
  { intros w [-> [Ho Hm]]. split; [done|]. split; [by apply (owns_ext frame _ w)|].
    cbn [with_rcv rcv]. rewrite Hm. unfold on_outs. cbn [p_ins p_version p_outs p_lock].
    by rewrite upd_last_snoc. }
  apply sim_pure. intros ->. apply sim_last. eapply sim_rcv_last.
  { eapply sim_readScript_holds with (stale := []); [lia| |apply ignored_nil].
    erewrite outs_bufs by eassumption. by rewrite !app_nil_r. }
  intros s b w [Ho Hm]. exists ps, os, (qs ++ [mkPOut (i64 val) (Some b)]), (us ++ [[(b, s)]]).
  split; [done|]. split; [apply Forall3_app; [done|]; repeat constructor; by eexists|].
  rewrite concat_app. apply (holds_perm ((b, s) :: concat os ++ concat us)).
  { cbn [concat]. rewrite app_nil_r, app_assoc. by rewrite (Permutation_app_comm (_ ++ _)). }
  split; [by apply (owns_ext frame _ w)|].
  cbn [with_rcv rcv]. rewrite Hm. unfold on_outs. cbn [p_ins p_version p_outs p_lock].
  by rewrite upd_last_snoc.
Qed.

(** *** Loops *)

Lemma sim_repeat {A} (f : RM A) (g : DM unit) (I : list A -> world -> Prop) X :
  (forall acc, sim f g (I acc) (fun a _ => I (acc ++ [a])) X) ->
  forall n k acc, sim (repeatM n f) (forM (seq k n) (fun _ => g)) (I acc) (fun l _ => I (acc ++ l)) X.
Proof using.
  intros H n. induction n as [|n IH]; intros k acc; cbn [repeatM seq forM].
  { apply sim_ret. intros w. by rewrite app_nil_r. }
  eapply sim_bind; [apply H|]. intros a []. apply sim_last.
  eapply sim_conseq; [apply IH|done| |done]. intros l [] w. by rewrite <- app_assoc.
Qed.

(** *** Witnesses *)

Definition set_wit (l : list bytes) (ti : TxIn) : TxIn :=
  mkTxIn (PreviousOutPoint ti) (SignatureScript ti) l (Sequence ti).

Lemma alter_middle {A} (f : A -> A) l x k i : length l = i -> alter f i (l ++ x :: k) = l ++ f x :: k.
Proof using. intros <-. rewrite <- (Nat.add_0_r (length l)), alter_app_r. done. Qed.

(** The input [i] in the middle of those that were read. *)
Lemma ins_split done ti todo ps os :
  Forall3 in_rel (done ++ ti :: todo) ps os ->
  exists ps1 p ps2 os1 o os2, ps = ps1 ++ p :: ps2 /\ os = os1 ++ o :: os2 /\ length ps1 = length done
    /\ Forall3 in_rel done ps1 os1 /\ in_rel ti p o /\ Forall3 in_rel todo ps2 os2.
Proof using.
  intros HF. apply Forall3_app_inv_l in HF as (ps1 & ps' & os1 & os' & -> & -> & HF1 & HF2).
  apply Forall3_cons_inv_l in HF2 as (p & ps2 & o & os2 & -> & -> & Hr & HF2).
  apply Forall3_length_lm in HF1 as Hl. by exists ps1, p, ps2, os1, o, os2.
Qed.

Lemma sim_witness_item v lt done ti todo tos acc :
  sim (readScript maxWitnessItemSize)
    (b <- readScript_pool maxWitnessItemSize ;;
     rcvM (on_ins (alter (fun ti => mkPIn (p_prev ti) (p_sig ti) (p_wit ti ++ [b]) (p_seq ti)) (length done))))
    (all_read v lt (done ++ set_wit acc ti :: todo) tos)
    (fun s _ => all_read v lt (done ++ set_wit (acc ++ [s]) ti :: todo) tos) failing.
Proof using.
  apply sim_ex. intros ps. apply sim_ex. intros os. apply sim_ex. intros qs. apply sim_ex. intros us.
  apply sim_pure. intros HF. apply sim_pure. intros HG. eapply sim_rcv_last.
  { eapply sim_readScript_holds with (stale := []); [lia| |apply ignored_nil].
    rewrite app_nil_r. by eapply all_bufs. }
  intros s b w [Ho Hm].
  apply ins_split in HF as (ps1 & p & ps2 & os1 & o & os2 & -> & -> & Hl & HF1 & (H1 & H2 & H3 & H4 & H5) & HF2).
  exists (ps1 ++ mkPIn (p_prev p) (p_sig p) (p_wit p ++ [b]) (p_seq p) :: ps2),
    (os1 ++ (o ++ [(b, s)]) :: os2), qs, us. split_and!; [|done|].
  - apply Forall3_app; [done|]. constructor; [|done]. split_and!; [done|done|done| |].
    + unfold in_bufs in *. cbn [p_sig p_wit]. by rewrite app_assoc, H4, map_app.
    + by rewrite map_app, H5.
  - apply (holds_perm ((b, s) :: concat (os1 ++ o :: os2) ++ concat us)).
    { rewrite !concat_app. cbn [concat]. rewrite <- !app_assoc. cbn [app].
      rewrite (Permutation_cons_append _ (b, s)), <- !app_assoc. do 2 apply Permutation_app_head.
      rewrite app_assoc. apply Permutation_app_comm. }
    split; [by apply (owns_ext frame _ w)|].
    cbn [with_rcv rcv]. rewrite Hm. unfold on_ins. cbn [p_ins p_version p_outs p_lock].
    by rewrite alter_middle.
Qed.

(** An input without a witness is not changed by the allocation of an empty one. *)
Lemma all_read_reset v lt done ti todo tos w :
  Witness ti = [] -> all_read v lt (done ++ ti :: todo) tos w ->
  all_read v lt (done ++ set_wit [] ti :: todo) tos
    (with_rcv (on_ins (alter (fun ti => mkPIn (p_prev ti) (p_sig ti) [] (p_seq ti)) (length done)) (rcv w)) w).
Proof using.
  intros Hw (ps & os & qs & us & HF & HG & Ho & Hm).
  exists ps, os, qs, us. assert (set_wit [] ti = ti) as -> by (destruct ti; simpl in *; by subst).
  split_and!; [done|done|]. split; [by apply (owns_ext frame _ w)|].
  cbn [with_rcv rcv]. rewrite Hm. unfold on_ins. cbn [p_ins p_version p_outs p_lock]. f_equal.
  apply ins_split in HF as (ps1 & p & ps2 & os1 & o & os2 & -> & -> & Hl & _ & (_ & _ & [b Hb] & H4 & H5) & _).
  rewrite alter_middle by done. f_equal. f_equal. rewrite Hw in H5.
  apply (f_equal length) in H4, H5. unfold in_bufs in H4.
  rewrite Hb, length_app, !length_map in *. simpl in *.
  destruct p as [? ? wit ?]. simpl in *. destruct wit; [by rewrite Hb|]. simpl in H4. lia.
Qed.

Lemma sim_readWitness v lt done ti todo tos :
  Witness ti = [] ->
  sim (witCount <- ReadVarInt ;;
       if witCount >? maxWitnessItemsPerInput then failM (MessageError "MsgTx.ThtDecode") else
       repeatM (Z.to_nat witCount) (readScript maxWitnessItemSize))
    (readWitness_pool (length done)) (all_read v lt (done ++ ti :: todo) tos)
    (fun wit _ => all_read v lt (done ++ set_wit wit ti :: todo) tos) failing.
Proof using.
  intros Hw. unfold readWitness_pool. eapply sim_bind.
  { eapply sim_conseq; [apply (sim_rd ReadVarInt)|exact (fun w H => H)|exact (fun a b w H => H)|apply all_read_failing].
    intros r w (ps & os & qs & us & ? & ? & ?). exists ps, os, qs, us. split_and!; try done. by apply holds_rd. }
  intros n n'. apply sim_pure. intros ->. destruct (n >? 500000).
  { apply sim_fail. apply all_read_failing. }
  eapply sim_rcv; [intros w; by apply all_read_reset|].
  apply (sim_repeat _ _ (fun acc => all_read v lt (done ++ set_wit acc ti :: todo) tos)).
  intros acc. apply sim_witness_item.
Qed.

Lemma sim_readWitnesses v lt todo : forall done tos,
  Forall (fun ti => Witness ti = []) todo ->
  sim (readWitnesses todo) (forM (seq (length done) (length todo)) readWitness_pool)
    (all_read v lt (done ++ todo) tos) (fun l _ => all_read v lt (done ++ l) tos) failing.
Proof using.
  induction todo as [|ti todo IH]; intros done tos Hw; cbn [readWitnesses length seq forM].
  { by apply sim_ret. }
  inversion Hw; subst. eapply sim_ext_l; [|eapply sim_bind; [by apply sim_readWitness|]].
  { intros r. rewrite bindM_assoc. apply bindM_ext. intros n r' _. by destruct (n >? 500000). }
  intros wit []. cbv beta. apply (sim_last (readWitnesses todo) (fun rest => set_wit wit ti :: rest)).
  replace (S (length done)) with (length (done ++ [set_wit wit ti])) by (rewrite length_app; simpl; lia).
  eapply sim_conseq; [by apply IH| | |done].
  - intros w. by rewrite <- app_assoc.
  - intros l [] w. by rewrite <- app_assoc.
Qed.

(** *** The body *)

(** Before the inputs are read: nothing is borrowed, and [Return] would ignore
    the scripts of the outputs that the receiver still has. *)
Definition clean (v : Z) (w : world) : Prop :=
  owns frame [] w /\ p_version (rcv w) = v /\ ignored (concat (map out_bufs (p_outs (rcv w)))).

Lemma ins_read_rd v lt old tis r w : ins_read v lt old tis w -> ins_read v lt old tis (with_rd r w).
Proof using. intros (ps & os & ? & ? & ?). exists ps, os. split_and!; try done. by apply holds_rd. Qed.

Lemma ins_read_failing v lt old tis w :
  ignored (concat (map out_bufs old)) -> ins_read v lt old tis w -> failing w.
Proof using.
  intros Hold (ps & os & HF & _ & Hw). eapply holds_failing; [exact Hw| |exact Hold].
  unfold msg_bufs. cbn [p_ins p_outs]. by rewrite (rel_bufs _ _ _ _ _ in_rel_bufs HF).
Qed.

Lemma all_read_rd v lt tis tos r w : all_read v lt tis tos w -> all_read v lt tis tos (with_rd r w).
Proof using.
  intros (ps & os & qs & us & ? & ? & ?). exists ps, os, qs, us. split_and!; try done. by apply holds_rd.
Qed.

(** The end of the body: the witnesses and the lock time. *)
Lemma sim_body_end v lt (ww : bool) ins (outs : list TxOut) :
  Forall (fun ti => Witness ti = []) ins ->
  sim (ins <- (if ww then readWitnesses ins else retM ins) ;; lockTime <- Uint32 ;; retM (ins, outs, lockTime))
    (w <- getM ;;
     (if ww then forM (seq 0 (length (p_ins (rcv w)))) readWitness_pool else retM tt) ;;
     lockTime <- rdM Uint32 ;;
     rcvM (fun m => mkPMsg (p_version m) (p_ins m) (p_outs m) lockTime))
    (all_read v lt ins outs) (fun b _ => all_read v b.2 b.1.1 b.1.2) failing.
Proof using.
  intros Hw. apply sim_get. intros w0 (ps & os & qs & us & HF & _ & _ & ->). cbn [p_ins].
  rewrite <- (Forall3_length_lm _ _ _ _ HF).
  eapply sim_bind with (Q := fun l (_ : unit) => all_read v lt l outs).
  { destruct ww; [apply (sim_readWitnesses v lt ins [] outs Hw)|]. by apply sim_ret. }
  intros l []. apply (sim_last Uint32 (fun lockTime => (l, outs, lockTime))). eapply sim_rcv_last.
  { eapply sim_conseq; [apply (sim_rd Uint32)|exact (fun w H => H)|exact (fun a b w H => H)|apply all_read_failing].
    intros r w. apply all_read_rd. }
  intros a b w [-> (ps' & os' & qs' & us' & ? & ? & Ho & Hm)]. exists ps', os', qs', us'.
  split_and!; try done. split; [by apply (owns_ext frame _ w)|]. cbn [with_rcv rcv]. by rewrite Hm.
Qed.

Lemma sim_decodeBody v ww count :
  sim (decodeBody ww count)
    (if count >? maxTxInPerMessage then failM (MessageError "MsgTx.ThtDecode") else
     onErr returnScriptBuffers (decodeBody_pool ww count))
    (clean v) (fun b _ => all_read v b.2 b.1.1 b.1.2) (owns frame []).
Proof using.
  unfold decodeBody. destruct (count >? maxTxInPerMessage); [apply sim_fail; by intros w [? _]|].
  apply sim_onErr. unfold decodeBody_pool.
  eapply sim_rcv with (P' := fun w => exists lt old, ignored (concat (map out_bufs old)) /\ ins_read v lt old [] w).
  { intros w (Ho & <- & Hs). exists (p_lock (rcv w)), (p_outs (rcv w)). split; [done|]. exists [], [].
    split_and!; [constructor|constructor|]. split; [by apply (owns_ext frame _ w)|done]. }
  apply sim_ex. intros lt. apply sim_ex. intros old. apply sim_pure. intros Hold.
  eapply sim_bind.
  { apply (sim_repeat readTxIn readTxIn_pool (ins_read v lt old) failing). intros acc. by apply sim_readTxIn. }
  intros ins []. cbn [app]. eapply sim_bind.
  { eapply sim_conseq; [apply (sim_rd ReadVarInt)|exact (fun w H => H)|exact (fun a b w H => H)|].
    - intros r w. apply ins_read_rd.
    - intros w. by apply ins_read_failing. }
  intros n n'. apply sim_pure. intros ->. destruct (n >? maxTxOutPerMessage).
  { apply sim_fail. intros w. by apply ins_read_failing. }
  eapply sim_rcv with (P' := fun w => Forall (fun ti => Witness ti = []) ins /\ all_read v lt ins [] w).
  { intros w (ps & os & HF & Hwit & Ho & Hm). split; [done|]. exists ps, os, [], [].
    split_and!; [done|constructor|]. cbn [concat]. rewrite app_nil_r.
    split; [by apply (owns_ext frame _ w)|]. cbn [with_rcv rcv]. by rewrite Hm. }
  apply sim_pure. intros Hwit. eapply sim_bind.
  { apply (sim_repeat ReadTxOut ReadTxOut_pool (all_read v lt ins) failing). intros acc. apply sim_ReadTxOut. }
  intros outs []. cbn [app]. by apply sim_body_end.
Qed.

(** ** The contiguous buffer *)

(** A slice of the buffer within its bounds. *)
Definition ref_ok (n : Z) (r : sref) : Prop := 0 <= r.1 <= r.2 /\ r.2 <= n.
Definition ref_buf (n : nat) (r : sref) : buf := mkBuf n r.1 (r.2 - r.1) (r.2 - r.1).

Lemma place_ok c arr off r arr' off' :
  0 <= off -> place c (arr, off) = (Ret r, (arr', off')) ->
  zlen arr' = zlen arr /\ 0 <= off' /\ ref_ok (zlen arr) r.
Proof using.
  intros Ho H. unfold place in H. rewrite Z.gtb_ltb in H.
  destruct (Z.ltb_spec (zlen arr) off) as [|Hl]; [done|].
  assert (zlen (copy_at arr off c) = zlen arr) as Hc.
  { unfold copy_at. pose proof (zlen_nonneg c).
    rewrite !zlen_app, !zlen_take, zlen_drop. lia. }
  rewrite Hc in H. destruct ((_ >? _) || _) eqn:E in H; [done|]. zbool. injection H as <- <- <-.
  split_and!; [done|apply u64_range|]. unfold ref_ok. cbn [fst snd]. lia.
Qed.

Section place.
Variables (n : nat) (total : Z).
Notation sb := (mkBuf n 0 total total).

(** What is left unchanged by the steps that place scripts. *)
Definition same (w w' : world) : Prop := rd w' = rd w /\ rcv w' = rcv w.

Lemma placeBuf_spec own w b c arr off r arr' off' :
  owns frame ((sb, arr) :: (b, c) :: own) w -> 0 <= off ->
  place c (arr, off) = (Ret r, (arr', off')) ->
  exists w', placeBuf n b (w, off) = (Ret (ref_buf n r), (w', off'))
    /\ owns frame ((sb, arr') :: own) w' /\ same w w'.
Proof using.
  intros Ho Hoff Hp. destruct (place_ok _ _ _ _ _ _ Hoff Hp) as (Hl & _ & _).
  destruct (owns_write frame _ w sb arr arr' Ho Hl) as (rest & Ha & Hw). cbn [b_arr] in Ha, Hw.
  destruct Ho as [_ _ H3 _]. inversion H3 as [|? ? (_ & Hlen & r0 & Ha' & Hcap) H3']; subst.
  inversion H3' as [|? ? Hb _]; subst. cbn [fst snd b_len b_cap b_arr] in *.
  assert (r0 = rest) as -> by (rewrite Ha in Ha'; injection Ha' as E; by apply app_inv_head in E).
  assert (rest = []) as -> by (rewrite zlen_app in Hcap; apply zlen_0_inv; lia).
  rewrite app_nil_r in *. unfold placeBuf.
  rewrite (contents_own _ _ Hb : contents (arrs w) b = Some c), Ha, Hp. destruct r as [s e].
  apply (owns_perm frame _ ((b, c) :: (sb, arr') :: own)) in Hw; [|by apply perm_swap].
  destruct (Return_spec frame _ _ b c Hw) as (w' & -> & Ho' & Hr & Hm & _).
  exists w'. by split_and!.
Qed.

Lemma placeBufs_spec o : forall own w arr off rs arr' off',
  owns frame ((sb, arr) :: o ++ own) w -> 0 <= off ->
  mapM place (map snd o) (arr, off) = (Ret rs, (arr', off')) ->
  exists w', mapM (placeBuf n) (map fst o) (w, off) = (Ret (map (ref_buf n) rs), (w', off'))
    /\ owns frame ((sb, arr') :: own) w' /\ same w w'
    /\ zlen arr' = zlen arr /\ 0 <= off' /\ Forall (ref_ok (zlen arr)) rs.
Proof using.
  induction o as [|[b c] o IH]; intros own w arr off rs arr' off' Ho Hoff H; cbn [map mapM fst snd] in *.
  { injection H as <- <- <-. exists w. by split_and!. }
  apply bindM_Ret in H as (r & [a1 o1] & E1 & H). apply bindM_Ret in H as (rs' & [a2 o2] & E2 & H).
  injection H as <- <- <-.
  destruct (place_ok _ _ _ _ _ _ Hoff E1) as (Hl1 & Ho1 & Hr1).
  destruct (placeBuf_spec _ _ _ _ _ _ _ _ _ Ho Hoff E1) as (w1 & F1 & Hw1 & [Hs1 Hs1']).
  destruct (IH _ _ _ _ _ _ _ Hw1 Ho1 E2) as (w2 & F2 & Hw2 & [Hs2 Hs2'] & Hl2 & Ho2 & Hr2).
  exists w2. rewrite (bindM_step _ _ _ _ _ F1), (bindM_step _ _ _ _ _ F2).
  split_and!; [done|done|by split; congruence|lia|done|]. constructor; [done|]. by rewrite <- Hl1.
Qed.

Definition placed_in (p : pTxIn) (r : sref * list sref) : pTxIn :=
  mkPIn (p_prev p) (Some (ref_buf n r.1)) (map (ref_buf n) r.2) (p_seq p).
Definition placed_out (p : pTxOut) (r : sref) : pTxOut := mkPOut (p_value p) (Some (ref_buf n r)).

Definition in_ref_ok (k : Z) (r : sref * list sref) : Prop := Forall (ref_ok k) (r.1 :: r.2).

Lemma placeIn_spec ti p o own w arr off r arr' off' :
  in_rel ti p o -> owns frame ((sb, arr) :: o ++ own) w -> 0 <= off ->
  placeTxIn ti (arr, off) = (Ret r, (arr', off')) ->
  exists w', placeIn n p (w, off) = (Ret (placed_in p r), (w', off'))
    /\ owns frame ((sb, arr') :: own) w' /\ same w w'
    /\ zlen arr' = zlen arr /\ 0 <= off' /\ in_ref_ok (zlen arr) r.
Proof using.
  intros (_ & _ & [b Hb] & Hbufs & Hc) Ho Hoff H. destruct o as [|[b' c] o]; [done|].
  unfold in_bufs in Hbufs. rewrite Hb in Hbufs. injection Hbufs as <- Hw. injection Hc as Hsig Hwit.
  unfold placeTxIn in H. rewrite <- Hsig, <- Hwit in H.
  apply bindM_Ret in H as (s & [a1 o1] & E1 & H). apply bindM_Ret in H as (ws & [a2 o2] & E2 & H).
  injection H as <- <- <-. cbn [app] in Ho.
  destruct (place_ok _ _ _ _ _ _ Hoff E1) as (Hl1 & Ho1 & Hr1).
  destruct (placeBuf_spec _ _ _ _ _ _ _ _ _ Ho Hoff E1) as (w1 & F1 & Hw1 & [Hs1 Hs1']).
  destruct (placeBufs_spec _ _ _ _ _ _ _ _ Hw1 Ho1 E2) as (w2 & F2 & Hw2 & [Hs2 Hs2'] & Hl2 & Ho2 & Hr2).
  exists w2. unfold placeIn. rewrite Hb, Hw. cbn [placeSig].
  rewrite (bindM_step _ _ _ _ _ F1), (bindM_step _ _ _ _ _ F2).
  split_and!; [done|done|by split; congruence|lia|done|]. constructor; [done|]. by rewrite <- Hl1.
Qed.

Lemma placeOut_spec to p o own w arr off r arr' off' :
  out_rel to p o -> owns frame ((sb, arr) :: o ++ own) w -> 0 <= off ->
  place (PkScript to) (arr, off) = (Ret r, (arr', off')) ->
  exists w', placeOut n p (w, off) = (Ret (placed_out p r), (w', off'))
    /\ owns frame ((sb, arr') :: own) w' /\ same w w'
    /\ zlen arr' = zlen arr /\ 0 <= off' /\ ref_ok (zlen arr) r.
Proof using.
  intros (_ & [b Hb] & Hbufs & Hc) Ho Hoff H. destruct o as [|[b' c] [|]]; try done.
  unfold out_bufs in Hbufs. rewrite Hb in Hbufs. injection Hbufs as <-. injection Hc as Hpk.
  rewrite <- Hpk in H. cbn [app] in Ho.
  destruct (place_ok _ _ _ _ _ _ Hoff H) as (Hl1 & Ho1 & Hr1).
  destruct (placeBuf_spec _ _ _ _ _ _ _ _ _ Ho Hoff H) as (w1 & F1 & Hw1 & Hs).
  exists w1. unfold placeOut. rewrite Hb. cbn [placeSig]. rewrite (bindM_step _ _ _ _ _ F1). by split_and!.
Qed.

(** A loop of such steps, next to the loop on values. *)
Lemma mapM_place {X Y R} (rel : X -> Y -> list (buf * bytes) -> Prop)
    (f : X -> M (bytes * Z) WireErr R) (g : Y -> M (world * Z) WireErr Y) (h : Y -> R -> Y) (ok : Z -> R -> Prop) :
  (forall x y o own w arr off r arr' off', rel x y o -> owns frame ((sb, arr) :: o ++ own) w -> 0 <= off ->
     f x (arr, off) = (Ret r, (arr', off')) ->
     exists w', g y (w, off) = (Ret (h y r), (w', off')) /\ owns frame ((sb, arr') :: own) w' /\ same w w'
       /\ zlen arr' = zlen arr /\ 0 <= off' /\ ok (zlen arr) r) ->
  forall xs ys os, Forall3 rel xs ys os ->
  forall own w arr off rs arr' off',
    owns frame ((sb, arr) :: concat os ++ own) w -> 0 <= off ->
    mapM f xs (arr, off) = (Ret rs, (arr', off')) ->
    exists w', mapM g ys (w, off) = (Ret (zip_with h ys rs), (w', off'))
      /\ owns frame ((sb, arr') :: own) w' /\ same w w'
      /\ zlen arr' = zlen arr /\ 0 <= off' /\ Forall (ok (zlen arr)) rs.
Proof using.
  intros Hstep xs ys os HF. induction HF as [|x y o xs ys os Hr HF IH]; intros own w arr off rs arr' off' Ho Hoff H;
    cbn [mapM concat] in *.
  { injection H as <- <- <-. exists w. by split_and!. }
  apply bindM_Ret in H as (r & [a1 o1] & E1 & H). apply bindM_Ret in H as (rs' & [a2 o2] & E2 & H).
  injection H as <- <- <-. rewrite <- app_assoc in Ho.
  destruct (Hstep _ _ _ _ _ _ _ _ _ _ Hr Ho Hoff E1) as (w1 & F1 & Hw1 & [Hs1 Hs1'] & Hl1 & Ho1 & Hr1).
  destruct (IH _ _ _ _ _ _ _ Hw1 Ho1 E2) as (w2 & F2 & Hw2 & [Hs2 Hs2'] & Hl2 & Ho2 & Hr2).
  exists w2. rewrite (bindM_step _ _ _ _ _ F1), (bindM_step _ _ _ _ _ F2).
  split_and!; [done|done|by split; congruence|lia|done|]. constructor; [done|]. by rewrite <- Hl1.
Qed.
End place.

(** *** Sizes and views *)

Lemma zsum_map {A B} (f : B -> Z) (g : A -> B) l : zsum f (map g l) = zsum (fun x => f (g x)) l.
Proof using. induction l as [|x l IH]; [done|]. unfold zsum in *. cbn [map foldr]. by rewrite IH. Qed.

Lemma own_sizes a own :
  Forall (own_ok a) own -> zsum b_len (map fst own) = zsum zlen (map snd own).
Proof using.
  intros H. rewrite !zsum_map. induction H as [|o own (_ & Ho & _) H IH]; [done|].
  unfold zsum in *. cbn [foldr]. by rewrite IH, Ho.
Qed.

Lemma rel_sizes {X Y} (rel : X -> Y -> list (buf * bytes) -> Prop) (size : X -> Z) xs ys os :
  (forall x y o, rel x y o -> zsum zlen (map snd o) = size x) -> Forall3 rel xs ys os ->
  zsum zlen (map snd (concat os)) = zsum size xs.
Proof using.
  intros Hr HF. induction HF as [|x y o xs ys os H HF IH]; [done|]. cbn [concat].
  rewrite map_app, zsum_app, IH, (Hr _ _ _ H). done.
Qed.

Lemma contents_ref a n arr r :
  a !! n = Some arr -> ref_ok (zlen arr) r -> contents a (ref_buf n r) = Some (deref arr r).
Proof using.
  intros Ha [H1 H2]. unfold contents, ref_buf, deref. cbn [b_arr b_off b_len]. rewrite Ha. simpl.
  replace (r.1 + (r.2 - r.1)) with r.2 by lia. by rewrite zslice_Some by lia.
Qed.

Lemma in_of_placed a n arr ti p o r :
  a !! n = Some arr -> in_rel ti p o -> in_ref_ok (zlen arr) r ->
  (deref arr r.1, map (deref arr) r.2) = (SignatureScript ti, Witness ti) ->
  in_of a (placed_in n p r) = Some ti.
Proof using.
  intros Ha (Hp & Hs & _) Hok [= H1 H2]. inversion Hok as [|? ? Hk1 Hk2]; subst.
  unfold in_of, placed_in. cbn [p_sig p_wit p_prev p_seq script_of].
  rewrite (contents_ref a n arr) by done. simpl.
  assert (foldr (fun b acc => contents a b ≫= fun c => acc ≫= fun cs => Some (c :: cs)) (Some [])
    (map (ref_buf n) r.2) = Some (map (deref arr) r.2)) as ->.
  { clear -Ha Hk2. induction Hk2 as [|x l Hx Hl IH]; [done|]. cbn [map foldr].
    rewrite (contents_ref a n arr) by done. rewrite IH. done. }
  simpl. rewrite H1, H2, Hp, Hs. by destruct ti.
Qed.

Lemma out_of_placed a n arr to p o r :
  a !! n = Some arr -> out_rel to p o -> ref_ok (zlen arr) r -> deref arr r = PkScript to ->
  out_of a (placed_out n p r) = Some to.
Proof using.
  intros Ha (Hp & _) Hok H1. unfold out_of, placed_out. cbn [p_pk p_value script_of].
  rewrite (contents_ref a n arr) by done. simpl. rewrite H1, Hp. by destruct to.
Qed.

(** The views of a list of placed items. *)
Lemma views_placed {X Y R V} (rel : X -> Y -> list (buf * bytes) -> Prop) (vof : Y -> option X)
    (h : Y -> R -> Y) (ok : R -> Prop) (vw : R -> V) (vx : X -> V) :
  (forall x y o r, rel x y o -> ok r -> vw r = vx x -> vof (h y r) = Some x) ->
  forall xs ys os, Forall3 rel xs ys os -> forall rs, Forall ok rs -> map vw rs = map vx xs ->
  Forall2 (fun x y => vof y = Some x) xs (zip_with h ys rs).
Proof using.
  intros Hv xs ys os HF. induction HF as [|x y o xs ys os Hr HF IH]; intros rs Hok Hm.
  { destruct rs; [constructor|done]. }
  destruct rs as [|r rs]; [done|]. injection Hm as Hm1 Hm2. inversion Hok; subst.
  cbn [zip_with]. constructor; [by eapply Hv|by apply IH].
Qed.

Lemma total_size v lt ps qs os us tis tos a :
  Forall3 in_rel tis ps os -> Forall3 out_rel tos qs us -> Forall (own_ok a) (concat os ++ concat us) ->
  zsum b_len (msg_bufs (mkPMsg v ps qs lt))
  = zsum (fun ti => zlen (SignatureScript ti) + zsum zlen (Witness ti)) tis
    + zsum (fun to => zlen (PkScript to)) tos.
Proof using.
  intros HF HG Ho. rewrite (all_bufs v lt ps qs os us tis tos HF HG), (own_sizes a) by done.
  rewrite map_app, zsum_app. f_equal.
  - eapply rel_sizes; [|exact HF]. intros ti p o (_ & _ & _ & _ & ->). done.
  - eapply rel_sizes; [|exact HG]. intros to p o (_ & _ & _ & ->). cbn. lia.
Qed.

(** *** The last step of the decoder *)

(** The receiver holds the transaction [tx]. *)
Definition received (tx : MsgTx) (w : world) : Prop :=
  p_version (rcv w) = Version tx /\ p_lock (rcv w) = LockTime tx
  /\ Forall2 (fun ti p => in_of (arrs w) p = Some ti) (TxIns tx) (p_ins (rcv w))
  /\ Forall2 (fun to p => out_of (arrs w) p = Some to) (TxOuts tx) (p_outs (rcv w)).

Lemma relocate_pool_spec v lt tis tos w :
  all_read v lt tis tos w ->
  zsum (fun ti => zlen (SignatureScript ti) + zsum zlen (Witness ti)) tis
    + zsum (fun to => zlen (PkScript to)) tos < 2 ^ 64 ->
  exists w' b arr, relocate_pool w = (Ret tt, w') /\ rd w' = rd w
    /\ owns frame [(b, arr)] w' /\ received (mkMsgTx v tis tos lt) w'.
Proof using.
  intros (ps & os & qs & us & HF & HG & Ho & Hm) Hlt.
  destruct (placed_bind _ _ _ _ _ _ _ _ (placed_mapM _ _ _ _ tis placed_txin)
    (placed_mapM _ _ _ _ tos (fun to => placed_place (PkScript to)))) as [Hn Hplaced].
  set (total := zsum _ tis + zsum _ tos) in *.
  assert (u64 (zsum b_len (msg_bufs (rcv w))) = total) as Htot.
  { rewrite Hm, (total_size v lt ps qs os us tis tos (arrs w) HF HG) by apply Ho. by apply u64_id. }
  unfold relocate_pool. rewrite Htot. unfold makeBuf. cbn [b_arr].
  set (n := length (arrs w)). set (buf0 := replicate (Z.to_nat total) (z2b 0)).
  assert (zlen buf0 = total) as Hb0 by (subst buf0; rewrite zlen_replicate; lia).
  pose proof (owns_make frame _ w total total buf0 [] Ho ltac:(by rewrite app_nil_r) Hb0 Hn) as Hw0.
  fold n in Hw0. unfold makeBuf in Hw0. cbn [snd] in Hw0. fold buf0 in Hw0.
  set (w0 := with_arrs (arrs w ++ [buf0]) w) in *.
  destruct (Hplaced buf0 0) as ([irefs orefs] & arr & E & Hlen & _ & V); [done|lia|].
  specialize (V arr eq_refl). cbn [fst snd] in V. injection V as V1 V2.
  apply bindM_Ret in E as (ir & [a1 o1] & E1 & E). apply bindM_Ret in E as (or & [a2 o2] & E2 & E).
  injection E as -> -> -> _.
  rewrite <- (app_nil_r (concat us)) in Hw0.
  destruct (mapM_place n total in_rel placeTxIn (placeIn n) (placed_in n) in_ref_ok (placeIn_spec n total)
    _ _ _ HF _ _ _ _ _ _ _ Hw0 (Z.le_refl 0) E1) as (w1 & F1 & Hw1 & [Hs1 Hs1'] & Hl1 & Ho1 & Hr1).
  destruct (mapM_place n total out_rel _ (placeOut n) (placed_out n) ref_ok (placeOut_spec n total)
    _ _ _ HG _ _ _ _ _ _ _ Hw1 Ho1 E2) as (w2 & F2 & Hw2 & [Hs2 Hs2'] & Hl2 & Ho2 & Hr2).
  assert (rcv w0 = mkPMsg v ps qs lt) as Hm0 by done. rewrite Hm0. cbn [p_ins p_outs].
  rewrite (bindM_step _ _ _ _ _ F1), (bindM_step _ _ _ _ _ F2). unfold retM. cbn [bindO].
  eexists _, _, arr. split; [reflexivity|]. split; [cbn [with_rcv rd]; by rewrite Hs2, Hs1|].
  split; [by apply (owns_ext frame _ w2)|].
  assert (arrs w2 !! n = Some arr) as Harr.
  { destruct Hw2 as [_ _ H3 _]. inversion H3 as [|? ? (_ & H5 & rest & H6 & H7) _]; subst.
    cbn [fst snd b_arr b_len b_cap] in *. rewrite zlen_app in H7.
    rewrite (zlen_0_inv rest) in H6 by lia. by rewrite app_nil_r in H6. }
  rewrite Hs2', Hs1', Hm0. split_and!; try done; cbn [with_rcv rcv arrs p_ins p_outs TxIns TxOuts].
  - eapply (views_placed in_rel (in_of (arrs w2)) (placed_in n) (in_ref_ok (zlen arr))
      (fun r => (deref arr r.1, map (deref arr) r.2))); [|exact HF|by rewrite Hl2, Hl1|exact V1].
    intros ti p o r Hrel Hok Hv. by eapply in_of_placed.
  - eapply (views_placed out_rel (out_of (arrs w2)) (placed_out n) (ref_ok (zlen arr)) (deref arr));
      [|exact HG|by rewrite Hl2|exact V2].
    intros to p o r Hrel Hok Hv. by eapply out_of_placed.
Qed.

(** *** The head, and everything together *)

Definition fresh_rcv (w : world) : Prop :=
  owns frame [] w /\ ignored (concat (map out_bufs (p_outs (rcv w)))).

Lemma fresh_rd r w : fresh_rcv w -> fresh_rcv (with_rd r w).
Proof using. intros [Ho ?]. split; [by apply (owns_ext frame _ w)|done]. Qed.
Lemma clean_rd v r w : clean v w -> clean v (with_rd r w).
Proof using. intros (Ho & ? & ?). split_and!; [by apply (owns_ext frame _ w)|done|done]. Qed.

Lemma sim_decodeHead enc :
  sim (decodeHead enc) (decodeHead_pool enc) fresh_rcv
    (fun a b w => (b.2 = a.2 /\ 0 <= a.2 /\ negb (b.1 =? 0) && is_witness_encoding enc = a.1.2)
       /\ clean (i32 a.1.1) w) (owns frame []).
Proof using.
  unfold decodeHead, decodeHead_pool.
  assert (forall v w, clean v w -> owns frame [] w) as Hx by by intros v w [? _].
  eapply sim_bind.
  { eapply sim_conseq; [apply (sim_rd Uint32), fresh_rd|exact (fun w H => H)|exact (fun a b w H => H)|].
    by intros w [? _]. }
  intros v v'. eapply sim_rcv with (P' := fun w => v' = v /\ clean (i32 v) w).
  { intros w [-> [Ho Hi]]. split; [done|]. split_and!; [by apply (owns_ext frame _ w)|done|done]. }
  apply sim_pure. intros ->. eapply sim_bind.
  { eapply sim_conseq; [apply sim_varint, clean_rd|exact (fun w H => H)|exact (fun a b w H => H)|apply Hx]. }
  intros n n'. apply sim_pure. intros [-> Hn]. destruct ((n =? 0) && is_witness_encoding enc) eqn:E.
  - eapply sim_bind.
    { eapply sim_conseq; [apply (sim_rd Uint8), clean_rd|exact (fun w H => H)|exact (fun a b w H => H)|apply Hx]. }
    intros fl fl'. apply sim_pure. intros ->. destruct (Z.eqb_spec fl 1) as [->|]; cbn [negb]; [|by apply sim_fail, Hx].
    eapply sim_bind.
    { eapply sim_conseq; [apply sim_varint, clean_rd|exact (fun w H => H)|exact (fun a b w H => H)|apply Hx]. }
    intros k k'. apply sim_pure. intros [-> Hk]. apply sim_ret. intros w Hc. split; [|done]. split_and!; try done.
    cbn. by zbool.
  - apply sim_ret. intros w Hc. by split.
Qed.

Lemma body_wf_total ww ins outs lt :
  body_wf ww (ins, outs, lt) ->
  zsum (fun ti => zlen (SignatureScript ti) + zsum zlen (Witness ti)) ins
    + zsum (fun to => zlen (PkScript to)) outs < 2 ^ 64.
Proof using.
  intros (Hi & Hins & Ho & Houts & Hw & _). apply script_total_bound; try done.
  eapply Forall_impl; [exact Hw|]. intros ti. destruct ww; [done|]. intros ->. split; [done|constructor].
Qed.

Lemma ThtDecode_pool_sim enc :
  sim (ThtDecode enc) (ThtDecode_pool enc) fresh_rcv
    (fun tx _ w => received tx w /\ exists b arr, owns frame [(b, arr)] w) (owns frame []).
Proof using.
  eapply sim_ext_l; [intros r; apply ThtDecode_eq|]. unfold ThtDecode_pool.
  eapply sim_bind; [apply sim_decodeHead|]. intros [[v ww] n] [fl n']. cbn [fst snd].
  apply sim_pure. intros (-> & Hn & ->). unfold decodeTail.
  eapply sim_ext_r with (g' := (if n >? maxTxInPerMessage then failM (MessageError "MsgTx.ThtDecode") else
    onErr returnScriptBuffers (decodeBody_pool ww n)) ;; relocate_pool).
  { intros w. by destruct (n >? maxTxInPerMessage). }
  eapply sim_bind.
  { eapply sim_with with (F := body_wf ww); [apply sim_decodeBody|].
    intros a r r' E. by apply decodeBody_canon in E as (_ & ? & _). }
  intros [[ins outs] lt] []. cbn [fst snd]. apply sim_pure. intros Hwf%body_wf_total w Hw.
  destruct (relocate_pool_spec _ _ _ _ w Hw Hwf) as (w' & b & arr & -> & Hr & Ho & Hrcv).
  split_and!; [done|done|by exists b, arr].
Qed.
End decoder.

(** ** Properties *)

(** C13: The decoder that borrows its buffers from the pool does what the decoder
    on values does: it returns the same transaction, or the same error, and leaves
    the same rest of the input.  On every path each buffer that was borrowed is
    given back, or dropped if it has another size or the pool is full, and once
    only, so that no array is twice in the pool; what belongs to others ([frame])
    is neither written nor put into the pool.  The outputs that the receiver
    still holds from earlier must not have scripts with a capacity of 512. *)
Theorem ThtDecode_pool_refines frame enc w :
  owns frame [] w -> ignored (concat (map out_bufs (p_outs (rcv w)))) ->
  match ThtDecode enc (rd w), ThtDecode_pool enc w with
  | (Ret tx, r), (Ret _, w') =>
      rd w' = r /\ received tx w' /\ exists b arr, owns frame [(b, arr)] w'
  | (Fail e, r), (Fail e', w') => e' = e /\ rd w' = r /\ owns frame [] w'
  | _, _ => False
  end.
Proof. intros Ho Hi. exact (ThtDecode_pool_sim frame enc w (conj Ho Hi)). Qed.

(** ** Examples *)

(** One buffer in the pool, an array of somebody else, a new receiver. *)
Definition pool_world (r : bytes) : world :=
  mkWorld r [mkBuf 0 0 0 512] [replicate 512 (z2b 0); str "other"] (mkPMsg 0 [] [] 0).

Lemma pool_world_owns r : owns [(1%nat, str "other")] [] (pool_world r).
Proof.
  split; cbn.
  - repeat constructor; set_solver.
  - repeat constructor. exists (replicate 512 (z2b 0)). done.
  - constructor.
  - by repeat constructor.
Qed.

Lemma ThtDecode_pool_refines_witness :
  let w := pool_world (Serialize sample_tx []).2 in
  exists w', ThtDecode_pool WitnessEncoding w = (Ret tt, w') /\ received sample_tx w'
    /\ arrs w' !! 1%nat = Some (str "other").
Proof.
  cbv zeta.
  pose proof (ThtDecode_pool_refines [(1%nat, str "other")] WitnessEncoding
    (pool_world (Serialize sample_tx []).2) (pool_world_owns _) ltac:(constructor)) as H.
  assert (ThtDecode WitnessEncoding (rd (pool_world (Serialize sample_tx []).2)) = (Ret sample_tx, [])) as E
    by (vm_compute; reflexivity).
  rewrite E in H.
  destruct (ThtDecode_pool WitnessEncoding (pool_world (Serialize sample_tx []).2)) as [[[]|e| |] w'];
    try contradiction.
  exists w'. destruct H as (_ & Hr & b & arr & [_ _ _ Hf]). split; [reflexivity|]. split; [exact Hr|].
  inversion Hf as [|? ? H1 H2]. exact H1.
Defined.

(** A receiver that holds an output with a script of 512 bytes, which somebody
    else still uses, and an input that ends early. *)
Definition stale_world : world :=
  mkWorld (le_bytes 4 2 ++ [z2b 1]) [] [replicate 512 (z2b 65)]
    (mkPMsg 1 [] [mkPOut 9 (Some (mkBuf 0 0 512 512))] 0).

(** The error path puts that script into the pool, and the next transaction that
    is decoded is read into it. *)
Example stale_output_overwritten :
  let w1 := (ThtDecode_pool BaseEncoding stale_world).2 in
  let w2 := (ThtDecode_pool WitnessEncoding
    (with_rd (Serialize sample_tx []).2 (with_rcv (mkPMsg 0 [] [] 0) w1))).2 in
  owns [(0%nat, replicate 512 (z2b 65))] [] stale_world
  /\ (ThtDecode_pool BaseEncoding stale_world).1 = Fail EOF
  /\ free w1 = [mkBuf 0 0 512 512]
  /\ arrs w2 !! 0%nat = Some ([z2b 1; z2b 2] ++ replicate 510 (z2b 65)).
Proof.
  cbv zeta. split_and!; [|vm_compute; reflexivity..].
  split; cbn; repeat constructor; set_solver.
Qed.
