(* ===== verification/Disasm.v ===== *)
(** Disassembly (src/thoughtd/txscript/opcode.go [disasmOpcode],
    src/thoughtd/txscript/script.go [DisasmString],
    src/thoughtd/txscript/engine.go [DisasmPC] and [DisasmScript]) and the names of
    opcodes.

    A [strings.Builder] is the bytes written so far.  The compact form is shown to
    list the opcodes of the script; the long form is shown to determine the
    script. *)

From S2P Require Import Prelude Crypto WireTx ScriptError Digits Hash Opcodes Tokenizer Script Engine EngineInv EngineSafety.

(** ** Formatting *)

(** [%0<w>x] of a number that is not negative *)
Definition fmt_x (w : nat) (x : Z) : bytes :=
  replicate (w - length (hexDigits x)) (z2b 48) ++ hexDigits x.

(** [%02x] of a slice: two digits for each byte; an empty one is padded to the
    width. *)
Definition fmt_bytes (b : bytes) : bytes :=
  match b with [] => str "00" | _ => EncodeToString b end.

(** ** disasmOpcode *)

Definition opcodeOnelineRepls (name : string) : option string :=
  if String.eqb name "OP_1NEGATE" then Some "-1"
  else if String.eqb name "OP_0" then Some "0"
  else if String.eqb name "OP_1" then Some "1"
  else if String.eqb name "OP_2" then Some "2"
  else if String.eqb name "OP_3" then Some "3"
  else if String.eqb name "OP_4" then Some "4"
  else if String.eqb name "OP_5" then Some "5"
  else if String.eqb name "OP_6" then Some "6"
  else if String.eqb name "OP_7" then Some "7"
  else if String.eqb name "OP_8" then Some "8"
  else if String.eqb name "OP_9" then Some "9"
  else if String.eqb name "OP_10" then Some "10"
  else if String.eqb name "OP_11" then Some "11"
  else if String.eqb name "OP_12" then Some "12"
  else if String.eqb name "OP_13" then Some "13"
  else if String.eqb name "OP_14" then Some "14"
  else if String.eqb name "OP_15" then Some "15"
  else if String.eqb name "OP_16" then Some "16"
  else None%string.

(** What is written for an opcode. *)
Definition disasmOpcode (o : opcode) (data : bytes) (compact : bool) : bytes :=
  if compact then
    let opcodeName := match opcodeOnelineRepls (name o) with Some r => r | None => name o end in
    if op_length o =? 1 then str opcodeName else EncodeToString data
  else
    let buf := str (name o) in
    if op_length o =? 1 then buf else
    let buf :=
      buf ++ (if op_length o =? -1 then str " 0x" ++ fmt_x 2 (zlen data)
              else if op_length o =? -2 then str " 0x" ++ fmt_x 4 (zlen data)
              else if op_length o =? -4 then str " 0x" ++ fmt_x 8 (zlen data)
              else []) in
    buf ++ str " 0x" ++ fmt_bytes data.

(** [disasmOpcode(&disbuf, tokenizer.op, tokenizer.Data(), compact)] *)
Definition disasmToken (t : ScriptTokenizer) (compact : bool) : outcome ErrorCode bytes :=
  match op t with Some o => Ret (disasmOpcode o (bytes_of (Data t)) compact) | None => Crash end.

(** ** OpcodeByName, as [init] fills it *)

Definition OpcodeByName : gmap string Z :=
  let m := fold_left (fun m op => <[name op := value op]> m) opcodeArray ∅ in
  <["OP_NOP3" := OP_CHECKSEQUENCEVERIFY]> (<["OP_NOP2" := OP_CHECKLOCKTIMEVERIFY]>
    (<["OP_TRUE" := OP_TRUE]> (<["OP_FALSE" := OP_FALSE]> m)))%string.

(** ** DisasmString *)

Definition DisasmString (script : bytes) : outcome ErrorCode (bytes * option ErrorCode) :=
  let '(more, tokenizer) := Next (MakeScriptTokenizer script) in
  let! more := more in
  let! disbuf := (if more then disasmToken tokenizer true else Ret []) in
  let! r := for_next (R := unit) (tok_fuel script)
    (fun t disbuf => let! s := disasmToken t true in Ret (inl (disbuf ++ str " " ++ s)))
    tokenizer disbuf in
  match r with
  | inr _ => Crash
  | inl (disbuf, tokenizer) =>
      let disbuf :=
        match Err tokenizer with
        | Some _ => (if negb (ByteIndex tokenizer =? 0) then disbuf ++ str " " else disbuf) ++ str "[error]"
        | None => disbuf
        end in
      Ret (disbuf, Err tokenizer)
  end.

(** ** The engine *)

(** [%02x:%04x: ] *)
Definition position (scriptIdx opcodeIdx : Z) : bytes :=
  fmt_x 2 scriptIdx ++ str ":" ++ fmt_x 4 opcodeIdx ++ str ": ".

(** The tokenizer is copied: the engine does not change. *)
Definition DisasmPC (vm : Engine) : outcome ErrorCode bytes :=
  let! _ := (checkValidPC vm).1 in
  let '(more, peekTokenizer) := Next (tokenizer vm) in
  let! more := more in
  if negb more then
    match Err peekTokenizer with
    | Some err => Fail err
    | None => Fail ErrInvalidProgramCounter
    end
  else
    let! buf := disasmToken peekTokenizer false in
    Ret (position (scriptIdx vm) (opcodeIdx vm) ++ buf).

(** The loop of [DisasmScript]; its variables are the text and [opcodeIdx]. *)
Definition DisasmScript (vm : Engine) (idx : Z) : outcome ErrorCode (bytes * option ErrorCode) :=
  if idx >=? zlen (scripts vm) then Fail ErrInvalidIndex else
  let! script := orCrash (znth (scripts vm) idx) in
  let! r := for_next (R := unit) (tok_fuel script)
    (fun t '(disbuf, opcodeIdx) =>
       let! s := disasmToken t false in
       Ret (inl (disbuf ++ position idx opcodeIdx ++ s ++ [z2b 10], opcodeIdx + 1)))
    (MakeScriptTokenizer script) ([], 0) in
  match r with
  | inr _ => Crash
  | inl ((disbuf, _), tokenizer) => Ret (disbuf, Err tokenizer)
  end.

(** ** The compact form lists the opcodes *)

(** Texts separated by spaces. *)
Fixpoint joined (l : list bytes) : bytes :=
  match l with
  | [] => []
  | [x] => x
  | x :: l => x ++ str " " ++ joined l
  end.

Lemma joined_snoc l x : l <> [] -> joined (l ++ [x]) = joined l ++ str " " ++ x.
Proof.
  intros Hl. induction l as [|y l IH]; [done|]. destruct l as [|z l]; [done|].
  cbn [app joined] in *. rewrite IH by done. cbn [app]. by rewrite <- !app_assoc.
Qed.

(** Reading on never moves back. *)
Lemma for_next_offset {A R} (body : ScriptTokenizer -> A -> outcome ErrorCode (A + R)) fuel : forall t a a' t',
  tok_ok t -> err t = None -> for_next fuel body t a = Ret (inl (a', t')) -> offset t <= offset t'.
Proof.
  induction fuel as [|fuel IH]; intros t a a' t' Hok Herr H; [done|]. cbn [for_next] in H.
  rewrite Next_spec in H by done. unfold next_ref in H. destruct (remaining t) as [|b s] eqn:Er.
  { injection H as <- <-. lia. }
  destruct (parse_op (b :: s)) as [[[o d] rest]|] eqn:Ep.
  - change (mkTok _ _ _ _ _ _ _) with (tok_after t (o, d, rest)) in H. rewrite <- Er in Ep.
    destruct (suffix_remaining t o d rest Hok Ep) as (Hok' & _ & Hlt).
    destruct (body _ a) as [[a1|]| | |]; try done. cbn [bindO] in H.
    apply IH in H; [lia|done|done].
  - injection H as <- <-. simpl. lia.
Qed.

(** The loop of [DisasmString] after the first opcode. *)
Lemma disasm_loop (l : list (opcode * option bytes * bytes)) : forall acc, acc <> [] ->
  fold_left (fun b p => b ++ str " " ++ disasmOpcode p.1.1 (bytes_of p.1.2) true) l (joined acc)
  = joined (acc ++ map (fun p => disasmOpcode p.1.1 (bytes_of p.1.2) true) l).
Proof.
  induction l as [|p l IH]; intros acc Ha; cbn [fold_left map]; [by rewrite app_nil_r|].
  rewrite <- joined_snoc by done. rewrite IH by (by destruct acc). by rewrite <- app_assoc.
Qed.

Lemma disasm_body (t : ScriptTokenizer) (buf : bytes) o : op t = Some o ->
  (let! s := disasmToken t true in Ret (inl (buf ++ str " " ++ s)))
  = Ret (inl (B := unit) ((fun b o d => b ++ str " " ++ disasmOpcode o (bytes_of d) true) buf o (data t))).
Proof. intros Ho. unfold disasmToken. by rewrite Ho. Qed.

Definition compact_texts (s : bytes) : list bytes :=
  map (fun p => disasmOpcode p.1 (bytes_of p.2) true) (ops s).

(** One line of text: an entry for each opcode up to the first that does not
    parse, separated by spaces, and then [error] if there is one. *)
Theorem DisasmString_lists s :
  zlen s < 2 ^ 31 ->
  DisasmString s = Ret (joined (compact_texts s ++ if parses s then [] else [str "[error]"]),
                        if parses s then None else Some ErrMalformedPush).
Proof.
  intros Hs. pose proof (make_ok s Hs) as Hok. unfold DisasmString, compact_texts, ops, parses, parse_script.
  rewrite Next_spec by done. unfold next_ref. rewrite remaining_make.
  destruct s as [|b s].
  { reflexivity. }
  cbn [length parse_all]. destruct (parse_op (b :: s)) as [[[o d] rest]|] eqn:Ep; [|done].
  change (mkTok _ _ _ _ _ _ _) with (tok_after (MakeScriptTokenizer (b :: s)) (o, d, rest)).
  assert (parse_op (remaining (MakeScriptTokenizer (b :: s))) = Some (o, d, rest)) as Ep' by (by rewrite remaining_make).
  destruct (suffix_remaining _ o d rest Hok Ep') as (Hok1 & Hrem & Hoff).
  set (t1 := tok_after _ _) in *. cbn [bindO disasmToken].
  change (disasmToken t1 true) with (Ret (E := ErrorCode) (disasmOpcode o (bytes_of d) true)). cbn [bindO].
  pose proof (parse_op_shorter _ _ _ _ Ep) as Hlt. rewrite zlen_cons in Hlt.
  match goal with |- context [for_next ?fu ?bo t1 ?b0] =>
    pose proof (for_next_offset bo fu t1 b0) as Hmono;
    rewrite (for_next_spec bo fu (length rest) t1 b0) in *
      by (rewrite ?Hrem; unfold tok_fuel, zlen in *; simpl in *; done || lia);
    destruct (fold_parsed_pure bo _ disasm_body (parse_all (length rest) rest).1 t1 b0 eq_refl)
      as (t' & Ht' & Hfold)
  end.
  rewrite Hrem in *. rewrite (parse_all_fuel (length s) (length rest)) by (unfold zlen in *; lia).
  destruct (parse_all (length rest) rest) as [l ok]. cbn [fst snd] in *. rewrite Hfold in *. cbn [bindO] in *.
  pose proof (disasm_loop l [disasmOpcode o (bytes_of d) true] ltac:(done)) as HL. cbn [joined] in HL.
  rewrite !HL. cbn [map fst snd]. rewrite map_map.
  destruct ok.
  - unfold Err. rewrite Ht'. by rewrite app_nil_r.
  - specialize (Hmono _ _ Hok1 eq_refl eq_refl). cbn [set_err bump offset err Err ByteIndex] in *.
    unfold ByteIndex in *. cbn [set_err bump offset] in *. rewrite (proj2 (Z.eqb_neq _ 0)) by (simpl in *; lia).
    cbn [negb]. rewrite joined_snoc by done. by rewrite <- !app_assoc.
Qed.

(** ** The long form determines the script *)

(** A text without the character [c]. *)
Definition without (c : Z) (s : bytes) : Prop := Forall (fun x => b2z x <> c) s.

Lemma cut_inj c a b x y : without (b2z c) a -> without (b2z c) b ->
  a ++ c :: x = b ++ c :: y -> a = b /\ x = y.
Proof.
  revert b. induction a as [|h a IH]; intros [|k b] Ha Hb E; simpl in E.
  - by injection E as ->.
  - injection E as <- _. by inversion Hb.
  - injection E as -> _. by inversion Ha.
  - injection E as -> E. inversion Ha; inversion Hb; subst. destruct (IH b) as [-> ->]; done.
Qed.

Lemma cut_none c a b y : without (b2z c) a -> a <> b ++ c :: y.
Proof. intros Ha ->. apply Forall_app in Ha as [_ Ha]. by inversion Ha. Qed.

Lemma hexChar_ascii d : 0 <= d < 16 -> 48 <= b2z (hexChar d) <= 102.
Proof.
  intros Hd. unfold hexChar. rewrite b2z_z2b. destruct (Z.ltb_spec d 10); rewrite Z.mod_small by lia; lia.
Qed.

Lemma without_hex c b : c < 48 -> without c (EncodeToString b).
Proof.
  intros Hc. induction b as [|x b IH]; [constructor|]. cbn [EncodeToString]. apply Forall_app. split; [|exact IH].
  destruct (b2z_nibbles x) as [H1 H2]. apply hexChar_ascii in H1, H2.
  repeat constructor; lia.
Qed.

Lemma without_fmt_x c w x : c < 48 -> without c (fmt_x w x).
Proof.
  intros Hc. unfold fmt_x. apply Forall_app. split.
  - apply Forall_replicate. change (b2z (z2b 48)) with 48. lia.
  - unfold hexDigits. destruct (x =? 0).
    + constructor; [|constructor]. change (48 <> c). lia.
    + apply Forall_map, Forall_rev. eapply Forall_impl; [by apply (min_digits_digit 16)|].
      intros d Hd. apply hexChar_ascii in Hd. lia.
Qed.

Lemma without_fmt_bytes c b : c < 48 -> without c (fmt_bytes b).
Proof.
  intros Hc. destruct b as [|x b]; [|by apply without_hex].
  constructor; [|constructor; [|constructor]]; change (48 <> c); lia.
Qed.

(** Names hold neither spaces nor line breaks. *)
Lemma without_name b c : c = 32 \/ c = 10 -> without c (str (name (opcode_at b))).
Proof.
  intros Hc. apply Forall_forall. intros x Hx.
  assert (forallb (fun x => negb (b2z x =? 32) && negb (b2z x =? 10)) (str (name (opcode_at b))) = true) as H
    by (by destruct b).
  rewrite forallb_forall in H. specialize (H x (proj1 (list_elem_of_In _ _) Hx)). zbool. lia.
Qed.

Lemma opcode_name_inj b b' : name (opcode_at b) = name (opcode_at b') -> b = b'.
Proof.
  intros E. destruct opcodeArray_complete as (_ & Hnd & Hat).
  destruct (Hat b) as (_ & Hb & _). destruct (Hat b') as (_ & Hb' & _).
  assert (Z.to_nat (b2z b) = Z.to_nat (b2z b')) as Ez.
  { eapply NoDup_lookup; [exact Hnd| |].
    - rewrite list_lookup_fmap. by rewrite Hb.
    - rewrite list_lookup_fmap. rewrite Hb'. simpl. by rewrite E. }
  rewrite <- (z2b_b2z b), <- (z2b_b2z b'). f_equal.
  pose proof (b2z_range b). pose proof (b2z_range b'). lia.
Qed.

Lemma fmt_bytes_inj w b b' :
  w = 2%nat \/ w = 4%nat \/ w = 8%nat ->
  fmt_x w (zlen b) = fmt_x w (zlen b') -> fmt_bytes b = fmt_bytes b' -> b = b'.
Proof.
  intros Hw Hx Hb.
  assert (forall x, EncodeToString x = str "00" -> x = [z2b 0]) as H00.
  { intros x E. pose proof (hex_Decode_EncodeToString x) as Hd. rewrite E in Hd. by injection Hd as <-. }
  destruct b as [|x b], b' as [|y b']; cbn [fmt_bytes] in Hb; [done|..].
  - symmetry in Hb. apply H00 in Hb. rewrite Hb in Hx. destruct Hw as [->|[->| ->]]; by vm_compute in Hx.
  - apply H00 in Hb. rewrite Hb in Hx. destruct Hw as [->|[->| ->]]; by vm_compute in Hx.
  - apply (f_equal hex_Decode) in Hb. rewrite !hex_Decode_EncodeToString in Hb. by injection Hb as -> ->.
Qed.

(** The text of an opcode in the long form: its name, and then nothing or a
    space. *)
Lemma disasm_long o d :
  exists sfx, disasmOpcode o d false = str (name o) ++ sfx
    /\ (sfx = [] <-> op_length o = 1) /\ (sfx = [] \/ exists r, sfx = z2b 32 :: r) /\ without 10 sfx.
Proof.
  unfold disasmOpcode. destruct (Z.eqb_spec (op_length o) 1) as [E|E].
  { exists []. rewrite app_nil_r. split_and!; [done|done|by left|constructor]. }
  rewrite <- app_assoc. eexists. split; [reflexivity|].
  assert (forall s, without 10 s -> without 10 (str " 0x" ++ s)) as H0x.
  { intros s Hs. apply Forall_app. split; [|done]. repeat constructor; by vm_compute. }
  split_and!.
  - split; [|done]. by repeat case_match.
  - right. repeat case_match; eexists; reflexivity.
  - apply Forall_app. split; [|by apply H0x, without_fmt_bytes].
    repeat case_match; try (apply H0x, without_fmt_x; lia). constructor.
Qed.

(** A token of a script. *)
Definition token (p : opcode * option bytes) : Prop :=
  p.1 = opcode_at (z2b (value p.1))
  /\ match p.2 with
     | None => op_length p.1 = 1
     | Some d => op_length p.1 <> 1 /\ (1 < op_length p.1 -> zlen d = op_length p.1 - 1)
     end.

Lemma disasm_token_inj p q :
  token p -> token q ->
  disasmOpcode p.1 (bytes_of p.2) false = disasmOpcode q.1 (bytes_of q.2) false -> p = q.
Proof.
  destruct p as [o d], q as [o' d']. unfold token. cbn [fst snd]. intros [Ho Hd] [Ho' Hd'] E.
  pose proof E as Et.
  destruct (disasm_long o (bytes_of d)) as (s & Es & _ & Hs & _).
  destruct (disasm_long o' (bytes_of d')) as (s' & Es' & _ & Hs' & _).
  rewrite Es, Es' in E.
  assert (forall a, a = opcode_at (z2b (value a)) -> without 32 (str (name a))) as Hn
    by (intros a ->; apply without_name; by left).
  assert (str (name o) = str (name o')) as En.
  { destruct Hs as [->|[r ->]], Hs' as [->|[r' ->]]; rewrite ?app_nil_r in E.
    - done.
    - exfalso. revert E. by apply (cut_none (z2b 32)), Hn.
    - exfalso. symmetry in E. revert E. by apply (cut_none (z2b 32)), Hn.
    - by apply (cut_inj (z2b 32)) in E as [? _]; [|apply Hn..]. }
  assert (o = o') as <-.
  { rewrite Ho, Ho' in En |- *. f_equal. apply opcode_name_inj.
    apply (f_equal String.string_of_list_byte) in En. by rewrite !String.string_of_list_byte_of_string in En. }
  f_equal. clear Es Es' Hs Hs' En E Ho'. destruct d as [d|], d' as [d'|]; try done; [|by destruct Hd..|by destruct Hd'].
  f_equal. cbn [bytes_of] in Et. destruct Hd as [H1 H2], Hd' as [_ H2'].
  assert (1 < op_length o \/ op_length o = -1 \/ op_length o = -2 \/ op_length o = -4) as Hlen.
  { rewrite Ho. destruct (opcode_len_cases (z2b (value o))) as [?|[?|?]]; [|lia..]. by rewrite <- Ho in *. }
  unfold disasmOpcode in Et. rewrite (proj2 (Z.eqb_neq _ 1)) in Et by done.
  rewrite <- !app_assoc in Et. apply app_inv_head in Et.
  destruct Hlen as [Hl|Hl].
  - rewrite !(proj2 (Z.eqb_neq (op_length o) (-1))), !(proj2 (Z.eqb_neq (op_length o) (-2))),
      !(proj2 (Z.eqb_neq (op_length o) (-4))) in Et by lia. cbn [app] in Et. apply app_inv_head in Et.
    specialize (H2 Hl). specialize (H2' Hl). apply (fmt_bytes_inj 2); [by left|by rewrite H2, H2'|done].
  - assert (exists w, (w = 2%nat \/ w = 4%nat \/ w = 8%nat)
      /\ fmt_x w (zlen d) ++ str " 0x" ++ fmt_bytes d = fmt_x w (zlen d') ++ str " 0x" ++ fmt_bytes d') as (w & Hw & Ew).
    { destruct Hl as [Hl|[Hl|Hl]]; rewrite Hl in Et; cbn [Z.eqb Pos.eqb] in Et; rewrite <- !app_assoc in Et; apply app_inv_head in Et;
        eauto 6. }
    change (str " 0x") with (z2b 32 :: str "0x") in Ew. cbn [app] in Ew.
    apply (cut_inj (z2b 32)) in Ew as [E1 E2]; [|apply without_fmt_x; by vm_compute..].
    apply (fmt_bytes_inj w); [done|done|]. by injection E2.
Qed.

(** The lines of the long form. *)
Fixpoint lines (idx k : Z) (l : list (opcode * option bytes)) : bytes :=
  match l with
  | [] => []
  | p :: l => position idx k ++ disasmOpcode p.1 (bytes_of p.2) false ++ z2b 10 :: lines idx (k + 1) l
  end.

Lemma DisasmScript_lines vm idx s :
  znth (scripts vm) idx = Some s -> zlen s < 2 ^ 31 ->
  DisasmScript vm idx = Ret (lines idx 0 (ops s), if parses s then None else Some ErrMalformedPush).
Proof.
  intros Hs Hl. pose proof (znth_Some _ _ _ Hs). unfold DisasmScript. ztest. rewrite Hs. cbn [orCrash bindO].
  match goal with |- context [for_next _ ?bo _ ?a0] =>
    destruct (for_next_ops bo (fun st p => (st.1 ++ position idx st.2 ++ disasmOpcode p.1 (bytes_of p.2) false ++ [z2b 10],
      st.2 + 1)) s a0 Hl) as (t' & -> & Ht') end.
  { intros t [b k] o Ho. unfold disasmToken. by rewrite Ho. }
  cbn [bindO].
  assert (forall l b k, fold_left (fun st p => (st.1 ++ position idx st.2 ++ disasmOpcode p.1 (bytes_of p.2) false ++ [z2b 10],
      st.2 + 1)) l (b, k) = (b ++ lines idx k l, k + zlen l)) as ->.
  { induction l as [|p l IH]; intros b k; cbn [fold_left lines].
    - by rewrite app_nil_r, Z.add_0_r.
    - rewrite IH. cbn [fst snd]. rewrite <- !app_assoc, zlen_cons, Z.add_assoc. done. }
  unfold Err. by rewrite Ht'.
Qed.

Lemma lines_inj idx l : forall k l', Forall token l -> Forall token l' -> lines idx k l = lines idx k l' -> l = l'.
Proof.
  assert (forall p, token p -> without 10 (disasmOpcode p.1 (bytes_of p.2) false)) as Hnl.
  { intros p [Hp _]. destruct (disasm_long p.1 (bytes_of p.2)) as (s & -> & _ & _ & Hs).
    apply Forall_app. split; [|done]. rewrite Hp. apply without_name. by right. }
  assert (forall k p l, lines idx k (p :: l) <> []) as Hne.
  { intros k p l0 E. apply (f_equal length) in E. cbn [lines] in E. rewrite !length_app in E. simpl in E. lia. }
  induction l as [|p l IH]; intros k [|q l'] Hl Hl' E; [done|by symmetry in E; apply Hne in E|by apply Hne in E|].
  inversion Hl; inversion Hl'; subst. cbn [lines] in E. apply app_inv_head in E.
  apply (cut_inj (z2b 10)) in E as [E1 E2]; [|by apply Hnl..].
  apply disasm_token_inj in E1 as ->; [|done..]. f_equal. by apply (IH (k + 1)).
Qed.

Lemma ops_token s : Forall token (ops s).
Proof. apply Forall_forall. intros p Hp. exact (ops_value s p _ Hp eq_refl). Qed.

(** C18: The disassembly of a script determines it: if the scripts at the same
    index of two engines are disassembled without error to the same text, they are
    the same script. *)
Theorem DisasmScript_inj vm vm' idx s s' text :
  znth (scripts vm) idx = Some s -> znth (scripts vm') idx = Some s' ->
  zlen s < 2 ^ 31 -> zlen s' < 2 ^ 31 ->
  DisasmScript vm idx = Ret (text, None) -> DisasmScript vm' idx = Ret (text, None) -> s = s'.
Proof.
  intros Hs Hs' Hl Hl'. rewrite (DisasmScript_lines vm idx s), (DisasmScript_lines vm' idx s') by done.
  intros [= <- Hp] [= E Hp']. apply lines_inj in E; [|apply ops_token..].
  destruct (ops_partition s) as (r & Er & Hr), (ops_partition s') as (r' & Er' & Hr').
  destruct (parses s); [|done]. destruct (parses s'); [|done].
  rewrite (proj1 Hr eq_refl), app_nil_r in Er. rewrite (proj1 Hr' eq_refl), app_nil_r in Er'. congruence.
Qed.

(** The next opcode of a running engine is always there to be shown: the errors
    that [DisasmPC] checks for do not occur. *)
Theorem DisasmPC_shows vm :
  inv vm -> exists o d rest, parse_op (remaining (tokenizer vm)) = Some (o, d, rest)
    /\ DisasmPC vm = Ret (position (scriptIdx vm) (opcodeIdx vm) ++ disasmOpcode o (bytes_of d) false).
Proof.
  intros [[_ _ Hscr [Hok Herr] _ _ _] [Hne Hp] _]. unfold DisasmPC, checkValidPC. runM.
  pose proof (znth_Some _ _ _ Hscr). ztest. cbn [fst]. rewrite Next_spec by done. unfold next_ref.
  destruct (remaining (tokenizer vm)) as [|b s] eqn:Er; [done|].
  unfold parses, parse_script in Hp. cbn [length parse_all] in Hp.
  destruct (parse_op (b :: s)) as [[[o d] rest]|]; [|done]. by exists o, d, rest.
Qed.

(** Every opcode is found under its own name: the aliases hide none. *)
Theorem OpcodeByName_names b : OpcodeByName !! name (opcode_at b) = Some (b2z b).
Proof. by destruct b; vm_compute. Qed.

(** ** Examples *)

(** A pay-to-pubkey-hash script, a number, a push that lacks a byte. *)
Example DisasmString_samples :
  DisasmString [z2b OP_DUP; z2b OP_16; z2b 0x02; z2b 0xab; z2b 0x01; z2b OP_CHECKSIG]
  = Ret (str "OP_DUP 16 ab01 OP_CHECKSIG", None)
  /\ DisasmString [z2b OP_DUP; z2b 0x02; z2b 0xab] = Ret (str "OP_DUP [error]", Some ErrMalformedPush)
  /\ DisasmString [z2b 0x02; z2b 0xab] = Ret (str "[error]", Some ErrMalformedPush).
Proof. by vm_compute. Qed.

(** The compact form does not determine the script. *)
Example DisasmString_ambiguous :
  DisasmString [z2b OP_10] = DisasmString [z2b 0x01; z2b 0x10].
Proof. by vm_compute. Qed.

(** Engines that differ in their unlocking script. *)
Definition disasm_engine (sig pk : bytes) : Engine :=
  match start sig pk 0 with
  | Ret vm => vm
  | _ => mkEngine 0 (spend sig) 0 0 false None [] 0 0 0 (MakeScriptTokenizer []) []
           (ScriptStack.mkStack [] false) (ScriptStack.mkStack [] false) [] 0
  end.

Lemma DisasmScript_inj_witness :
  let pk := [z2b OP_PUSHDATA1; z2b 0x00; z2b OP_CHECKSIG] in
  DisasmScript (disasm_engine [z2b OP_1] pk) 1
    = Ret (str "01:0000: OP_PUSHDATA1 0x00 0x00" ++ [z2b 10] ++ str "01:0001: OP_CHECKSIG" ++ [z2b 10], None)
  /\ pk = pk.
Proof.
  cbv zeta. split; [vm_compute; reflexivity|].
  apply (DisasmScript_inj (disasm_engine [z2b OP_1] [z2b OP_PUSHDATA1; z2b 0x00; z2b OP_CHECKSIG])
    (disasm_engine [z2b OP_2] [z2b OP_PUSHDATA1; z2b 0x00; z2b OP_CHECKSIG]) 1 _ _
    (str "01:0000: OP_PUSHDATA1 0x00 0x00" ++ [z2b 10] ++ str "01:0001: OP_CHECKSIG" ++ [z2b 10]));
    vm_compute; reflexivity.
Defined.

Example DisasmPC_sample :
  DisasmPC (disasm_engine [z2b 0x02; z2b 0xab; z2b 0x01] [z2b OP_DUP]) = Ret (str "00:0000: OP_DATA_2 0xab01").
Proof. by vm_compute. Qed.
