(* ===== verification/WireNames.v ===== *)
(** Texts of the wire types: service flags (src/thoughtd/wire/protocol.go), types
    of inventory and reject codes (invvect.go, msgreject.go), outpoints (msgtx.go)
    and onion addresses (netaddressv2.go).

    The texts are shown to determine what they name: service flags and onion
    addresses are read back, the others are injective, and the text of an outpoint
    is the identifier of a coin. *)

From S2P Require Import Prelude Digits Hash WireTx NetAddrV2 Coins.

(** ** Functions of package strings *)

Fixpoint TrimLeft (c : byte) (s : bytes) : bytes :=
  match s with
  | [] => []
  | x :: s' => if bool_decide (x = c) then TrimLeft c s' else s
  end.

Definition TrimRight (c : byte) (s : bytes) : bytes := rev (TrimLeft c (rev s)).

(** On ASCII. *)
Definition lowerByte (c : byte) : byte :=
  if (65 <=? b2z c) && (b2z c <=? 90) then z2b (b2z c + 32) else c.
Definition ToLower (s : bytes) : bytes := map lowerByte s.

(** ** protocol.go *)

Notation SFNodeNetwork := 1 (only parsing).
Notation SFNodeGetUTXO := 2 (only parsing).
Notation SFNodeBloom := 4 (only parsing).
Notation SFNodeWitness := 8 (only parsing).
Notation SFNodeXthin := 16 (only parsing).
Notation SFNodeBit5 := 32 (only parsing).
Notation SFNodeCF := 64 (only parsing).
Notation SFNode2X := 128 (only parsing).

Definition sfStrings : list (Z * bytes) :=
  [(SFNodeNetwork, str "SFNodeNetwork"); (SFNodeGetUTXO, str "SFNodeGetUTXO");
   (SFNodeBloom, str "SFNodeBloom"); (SFNodeWitness, str "SFNodeWitness");
   (SFNodeXthin, str "SFNodeXthin"); (SFNodeBit5, str "SFNodeBit5");
   (SFNodeCF, str "SFNodeCF"); (SFNode2X, str "SFNode2X")].

Definition orderedSFStrings : list Z :=
  [SFNodeNetwork; SFNodeGetUTXO; SFNodeBloom; SFNodeWitness; SFNodeXthin; SFNodeBit5; SFNodeCF; SFNode2X].

(** A map literal: the value of a key, if there is one. *)
Fixpoint table_get (t : list (Z * bytes)) (k : Z) : option bytes :=
  match t with
  | [] => None
  | (k', v) :: t => if k =? k' then Some v else table_get t k
  end.

(** A missing key reads as the empty string. *)
Definition sf_name (flag : Z) : bytes := default [] (table_get sfStrings flag).

(** The loop; its variables are [s] and [f]. *)
Fixpoint flagLoop (flags : list Z) (s : bytes) (f : Z) : bytes * Z :=
  match flags with
  | [] => (s, f)
  | flag :: flags =>
      if Z.land f flag =? flag
      then flagLoop flags (s ++ sf_name flag ++ str "|") (u64 (f - flag))
      else flagLoop flags s f
  end.

Definition ServiceFlag_String (f : Z) : bytes :=
  if f =? 0 then str "0x0" else
  let '(s, f) := flagLoop orderedSFStrings [] f in
  let s := TrimRight (z2b 124) s in
  let s := if negb (f =? 0) then s ++ str "|0x" ++ hexDigits f else s in
  TrimLeft (z2b 124) s.

(** ** invvect.go and msgreject.go *)

Definition InvWitnessFlag : Z := Z.shiftl 1 30.

Definition ivStrings : list (Z * bytes) :=
  [(0, str "ERROR"); (1, str "MSG_TX"); (2, str "MSG_BLOCK"); (3, str "MSG_FILTERED_BLOCK");
   (Z.lor 2 InvWitnessFlag, str "MSG_WITNESS_BLOCK");
   (Z.lor 1 InvWitnessFlag, str "MSG_WITNESS_TX");
   (Z.lor 3 InvWitnessFlag, str "MSG_FILTERED_WITNESS_BLOCK")].

Definition rejectCodeStrings : list (Z * bytes) :=
  [(0x01, str "REJECT_MALFORMED"); (0x10, str "REJECT_INVALID"); (0x11, str "REJECT_OBSOLETE");
   (0x12, str "REJECT_DUPLICATE"); (0x40, str "REJECT_NONSTANDARD"); (0x41, str "REJECT_DUST");
   (0x42, str "REJECT_INSUFFICIENTFEE"); (0x43, str "REJECT_CHECKPOINT")].

(** [if s, ok := table[k]; ok { return s }; return Sprintf("<unknown> (%d)", k)] *)
Definition named (t : list (Z * bytes)) (unknown : bytes) (k : Z) : bytes :=
  match table_get t k with
  | Some s => s
  | None => unknown ++ str " (" ++ FormatUint k ++ str ")"
  end.

Definition InvType_String (invtype : Z) : bytes := named ivStrings (str "Unknown InvType") invtype.
Definition RejectCode_String (code : Z) : bytes :=
  named rejectCodeStrings (str "Unknown RejectCode") code.

(** ** msgtx.go *)

Definition NewOutPoint (hash : bytes) (index : Z) : OutPoint := mkOutPoint hash index.

(** [copy(buf, hash)] into 65 zeros, the colon at index 64, then [AppendUint]. *)
Definition OutPoint_String (o : OutPoint) : bytes :=
  let buf := copy_at (replicate 65 (z2b 0)) 0 (Hash_String (Hash o)) in
  let buf := <[64%nat := z2b 58]> buf in
  buf ++ FormatUint (Index o).

(** ** netaddressv2.go *)

(** [base32.StdEncoding]: five bytes are eight symbols; a last group of fewer
    bytes is completed with zeros, and with padding for the symbols that hold none
    of its bits. *)
Definition base32_sym (d : Z) : byte := if d <? 26 then z2b (65 + d) else z2b (50 + (d - 26)).

Definition base32_group (g : bytes) : bytes :=
  let ds := rev (fix_digits 32 8 (be_val (g ++ replicate (5 - length g) (z2b 0)))) in
  let n := ((8 * length g + 4) / 5)%nat in
  map base32_sym (take n ds) ++ replicate (8 - n) (z2b 61).

Fixpoint base32_Encode (b : bytes) : bytes :=
  match b with
  | [] => []
  | x1 :: x2 :: x3 :: x4 :: x5 :: rest => base32_group [x1; x2; x3; x4; x5] ++ base32_Encode rest
  | g => base32_group g
  end.

Notation TorV2EncodedSize := 22 (only parsing).
Notation TorV3EncodedSize := 62 (only parsing).

Definition torv2Addr_String (addr : bytes) : bytes := ToLower (base32_Encode addr) ++ str ".onion".

(** The SHA3-256 of golang.org/x/crypto. *)
Class Sha3 := { sha3_256 : bytes -> bytes }.
Class Sha3Laws `{Sha3} := { sha3_256_len : forall b, zlen (sha3_256 b) = 32 }.

Definition torv3Addr_String `{Sha3} (addr : bytes) : outcome Empty_set bytes :=
  let torV3Version := [z2b 3] in
  let checksumConst := str ".onion checksum" in
  let! truncatedChecksum := orCrash (zslice (sha3_256 (checksumConst ++ addr ++ torV3Version)) 0 2) in
  let base32Input := replicate 35 (z2b 0) in
  let base32Input := copy_at base32Input 0 addr in
  let base32Input := copy_at base32Input 32 truncatedChecksum in
  let base32Input := copy_at base32Input 34 torV3Version in
  Ret (ToLower (base32_Encode base32Input) ++ str ".onion").

Example texts :
  ServiceFlag_String 0 = str "0x0" /\ ServiceFlag_String 9 = str "SFNodeNetwork|SFNodeWitness"
  /\ ServiceFlag_String 0x401 = str "SFNodeNetwork|0x400" /\ ServiceFlag_String 0x400 = str "0x400"
  /\ InvType_String 0x40000001 = str "MSG_WITNESS_TX" /\ InvType_String 7 = str "Unknown InvType (7)"
  /\ RejectCode_String 0x41 = str "REJECT_DUST"
  /\ base32_Encode (str "foobar") = str "MZXW6YTBOI======"
  /\ torv2Addr_String (str "helloworld") = str "nbswy3dpo5xxe3de.onion".
Proof. split_and!; vm_compute; reflexivity. Qed.

(** ** Fields of a text *)

(** Fields separated by a character, and the text cut at that character. *)
Fixpoint join (c : byte) (ts : list bytes) : bytes :=
  match ts with
  | [] => []
  | [t] => t
  | t :: ts => t ++ c :: join c ts
  end.

Fixpoint fields (c : byte) (s : bytes) : list bytes :=
  match s with
  | [] => [[]]
  | x :: s =>
      if bool_decide (x = c) then [] :: fields c s
      else match fields c s with t :: ts => (x :: t) :: ts | [] => [[x]] end
  end.

(** A field that is not empty. *)
Definition field (c : byte) (t : bytes) : Prop := t <> [] /\ c ∉ t.

Lemma fields_cons c t s : c ∉ t -> fields c (t ++ c :: s) = t :: fields c s.
Proof.
  intros Ht. induction t as [|x t IH]; cbn [app fields].
  - by rewrite bool_decide_true.
  - apply not_elem_of_cons in Ht as [Hx Ht]. rewrite bool_decide_false by congruence. by rewrite IH.
Qed.

Lemma fields_one c t : c ∉ t -> fields c t = [t].
Proof.
  intros Ht. induction t as [|x t IH]; [done|]. apply not_elem_of_cons in Ht as [Hx Ht].
  cbn [fields]. rewrite bool_decide_false by congruence. by rewrite IH.
Qed.

Lemma fields_join c ts : ts <> [] -> Forall (field c) ts -> fields c (join c ts) = ts.
Proof.
  intros Hne Hts. induction Hts as [|t ts [_ Ht] Hts IH]; [done|].
  destruct ts as [|u ts]; [by apply fields_one|].
  change (join c (t :: u :: ts)) with (t ++ c :: join c (u :: ts)).
  by rewrite fields_cons, IH.
Qed.

Lemma join_snoc c ts t : ts <> [] -> join c (ts ++ [t]) = join c ts ++ c :: t.
Proof.
  intros Hne. induction ts as [|u ts IH]; [done|]. destruct ts as [|v ts]; [done|].
  change (join c ((u :: v :: ts) ++ [t])) with (u ++ c :: join c ((v :: ts) ++ [t])).
  rewrite IH by done. change (join c (u :: v :: ts)) with (u ++ c :: join c (v :: ts)).
  by rewrite <- app_assoc.
Qed.

Lemma concat_join c ts : ts <> [] -> concat (map (fun t => t ++ [c]) ts) = join c ts ++ [c].
Proof.
  intros Hne. induction ts as [|t ts IH]; [done|]. destruct ts as [|u ts]; [apply app_nil_r|].
  cbn [map concat] in IH |- *. rewrite IH by done.
  change (join c (t :: u :: ts)) with (t ++ c :: join c (u :: ts)). by rewrite <- !app_assoc.
Qed.

Lemma TrimLeft_id c s : head s <> Some c -> TrimLeft c s = s.
Proof. destruct s as [|x s]; [done|]. cbn. intros Hx. rewrite bool_decide_false by congruence. done. Qed.

Lemma join_head c ts : Forall (field c) ts -> head (join c ts) <> Some c.
Proof.
  intros [|t ts' [Hn Ht]]; [done|]. destruct t as [|x t]; [done|].
  apply not_elem_of_cons in Ht as [Hx _]. destruct ts'; cbn; congruence.
Qed.

Lemma join_last c ts : Forall (field c) ts -> head (rev (join c ts)) <> Some c.
Proof.
  intros Hts. induction ts as [|u ts _] using rev_ind; [done|].
  apply Forall_app in Hts as [_ Hu]. inversion_clear Hu as [|? ? [Hn Hc]].
  assert (exists a, join c (ts ++ [u]) = a ++ u) as [a ->].
  { destruct (decide (ts = [])) as [->|]; [by exists []|]. exists (join c ts ++ [c]).
    rewrite join_snoc by done. by rewrite <- app_assoc. }
  induction u as [|y u _] using rev_ind; [done|]. rewrite !rev_app_distr. cbn. intros [= ->].
  apply Hc, elem_of_app. right. by apply list_elem_of_singleton.
Qed.

(** What the loop wrote, without the last separator. *)
Lemma TrimRight_concat c ts : Forall (field c) ts ->
  TrimRight c (concat (map (fun t => t ++ [c]) ts)) = join c ts.
Proof.
  intros Hts. destruct (decide (ts = [])) as [->|Hne]; [done|]. rewrite concat_join by done.
  unfold TrimRight. rewrite rev_app_distr. cbn [rev app TrimLeft]. rewrite bool_decide_true by done.
  rewrite TrimLeft_id by by apply join_last. apply rev_involutive.
Qed.

(** ** Service flags are read back *)

Definition hex_value (s : bytes) : Z := lval 16 (rev (map (fun c => default 0 (fromHexChar c)) s)).

(** A name stands for its flag, anything else is [0x] and digits. *)
Definition flag_value (t : bytes) : Z :=
  match find (fun p => bool_decide (p.2 = t)) sfStrings with
  | Some (flag, _) => flag
  | None => hex_value (drop 2 t)
  end.

Definition ServiceFlag_value (s : bytes) : Z := zsum flag_value (fields (z2b 124) s).

Lemma hex_value_digits x : 0 <= x -> hex_value (hexDigits x) = x.
Proof.
  intros Hx. unfold hex_value, hexDigits. destruct (Z.eqb_spec x 0) as [->|]; [done|].
  pose proof (min_digits_digit 16 ltac:(lia) (S (Z.to_nat (Z.log2 x))) x) as Hd.
  rewrite map_map, map_rev, rev_involutive, (map_ext_Forall _ id), map_id;
    [apply lval_min_digits; [lia|by apply log2_fuel]|].
  eapply Forall_impl; [exact Hd|]. intros d Hb. cbn. by rewrite hexChar_range.
Qed.

Lemma hexDigits_field x : 0 <= x -> field (z2b 124) (str "0x" ++ hexDigits x).
Proof.
  intros Hx. split; [done|]. intros Hin. apply elem_of_app in Hin as [Hin|Hin].
  { repeat (apply elem_of_cons in Hin as [Hin|Hin]; [discriminate Hin|]). by apply not_elem_of_nil in Hin. }
  unfold hexDigits in Hin. destruct (x =? 0).
  { apply list_elem_of_singleton in Hin. discriminate Hin. }
  apply list_elem_of_fmap in Hin as (d & Hc & Hd).
  pose proof (Forall_rev (min_digits_digit 16 ltac:(lia) (S (Z.to_nat (Z.log2 x))) x)) as Hf.
  rewrite Forall_forall in Hf. specialize (Hf d Hd). apply hexChar_range in Hf.
  rewrite <- Hc in Hf. discriminate Hf.
Qed.

Lemma flag_value_hex x : 0 <= x -> flag_value (str "0x" ++ hexDigits x) = x.
Proof. intros Hx. exact (hex_value_digits x Hx). Qed.

(** The names of the flags, as fields that are read back. *)
Lemma flag_fields :
  Forall (fun flag => 0 < flag /\ field (z2b 124) (sf_name flag) /\ flag_value (sf_name flag) = flag)
    orderedSFStrings.
Proof.
  repeat constructor; try done; intros Hin;
    repeat (apply elem_of_cons in Hin as [Hin|Hin]; [discriminate Hin|]); by apply not_elem_of_nil in Hin.
Qed.

Lemma land_contains f flag : 0 <= f -> Z.land f flag = flag -> 0 <= flag <= f.
Proof.
  intros Hf E. apply Z.ldiff_le; [done|]. rewrite <- E. apply Z.bits_inj'. intros n Hn.
  rewrite Z.ldiff_spec, Z.land_spec, Z.bits_0. destruct (Z.testbit f n); [apply andb_false_r|done].
Qed.

(** The loop takes flags away whose sum is what it took from [f]. *)
Lemma flagLoop_spec flags : forall s f,
  Forall (fun flag => 0 < flag) flags -> 0 <= f < 2 ^ 64 ->
  exists picked f', flagLoop flags s f = (s ++ concat (map (fun t => t ++ str "|") (map sf_name picked)), f')
    /\ picked ⊆ flags /\ zsum id picked + f' = f /\ 0 <= f'.
Proof.
  induction flags as [|flag flags IH]; intros s f Hfl Hf; cbn [flagLoop].
  { exists [], f. cbn. split_and!; [by rewrite app_nil_r|set_solver|lia|lia]. }
  inversion_clear Hfl as [|? ? H0 Hfl']. destruct (Z.eqb_spec (Z.land f flag) flag) as [E|_].
  - pose proof (land_contains f flag ltac:(lia) E) as Hle. rewrite u64_id by lia.
    destruct (IH (s ++ sf_name flag ++ str "|") (f - flag)) as (picked & f' & -> & Hp & Hs & Hf'); [done|lia|].
    exists (flag :: picked), f'. cbn [map concat]. rewrite <- !app_assoc. split; [done|].
    split_and!; [set_solver|change (flag + zsum id picked + f' = f); lia|done].
  - destruct (IH s f Hfl' Hf) as (picked & f' & -> & Hp & Hs & Hf'). exists picked, f'.
    split_and!; [done|set_solver|done|done].
Qed.

(** What [ServiceFlag_String] writes for flags that are not zero. *)
Lemma ServiceFlag_String_fields f : 0 < f < 2 ^ 64 ->
  exists ts, ServiceFlag_String f = join (z2b 124) ts /\ ts <> []
    /\ Forall (field (z2b 124)) ts /\ zsum flag_value ts = f.
Proof.
  intros Hf. unfold ServiceFlag_String. ztest.
  pose proof flag_fields as Hfl. rewrite Forall_forall in Hfl.
  destruct (flagLoop_spec orderedSFStrings [] f) as (picked & f' & -> & Hp & Hs & Hf');
    [eapply Forall_impl; [exact flag_fields|]; tauto|lia|].
  assert (Forall (field (z2b 124)) (map sf_name picked)) as Hn
    by (apply List.Forall_map, Forall_forall; intros g Hg; by apply Hfl, Hp).
  assert (zsum flag_value (map sf_name picked) = zsum id picked) as Hv.
  { clear Hs Hn. induction picked as [|g picked IH]; [done|]. cbn [map]. change (zsum flag_value (?t :: ?l))
      with (flag_value t + zsum flag_value l). rewrite IH by set_solver.
    destruct (Hfl g ltac:(set_solver)) as (_ & _ & ->). done. }
  cbn [app]. rewrite TrimRight_concat by done. destruct (Z.eqb_spec f' 0) as [->|]; cbn [negb].
  - exists (map sf_name picked). rewrite TrimLeft_id by by apply join_head.
    split_and!; [done| |done|lia]. intros E%map_eq_nil. subst picked. cbn in Hs. lia.
  - exists (map sf_name picked ++ [str "0x" ++ hexDigits f']).
    pose proof (hexDigits_field f' Hf') as Hx.
    assert (Forall (field (z2b 124)) (map sf_name picked ++ [str "0x" ++ hexDigits f'])) as Ha
      by (apply Forall_app; split; [done|by constructor]).
    split_and!; [|by destruct picked|done|].
    + destruct (decide (picked = [])) as [->|Hne]; [done|].
      change (str "|0x" ++ ?h) with (z2b 124 :: str "0x" ++ h).
      rewrite <- join_snoc by (by destruct picked). by rewrite TrimLeft_id by by apply join_head.
    + rewrite zsum_app, Hv. change (zsum flag_value [?t]) with (flag_value t + 0).
      rewrite flag_value_hex by done. lia.
Qed.

(** The text of service flags is read back: the names and the hexadecimal rest
    between the bars add up to the flags. *)
Theorem ServiceFlag_String_value f : 0 <= f < 2 ^ 64 -> ServiceFlag_value (ServiceFlag_String f) = f.
Proof.
  intros Hf. destruct (Z.eq_dec f 0) as [->|]; [done|].
  destruct (ServiceFlag_String_fields f ltac:(lia)) as (ts & -> & Hne & Hts & Hv).
  unfold ServiceFlag_value. by rewrite fields_join.
Qed.

Lemma ServiceFlag_String_value_witness : ServiceFlag_value (str "SFNodeNetwork|SFNodeWitness|0x400") = 0x409.
Proof. exact (ServiceFlag_String_value 0x409 ltac:(lia)). Defined.

(** ** Tables of names *)

(** No two keys share a name, and no name starts like the text of an unknown key. *)
Definition table_ok (t : list (Z * bytes)) (c : byte) : bool :=
  forallb (fun p => forallb (fun q => (p.1 =? q.1) || negb (bool_decide (p.2 = q.2))) t
                    && negb (bool_decide (head p.2 = Some c))) t.

Lemma table_get_In t k v : table_get t k = Some v -> In (k, v) t.
Proof.
  induction t as [|[k' v'] t IH]; [done|]. cbn [table_get]. destruct (Z.eqb_spec k k') as [->|].
  - intros [= ->]. by left.
  - intros H. right. by apply IH.
Qed.

Lemma named_inj t c u a b : table_ok t c = true -> 0 <= a -> 0 <= b ->
  named t (c :: u) a = named t (c :: u) b -> a = b.
Proof.
  intros Hok Ha Hb. unfold table_ok in Hok. rewrite forallb_forall in Hok.
  assert (forall k v, table_get t k = Some v -> head v <> Some c) as Hhead.
  { intros k v H%table_get_In%Hok. apply andb_true_iff in H as [_ H].
    by destruct (bool_decide_reflect (head (k, v).2 = Some c)). }
  unfold named. destruct (table_get t a) as [x|] eqn:Ea, (table_get t b) as [y|] eqn:Eb.
  - intros ->. apply table_get_In, Hok, andb_true_iff in Ea as [Ea _]. rewrite forallb_forall in Ea.
    apply table_get_In in Eb. specialize (Ea _ Eb). apply orb_true_iff in Ea as [E|E].
    + by apply Z.eqb_eq in E.
    + cbn in E. by rewrite bool_decide_true in E.
  - intros ->. by destruct (Hhead _ _ Ea).
  - intros <-. by destruct (Hhead _ _ Eb).
  - intros E. rewrite !app_assoc in E. apply app_inv_tail, app_inv_head in E. by apply FormatUint_inj.
Qed.

(** Types of inventory and reject codes are told apart by their texts. *)
Theorem type_names_exact a b : 0 <= a -> 0 <= b ->
  (InvType_String a = InvType_String b -> a = b) /\ (RejectCode_String a = RejectCode_String b -> a = b).
Proof.
  intros Ha Hb. split.
  - by apply (named_inj ivStrings (z2b 85) (str "nknown InvType")).
  - by apply (named_inj rejectCodeStrings (z2b 85) (str "nknown RejectCode")).
Qed.

Lemma type_names_exact_witness : InvType_String 1 <> InvType_String 2.
Proof. intros E. by apply (type_names_exact 1 2) in E. Defined.

(** ** Outpoints *)

Lemma copy_at_over pre old post src n : n = zlen pre -> zlen old = zlen src ->
  copy_at (pre ++ old ++ post) n src = pre ++ src ++ post.
Proof.
  intros -> Hl. unfold copy_at. rewrite !zlen_app, Hl. pose proof (zlen_nonneg post). rewrite Z.min_r by lia.
  rewrite !zlen_to_nat, take_app_length, (take_ge src) by done. rewrite <- Hl, <- zlen_app, zlen_to_nat.
  by rewrite (app_assoc pre old post), drop_app_length.
Qed.

(** The text of an outpoint is the identifier of its coin, which the service reads
    back. *)
Theorem OutPoint_String_coin h i : zlen h = 32 -> 0 <= i < 2 ^ 32 ->
  OutPoint_String (NewOutPoint h i) = CoinIdentifier (Hash_String h) i
  /\ ParseCoinIdentifier (OutPoint_String (NewOutPoint h i)) = Ret (h, i).
Proof.
  intros Hh Hi. assert (OutPoint_String (NewOutPoint h i) = CoinIdentifier (Hash_String h) i) as E.
  { unfold OutPoint_String, NewOutPoint, CoinIdentifier, FormatInt. cbn [Hash Index]. ztest.
    assert (zlen (Hash_String h) = 64) as Hl
      by (unfold Hash_String; rewrite zlen_EncodeToString, zlen_rev; lia).
    change (replicate 65 (z2b 0)) with ([] ++ replicate 64 (z2b 0) ++ [z2b 0]).
    rewrite (copy_at_over [] (replicate 64 (z2b 0))) by (done || by rewrite Hl). cbn [app].
    replace 64%nat with (length (Hash_String h) + 0)%nat by (unfold zlen in Hl; lia).
    rewrite insert_app_r. by rewrite <- app_assoc. }
  split; [done|]. rewrite E. by apply ParseCoinIdentifier_eq.
Qed.

Lemma OutPoint_String_coin_witness :
  ParseCoinIdentifier (OutPoint_String (NewOutPoint (replicate 32 (z2b 7)) 5)) = Ret (replicate 32 (z2b 7), 5).
Proof. apply (OutPoint_String_coin (replicate 32 (z2b 7)) 5); [reflexivity|lia]. Defined.

(** ** Onion addresses are read back *)

Definition base32_val (c : byte) : Z := if b2z c <? 97 then b2z c - 50 + 26 else b2z c - 97.

(** The five bytes of eight symbols. *)
Definition group_bytes (s : bytes) : bytes := rev (le_bytes 5 (lval 32 (rev (map base32_val s)))).

Fixpoint base32_read (n : nat) (s : bytes) : bytes :=
  match n with O => [] | S n => group_bytes (take 8 s) ++ base32_read n (drop 8 s) end.

Lemma lval_fix_digits B n : 2 <= B -> forall x, 0 <= x < B ^ Z.of_nat n -> lval B (fix_digits B n x) = x.
Proof.
  intros HB. induction n as [|n IH]; intros x Hx.
  { change (B ^ Z.of_nat 0) with 1 in Hx. cbn. lia. }
  rewrite Nat2Z.inj_succ, Z.pow_succ_r in Hx by lia. cbn [fix_digits lval].
  rewrite IH; [pose proof (Z.div_mod x B ltac:(lia)); lia|].
  split; [apply Z.div_pos; lia|apply Z.div_lt_upper_bound; lia].
Qed.

Lemma fix_digits_digit B n : 2 <= B -> forall x, Forall (digit B) (fix_digits B n x).
Proof.
  intros HB. induction n as [|n IH]; intros x; constructor; [|apply IH]. apply Z.mod_pos_bound. lia.
Qed.

Lemma base32_val_sym d : digit 32 d -> base32_val (lowerByte (base32_sym d)) = d.
Proof.
  intros Hd. unfold digit in Hd.
  assert (Forall (fun n => base32_val (lowerByte (base32_sym (Z.of_nat n))) = Z.of_nat n) (seq 0 32)) as Hall
    by (vm_compute; repeat constructor).
  rewrite Forall_forall in Hall. specialize (Hall (Z.to_nat d)).
  rewrite Z2Nat.id in Hall by lia. apply Hall, elem_of_seq. lia.
Qed.

Lemma length_group g : length g = 5%nat -> length (base32_group g) = 8%nat.
Proof. intros Hl. unfold base32_group. by rewrite Hl. Qed.

Lemma group_bytes_spec g : length g = 5%nat -> group_bytes (ToLower (base32_group g)) = g.
Proof.
  intros Hl. unfold base32_group, group_bytes, ToLower. rewrite Hl. cbn [Nat.sub replicate].
  rewrite !app_nil_r. set (ds := fix_digits 32 8 (be_val g)).
  change (take _ (rev ds)) with (rev ds). rewrite !map_map.
  assert (Forall (digit 32) ds) as Hds by by apply fix_digits_digit.
  rewrite (map_ext_Forall _ id), map_id, rev_involutive;
    [|eapply Forall_impl; [by apply Forall_rev|]; intros d; apply base32_val_sym].
  pose proof (le_val_bound (rev g)) as Hb. rewrite zlen_rev in Hb.
  unfold ds. rewrite be_val_le, lval_fix_digits; [|lia|].
  - rewrite <- Hl, <- (length_rev g). rewrite le_bytes_le_val. apply rev_involutive.
  - unfold zlen in Hb. rewrite Hl in Hb. exact Hb.
Qed.

Lemma ToLower_app a b : ToLower (a ++ b) = ToLower a ++ ToLower b.
Proof. apply map_app. Qed.

(** Whole groups are read back. *)
Lemma base32_read_spec n : forall b t, length b = (5 * n)%nat ->
  base32_read n (ToLower (base32_Encode b) ++ t) = b
  /\ length (ToLower (base32_Encode b)) = (8 * n)%nat.
Proof.
  induction n as [|n IH]; intros b t Hl.
  { destruct b; [done|cbn in Hl; lia]. }
  destruct b as [|x1 [|x2 [|x3 [|x4 [|x5 b]]]]]; try (cbn in Hl; lia).
  cbn [base32_Encode base32_read]. rewrite ToLower_app, <- app_assoc.
  assert (length (ToLower (base32_group [x1; x2; x3; x4; x5])) = 8%nat) as H8
    by (unfold ToLower; rewrite length_map; by apply length_group).
  rewrite take_app_length', drop_app_length', group_bytes_spec by done.
  destruct (IH b t) as [-> H]; [cbn in Hl; lia|]. split; [done|]. rewrite length_app, H8, H. lia.
Qed.

(** The text of an onion address has the declared size and holds the address: the
    ten bytes of version 2, or the 32 bytes of the key of version 3. *)
Theorem onion_text_exact `{Sha3Laws} addr :
  (zlen addr = 10 -> zlen (torv2Addr_String addr) = TorV2EncodedSize
     /\ base32_read 2 (torv2Addr_String addr) = addr)
  /\ (zlen addr = 32 -> exists text, torv3Addr_String addr = Ret text /\ zlen text = TorV3EncodedSize
     /\ take 32 (base32_read 7 text) = addr).
Proof.
  split; intros Hl.
  - destruct (base32_read_spec 2 addr (str ".onion")) as [Hr Hn]; [unfold zlen in Hl; lia|].
    split; [|done]. unfold torv2Addr_String, zlen. rewrite length_app, Hn. done.
  - unfold torv3Addr_String. rewrite zslice_Some by (rewrite ?sha3_256_len; lia). cbn [orCrash bindO].
    set (sum := take _ (drop _ _)). assert (zlen sum = 2) as Hs.
    { unfold sum. rewrite zlen_take, zlen_drop, sha3_256_len. reflexivity. }
    change (replicate 35 (z2b 0)) with ([] ++ replicate 32 (z2b 0) ++ replicate 2 (z2b 0) ++ [z2b 0]).
    rewrite (copy_at_over [] (replicate 32 (z2b 0))) by (done || by rewrite Hl). cbn [app].
    rewrite (copy_at_over addr (replicate 2 (z2b 0)) [z2b 0]) by (done || by rewrite Hs).
    rewrite (app_assoc addr), <- (app_nil_r [z2b 0]).
    rewrite (copy_at_over (addr ++ sum) [z2b 0] []) by (done || rewrite zlen_app; lia).
    eexists. split; [done|]. rewrite app_nil_r.
    destruct (base32_read_spec 7 ((addr ++ sum) ++ [z2b 3]) (str ".onion")) as [Hr Hn].
    { rewrite !length_app. unfold zlen in *. cbn. lia. }
    split; [unfold zlen; rewrite length_app, Hn; done|]. rewrite Hr, <- app_assoc.
    apply take_app_length'. unfold zlen in Hl. lia.
Qed.

#[export] Instance toy_sha3 : Sha3 := {| sha3_256 := fun b => le_bytes 32 (le_val b) |}.
#[export] Instance toy_sha3_laws : Sha3Laws.
Proof. constructor. intros b. apply zlen_le_bytes. Qed.

Lemma onion_text_exact_witness :
  base32_read 2 (str "nbswy3dpo5xxe3de.onion") = str "helloworld".
Proof. apply (onion_text_exact (str "helloworld")). reflexivity. Defined.
