(* ===== verification/WireNew.v ===== *)
(** Building messages (src/thoughtd/wire/msg*.go): the constructors, and the methods
    that add to a message.

    [built] are the messages that constructors and successful additions can make
    from arguments in range; every one of them is well-formed, so that it survives
    the wire. *)

From S2P Require Import Prelude Crypto WireCommon WireCodec WireTx WireBlock WireMsgs WireMsgCodecs WireMessage.

(** ** Constructors

    The capacities that are passed to [make] are left out where nothing reads them;
    [now] is the clock in seconds. *)

Definition NewMsgVersion (now : Z) (me you : NetAddress) (nonce lastBlock : Z) : MsgVersion :=
  mkMsgVersion (i32 ProtocolVersion) 0 now you me nonce (str "/rosetta_thought:0.18.2/") lastBlock false.

Definition MsgVersion_HasService (service : Z) (msg : MsgVersion) : bool :=
  Z.land (mv_Services msg) service =? service.
Definition MsgVersion_AddService (service : Z) (msg : MsgVersion) : MsgVersion :=
  mkMsgVersion (mv_ProtocolVersion msg) (Z.lor (mv_Services msg) service) (mv_Timestamp msg)
    (mv_AddrYou msg) (mv_AddrMe msg) (mv_Nonce msg) (mv_UserAgent msg) (mv_LastBlock msg)
    (mv_DisableRelayTx msg).

Definition NewNetAddressIPPort (now : Z) (ip : bytes) (port services : Z) : NetAddress :=
  NewNetAddressTimestamp now services ip port.

(** The port of a [net.TCPAddr] is an int. *)
Definition NewNetAddress (now : Z) (IP : bytes) (Port services : Z) : NetAddress :=
  NewNetAddressIPPort now IP (u16 Port) services.

Definition NewMsgAddr : MsgAddr := mkMsgAddr [].
Definition NewMsgInv : MsgInv := mkMsgInv [].
(** The hint is limited, so that the allocation is. *)
Definition NewMsgInvSizeHint (sizeHint : Z) : MsgInv * Z :=
  (mkMsgInv [], if sizeHint >? MaxInvPerMsg then MaxInvPerMsg else sizeHint).
Definition NewMsgGetData : MsgGetData := mkMsgGetData [].
Definition NewMsgGetDataSizeHint (sizeHint : Z) : MsgGetData * Z :=
  (mkMsgGetData [], if sizeHint >? MaxInvPerMsg then MaxInvPerMsg else sizeHint).
Definition NewMsgNotFound : MsgNotFound := mkMsgNotFound [].
Definition NewMsgGetBlocks (hashStop : bytes) : MsgGetBlocks := mkMsgGetBlocks ProtocolVersion [] hashStop.
Definition NewMsgGetHeaders : MsgGetHeaders := mkMsgGetHeaders 0 [] zeroHash.
Definition NewMsgHeaders : MsgHeaders := mkMsgHeaders [].
Definition NewMsgMerkleBlock (bh : BlockHeader) : MsgMerkleBlock := mkMsgMerkleBlock bh 0 [] [].
Definition NewMsgPing (nonce : Z) : MsgPing := mkMsgPing nonce.
Definition NewMsgPong (nonce : Z) : MsgPong := mkMsgPong nonce.
Definition NewMsgFeeFilter (minfee : Z) : MsgFeeFilter := mkMsgFeeFilter minfee.
Definition NewMsgFilterAdd (data : bytes) : MsgFilterAdd := mkMsgFilterAdd data.
Definition NewMsgFilterLoad (filter : bytes) (hashFuncs tweak flags : Z) : MsgFilterLoad :=
  mkMsgFilterLoad filter hashFuncs tweak flags.
Definition NewMsgReject (command : bytes) (code : Z) (reason : bytes) : MsgReject :=
  mkMsgReject command code reason zeroHash.
Definition NewMsgGetCFilters (filterType startHeight : Z) (stopHash : bytes) : MsgGetCFilters :=
  mkMsgGetCFilters filterType startHeight stopHash.
Definition NewMsgGetCFHeaders (filterType startHeight : Z) (stopHash : bytes) : MsgGetCFHeaders :=
  mkMsgGetCFHeaders filterType startHeight stopHash.
Definition NewMsgGetCFCheckpt (filterType : Z) (stopHash : bytes) : MsgGetCFCheckpt :=
  mkMsgGetCFCheckpt filterType stopHash.
Definition NewMsgCFilter (filterType : Z) (blockHash data : bytes) : MsgCFilter :=
  mkMsgCFilter filterType blockHash data.
Definition NewMsgCFHeaders : MsgCFHeaders := mkMsgCFHeaders 0 zeroHash zeroHash [].

Definition NewAlert (version relayUntil expiration id cancel : Z) (setCancel : list Z) (minVer maxVer : Z)
    (setSubVer : list bytes) (priority : Z) (comment statusBar : bytes) : Alert :=
  mkAlert version relayUntil expiration id cancel setCancel minVer maxVer setSubVer priority comment statusBar [].
Definition NewMsgAlert (serializedPayload signature : bytes) : MsgAlert :=
  mkMsgAlert serializedPayload signature None.

(** ** Checkpoints

    [AddCFHeader] refuses a header when the slice is full, so the capacity of the
    slice is part of the state. *)

Record CFCheckptBuf := mkCFCheckptBuf { cb_msg : MsgCFCheckpt; cb_cap : Z }.

(** [make] with a negative capacity panics. *)
Definition NewMsgCFCheckpt (filterType : Z) (stopHash : bytes) (headersCount : Z) :
    outcome WireErr CFCheckptBuf :=
  if headersCount <? 0 then Crash
  else Ret (mkCFCheckptBuf (mkMsgCFCheckpt filterType stopHash []) headersCount).

Definition AddCFHeader (header : bytes) : M CFCheckptBuf WireErr unit :=
  b <- getM ;;
  let msg := cb_msg b in
  if zlen (cfc_FilterHeaders msg) =? cb_cap b then failM (MessageError "MsgCFCheckpt.AddCFHeader") else
  putM (mkCFCheckptBuf
    (mkMsgCFCheckpt (cfc_FilterType msg) (cfc_StopHash msg) (cfc_FilterHeaders msg ++ [header])) (cb_cap b)).

(** ** Messages that can be built *)

Section built.
Context (pver : Z) (enc : MessageEncoding).

Inductive built : Message -> Prop :=
  | b_version now me you nonce lastBlock :
      int_range TInt64 now -> na_wf pver false zeroTime me -> na_wf pver false zeroTime you ->
      int_range TUint64 nonce -> int_range TInt32 lastBlock ->
      built (VersionMsg (NewMsgVersion now me you nonce lastBlock))
  | b_service m service : built (VersionMsg m) -> int_range TServiceFlag service ->
      built (VersionMsg (MsgVersion_AddService service m))
  | b_agent m name version comments m' : built (VersionMsg m) ->
      AddUserAgent name version comments m = (Ret tt, m') -> built (VersionMsg m')
  | b_verack : built VerAckMsg
  | b_getaddr : built GetAddrMsg
  | b_addr : built (AddrMsg NewMsgAddr)
  | b_addresses m l r m' : built (AddrMsg m) -> MultipleAddressVersion <= pver ->
      Forall (na_wf pver true zeroTime) l -> AddAddresses l m = (r, m') -> built (AddrMsg m')
  | b_clear m : built (AddrMsg m) -> built (AddrMsg (ClearAddresses m))
  | b_inv : built (InvMsg NewMsgInv)
  | b_inv_hint n : built (InvMsg (NewMsgInvSizeHint n).1)
  | b_inv_add m iv m' : built (InvMsg m) -> iv_wf iv -> MsgInv_AddInvVect iv m = Ret m' -> built (InvMsg m')
  | b_getdata : built (GetDataMsg NewMsgGetData)
  | b_getdata_hint n : built (GetDataMsg (NewMsgGetDataSizeHint n).1)
  | b_getdata_add m iv m' : built (GetDataMsg m) -> iv_wf iv -> MsgGetData_AddInvVect iv m = Ret m' ->
      built (GetDataMsg m')
  | b_notfound : built (NotFoundMsg NewMsgNotFound)
  | b_notfound_add m iv m' : built (NotFoundMsg m) -> iv_wf iv -> MsgNotFound_AddInvVect iv m = Ret m' ->
      built (NotFoundMsg m')
  | b_getblocks hashStop : bytes_wf THash hashStop -> built (GetBlocksMsg (NewMsgGetBlocks hashStop))
  | b_getblocks_add m h m' : built (GetBlocksMsg m) -> bytes_wf THash h ->
      MsgGetBlocks_AddBlockLocatorHash h m = Ret m' -> built (GetBlocksMsg m')
  | b_getheaders : built (GetHeadersMsg NewMsgGetHeaders)
  | b_getheaders_add m h m' : built (GetHeadersMsg m) -> bytes_wf THash h ->
      MsgGetHeaders_AddBlockLocatorHash h m = Ret m' -> built (GetHeadersMsg m')
  | b_headers : built (HeadersMsg NewMsgHeaders)
  | b_headers_add m bh m' : built (HeadersMsg m) -> header_wf bh -> AddBlockHeader bh m = Ret m' ->
      built (HeadersMsg m')
  | b_merkle bh : header_wf bh -> BIP0037Version <= pver -> built (MerkleBlockMsg (NewMsgMerkleBlock bh))
  | b_merkle_add m h m' : built (MerkleBlockMsg m) -> bytes_wf THash h -> AddTxHash h m = Ret m' ->
      built (MerkleBlockMsg m')
  | b_block bh : header_wf bh -> built (BlockMsg (NewMsgBlock bh))
  | b_block_add m tx m' : built (BlockMsg m) -> tx_enc_wf enc tx ->
      zlen (mb_Transactions m) < maxTxPerBlock -> AddTransaction tx m = Ret m' -> built (BlockMsg m')
  | b_ping nonce : BIP0031Version < pver -> int_range TUint64 nonce -> built (PingMsg (NewMsgPing nonce))
  | b_pong nonce : BIP0031Version < pver -> int_range TUint64 nonce -> built (PongMsg (NewMsgPong nonce))
  | b_feefilter fee : FeeFilterVersion <= pver -> int_range TInt64 fee -> built (FeeFilterMsg (NewMsgFeeFilter fee))
  | b_mempool : BIP0035Version <= pver -> built MemPoolMsg
  | b_filterclear : BIP0037Version <= pver -> built FilterClearMsg
  | b_sendheaders : SendHeadersVersion <= pver -> built SendHeadersMsg
  | b_filteradd data : BIP0037Version <= pver -> zlen data <= MaxFilterAddDataSize ->
      built (FilterAddMsg (NewMsgFilterAdd data))
  | b_filterload filter k tweak flags : BIP0037Version <= pver -> zlen filter <= MaxFilterLoadFilterSize ->
      0 <= k <= MaxFilterLoadHashFuncs -> int_range TUint32 tweak -> int_range TBloomUpdateType flags ->
      built (FilterLoadMsg (NewMsgFilterLoad filter k tweak flags))
  | b_reject command code reason : RejectVersion <= pver -> zlen command <= MaxMessagePayload ->
      int_range TRejectCode code -> zlen reason <= MaxMessagePayload ->
      built (RejectMsg (NewMsgReject command code reason))
  | b_getcfilters t n h : int_range TUint8 t -> int_range TUint32 n -> bytes_wf THash h ->
      built (GetCFiltersMsg (NewMsgGetCFilters t n h))
  | b_getcfheaders t n h : int_range TUint8 t -> int_range TUint32 n -> bytes_wf THash h ->
      built (GetCFHeadersMsg (NewMsgGetCFHeaders t n h))
  | b_getcfcheckpt t h : int_range TUint8 t -> bytes_wf THash h -> built (GetCFCheckptMsg (NewMsgGetCFCheckpt t h))
  | b_cfilter t h data : int_range TUint8 t -> bytes_wf THash h -> zlen data <= MaxCFilterDataSize ->
      built (CFilterMsg (NewMsgCFilter t h data))
  | b_cfheaders : built (CFHeadersMsg NewMsgCFHeaders)
  | b_cfheaders_add m h m' : built (CFHeadersMsg m) -> bytes_wf THash h -> AddCFHash h m = Ret m' ->
      built (CFHeadersMsg m')
  | b_cfcheckpt t h n l b b' : int_range TUint8 t -> bytes_wf THash h -> n <= maxCFHeadersLen ->
      Forall (bytes_wf THash) l -> NewMsgCFCheckpt t h n = Ret b -> forM l AddCFHeader b = (Ret tt, b') ->
      built (CFCheckptMsg (cb_msg b')).
End built.

(** ** What is built is well-formed *)

Lemma addLimited_Ret {A} max func (x : A) l l' (P : A -> Prop) :
  addLimited max func x l = Ret l' -> P x -> Forall P l -> zlen l' <= max /\ Forall P l'.
Proof.
  unfold addLimited. destruct (_ >? max) eqn:E; [done|]. intros [= <-] Hx Hl. zbool.
  rewrite zlen_app, Forall_app. change (zlen [x]) with 1. split_and!; [lia|done|by constructor].
Qed.

Lemma lor_u64 a b : 0 <= a < 2 ^ 64 -> 0 <= b < 2 ^ 64 -> 0 <= Z.lor a b < 2 ^ 64.
Proof.
  intros Ha Hb. assert (0 <= Z.lor a b) by (apply Z.lor_nonneg; lia). split; [done|].
  destruct (Z.eq_dec (Z.lor a b) 0) as [->|]; [done|]. apply Z.log2_lt_pow2; [lia|].
  rewrite Z.log2_lor by lia. apply Z.max_lub_lt.
  - destruct (Z.eq_dec a 0) as [->|]; [done|]. apply Z.log2_lt_pow2; lia.
  - destruct (Z.eq_dec b 0) as [->|]; [done|]. apply Z.log2_lt_pow2; lia.
Qed.

Lemma AddAddresses_wf pver l : forall m r m',
  MultipleAddressVersion <= pver -> Forall (na_wf pver true zeroTime) l -> addr_wf pver m ->
  AddAddresses l m = (r, m') -> addr_wf pver m'.
Proof.
  induction l as [|na l IH]; intros m r m' Hp Hl Hm; cbn [AddAddresses]; [by intros [= _ <-]|].
  inversion_clear Hl as [|? ? Hna Hl']. destruct (AddAddress na m) as [m1| | |] eqn:E; try by intros [= _ <-].
  intros Ha. eapply IH; [done|done| |exact Ha]. unfold AddAddress in E.
  destruct (addLimited _ _ _ _) as [l1| | |] eqn:El; try done. injection E as <-. destruct Hm as (_ & _ & Hm).
  destruct (addLimited_Ret _ _ _ _ _ _ El Hna Hm). unfold addr_wf. cbn [ma_AddrList]. split_and!; [done|lia|done].
Qed.

(** A checkpoint takes exactly as many headers as it was made for. *)
Lemma AddCFHeaders_spec l : forall b,
  zlen (cfc_FilterHeaders (cb_msg b)) <= cb_cap b ->
  let msg := cb_msg b in
  if zlen (cfc_FilterHeaders msg) + zlen l <=? cb_cap b
  then forM l AddCFHeader b = (Ret tt, mkCFCheckptBuf
         (mkMsgCFCheckpt (cfc_FilterType msg) (cfc_StopHash msg) (cfc_FilterHeaders msg ++ l)) (cb_cap b))
  else exists b', forM l AddCFHeader b = (Fail (MessageError "MsgCFCheckpt.AddCFHeader"), b').
Proof.
  induction l as [|h l IH]; intros [[t s hs] cap] Hb; cbn [cb_msg cb_cap cfc_FilterHeaders cfc_FilterType cfc_StopHash] in *.
  { rewrite zlen_nil, Z.add_0_r, app_nil_r. by ztest. }
  cbn zeta. rewrite zlen_cons. cbn [forM]. destruct (Z.eqb_spec (zlen hs) cap) as [E|E].
  - pose proof (zlen_nonneg l). ztest. eexists. unfold AddCFHeader, bindM, getM.
    cbn [cb_msg cb_cap cfc_FilterHeaders]. by rewrite (proj2 (Z.eqb_eq _ _) E).
  - erewrite bindM_step; [|unfold AddCFHeader, bindM, getM; cbn [cb_msg cb_cap cfc_FilterHeaders];
      rewrite (proj2 (Z.eqb_neq _ _) E); reflexivity].
    cbn [cfc_FilterType cfc_StopHash]. pose proof (IH (mkCFCheckptBuf (mkMsgCFCheckpt t s (hs ++ [h])) cap)) as H.
    cbn [cb_msg cb_cap cfc_FilterHeaders cfc_FilterType cfc_StopHash] in H. cbn zeta in H.
    rewrite zlen_app in H. change (zlen [h]) with 1 in H. specialize (H ltac:(lia)).
    rewrite <- app_assoc in H. by rewrite Z.add_assoc.
Qed.

Lemma cfcheckpt_built t h n l b b' :
  int_range TUint8 t -> bytes_wf THash h -> n <= maxCFHeadersLen -> Forall (bytes_wf THash) l ->
  NewMsgCFCheckpt t h n = Ret b -> forM l AddCFHeader b = (Ret tt, b') -> cfcheckpt_wf (cb_msg b').
Proof.
  intros Ht Hh Hn Hl. unfold NewMsgCFCheckpt. destruct (Z.ltb_spec n 0); [done|]. intros [= <-] E.
  pose proof (AddCFHeaders_spec l (mkCFCheckptBuf (mkMsgCFCheckpt t h []) n)) as H0.
  cbn [cb_msg cb_cap cfc_FilterHeaders cfc_FilterType cfc_StopHash app] in H0. cbn zeta in H0.
  rewrite (@zlen_nil bytes), Z.add_0_l in H0. specialize (H0 ltac:(lia)).
  destruct (Z.leb_spec (zlen l) n); [|destruct H0 as [b1 H0]; by rewrite E in H0].
  rewrite E in H0. injection H0 as ->. assert (zlen l <= maxCFHeadersLen) as Hc by lia.
  exact (conj Ht (conj Hh (conj Hc Hl))).
Qed.

(** An addition that succeeded: the new list is within the limit. *)
Ltac built_add E Hx Hl :=
  let l := fresh in let El := fresh in
  destruct (addLimited _ _ _ _) as [l| | |] eqn:El; cbn [bindO] in E; try discriminate E;
  injection E as <-; destruct (addLimited_Ret _ _ _ _ _ _ El Hx Hl).

Lemma zero_hash_wf : bytes_wf THash zeroHash.
Proof. reflexivity. Qed.

Lemma AddUserAgent_wf pver m0 m name version comments m' :
  version_wf pver m0 m -> AddUserAgent name version comments m = (Ret tt, m') -> version_wf pver m0 m'.
Proof.
  intros (? & ? & ? & ? & ? & ? & _ & ? & ?). unfold AddUserAgent, validateUserAgent, bindM, getM, liftO, putM.
  destruct (_ >? MaxUserAgentLen) eqn:E; [done|]. intros [= <-]. unfold version_wf. zbool.
  cbn [mv_ProtocolVersion mv_Services mv_Timestamp mv_AddrYou mv_AddrMe mv_Nonce mv_UserAgent mv_LastBlock
       mv_DisableRelayTx]. tauto.
Qed.

Lemma built_message_wf pver enc msg : built pver enc msg -> message_wf pver enc msg.
Proof.
  pose proof zero_hash_wf as H0.
  induction 1 as [| m service Hm IH Hs | m n v c m' Hm IH Ha | | | | m l r m' Hm IH Hp Hl Ha | | | |
    m iv m' Hm IH Hi E | | | m iv m' Hm IH Hi E | | m iv m' Hm IH Hi E | | m h m' Hm IH Hh E | |
    m h m' Hm IH Hh E | | m bh m' Hm IH Hh E | | m h m' Hm IH Hh E | | m tx m' Hm IH Ht Hn E
    | nonce Hp Hn | | | | | | | | command code reason Hp Hc Hk Hr | | | | | | m h m' Hm IH Hh E | ];
    cbn [message_wf] in *; try done.
  - destruct IH as (? & ? & ?). split; [done|]. split; [by apply lor_u64|done].
  - by eapply AddUserAgent_wf.
  - by eapply AddAddresses_wf.
  - destruct IH as [? Hl]. unfold MsgInv_AddInvVect in E. built_add E Hi Hl. done.
  - destruct IH as [? Hl]. unfold MsgGetData_AddInvVect in E. built_add E Hi Hl. done.
  - destruct IH as [? Hl]. unfold MsgNotFound_AddInvVect in E. built_add E Hi Hl. done.
  - destruct IH as (? & ? & Hl & ?). unfold MsgGetBlocks_AddBlockLocatorHash in E. built_add E Hh Hl. done.
  - destruct IH as (? & ? & Hl & ?). unfold MsgGetHeaders_AddBlockLocatorHash in E. built_add E Hh Hl. done.
  - destruct IH as [? Hl]. unfold AddBlockHeader in E. built_add E Hh Hl. done.
  - destruct IH as (? & ? & ? & ? & Hl & ?). unfold AddTxHash in E. built_add E Hh Hl. done.
  - injection E as <-. destruct IH as (? & ? & ?). split_and!; [done| |].
    + cbn [mb_Transactions]. rewrite zlen_app. change (zlen [tx]) with 1. lia.
    + apply Forall_app. split; [done|by constructor].
  - unfold ping_wf. ztest. done.
  - unfold reject_wf. split_and!; try done. by destruct (reject_has_hash _).
  - destruct IH as (? & ? & ? & ? & Hl). unfold AddCFHash in E. built_add E Hh Hl. done.
  - by eapply cfcheckpt_built.
Qed.

(** Whatever is built by the constructors and by additions that succeed is
    within the limits of its type, if the type has limits: it is written, and read
    back as it was. *)
Theorem built_roundtrip `{Crypto} `{!CryptoLaws _} (msg : Message) (pver net : Z) (enc : MessageEncoding)
    (r : bytes) :
  built pver enc msg -> limited msg = true -> 0 <= net < 2 ^ 32 ->
  exists n out payload,
    WriteMessageWithEncodingN msg pver net enc [] = (Ret n, out) /\ zlen out = n
    /\ ReadMessageWithEncodingN pver net enc (out ++ r) = (Ret (n, msg, payload), r).
Proof.
  intros Hb%built_message_wf Hl Hn. destruct (payload_fits pver enc msg Hb Hl) as [H1 H2].
  set (p := message_bytes pver enc msg) in *. assert (zlen p <= MaxMessagePayload) by lia.
  destruct (payloadChecksum_ok p) as (ck & Hck & Hk). destruct (Command_ok msg) as (Hc & _ & _).
  exists (24 + zlen p), (header24 net (Command msg) (zlen p) ck ++ p), p. split_and!.
  - by rewrite (WriteMessage_writes msg pver net enc [] ck).
  - by rewrite zlen_app, zlen_header24.
  - rewrite <- app_assoc. by apply ReadMessage_reads.
Qed.

Definition sample_inv : Message := InvMsg (mkMsgInv [NewInvVect 2 zeroHash]).

Lemma built_roundtrip_witness :
  exists n out payload,
    WriteMessageWithEncodingN (H := toy) sample_inv ProtocolVersion 0xd9b4bef9 BaseEncoding [] = (Ret n, out) /\ zlen out = n
    /\ ReadMessageWithEncodingN (H := toy) ProtocolVersion 0xd9b4bef9 BaseEncoding (out ++ [z2b 1])
       = (Ret (n, sample_inv, payload), [z2b 1]).
Proof.
  apply (built_roundtrip (H := toy) sample_inv ProtocolVersion 0xd9b4bef9 BaseEncoding [z2b 1]); [|reflexivity|lia].
  apply (b_inv_add _ _ NewMsgInv (NewInvVect 2 zeroHash)); [constructor|split; [cbn; lia|reflexivity]|reflexivity].
Defined.

(** An alert message is made from the serialized alert and its signature; the
    reader gets the alert itself too. *)
Theorem NewMsgAlert_decoded (a : Alert) (signature r : bytes) :
  alert_wf a -> 0 < zlen (alert_bytes a) <= MaxMessagePayload -> zlen signature <= MaxMessagePayload ->
  let payload := (Alert_Serialize a []).2 in
  exists out, MsgAlert_ThtEncode (NewMsgAlert payload signature) [] = (Ret tt, out)
    /\ MsgAlert_ThtDecode (out ++ r) = (Ret (mkMsgAlert payload signature (Some a)), r).
Proof.
  intros Ha Hp Hs. rewrite (writes a [] Ha). cbn [snd app]. exists (varbytes (alert_bytes a) ++ varbytes signature). split.
  - unfold MsgAlert_ThtEncode, NewMsgAlert. cbn [mal_SerializedPayload mal_Signature mal_Payload].
    erewrite bindM_step by reflexivity. cbv zeta. rewrite u64_id by lia.
    rewrite <- (app_nil_l (varbytes (alert_bytes a) ++ _)). run_writes.
  - by apply (MsgAlert_reads (mkMsgAlert (alert_bytes a) signature (Some a)) r).
Qed.

Lemma NewMsgAlert_decoded_witness :
  let a := NewAlert 1 0 0 5 0 [] 0 70018 [] 1 (str "c") (str "s") in
  exists out, MsgAlert_ThtEncode (NewMsgAlert (Alert_Serialize a []).2 (str "sig")) [] = (Ret tt, out)
    /\ MsgAlert_ThtDecode (out ++ [z2b 9]) = (Ret (mkMsgAlert (Alert_Serialize a []).2 (str "sig") (Some a)), [z2b 9]).
Proof.
  apply (NewMsgAlert_decoded (NewAlert 1 0 0 5 0 [] 0 70018 [] 1 (str "c") (str "s")) (str "sig") [z2b 9]);
    [repeat split; try constructor; vm_compute; congruence|split; vm_compute; congruence|vm_compute; congruence].
Defined.
