(* ===== verification/Process.v ===== *)
(** The process of the service: main.go, the node it starts (thought/node.go), and the
    opening and closing of the indexer's database (indexer/indexer.go, [Initialize]
    and [CloseDatabase]).

    The calls of [main] that are seen from outside are recorded in a trace, in the
    order in which the main goroutine makes them; what the other packages answer is
    the class [Host].  A fatal log message ends the process with [os.Exit], without
    the deferred calls. *)

From S2P Require Import Prelude Digits Hash Crypto Base58 Address Rosetta Config Client WireNames.

(** ** The trace *)

(** What is given to [g.Go]. *)
Inductive Task :=
  | MonitorMemoryUsage
  | StartThoughtdTask (configPath : bytes)
  | LogPipe (identifier : bytes)
  | InterruptNode
  | SyncTask
  | PruneTask
  | ListenAndServe (addr : bytes)
  | Shutdown.

Inductive FatalErr :=
  | FatalConfig (e : ConfigErr)
  | FatalOnline
  | FatalAsserter
  | FatalCloseDatabase
  | FatalHalted
  | FatalSync.

Inductive Event :=
  | Signals
  | Go (t : Task)
  | OpenDatabase (path : bytes)
  | Wait
  | Close
  | StartNode (args : list bytes)
  | WaitNode
  | Exit (e : FatalErr)
  | FlushLogger.

#[export] Instance Task_eq_dec : EqDecision Task.
Proof. solve_decision. Defined.

(** What the environment answers. *)
Class Host {E : Env} := {
  opensDatabase : bytes -> bool;         (** NewBadgerDatabase *)
  clientAsserter : Configuration -> bool; (** asserter.NewClientWithOptions *)
  serverAsserter : Configuration -> bool; (** asserter.NewServer *)
  waitError : bool;                       (** g.Wait returns an error *)
  closesDatabase : bool;                  (** database.Close *)
  signalReceived : bool;                  (** the flag of handleSignals, after g.Wait *)
  stdoutPipe : bool; stderrPipe : bool; cmdStart : bool; cmdWait : bool }.

Section main.
Context {E : Env} {Ho : @Host E}.

Record World := mkWorld { w_fs : FS; w_trace : list Event }.

(** The error of [main] is the exit of the process. *)
Notation PM := (M World FatalErr).

Definition emit {Err} (e : Event) : M World Err unit :=
  modifyM (fun w => mkWorld (w_fs w) (w_trace w ++ [e])).

Definition fatal {A} (e : FatalErr) : PM A := emit (Exit e) ;; failM e.

(** [if err != nil { logger.Fatalw(..) }] *)
Definition orFatal {Err A} (m : M World Err A) (f : Err -> FatalErr) : PM A := fun w =>
  match m w with
  | (Ret a, w) => (Ret a, w)
  | (Fail e, w) => fatal (f e) w
  | (Crash, w) => (Crash, w)
  | (NoFuel, w) => (NoFuel, w)
  end.

Definition loadConfig : M World ConfigErr Configuration :=
  onM w_fs (fun fs w => mkWorld fs (w_trace w)) (LoadConfiguration (str "/data")).

(** ** indexer.Initialize and startOnlineDependencies *)

Inductive InitErr := ErrStorage | ErrAsserter.

Definition InitializeStorage (cfg : Configuration) : M World InitErr unit :=
  if negb (opensDatabase (cfg_IndexerPath cfg)) then failM ErrStorage else
  emit (OpenDatabase (cfg_IndexerPath cfg)) ;;
  if negb (clientAsserter cfg) then failM ErrAsserter else retM tt.

Definition startOnlineDependencies (cfg : Configuration) : M World InitErr Client :=
  let client := NewClient (LocalhostURL (cfg_RPCPort cfg)) (cfg_GenesisBlockIdentifier cfg) (cfg_Currency cfg) in
  emit (Go (StartThoughtdTask (cfg_ConfigPath cfg))) ;;
  InitializeStorage cfg ;;
  emit (Go SyncTask) ;;
  emit (Go PruneTask) ;;
  retM client.

Definition CloseDatabase : PM unit :=
  emit Close ;; if closesDatabase then retM tt else fatal FatalCloseDatabase.

(** ** main *)

(** Once the configuration is loaded. *)
Definition mainWith (cfg : Configuration) : PM unit :=
  emit (Go MonitorMemoryUsage) ;;
  online <- (if cfg_Online cfg
             then orFatal (startOnlineDependencies cfg) (fun _ => FatalOnline) ;; retM true
             else retM false) ;;
  (if serverAsserter cfg then retM tt else fatal FatalAsserter) ;;
  emit (Go (ListenAndServe (str ":" ++ FormatInt (cfg_Port cfg)))) ;;
  emit (Go Shutdown) ;;
  emit Wait ;;
  (if online : bool then CloseDatabase else retM tt) ;;
  (if signalReceived then fatal FatalHalted else retM tt) ;;
  (if waitError then fatal FatalSync else retM tt) ;;
  emit FlushLogger.

Definition main : PM unit :=
  emit Signals ;;
  cfg <- orFatal loadConfig FatalConfig ;;
  mainWith cfg.

(** ** StartThoughtd *)

Inductive NodeErr := ErrPipe | ErrStart | ErrWait.

Definition StartThoughtd (configPath : bytes) : M World NodeErr unit :=
  let cmd := [str "/app/thoughtd"; str "--conf=" ++ configPath] in
  if negb stdoutPipe then failM ErrPipe else
  if negb stderrPipe then failM ErrPipe else
  emit (Go (LogPipe (str "thoughtd"))) ;;
  emit (Go (LogPipe (str "thoughtd stderr"))) ;;
  if negb cmdStart then failM ErrStart else
  emit (StartNode cmd) ;;
  emit (Go InterruptNode) ;;
  emit WaitNode ;;
  if negb cmdWait then failM ErrWait else retM tt.
End main.

(** ** The order of events *)

(** What happens after the wait for the goroutines. *)
Fixpoint after_wait (t : list Event) : option (list Event) :=
  match t with
  | [] => None
  | Wait :: t => Some t
  | _ :: t => after_wait t
  end.

Definition is_go (e : Event) : bool := match e with Go _ => true | _ => false end.
Definition is_open (e : Event) : bool := match e with OpenDatabase _ => true | _ => false end.
Definition is_close (e : Event) : bool := match e with Close => true | _ => false end.

(** The tasks that were started. *)
Definition tasks (t : list Event) : list Task :=
  concat (map (fun e => match e with Go x => [x] | _ => [] end) t).

(** The database is opened at most once; if the wait is reached, no goroutine is
    started after it, and the database is closed, if it was opened, as the first
    thing after it.  A database that is left open belongs to a process that ended
    while it was starting. *)
Definition orderly (t : list Event) : Prop :=
  match after_wait t with
  | Some post =>
      existsb is_go post = false
      /\ (if existsb is_open t then exists post', post = Close :: post' /\ existsb is_close post' = false
          else existsb is_close t = false)
  | None => existsb is_close t = false /\ exists pre e, t = pre ++ [Exit e]
            /\ (existsb is_open t = true -> e = FatalOnline \/ e = FatalAsserter)
  end.

Section order.
Context {E : Env} {Ho : @Host E}.

Lemma LoadConfiguration_total fs :
  match (LoadConfiguration (str "/data") fs).1 with Crash | NoFuel => False | _ => True end.
Proof.
  pose proof (LoadConfiguration_classifies (str "/data") fs) as H.
  by destruct (LoadConfiguration (str "/data") fs) as [[] fs'].
Qed.

(** The trace of [main]. *)
Lemma main_trace fs :
  w_trace (main (mkWorld fs [])).2
  = match LoadConfiguration (str "/data") fs with
    | (Ret cfg, fs') => w_trace (mainWith cfg (mkWorld fs' [Signals])).2
    | (Fail e, fs') => [Signals; Exit (FatalConfig e)]
    | _ => [Signals]
    end.
Proof.
  unfold main. erewrite bindM_step by reflexivity. unfold bindM at 1, orFatal, loadConfig, onM. cbn [w_fs w_trace app].
  by destruct (LoadConfiguration (str "/data") fs) as [[] fs'].
Qed.

Lemma main_result fs :
  (main (mkWorld fs [])).1
  = match LoadConfiguration (str "/data") fs with
    | (Ret cfg, fs') => (mainWith cfg (mkWorld fs' [Signals])).1
    | (Fail e, _) => Fail (FatalConfig e)
    | (Crash, _) => Crash
    | (NoFuel, _) => NoFuel
    end.
Proof.
  unfold main. erewrite bindM_step by reflexivity. unfold bindM at 1, orFatal, loadConfig, onM. cbn [w_fs w_trace app].
  by destruct (LoadConfiguration (str "/data") fs) as [[] fs'].
Qed.

(** The runs of [mainWith]: online or offline, and how each call ends. *)
Ltac main_cases :=
  unfold mainWith, startOnlineDependencies, InitializeStorage, CloseDatabase, orFatal, fatal, emit, modifyM, bindM, retM, failM;
  repeat match goal with
  | |- context [if negb ?b then _ else _] => destruct b; cbn [negb andb fst snd w_fs w_trace app]
  | |- context [if ?b then _ else _] => destruct b; cbn [negb andb fst snd w_fs w_trace app]
  end.

Lemma mainWith_orderly cfg fs : orderly (w_trace (mainWith cfg (mkWorld fs [Signals])).2).
Proof.
  main_cases; unfold orderly; cbn; (split; [done|]);
    first [done | by eexists | lazymatch goal with |- exists pre e, ?t = _ /\ _ =>
      exists (removelast t); eexists; split; [reflexivity|auto] end].
Qed.

(** The tasks of each mode, in the order in which they are started. *)
Definition mode_tasks (cfg : Configuration) : list Task :=
  [MonitorMemoryUsage]
  ++ (if cfg_Online cfg then [StartThoughtdTask (cfg_ConfigPath cfg); SyncTask; PruneTask] else [])
  ++ [ListenAndServe (str ":" ++ FormatInt (cfg_Port cfg)); Shutdown].

(** What has to go well before the process serves requests. *)
Definition starts (cfg : Configuration) : bool :=
  (if cfg_Online cfg then opensDatabase (cfg_IndexerPath cfg) && clientAsserter cfg else true) && serverAsserter cfg.

Lemma mainWith_tasks cfg fs :
  let t := w_trace (mainWith cfg (mkWorld fs [Signals])).2 in
  tasks t `prefix_of` mode_tasks cfg
  /\ (if starts cfg then tasks t = mode_tasks cfg /\ after_wait t <> None else after_wait t = None)
  /\ (existsb is_open t = true <-> cfg_Online cfg = true /\ opensDatabase (cfg_IndexerPath cfg) = true).
Proof.
  cbv zeta. unfold mode_tasks, starts. main_cases; split_and!; try done; first [by eexists | eexists; reflexivity | naive_solver].
Qed.

(** The end of the process: it returns exactly if it starts, the database can be
    closed, no signal was received and no goroutine failed. *)
Lemma mainWith_returns cfg w :
  (mainWith cfg w).1 = Ret tt
  <-> starts cfg = true /\ (cfg_Online cfg = true -> closesDatabase = true) /\ signalReceived = false /\ waitError = false.
Proof. unfold starts. main_cases; naive_solver. Qed.
End order.


(** Both modes, in an environment where every call succeeds. *)
Definition sample_env (mode : bytes) : Env := {|
  FS := unit;
  Getenv name := if bool_decide (name = str "MODE") then mode
                 else if bool_decide (name = str "NETWORK") then Mainnet else str "8080";
  MkdirAll _ fs := (true, fs) |}.

Definition sample_host (mode : bytes) : @Host (sample_env mode) :=
  @Build_Host (sample_env mode) (fun _ => true) (fun _ => true) (fun _ => true) false true false true true true true.

