(* ===== verification/Logging.v ===== *)
(** Logging: the output of the node (thought/node.go, [logPipe]) and the codes of
    responses (services/logger.go).

    The pipe of the node is the bytes it writes until it ends; what is logged is a
    list of entries. *)

From S2P Require Import Prelude WireNames.

Inductive Level := Debug | Warn.

(** [reader.ReadString('\n')]: the text up to the newline, or [None] for an error
    at the end of the input, where what was read is dropped. *)
Fixpoint ReadString (s : bytes) : option (bytes * bytes) :=
  match s with
  | [] => None
  | c :: s =>
      if bool_decide (c = z2b 10) then Some ([c], s)
      else match ReadString s with Some (l, r) => Some (c :: l, r) | None => None end
  end.

(** [strings.ReplaceAll(s, "\n", "")] *)
Definition dropNewlines (s : bytes) : bytes := filter (fun c => c <> z2b 10) s.

(** [strings.SplitAfterN(s, " ", 2)] *)
Fixpoint SplitAfterSpace (s : bytes) : list bytes :=
  match s with
  | [] => [[]]
  | c :: s =>
      if bool_decide (c = z2b 32) then [[c]; s]
      else match SplitAfterSpace s with t :: ts => (c :: t) :: ts | [] => [[c]] end
  end.

Definition thoughtdLogger : bytes := str "thoughtd".
Definition thoughtdStdErrLogger : bytes := str "thoughtd stderr".

Definition logLine (identifier line : bytes) : Level * bytes :=
  let message := dropNewlines line in
  let messages := SplitAfterSpace message in
  let message := match messages with _ :: m :: _ => m | _ => message end in
  (if bool_decide (identifier = thoughtdLogger) then Debug else Warn, message).

(** The loop ends when the reader has an error, which is reported and returned. *)
Definition closedPipe : Level * bytes := (Warn, str "closing logger").

Fixpoint logPipe (fuel : nat) (identifier s : bytes) : outcome Empty_set (list (Level * bytes)) :=
  match fuel with
  | O => NoFuel
  | S fuel =>
      match ReadString s with
      | None => Ret [closedPipe]
      | Some (line, rest) =>
          let! l := logPipe fuel identifier rest in Ret (logLine identifier line :: l)
      end
  end.

(** ** services/logger.go *)

(** The codes that were passed on to the writer, and the last one. *)
Record StatusRecorder := mkStatusRecorder { ResponseWriter : list Z; Code : Z }.

Definition NewStatusRecorder (w : list Z) : StatusRecorder := mkStatusRecorder w 200.

Definition WriteHeader (code : Z) (r : StatusRecorder) : StatusRecorder :=
  mkStatusRecorder (ResponseWriter r ++ [code]) code.

(** The handler inside is the codes it writes; the result is what reaches the
    writer and the code that is logged. *)
Definition LoggerMiddleware (inner : list Z) (w : list Z) : list Z * Z :=
  let recorder := fold_left (fun r code => WriteHeader code r) inner (NewStatusRecorder w) in
  (ResponseWriter recorder, Code recorder).

(** ** Properties *)

Lemma ReadString_fields s :
  match ReadString s with
  | Some (line, rest) =>
      exists l, line = l ++ [z2b 10] /\ z2b 10 ∉ l /\ fields (z2b 10) s = l :: fields (z2b 10) rest
        /\ (length rest < length s)%nat
  | None => fields (z2b 10) s = [s]
  end.
Proof.
  induction s as [|c s IH]; [done|]. cbn [ReadString fields]. case_bool_decide as Hc.
  { subst c. exists []. split_and!; [done|apply not_elem_of_nil|done|cbn; lia]. }
  destruct (ReadString s) as [[line rest]|].
  - destruct IH as (l & -> & Hl & -> & Hlen). exists (c :: l). split_and!; [done| |done|cbn; lia].
    apply not_elem_of_cons. split; [congruence|done].
  - by rewrite IH.
Qed.

Lemma fields_nonempty c s : fields c s <> [].
Proof. destruct s as [|x s]; [done|]. cbn [fields]. case_bool_decide; [done|]. by destruct (fields c s). Qed.

Lemma dropNewlines_line l : z2b 10 ∉ l -> dropNewlines (l ++ [z2b 10]) = l.
Proof.
  intros Hl. unfold dropNewlines. rewrite filter_app, filter_cons_False, filter_nil, app_nil_r by tauto.
  induction l as [|c l IH]; [done|]. apply not_elem_of_cons in Hl as [Hc Hl].
  rewrite filter_cons_True by congruence. by rewrite IH.
Qed.

Lemma SplitAfterSpace_none m : z2b 32 ∉ m -> SplitAfterSpace m = [m].
Proof.
  induction m as [|c m IH]; [done|]. intros [Hc Hm]%not_elem_of_cons. cbn [SplitAfterSpace].
  rewrite bool_decide_false by congruence. by rewrite IH.
Qed.

Lemma SplitAfterSpace_cut t m : z2b 32 ∉ t -> SplitAfterSpace (t ++ z2b 32 :: m) = [t ++ [z2b 32]; m].
Proof.
  induction t as [|c t IH]; [done|]. intros [Hc Ht]%not_elem_of_cons. cbn [app SplitAfterSpace].
  rewrite bool_decide_false by congruence. by rewrite IH.
Qed.

(** The output of the node is logged line by line, at the level of its pipe: a line
    without its first word and the space after it, if it has a space; a last line
    that is not ended is dropped. *)
Theorem logPipe_lines identifier s :
  logPipe (S (length s)) identifier s
  = Ret (map (fun l => logLine identifier (l ++ [z2b 10])) (removelast (fields (z2b 10) s)) ++ [closedPipe])
  /\ forall t m, z2b 10 ∉ t ++ m -> z2b 32 ∉ t ->
     (logLine identifier ((t ++ z2b 32 :: m) ++ [z2b 10])).2 = m
     /\ (logLine identifier (t ++ [z2b 10])).2 = t.
Proof.
  split.
  - assert (forall fuel s, (length s < fuel)%nat -> logPipe fuel identifier s
      = Ret (map (fun l => logLine identifier (l ++ [z2b 10])) (removelast (fields (z2b 10) s)) ++ [closedPipe])) as H;
      [|apply H; lia].
    clear s. induction fuel as [|fuel IH]; intros s Hs; [lia|]. cbn [logPipe].
    pose proof (ReadString_fields s) as Hr. destruct (ReadString s) as [[line rest]|].
    + destruct Hr as (l & -> & Hl & -> & Hlen). rewrite IH by lia. cbn [bindO removelast].
      by destruct (fields (z2b 10) rest) eqn:Ef; [destruct (fields_nonempty (z2b 10) rest)|].
    + by rewrite Hr.
  - intros t m Hn Ht. apply not_elem_of_app in Hn as [Hnt Hnm]. unfold logLine. cbn [snd]. split.
    + rewrite dropNewlines_line, SplitAfterSpace_cut; [done|done|].
      intros [?|[?|?]%elem_of_cons]%elem_of_app; done.
    + by rewrite dropNewlines_line, SplitAfterSpace_none.
Qed.

Lemma logPipe_lines_witness :
  (logLine thoughtdLogger (str "2021-05-04T00:00:00Z UpdateTip: new best" ++ [z2b 10])).2
  = str "UpdateTip: new best".
Proof.
  apply (proj2 (logPipe_lines thoughtdLogger []) (str "2021-05-04T00:00:00Z") (str "UpdateTip: new best"));
    vm_compute; intros H; repeat (apply elem_of_cons in H as [H|H]; [discriminate H|]);
    by apply not_elem_of_nil in H.
Defined.

(** The writer gets every code of the handler, and the code that is logged is the
    last one, or 200 if the handler wrote none. *)
Theorem LoggerMiddleware_code inner w :
  LoggerMiddleware inner w = (w ++ inner, default 200 (last inner)).
Proof.
  unfold LoggerMiddleware. induction inner as [|c inner IH] using rev_ind; [by rewrite app_nil_r|].
  rewrite fold_left_app, last_snoc. cbn [fold_left]. injection IH as E _. cbn [ResponseWriter Code WriteHeader].
  by rewrite E, <- app_assoc.
Qed.
